(* ===== verification/_CoqProject ===== *)
-Q . S2P
Prelude.v
Money.v
Dates.v
Model.v
Allocation.v
Schedule.v
Solve.v
Declining.v
Calendar.v
Sha256.v
Ledger.v
Projection.v
Fees.v
PlanBase.v
BudgetRules.v
PlanInput.v
SimState.v
Effects.v
Answer.v
Strategies.v
Candidates.v
Dynamic.v
Sim.v
SimLogic.v
Tidy.v
Quotes.v
Obligations.v
Memo.v
Ladder.v
Search.v
Workers.v
Exhaust.v
Rank.v
Optimal.v
Stress.v
Comparison.v
Sharing.v
Timely.v
Payments.v
Books.v
Cycles.v
Routing.v
Events.v
Dues.v
Periods.v
Runs.v
Ends.v
Corners.v
Fingerprint.v
PlanCache.v
AdminAccess.v
AdminSecurity.v
Inbox.v
Budget.v
Permissions.v
Pauses.v
Declarations.v
