(* ===== verification/Prelude.v ===== *)
(** * Marum: a loan ledger and repayment planner

    Marum is a Telegram bot and mini app that keeps the debts of a borrower and
    plans how to pay them off. The repository is Go. Its engine, under
    [src/pkg/core], is pure: amounts are [int64] counts of minor units, dates
    carry no clock, a loan's position is replayed from recorded facts, and the
    planner plays repayment policies forward and compares what they come to. The
    application, under [src/internal/app], keeps that engine safe to use: it
    caches searches, leases commands to workers, turns approved budgets into
    dated permissions and decides who may publish a lending rule.

    This library models both, from the source, and proves what makes them
    correct. Definitions keep the Go names; where two packages use one name the
    file qualifies it ([Ledger.Build], [Schedule.Build]). Everything that is code
    is executable: the witnesses and the examples evaluate it on real figures.

    ** How Go is read

    - A Go call that can fail is a [result]: a value ([Ok]), an error ([Err]) or a
      run-time panic ([Panic]) that nothing recovers from. Errors are data, with
      the sentinel they wrap ([errors_Is]), so the error a caller sees is part of
      a statement. Functions that hand a value back next to an error
      ([allocation.Apply]) return both.
    - [int64] is [Z] with its wrap-around written out ([iadd], [imul], [i64]);
      128-bit intermediates of [math/bits] and [math/big] are as wide as they are.
    - A Go map is a [gmap]; where Go ranges over one, the order is a parameter, or
      the keys are sorted as the code sorts them.
    - Mutable objects are explicit state. The simulator is a state monad ([M])
      over one record with loans and buckets addressed by index, so writes through
      aliases are seen; the search is a state monad of its own ([Step]).
    - Goroutines, callers, workers and transactions are steps of a transition
      system, chosen by an environment; theorems are about every interleaving.
    - A loop without a structural measure runs on fuel, and that the fuel is
      enough is proved, never assumed (see below).

    ** The parts

    [Prelude] holds results, errors, machine integers, decimal texts and stable
    sorting. The rest follows the packages.

    Money and time. [Money]: [money/] (currencies, rounding modes, checked
    arithmetic, accrual, JSON). [Dates]: [date/] (the proleptic calendar, month
    arithmetic, day counts, texts). [Model]: [model/].

    One loan. [Allocation]: [allocation/], where a payment goes. [Schedule],
    [Solve], [Declining], [Calendar]: [amortisation/], the two repayment
    structures, the search for the instalment, and what is common. [Ledger]:
    [ledger/], replay of a loan from its entries, with the hash of what was
    replayed over [Sha256]. [Projection]: [projection/], month by month capacity.

    The plan. [Fees], [BudgetRules], [PlanBase], [PlanInput] (what the planner is
    told, and its validation). [SimState], [Sim]: one policy on one timeline; a
    step handles one event, and [run] plays events until the debts are clear.
    [Strategies], [Candidates], [Search], [Rank]: the axes of the search, the
    goroutines that simulate, ranking and certificate. [Ladder]: budgets instead of
    policies. [Dynamic]: the reduced dynamic search. [Comparison], [Stress]:
    reports. [Answer], [Effects]: comparators, and the monad of the search.

    What is known of the simulator is built up in files of lemmas: [SimLogic],
    [Quotes], [Obligations], [Payments], [Cycles], [Routing], [Dues], [Periods],
    [Events] and [Books] carry one invariant ([Inv]) through every method; [Runs],
    [Timely], [Ends], [Tidy] and [Memo] use it. [Workers], [Exhaust], [Optimal] and
    [Sharing] do the same for the search. [Corners] works through corner cases.

    The application. [Fingerprint], [PlanCache]: [app/plancache.go] and
    [planner_capacity.go], the cache every search goes through. [AdminAccess],
    [AdminSecurity]: who may do what, and the review of allocation rules by two
    persons, over the tables of [adapter/out/postgres/admin_security.go]. [Inbox]:
    the durable command queue of [app/inbox.go], the worker loop around a command
    and the SQL of [queries/telegram.sql]. [Budget], [Permissions], [Pauses]:
    [app/budget_policies.go], [planning_start.go] and the budget of [loans.go], which
    feed [PlanInput] the permissions [Sim] spends under. [Declarations]:
    [app/budget_funding.go], the cash to come and where it is to go.

    The parts meet in few places. The simulator asks [Calendar] for the next
    instalment through a memo ([projection.go]); [Memo.run_alike] shows the memo
    never shows. The search calls the simulator, [Comparison], [Ladder] and [Stress]
    call both. [PlanCache] is given the search as a function of the question that
    [Fingerprint] identifies. [Permissions] speaks of [in_force], the reading the
    simulator itself makes of a spending plan.

    ** What is shown

    - Books. Between any two events no money is negative and every unit credited
      is with a lender, in the pool, in a bucket or with the household
      ([Runs.reachable_books]); a finished run closed every loan for exactly its debt
      plus interest and fees ([Runs.simulate_settles]); optional payments leave the
      reserve floor and the money held back in the pool, but for money promised to
      a due date in a plan without declared spending
      ([Runs.optional_payments_keep_reserve], [Corners.promise_breaks_the_floor]);
      figures stay in one currency ([Tidy.results_typed]).
    - Time. Events come in order and every run ends ([Ends.turns_in_order],
      [Ends.run_ends]).
    - The search. A static policy chooses an order, an effect and a timing for each
      loan and one threshold; the candidates are exactly those whose timings are
      tried, which without fees are two of the mixes ([Exhaust.candidates_exhaustive]);
      a certified best is beaten by none of them, and by no static policy at all
      where at most one loan can be credited early ([Optimal.Search_best],
      [Optimal.mixed_timing_does_better]); scheduling decides nothing
      ([Workers.workers_agree], [Workers.simulateAll_serial]); ranking is canonical
      ([Answer.ranking_canonical]); sharing runs changes no row
      ([Sharing.Compare_shares]); the inverse search answers with a least budget or
      says exactly why there is none ([Ladder.BudgetFor_least]); the dynamic search
      is optimal ([Dynamic.SearchDynamic_optimal]).
    - One loan. Schedules equal exact arithmetic ([Schedule.Project_exact]), end at
      zero ([Calendar.Build_settles]) and use the least instalment
      ([Solve.Solve_least]); accrual is exact or refused ([Money.Accrue_exact]);
      allocation conserves the payment ([Allocation.Apply_conserves]); replay is
      sound, independent of storage order, and its hash identifies its entries
      ([Ledger.Replay_sound] and its companions); a projected payoff is the end of
      every loan's account, with interest for the days that passed
      ([Projection.Build_finish_settles]).
    - The cache. Every answer, error or not, is the search's own or the end of the
      caller's own context ([PlanCache.cache_answers]), every
      caller is served ([PlanCache.callers_served]), the bounds hold
      ([PlanCache.cache_orderly]), and what is hashed identifies the question
      ([Fingerprint.searchFingerprint_identifies]).
    - Authority. Use cases implement abstract rules whatever statement fails
      ([AdminSecurity.use_cases_follow_rules]), which say what changes without a
      capability and without an audit entry; apart from the rows that migrations
      insert, no rule the ledger can read was reviewed or published by its author
      ([AdminSecurity.two_persons]); records are final and
      one-time codes work once.
    - The queue. No command is completed twice, one goroutine works at it at a
      time, attempts are bounded (the properties of [Inbox]).
    - Budgets. Dated permissions are, on every day, what the rule of the day gives
      ([Permissions.permissions_by_rule]); a pause touches only the days before it
      ends, and raises a limit only where a later cut would meet what was spent
      ([Pauses.pause_keeps]); what is declared of cash to come passes the checks of
      the planner but two ([Declarations.declared_cash_is_routable]).

    Many further theorems stand in the files of their components: the priority of
    buckets, the tiling of an accrual by contract versions, growth in closed form,
    released payments, round trips of dates and amounts, the tiling of the calendar
    by permission cycles. Where the code does not do what it says, an example shows
    the case ([Corners], and in the file of the component).

    ** Fuel and bounds

    The event loop: the days to the horizon times the work of one day
    ([Ends.turns_left]). Bisections: 64 steps, each halving a difference of two
    [int64]. Accrual across versions: one step per version. Growth of a limit: one
    step per month to the month asked for. Cycle boundaries of a budget: 602, for a
    horizon of 600 months ([Permissions.later_boundaries_spec]). Making room in the
    cache: its size; a caller of the cache moves a bounded number of times, which
    [PlanCache.callers_served] counts. The dynamic search carries the code's own cap
    on work. Dates are unbounded in the calendar; statements about permissions ask
    for years 1 to 9949, the years [Validate] lets a policy start in.

    ** What is asked of the rest

    - [clear_terms]: contracts with one fingerprint are one contract, and debts are
      in the plan's currency. The planner's fingerprint leaves a field out
      ([Corners.fingerprint_omits_deferral]), so this is a condition on the plan.
      [apart_minimums]: thresholds that print alike are alike.
    - A context is asked at each poll and may end at any; the number of cores and
      the schedule of goroutines are arbitrary.
    - [PlanCache]: the search is a function of the question; [json.Marshal] gives a
      length. [AdminSecurity]: [canonical] and [valid_json] stand for
      [encoding/json], [fault] says which statement fails, [clock] what the time is,
      [signPolicy] for the signer. Its transactions lock the rows they read, so they
      are run one after another; the normalisation Postgres makes of [jsonb] is left
      out. [Inbox]: tokens ([uuid]) are distinct, [skew] is how far the clock of the
      database is ahead.

    ** What is not modelled

    [amortisation/explain.go] renders texts. [SharedInputHash] hashes an input as
    [fmt] prints it by reflection. The other use cases of [app/] read rows, call the
    engine and write outcomes; the adapters are HTTP, Telegram and SQL; the rest is
    configuration, logging, catalogues, fixtures and scripts. Of the budget, the
    preparation of a monthly change, the command that sets a pause and the release
    facts a plan carries for the record are left out. Error texts keep their format
    and not their operands. *)
From Stdlib Require Export ZArith Lia.
From stdpp Require Export base option list strings gmap sorting.

#[export] Set Default Proof Using "Type".
#[export] Set Warnings "-clear-no-such-hyp".
#[global] Open Scope Z_scope.

(** * Results *)

(** What a Go call that can fail gives back: a value, a non-nil [error], or a
    run-time panic, which no caller in the modelled code recovers from. *)
Inductive result (E A : Type) : Type :=
| Ok (a : A)
| Err (e : E)
| Panic (why : string).
Arguments Ok {_ _} _.
Arguments Err {_ _} _.
Arguments Panic {_ _} _.

#[export] Instance result_ret {E} : MRet (result E) := λ _ a, Ok a.
#[export] Instance result_bind {E} : MBind (result E) := λ _ _ k m,
  match m with Ok a => k a | Err e => Err e | Panic w => Panic w end.

Lemma bind_Ok {E A B} (m : result E A) (k : A → result E B) b :
  (m ≫= k) = Ok b ↔ ∃ a, m = Ok a ∧ k a = Ok b.
Proof.
  split; [|by intros (a & -> & ?)].
  destruct m; simpl; intros H; [by eauto | discriminate H | discriminate H].
Qed.

(** A call that succeeds exactly when [P], with the value [v], in front of a
    rest whose success is known under [P]. *)
Lemma bind_chain {E A B} (m : result E A) (k : A → result E B) r v (P Q : Prop) :
  (∀ a, m = Ok a ↔ P ∧ a = v) → (P → k v = Ok r ↔ Q) → (m ≫= k) = Ok r ↔ P ∧ Q.
Proof. intros Hm Hk. rewrite bind_Ok. setoid_rewrite Hm. naive_solver. Qed.

(** The three ways a sequence starts. *)
Lemma bind_of_Ok {E A B} (a : A) (k : A → result E B) : (Ok a ≫= k) = k a.
Proof. done. Qed.
Lemma bind_of_Err {E A B} (e : E) (k : A → result E B) : (Err e ≫= k) = Err e.
Proof. done. Qed.
Lemma bind_of_Panic {E A B} w (k : A → result E B) : (Panic w ≫= k) = Panic w.
Proof. done. Qed.

Lemma bind_assoc {E A B C} (m : result E A) (f : A → result E B) (g : B → result E C) :
  ((m ≫= f) ≫= g) = (m ≫= λ a, f a ≫= g).
Proof. by destruct m. Qed.

(** Whether a call came back with a value. *)
Definition is_ok {E A} (m : result E A) : bool :=
  match m with Ok _ => true | _ => false end.

(** [inv_res] opens every successful sequence of calls among the hypotheses
    into the successes it is made of. *)
Ltac inv_res :=
  repeat match goal with
  | H : Ok _ = Ok _ |- _ => injection H; clear H; intros; subst
  | H : Err _ = Ok _ |- _ => discriminate H
  | H : Panic _ = Ok _ |- _ => discriminate H
  | H : mret _ = Ok _ |- _ => injection H; clear H; intros; subst
  | H : (_ ≫= _) = Ok _ |- _ =>
      let a := fresh "r" in let Ha := fresh "Hr" in
      apply bind_Ok in H as (a & Ha & H); simpl in H
  end.

(** [case_if] splits the hypothesis or goal on its leading boolean test. *)
Ltac case_if_in H :=
  match type of H with
  | context [if ?b then _ else _] => let E := fresh "E" in destruct b eqn:E
  end.

(** [case_test E] splits the goal on its leading boolean test. *)
Ltac case_test E :=
  match goal with |- context [if ?b then _ else _] => destruct b eqn:E end.

(** The sentinel errors of the modelled packages. *)
Inductive sentinel :=
| ErrOverflow | ErrNegative | ErrUnknownCurrency | ErrAccrualRange
| ErrDateInvalid | ErrModelInvalid | ErrUnknownPolicy | ErrNoContract
| ErrUnsolvable | ErrProjectionInvalid | ErrNoLoans | ErrHorizon | ErrInvariant.
#[export] Instance sentinel_eq_dec : EqDecision sentinel.
Proof. solve_decision. Defined.

(** A Go error: a sentinel, or a message built by [fmt.Errorf] (its format
    string; the operands are not kept) with the error it wraps by [%w]. *)
Inductive gerror :=
| Sentinel (s : sentinel)
| Errorf (format : string)
| Wrapf (format : string) (wrapped : gerror).

Abbreviation res := (result gerror).

(** [errors.Is] for a sentinel target: along the chain of wrapped errors. *)
Fixpoint errors_Is (e : gerror) (s : sentinel) : bool :=
  match e with
  | Sentinel t => bool_decide (t = s)
  | Wrapf _ e' => errors_Is e' s
  | Errorf _ => false
  end.

Definition errorf {A} (format : string) : res A := Err (Errorf format).
Definition errorf_w {A} (format : string) (s : sentinel) : res A :=
  Err (Wrapf format (Sentinel s)).

(** [if err != nil { return fmt.Errorf(format, err) }]. *)
Definition wrap_err {A} (format : string) (m : res A) : res A :=
  match m with
  | Err e => Err (Wrapf format e)
  | m => m
  end.

Lemma wrap_err_Ok {A} f (m : res A) a : wrap_err f m = Ok a ↔ m = Ok a.
Proof. by destruct m. Qed.

(** * Lists *)

Lemma filter_all {A} (P : A → Prop) `{∀ x, Decision (P x)} (l : list A) :
  (∀ x, x ∈ l → P x) → filter P l = l.
Proof.
  induction l as [|x l IH]; intros Hl; [done|]. rewrite filter_cons, decide_True by (apply Hl; by left).
  f_equal. apply IH. intros y Hy. apply Hl. by right.
Qed.

(** The sum of a figure over a list. *)
Definition sum_by {A} (f : A → Z) (l : list A) : Z := foldr (λ r t, f r + t) 0 l.

Lemma sum_by_app {A} (f : A → Z) l l' : sum_by f (l ++ l') = sum_by f l + sum_by f l'.
Proof. unfold sum_by. induction l as [|x l IH]; simpl; lia. Qed.

Lemma sum_by_perm {A} (f : A → Z) l l' : l ≡ₚ l' → sum_by f l = sum_by f l'.
Proof. unfold sum_by. induction 1; simpl; lia. Qed.

Lemma sum_by_nonneg {A} (f : A → Z) l : (∀ x, x ∈ l → 0 ≤ f x) → 0 ≤ sum_by f l.
Proof.
  unfold sum_by. induction l as [|x l IH]; intros Hl; simpl; [lia|].
  pose proof (Hl x ltac:(by left)). specialize (IH ltac:(intros y Hy; apply Hl; by right)).
  lia.
Qed.

(** * Go integers *)

Definition MaxInt64 : Z := 9223372036854775807.
Definition MinInt64 : Z := -9223372036854775808.
Definition two64 : Z := 18446744073709551616.

Definition in_i64 (z : Z) : Prop := MinInt64 ≤ z ≤ MaxInt64.

(** Two's-complement wrap-around to 64 bits, signed and unsigned. *)
Definition i64 (z : Z) : Z := (z - MinInt64) mod two64 + MinInt64.
Definition u64 (z : Z) : Z := z mod two64.

Definition iadd (a b : Z) : Z := i64 (a + b).
Definition isub (a b : Z) : Z := i64 (a - b).
Definition imul (a b : Z) : Z := i64 (a * b).
Definition ineg (a : Z) : Z := i64 (- a).

(** Division and remainder truncate towards zero and panic on a zero divisor. *)
Definition idiv {E} (a b : Z) : result E Z :=
  if b =? 0 then Panic "integer divide by zero" else Ok (i64 (Z.quot a b)).
Definition irem {E} (a b : Z) : result E Z :=
  if b =? 0 then Panic "integer divide by zero" else Ok (Z.rem a b).

(** [math/bits]: the 128-bit product as (hi, lo), and the 128-by-64 division,
    which panics on a zero divisor and on a quotient that would not fit. *)
Definition Mul64 (x y : Z) : Z * Z := ((x * y) / two64, (x * y) mod two64).
Definition Div64 {E} (hi lo y : Z) : result E (Z * Z) :=
  if y =? 0 then Panic "integer divide by zero"
  else if y <=? hi then Panic "integer overflow"
  else Ok ((hi * two64 + lo) / y, (hi * two64 + lo) mod y).

Lemma i64_in z : in_i64 (i64 z).
Proof.
  unfold in_i64, i64, two64, MinInt64, MaxInt64.
  pose proof (Z.mod_pos_bound (z - -9223372036854775808) 18446744073709551616). lia.
Qed.

Lemma i64_id z : in_i64 z → i64 z = z.
Proof.
  unfold in_i64, i64, two64, MinInt64, MaxInt64. intros.
  rewrite Z.mod_small by lia. lia.
Qed.

(** Wrapping an operand early does not change a wrapped sum. *)
Lemma i64_add_l x y : i64 (i64 x + y) = i64 (x + y).
Proof.
  unfold i64. f_equal.
  replace ((x - MinInt64) mod two64 + MinInt64 + y - MinInt64)
    with ((x - MinInt64) mod two64 + y) by lia.
  rewrite Zplus_mod_idemp_l. f_equal. lia.
Qed.

Lemma u64_id z : 0 ≤ z < two64 → u64 z = z.
Proof. intros. unfold u64. by apply Z.mod_small. Qed.

(** The value of an out-of-range sum or difference: one turn of the ring away. *)
Lemma i64_high z : MaxInt64 < z ≤ MaxInt64 + two64 → i64 z = z - two64.
Proof.
  unfold i64, two64, MinInt64, MaxInt64. intros.
  rewrite <- (Z.mod_unique_pos _ _ 1 (z - -9223372036854775808 - 18446744073709551616)); lia.
Qed.

Lemma i64_low z : MinInt64 - two64 ≤ z < MinInt64 → i64 z = z + two64.
Proof.
  unfold i64, two64, MinInt64, MaxInt64. intros.
  rewrite <- (Z.mod_unique_pos _ _ (-1) (z - -9223372036854775808 + 18446744073709551616)); lia.
Qed.

(** * Text *)

(** A bounded check, run by the kernel's evaluator. *)
Fixpoint all_from (n : nat) (z : Z) (P : Z → bool) : bool :=
  match n with
  | O => true
  | S n => P z && all_from n (z + 1) P
  end.

Lemma all_from_spec n z P : all_from n z P = true → ∀ i, z ≤ i < z + Z.of_nat n → P i = true.
Proof.
  revert z. induction n as [|n IH]; intros z H i Hi; [lia|].
  simpl in H. apply andb_true_iff in H as [Hz H].
  destruct (decide (i = z)) as [->|]; [done|]. apply (IH (z + 1)); [done|lia].
Qed.

Definition dash : Ascii.ascii := Ascii.ascii_of_nat 45.
Definition digit (z : Z) : Ascii.ascii := Ascii.ascii_of_nat (48 + Z.to_nat z).
Definition digit_val (c : Ascii.ascii) : option Z :=
  let n := Z.of_nat (Ascii.nat_of_ascii c) in
  if (48 <=? n) && (n <=? 57) then Some (n - 48) else None.

(** Reading a run of decimal digits, most significant first. *)
Definition digits_val (l : list Ascii.ascii) : option Z :=
  foldl (λ acc c, a ← acc; v ← digit_val c; Some (10 * a + v)) (Some 0) l.

Fixpoint digits_go (fuel : nat) (n : Z) (acc : list Ascii.ascii) : list Ascii.ascii :=
  match fuel with
  | O => acc
  | S fuel =>
      let acc := digit (n mod 10) :: acc in
      if n <? 10 then acc else digits_go fuel (n / 10) acc
  end.

(** ["%d"] of a non-negative number: one step per decimal digit, and there are
    at most as many as binary ones. *)
Definition decimal (n : Z) : list Ascii.ascii := digits_go (S (Z.to_nat (Z.log2 n))) n [].

(** ["%d"] and ["%0<width>d"]: the width counts the sign. *)
Definition Sprintf_d (n : Z) : list Ascii.ascii :=
  if n <? 0 then dash :: decimal (- n) else decimal n.
Definition Sprintf_0d (width : nat) (n : Z) : list Ascii.ascii :=
  let zeros k (l : list Ascii.ascii) := replicate (k - length l) (digit 0) ++ l in
  if n <? 0 then dash :: zeros (width - 1)%nat (decimal (- n)) else zeros width (decimal n).

Definition reads_back_4 (n : Z) : bool :=
  match Sprintf_0d 4 n with
  | [a; b; c; e] => bool_decide (digits_val [a; b; c; e] = Some n)
  | _ => false
  end.
Definition reads_back_2 (n : Z) : bool :=
  match Sprintf_0d 2 n with
  | [a; b] => bool_decide (digits_val [a; b] = Some n)
  | _ => false
  end.
Lemma four_digits : all_from (Z.to_nat 10000) 0 reads_back_4 = true.
Proof. vm_compute. reflexivity. Qed.
Lemma two_digits : all_from (Z.to_nat 100) 0 reads_back_2 = true.
Proof. vm_compute. reflexivity. Qed.

Lemma Sprintf_04d_digits n :
  0 ≤ n ≤ 9999 → ∃ a b c e, Sprintf_0d 4 n = [a; b; c; e] ∧ digits_val [a; b; c; e] = Some n.
Proof.
  intros Hn. pose proof (all_from_spec _ _ _ four_digits n) as H.
  specialize (H ltac:(lia)). unfold reads_back_4 in H.
  destruct (Sprintf_0d 4 n) as [|a [|b [|c [|e [|]]]]]; try done.
  apply bool_decide_eq_true in H. by exists a, b, c, e.
Qed.

Lemma Sprintf_02d_digits n :
  0 ≤ n ≤ 99 → ∃ a b, Sprintf_0d 2 n = [a; b] ∧ digits_val [a; b] = Some n.
Proof.
  intros Hn. pose proof (all_from_spec _ _ _ two_digits n) as H.
  specialize (H ltac:(lia)). unfold reads_back_2 in H.
  destruct (Sprintf_0d 2 n) as [|a [|b [|]]]; try done.
  apply bool_decide_eq_true in H. by exists a, b.
Qed.

(** * Stable sorting *)

(** [sort.SliceStable]: the stable ordering of a slice under [less], by
    insertion. For a strict weak order every stable sort gives this list. *)
Section Sorting.
Context {A : Type} (less : A → A → bool).

Fixpoint insert_by (x : A) (l : list A) : list A :=
  match l with
  | [] => [x]
  | z :: l' => if less z x then z :: insert_by x l' else x :: l
  end.

Definition SliceStable (l : list A) : list A := foldr insert_by [] l.

Lemma insert_by_perm x l : insert_by x l ≡ₚ x :: l.
Proof.
  induction l as [|z l IH]; [done|]. simpl. destruct (less z x); [|done].
  rewrite IH. apply Permutation_swap.
Qed.

Lemma SliceStable_perm l : SliceStable l ≡ₚ l.
Proof. induction l as [|x l IH]; [done|]. simpl. by rewrite insert_by_perm, IH. Qed.

(** [a] may stand before [b]. *)
Definition not_after (a b : A) : Prop := less b a = false.

(** Sorted, for a [less] that is an order on the elements of the list. *)
Section Sorted.
Context (P : A → Prop) (asym_on : ∀ a b, P a → P b → less a b = true → less b a = false).
Context (trans_on : ∀ a b c, P a → P b → P c → not_after a b → not_after b c → not_after a c).

Lemma insert_by_sorted_on x l :
  P x → Forall P l → StronglySorted not_after l → StronglySorted not_after (insert_by x l).
Proof using asym_on trans_on.
  intros Hx HP. induction 1 as [|z l Hl IH Hz]; simpl; [by repeat constructor|].
  apply Forall_cons in HP as [Hpz HP]. destruct (less z x) eqn:E.
  - constructor; [by apply IH|]. rewrite insert_by_perm. constructor; [|done]. by apply asym_on.
  - constructor; [by constructor|]. constructor; [done|]. rewrite Forall_forall in Hz, HP |- *.
    intros w Hw. apply (trans_on x z w); auto.
Qed.

Lemma SliceStable_sorted_on l : Forall P l → StronglySorted not_after (SliceStable l).
Proof using asym_on trans_on.
  induction 1 as [|x l Hx HP IH]; simpl; [constructor|]. apply insert_by_sorted_on; [done| |done].
  by rewrite SliceStable_perm.
Qed.
End Sorted.

Context (less_asym : ∀ a b, less a b = true → less b a = false).
Context (not_after_trans : ∀ a b c, not_after a b → not_after b c → not_after a c).

Lemma SliceStable_sorted l : StronglySorted not_after (SliceStable l).
Proof using less_asym not_after_trans.
  apply (SliceStable_sorted_on (λ _, True)); [auto|eauto|by apply Forall_forall].
Qed.

(** A list no two elements of which tie has one sorted arrangement, whatever
    order it arrives in. *)
Lemma SliceStable_canonical l l' :
  l ≡ₚ l' →
  (∀ a b, a ∈ l → b ∈ l → not_after a b → not_after b a → a = b) →
  SliceStable l = SliceStable l'.
Proof using less_asym not_after_trans.
  intros Hp Hties. apply (StronglySorted_unique_strong not_after).
  - intros a b Ha Hb. apply Hties; [by rewrite <- SliceStable_perm|].
    by rewrite Hp, <- SliceStable_perm.
  - apply SliceStable_sorted.
  - apply SliceStable_sorted.
  - by rewrite !SliceStable_perm.
Qed.
End Sorting.

Lemma SliceStable_idemp {A} (less : A → A → bool) l : StronglySorted (not_after less) l → SliceStable less l = l.
Proof.
  induction 1 as [|x l Hl IH Hx]; [done|]. cbn. unfold SliceStable in IH. rewrite IH.
  destruct Hx as [|y l Hy Hx]; [done|]. cbn. unfold not_after in Hy. by rewrite Hy.
Qed.

(** * Strings in order *)

(** Go compares strings byte by byte. *)
Lemma string_ltb_irrefl s : String.ltb s s = false.
Proof.
  unfold String.ltb. pose proof (String.compare_antisym s s) as H. by destruct (String.compare s s).
Qed.

Lemma string_ltb_trichotomy s t : String.ltb s t = true ∨ s = t ∨ String.ltb t s = true.
Proof.
  unfold String.ltb. rewrite (String.compare_antisym t s). destruct (String.compare s t) eqn:E; cbn; auto.
  apply String.compare_eq_iff in E. auto.
Qed.

Lemma string_ltb_asym s t : String.ltb s t = true → String.ltb t s = false.
Proof.
  unfold String.ltb. rewrite (String.compare_antisym t s). by destruct (String.compare s t).
Qed.

Lemma ascii_compare_code a b : Ascii.compare a b = N.compare (Ascii.N_of_ascii a) (Ascii.N_of_ascii b).
Proof. done. Qed.

Lemma string_ltb_trans s : ∀ t u, String.ltb s t = true → String.ltb t u = true → String.ltb s u = true.
Proof.
  unfold String.ltb. induction s as [|a s IH]; intros [|b t] [|c u]; cbn; try done.
  rewrite !ascii_compare_code. specialize (IH t u).
  destruct (N.compare_spec (Ascii.N_of_ascii a) (Ascii.N_of_ascii b)),
    (N.compare_spec (Ascii.N_of_ascii b) (Ascii.N_of_ascii c)),
    (N.compare_spec (Ascii.N_of_ascii a) (Ascii.N_of_ascii c)); try done; try lia; auto.
Qed.

(** * Texts put together *)

Lemma append_assoc (a b c : string) : String.append a (String.append b c) = String.append (String.append a b) c.
Proof. induction a as [|x a IH]; [done|]. exact (f_equal (String.String x) IH). Qed.
Lemma append_nil_r (s : string) : s +:+ "" = s.
Proof. induction s as [|c s IH]; [done|]. exact (f_equal (String.String c) IH). Qed.
