(* ===== verification/Money.v ===== *)
(** Amounts, currencies, rounding and accrual: [pkg/core/money].

    An amount is an [int64] count of minor units with its currency. Every
    operation below wraps, fails or panics where the Go one does. *)
From S2P Require Import Prelude.

(** * currency.go *)

Record Currency := MkCurrency {
  Code : string;
  Exponent : Z;        (* uint8 *)
  SettlementUnit : Z;  (* int64 *)
  Name : string }.
#[export] Instance Currency_eq_dec : EqDecision Currency.
Proof. solve_decision. Defined.

Definition registry_rows : list Currency := [
  MkCurrency "AMD" 2 10 "Armenian dram";
  MkCurrency "GEL" 2 1 "Georgian lari";
  MkCurrency "RUB" 2 1 "Russian rouble";
  MkCurrency "USD" 2 1 "US dollar";
  MkCurrency "EUR" 2 1 "Euro";
  MkCurrency "GBP" 2 1 "Pound sterling";
  MkCurrency "CHF" 2 1 "Swiss franc";
  MkCurrency "AED" 2 1 "UAE dirham";
  MkCurrency "TRY" 2 1 "Turkish lira";
  MkCurrency "CNY" 2 1 "Chinese yuan";
  MkCurrency "INR" 2 1 "Indian rupee";
  MkCurrency "CAD" 2 1 "Canadian dollar";
  MkCurrency "AUD" 2 1 "Australian dollar";
  MkCurrency "PLN" 2 1 "Polish zloty";
  MkCurrency "CZK" 2 1 "Czech koruna";
  MkCurrency "SEK" 2 1 "Swedish krona";
  MkCurrency "NOK" 2 1 "Norwegian krone";
  MkCurrency "DKK" 2 1 "Danish krone";
  MkCurrency "ILS" 2 1 "Israeli new shekel";
  MkCurrency "UAH" 2 1 "Ukrainian hryvnia";
  MkCurrency "KZT" 2 1 "Kazakhstani tenge";
  MkCurrency "JPY" 0 1 "Japanese yen";
  MkCurrency "KRW" 0 1 "South Korean won";
  MkCurrency "ISK" 0 1 "Icelandic krona";
  MkCurrency "CLP" 0 1 "Chilean peso";
  MkCurrency "VND" 0 1 "Vietnamese dong";
  MkCurrency "HUF" 2 1 "Hungarian forint";
  MkCurrency "KWD" 3 1 "Kuwaiti dinar";
  MkCurrency "BHD" 3 1 "Bahraini dinar";
  MkCurrency "OMR" 3 1 "Omani rial";
  MkCurrency "JOD" 3 1 "Jordanian dinar";
  MkCurrency "TND" 3 1 "Tunisian dinar";
  MkCurrency "IQD" 3 1 "Iraqi dinar";
  MkCurrency "LYD" 3 1 "Libyan dinar" ].

(** The registry is keyed by the code each row carries. *)
Definition registry : gmap string Currency :=
  list_to_map ((λ c, (Code c, c)) <$> registry_rows).

Definition AMD : Currency := MkCurrency "AMD" 2 10 "Armenian dram".

(** [strings.TrimSpace] and [strings.ToUpper] on the ASCII range. *)
Definition is_space (c : Ascii.ascii) : bool :=
  let n := Ascii.nat_of_ascii c in
  (Nat.leb 9 n && Nat.leb n 13) || Nat.eqb n 32.
Fixpoint drop_space (l : list Ascii.ascii) : list Ascii.ascii :=
  match l with
  | c :: l' => if is_space c then drop_space l' else l
  | [] => []
  end.
Definition TrimSpace (s : string) : string :=
  String.string_of_list_ascii
    (rev (drop_space (rev (drop_space (String.list_ascii_of_string s))))).
Definition upper_ascii (c : Ascii.ascii) : Ascii.ascii :=
  let n := Ascii.nat_of_ascii c in
  if Nat.leb 97 n && Nat.leb n 122 then Ascii.ascii_of_nat (n - 32) else c.
Definition ToUpper (s : string) : string :=
  String.string_of_list_ascii (map upper_ascii (String.list_ascii_of_string s)).

Definition Lookup (code : string) : res Currency :=
  match registry !! ToUpper (TrimSpace code) with
  | Some c => Ok c
  | None => errorf_w "%w: %q" ErrUnknownCurrency
  end.

Definition MustLookup (code : string) : res Currency :=
  match Lookup code with
  | Err _ => Panic "unknown currency"
  | r => r
  end.

(** * money.go *)

Record Amount := MkAmount { minor : Z; cur : Currency }.
#[export] Instance Amount_eq_dec : EqDecision Amount.
Proof. solve_decision. Defined.

Definition Zero (c : Currency) : Amount := MkAmount 0 c.
Definition FromMinor (m : Z) (c : Currency) : Amount := MkAmount m c.

(** The zero values of the two types: what Go gives an unset field. *)
Definition no_currency : Currency := MkCurrency "" 0 0 "".
Definition no_amount : Amount := MkAmount 0 no_currency.

Definition pow10 (e : Z) : Z := Nat.iter (Z.to_nat e) (λ p, imul p 10) 1.

Definition FromMajor (major : Z) (c : Currency) : res Amount :=
  let scale := pow10 (Exponent c) in
  hi ← (if major =? 0 then Ok 0 else idiv MaxInt64 scale);
  lo ← (if major =? 0 then Ok 0 else idiv MinInt64 scale);
  if negb (major =? 0) && ((hi <? major) || (major <? lo))
  then errorf_w "%w: %d %s" ErrOverflow
  else Ok (MkAmount (imul major scale) c).

Definition IsZero (a : Amount) : bool := minor a =? 0.
Definition Sign (a : Amount) : Z :=
  if 0 <? minor a then 1 else if minor a <? 0 then -1 else 0.

(** A currency mismatch is a programmer error and panics. *)
Definition mustMatch (a b : Amount) : res unit :=
  if String.eqb (Code (cur a)) (Code (cur b)) then Ok tt
  else Panic "money: currency mismatch".

Definition Add (a b : Amount) : res Amount :=
  _ ← mustMatch a b;
  let sum := iadd (minor a) (minor b) in
  if ((0 <? minor a) && (0 <? minor b) && (sum <? 0)) ||
     ((minor a <? 0) && (minor b <? 0) && (0 <=? sum))
  then errorf_w "%w: %d + %d" ErrOverflow
  else Ok (MkAmount sum (cur a)).

Definition Sub (a b : Amount) : res Amount :=
  _ ← mustMatch a b;
  let diff := isub (minor a) (minor b) in
  if ((minor b <? 0) && (diff <? minor a)) || ((0 <? minor b) && (minor a <? diff))
  then errorf_w "%w: %d - %d" ErrOverflow
  else Ok (MkAmount diff (cur a)).

Definition Neg (a : Amount) : Amount := MkAmount (ineg (minor a)) (cur a).

Definition Cmp (a b : Amount) : res Z :=
  _ ← mustMatch a b;
  Ok (if minor a <? minor b then -1 else if minor b <? minor a then 1 else 0).

Definition Min (a b : Amount) : res Amount :=
  c ← Cmp a b; Ok (if c <=? 0 then a else b).

(** * rounding.go *)

Inductive RoundMode := HalfUp | HalfEven | Down | Up.
#[export] Instance RoundMode_eq_dec : EqDecision RoundMode.
Proof. solve_decision. Defined.

Definition RoundMode_String (m : RoundMode) : string :=
  match m with
  | HalfUp => "half_up" | HalfEven => "half_even" | Down => "down" | Up => "up"
  end.

Record Policy := MkPolicy { Mode : RoundMode; Unit : Z }.
#[export] Instance Policy_eq_dec : EqDecision Policy.
Proof. solve_decision. Defined.

Definition DefaultPolicy (c : Currency) : Policy := MkPolicy HalfUp (SettlementUnit c).
Definition DefaultAMDPolicy : Policy := DefaultPolicy AMD.

Definition unit_of (p : Policy) : Z := if Unit p <? 1 then 1 else Unit p.

(** The quotient [quo + rem/div] under a mode, all in [int64]. *)
Definition roundQuotient (quo rem div : Z) (mode : RoundMode) : Z :=
  if rem =? 0 then quo
  else match mode with
  | Down => quo
  | Up => iadd quo 1
  | HalfEven =>
      let twice := imul rem 2 in
      if div <? twice then iadd quo 1
      else if twice <? div then quo
      else if negb (Z.rem quo 2 =? 0) then iadd quo 1 else quo
  | HalfUp => if div <=? imul rem 2 then iadd quo 1 else quo
  end.

(** * accrual.go *)

Definition ratePPB : Z := 1000000000.

(** [RateFromPercent]: whole percents and millionths of a percent, as parts
    per billion. *)
Definition RateFromPercent (percent microFraction : Z) : Z :=
  iadd (i64 (Z.quot (imul percent ratePPB) 100)) (i64 (Z.quot (imul microFraction 1000) 100)).

Inductive DayCount := Actual365 | Actual360 | Thirty360 | ActualActual.
#[export] Instance DayCount_eq_dec : EqDecision DayCount.
Proof. solve_decision. Defined.

Definition Denominator (d : DayCount) : Z :=
  match d with Actual360 | Thirty360 => 360 | _ => 365 end.

Definition isLeap (y : Z) : bool :=
  (Z.rem y 4 =? 0) && (negb (Z.rem y 100 =? 0) || (Z.rem y 400 =? 0)).

Definition YearDenominator (d : DayCount) (year : Z) : Z :=
  if bool_decide (d = ActualActual) && isLeap year then 366 else Denominator d.

Definition DayCount_String (d : DayCount) : string :=
  match d with
  | ActualActual => "act/act" | Actual360 => "act360"
  | Thirty360 => "30_360" | Actual365 => "act365"
  end.

Definition abs64 (v : Z) : Z := if v <? 0 then ineg v else v.

Definition mulNoOverflow (a b : Z) : res Z :=
  if (a =? 0) || (b =? 0) then Ok 0
  else
    q ← idiv MaxInt64 b;
    if q <? a then errorf_w "%w: %d x %d" ErrAccrualRange
    else Ok (imul a b).

Definition Accrue (principal : Amount) (rate days : Z) (dc : DayCount) (p : Policy) : res Amount :=
  if days <? 0 then errorf_w "%w: negative day count %d" ErrAccrualRange
  else if minor principal <? 0 then errorf_w "%w: negative principal" ErrNegative
  else if rate <? 0 then errorf_w "%w: negative rate" ErrAccrualRange
  else if (days =? 0) || (rate =? 0) || (minor principal =? 0)
  then Ok (MkAmount 0 (cur principal))
  else
    cap ← idiv MaxInt64 days;
    if negb (days =? 0) && (cap <? minor principal)
    then errorf_w "%w: principal %d x days %d" ErrAccrualRange
    else
      let pd := imul (minor principal) days in
      let '(hi, lo) := Mul64 (u64 pd) (u64 rate) in
      let unit := unit_of p in
      div ← mulNoOverflow (Denominator dc) ratePPB;
      div ← mulNoOverflow div unit;
      if u64 div <=? hi then errorf_w "%w: quotient exceeds 64 bits" ErrAccrualRange
      else
        '(quo, rem) ← Div64 hi lo (u64 div);
        if MaxInt64 / u64 unit <? quo
        then errorf_w "%w: result exceeds int64" ErrAccrualRange
        else
          let units := roundQuotient (i64 quo) (i64 rem) div (Mode p) in
          cap ← idiv MaxInt64 unit;
          if cap <? units then errorf_w "%w: result exceeds int64" ErrAccrualRange
          else Ok (MkAmount (imul units unit) (cur principal)).

(** [Quantise]: to the settlement unit, symmetrically about zero. *)
Definition Quantise (a : Amount) (p : Policy) : Amount :=
  let unit := unit_of p in
  if unit =? 1 then a
  else
    let neg := minor a <? 0 in
    let v := abs64 (minor a) in
    let quo := i64 (Z.quot v unit) in
    let rem := Z.rem v unit in
    let out := imul (roundQuotient quo rem unit (Mode p)) unit in
    MkAmount (if neg then ineg out else out) (cur a).

Record YearSpan := MkYearSpan { SpanYear : Z; SpanDays : Z }.

Definition accrueUnrounded (principal : Amount) (rate days denominator : Z) : res Amount :=
  if (days =? 0) || (rate =? 0) || (minor principal =? 0)
  then Ok (MkAmount 0 (cur principal))
  else
    cap ← idiv MaxInt64 days;
    if cap <? minor principal
    then errorf_w "%w: principal %d x days %d" ErrAccrualRange
    else
      let '(hi, lo) := Mul64 (u64 (imul (minor principal) days)) (u64 rate) in
      div ← mulNoOverflow denominator ratePPB;
      if u64 div <=? hi then errorf_w "%w: quotient exceeds 64 bits" ErrAccrualRange
      else
        '(quo, rem) ← Div64 hi lo (u64 div);
        if MaxInt64 <? quo then errorf_w "%w: result exceeds int64" ErrAccrualRange
        else Ok (MkAmount (roundQuotient (i64 quo) (i64 rem) div HalfUp) (cur principal)).

(** The loop of [AccrueBetween] over the year spans, from a running sum. *)
Fixpoint accrueSpans (principal : Amount) (rate : Z) (spans : list YearSpan)
    (dc : DayCount) (sum : Amount) : res Amount :=
  match spans with
  | [] => Ok sum
  | s :: rest =>
      part ← accrueUnrounded principal rate (SpanDays s) (YearDenominator dc (SpanYear s));
      sum' ← Add sum part;
      accrueSpans principal rate rest dc sum'
  end.

Definition AccrueBetween (principal : Amount) (rate : Z) (spans : list YearSpan)
    (dc : DayCount) (p : Policy) : res Amount :=
  if existsb (λ s, SpanDays s <? 0) spans
  then errorf_w "%w: negative day count %d" ErrAccrualRange
  else if negb (bool_decide (dc = ActualActual)) || Nat.leb (length spans) 1
  then Accrue principal rate (foldl (λ t s, iadd t (SpanDays s)) 0 spans) dc p
  else
    sum ← accrueSpans principal rate spans dc (MkAmount 0 (cur principal));
    Ok (Quantise sum p).

(** * Text and JSON *)

Definition comma : Ascii.ascii := Ascii.ascii_of_nat 44.
Definition point : Ascii.ascii := Ascii.ascii_of_nat 46.
Definition space : Ascii.ascii := Ascii.ascii_of_nat 32.

(** The loop of [group] over the digits still to write. *)
Fixpoint group_digits (first : bool) (s : list Ascii.ascii) : list Ascii.ascii :=
  match s with
  | [] => []
  | c :: rest =>
      if negb first && Nat.eqb (Nat.modulo (length s) 3) 0
      then comma :: c :: group_digits false rest
      else c :: group_digits false rest
  end.
Definition group (n : Z) : list Ascii.ascii :=
  let s := Sprintf_d n in
  if Nat.leb (length s) 3 then s else group_digits true s.

Definition ascii_code (c : Currency) : list Ascii.ascii := String.list_ascii_of_string (Code c).

Definition Amount_String (a : Amount) : res (list Ascii.ascii) :=
  let scale := pow10 (Exponent (cur a)) in
  let '(sign, m) := if minor a <? 0 then ([dash], ineg (minor a)) else ([], minor a) in
  whole ← idiv m scale;
  frac ← irem m scale;
  let unit := if SettlementUnit (cur a) <? 1 then 1 else SettlementUnit (cur a) in
  if (Exponent (cur a) =? 0) || ((1 <? unit) && (frac =? 0))
  then Ok (sign ++ group whole ++ space :: ascii_code (cur a))
  else Ok (sign ++ group whole ++ point :: Sprintf_0d (Z.to_nat (Exponent (cur a))) frac ++
    space :: ascii_code (cur a)).

Definition Rate_String (r : Z) : res (list Ascii.ascii) :=
  whole ← idiv r ratePPB;
  frac ← irem (abs64 r) ratePPB;
  Ok (Sprintf_d whole ++ point :: Sprintf_0d 9 frac).

(** The struct an amount is written as, and what reading one accepts; package
    json turns it into bytes and back. *)
Record amount_json := MkAmountJSON { json_minor : Z; json_currency : Currency }.

Definition MarshalJSON (a : Amount) : amount_json := MkAmountJSON (minor a) (cur a).

Definition UnmarshalJSON (decoded : res amount_json) : res Amount :=
  v ← decoded;
  let c := json_currency v in
  if String.eqb (Code c) "" && (json_minor v =? 0) && bool_decide (c = no_currency)
  then Ok no_amount
  else
    found ← Lookup (Code c);
    if negb (bool_decide (found = c)) then Err (Sentinel ErrUnknownCurrency)
    else Ok (FromMinor (json_minor v) found).

(** * The exact arithmetic the operations stand for *)

(** [n / d] rounded under a mode, for [0 ≤ n] and [0 < d], in unbounded
    integers. *)
Definition round_div (mode : RoundMode) (n d : Z) : Z :=
  match mode with
  | Down => n / d
  | Up => (n + d - 1) / d
  | HalfUp => (2 * n + d) / (2 * d)
  | HalfEven =>
      let q := n / d in
      let twice := 2 * (n mod d) in
      if twice <? d then q else if d <? twice then q + 1
      else if Z.even q then q else q + 1
  end.

(** What [Accrue] is documented to return, in minor units. *)
Definition accrual (p rate days : Z) (dc : DayCount) (pol : Policy) : Z :=
  round_div (Mode pol) (p * rate * days) (Denominator dc * ratePPB * unit_of pol) * unit_of pol.

(** Terms whose accrual fits the intermediate widths: a rate up to 36,000%
    (36,500% on a 365-day year) and a settlement unit up to twelve million
    minor units. *)
Definition accrual_terms (rate : Z) (dc : DayCount) (pol : Policy) : Prop :=
  0 ≤ rate ≤ Denominator dc * ratePPB ∧ Denominator dc * ratePPB * unit_of pol ≤ 2 ^ 62.

Definition wf_amount (a : Amount) : Prop := in_i64 (minor a).

(** ** Amounts *)

Ltac unfold_i64 :=
  unfold wf_amount, in_i64, MaxInt64, MinInt64, two64 in *; simpl in *.

Lemma mustMatch_Ok a b u : mustMatch a b = Ok u ↔ Code (cur a) = Code (cur b).
Proof.
  unfold mustMatch. destruct (String.eqb_spec (Code (cur a)) (Code (cur b))).
  - by destruct u.
  - done.
Qed.

Lemma mustMatch_same a b : Code (cur a) = Code (cur b) → mustMatch a b = Ok tt.
Proof. intros. by apply mustMatch_Ok. Qed.

(** The overflow tests of [Add] and [Sub] are complete: success is exactly
    representability, and the result is then the mathematical one. *)
Lemma Add_Ok_iff a b c :
  wf_amount a → wf_amount b →
  Add a b = Ok c ↔
  Code (cur a) = Code (cur b) ∧ c = MkAmount (minor a + minor b) (cur a) ∧
  in_i64 (minor a + minor b).
Proof.
  intros Ha Hb. unfold Add. rewrite bind_Ok.
  setoid_rewrite mustMatch_Ok. unfold iadd.
  assert (minor a + minor b < MinInt64 ∨ in_i64 (minor a + minor b) ∨
    MaxInt64 < minor a + minor b) as [H|[H|H]] by (unfold_i64; lia).
  - rewrite i64_low by (unfold_i64; lia).
    rewrite (proj2 (Z.ltb_lt (minor a) 0)), (proj2 (Z.ltb_lt (minor b) 0)),
      (proj2 (Z.leb_le 0 _)) by (unfold_i64; lia). rewrite orb_true_r.
    unfold errorf_w. split; [naive_solver|]. unfold_i64. lia.
  - rewrite i64_id by done.
    destruct (_ || _)%bool eqn:E; [unfold_i64; lia|]. naive_solver.
  - rewrite i64_high by (unfold_i64; lia).
    rewrite (proj2 (Z.ltb_lt 0 (minor a))), (proj2 (Z.ltb_lt 0 (minor b))),
      (proj2 (Z.ltb_lt (_ - _) 0)) by (unfold_i64; lia).
    unfold errorf_w. split; [naive_solver|]. unfold_i64. lia.
Qed.

Lemma Sub_Ok_iff a b c :
  wf_amount a → wf_amount b →
  Sub a b = Ok c ↔
  Code (cur a) = Code (cur b) ∧ c = MkAmount (minor a - minor b) (cur a) ∧
  in_i64 (minor a - minor b).
Proof.
  intros Ha Hb. unfold Sub. rewrite bind_Ok.
  setoid_rewrite mustMatch_Ok. unfold isub.
  assert (minor a - minor b < MinInt64 ∨ in_i64 (minor a - minor b) ∨
    MaxInt64 < minor a - minor b) as [H|[H|H]] by (unfold_i64; lia).
  - rewrite i64_low by (unfold_i64; lia).
    destruct (_ || _)%bool eqn:E; [|unfold_i64; lia].
    unfold errorf_w. split; [naive_solver|]. unfold_i64. lia.
  - rewrite i64_id by done.
    destruct (_ || _)%bool eqn:E; [unfold_i64; lia|]. naive_solver.
  - rewrite i64_high by (unfold_i64; lia).
    destruct (_ || _)%bool eqn:E; [|unfold_i64; lia].
    unfold errorf_w. split; [naive_solver|]. unfold_i64. lia.
Qed.

(** The same for non-negative amounts of one currency, the engine's usual case. *)
Lemma Add_nonneg_iff a b c :
  0 ≤ minor a ≤ MaxInt64 → 0 ≤ minor b ≤ MaxInt64 → Code (cur a) = Code (cur b) →
  Add a b = Ok c ↔ minor a + minor b ≤ MaxInt64 ∧ c = MkAmount (minor a + minor b) (cur a).
Proof.
  intros Ha Hb Hc. rewrite Add_Ok_iff by (unfold_i64; lia).
  assert (in_i64 (minor a + minor b) ↔ minor a + minor b ≤ MaxInt64) as -> by (unfold_i64; lia).
  naive_solver.
Qed.

Lemma Sub_nonneg_iff a b c :
  0 ≤ minor a ≤ MaxInt64 → 0 ≤ minor b ≤ MaxInt64 → Code (cur a) = Code (cur b) →
  Sub a b = Ok c ↔ c = MkAmount (minor a - minor b) (cur a).
Proof.
  intros Ha Hb Hc. rewrite Sub_Ok_iff by (unfold_i64; lia).
  assert (in_i64 (minor a - minor b)) by (unfold_i64; lia). naive_solver.
Qed.

Lemma Cmp_same a b :
  Code (cur a) = Code (cur b) →
  Cmp a b = Ok (if minor a <? minor b then -1 else if minor b <? minor a then 1 else 0).
Proof. intros H. unfold Cmp. by rewrite mustMatch_same. Qed.

Lemma Cmp_Ok a b z : Cmp a b = Ok z ↔
  Code (cur a) = Code (cur b) ∧
  z = (if minor a <? minor b then -1 else if minor b <? minor a then 1 else 0).
Proof.
  unfold Cmp. rewrite bind_Ok. setoid_rewrite mustMatch_Ok. naive_solver.
Qed.

Lemma Sign_pos_iff a : (0 <? Sign a) = (0 <? minor a).
Proof. unfold Sign. destruct (Z.ltb_spec 0 (minor a)); [done|]. by destruct (minor a <? 0). Qed.
Lemma Sign_neg_iff a : (Sign a <? 0) = (minor a <? 0).
Proof.
  unfold Sign. destruct (Z.ltb_spec 0 (minor a)), (Z.ltb_spec (minor a) 0); try done; lia.
Qed.
Lemma Sign_zero_iff a : (Sign a =? 0) = (minor a =? 0).
Proof.
  unfold Sign. destruct (Z.ltb_spec 0 (minor a)), (Z.ltb_spec (minor a) 0); simpl;
    symmetry; (apply Z.eqb_neq || apply Z.eqb_eq); lia.
Qed.
Lemma Sign_nonpos_iff a : (Sign a <=? 0) = (minor a <=? 0).
Proof.
  unfold Sign. destruct (Z.ltb_spec 0 (minor a)), (Z.ltb_spec (minor a) 0); simpl;
    symmetry; (apply Z.leb_le || apply Z.leb_gt); lia.
Qed.

Lemma Min_Ok a b c : Min a b = Ok c ↔
  Code (cur a) = Code (cur b) ∧ c = (if minor a <=? minor b then a else b).
Proof.
  unfold Min. rewrite bind_Ok. setoid_rewrite Cmp_Ok. split.
  - intros (z & [Hc ->] & H). split; [done|]. injection H as <-.
    repeat case_match; lia || done.
  - intros [Hc ->]. eexists; split; [done|]. f_equal. repeat case_match; lia || done.
Qed.

(** ** Rounding *)

Lemma div_mod_facts n d : 0 < d → n = d * (n / d) + n mod d ∧ 0 ≤ n mod d < d.
Proof. intros. split; [apply Z.div_mod; lia|by apply Z.mod_pos_bound]. Qed.

Lemma div_eq_of_bounds n d q : 0 < d → d * q ≤ n < d * (q + 1) → n / d = q.
Proof. intros. symmetry. apply (Z.div_unique_pos _ _ _ (n - d * q)); lia. Qed.

(** [round_div] written as the code computes it: from quotient and remainder. *)
Lemma round_div_cases mode n d :
  0 < d →
  round_div mode n d =
    if n mod d =? 0 then n / d
    else match mode with
    | Down => n / d
    | Up => n / d + 1
    | HalfEven =>
        if d <? 2 * (n mod d) then n / d + 1
        else if 2 * (n mod d) <? d then n / d
        else if Z.even (n / d) then n / d else n / d + 1
    | HalfUp => if d <=? 2 * (n mod d) then n / d + 1 else n / d
    end.
Proof.
  intros Hd. destruct (div_mod_facts n d Hd) as [Hn Hr].
  set (q := n / d) in *. set (r := n mod d) in *.
  destruct (Z.eqb_spec r 0), mode; simpl; fold q r.
  - apply div_eq_of_bounds; lia.
  - rewrite (proj2 (Z.ltb_lt _ _)); lia.
  - done.
  - apply div_eq_of_bounds; lia.
  - destruct (Z.leb_spec d (2 * r)); apply div_eq_of_bounds; lia.
  - destruct (Z.ltb_spec (2 * r) d), (Z.ltb_spec d (2 * r)); lia || done.
  - done.
  - apply div_eq_of_bounds; lia.
Qed.

Lemma round_div_bounds mode n d :
  0 < d → n / d ≤ round_div mode n d ≤ n / d + 1.
Proof. intros. rewrite round_div_cases by done. repeat case_match; lia. Qed.

Lemma round_div_nonneg mode n d : 0 ≤ n → 0 < d → 0 ≤ round_div mode n d.
Proof.
  intros. pose proof (round_div_bounds mode n d ltac:(done)).
  pose proof (Z.div_pos n d). lia.
Qed.

Lemma round_div_0 mode d : 0 < d → round_div mode 0 d = 0.
Proof.
  intros. rewrite round_div_cases by done.
  by rewrite Z.mod_0_l, Z.div_0_l by lia.
Qed.

(** Rounding never reorders two values. *)
Lemma round_div_mono mode n n' d :
  0 < d → n ≤ n' → round_div mode n d ≤ round_div mode n' d.
Proof.
  intros Hd Hle. pose proof (Z.div_le_mono n n' d Hd Hle) as Hq.
  destruct (decide (n / d = n' / d)) as [Heq|].
  - destruct (div_mod_facts n d Hd) as [Hn Hr], (div_mod_facts n' d Hd) as [Hn' Hr'].
    rewrite !round_div_cases by done. rewrite <- Heq in *.
    destruct mode; repeat case_match; lia.
  - pose proof (round_div_bounds mode n d Hd).
    pose proof (round_div_bounds mode n' d Hd). lia.
Qed.

(** The half modes land within half a divisor of the exact value. *)
Lemma round_div_nearest mode n d :
  0 < d → mode = HalfUp ∨ mode = HalfEven → Z.abs (2 * (d * round_div mode n d - n)) ≤ d.
Proof.
  intros Hd Hm. destruct (div_mod_facts n d Hd) as [Hn Hr].
  rewrite round_div_cases by done.
  destruct Hm as [-> | ->]; repeat case_match; lia.
Qed.

Lemma quot_rem_nonneg a b : 0 ≤ a → 0 < b → Z.quot a b = a / b ∧ Z.rem a b = a mod b.
Proof.
  intros. split; [apply Z.quot_div_nonneg | apply Z.rem_mod_nonneg]; lia.
Qed.

Lemma even_rem_2 q : 0 ≤ q → (Z.rem q 2 =? 0) = Z.even q.
Proof.
  intros. rewrite Z.rem_mod_nonneg by lia. rewrite Zmod_even.
  by destruct (Z.even q).
Qed.

(** The code's rounding step is [round_div], as long as doubling the remainder
    and adding one to the quotient stay inside [int64]. *)
Lemma roundQuotient_exact mode n d :
  0 ≤ n → 0 < d → 2 * (d - 1) ≤ MaxInt64 → n / d < MaxInt64 ∨ n mod d = 0 ∧ n / d ≤ MaxInt64 →
  roundQuotient (n / d) (n mod d) d mode = round_div mode n d.
Proof.
  intros Hn Hd Hd2 Hq. pose proof (Z.div_pos n d Hn Hd).
  destruct (div_mod_facts n d Hd) as [_ Hr].
  rewrite round_div_cases by done. unfold roundQuotient.
  destruct (Z.eqb_spec (n mod d) 0); [done|].
  unfold iadd, imul. rewrite !i64_id by (unfold_i64; lia).
  rewrite !(Z.mul_comm _ 2). rewrite even_rem_2 by done.
  destruct mode; try done.
  destruct (Z.even _); simpl; done.
Qed.

Lemma unit_of_pos p : 1 ≤ unit_of p.
Proof. unfold unit_of. destruct (Z.ltb_spec (Unit p) 1); lia. Qed.

Lemma Denominator_range dc : 360 ≤ Denominator dc ≤ 365.
Proof. destruct dc; simpl; lia. Qed.

(** ** Accrual *)

Lemma mulNoOverflow_fits a b :
  0 < a → 0 < b → a * b ≤ MaxInt64 → mulNoOverflow a b = Ok (a * b).
Proof.
  intros Ha Hb Hab. unfold mulNoOverflow.
  destruct (Z.eqb_spec a 0), (Z.eqb_spec b 0); try lia. simpl.
  unfold idiv. destruct (Z.eqb_spec b 0); [lia|]. simpl.
  rewrite Z.quot_div_nonneg by (unfold_i64; lia).
  assert (0 ≤ MaxInt64 / b ≤ MaxInt64) as [? ?].
  { split; [apply Z.div_pos|apply Z.div_le_upper_bound]; unfold_i64; nia. }
  rewrite i64_id by (unfold_i64; lia).
  destruct (Z.ltb_spec (MaxInt64 / b) a) as [Hlt|_].
  - assert (a ≤ MaxInt64 / b) by (apply Z.div_le_lower_bound; lia). lia.
  - unfold imul. rewrite i64_id; [done|]. unfold_i64. lia.
Qed.

Lemma idiv_max d : 1 ≤ d → idiv (E:=gerror) MaxInt64 d = Ok (MaxInt64 / d) ∧
  ∀ x, x ≤ MaxInt64 / d ↔ x * d ≤ MaxInt64.
Proof.
  intros Hd. split.
  - unfold idiv. destruct (Z.eqb_spec d 0); [lia|].
    rewrite Z.quot_div_nonneg, i64_id; [done| |unfold_i64; lia|lia].
    pose proof (Z.div_pos MaxInt64 d). pose proof (Z.div_le_upper_bound MaxInt64 d MaxInt64).
    unfold_i64. nia.
  - intros x. split; intros.
    + pose proof (Z.mul_div_le MaxInt64 d). nia.
    + apply Z.div_le_lower_bound; lia.
Qed.

Lemma Mul64_join x y : fst (Mul64 x y) * two64 + snd (Mul64 x y) = x * y.
Proof.
  unfold Mul64. cbn [fst snd].
  pose proof (Z.div_mod (x * y) two64 ltac:(unfold two64; lia)). lia.
Qed.

(** With a rate under the ceiling, interest never exceeds principal times
    days, and stays below it when the division leaves a remainder. *)
Lemma accrual_quotient_bound pd rate dc pol :
  0 ≤ pd → accrual_terms rate dc pol →
  let D := Denominator dc * ratePPB * unit_of pol in
  0 ≤ pd * rate / D ∧ pd * rate / D * unit_of pol ≤ pd ∧
  (pd * rate mod D = 0 ∨ pd * rate / D * unit_of pol < pd).
Proof.
  intros Hpd [Hr Hd]. simpl. pose proof (unit_of_pos pol). pose proof (Denominator_range dc).
  set (R := Denominator dc * ratePPB) in *. set (u := unit_of pol) in *.
  assert (0 < R) by (subst R; unfold ratePPB; lia).
  destruct (div_mod_facts (pd * rate) (R * u) ltac:(nia)) as [Hn Hm].
  assert (0 ≤ pd * rate / (R * u)) by (apply Z.div_pos; nia).
  set (q := pd * rate / (R * u)) in *. set (r := pd * rate mod (R * u)) in *.
  assert (R * (q * u) + r ≤ R * pd) as Hle by nia.
  split_and!; [done| |].
  - apply (Z.mul_le_mono_pos_l _ _ R); lia.
  - destruct (decide (r = 0)); [by left|right]. apply (Z.mul_lt_mono_pos_l R); lia.
Qed.

(** Everything that can happen to an accrual under [accrual_terms]. *)
Lemma Accrue_cases principal rate days dc p :
  accrual_terms rate dc p → wf_amount principal → 0 ≤ minor principal → 0 ≤ days ≤ MaxInt64 →
  let fits := rate = 0 ∨ minor principal * days ≤ MaxInt64 ∧
    accrual (minor principal) rate days dc p ≤ MaxInt64 in
  (fits ∧ Accrue principal rate days dc p =
    Ok (MkAmount (accrual (minor principal) rate days dc p) (cur principal))) ∨
  (¬ fits ∧ ∃ f, Accrue principal rate days dc p = errorf_w f ErrAccrualRange).
Proof.
  intros Ht Hwf Hp0 Hdays. simpl. destruct principal as [m c]. simpl in *.
  pose proof Ht as [Hrate Hdiv]. pose proof (unit_of_pos p). pose proof (Denominator_range dc).
  unfold accrual, Accrue. simpl.
  destruct (Z.ltb_spec days 0), (Z.ltb_spec m 0), (Z.ltb_spec rate 0); try lia.
  set (D := Denominator dc * ratePPB * unit_of p) in *.
  assert (0 < Denominator dc * ratePPB) by (unfold ratePPB; lia).
  assert (0 < D) by (unfold D; nia).
  destruct (_ || _)%bool eqn:Hz.
  { left. assert (m * rate * days = 0) as ->
      by (rewrite !orb_true_iff, !Z.eqb_eq in Hz; destruct Hz as [[-> | ->] | ->]; ring).
    rewrite round_div_0 by lia.
    split; [|done]. rewrite Z.mul_0_l. unfold_i64. lia. }
  destruct (idiv_max days ltac:(lia)) as [-> Hcap]. simpl.
  destruct (Z.eqb_spec days 0); [lia|]. simpl.
  destruct (Z.ltb_spec (MaxInt64 / days) m) as [Hover|Hfit].
  { right. split; [|by eauto]. pose proof (proj2 (Hcap m)). lia. }
  apply Hcap in Hfit. unfold imul. rewrite (i64_id (m * days)) by (unfold_i64; nia).
  rewrite !u64_id by (unfold_i64; nia).
  rewrite mulNoOverflow_fits by (unfold_i64; lia || nia). simpl.
  rewrite mulNoOverflow_fits by (unfold_i64; lia || nia). simpl. fold D.
  pose proof (Mul64_join (m * days) rate) as Hjoin. unfold Mul64 in Hjoin. simpl in Hjoin.
  rewrite (u64_id D) by (unfold_i64; nia).
  destruct (Z.leb_spec D (m * days * rate / two64)) as [Hhi|Hhi].
  { exfalso. pose proof (Z.mul_div_le (m * days * rate) two64 ltac:(unfold_i64; lia)).
    assert (rate ≤ D) by (unfold D; nia). unfold_i64. nia. }
  unfold Div64. destruct (Z.eqb_spec D 0); [lia|].
  destruct (Z.leb_spec D (m * days * rate / two64)); [lia|]. simpl.
  rewrite Hjoin. set (N := m * days * rate).
  destruct (accrual_quotient_bound (m * days) rate dc p ltac:(nia) Ht) as (Hq0 & Hq & Hqr).
  fold D in Hq0, Hq, Hqr. fold N in Hq0, Hq, Hqr.
  assert (0 ≤ N) by (unfold N; nia).
  assert (N / D ≤ MaxInt64) as Hqmax by nia.
  destruct (idiv_max (unit_of p) ltac:(lia)) as [-> Hcapu].
  destruct (Z.ltb_spec (MaxInt64 / unit_of p) (N / D)) as [Hbad|_].
  { exfalso. pose proof (proj2 (Hcapu (N / D))). lia. }
  destruct (div_mod_facts N D ltac:(lia)) as [_ Hrem].
  rewrite (i64_id (N / D)), (i64_id (N mod D)) by (unfold_i64; lia). simpl.
  assert (N / D < MaxInt64 ∨ N mod D = 0 ∧ N / D ≤ MaxInt64) as Hqr'.
  { destruct Hqr as [|Hlt]; [by right|left; nia]. }
  rewrite roundQuotient_exact by (try done; unfold_i64; lia).
  replace (m * rate * days) with N by (unfold N; ring).
  pose proof (round_div_nonneg (Mode p) N D ltac:(lia) ltac:(lia)).
  destruct (Z.ltb_spec (MaxInt64 / unit_of p) (round_div (Mode p) N D)) as [Hbad|Hgood].
  - right. split; [|by eauto]. pose proof (proj2 (Hcapu (round_div (Mode p) N D))). lia.
  - left. apply Hcapu in Hgood. split; [lia|].
    rewrite i64_id by (unfold_i64; nia). done.
Qed.

Lemma Accrue_Ok_iff principal rate days dc p a :
  accrual_terms rate dc p → wf_amount principal → 0 ≤ minor principal → 0 ≤ days ≤ MaxInt64 →
  Accrue principal rate days dc p = Ok a ↔
  (rate = 0 ∨ minor principal * days ≤ MaxInt64 ∧
    accrual (minor principal) rate days dc p ≤ MaxInt64) ∧
  a = MkAmount (accrual (minor principal) rate days dc p) (cur principal).
Proof.
  intros Ht Hwf Hp Hd.
  destruct (Accrue_cases principal rate days dc p Ht Hwf Hp Hd) as [[Hfit ->]|[Hno [f ->]]].
  - naive_solver.
  - unfold errorf_w. naive_solver.
Qed.

Lemma accrual_nonneg p rate days dc pol :
  0 ≤ p → 0 ≤ days → 0 ≤ rate → 0 ≤ accrual p rate days dc pol.
Proof.
  intros. unfold accrual. pose proof (unit_of_pos pol). pose proof (Denominator_range dc).
  apply Z.mul_nonneg_nonneg; [|lia].
  apply round_div_nonneg; [|unfold ratePPB]; nia.
Qed.

(** More principal never accrues less interest. *)
Lemma accrual_mono p p' rate days dc pol :
  0 ≤ p ≤ p' → 0 ≤ days → 0 ≤ rate →
  accrual p rate days dc pol ≤ accrual p' rate days dc pol.
Proof.
  intros. unfold accrual. pose proof (unit_of_pos pol). pose proof (Denominator_range dc).
  apply Z.mul_le_mono_nonneg_r; [lia|].
  apply round_div_mono; [unfold ratePPB; nia|].
  apply Z.mul_le_mono_nonneg_r; [lia|]. apply Z.mul_le_mono_nonneg_r; lia.
Qed.

Lemma Accrue_mono a a' rate days dc p i' :
  accrual_terms rate dc p → wf_amount a' → 0 ≤ minor a ≤ minor a' → 0 ≤ days ≤ MaxInt64 →
  Accrue a' rate days dc p = Ok i' →
  ∃ i, Accrue a rate days dc p = Ok i ∧ 0 ≤ minor i ≤ minor i' ∧ cur i = cur a.
Proof.
  intros Ht Hwf Ha Hd Hok. pose proof Ht as [Hr _].
  assert (wf_amount a) by (unfold_i64; lia).
  apply Accrue_Ok_iff in Hok as [Hfit ->]; [|done|done|lia|done].
  pose proof (accrual_mono (minor a) (minor a') rate days dc p) as Hm.
  pose proof (accrual_nonneg (minor a) rate days dc p).
  exists (MkAmount (accrual (minor a) rate days dc p) (cur a)).
  split; [|simpl; split_and!; lia || done].
  apply Accrue_Ok_iff; [done|done|lia|done|]. split; [|done].
  destruct Hfit as [|[Hpd Hacc]]; [by left|right]. split; nia.
Qed.

(** ** Quantisation *)

Lemma Quantise_exact a p :
  Z.abs (minor a) + unit_of p ≤ MaxInt64 → unit_of p ≤ 2 ^ 62 →
  Quantise a p =
  MkAmount (Z.sgn (minor a) * (round_div (Mode p) (Z.abs (minor a)) (unit_of p) * unit_of p)) (cur a).
Proof.
  intros Ha Hu. pose proof (unit_of_pos p). destruct a as [m c]. simpl in *.
  unfold Quantise. simpl. set (u := unit_of p) in *.
  destruct (Z.eqb_spec u 1) as [->|Hu1].
  { rewrite round_div_cases, Z.mod_1_r, Z.div_1_r by lia. simpl. f_equal. lia. }
  assert (abs64 m = Z.abs m) as ->.
  { unfold abs64, ineg. destruct (Z.ltb_spec m 0); [rewrite i64_id by (unfold_i64; lia)|]; lia. }
  destruct (quot_rem_nonneg (Z.abs m) u) as [-> ->]; [lia|lia|].
  destruct (div_mod_facts (Z.abs m) u ltac:(lia)) as [Hm Hr].
  assert (0 ≤ Z.abs m / u) by (apply Z.div_pos; lia).
  rewrite i64_id by (unfold_i64; nia).
  rewrite roundQuotient_exact by (unfold_i64; nia).
  pose proof (round_div_bounds (Mode p) (Z.abs m) u ltac:(lia)).
  set (r := round_div _ _ _) in *. unfold imul, ineg.
  assert (0 ≤ r * u ≤ MaxInt64) by nia.
  rewrite (i64_id (r * u)) by (unfold_i64; lia). f_equal.
  destruct (Z.ltb_spec m 0).
  - rewrite i64_id by (unfold_i64; lia). rewrite Z.sgn_neg by lia. lia.
  - destruct (decide (m = 0)) as [->|]; [|rewrite Z.sgn_pos by lia; lia].
    unfold r. rewrite round_div_0 by lia. done.
Qed.

Lemma round_div_exact mode q d : 0 < d → round_div mode (q * d) d = q.
Proof.
  intros. rewrite round_div_cases by done. by rewrite Z.mod_mul, Z.div_mul by lia.
Qed.

(** ** [FromMajor] *)

Lemma pow10_small e : 0 ≤ e ≤ 18 → pow10 e = 10 ^ e.
Proof.
  intros He. unfold pow10. rewrite <- (Z2Nat.id e) at 2 by lia.
  assert (Z.to_nat e ≤ 18)%nat as Hn by lia. revert Hn. clear He.
  induction (Z.to_nat e) as [|n IH]; [done|]. intros Hn. simpl Nat.iter.
  rewrite IH by lia. rewrite Nat2Z.inj_succ, Z.pow_succ_r by lia.
  assert (10 ^ Z.of_nat n ≤ 10 ^ 17) by (apply Z.pow_le_mono_r; lia).
  assert (0 ≤ 10 ^ Z.of_nat n) by (apply Z.pow_nonneg; lia).
  unfold imul. rewrite i64_id; [lia|]. unfold_i64. lia.
Qed.

(** Whole units scale exactly, or are refused. *)
Lemma FromMajor_Ok_iff major c a :
  in_i64 major → 0 ≤ Exponent c ≤ 18 →
  FromMajor major c = Ok a ↔
  in_i64 (major * 10 ^ Exponent c) ∧ a = MkAmount (major * 10 ^ Exponent c) c.
Proof.
  intros Hm He. unfold FromMajor. rewrite pow10_small by done.
  assert (1 ≤ 10 ^ Exponent c) by (change 1 with (10 ^ 0); apply Z.pow_le_mono_r; lia).
  set (s := 10 ^ Exponent c) in *.
  destruct (Z.eqb_spec major 0) as [->|Hnz]; simpl.
  { unfold imul. rewrite Z.mul_0_l, i64_id by (unfold_i64; lia). unfold_i64. naive_solver lia. }
  destruct (idiv_max s ltac:(done)) as [-> Hcap]. simpl.
  unfold idiv. destruct (Z.eqb_spec s 0); [lia|]. simpl.
  assert (Z.quot MinInt64 s = - ((- MinInt64) / s)) as ->.
  { change MinInt64 with (- (- MinInt64)) at 1. rewrite Z.quot_opp_l by lia.
    rewrite Z.quot_div_nonneg by (unfold_i64; lia). done. }
  assert (∀ x, x ≤ (- MinInt64) / s ↔ x * s ≤ - MinInt64) as Hlow.
  { intros x. pose proof (Z.mul_div_le (- MinInt64) s). split; [nia|].
    intros. apply Z.div_le_lower_bound; lia. }
  rewrite i64_id.
  2: { pose proof (Z.div_pos (- MinInt64) s). pose proof (Hlow (- MinInt64 + 1)). unfold_i64. nia. }
  pose proof (Hcap major). pose proof (Hlow (- major)). unfold imul.
  destruct (Z.ltb_spec (MaxInt64 / s) major), (Z.ltb_spec major (- (- MinInt64 / s))); simpl.
  1-3: unfold errorf_w; split; [done|]; intros [[? ?] _]; lia.
  assert (in_i64 (major * s)) by (unfold in_i64; lia).
  rewrite i64_id by done. naive_solver.
Qed.

(** ** Text *)

Lemma group_digits_strip s : ∀ first,
  Forall (λ c, c ≠ comma) s → filter (λ c, c ≠ comma) (group_digits first s) = s.
Proof.
  induction s as [|c s IH]; intros first Hs; [done|]. apply Forall_cons in Hs as [Hc Hs].
  cbn [group_digits]. destruct (negb first && _)%bool; rewrite !filter_cons.
  - rewrite decide_False by (intros H; by apply H). rewrite decide_True by done. by rewrite IH.
  - rewrite decide_True by done. by rewrite IH.
Qed.

Lemma digit_not_comma z : 0 ≤ z ≤ 9 → digit z ≠ comma.
Proof.
  intros Hz E. apply (f_equal Ascii.nat_of_ascii) in E. unfold digit, comma in E.
  rewrite !Ascii.nat_ascii_embedding in E by lia. lia.
Qed.

Lemma decimal_no_comma n : Forall (λ c, c ≠ comma) (decimal n).
Proof.
  unfold decimal. assert (∀ fuel n acc, Forall (λ c, c ≠ comma) acc →
    Forall (λ c, c ≠ comma) (digits_go fuel n acc)) as H; [|apply H; constructor].
  induction fuel as [|fuel IH]; intros k acc Hacc; [done|]. simpl.
  pose proof (Z.mod_pos_bound k 10 ltac:(lia)).
  assert (Forall (λ c, c ≠ comma) (digit (k mod 10) :: acc)) by (constructor; [apply digit_not_comma; lia|done]).
  destruct (k <? 10); [done|]. by apply IH.
Qed.

(** Grouping only inserts separators: taking them out leaves the digits. *)
Lemma group_strip n : 0 ≤ n → filter (λ c, c ≠ comma) (group n) = decimal n.
Proof.
  intros Hn. unfold group, Sprintf_d. destruct (Z.ltb_spec n 0); [lia|].
  destruct (Nat.leb _ _); [|apply group_digits_strip, decimal_no_comma].
  apply filter_all. intros c Hc. pose proof (decimal_no_comma n) as Hd. rewrite Forall_forall in Hd. by apply Hd.
Qed.

(** ** The registry *)

Lemma registry_rows_found :
  Forall (λ c, Lookup (Code c) = Ok c) registry_rows.
Proof.
  assert (forallb (λ c, match Lookup (Code c) with Ok c' => bool_decide (c' = c) | _ => false end)
    registry_rows = true) as H by (vm_compute; reflexivity).
  apply Forall_forall. intros c Hc. rewrite forallb_forall in H. specialize (H c).
  rewrite <- list_elem_of_In in H. specialize (H Hc).
  destruct (Lookup (Code c)) as [c'| |]; [|done|done]. apply bool_decide_eq_true in H. by subst.
Qed.

Lemma Lookup_empty : Lookup (Code no_currency) = errorf_w "%w: %q" ErrUnknownCurrency.
Proof. vm_compute. reflexivity. Qed.

(** ** Where the guards end *)

(** A settlement unit above twelve million minor units makes the half-up test
    double a remainder past [int64]: the exact figure here is one whole unit,
    the code returns nothing. *)
Example Accrue_wide_unit_wraps :
  Accrue (MkAmount 5000000000 AMD) 1300000000 1 Actual365 (MkPolicy HalfUp 20000000)
    = Ok (MkAmount 0 AMD) ∧
  accrual 5000000000 1300000000 1 Actual365 (MkPolicy HalfUp 20000000) = 20000000.
Proof. vm_compute. done. Qed.

(** A rate above 36,500% lets the rounding step carry the quotient from
    [MaxInt64] to [MinInt64] behind both range checks. *)
Example Accrue_high_rate_wraps :
  Accrue (MkAmount 9223372036829506295 AMD) 365000000001 1 Actual365 (MkPolicy Up 1)
    = Ok (MkAmount MinInt64 AMD).
Proof. vm_compute. done. Qed.

(** [AccrueBetween] checks neither sign on its split path: a negative
    principal, which [Accrue] refuses, comes back as a huge positive interest. *)
Example AccrueBetween_negative_principal :
  AccrueBetween (MkAmount (-10000000) AMD) 180000000
    [MkYearSpan 2023 31; MkYearSpan 2024 31] ActualActual (MkPolicy HalfUp 10)
    = Ok (MkAmount 18169193690979210 AMD).
Proof. vm_compute. done. Qed.

(** * Properties *)

(** C35. [Accrue] is exact or refuses. For a non-negative principal over a
    non-negative number of days, at a rate up to 36,500% over 365 days (36,000% over
    360) and a settlement unit up to about twelve million, the result is
    principal times rate times days over the year, rounded under the policy to
    the settlement unit, in unbounded arithmetic; the call is refused with
    [ErrAccrualRange] exactly when the rate is not zero and the product of
    principal and days, or the result, is beyond [int64]; and under either
    half mode the result is within half a settlement unit of the exact figure. *)
Theorem Accrue_exact principal rate days dc p :
  accrual_terms rate dc p → wf_amount principal → 0 ≤ minor principal → 0 ≤ days ≤ MaxInt64 →
  let exact := accrual (minor principal) rate days dc p in
  let D := Denominator dc * ratePPB in
  ((rate = 0 ∨ minor principal * days ≤ MaxInt64 ∧ exact ≤ MaxInt64) →
    Accrue principal rate days dc p = Ok (MkAmount exact (cur principal))) ∧
  (¬ (rate = 0 ∨ minor principal * days ≤ MaxInt64 ∧ exact ≤ MaxInt64) →
    ∃ f, Accrue principal rate days dc p = errorf_w f ErrAccrualRange) ∧
  (Mode p = HalfUp ∨ Mode p = HalfEven →
    Z.abs (2 * (D * exact - minor principal * rate * days)) ≤ D * unit_of p).
Proof.
  intros Ht Hwf Hp Hd. cbv zeta. split_and!.
  - intros Hfit. destruct (Accrue_cases principal rate days dc p Ht Hwf Hp Hd) as [[_ ?]|[Hno _]]; done.
  - intros Hno. destruct (Accrue_cases principal rate days dc p Ht Hwf Hp Hd) as [[? _]|[_ ?]]; done.
  - intros Hm. pose proof (unit_of_pos p). pose proof (Denominator_range dc). unfold accrual.
    set (D := Denominator dc * ratePPB). assert (0 < D) by (unfold D, ratePPB; lia).
    pose proof (round_div_nearest (Mode p) (minor principal * rate * days) (D * unit_of p) ltac:(nia) Hm) as Hnear.
    set (q := round_div _ _ _) in *. replace (D * (q * unit_of p)) with (D * unit_of p * q) by ring. done.
Qed.

Lemma Accrue_exact_witness :
  let p := MkPolicy HalfUp 10 in
  Accrue (MkAmount 100000000 AMD) 180000000 31 Actual365 p = Ok (MkAmount 1528770 AMD).
Proof.
  assert (accrual 100000000 180000000 31 Actual365 (MkPolicy HalfUp 10) = 1528770) as <- by (vm_compute; reflexivity).
  apply (Accrue_exact (MkAmount 100000000 AMD) 180000000 31 Actual365 (MkPolicy HalfUp 10)).
  - split; vm_compute; [split|]; discriminate.
  - split; vm_compute; discriminate.
  - vm_compute. discriminate.
  - split; vm_compute; discriminate.
  - right. split; vm_compute; discriminate.
Defined.

(** Checked addition and subtraction are complete. On any two [int64]
    amounts of one currency the mathematical result comes back when it is
    representable and [ErrOverflow] when it is not; mixing currencies panics. *)
Theorem Add_Sub_exact a b :
  wf_amount a → wf_amount b →
  (Code (cur a) = Code (cur b) →
    (in_i64 (minor a + minor b) → Add a b = Ok (MkAmount (minor a + minor b) (cur a))) ∧
    (¬ in_i64 (minor a + minor b) → Add a b = errorf_w "%w: %d + %d" ErrOverflow) ∧
    (in_i64 (minor a - minor b) → Sub a b = Ok (MkAmount (minor a - minor b) (cur a))) ∧
    (¬ in_i64 (minor a - minor b) → Sub a b = errorf_w "%w: %d - %d" ErrOverflow)) ∧
  (Code (cur a) ≠ Code (cur b) →
    Add a b = Panic "money: currency mismatch" ∧ Sub a b = Panic "money: currency mismatch").
Proof.
  intros Ha Hb. split.
  - intros Hc. pose proof (Add_Ok_iff a b) as HA. pose proof (Sub_Ok_iff a b) as HS.
    assert ((∃ x, Add a b = Ok x) ∨ Add a b = errorf_w "%w: %d + %d" ErrOverflow) as HA'.
    { unfold Add. rewrite mustMatch_same by done. simpl. destruct (_ || _)%bool; [by right|left; by eexists]. }
    assert ((∃ x, Sub a b = Ok x) ∨ Sub a b = errorf_w "%w: %d - %d" ErrOverflow) as HS'.
    { unfold Sub. rewrite mustMatch_same by done. simpl. destruct (_ || _)%bool; [by right|left; by eexists]. }
    split_and!.
    + intros Hfit. by apply HA.
    + intros Hno. destruct HA' as [[x Hx]|?]; [|done]. by apply HA in Hx as (_ & _ & ?).
    + intros Hfit. by apply HS.
    + intros Hno. destruct HS' as [[x Hx]|?]; [|done]. by apply HS in Hx as (_ & _ & ?).
  - intros Hc. unfold Add, Sub, mustMatch. by rewrite (proj2 (String.eqb_neq _ _)).
Qed.

Lemma Add_Sub_exact_witness :
  Add (MkAmount MaxInt64 AMD) (MkAmount 1 AMD) = errorf_w "%w: %d + %d" ErrOverflow ∧
  Sub (MkAmount 5 AMD) (MkAmount 7 AMD) = Ok (MkAmount (-2) AMD).
Proof.
  split.
  - apply (Add_Sub_exact (MkAmount MaxInt64 AMD) (MkAmount 1 AMD)); [split; vm_compute; discriminate..|done|].
    intros [_ H]. vm_compute in H. by apply H.
  - apply (Add_Sub_exact (MkAmount 5 AMD) (MkAmount 7 AMD)); [split; vm_compute; discriminate..|done|].
    split; vm_compute; discriminate.
Defined.

(** Amounts survive JSON, and only as written. An amount in a supported
    currency reads back as itself; what reads back at all is either the zero
    amount or carries exactly the registry's own metadata, so a changed
    exponent or settlement unit is refused rather than reinterpreted. *)
Theorem Amount_json_roundtrip :
  (∀ a, cur a ∈ registry_rows ∨ a = no_amount → UnmarshalJSON (Ok (MarshalJSON a)) = Ok a) ∧
  (∀ v a, UnmarshalJSON (Ok v) = Ok a →
    MarshalJSON a = v ∧ (a = no_amount ∨ Lookup (Code (cur a)) = Ok (cur a))).
Proof.
  split.
  - intros [m c] [Hc|[= -> ->]]; [|reflexivity]. simpl in Hc.
    pose proof registry_rows_found as Hf. rewrite Forall_forall in Hf. specialize (Hf c Hc).
    unfold UnmarshalJSON, MarshalJSON. cbn [mbind result_bind json_minor json_currency minor cur].
    assert (bool_decide (c = no_currency) = false) as ->.
    { apply bool_decide_eq_false. intros ->. rewrite Lookup_empty in Hf. discriminate Hf. }
    rewrite andb_false_r, Hf. cbn [mbind result_bind]. by rewrite bool_decide_eq_true_2.
  - intros [m c] a H. unfold UnmarshalJSON in H. cbn [mbind result_bind json_minor json_currency] in H.
    destruct (String.eqb (Code c) "" && (m =? 0) && bool_decide (c = no_currency))%bool eqn:E.
    + injection H as <-. rewrite !andb_true_iff, Z.eqb_eq, bool_decide_eq_true in E.
      destruct E as [[_ ->] ->]. by split; [|left].
    + apply bind_Ok in H as (c' & Hl & H). destruct (bool_decide_reflect (c' = c)) as [->|]; [|done].
      injection H as <-. split; [done|right]. exact Hl.
Qed.

Lemma Amount_json_roundtrip_witness :
  UnmarshalJSON (Ok (MarshalJSON (MkAmount 12345 AMD))) = Ok (MkAmount 12345 AMD).
Proof. apply Amount_json_roundtrip. left. left. Defined.
