(* ===== verification/Dates.v ===== *)
(** Calendar dates without a clock: [pkg/core/date].

    Go's [time.Date] normalises a (year, month, day) triple to a day count
    and reads a triple back; [days_of] and [civil] below are those two maps
    for the proleptic Gregorian calendar, on unbounded years. *)
From S2P Require Import Prelude.

(** * The calendar of package time *)

(** Days from 1970-01-01 to the given day of month [m] (1..12) of year [y],
    counting the year from March so that the leap day comes last. *)
Definition days_from_civil (y m d : Z) : Z :=
  let y := if m <=? 2 then y - 1 else y in
  let era := y / 400 in
  let yoe := y - era * 400 in
  let mp := if 2 <? m then m - 3 else m + 9 in
  let doy := (153 * mp + 2) / 5 + d - 1 in
  let doe := yoe * 365 + yoe / 4 - yoe / 100 + doy in
  era * 146097 + doe - 719468.

(** [time.Date] at midnight UTC: the month is normalised into the year first,
    then any day number, even zero or negative, is counted from there. *)
Definition days_of (y m d : Z) : Z :=
  days_from_civil (y + (m - 1) / 12) ((m - 1) mod 12 + 1) d.

Record Date := MkDate { Year : Z; Month : Z; Day : Z }.
#[export] Instance Date_eq_dec : EqDecision Date.
Proof. solve_decision. Defined.

(** [Year()], [Month()] and [Day()] of a day count. *)
Definition civil (n : Z) : Date :=
  let z := n + 719468 in
  let era := z / 146097 in
  let doe := z - era * 146097 in
  let yoe := (doe - doe / 1460 + doe / 36524 - doe / 146096) / 365 in
  let doy := doe - (365 * yoe + yoe / 4 - yoe / 100) in
  let mp := (5 * doy + 2) / 153 in
  let day := doy - (153 * mp + 2) / 5 + 1 in
  let month := if mp <? 10 then mp + 3 else mp - 9 in
  let year := yoe + era * 400 in
  MkDate (if month <=? 2 then year + 1 else year) month day.

(** * date.go *)

Definition zero_date : Date := MkDate 0 0 0.
Definition IsZero (x : Date) : bool := bool_decide (x = zero_date).

Definition DaysInMonth (year month : Z) : Z := Day (civil (days_of year (month + 1) 0)).

Definition IsLeapYear (year : Z) : bool :=
  ((Z.rem year 4 =? 0) && negb (Z.rem year 100 =? 0)) || (Z.rem year 400 =? 0).

Definition New (year month day : Z) : res Date :=
  if (month <? 1) || (12 <? month) then errorf_w "%w: month %d" ErrDateInvalid
  else if (day <? 1) || (DaysInMonth year month <? day)
  then errorf_w "%w: %04d-%02d-%02d" ErrDateInvalid
  else Ok (MkDate year month day).

Definition MustNew (year month day : Z) : res Date :=
  match New year month day with Err _ => Panic "invalid date" | r => r end.

(** [time()]: midnight UTC, as a day count. *)
Definition time (x : Date) : Z := days_of (Year x) (Month x) (Day x).

Definition Compare (a b : Date) : Z :=
  if negb (Year a =? Year b) then (if Year a <? Year b then -1 else 1)
  else if negb (Month a =? Month b) then (if Month a <? Month b then -1 else 1)
  else if negb (Day a =? Day b) then (if Day a <? Day b then -1 else 1)
  else 0.

Definition Before (a b : Date) : bool := Compare a b <? 0.
Definition After (a b : Date) : bool := 0 <? Compare a b.
Definition Equal (a b : Date) : bool := bool_decide (a = b).

Definition AddDays (x : Date) (n : Z) : Date := civil (time x + n).

(** [Time.Sub] saturates at the [int64] nanosecond range, some 292 years. *)
Definition ns_per_day : Z := 86400000000000.
Definition time_Sub (a b : Z) : Z := Z.max MinInt64 (Z.min MaxInt64 ((a - b) * ns_per_day)).

(** [int(b.time().Sub(a.time()).Hours() / 24)]: whole days, truncated. The
    float steps are exact on whole days and on the two saturated values. *)
Definition DaysBetween (a b : Date) : Z := Z.quot (time_Sub (time b) (time a)) ns_per_day.

Definition Days30360 (a b : Date) : Z :=
  let d1 := if Day a =? 31 then 30 else Day a in
  let d2 := if (Day b =? 31) && (d1 =? 30) then 30 else Day b in
  (Year b - Year a) * 360 + (Month b - Month a) * 30 + (d2 - d1).

Definition EndOfMonth (x : Date) : Date := MkDate (Year x) (Month x) (DaysInMonth (Year x) (Month x)).

(** [fmt.Sprintf("%04d-%02d-%02d")]. *)
Definition String (x : Date) : list Ascii.ascii :=
  Sprintf_0d 4 (Year x) ++ dash :: Sprintf_0d 2 (Month x) ++ dash :: Sprintf_0d 2 (Day x).

(** [time.Parse("2006-01-02", s)]: exactly four, two and two digits, a month of
    the year and a day of that month. *)
Definition Parse (s : list Ascii.ascii) : res Date :=
  let invalid := errorf_w "%w: %q" ErrDateInvalid in
  match s with
  | [y3; y2; y1; y0; h1; m1; m0; h2; d1; d0] =>
      match digits_val [y3; y2; y1; y0], digits_val [m1; m0], digits_val [d1; d0] with
      | Some yy, Some mm, Some dd =>
          if negb (bool_decide (h1 = dash) && bool_decide (h2 = dash)) then invalid
          else if (mm <? 1) || (12 <? mm) then invalid
          else if (dd <? 1) || (DaysInMonth yy mm <? dd) then invalid
          else Ok (MkDate yy mm dd)
      | _, _, _ => invalid
      end
  | _ => invalid
  end.

(** * json.go *)

(** The JSON values a date is written as and read from; package json does the
    quoting of strings. *)
Inductive json := JNull | JString (s : list Ascii.ascii) | JOther.

Definition MarshalJSON (x : Date) : json := if IsZero x then JNull else JString (String x).

Definition UnmarshalJSON (raw : json) : res Date :=
  match raw with
  | JNull => Ok zero_date
  | JString text => Parse text
  | JOther => errorf "json: cannot unmarshal into Go value of type string"
  end.

(** * schedule.go *)

(** Go's truncating division: a negative month total would not normalise. *)
Definition shift (year month n : Z) : Z * Z :=
  let total := (year * 12 + month - 1) + n in
  (Z.quot total 12, Z.rem total 12 + 1).

Definition clamp_high (day top : Z) : Z := if top <? day then top else day.

Definition AddMonths (x : Date) (n : Z) : Date :=
  let '(yy, mm) := shift (Year x) (Month x) n in
  MkDate yy mm (clamp_high (Day x) (DaysInMonth yy mm)).

Definition OnDayOfMonth (x : Date) (day : Z) : Date :=
  let day := if day <? 1 then 1 else day in
  MkDate (Year x) (Month x) (clamp_high day (DaysInMonth (Year x) (Month x))).

Definition Occurrence (start : Date) (contractualDay n : Z) : Date :=
  let '(yy, mm) := shift (Year start) (Month start) n in
  let day := if contractualDay <? 1 then 1 else contractualDay in
  MkDate yy mm (clamp_high day (DaysInMonth yy mm)).

(** * Facts about the calendar *)

(** The calendar as a table, to be met by the definitions above. *)
Definition month_len (year month : Z) : Z :=
  if month =? 2 then (if IsLeapYear year then 29 else 28)
  else if (month =? 4) || (month =? 6) || (month =? 9) || (month =? 11) then 30 else 31.

Definition valid (x : Date) : Prop :=
  1 ≤ Month x ≤ 12 ∧ 1 ≤ Day x ≤ month_len (Year x) (Month x).
#[export] Instance valid_dec x : Decision (valid x).
Proof. unfold valid. apply _. Defined.

(** Months counted from January of year 0, and the day each starts on. *)
Definition month_index (year month : Z) : Z := year * 12 + month - 1.
Definition month_start (k : Z) : Z := days_from_civil (k / 12) (k mod 12 + 1) 1.

Lemma rem_eqb_mod a b : 0 < b → (Z.rem a b =? 0) = (a mod b =? 0).
Proof.
  intros. apply eq_bool_prop_intro. rewrite !Is_true_true, !Z.eqb_eq.
  rewrite Z.rem_divide, Z.mod_divide by lia. done.
Qed.

Lemma month_len_range yy mm : 28 ≤ month_len yy mm ≤ 31.
Proof. unfold month_len. repeat case_match; lia. Qed.

(** [closed_ifs] settles every test of a closed boolean in the goal. *)
Ltac closed_ifs :=
  repeat match goal with
  | |- context [if ?b then _ else _] =>
      let v := eval vm_compute in b in
      match v with true => change b with true | false => change b with false end;
      cbv match
  end.

(** Days before 1 March of a year, counted from 1 March of year 0. *)
Definition march_start (yy : Z) : Z := 365 * yy + yy / 4 - yy / 100 + yy / 400.

Lemma march_start_succ yy :
  march_start (yy + 1) = march_start yy + (if IsLeapYear (yy + 1) then 366 else 365).
Proof.
  unfold march_start, IsLeapYear. rewrite !rem_eqb_mod by lia.
  Z.div_mod_to_equations. repeat case_match; lia.
Qed.

Lemma days_from_civil_march yy mm dd :
  days_from_civil yy mm dd =
  march_start (if mm <=? 2 then yy - 1 else yy)
  + (153 * (if 2 <? mm then mm - 3 else mm + 9) + 2) / 5 + dd - 1 - 719468.
Proof.
  unfold days_from_civil, march_start.
  generalize (if mm <=? 2 then yy - 1 else yy) as Y.
  generalize ((153 * (if 2 <? mm then mm - 3 else mm + 9) + 2) / 5) as D. intros.
  cbv zeta. Z.div_mod_to_equations. lia.
Qed.

(** Months adjoin: each starts where its predecessor's table length ends. *)
Lemma month_start_succ k :
  month_start (k + 1) = month_start k + month_len (k / 12) (k mod 12 + 1).
Proof.
  unfold month_start.
  assert (k mod 12 = 11 ∧ (k + 1) / 12 = k / 12 + 1 ∧ (k + 1) mod 12 = 0 ∨
    k mod 12 < 11 ∧ (k + 1) / 12 = k / 12 ∧ (k + 1) mod 12 = k mod 12 + 1) as Hk
    by (Z.div_mod_to_equations; lia).
  pose proof (Z.mod_pos_bound k 12 ltac:(lia)).
  rewrite !days_from_civil_march. set (Y := k / 12) in *. clearbody Y.
  destruct Hk as [(-> & -> & ->)|(? & -> & ->)].
  { replace (Y + 1 - 1) with Y by lia. unfold month_len. closed_ifs. Z.div_mod_to_equations. lia. }
  set (r := k mod 12) in *. clearbody r.
  assert (r = 0 ∨ r = 1 ∨ r = 2 ∨ r = 3 ∨ r = 4 ∨ r = 5 ∨ r = 6 ∨ r = 7 ∨ r = 8 ∨ r = 9 ∨ r = 10)
    as Hr by lia.
  pose proof (march_start_succ (Y - 1)) as E. rewrite Z.sub_add in E. revert E. unfold month_len.
  repeat destruct Hr as [-> | Hr]; subst; closed_ifs;
    try destruct (IsLeapYear Y); Z.div_mod_to_equations; lia.
Qed.

Lemma month_start_mono k k' : k < k' → month_start k + month_len (k / 12) (k mod 12 + 1) ≤ month_start k'.
Proof.
  intros H. rewrite <- month_start_succ.
  replace k' with (k + 1 + Z.of_nat (Z.to_nat (k' - k - 1))) by lia.
  generalize (Z.to_nat (k' - k - 1)) as n. clear H.
  induction n as [|n IH]; [by rewrite Z.add_0_r|].
  rewrite Nat2Z.inj_succ, <- Z.add_1_r, Z.add_assoc, (month_start_succ (k + 1 + _)).
  pose proof (month_len_range ((k + 1 + Z.of_nat n) / 12) ((k + 1 + Z.of_nat n) mod 12 + 1)). lia.
Qed.

Lemma time_valid x : 1 ≤ Month x ≤ 12 → time x = days_from_civil (Year x) (Month x) (Day x).
Proof.
  intros. unfold time, days_of. rewrite Z.div_small, Z.mod_small by lia. f_equal; lia.
Qed.

Lemma month_index_split yy mm :
  1 ≤ mm ≤ 12 → month_index yy mm / 12 = yy ∧ month_index yy mm mod 12 + 1 = mm.
Proof. intros. unfold month_index. Z.div_mod_to_equations. lia. Qed.

(** A day of a month is that many days after the month's start. *)
Lemma time_month_start x :
  1 ≤ Month x ≤ 12 → time x = month_start (month_index (Year x) (Month x)) + Day x - 1.
Proof.
  intros Hm. rewrite time_valid by done. unfold month_start.
  destruct (month_index_split (Year x) (Month x) Hm) as [-> ->].
  unfold days_from_civil. lia.
Qed.

(** Calendar order is day-count order. *)
Lemma Compare_lt a b :
  valid a → valid b → Compare a b < 0 ↔
  month_index (Year a) (Month a) < month_index (Year b) (Month b) ∨
  month_index (Year a) (Month a) = month_index (Year b) (Month b) ∧ Day a < Day b.
Proof.
  intros [? _] [? _]. unfold Compare, month_index. repeat case_match; lia.
Qed.

Lemma time_lt_of_Compare a b : valid a → valid b → Compare a b < 0 → time a < time b.
Proof.
  intros Ha Hb H. apply Compare_lt in H; [|done|done].
  destruct Ha as [Hma Hda], Hb as [Hmb Hdb].
  rewrite !time_month_start by done. destruct H as [Hk|[-> Hd]]; [|lia].
  pose proof (month_start_mono _ _ Hk) as Hs.
  destruct (month_index_split (Year a) (Month a) Hma) as [E1 E2]. rewrite E1, E2 in Hs. lia.
Qed.

Lemma Compare_opp a b : Compare b a = - Compare a b.
Proof. unfold Compare. repeat case_match; lia. Qed.

Lemma Compare_eq a b : Compare a b = 0 ↔ a = b.
Proof.
  split; [|intros ->; unfold Compare; by rewrite !Z.eqb_refl].
  destruct a, b. unfold Compare. simpl. intros H.
  repeat case_match; try lia. f_equal; lia.
Qed.

Lemma Compare_values a b : Compare a b = -1 ∨ Compare a b = 0 ∨ Compare a b = 1.
Proof. unfold Compare. repeat case_match; lia. Qed.

Lemma Compare_trans a b c : Compare a b ≤ 0 → Compare b c ≤ 0 → Compare a c ≤ 0.
Proof. unfold Compare. repeat case_match; lia. Qed.

Lemma Before_time a b : valid a → valid b → Before a b = (time a <? time b).
Proof.
  intros Ha Hb. unfold Before. apply eq_bool_prop_intro. rewrite !Is_true_true, !Z.ltb_lt.
  split; [by apply time_lt_of_Compare|]. intros Hlt.
  destruct (decide (Compare a b < 0)); [done|].
  destruct (decide (Compare a b = 0)) as [->%Compare_eq|]; [lia|].
  pose proof (time_lt_of_Compare b a Hb Ha). pose proof (Compare_opp a b). lia.
Qed.

Lemma After_Before a b : After a b = Before b a.
Proof. unfold After, Before. rewrite (Compare_opp b a). apply eq_bool_prop_intro. rewrite !Is_true_true. lia. Qed.

Lemma After_time a b : valid a → valid b → After a b = (time b <? time a).
Proof. intros. rewrite After_Before. by apply Before_time. Qed.

Lemma time_inj a b : valid a → valid b → time a = time b → a = b.
Proof.
  intros Ha Hb E. apply Compare_eq.
  pose proof (time_lt_of_Compare a b Ha Hb). pose proof (time_lt_of_Compare b a Hb Ha).
  pose proof (Compare_opp a b). lia.
Qed.

(** ** Reading a day count back *)

Definition cycle_year (doe : Z) : Z := (doe - doe / 1460 + doe / 36524 - doe / 146096) / 365.

Lemma cycle_year_mono doe doe' : 0 ≤ doe ≤ doe' → cycle_year doe ≤ cycle_year doe'.
Proof. intros. apply Z.div_le_mono; [lia|]. Z.div_mod_to_equations. lia. Qed.

(** The last day of the March year [yo], within one 400-year cycle. *)
Definition cycle_end (yo : Z) : Z :=
  365 * yo + yo / 4 - yo / 100 + (if IsLeapYear (yo + 1) then 365 else 364).

Definition cycle_year_ok (yo : Z) : bool :=
  (cycle_year (365 * yo + yo / 4 - yo / 100) =? yo) && (cycle_year (cycle_end yo) =? yo).
Lemma cycle_years : all_from (Z.to_nat 400) 0 cycle_year_ok = true.
Proof. vm_compute. reflexivity. Qed.

Lemma cycle_year_bounds doe :
  0 ≤ doe < 146097 →
  0 ≤ cycle_year doe < 400 ∧
  365 * cycle_year doe + cycle_year doe / 4 - cycle_year doe / 100 ≤ doe ≤ cycle_end (cycle_year doe).
Proof.
  intros Hd.
  assert (∀ yo, 0 ≤ yo < 400 → cycle_year (365 * yo + yo / 4 - yo / 100) = yo ∧
    cycle_year (cycle_end yo) = yo) as Hy.
  { intros yo Hyo. pose proof (all_from_spec _ _ _ cycle_years yo ltac:(lia)) as H.
    apply andb_true_iff in H as [?%Z.eqb_eq ?%Z.eqb_eq]. done. }
  assert (0 ≤ cycle_year doe < 400) as Hr.
  { pose proof (cycle_year_mono 0 doe). pose proof (cycle_year_mono doe 146096).
    change (cycle_year 0) with 0 in *. change (cycle_year 146096) with 399 in *. lia. }
  split; [done|]. set (q := cycle_year doe) in *. split.
  - destruct (decide (365 * q + q / 4 - q / 100 ≤ doe)) as [|Hlt]; [done|exfalso].
    assert (q ≠ 0) as Hq by (intros E; apply Hlt; rewrite E; change (365 * 0 + 0 / 4 - 0 / 100) with 0; lia).
    pose proof (Hy (q - 1) ltac:(lia)) as [_ E].
    pose proof (cycle_year_mono doe (cycle_end (q - 1))) as Hm. fold q in Hm. rewrite E in Hm.
    cut (365 * q + q / 4 - q / 100 = cycle_end (q - 1) + 1); [lia|].
    pose proof (march_start_succ (q - 1)) as M. unfold march_start, cycle_end in *.
    rewrite Z.sub_add in *. rewrite (Z.div_small q 400), (Z.div_small (q - 1) 400) in M by lia.
    destruct (IsLeapYear q); lia.
  - destruct (decide (doe ≤ cycle_end q)) as [|Hlt]; [done|exfalso].
    destruct (decide (q = 399)) as [E|]; [apply Hlt; rewrite E; change (cycle_end 399) with 146096; lia|].
    pose proof (Hy (q + 1) ltac:(lia)) as [E _].
    pose proof (cycle_year_mono (365 * (q + 1) + (q + 1) / 4 - (q + 1) / 100) doe) as Hm.
    fold q in Hm. rewrite E in Hm.
    cut (365 * (q + 1) + (q + 1) / 4 - (q + 1) / 100 = cycle_end q + 1).
    { intros E'. assert (0 ≤ 365 * (q + 1) + (q + 1) / 4 - (q + 1) / 100)
        by (Z.div_mod_to_equations; lia). lia. }
    pose proof (march_start_succ q) as M. unfold march_start, cycle_end in *.
    rewrite (Z.div_small q 400), (Z.div_small (q + 1) 400) in M by lia.
    destruct (IsLeapYear (q + 1)); lia.
Qed.

(** Month and day of a day of the March year. *)
Definition doy_month (doy : Z) : Z := let mp := (5 * doy + 2) / 153 in if mp <? 10 then mp + 3 else mp - 9.
Definition doy_day (doy : Z) : Z := doy - (153 * ((5 * doy + 2) / 153) + 2) / 5 + 1.

Definition doy_ok (doy : Z) : bool :=
  let mm := doy_month doy in
  (1 <=? mm) && (mm <=? 12) && (1 <=? doy_day doy) &&
  (doy_day doy <=? (if mm =? 2 then (if doy <? 365 then 28 else 29)
    else if (mm =? 4) || (mm =? 6) || (mm =? 9) || (mm =? 11) then 30 else 31)) &&
  (doy =? (153 * (if 2 <? mm then mm - 3 else mm + 9) + 2) / 5 + doy_day doy - 1).
Lemma year_days : all_from (Z.to_nat 366) 0 doy_ok = true.
Proof. vm_compute. reflexivity. Qed.

Lemma civil_eq n :
  let z := n + 719468 in
  let yoe := cycle_year (z mod 146097) in
  let doy := z mod 146097 - (365 * yoe + yoe / 4 - yoe / 100) in
  civil n = MkDate (if doy_month doy <=? 2 then yoe + z / 146097 * 400 + 1 else yoe + z / 146097 * 400)
    (doy_month doy) (doy_day doy).
Proof.
  simpl. unfold civil. rewrite (Z.mod_eq (n + 719468) 146097) by lia.
  by rewrite (Z.mul_comm 146097).
Qed.

Lemma march_start_cycle yo q : 0 ≤ yo < 400 →
  march_start (yo + q * 400) = 365 * yo + yo / 4 - yo / 100 + q * 146097.
Proof. intros. unfold march_start. Z.div_mod_to_equations. lia. Qed.

Lemma IsLeapYear_cycle yo q : IsLeapYear (yo + q * 400) = IsLeapYear yo.
Proof.
  unfold IsLeapYear. rewrite !rem_eqb_mod by lia.
  replace (yo + q * 400) with (yo + (100 * q) * 4) at 1 by lia.
  replace (yo + q * 400) with (yo + (4 * q) * 100) at 1 by lia.
  by rewrite !Z.mod_add by lia.
Qed.

(** Every day count is a valid date, and that date's count. *)
Lemma civil_facts n : valid (civil n) ∧ time (civil n) = n.
Proof.
  pose proof (civil_eq n) as E. cbv zeta in E.
  set (z := n + 719468) in *. set (doe := z mod 146097) in *.
  pose proof (Z.mod_pos_bound z 146097 ltac:(lia)) as Hdoe. fold doe in Hdoe.
  destruct (cycle_year_bounds doe Hdoe) as [Hy Hb]. set (yo := cycle_year doe) in *.
  set (doy := doe - (365 * yo + yo / 4 - yo / 100)) in *.
  assert (0 ≤ doy < 366 ∧ (IsLeapYear (yo + 1) = false → doy < 365)) as [Hdoy Hleap]
    by (unfold cycle_end in Hb; destruct (IsLeapYear (yo + 1)); lia).
  pose proof (all_from_spec _ _ _ year_days doy ltac:(lia)) as H. unfold doy_ok in H.
  rewrite !andb_true_iff, !Z.leb_le, Z.eqb_eq in H. destruct H as [[[[H1 H2] H3] H4] H5].
  assert (valid (civil n)) as Hv.
  { rewrite E. unfold valid. cbn [Year Month Day]. split; [done|]. split; [done|].
    unfold month_len. revert H4. destruct (Z.eqb_spec (doy_month doy) 2) as [->|]; [|done].
    change (2 <=? 2) with true. cbv match.
    replace (yo + z / 146097 * 400 + 1) with (yo + 1 + z / 146097 * 400) by lia.
    rewrite IsLeapYear_cycle. destruct (IsLeapYear (yo + 1)); [destruct (doy <? 365); lia|].
    rewrite (proj2 (Z.ltb_lt _ _)); auto. }
  split; [done|]. rewrite time_valid by apply Hv. rewrite E. cbn [Year Month Day].
  rewrite days_from_civil_march.
  replace (if doy_month doy <=? 2 then (if doy_month doy <=? 2 then yo + z / 146097 * 400 + 1
    else yo + z / 146097 * 400) - 1 else (if doy_month doy <=? 2 then yo + z / 146097 * 400 + 1
    else yo + z / 146097 * 400)) with (yo + z / 146097 * 400)
    by (destruct (doy_month doy <=? 2); lia).
  rewrite march_start_cycle by done.
  pose proof (Z.div_mod z 146097). unfold doy, doe in *. lia.
Qed.

Lemma civil_valid n : valid (civil n).
Proof. apply civil_facts. Qed.

Lemma time_civil n : time (civil n) = n.
Proof. apply civil_facts. Qed.

Lemma civil_time x : valid x → civil (time x) = x.
Proof. intros. apply time_inj; [apply civil_valid|done|apply time_civil]. Qed.

Create HintDb dates.
#[export] Hint Resolve civil_valid : dates.

Lemma DaysInMonth_len yy mm : 1 ≤ mm ≤ 12 → DaysInMonth yy mm = month_len yy mm.
Proof.
  intros Hm. pose proof (month_len_range yy mm).
  assert (valid (MkDate yy mm (month_len yy mm))) as Hv by (unfold valid; simpl; lia).
  unfold DaysInMonth.
  enough (days_of yy (mm + 1) 0 = time (MkDate yy mm (month_len yy mm))) as ->
    by by rewrite civil_time.
  rewrite time_month_start by done. cbn [Year Month Day].
  pose proof (month_start_succ (month_index yy mm)) as Hs.
  destruct (month_index_split yy mm Hm) as [E1 E2]. rewrite E1, E2 in Hs. rewrite <- Hs.
  unfold days_of, month_start, month_index.
  replace (mm + 1 - 1) with mm by lia. replace (yy * 12 + mm - 1 + 1) with (mm + yy * 12) by lia.
  rewrite Z.div_add, Z.mod_add, (Z.add_comm yy) by lia.
  unfold days_from_civil. lia.
Qed.

(** ** Construction and day arithmetic *)

Lemma New_Ok_iff yy mm dd x : New yy mm dd = Ok x ↔ x = MkDate yy mm dd ∧ valid x.
Proof.
  unfold New, valid. destruct ((mm <? 1) || (12 <? mm))%bool eqn:E1.
  { split; [done|]. intros [-> ?]. simpl in *. lia. }
  rewrite DaysInMonth_len by lia.
  destruct ((dd <? 1) || (month_len yy mm <? dd))%bool eqn:E2; unfold errorf_w.
  - split; [done|]. intros [-> ?]. simpl in *. lia.
  - split; [|by intros [-> _]]. intros [= <-]. simpl. split; [done|]. lia.
Qed.

Lemma DaysBetween_exact a b :
  Z.abs (time b - time a) ≤ 106751 → DaysBetween a b = time b - time a.
Proof.
  intros. unfold DaysBetween, time_Sub.
  rewrite Z.min_r, Z.max_r by (unfold MaxInt64, MinInt64, ns_per_day; lia).
  by rewrite Z.quot_mul by (unfold ns_per_day; lia).
Qed.

(** Beyond the 292 years a duration holds, the count sticks at its last value. *)
Lemma DaysBetween_saturates a b :
  106751 < time b - time a → DaysBetween a b = 106751.
Proof.
  intros. unfold DaysBetween, time_Sub.
  rewrite Z.min_l, Z.max_r by (unfold MaxInt64, MinInt64, ns_per_day; lia). done.
Qed.

Lemma DaysBetween_nonneg_exact a b :
  0 ≤ DaysBetween a b ↔ time a ≤ time b.
Proof.
  unfold DaysBetween, time_Sub.
  set (x := (time b - time a) * ns_per_day).
  destruct (decide (time a ≤ time b)) as [|].
  - assert (0 ≤ x) by (unfold x, ns_per_day; lia). split; [done|]. intros _.
    apply Z.quot_pos; unfold MaxInt64, MinInt64, ns_per_day; lia.
  - split; [|done]. intros Hq. exfalso.
    assert (x ≤ - ns_per_day) as Hx by (unfold x, ns_per_day; lia).
    set (w := Z.max MinInt64 (Z.min MaxInt64 x)) in *.
    assert (w ≤ - ns_per_day) as Hw by (unfold w, MaxInt64, MinInt64, ns_per_day in *; lia).
    pose proof (Z.quot_le_mono w (- ns_per_day) ns_per_day ltac:(done) Hw) as Hm.
    change (Z.quot (- ns_per_day) ns_per_day) with (-1) in Hm. lia.
Qed.

Lemma DaysBetween_max a b : DaysBetween a b ≤ 106751.
Proof.
  unfold DaysBetween, time_Sub.
  pose proof (Z.quot_le_mono (Z.max MinInt64 (Z.min MaxInt64 ((time b - time a) * ns_per_day))) MaxInt64
    ns_per_day ltac:(done)) as H.
  change (Z.quot MaxInt64 ns_per_day) with 106751 in H. apply H. unfold MaxInt64, MinInt64. lia.
Qed.

Lemma AddDays_valid x n : valid (AddDays x n).
Proof. apply civil_valid. Qed.

Lemma time_AddDays x n : time (AddDays x n) = time x + n.
Proof. apply time_civil. Qed.

#[export] Hint Resolve AddDays_valid : dates.

(** ** Month arithmetic *)

Definition month_of (x : Date) : Z := month_index (Year x) (Month x).

Lemma shift_split yy mm n :
  0 ≤ month_index yy mm + n →
  let '(yy', mm') := shift yy mm n in 1 ≤ mm' ≤ 12 ∧ month_index yy' mm' = month_index yy mm + n.
Proof.
  intros H. unfold month_index in *. unfold shift.
  rewrite Z.quot_div_nonneg, Z.rem_mod_nonneg by lia. Z.div_mod_to_equations. lia.
Qed.

Lemma clamp_high_min day top : clamp_high day top = Z.min day top.
Proof. unfold clamp_high. destruct (Z.ltb_spec top day); lia. Qed.

(** The nth occurrence falls n months on, on the contractual day or the last
    day of a shorter month. *)
Lemma Occurrence_facts start day n :
  0 ≤ month_of start + n →
  let o := Occurrence start day n in
  valid o ∧ month_of o = month_of start + n ∧
  Day o = Z.min (Z.max 1 day) (month_len (Year o) (Month o)).
Proof.
  intros H. unfold Occurrence, month_of in *.
  pose proof (shift_split _ _ _ H) as Hs. destruct (shift _ _ _) as [yy mm]. destruct Hs as [Hm Hi].
  simpl. rewrite clamp_high_min, DaysInMonth_len by done.
  pose proof (month_len_range yy mm). unfold valid. simpl.
  destruct (Z.ltb_spec day 1); lia.
Qed.

Lemma month_of_lt_time a b : valid a → valid b → month_of a < month_of b → time a < time b.
Proof.
  intros Ha Hb H. apply time_lt_of_Compare; [done|done|]. apply Compare_lt; [done|done|]. by left.
Qed.

Lemma Occurrence_lt start day n n' :
  0 ≤ month_of start + n → n < n' → time (Occurrence start day n) < time (Occurrence start day n').
Proof.
  intros H Hn. destruct (Occurrence_facts start day n H) as (? & E & _).
  destruct (Occurrence_facts start day n' ltac:(lia)) as (? & E' & _).
  apply month_of_lt_time; [done|done|lia].
Qed.

Lemma AddMonths_facts x n :
  1 ≤ Day x → 0 ≤ month_of x + n →
  let o := AddMonths x n in
  valid o ∧ month_of o = month_of x + n ∧ Day o = Z.min (Day x) (month_len (Year o) (Month o)).
Proof.
  intros Hd H. unfold AddMonths, month_of in *.
  pose proof (shift_split _ _ _ H) as Hs. destruct (shift _ _ _) as [yy mm]. destruct Hs as [Hm Hi].
  simpl. rewrite clamp_high_min, DaysInMonth_len by done.
  pose proof (month_len_range yy mm). unfold valid. simpl. lia.
Qed.

Lemma OnDayOfMonth_facts x day :
  1 ≤ Month x ≤ 12 →
  valid (OnDayOfMonth x day) ∧ month_of (OnDayOfMonth x day) = month_of x ∧
  Day (OnDayOfMonth x day) = Z.min (Z.max 1 day) (month_len (Year x) (Month x)).
Proof.
  intros Hm. unfold OnDayOfMonth, month_of, valid. simpl.
  rewrite clamp_high_min, DaysInMonth_len by done.
  pose proof (month_len_range (Year x) (Month x)). destruct (Z.ltb_spec day 1); lia.
Qed.

Lemma EndOfMonth_facts x :
  1 ≤ Month x ≤ 12 → valid (EndOfMonth x) ∧ Day (EndOfMonth x) = month_len (Year x) (Month x).
Proof.
  intros Hm. unfold EndOfMonth, valid. simpl. rewrite DaysInMonth_len by done.
  pose proof (month_len_range (Year x) (Month x)). lia.
Qed.

(** ** Text *)

Lemma Parse_String x :
  valid x → 0 ≤ Year x ≤ 9999 → Parse (String x) = Ok x.
Proof.
  intros Hv Hy. destruct x as [yy mm dd]. pose proof Hv as [Hm Hd]. simpl in Hy, Hm, Hd.
  pose proof (month_len_range yy mm). unfold String. cbn [Year Month Day].
  destruct (Sprintf_04d_digits yy Hy) as (c3 & c2 & c1 & c0 & -> & Hyy).
  destruct (Sprintf_02d_digits mm ltac:(lia)) as (e1 & e0 & -> & Hmm).
  destruct (Sprintf_02d_digits dd ltac:(lia)) as (f1 & f0 & -> & Hdd).
  unfold Parse. cbn [app]. rewrite Hyy, Hmm, Hdd, !bool_decide_eq_true_2 by done.
  cbn [andb negb]. rewrite DaysInMonth_len by done.
  assert ((mm <? 1) || (12 <? mm) = false)%bool as -> by lia.
  assert ((dd <? 1) || (month_len yy mm <? dd) = false)%bool as -> by lia. done.
Qed.

Lemma Parse_valid s x : Parse s = Ok x → valid x.
Proof.
  intros H. unfold Parse in H.
  destruct s as [|? [|? [|? [|? [|? [|? [|? [|? [|? [|? [|]]]]]]]]]]]; try discriminate H.
  destruct (digits_val _) as [yy|]; [|done]. destruct (digits_val _) as [mm|]; [|done].
  destruct (digits_val _) as [dd|]; [|done]. destruct (negb _); [done|].
  destruct ((mm <? 1) || (12 <? mm))%bool eqn:E1; [done|].
  destruct ((dd <? 1) || (DaysInMonth yy mm <? dd))%bool eqn:E2; [done|].
  injection H as <-. unfold valid. simpl. rewrite <- DaysInMonth_len by lia. lia.
Qed.

(** * Properties *)

(** Days and dates are one scale. Reading a day count as a date gives a
    valid date with that count, every valid date is the reading of its own
    count, calendar order is the order of counts, and moving by a number of
    days moves the count by exactly that number. *)
Theorem days_and_dates :
  (∀ n, valid (civil n) ∧ time (civil n) = n) ∧
  (∀ x, valid x → civil (time x) = x) ∧
  (∀ a b, valid a → valid b → Before a b = (time a <? time b) ∧ After a b = (time b <? time a)) ∧
  (∀ x n, valid (AddDays x n) ∧ time (AddDays x n) = time x + n).
Proof.
  split_and!.
  - apply civil_facts.
  - apply civil_time.
  - intros. split; [by apply Before_time|by apply After_time].
  - intros x n. split; [apply AddDays_valid|apply time_AddDays].
Qed.

Lemma days_and_dates_witness :
  civil (time (MkDate 2024 2 29)) = MkDate 2024 2 29 ∧
  Before (MkDate 2024 2 29) (MkDate 2024 3 1) = (time (MkDate 2024 2 29) <? time (MkDate 2024 3 1)).
Proof.
  destruct days_and_dates as (_ & H1 & H2 & _).
  split; [apply H1|apply H2]; repeat split; vm_compute; discriminate.
Defined.

(** Days between two dates are counted exactly up to 292 years apart, and
    the count stays at 106,751 beyond; its sign is always the order of the
    dates. *)
Theorem DaysBetween_spec a b :
  (Z.abs (time b - time a) ≤ 106751 → DaysBetween a b = time b - time a) ∧
  (106751 < time b - time a → DaysBetween a b = 106751) ∧
  (0 ≤ DaysBetween a b ↔ time a ≤ time b).
Proof.
  split_and!; [apply DaysBetween_exact|apply DaysBetween_saturates|apply DaysBetween_nonneg_exact..].
Qed.

Lemma DaysBetween_spec_witness :
  DaysBetween (MkDate 2024 1 31) (MkDate 2024 3 1) = 30 ∧
  DaysBetween (MkDate 1700 1 1) (MkDate 2000 1 1) = 106751.
Proof.
  split; [apply (DaysBetween_spec (MkDate 2024 1 31) (MkDate 2024 3 1))
    |apply (DaysBetween_spec (MkDate 1700 1 1) (MkDate 2000 1 1))]; vm_compute; done || discriminate.
Defined.

(** The document says the number of days; three centuries are 109,573 of them. *)
Example DaysBetween_three_centuries :
  time (MkDate 2000 1 1) - time (MkDate 1700 1 1) = 109572 ∧
  DaysBetween (MkDate 1700 1 1) (MkDate 2000 1 1) = 106751.
Proof. vm_compute. done. Qed.

(** Dates survive text and JSON. A valid date of a four-digit year prints
    to a text that parses back to it, in JSON as in plain form; an absent date
    is JSON null both ways; and whatever parses is a valid date. *)
Theorem Date_text_roundtrip :
  (∀ x, valid x → 0 ≤ Year x ≤ 9999 →
    Parse (String x) = Ok x ∧ UnmarshalJSON (MarshalJSON x) = Ok x) ∧
  UnmarshalJSON (MarshalJSON zero_date) = Ok zero_date ∧
  (∀ s x, Parse s = Ok x → valid x).
Proof.
  split_and!; [|reflexivity|].
  - intros x Hv Hy. pose proof (Parse_String x Hv Hy) as Hp. split; [done|].
    unfold MarshalJSON, IsZero. rewrite bool_decide_eq_false_2; [done|].
    intros ->. destruct Hv as [Hm _]. simpl in Hm. lia.
  - apply Parse_valid.
Qed.

Lemma Date_text_roundtrip_witness :
  Parse (String (MkDate 2024 2 29)) = Ok (MkDate 2024 2 29).
Proof.
  destruct Date_text_roundtrip as [H _].
  apply (H (MkDate 2024 2 29)); repeat split; vm_compute; discriminate.
Defined.
