(* ===== verification/Model.v ===== *)
(** The value types the engine reasons about: [pkg/core/model] — positions,
    contracts, snapshots, events and derived state. *)
From S2P Require Import Prelude Money Dates.

(** * buckets.go *)

Inductive Bucket :=
| Penalties | OverdueFees | CurrentFees | UnpaidInterest
| AccruedInterest | OverduePrincipal | Principal | AdvanceCredit.
#[export] Instance Bucket_eq_dec : EqDecision Bucket.
Proof. solve_decision. Defined.

Definition bucketNames : list (Bucket * string) := [
  (Penalties, "penalties"); (OverdueFees, "overdue_fees"); (CurrentFees, "current_fees");
  (UnpaidInterest, "unpaid_interest"); (AccruedInterest, "accrued_interest");
  (OverduePrincipal, "overdue_principal"); (Principal, "principal");
  (AdvanceCredit, "advance_credit") ]%string.

(** A name table read forwards and backwards, as the persisted enumerations
    are. *)
Section NameTable.
Context {A : Type} `{EqDecision A} (names : list (A * string)).
Definition name_of (a : A) : string :=
  match find (λ p, bool_decide (p.1 = a)) names with Some p => p.2 | None => "unknown" end.
Definition by_name (s : string) : option A :=
  fst <$> find (λ p, String.eqb p.2 s) names.
End NameTable.

Definition Bucket_String (b : Bucket) : string := name_of bucketNames b.
Definition ParseBucket (s : string) : res Bucket :=
  match by_name bucketNames s with Some b => Ok b | None => errorf "unknown bucket %q" end.

Record Buckets := MkBuckets {
  pPrincipal : Amount;
  pAccruedInterest : Amount;
  pUnpaidInterest : Amount;
  pCurrentFees : Amount;
  pOverdueFees : Amount;
  pPenalties : Amount;
  pOverduePrincipal : Amount;
  pAdvanceCredit : Amount }.
#[export] Instance Buckets_eq_dec : EqDecision Buckets.
Proof. solve_decision. Defined.

Definition NewBuckets (c : Currency) : Buckets :=
  let z := Zero c in MkBuckets z z z z z z z z.

Definition Buckets_Currency (b : Buckets) : Currency := cur (pPrincipal b).

Definition Get (b : Buckets) (k : Bucket) : Amount :=
  match k with
  | Penalties => pPenalties b
  | OverdueFees => pOverdueFees b
  | CurrentFees => pCurrentFees b
  | UnpaidInterest => pUnpaidInterest b
  | AccruedInterest => pAccruedInterest b
  | OverduePrincipal => pOverduePrincipal b
  | AdvanceCredit => pAdvanceCredit b
  | Principal => pPrincipal b
  end.

Definition With (b : Buckets) (k : Bucket) (v : Amount) : Buckets :=
  let '(MkBuckets p ai ui cf ofe pn op ac) := b in
  match k with
  | Penalties => MkBuckets p ai ui cf ofe v op ac
  | OverdueFees => MkBuckets p ai ui cf v pn op ac
  | CurrentFees => MkBuckets p ai ui v ofe pn op ac
  | UnpaidInterest => MkBuckets p ai v cf ofe pn op ac
  | AccruedInterest => MkBuckets p v ui cf ofe pn op ac
  | OverduePrincipal => MkBuckets p ai ui cf ofe pn v ac
  | AdvanceCredit => MkBuckets p ai ui cf ofe pn op v
  | Principal => MkBuckets v ai ui cf ofe pn op ac
  end.

(** Adding a list of amounts up from zero, stopping at the first error. *)
Fixpoint sum_amounts (sum : Amount) (l : list Amount) : res Amount :=
  match l with
  | [] => Ok sum
  | a :: l => sum ← Add sum a; sum_amounts sum l
  end.

Definition TotalOwed (b : Buckets) : res Amount :=
  sum ← sum_amounts (Zero (Buckets_Currency b))
    [pPrincipal b; pOverduePrincipal b; pAccruedInterest b; pUnpaidInterest b;
     pCurrentFees b; pOverdueFees b; pPenalties b];
  Sub sum (pAdvanceCredit b).

(** An error means not closed; a panic still propagates. *)
Definition IsClosed (b : Buckets) : res bool :=
  match TotalOwed b with
  | Ok t => Ok (Sign t <=? 0)
  | Err _ => Ok false
  | Panic w => Panic w
  end.

Definition HasArrears (b : Buckets) : bool :=
  (0 <? Sign (pPenalties b)) || (0 <? Sign (pOverduePrincipal b)) ||
  (0 <? Sign (pOverdueFees b)) || (0 <? Sign (pUnpaidInterest b)).

(** [Validate] ranges over a Go map, in an unspecified order; [order] is the
    order one run happens to take. *)
Definition position_fields (b : Buckets) : list (string * Amount) := [
  ("principal", pPrincipal b); ("accrued_interest", pAccruedInterest b);
  ("unpaid_interest", pUnpaidInterest b); ("current_fees", pCurrentFees b);
  ("overdue_fees", pOverdueFees b); ("penalties", pPenalties b);
  ("overdue_principal", pOverduePrincipal b); ("advance_credit", pAdvanceCredit b) ]%string.

(** Go ranges over a map here, so which of several bad buckets it names is not
    determined; the model names the first in the order of [position_fields]. Whether
    there is an error does not depend on the order. *)
Fixpoint validate_fields (code : string) (order : list (string * Amount)) : res unit :=
  match order with
  | [] => Ok tt
  | (_, a) :: rest =>
      if Sign a <? 0 then errorf "bucket %s is negative"
      else if negb (String.eqb (Code (cur a)) code) then errorf "bucket %s is %s, expected %s"
      else validate_fields code rest
  end.

Definition Buckets_Validate (b : Buckets) : res unit :=
  validate_fields (Code (cur (pPrincipal b))) (position_fields b).

(** * loan.go *)

Inductive RepaymentType := Annuity | DecliningPrincipal.
#[export] Instance RepaymentType_eq_dec : EqDecision RepaymentType.
Proof. solve_decision. Defined.

Definition RepaymentType_String (r : RepaymentType) : string :=
  match r with DecliningPrincipal => "declining" | Annuity => "annuity" end.

Inductive PrepaymentEffect := PrepayBorrowerChooses | PrepayShortenTerm | PrepayReduceInstalment.
#[export] Instance PrepaymentEffect_eq_dec : EqDecision PrepaymentEffect.
Proof. solve_decision. Defined.

Definition PrepaymentEffect_String (e : PrepaymentEffect) : string :=
  match e with
  | PrepayShortenTerm => "shorten_term"
  | PrepayReduceInstalment => "reduce_instalment"
  | PrepayBorrowerChooses => "borrower_chooses"
  end.

Definition ParsePrepaymentEffect (s : string) : res PrepaymentEffect :=
  if String.eqb s "" || String.eqb s "borrower_chooses" then Ok PrepayBorrowerChooses
  else if String.eqb s "shorten_term" then Ok PrepayShortenTerm
  else if String.eqb s "reduce_instalment" then Ok PrepayReduceInstalment
  else errorf_w "%w: unknown prepayment effect %q" ErrModelInvalid.

Record PrepaymentCharge := MkPrepaymentCharge {
  FromYear : Z;
  ThroughYear : Z;
  PercentBP : Z;
  Fixed : Amount;
  FreeAllowance : Amount;
  MinCharge : Amount;
  MaxCharge : Amount }.

Record PrepaymentTerms := MkPrepayment {
  Effect : PrepaymentEffect;
  FeeBP : Z;
  Charges : list PrepaymentCharge;
  MinAmount : Amount }.

Record PolicyRef := MkPolicyRef { Key : string; RefVersion : Z }.
#[export] Instance PolicyRef_eq_dec : EqDecision PolicyRef.
Proof. solve_decision. Defined.

Definition PolicyRef_IsZero (p : PolicyRef) : bool := String.eqb (Key p) "".

Record Contract := MkContract {
  LoanID : string;
  Version : Z;
  ContractCurrency : Currency;
  EffectiveFrom : Date;
  EffectiveThru : Date;
  NominalRate : Z;
  ContractDayCount : DayCount;
  Type_ : RepaymentType;
  StartDate : Date;
  MaturityDate : Date;
  PaymentDay : Z;
  NotBeforeDue : Date;
  ScheduledPayment : Amount;
  HasScheduled : bool;
  Rounding : Policy;
  Prepayment : PrepaymentTerms;
  AllocationPolicy : PolicyRef }.

Definition CoversDate (c : Contract) (on : Date) : bool :=
  if Before on (EffectiveFrom c) then false
  else Dates.IsZero (EffectiveThru c) || negb (After on (EffectiveThru c)).

Definition Contract_Validate (c : Contract) : res unit :=
  let invalid {A} f : res A := errorf_w f ErrModelInvalid in
  if String.eqb (LoanID c) "" then invalid "%w: contract has no loan"
  else if Version c <? 1 then invalid "%w: contract version must be positive"
  else if NominalRate c <? 0 then invalid "%w: negative nominal rate"
  else if (PaymentDay c <? 1) || (31 <? PaymentDay c)
  then invalid "%w: payment day %d out of range"
  else if Dates.IsZero (StartDate c) || Dates.IsZero (MaturityDate c)
  then invalid "%w: contract needs a start and a maturity date"
  else if negb (After (MaturityDate c) (StartDate c))
  then invalid "%w: maturity %s does not follow start %s"
  else if Dates.IsZero (EffectiveFrom c)
  then invalid "%w: contract version needs an effective date"
  else if negb (Dates.IsZero (EffectiveThru c)) && Before (EffectiveThru c) (EffectiveFrom c)
  then invalid "%w: effective range ends before it starts"
  else if negb (bool_decide (Type_ c = Annuity)) && negb (bool_decide (Type_ c = DecliningPrincipal))
  then invalid "%w: unsupported repayment type"
  else if HasScheduled c && (Sign (ScheduledPayment c) <=? 0)
  then invalid "%w: scheduled payment must be positive when supplied"
  else if Unit (Rounding c) <? 1 then invalid "%w: rounding unit must be at least 1"
  else Ok tt.

Inductive Trust := UserEntered | BankConfirmed | ImportedVerified.
#[export] Instance Trust_eq_dec : EqDecision Trust.
Proof. solve_decision. Defined.

Record Snapshot := MkSnapshot {
  SnapID : string;
  SnapLoanID : string;
  SnapContractID : Z;
  SnapAsOf : Date;
  SnapTrust : Trust;
  SnapPosition : Buckets;
  NextInstalment : Amount;
  NextDueDate : Date;
  RemainingInstalments : Z }.

Definition Snapshot_Validate (s : Snapshot) : res unit :=
  if String.eqb (SnapLoanID s) "" then errorf_w "%w: snapshot has no loan" ErrModelInvalid
  else if Dates.IsZero (SnapAsOf s) then errorf_w "%w: snapshot needs an as-of date" ErrModelInvalid
  else if RemainingInstalments s <? 0
  then errorf_w "%w: negative remaining instalments" ErrModelInvalid
  else Buckets_Validate (SnapPosition s).

(** * event.go *)

Inductive EventKind :=
| PaymentReported | PrepaymentReported | BankFeeReported | EntryVoided | LoanClosedReported.
#[export] Instance EventKind_eq_dec : EqDecision EventKind.
Proof. solve_decision. Defined.

Definition eventKindNames : list (EventKind * string) := [
  (PaymentReported, "payment_reported"); (PrepaymentReported, "prepayment_reported");
  (BankFeeReported, "bank_fee_reported"); (EntryVoided, "entry_voided");
  (LoanClosedReported, "loan_closed_reported") ]%string.

Definition EventKind_String (k : EventKind) : string := name_of eventKindNames k.
Definition ParseEventKind (s : string) : res EventKind :=
  match by_name eventKindNames s with
  | Some k => Ok k
  | None => errorf_w "%w: unknown event kind %q" ErrModelInvalid
  end.

Record Event := MkEvent {
  EvID : string;
  EvLoanID : string;
  ContractVer : Z;
  RecordedSeq : Z;
  Kind : EventKind;
  ValueDate : Date;
  EvAmount : Amount;
  BankOrder : Z;
  HasBankOrder : bool;
  VoidsEvent : string;
  IntendedPrepayment : bool }.
#[export] Instance Event_eq_dec : EqDecision Event.
Proof. solve_decision. Defined.

Definition Event_Validate (e : Event) : res unit :=
  let invalid {A} f : res A := errorf_w f ErrModelInvalid in
  let is_void := bool_decide (Kind e = EntryVoided) in
  if String.eqb (EvLoanID e) "" then invalid "%w: event has no loan"
  else if RecordedSeq e <? 1 then invalid "%w: recorded_seq must be positive"
  else if Dates.IsZero (ValueDate e) then invalid "%w: event needs a value date"
  else if is_void && String.eqb (VoidsEvent e) ""
  then invalid "%w: a void must name the event it retracts"
  else if negb is_void && negb (String.eqb (VoidsEvent e) "")
  then invalid "%w: only a void may reference another event"
  else if bool_decide (Kind e = LoanClosedReported) || is_void then Ok tt
  else if Sign (EvAmount e) <=? 0 then invalid "%w: %s must carry a positive amount"
  else Ok tt.

(** The order money moves in: value date, then the lender's intra-day order
    with ordered entries first, then the order of recording. *)
Definition replay_less (a b : Event) : bool :=
  let c := Compare (ValueDate a) (ValueDate b) in
  if negb (c =? 0) then c <? 0
  else if negb (eqb (HasBankOrder a) (HasBankOrder b)) then HasBankOrder a
  else if HasBankOrder a && negb (BankOrder a =? BankOrder b) then BankOrder a <? BankOrder b
  else RecordedSeq a <? RecordedSeq b.

Definition SortForReplay (events : list Event) : list Event := SliceStable replay_less events.

(** * state.go *)

Inductive Reliability := Confirmed | Estimated | Stale | NeedsReconciliation | Unsupported.
#[export] Instance Reliability_eq_dec : EqDecision Reliability.
Proof. solve_decision. Defined.

Definition reliabilityNames : list (Reliability * string) := [
  (Confirmed, "confirmed"); (Estimated, "estimated"); (Stale, "stale");
  (NeedsReconciliation, "needs_reconciliation"); (Unsupported, "unsupported") ]%string.
Definition Reliability_String (r : Reliability) : string := name_of reliabilityNames r.

Inductive PlanTier := TierConfident | TierIndicative | TierBlocked.
#[export] Instance PlanTier_eq_dec : EqDecision PlanTier.
Proof. solve_decision. Defined.

Definition Tier (r : Reliability) : PlanTier :=
  match r with
  | Confirmed => TierConfident
  | Estimated | Stale => TierIndicative
  | _ => TierBlocked
  end.

Record Reason := MkReason { ReasonCode : string; ReasonDetail : string }.
#[export] Instance Reason_eq_dec : EqDecision Reason.
Proof. solve_decision. Defined.

Record LoanState := MkLoanState {
  StLoanID : string;
  StPosition : Buckets;
  AnchorSnapshot : string;
  BalanceAsOf : Date;
  LastRecordedSeq : Z;
  EventSetHash : list Z;   (* [32]byte *)
  StReliability : Reliability;
  Reasons : list Reason;
  EngineVersion : string }.

(** * Facts *)

Lemma Get_With b k k' v : Get (With b k v) k' = if decide (k' = k) then v else Get b k'.
Proof. destruct b, k, k'; done. Qed.

(** Every persisted name reads back as the value it was written for. *)
Lemma by_name_of_names :
  (∀ b, ParseBucket (Bucket_String b) = Ok b) ∧
  (∀ k, ParseEventKind (EventKind_String k) = Ok k) ∧
  (∀ e, ParsePrepaymentEffect (PrepaymentEffect_String e) = Ok e).
Proof. split_and!; by intros []. Qed.

(** ** Positions *)

(** The debts of a position, in the order [TotalOwed] adds them. *)
Definition debts : list Bucket :=
  [Principal; OverduePrincipal; AccruedInterest; UnpaidInterest; CurrentFees; OverdueFees; Penalties].

(** A position that can exist, in a stated currency: what [Validate] accepts,
    with [int64] amounts. *)
Definition wf_position (b : Buckets) : Prop :=
  ∀ k, 0 ≤ minor (Get b k) ≤ MaxInt64 ∧ Code (cur (Get b k)) = Code (Buckets_Currency b).

Lemma validate_fields_Ok code l :
  validate_fields code l = Ok tt ↔ Forall (λ p, 0 ≤ minor p.2 ∧ Code (cur p.2) = code) l.
Proof.
  induction l as [|[n a] l IH]; simpl; [split; [constructor|done]|].
  rewrite Forall_cons, <- IH. simpl. unfold Sign, errorf, errorf_w.
  destruct (Z.ltb_spec 0 (minor a)), (Z.ltb_spec (minor a) 0), (String.eqb_spec (Code (cur a)) code);
    simpl; naive_solver lia.
Qed.

(** Whatever order the map yields its fields in, the verdict is the same. *)
Lemma validate_fields_order code l l' :
  l ≡ₚ l' → is_ok (validate_fields code l) = is_ok (validate_fields code l').
Proof.
  intros Hp.
  assert (∀ l, is_ok (validate_fields code l) = true ↔
    Forall (λ p, 0 ≤ minor p.2 ∧ Code (cur p.2) = code) l) as H.
  { intros k. rewrite <- validate_fields_Ok. destruct (validate_fields code k) as [[]| |]; done. }
  apply eq_bool_prop_intro. rewrite !Is_true_true, !H. by rewrite Hp.
Qed.

Lemma Buckets_Validate_Ok b :
  (∀ k, wf_amount (Get b k)) → Buckets_Validate b = Ok tt ↔ wf_position b.
Proof.
  intros Hwf. unfold Buckets_Validate. rewrite validate_fields_Ok.
  unfold wf_position, wf_amount, in_i64, Buckets_Currency in *. split.
  - intros H k. specialize (Hwf k). unfold position_fields in H.
    rewrite !Forall_cons in H. simpl in H. destruct b, k; simpl in *; naive_solver lia.
  - intros H. unfold position_fields.
    assert (∀ k, 0 ≤ minor (Get b k) ∧ Code (cur (Get b k)) = Code (cur (pPrincipal b))) as H'
      by (intros k; destruct (H k) as [[? _] ?]; done).
    repeat (apply Forall_cons; split); try by apply Forall_nil.
    + apply (H' Principal).
    + apply (H' AccruedInterest).
    + apply (H' UnpaidInterest).
    + apply (H' CurrentFees).
    + apply (H' OverdueFees).
    + apply (H' Penalties).
    + apply (H' OverduePrincipal).
    + apply (H' AdvanceCredit).
Qed.

(** Summing amounts of one currency succeeds while the sum is representable. *)
Lemma sum_amounts_Ok l : ∀ a,
  (∀ b, b ∈ l → 0 ≤ minor b ∧ Code (cur b) = Code (cur a)) → 0 ≤ minor a →
  minor a + foldr (λ b t, minor b + t) 0 l ≤ MaxInt64 →
  sum_amounts a l = Ok (MkAmount (minor a + foldr (λ b t, minor b + t) 0 l) (cur a)).
Proof.
  induction l as [|b l IH]; intros a Hl Ha Hsum; simpl in *.
  { rewrite Z.add_0_r. by destruct a. }
  destruct (Hl b) as [Hb Hc]; [by left|].
  assert (0 ≤ foldr (λ b t, minor b + t) 0 l) as Hn.
  { clear -Hl. induction l as [|c l IH]; simpl; [lia|].
    destruct (Hl c) as [? _]; [by right; left|].
    assert (0 ≤ foldr (λ b t, minor b + t) 0 l); [|lia].
    apply IH. intros x [->|Hx]%elem_of_cons; apply Hl; [by left|by right; right]. }
  assert (Add a b = Ok (MkAmount (minor a + minor b) (cur a))) as ->.
  { apply Add_Ok_iff; unfold_i64; [lia|lia|]. split_and!; [done|done|lia|lia]. }
  simpl. rewrite IH; simpl; [f_equal; f_equal; lia| |lia|lia].
  intros c Hx. apply Hl. by right.
Qed.

(** What is owed before credit, in minor units. *)
Definition debt (b : Buckets) : Z := foldr (λ k t, minor (Get b k) + t) 0 debts.
Definition credit (b : Buckets) : Z := minor (pAdvanceCredit b).

(** ** Replay order *)

(** Same-day order on its own: ordered entries first, then recording order. *)
Definition day_less (a b : Event) : bool :=
  if negb (eqb (HasBankOrder a) (HasBankOrder b)) then HasBankOrder a
  else if HasBankOrder a && negb (BankOrder a =? BankOrder b) then BankOrder a <? BankOrder b
  else RecordedSeq a <? RecordedSeq b.

Lemma replay_less_false a b :
  replay_less a b = false ↔
  0 < Compare (ValueDate a) (ValueDate b) ∨ ValueDate a = ValueDate b ∧ day_less a b = false.
Proof.
  unfold replay_less. rewrite <- Compare_eq.
  destruct (Z.eqb_spec (Compare (ValueDate a) (ValueDate b)) 0) as [->|]; simpl.
  - unfold day_less. naive_solver lia.
  - rewrite Z.ltb_ge. lia.
Qed.

Lemma day_less_asym a b : day_less a b = true → day_less b a = false.
Proof.
  unfold day_less. destruct (HasBankOrder a), (HasBankOrder b); simpl; try done;
    repeat case_match; lia.
Qed.

Lemma day_less_trans a b c :
  day_less b a = false → day_less c b = false → day_less c a = false.
Proof.
  unfold day_less. destruct (HasBankOrder a), (HasBankOrder b), (HasBankOrder c); simpl; try done;
    repeat case_match; lia.
Qed.

Lemma replay_less_asym a b : replay_less a b = true → replay_less b a = false.
Proof.
  intros H. apply not_false_iff_true in H. rewrite replay_less_false in *.
  pose proof (Compare_opp (ValueDate a) (ValueDate b)) as Ho.
  destruct (decide (0 < Compare (ValueDate b) (ValueDate a))); [by left|right].
  assert (ValueDate a = ValueDate b) as E.
  { apply Compare_eq. pose proof (Compare_values (ValueDate a) (ValueDate b)).
    destruct (decide (Compare (ValueDate a) (ValueDate b) = 0)); [done|]. exfalso. apply H. left. lia. }
  split; [done|]. apply day_less_asym. apply not_false_iff_true. intros Hf. apply H. by right.
Qed.

Lemma replay_not_after_trans a b c :
  not_after replay_less a b → not_after replay_less b c → not_after replay_less a c.
Proof.
  unfold not_after. rewrite !replay_less_false. intros [Hab|[Eab Dab]] [Hbc|[Ebc Dbc]].
  - left. pose proof (Compare_trans (ValueDate a) (ValueDate b) (ValueDate c)).
    rewrite (Compare_opp (ValueDate a) (ValueDate c)).
    pose proof (Compare_opp (ValueDate a) (ValueDate b)).
    pose proof (Compare_opp (ValueDate b) (ValueDate c)).
    destruct (decide (Compare (ValueDate a) (ValueDate c) = 0)) as [E%Compare_eq|]; [|lia].
    rewrite E in *. lia.
  - left. by rewrite Ebc.
  - left. by rewrite <- Eab.
  - right. split; [congruence|]. by apply day_less_trans with b.
Qed.

Lemma SortForReplay_perm l : SortForReplay l ≡ₚ l.
Proof. apply SliceStable_perm. Qed.

Lemma SortForReplay_sorted l : StronglySorted (not_after replay_less) (SortForReplay l).
Proof. apply SliceStable_sorted; [apply replay_less_asym|apply replay_not_after_trans]. Qed.

(** Two events that may stand either way round were recorded under the same
    number. *)
Lemma replay_tie a b :
  not_after replay_less a b → not_after replay_less b a → RecordedSeq a = RecordedSeq b.
Proof.
  unfold not_after. rewrite !replay_less_false.
  pose proof (Compare_opp (ValueDate a) (ValueDate b)).
  intros [?|[E1 D1]] [?|[E2 D2]]; try lia.
  - rewrite E2 in *. lia.
  - rewrite E1 in *. lia.
  - revert D1 D2. unfold day_less. destruct (HasBankOrder a), (HasBankOrder b); simpl;
      repeat case_match; lia || done.
Qed.

(** Distinct recording numbers make the replay order independent of the order
    events are stored in. *)
Lemma SortForReplay_canonical l l' :
  l ≡ₚ l' → NoDup (RecordedSeq <$> l) → SortForReplay l = SortForReplay l'.
Proof.
  intros Hp Hnd. apply SliceStable_canonical;
    [apply replay_less_asym|apply replay_not_after_trans|done|].
  intros a b Ha Hb H1 H2. pose proof (replay_tie a b H1 H2) as E.
  apply list_elem_of_lookup in Ha as [i Hi], Hb as [j Hj].
  assert (i = j) as ->; [|congruence].
  eapply (NoDup_lookup (RecordedSeq <$> l)); [done| |]; rewrite list_lookup_fmap; [by rewrite Hi|].
  rewrite Hj. simpl. by rewrite E.
Qed.

Lemma replay_less_by_date a b :
  not_after replay_less a b → Compare (ValueDate a) (ValueDate b) ≤ 0.
Proof.
  unfold not_after. rewrite replay_less_false, (Compare_opp (ValueDate a) (ValueDate b)).
  intros [?|[E _]]; [lia|]. rewrite E, (proj2 (Compare_eq _ _)); done.
Qed.

(** * Properties *)

(** What is owed is what the buckets say. On a possible position the total
    is the sum of the seven debts less the credit held, whenever the debts sum
    inside [int64]; and the loan counts as closed exactly when the credit
    covers the debts. *)
Theorem TotalOwed_exact b :
  wf_position b → debt b ≤ MaxInt64 →
  TotalOwed b = Ok (MkAmount (debt b - credit b) (Buckets_Currency b)) ∧
  IsClosed b = Ok (debt b <=? credit b).
Proof.
  intros Hpos Hd.
  assert (TotalOwed b = Ok (MkAmount (debt b - credit b) (Buckets_Currency b))) as E.
  { unfold TotalOwed. rewrite bind_Ok. exists (MkAmount (debt b) (Buckets_Currency b)).
    assert (∀ k, 0 ≤ minor (Get b k) ≤ MaxInt64 ∧ Code (cur (Get b k)) = Code (Buckets_Currency b)) as H
      by (intros k; destruct (Hpos k) as [? ?]; split; done).
    split.
    - change [pPrincipal b; pOverduePrincipal b; pAccruedInterest b; pUnpaidInterest b; pCurrentFees b;
        pOverdueFees b; pPenalties b] with (Get b <$> debts).
      unfold debt. rewrite (sum_amounts_Ok (Get b <$> debts) (Zero (Buckets_Currency b))); [done| |done|].
      + intros a Ha. apply list_elem_of_fmap in Ha as (k & -> & _). destruct (H k). split; [lia|done].
      + unfold debt in Hd. simpl in *. lia.
    - destruct (H AdvanceCredit) as [Hc Hcc]. simpl in Hc, Hcc.
      apply Sub_nonneg_iff; simpl; [|done|by rewrite Hcc|done].
      split; [|done]. unfold debt. simpl.
      pose proof (proj1 (H Principal)). pose proof (proj1 (H OverduePrincipal)).
      pose proof (proj1 (H AccruedInterest)). pose proof (proj1 (H UnpaidInterest)).
      pose proof (proj1 (H CurrentFees)). pose proof (proj1 (H OverdueFees)). pose proof (proj1 (H Penalties)).
      simpl in *. lia. }
  split; [done|]. unfold IsClosed. rewrite E. f_equal. unfold Sign. simpl. repeat case_match; lia.
Qed.

Lemma TotalOwed_exact_witness :
  let b := With (With (NewBuckets AMD) Principal (MkAmount 500 AMD)) AdvanceCredit (MkAmount 700 AMD) in
  TotalOwed b = Ok (MkAmount (-200) AMD) ∧ IsClosed b = Ok true.
Proof.
  apply (TotalOwed_exact (With (With (NewBuckets AMD) Principal (MkAmount 500 AMD))
    AdvanceCredit (MkAmount 700 AMD))).
  - intros []; vm_compute; repeat split; discriminate.
  - vm_compute. discriminate.
Defined.
