(* ===== verification/Allocation.v ===== *)
(** Where a payment goes: [pkg/core/allocation].

    A policy names the order a lender settles the buckets in and what happens
    to the rest of the money. [Apply] returns a position, a split and an error
    together, as the Go function does: the split of an unknown policy is used
    by the caller although the error is set. *)
From S2P Require Import Prelude Money Dates Model.

#[export] Instance Bucket_countable : Countable Bucket.
Proof.
  refine (inj_countable'
    (λ b, match b with Penalties => 0%nat | OverdueFees => 1%nat | CurrentFees => 2%nat
      | UnpaidInterest => 3%nat | AccruedInterest => 4%nat | OverduePrincipal => 5%nat
      | Principal => 6%nat | AdvanceCredit => 7%nat end)
    (λ n, match n with 0%nat => Penalties | 1%nat => OverdueFees | 2%nat => CurrentFees
      | 3%nat => UnpaidInterest | 4%nat => AccruedInterest | 5%nat => OverduePrincipal
      | 6%nat => Principal | _ => AdvanceCredit end) _).
  by intros [].
Defined.

Inductive ExcessRule :=
| ExcessUnknown | ExcessReducePrincipal | ExcessHoldAsAdvance | ExcessRequiresBankRequest.
#[export] Instance ExcessRule_eq_dec : EqDecision ExcessRule.
Proof. solve_decision. Defined.

Definition excessNames : list (ExcessRule * string) := [
  (ExcessUnknown, "unknown"); (ExcessReducePrincipal, "reduce_principal");
  (ExcessHoldAsAdvance, "hold_as_advance");
  (ExcessRequiresBankRequest, "requires_bank_request") ]%string.
Definition ExcessRule_String (e : ExcessRule) : string := name_of excessNames e.
Definition ParseExcessRule (s : string) : res ExcessRule :=
  match by_name excessNames s with
  | Some r => Ok r
  | None => errorf "unknown excess rule %q"
  end.

Record Policy := MkPolicy {
  Ref : PolicyRef;
  Order : list Bucket;
  Excess : ExcessRule;
  Source : string }.

Definition Unknown : Policy :=
  MkPolicy (MkPolicyRef "" 0) [] ExcessUnknown "no contract studied".

Definition IsKnown (p : Policy) : bool :=
  negb (PolicyRef_IsZero (Ref p)) && negb (Nat.eqb (length (Order p)) 0).

Definition StandardOrder : list Bucket := [
  Penalties; OverdueFees; UnpaidInterest; CurrentFees; AccruedInterest; OverduePrincipal;
  Principal ].

Record Split := MkSplit {
  Applied : gmap Bucket Amount;
  ExtraToAdvance : Amount;
  Pending : Amount;
  Unapplied : Amount;
  Confident : bool }.

(** The zero value of the struct. *)
Definition no_split : Split := MkSplit ∅ no_amount no_amount no_amount false.

(** The stable sequence a split is summed and rendered in. *)
Definition all_buckets : list Bucket := [
  Penalties; OverdueFees; CurrentFees; UnpaidInterest; AccruedInterest; OverduePrincipal;
  Principal; AdvanceCredit ].
Definition order (m : gmap Bucket Amount) : list Bucket :=
  filter (λ b, is_Some (m !! b)) all_buckets.

Definition SplitBuckets (s : Split) : list Bucket := order (Applied s).

(** [s.Applied[b]]: a missing key reads as the zero amount. *)
Definition applied_at (m : gmap Bucket Amount) (b : Bucket) : Amount := default no_amount (m !! b).

Definition Total (s : Split) (c : Currency) : res Amount :=
  sum ← sum_amounts (Zero c) (applied_at (Applied s) <$> order (Applied s));
  sum_amounts sum (filter (λ a, Money.IsZero a = false) [ExtraToAdvance s; Pending s; Unapplied s]).

(** A call that hands its results back together with an error. *)
Abbreviation call A := (result Empty_set (A * option gerror)).

(** [v, err := m; if err != nil { return on_err, err }]. *)
Definition try {A B} (m : res A) (on_err : B) (k : A → call B) : call B :=
  match m with
  | Ok a => k a
  | Err e => Ok (on_err, Some e)
  | Panic w => Panic w
  end.

(** The loop of [Apply] over the policy's order, on the running position,
    remaining money and applied amounts. *)
Fixpoint settle (ord : list Bucket) (pos : Buckets) (remaining : Amount)
    (applied : gmap Bucket Amount) : call (Buckets * Amount * gmap Bucket Amount) :=
  match ord with
  | [] => Ok ((pos, remaining, applied), None)
  | bucket :: rest =>
      if Sign remaining <=? 0 then Ok ((pos, remaining, applied), None)
      else
        let owed := Get pos bucket in
        if Sign owed <=? 0 then settle rest pos remaining applied
        else
          try (Min owed remaining) (pos, remaining, applied) (λ take,
          try (Sub owed take) (pos, remaining, applied) (λ left,
          let pos := With pos bucket left in
          try (Sub remaining take) (pos, remaining, applied) (λ remaining,
          settle rest pos remaining (<[bucket := take]> applied))))
  end.

Definition with_credit (pos : Buckets) (c : Amount) : Buckets := With pos AdvanceCredit c.

(** What happens to money left once everything in the order is settled. *)
Definition surplus (pos : Buckets) (remaining : Amount) (rule : ExcessRule) (s : Split) :
    call (Buckets * Split) :=
  let '(MkSplit applied _ pending unapplied confident) := s in
  match rule with
  | ExcessReducePrincipal | ExcessHoldAsAdvance =>
      let s := MkSplit applied remaining pending unapplied confident in
      try (Add (pAdvanceCredit pos) remaining) (pos, s) (λ credit,
      Ok ((with_credit pos credit, s), None))
  | ExcessRequiresBankRequest =>
      Ok ((pos, MkSplit applied (ExtraToAdvance s) remaining unapplied false), None)
  | ExcessUnknown =>
      Ok ((pos, MkSplit applied (ExtraToAdvance s) pending remaining false), None)
  end.

Definition Apply (pos : Buckets) (payment : Amount) (p : Policy) : call (Buckets * Split) :=
  let c := Buckets_Currency pos in
  if negb (String.eqb (Code (cur payment)) (Code c))
  then Ok ((pos, no_split), Some (Errorf "payment is %s, loan is %s"))
  else if Sign payment <=? 0
  then Ok ((pos, no_split), Some (Errorf "payment must be positive, got %s"))
  else
    let zero := Zero c in
    if negb (IsKnown p)
    then Ok ((pos, MkSplit ∅ zero zero payment (IsKnown p)), Some (Sentinel ErrUnknownPolicy))
    else
      '((pos, remaining, applied), err) ← settle (Order p) pos payment ∅;
      let s := MkSplit applied zero zero zero (IsKnown p) in
      match err with
      | Some e => Ok ((pos, s), Some e)
      | None =>
          if Sign remaining <=? 0 then Ok ((pos, s), None)
          else surplus pos remaining (Excess p) s
      end.

(** * Facts *)

Section Facts.
Implicit Types (pos : Buckets) (rem : Amount) (applied : gmap Bucket Amount).

(** What one bucket, and all buckets together, received so far. *)
Definition taken applied (k : Bucket) : Z := minor (applied_at applied k).
Definition total_taken applied : Z := foldr (λ k t, taken applied k + t) 0 all_buckets.

Lemma taken_insert applied k a k' :
  taken (<[k := a]> applied) k' = if decide (k' = k) then minor a else taken applied k'.
Proof.
  unfold taken, applied_at. destruct (decide (k' = k)) as [->|].
  - by rewrite lookup_insert_eq.
  - by rewrite lookup_insert_ne.
Qed.

Lemma total_taken_insert applied k a :
  applied !! k = None → total_taken (<[k := a]> applied) = total_taken applied + minor a.
Proof.
  intros Hk. assert (taken applied k = 0) as H0 by (unfold taken, applied_at; by rewrite Hk).
  unfold total_taken, all_buckets. cbn [foldr]. rewrite !taken_insert.
  destruct k; repeat case_decide; try done; rewrite H0; lia.
Qed.

Lemma total_taken_empty : total_taken ∅ = 0.
Proof. reflexivity. Qed.

(** Amounts of one position: same currency, representable, not negative. *)
Definition in_position pos (a : Amount) : Prop :=
  0 ≤ minor a ≤ MaxInt64 ∧ Code (cur a) = Code (Buckets_Currency pos).

Lemma in_position_wf pos a : in_position pos a → wf_amount a.
Proof. intros [? _]. unfold_i64. lia. Qed.

Lemma With_wf pos k v :
  wf_position pos → in_position pos v →
  wf_position (With pos k v) ∧ Code (Buckets_Currency (With pos k v)) = Code (Buckets_Currency pos).
Proof.
  intros Hpos [Hv Hc].
  assert (Code (Buckets_Currency (With pos k v)) = Code (Buckets_Currency pos)) as E.
  { change (Buckets_Currency (With pos k v)) with (cur (Get (With pos k v) Principal)).
    rewrite Get_With. destruct (decide (Principal = k)); [done|]. done. }
  split; [|done]. intros k'. rewrite E, Get_With. destruct (decide (k' = k)); [done|apply Hpos].
Qed.

Lemma Sign_le_0 a : (Sign a <=? 0) = (minor a <=? 0).
Proof. unfold Sign. repeat case_match; lia. Qed.

(** One step of the loop: with something owed and something left, the smaller
    of the two moves. *)
Definition move pos rem k : Amount := if minor (Get pos k) <=? minor rem then Get pos k else rem.

Lemma settle_step k rest pos rem applied :
  wf_position pos → in_position pos rem →
  settle (k :: rest) pos rem applied =
  if minor rem <=? 0 then Ok ((pos, rem, applied), None)
  else if minor (Get pos k) <=? 0 then settle rest pos rem applied
  else settle rest
    (With pos k (MkAmount (minor (Get pos k) - minor (move pos rem k)) (cur (Get pos k))))
    (MkAmount (minor rem - minor (move pos rem k)) (cur rem))
    (<[k := move pos rem k]> applied).
Proof.
  intros Hpos Hrem. destruct (Hpos k) as [Hk Hck]. destruct Hrem as [Hr Hcr].
  cbn [settle]. rewrite !Sign_le_0.
  destruct (Z.leb_spec (minor rem) 0); [done|].
  destruct (Z.leb_spec (minor (Get pos k)) 0); [done|].
  assert (Min (Get pos k) rem = Ok (move pos rem k)) as -> by (apply Min_Ok; split; [congruence|done]).
  assert (in_position pos (move pos rem k) ∧ minor (move pos rem k) ≤ minor (Get pos k) ∧
    minor (move pos rem k) ≤ minor rem) as ([Hm Hcm] & ? & ?).
  { unfold move, in_position. destruct (Z.leb_spec (minor (Get pos k)) (minor rem)); split_and!; lia || done. }
  cbn [try].
  assert (Sub (Get pos k) (move pos rem k) =
    Ok (MkAmount (minor (Get pos k) - minor (move pos rem k)) (cur (Get pos k)))) as ->.
  { apply Sub_Ok_iff; unfold_i64; [lia|lia|]. split_and!; [congruence|done|lia|lia]. }
  cbn [try].
  assert (Sub rem (move pos rem k) =
    Ok (MkAmount (minor rem - minor (move pos rem k)) (cur rem))) as ->.
  { apply Sub_Ok_iff; unfold_i64; [lia|lia|]. split_and!; [congruence|done|lia|lia]. }
  done.
Qed.

Lemma move_bounds pos rem k :
  wf_position pos → in_position pos rem → 0 < minor rem → 0 < minor (Get pos k) →
  in_position pos (move pos rem k) ∧ 0 < minor (move pos rem k) ∧
  minor (move pos rem k) = Z.min (minor (Get pos k)) (minor rem).
Proof.
  intros Hpos [Hr Hcr] ? ?. destruct (Hpos k) as [Hk Hck]. unfold move, in_position.
  destruct (Z.leb_spec (minor (Get pos k)) (minor rem)); split_and!; lia || done.
Qed.

(** Buckets already paid from this payment are settled, or the money is out. *)
Definition accounted pos rem applied : Prop :=
  ∀ k a, applied !! k = Some a → in_position pos a ∧ (minor (Get pos k) = 0 ∨ minor rem = 0).

(** The books of one stretch of the loop: money moves from [rem] to buckets,
    each bucket falls by exactly what it received. *)
Record settled pos rem applied pos' rem' applied' : Prop := {
  settled_wf : wf_position pos';
  settled_code : Code (Buckets_Currency pos') = Code (Buckets_Currency pos);
  settled_rem : in_position pos rem' ∧ minor rem' ≤ minor rem;
  settled_get k : minor (Get pos' k) + taken applied' k = minor (Get pos k) + taken applied k;
  settled_taken k : taken applied k ≤ taken applied' k;
  settled_total : minor rem' + total_taken applied' = minor rem + total_taken applied;
  settled_accounted : accounted pos' rem' applied' }.

Lemma settled_refl pos rem applied :
  wf_position pos → in_position pos rem → accounted pos rem applied →
  settled pos rem applied pos rem applied.
Proof. intros. split; try done; lia. Qed.

Lemma settled_trans p r a p' r' a' p'' r'' a'' :
  settled p r a p' r' a' → settled p' r' a' p'' r'' a'' → settled p r a p'' r'' a''.
Proof.
  intros [? C1 [R1 ?] G1 T1 S1 A1] [? C2 [R2 ?] G2 T2 S2 A2]. split; try done; try lia.
  - congruence.
  - unfold in_position in *. rewrite C1 in R2. split; [done|lia].
  - intros k. specialize (G1 k). specialize (G2 k). lia.
  - intros k. specialize (T1 k). specialize (T2 k). lia.
Qed.

Lemma settled_move pos rem applied k :
  wf_position pos → in_position pos rem → accounted pos rem applied →
  0 < minor rem → 0 < minor (Get pos k) →
  settled pos rem applied
    (With pos k (MkAmount (minor (Get pos k) - minor (move pos rem k)) (cur (Get pos k))))
    (MkAmount (minor rem - minor (move pos rem k)) (cur rem))
    (<[k := move pos rem k]> applied).
Proof.
  intros Hpos Hrem Hacc Hr Hk.
  destruct (move_bounds pos rem k Hpos Hrem Hr Hk) as (Hin & Hm & Hmin).
  destruct (Hpos k) as [Hkr Hkc]. destruct Hrem as [Hrr Hrc].
  set (p' := With _ _ _).
  destruct (With_wf pos k (MkAmount (minor (Get pos k) - minor (move pos rem k)) (cur (Get pos k))) Hpos)
    as [Hwf Hcode]; [split; simpl; [lia|done]|]. fold p' in Hwf, Hcode.
  assert (applied !! k = None) as Hfresh.
  { destruct (applied !! k) as [a|] eqn:E; [|done]. destruct (Hacc k a E) as [_ ?]. lia. }
  assert (∀ j, minor (Get p' j) = if decide (j = k) then minor (Get pos k) - minor (move pos rem k)
    else minor (Get pos j)) as Hget.
  { intros j. unfold p'. rewrite Get_With. by destruct (decide (j = k)). }
  split; simpl.
  - done.
  - done.
  - unfold in_position. simpl. split; [split; [lia|done]|lia].
  - intros j. rewrite Hget, taken_insert.
    destruct (decide (j = k)) as [->|]; [|done]. unfold taken, applied_at. rewrite Hfresh. simpl. lia.
  - intros j. rewrite taken_insert.
    destruct (decide (j = k)) as [->|]; [|done]. unfold taken, applied_at. rewrite Hfresh. simpl. lia.
  - rewrite total_taken_insert by done. lia.
  - intros j a Ha. rewrite Hget. unfold in_position. rewrite Hcode.
    rewrite lookup_insert in Ha. destruct (decide (k = j)) as [->|].
    + injection Ha as <-. rewrite decide_True by done. split; [done|]. simpl. lia.
    + rewrite decide_False by done. destruct (Hacc j a Ha) as [Hp Hz]. split; [done|]. simpl. lia.
Qed.

Lemma settle_spec ord : ∀ pos rem applied,
  wf_position pos → in_position pos rem → accounted pos rem applied →
  ∃ pos' rem' applied',
    settle ord pos rem applied = Ok ((pos', rem', applied'), None) ∧
    settled pos rem applied pos' rem' applied' ∧
    (0 < minor rem' → ∀ k, k ∈ ord → minor (Get pos' k) = 0).
Proof.
  induction ord as [|k ord IH]; intros pos rem applied Hpos Hrem Hacc.
  { exists pos, rem, applied. split; [done|]. split; [by apply settled_refl|]. intros _ k Hk.
    by apply not_elem_of_nil in Hk. }
  rewrite settle_step by done.
  destruct (Z.leb_spec (minor rem) 0).
  { exists pos, rem, applied. split; [done|]. split; [by apply settled_refl|]. lia. }
  destruct (Z.leb_spec (minor (Get pos k)) 0).
  - destruct (IH pos rem applied Hpos Hrem Hacc) as (p' & r' & a' & Hs & Hb & Hz).
    exists p', r', a'. split; [done|]. split; [done|]. intros Hr j [->|Hj]%elem_of_cons; [|by apply Hz].
    destruct (settled_wf _ _ _ _ _ _ Hb k) as [? _].
    pose proof (settled_get _ _ _ _ _ _ Hb k). pose proof (settled_taken _ _ _ _ _ _ Hb k). lia.
  - pose proof (settled_move pos rem applied k Hpos Hrem Hacc ltac:(lia) ltac:(lia)) as Hb1.
    destruct (move_bounds pos rem k Hpos Hrem ltac:(lia) ltac:(lia)) as (_ & _ & Hmin).
    destruct (IH _ _ _ (settled_wf _ _ _ _ _ _ Hb1)
      ltac:(destruct Hb1 as [_ C [R _] _ _ _ _]; unfold in_position in *; by rewrite C)
      (settled_accounted _ _ _ _ _ _ Hb1)) as (p' & r' & a' & Hs & Hb & Hz).
    exists p', r', a'. split; [done|]. split; [by eapply settled_trans|].
    intros Hr j [->|Hj]%elem_of_cons; [|by apply Hz].
    destruct (settled_wf _ _ _ _ _ _ Hb k) as [? _].
    pose proof (settled_get _ _ _ _ _ _ Hb k) as G. pose proof (settled_taken _ _ _ _ _ _ Hb k).
    destruct (settled_rem _ _ _ _ _ _ Hb) as [_ Hle]. simpl in Hle.
    rewrite Get_With, decide_True in G by done. simpl in G. lia.
Qed.

Lemma settle_app l1 l2 pos rem applied :
  settle (l1 ++ l2) pos rem applied =
  '((p, r, a), err) ← settle l1 pos rem applied;
  match err with Some e => Ok ((p, r, a), Some e) | None => settle l2 p r a end.
Proof.
  revert pos rem applied. induction l1 as [|k l1 IH]; intros pos rem applied; [done|].
  cbn [settle app]. destruct (Sign rem <=? 0) eqn:E.
  - simpl. destruct l2 as [|k2 l2]; simpl; [done|]. by rewrite E.
  - destruct (Sign (Get pos k) <=? 0); [apply IH|].
    destruct (Min _ _); [|done|done]. cbn [try].
    destruct (Sub (Get pos k) a); [|done|done]. cbn [try].
    destruct (Sub rem a); [|done|done]. cbn [try]. apply IH.
Qed.

(** Only buckets of the order are touched. *)
Lemma settle_outside ord k : ∀ pos rem applied p r a,
  wf_position pos → in_position pos rem → accounted pos rem applied →
  settle ord pos rem applied = Ok ((p, r, a), None) → k ∉ ord →
  a !! k = applied !! k.
Proof.
  induction ord as [|j ord IH]; intros pos rem applied p r a Hpos Hrem Hacc Hs Hk.
  { simpl in Hs. by injection Hs as <- <- <-. }
  rewrite not_elem_of_cons in Hk. destruct Hk as [Hne Hk].
  rewrite settle_step in Hs by done.
  destruct (Z.leb_spec (minor rem) 0); [by injection Hs as <- <- <-|].
  destruct (Z.leb_spec (minor (Get pos j)) 0); [by eapply IH|].
  pose proof (settled_move pos rem applied j Hpos Hrem Hacc ltac:(lia) ltac:(lia)) as Hb.
  apply IH in Hs; [|apply Hb| |apply Hb|done].
  - by rewrite Hs, lookup_insert_ne.
  - destruct Hb as [_ C [R _] _ _ _ _]. unfold in_position in *. by rewrite C.
Qed.

(** A bucket once settled stays settled. *)
Lemma settled_zero p r a p' r' a' k :
  settled p r a p' r' a' → minor (Get p k) = 0 → minor (Get p' k) = 0.
Proof.
  intros [Hwf _ _ G T _ _] Hk. destruct (Hwf k) as [? _]. specialize (G k). specialize (T k). lia.
Qed.

Lemma accounted_empty pos rem : accounted pos rem ∅.
Proof. intros k a. by rewrite lookup_empty. Qed.

(** [Apply] on a valid request is the loop, then the surplus rule. *)
Lemma Apply_known pos payment p :
  wf_position pos → in_position pos payment → 0 < minor payment → IsKnown p = true →
  ∃ pos' rem applied,
    settle (Order p) pos payment ∅ = Ok ((pos', rem, applied), None) ∧
    settled pos payment ∅ pos' rem applied ∧
    (0 < minor rem → ∀ k, k ∈ Order p → minor (Get pos' k) = 0) ∧
    Apply pos payment p =
      let zero := Zero (Buckets_Currency pos) in
      let s := MkSplit applied zero zero zero true in
      if minor rem <=? 0 then Ok ((pos', s), None) else surplus pos' rem (Excess p) s.
Proof.
  intros Hpos Hin Hp Hk. destruct Hin as [Hr Hc].
  destruct (settle_spec (Order p) pos payment ∅ Hpos ltac:(done) (accounted_empty _ _))
    as (pos' & rem & applied & Hs & Hb & Hz).
  exists pos', rem, applied. split; [done|]. split; [done|]. split; [done|].
  unfold Apply. rewrite Hc, String.eqb_refl, Sign_le_0. simpl.
  destruct (Z.leb_spec (minor payment) 0); [lia|]. rewrite Hk, Hs. simpl.
  by rewrite Sign_le_0.
Qed.

(** The three results the surplus rule can end in. *)
Lemma surplus_cases pos rem rule s pos' s' :
  wf_position pos → in_position pos rem →
  surplus pos rem rule s = Ok ((pos', s'), None) →
  Applied s' = Applied s ∧
  (rule = ExcessReducePrincipal ∨ rule = ExcessHoldAsAdvance →
    minor (pAdvanceCredit pos) + minor rem ≤ MaxInt64 ∧
    pos' = With pos AdvanceCredit
      (MkAmount (minor (pAdvanceCredit pos) + minor rem) (cur (pAdvanceCredit pos))) ∧
    s' = MkSplit (Applied s) rem (Pending s) (Unapplied s) (Confident s)) ∧
  (rule = ExcessRequiresBankRequest →
    pos' = pos ∧ s' = MkSplit (Applied s) (ExtraToAdvance s) rem (Unapplied s) false) ∧
  (rule = ExcessUnknown →
    pos' = pos ∧ s' = MkSplit (Applied s) (ExtraToAdvance s) (Pending s) rem false).
Proof.
  intros Hpos Hin H. destruct s as [ap ex pe un co]. unfold surplus in H.
  destruct rule; simpl in *.
  - injection H as <- <-. split_and!; try done; intros [?|?]; done.
  - destruct (Add (pAdvanceCredit pos) rem) as [c| |] eqn:E; simpl in H; try done.
    apply Add_Ok_iff in E as (_ & -> & Hfit);
      [|eapply in_position_wf, (Hpos AdvanceCredit)|by eapply in_position_wf].
    injection H as <- <-. split_and!; try done. unfold_i64. intros _. split_and!; lia || done.
  - destruct (Add (pAdvanceCredit pos) rem) as [c| |] eqn:E; simpl in H; try done.
    apply Add_Ok_iff in E as (_ & -> & Hfit);
      [|eapply in_position_wf, (Hpos AdvanceCredit)|by eapply in_position_wf].
    injection H as <- <-. split_and!; try done. unfold_i64. intros _. split_and!; lia || done.
  - injection H as <- <-. split_and!; try done; intros [?|?]; done.
Qed.

(** Everything a bucket received is summed by [Total]: the sequence it walks
    is the key set of the map. *)
Lemma elem_of_order m k : k ∈ order m ↔ is_Some (m !! k).
Proof.
  unfold order. rewrite list_elem_of_filter. split; [by intros []|]. intros. split; [done|].
  unfold all_buckets. destruct k; set_solver.
Qed.

Lemma foldr_order (m : gmap Bucket Amount) :
  foldr (λ b t, minor b + t) 0 (applied_at m <$> order m) = total_taken m.
Proof.
  unfold order, total_taken. induction all_buckets as [|k l IH]; [done|].
  rewrite filter_cons. simpl. rewrite <- IH. unfold taken.
  case_decide as H; [done|]. simpl.
  destruct (m !! k) as [a|] eqn:E; [by destruct H|]. unfold applied_at. by rewrite E.
Qed.

(** The total of a split whose applied amounts are accounted for. *)
Lemma Total_Ok s c :
  (∀ k a, Applied s !! k = Some a → 0 ≤ minor a ∧ Code (cur a) = Code c) →
  (∀ a, a ∈ [ExtraToAdvance s; Pending s; Unapplied s] → 0 ≤ minor a ∧ Code (cur a) = Code c) →
  let t := total_taken (Applied s) + minor (ExtraToAdvance s) + minor (Pending s) + minor (Unapplied s) in
  t ≤ MaxInt64 → Total s c = Ok (MkAmount t c).
Proof.
  intros Hap Hrest t Ht.
  pose proof (Hrest (ExtraToAdvance s) ltac:(set_solver)) as [He _].
  pose proof (Hrest (Pending s) ltac:(set_solver)) as [Hp _].
  pose proof (Hrest (Unapplied s) ltac:(set_solver)) as [Hu _].
  assert (foldr (λ b t, minor b + t) 0 (filter (λ a, Money.IsZero a = false)
    [ExtraToAdvance s; Pending s; Unapplied s]) =
    minor (ExtraToAdvance s) + minor (Pending s) + minor (Unapplied s)) as Htail.
  { generalize (ExtraToAdvance s) (Pending s) (Unapplied s). intros x y z.
    rewrite !filter_cons, filter_nil. unfold Money.IsZero.
    destruct (Z.eqb_spec (minor x) 0), (Z.eqb_spec (minor y) 0), (Z.eqb_spec (minor z) 0);
      repeat case_decide; simpl; done || lia. }
  assert (0 ≤ total_taken (Applied s)) as Htt.
  { rewrite <- foldr_order. assert (Forall (λ b, 0 ≤ minor b) (applied_at (Applied s) <$> order (Applied s))) as HF.
    { apply Forall_fmap, Forall_forall. intros k [a Ha]%elem_of_order. simpl. unfold applied_at.
      rewrite Ha. by apply (Hap k). }
    induction HF; simpl; lia. }
  unfold Total. rewrite sum_amounts_Ok; [|intros b Hb|done|rewrite foldr_order; simpl; lia].
  2: { apply list_elem_of_fmap in Hb as (k & -> & [a Ha]%elem_of_order). unfold applied_at.
       rewrite Ha. by apply (Hap k). }
  rewrite foldr_order. simpl. rewrite sum_amounts_Ok; simpl.
  - f_equal. f_equal. rewrite Htail. unfold t. lia.
  - intros b [_ Hb]%list_elem_of_filter. by apply Hrest.
  - lia.
  - rewrite Htail. unfold t in Ht. lia.
Qed.

(** The applied amounts of a finished loop. *)
Lemma settled_applied pos payment pos' rem' applied' :
  settled pos payment ∅ pos' rem' applied' →
  (∀ k a, applied' !! k = Some a → 0 ≤ minor a ∧ Code (cur a) = Code (Buckets_Currency pos)) ∧
  minor rem' + total_taken applied' = minor payment ∧
  (∀ k, minor (Get pos' k) + taken applied' k = minor (Get pos k)).
Proof.
  intros [_ Hc _ Hg _ Ht Ha]. rewrite total_taken_empty in Ht. split_and!.
  - intros k a Hk. destruct (Ha k a Hk) as [[? Hc'] _]. split; [lia|congruence].
  - lia.
  - intros k. rewrite Hg. unfold taken, applied_at. rewrite lookup_empty. simpl. lia.
Qed.
(** The books of the surplus rule: it parks, holds back or leaves unexplained
    exactly the money the loop did not place. *)
Record booked pos rem applied pos' s : Prop := {
  booked_wf : wf_position pos';
  booked_code : Code (Buckets_Currency pos') = Code (Buckets_Currency pos);
  booked_applied : Applied s = applied;
  booked_sum : minor (ExtraToAdvance s) + minor (Pending s) + minor (Unapplied s) = minor rem;
  booked_get k : minor (Get pos' k) = minor (Get pos k) +
    (if decide (k = AdvanceCredit) then minor (ExtraToAdvance s) else 0);
  booked_rest a : a ∈ [ExtraToAdvance s; Pending s; Unapplied s] →
    0 ≤ minor a ∧ Code (cur a) = Code (Buckets_Currency pos) }.

Ltac each_amount :=
  let Ha := fresh in
  intros ? Ha; rewrite !elem_of_cons in Ha;
  destruct Ha as [-> | [-> | [-> | Ha]]]; [..|by apply not_elem_of_nil in Ha];
  simpl; split; (lia || done).

Lemma booked_same pos rem applied s :
  wf_position pos → Applied s = applied → minor (ExtraToAdvance s) = 0 →
  minor (Pending s) + minor (Unapplied s) = minor rem →
  (∀ a, a ∈ [ExtraToAdvance s; Pending s; Unapplied s] →
    0 ≤ minor a ∧ Code (cur a) = Code (Buckets_Currency pos)) →
  booked pos rem applied pos s.
Proof. intros. split; try done; [lia|]. intros k. case_decide; lia. Qed.

Lemma booked_credit pos rem applied z c' :
  wf_position pos → in_position pos rem → minor z = 0 → Code (cur z) = Code (Buckets_Currency pos) →
  minor (pAdvanceCredit pos) + minor rem ≤ MaxInt64 →
  booked pos rem applied
    (With pos AdvanceCredit
      (MkAmount (minor (pAdvanceCredit pos) + minor rem) (cur (pAdvanceCredit pos))))
    (MkSplit applied rem z z c').
Proof.
  intros Hwf [? ?] Hz Hzc Hfit.
  destruct (With_wf pos AdvanceCredit (MkAmount (minor (pAdvanceCredit pos) + minor rem)
    (cur (pAdvanceCredit pos))) Hwf) as [Hw Hcc].
  { destruct (Hwf AdvanceCredit). split; simpl in *; [lia|done]. }
  split; simpl; try done; [lia| |].
  - intros k. rewrite Get_With. case_decide; subst; simpl; lia.
  - each_amount.
Qed.

Lemma surplus_books pos rem applied rule pos' s c' z :
  wf_position pos → in_position pos rem → minor z = 0 → Code (cur z) = Code (Buckets_Currency pos) →
  surplus pos rem rule (MkSplit applied z z z c') = Ok ((pos', s), None) →
  booked pos rem applied pos' s.
Proof.
  intros Hwf Hin Hz Hzc H. pose proof Hin as [? ?].
  destruct (surplus_cases pos rem _ _ _ _ Hwf Hin H) as (_ & Hadd & Hreq & Hunk). simpl in *.
  destruct rule.
  - destruct (Hunk eq_refl) as [-> ->]. apply booked_same; simpl; try done; [lia|].
    each_amount.
  - destruct (Hadd (or_introl eq_refl)) as (? & -> & ->). by apply booked_credit.
  - destruct (Hadd (or_intror eq_refl)) as (? & -> & ->). by apply booked_credit.
  - destruct (Hreq eq_refl) as [-> ->]. apply booked_same; simpl; try done; [lia|].
    each_amount.
Qed.

Lemma Apply_valid pos payment p pos' s :
  Apply pos payment p = Ok ((pos', s), None) →
  Code (cur payment) = Code (Buckets_Currency pos) ∧ 0 < minor payment ∧ IsKnown p = true.
Proof.
  unfold Apply. intros H.
  destruct (String.eqb_spec (Code (cur payment)) (Code (Buckets_Currency pos))); [|done].
  rewrite Sign_le_0 in H. destruct (Z.leb_spec (minor payment) 0); [done|].
  simpl in H. destruct (IsKnown p); [done|discriminate H].
Qed.

(** The unknown-policy answer leaves the position alone. *)
Lemma Apply_err_same pos payment p pos' s :
  wf_position pos → minor payment ≤ MaxInt64 →
  Apply pos payment p = Ok ((pos', s), Some (Sentinel ErrUnknownPolicy)) → pos' = pos.
Proof.
  intros Hpos Hm H. unfold Apply in H.
  destruct (String.eqb_spec (Code (cur payment)) (Code (Buckets_Currency pos))) as [Hc|]; [|done].
  cbn [negb] in H. rewrite Sign_le_0 in H. destruct (Z.leb_spec (minor payment) 0); [done|].
  destruct (IsKnown p); cbn [negb] in H; [|by injection H as <- _].
  destruct (settle_spec (Order p) pos payment ∅ Hpos ltac:(split; [lia|done]) (accounted_empty _ _))
    as (p1 & r1 & a1 & Hs & _ & _). rewrite Hs in H. simpl in H. rewrite Sign_le_0 in H.
  destruct (minor r1 <=? 0); [done|]. unfold surplus, try in H.
  destruct (Excess p); try done; destruct (Add (pAdvanceCredit p1) r1) as [|e|] eqn:Ea; try done;
    injection H as _ _ ->; unfold Add, mustMatch in Ea; destruct (String.eqb _ _); simpl in Ea; try done;
    destruct (_ || _)%bool; done.
Qed.

(** A successful [Apply] is the loop followed by the books of the surplus. *)
Lemma Apply_books pos payment p pos' s :
  wf_position pos → minor payment ≤ MaxInt64 →
  Apply pos payment p = Ok ((pos', s), None) →
  ∃ pos1 rem applied,
    settle (Order p) pos payment ∅ = Ok ((pos1, rem, applied), None) ∧
    settled pos payment ∅ pos1 rem applied ∧
    (0 < minor rem → ∀ k, k ∈ Order p → minor (Get pos1 k) = 0) ∧
    booked pos1 rem applied pos' s.
Proof.
  intros Hpos Hpay H. destruct (Apply_valid _ _ _ _ _ H) as (Hc & Hp & Hk).
  destruct (Apply_known pos payment p Hpos ltac:(split; [lia|done]) Hp Hk)
    as (pos1 & rem & applied & Hs & Hb & Hz & E).
  exists pos1, rem, applied. split_and!; try done. rewrite E in H. clear E. cbv zeta in H.
  destruct (settled_rem _ _ _ _ _ _ Hb) as [[Hr1 Hr2] _].
  pose proof (settled_wf _ _ _ _ _ _ Hb). pose proof (settled_code _ _ _ _ _ _ Hb) as Hc1.
  destruct (Z.leb_spec (minor rem) 0).
  - injection H as <- <-. apply booked_same; simpl; try done; [lia|].
    each_amount.
  - eapply (surplus_books _ _ _ _ _ _ _ (Zero (Buckets_Currency pos)));
      [done|unfold in_position; by rewrite Hc1|done|done|exact H].
Qed.
End Facts.

(** * Properties *)

(** C32. Money is conserved. Whenever [Apply] returns no error on a valid
    position, the result is a valid position of the same currency, every
    bucket but the advance falls by exactly what the split records for it,
    advance credit grows by exactly the surplus parked there, and the split
    totals the payment: [Total] itself computes that sum and cannot fail. *)
Theorem Apply_conserves pos payment p pos' s :
  wf_position pos → minor payment ≤ MaxInt64 →
  Apply pos payment p = Ok ((pos', s), None) →
  wf_position pos' ∧
  Code (Buckets_Currency pos') = Code (Buckets_Currency pos) ∧
  (∀ k, minor (Get pos' k) =
    minor (Get pos k) - taken (Applied s) k +
    (if decide (k = AdvanceCredit) then minor (ExtraToAdvance s) else 0)) ∧
  total_taken (Applied s) + minor (ExtraToAdvance s) + minor (Pending s) + minor (Unapplied s)
    = minor payment ∧
  Total s (Buckets_Currency pos) = Ok (MkAmount (minor payment) (Buckets_Currency pos)).
Proof.
  intros Hpos Hpay H.
  destruct (Apply_books _ _ _ _ _ Hpos Hpay H) as (pos1 & rem & applied & _ & Hb & _ & [Hwf Hcur Ha Hsum Hadv Hrest]).
  destruct (settled_applied _ _ _ _ _ Hb) as (Hap & Htot & Hget).
  pose proof (settled_code _ _ _ _ _ _ Hb) as Hc1. rewrite Hc1 in *.
  split_and!; try done.
  - intros k. rewrite Hadv, Ha. specialize (Hget k). lia.
  - rewrite Ha. lia.
  - rewrite Total_Ok; [do 2 f_equal; rewrite Ha; lia|by rewrite Ha|done|rewrite Ha; lia].
Qed.

(** A loan with penalties, interest and principal, and a policy with a source. *)
Definition sample_position : Buckets :=
  let a z := MkAmount z AMD in
  MkBuckets (a 100000) (a 2500) (a 0) (a 300) (a 0) (a 700) (a 0) (a 0).
Definition sample_policy (rule : ExcessRule) : Policy :=
  MkPolicy (MkPolicyRef "bank" 1) StandardOrder rule "clause 7".

Lemma sample_wf : wf_position sample_position.
Proof. intros []; vm_compute; split; done. Qed.

Lemma Apply_conserves_witness :
  let payment := MkAmount 110000 AMD in
  ∃ pos' s, Apply sample_position payment (sample_policy ExcessHoldAsAdvance) = Ok ((pos', s), None) ∧
  minor (ExtraToAdvance s) = 6500 ∧
  Total s (Buckets_Currency sample_position) = Ok (MkAmount 110000 (Buckets_Currency sample_position)).
Proof.
  eexists _, _. split; [vm_compute; reflexivity|]. split; [vm_compute; reflexivity|].
  eapply (Apply_conserves sample_position (MkAmount 110000 AMD) (sample_policy ExcessHoldAsAdvance)).
  - apply sample_wf.
  - vm_compute. discriminate.
  - vm_compute. reflexivity.
Defined.

(** The policy's order is obeyed. If a bucket of the order received money,
    every bucket listed before it was left with nothing owed; and surplus
    appears only once every bucket of the order is at zero. *)
Theorem Apply_priority pos payment p pos' s l1 k l2 :
  wf_position pos → minor payment ≤ MaxInt64 →
  Apply pos payment p = Ok ((pos', s), None) →
  Order p = l1 ++ k :: l2 → k ∉ l1 → AdvanceCredit ∉ Order p →
  (is_Some (Applied s !! k) → ∀ j, j ∈ l1 → minor (Get pos' j) = 0) ∧
  (0 < minor (ExtraToAdvance s) + minor (Pending s) + minor (Unapplied s) →
    ∀ j, j ∈ Order p → minor (Get pos' j) = 0).
Proof.
  intros Hpos Hpay H Hord Hk Hadv. pose proof (Apply_valid _ _ _ _ _ H) as (Hc & Hp & _).
  destruct (Apply_books _ _ _ _ _ Hpos Hpay H) as (p2 & r2 & a2 & Hs & Hb & Hz & [_ _ Ha Hsum Hg _]).
  assert (∀ j, j ∈ Order p → minor (Get p2 j) = 0 → minor (Get pos' j) = 0) as Hlift.
  { intros j Hj E. rewrite Hg. case_decide; [by subst|lia]. }
  split; [|intros Hlt j Hj; apply Hlift; [done|apply Hz; [lia|done]]].
  intros Hin j Hj. apply Hlift; [rewrite Hord; set_solver|].
  rewrite Hord, settle_app in Hs.
  assert (in_position pos payment) as Hinp by (split; [lia|done]).
  destruct (settle_spec l1 pos payment ∅ Hpos Hinp (accounted_empty _ _))
    as (p1 & r1 & a1 & Hs1 & Hb1 & Hz1).
  rewrite Hs1 in Hs. simpl in Hs. change (settle (k :: l2) p1 r1 a1 = Ok ((p2, r2, a2), None)) in Hs.
  pose proof (settled_wf _ _ _ _ _ _ Hb1) as Hwf1.
  assert (in_position p1 r1) as Hin1.
  { destruct Hb1 as [_ C [R _] _ _ _ _]. unfold in_position in *. by rewrite C. }
  assert (0 < minor r1) as Hr1.
  { apply Z.nle_gt. intros Hle. rewrite settle_step in Hs by done.
    rewrite (proj2 (Z.leb_le _ _)) in Hs by done. injection Hs as <- <- <-.
    rewrite Ha in Hin.
    rewrite (settle_outside l1 k _ _ _ _ _ _ Hpos Hinp (accounted_empty _ _) Hs1 Hk) in Hin.
    rewrite lookup_empty in Hin. by destruct Hin. }
  destruct (settle_spec (k :: l2) p1 r1 a1 Hwf1 Hin1 (settled_accounted _ _ _ _ _ _ Hb1))
    as (? & ? & ? & E & Hb2 & _).
  rewrite E in Hs. injection Hs as -> -> ->. by eapply settled_zero, Hz1.
Qed.

Lemma Apply_priority_witness :
  let payment := MkAmount 1200 AMD in
  ∃ pos' s, Apply sample_position payment (sample_policy ExcessHoldAsAdvance) = Ok ((pos', s), None) ∧
  Applied s !! AccruedInterest = Some (MkAmount 200 AMD) ∧
  minor (Get pos' CurrentFees) = 0 ∧ minor (Get pos' Penalties) = 0.
Proof.
  eexists _, _. split; [vm_compute; reflexivity|]. split; [vm_compute; reflexivity|].
  assert (∀ j, j ∈ [Penalties; OverdueFees; UnpaidInterest; CurrentFees] →
    minor (Get (MkBuckets (MkAmount 100000 AMD) (MkAmount 2300 AMD) (MkAmount 0 AMD) (MkAmount 0 AMD)
      (MkAmount 0 AMD) (MkAmount 0 AMD) (MkAmount 0 AMD) (MkAmount 0 AMD)) j) = 0) as H.
  { eapply (Apply_priority sample_position (MkAmount 1200 AMD) (sample_policy ExcessHoldAsAdvance) _ _
      [Penalties; OverdueFees; UnpaidInterest; CurrentFees] AccruedInterest [OverduePrincipal; Principal]).
    - apply sample_wf.
    - vm_compute. discriminate.
    - vm_compute. reflexivity.
    - reflexivity.
    - set_solver.
    - set_solver.
    - eexists. vm_compute. reflexivity. }
  split; apply H; set_solver.
Defined.

(** C38. An unestablished policy settles nothing: the position comes back
    untouched, the whole payment is recorded as unapplied, and the caller is
    told by [ErrUnknownPolicy]. *)
Theorem Apply_unknown pos payment p :
  Code (cur payment) = Code (Buckets_Currency pos) → 0 < minor payment → IsKnown p = false →
  ∃ s, Apply pos payment p = Ok ((pos, s), Some (Sentinel ErrUnknownPolicy)) ∧
  Applied s = ∅ ∧ Unapplied s = payment ∧ minor (ExtraToAdvance s) = 0 ∧ minor (Pending s) = 0 ∧
  Confident s = false.
Proof.
  intros Hc Hp Hk. unfold Apply. rewrite Hc, String.eqb_refl, Sign_le_0, Hk. simpl.
  rewrite (proj2 (Z.leb_gt _ _)) by done. by eexists.
Qed.

Lemma Apply_unknown_witness :
  ∃ s, Apply sample_position (MkAmount 5000 AMD) Unknown =
    Ok ((sample_position, s), Some (Sentinel ErrUnknownPolicy)) ∧ Unapplied s = MkAmount 5000 AMD.
Proof.
  destruct (Apply_unknown sample_position (MkAmount 5000 AMD) Unknown) as (s & H & _ & Hu & _);
    [reflexivity|reflexivity|reflexivity|]. by exists s.
Defined.

(** [ExcessReducePrincipal] says the surplus reduces principal at once, and the
    comment at the case that principal is zero by then. Neither holds when the
    order does not list [Principal]: the money is parked and the principal
    stands. *)
Example Apply_reduce_principal_parks :
  let p := MkPolicy (MkPolicyRef "bank" 1) [AccruedInterest] ExcessReducePrincipal "clause 7" in
  ∃ pos' s, Apply sample_position (MkAmount 10000 AMD) p = Ok ((pos', s), None) ∧
  minor (pPrincipal pos') = 100000 ∧ minor (pAdvanceCredit pos') = 7500.
Proof. eexists _, _. split; [vm_compute; reflexivity|]. vm_compute. done. Qed.
