(* ===== verification/Schedule.v ===== *)
(** Repayment schedules: [pkg/core/amortisation/schedule.go], with the
    [Calendar] of [calendar.go] the methods hang on.

    [project] is the one walk over the instalment dates. Its [rows] argument is
    the Go pointer: [None] for a caller that wants the outcome alone. *)
From S2P Require Import Prelude Money Dates Model.

Definition maxPeriods : nat := 600.

Record Row := MkRow {
  N : Z;
  Due : Date;
  Days : Z;
  Opening : Amount;
  Interest : Amount;
  RowPrincipal : Amount;
  Payment : Amount;
  Closing : Amount }.

Record Schedule := MkSchedule {
  Rows : list Row;
  Instalment : Amount;
  FinalPayment : Amount;
  TotalPaid : Amount;
  TotalInterest : Amount }.

Definition unsolvable {A} (format : string) : res A := errorf_w format ErrUnsolvable.

(** The loop of [PaymentDates]: occurrences [n], [n+1], ... while they do not
    pass maturity, at most [fuel] of them. *)
Fixpoint occurrences (fuel : nat) (start maturity : Date) (day n : Z) : list Date :=
  match fuel with
  | O => []
  | S fuel =>
      let d := Occurrence start day n in
      if After d maturity then [] else d :: occurrences fuel start maturity day (n + 1)
  end.

Definition PaymentDates (c : Contract) : res (list Date) :=
  if Dates.IsZero (StartDate c) || Dates.IsZero (MaturityDate c)
  then unsolvable "%w: contract has no start or maturity date"
  else if negb (After (MaturityDate c) (StartDate c))
  then unsolvable "%w: maturity %s is not after start %s"
  else
    let day := if PaymentDay c =? 0 then Day (StartDate c) else PaymentDay c in
    let out := occurrences maxPeriods (StartDate c) (MaturityDate c) day 1 in
    if Nat.eqb (length out) 0 then unsolvable "%w: no instalment falls between %s and %s"
    else if Nat.eqb (length out) maxPeriods then unsolvable "%w: more than %d instalments"
    else Ok out.

(** The dates the loop of [remainingFrom] steps over. *)
Definition passed (c : Contract) (from d : Date) : bool :=
  (negb (Dates.IsZero from) && negb (After d from)) ||
  (negb (Dates.IsZero (NotBeforeDue c)) && Before d (NotBeforeDue c)).

Fixpoint drop_passed (c : Contract) (from : Date) (dates : list Date) : list Date :=
  match dates with
  | d :: rest => if passed c from d then drop_passed c from rest else dates
  | [] => []
  end.

Definition remainingFrom (c : Contract) (dates : list Date) (from : Date) : res (list Date) :=
  if Dates.IsZero from && Dates.IsZero (NotBeforeDue c) then Ok dates
  else match drop_passed c from dates with
  | [] => unsolvable "%w: no instalment falls after %s"
  | rest => Ok rest
  end.

Definition RemainingDates (c : Contract) (from : Date) : res (list Date) :=
  dates ← PaymentDates c; remainingFrom c dates from.

(** [Currency] is a comparable struct: [!=] compares every field. *)
Definition checkProjection (principal instalment : Amount) : res unit :=
  if Sign principal <? 0 then unsolvable "%w: negative principal"
  else if Sign instalment <=? 0 then unsolvable "%w: instalment must be positive"
  else if negb (bool_decide (cur principal = cur instalment))
  then unsolvable "%w: principal in %s, instalment in %s"
  else Ok tt.

Record outcome := MkOutcome {
  Periods : Z;
  FirstDue : Date;
  FirstInterest : Amount;
  FirstPrincipal : Amount;
  FirstPayment : Amount;
  OutFinalPayment : Amount;
  FinalClosing : Amount;
  OutTotalPaid : Amount;
  OutTotalInterest : Amount }.

Definition start_outcome (c : Currency) : outcome :=
  MkOutcome 0 zero_date no_amount no_amount no_amount no_amount no_amount (Zero c) (Zero c).

(** What one row leaves in the outcome. *)
Definition record_row (out : outcome) (due : Date) (interest principalPart pay closing paid total : Amount) :
    outcome :=
  let periods := Periods out + 1 in
  if periods =? 1
  then MkOutcome periods due interest principalPart pay pay closing paid total
  else MkOutcome periods (FirstDue out) (FirstInterest out) (FirstPrincipal out) (FirstPayment out)
    pay closing paid total.

Definition append_row (rows : option (list Row)) (r : Row) : option (list Row) :=
  match rows with Some l => Some (l ++ [r]) | None => None end.

Definition row_err {A} (m : res A) : res A := wrap_err "amortisation: row %d: %w" m.

Fixpoint project_from (c : Contract) (instalment : Amount) (dates : list Date) (i : Z)
    (balance : Amount) (prev : Date) (out : outcome) (rows : option (list Row)) :
    res (outcome * option (list Row)) :=
  match dates with
  | [] => Ok (out, rows)
  | due :: rest =>
      if Sign balance <=? 0 then Ok (out, rows)
      else
        let days := DaysBetween prev due in
        if days <? 0 then unsolvable "%w: instalment %s precedes %s"
        else
          interest ← row_err (Accrue balance (NominalRate c) days (ContractDayCount c) (Rounding c));
          owed ← row_err (Add balance interest);
          order ← Cmp instalment owed;
          let pay := if 0 <=? order then owed else instalment in
          principalPart ← row_err (Sub pay interest);
          closing ← row_err (Sub balance principalPart);
          let rows := append_row rows
            (MkRow (i + 1) due days balance interest principalPart pay closing) in
          paid ← row_err (Add (OutTotalPaid out) pay);
          total ← row_err (Add (OutTotalInterest out) interest);
          project_from c instalment rest (i + 1) closing due
            (record_row out due interest principalPart pay closing paid total) rows
  end.

Definition drawdown (c : Contract) (from : Date) : Date :=
  if Dates.IsZero from then StartDate c else from.

Definition project (c : Contract) (principal instalment : Amount) (from : Date)
    (dates : list Date) (rows : option (list Row)) : res (outcome * option (list Row)) :=
  project_from c instalment dates 0 principal (drawdown c from) (start_outcome (cur principal)) rows.

(** * calendar.go: the resolved dates *)

Record Calendar := MkCalendar { contract : Contract; dates : list Date }.

Definition NewCalendar (c : Contract) : res Calendar :=
  d ← PaymentDates c; Ok (MkCalendar c d).

Definition Calendar_Dates (cal : Calendar) (from : Date) : res (list Date) :=
  if Nat.eqb (length (dates cal)) 0 then unsolvable "%w: calendar was never resolved"
  else remainingFrom (contract cal) (dates cal) from.

Definition Calendar_Project (cal : Calendar) (principal instalment : Amount) (from : Date) : res Schedule :=
  _ ← checkProjection principal instalment;
  dates ← Calendar_Dates cal from;
  '(out, rows) ← project (contract cal) principal instalment from dates (Some []);
  Ok (MkSchedule (default [] rows) instalment (OutFinalPayment out) (OutTotalPaid out)
    (OutTotalInterest out)).

(** [if err != nil { if checked := check(); checked != nil { return checked }; return err }]:
    the argument check outranks the calendar's own error. *)
Definition or_checked {A} (check : res unit) (m : res A) : res A :=
  match m with
  | Err e => match check with Err e' => Err e' | Panic w => Panic w | Ok _ => Err e end
  | m => m
  end.

Definition Project (c : Contract) (principal instalment : Amount) (from : Date) : res Schedule :=
  cal ← or_checked (checkProjection principal instalment) (NewCalendar c);
  Calendar_Project cal principal instalment from.

(** * The exact schedule *)

(** Interest on a balance over some days, and the closing balance of one row,
    in unbounded integers. *)
Definition interest_on (c : Contract) (b days : Z) : Z :=
  accrual b (NominalRate c) days (ContractDayCount c) (Rounding c).
Definition owed_on (c : Contract) (b days : Z) : Z := b + interest_on c b days.

(** Contract terms under which an accrual is exact. *)
Definition wf_terms (c : Contract) : Prop :=
  accrual_terms (NominalRate c) (ContractDayCount c) (Rounding c).

Record exact_row := MkExact {
  xdue : Date; xdays : Z; xopening : Z; xinterest : Z; xpayment : Z; xclosing : Z }.

(** The schedule as a mathematician would write it: each row pays the
    instalment or what is owed, whichever is less, until nothing is left. *)
Fixpoint exact_rows (c : Contract) (instalment : Z) (prev : Date) (ds : list Date) (b : Z) :
    list exact_row :=
  match ds with
  | [] => []
  | due :: rest =>
      if b <=? 0 then []
      else
        let days := DaysBetween prev due in
        let pay := Z.min instalment (owed_on c b days) in
        let closing := owed_on c b days - pay in
        MkExact due days b (interest_on c b days) pay closing :: exact_rows c instalment due rest closing
  end.

Definition to_exact (r : Row) : exact_row :=
  MkExact (Due r) (Days r) (minor (Opening r)) (minor (Interest r)) (minor (Payment r))
    (minor (Closing r)).

(** The last closing balance, or what was owed at the start. *)
Definition final_balance (b : Z) (l : list exact_row) : Z := foldl (λ _ r, xclosing r) b l.

Lemma row_err_Ok {A} (m : res A) a : row_err m = Ok a ↔ m = Ok a.
Proof. apply wrap_err_Ok. Qed.

Lemma interest_on_nonneg c b days : wf_terms c → 0 ≤ b → 0 ≤ days → 0 ≤ interest_on c b days.
Proof. intros [[? _] _] ? ?. by apply accrual_nonneg. Qed.

Lemma interest_on_mono c b b' days :
  wf_terms c → 0 ≤ b ≤ b' → 0 ≤ days → interest_on c b days ≤ interest_on c b' days.
Proof. intros [[? _] _] ? ?. by apply accrual_mono. Qed.

Lemma interest_on_rate0 c b days : NominalRate c = 0 → interest_on c b days = 0.
Proof.
  intros E. unfold interest_on, accrual. rewrite E, Z.mul_0_r, Z.mul_0_l, round_div_0; [lia|].
  pose proof (unit_of_pos (Rounding c)). pose proof (Denominator_range (ContractDayCount c)).
  unfold ratePPB. lia.
Qed.

Section Walk.
Context (c : Contract) (inst : Amount).
Context (Hterms : wf_terms c) (Hinst : 0 ≤ minor inst ≤ MaxInt64).

(** A state of the walk: everything in one currency and representable. *)
Record walking (balance : Amount) (out : outcome) : Prop := {
  walking_balance : 0 ≤ minor balance ≤ MaxInt64;
  walking_paid : 0 ≤ minor (OutTotalPaid out) ≤ MaxInt64;
  walking_interest : 0 ≤ minor (OutTotalInterest out) ≤ MaxInt64;
  walking_code : Code (cur inst) = Code (cur balance);
  walking_paid_code : Code (cur (OutTotalPaid out)) = Code (cur balance);
  walking_interest_code : Code (cur (OutTotalInterest out)) = Code (cur balance);
  walking_periods : 0 ≤ Periods out;
  walking_closing : 0 < Periods out → minor (FinalClosing out) = minor balance }.

Definition row_payment (balance : Amount) (owed : Z) : Amount :=
  if owed <=? minor inst then MkAmount owed (cur balance) else inst.

(** One row fits when its products and sums are representable. *)
Definition row_fits (b days paid total : Z) : Prop :=
  0 ≤ days ∧ (NominalRate c = 0 ∨ b * days ≤ MaxInt64) ∧ owed_on c b days ≤ MaxInt64 ∧
  paid + Z.min (minor inst) (owed_on c b days) ≤ MaxInt64 ∧
  total + interest_on c b days ≤ MaxInt64.

(** The row a step writes, and the state it leaves. *)
Definition next_payment (balance : Amount) (prev due : Date) : Amount :=
  row_payment balance (owed_on c (minor balance) (DaysBetween prev due)).
Definition next_balance (balance : Amount) (prev due : Date) : Amount :=
  MkAmount (owed_on c (minor balance) (DaysBetween prev due) - minor (next_payment balance prev due))
    (cur balance).
Definition next_row (i : Z) (balance : Amount) (prev due : Date) : Row :=
  let days := DaysBetween prev due in
  let int := interest_on c (minor balance) days in
  let pay := next_payment balance prev due in
  MkRow i due days balance (MkAmount int (cur balance)) (MkAmount (minor pay - int) (cur pay)) pay
    (next_balance balance prev due).
Definition next_out (balance : Amount) (prev due : Date) (out : outcome) : outcome :=
  let r := next_row 0 balance prev due in
  record_row out due (Interest r) (RowPrincipal r) (Payment r) (Closing r)
    (MkAmount (minor (OutTotalPaid out) + minor (Payment r)) (cur (OutTotalPaid out)))
    (MkAmount (minor (OutTotalInterest out) + minor (Interest r)) (cur (OutTotalInterest out))).

Lemma next_out_totals balance prev due out :
  let out' := next_out balance prev due out in
  Periods out' = Periods out + 1 ∧
  minor (OutTotalPaid out') = minor (OutTotalPaid out) + minor (next_payment balance prev due) ∧
  minor (OutTotalInterest out') =
    minor (OutTotalInterest out) + interest_on c (minor balance) (DaysBetween prev due).
Proof using Type. unfold next_out, record_row. simpl. by destruct (Periods out + 1 =? 1). Qed.

Lemma project_step due rest i balance prev out rows r :
  walking balance out → 0 < minor balance →
  project_from c inst (due :: rest) i balance prev out rows = Ok r ↔
  row_fits (minor balance) (DaysBetween prev due) (minor (OutTotalPaid out)) (minor (OutTotalInterest out)) ∧
  project_from c inst rest (i + 1) (next_balance balance prev due) due
    (next_out balance prev due out)
    (append_row rows (next_row (i + 1) balance prev due)) = Ok r.
Proof using Hterms Hinst.
  intros [Hb Hp Hti Hc1 Hc2 Hc3 _ _] Hpos.
  unfold next_out, next_row, next_balance, next_payment. cbn [project_from Interest RowPrincipal Payment Closing minor].
  set (days := DaysBetween prev due). set (b := minor balance) in *.
  assert ((Sign balance <=? 0) = false) as -> by (unfold Sign; fold b; repeat case_match; lia).
  pose proof (DaysBetween_max prev due) as Hmax. fold days in Hmax.
  unfold row_fits. destruct (Z.ltb_spec days 0).
  { unfold unsolvable, errorf_w. split; [done|lia]. }
  pose proof (interest_on_nonneg c b days Hterms ltac:(lia) ltac:(lia)) as Hi0.
  set (int := interest_on c b days) in *. unfold owed_on. fold int.
  assert (NominalRate c = 0 → int = 0) as Hrate0 by apply interest_on_rate0.
  set (owed := b + int).
  set (pay := row_payment balance owed).
  assert (minor pay = Z.min (minor inst) owed ∧ 0 ≤ minor pay ∧ Code (cur pay) = Code (cur balance))
    as (Hpay & Hpay0 & Hpc).
  { unfold pay, row_payment. destruct (Z.leb_spec owed (minor inst)); simpl; split_and!; lia || done. }
  rewrite <- Hpay.
  trans ((NominalRate c = 0 ∨ b * days ≤ MaxInt64 ∧ int ≤ MaxInt64) ∧ owed ≤ MaxInt64 ∧ True ∧
    True ∧ True ∧ minor (OutTotalPaid out) + minor pay ≤ MaxInt64 ∧
    minor (OutTotalInterest out) + int ≤ MaxInt64 ∧
    project_from c inst rest (i + 1) (MkAmount (owed - minor pay) (cur balance)) due
      (record_row out due (MkAmount int (cur balance)) (MkAmount (minor pay - int) (cur pay)) pay
        (MkAmount (owed - minor pay) (cur balance))
        (MkAmount (minor (OutTotalPaid out) + minor pay) (cur (OutTotalPaid out)))
        (MkAmount (minor (OutTotalInterest out) + int) (cur (OutTotalInterest out))))
      (append_row rows (MkRow (i + 1) due days balance (MkAmount int (cur balance))
        (MkAmount (minor pay - int) (cur pay)) pay (MkAmount (owed - minor pay) (cur balance)))) = Ok r);
    [|naive_solver lia].
  apply (bind_chain _ _ _ (MkAmount int (cur balance))).
  { intros a. rewrite row_err_Ok. apply Accrue_Ok_iff; [done|unfold_i64; lia|lia|unfold_i64; lia]. }
  intros H1. apply (bind_chain _ _ _ (MkAmount owed (cur balance))).
  { intros a. rewrite row_err_Ok, Add_nonneg_iff by (unfold b, owed in *; simpl; lia || done). done. }
  intros H2. apply (bind_chain _ _ _ (if minor inst <? owed then -1 else if owed <? minor inst then 1 else 0)).
  { intros a. rewrite Cmp_Ok. simpl. naive_solver. }
  intros _.
  assert ((if 0 <=? (if minor inst <? owed then -1 else if owed <? minor inst then 1 else 0)
    then MkAmount owed (cur balance) else inst) = pay) as ->.
  { unfold pay, row_payment. repeat case_match; done || lia. }
  assert (0 ≤ int ≤ MaxInt64 ∧ 0 ≤ minor pay ≤ MaxInt64) as [Hiw Hpw] by lia.
  apply (bind_chain _ _ _ (MkAmount (minor pay - int) (cur pay))).
  { intros a. rewrite row_err_Ok, Sub_nonneg_iff by done. naive_solver. }
  intros _. apply (bind_chain _ _ _ (MkAmount (owed - minor pay) (cur balance))).
  { intros a. rewrite row_err_Ok, Sub_Ok_iff by (unfold_i64; lia). fold b. simpl.
    replace (b - (minor pay - int)) with (owed - minor pay) by (unfold owed; lia).
    assert (in_i64 (owed - minor pay)) by (unfold_i64; lia). naive_solver. }
  intros _. apply (bind_chain _ _ _ (MkAmount (minor (OutTotalPaid out) + minor pay) (cur (OutTotalPaid out)))).
  { intros a. rewrite row_err_Ok, Add_nonneg_iff by (simpl; congruence || lia). done. }
  intros _. apply (bind_chain _ _ _ (MkAmount (minor (OutTotalInterest out) + int) (cur (OutTotalInterest out)))).
  { intros a. rewrite row_err_Ok, Add_nonneg_iff by (simpl; congruence || lia). done. }
  done.
Qed.

Lemma walking_step due balance out prev :
  walking balance out → 0 < minor balance →
  row_fits (minor balance) (DaysBetween prev due) (minor (OutTotalPaid out)) (minor (OutTotalInterest out)) →
  minor (next_payment balance prev due) =
    Z.min (minor inst) (owed_on c (minor balance) (DaysBetween prev due)) ∧
  walking (next_balance balance prev due) (next_out balance prev due out).
Proof using Hterms Hinst.
  intros [Hb Hp Hti Hc1 Hc2 Hc3 Hn _] Hpos (Hd & _ & Howed & Hpaid & Htot).
  pose proof (interest_on_nonneg c (minor balance) _ Hterms ltac:(lia) Hd) as Hi0.
  assert (minor (next_payment balance prev due) =
    Z.min (minor inst) (owed_on c (minor balance) (DaysBetween prev due))) as Hpay.
  { unfold next_payment, row_payment. destruct (Z.leb_spec (owed_on c (minor balance) (DaysBetween prev due)) (minor inst));
      simpl; lia. }
  split; [done|]. unfold next_out, next_row, next_balance, record_row.
  set (pay := next_payment balance prev due) in *. clearbody pay. simpl. unfold owed_on in *.
  destruct (Periods out + 1 =? 1); split; simpl; try done; lia.
Qed.

(** Everything a successful walk leaves behind, against the exact schedule. *)
Record walked (prev : Date) (ds : list Date) (balance : Amount) (out out' : outcome)
    (rows rows' : option (list Row)) : Prop := {
  walked_rows : ∃ l, rows' = (λ k, k ++ l) <$> rows ∧
    to_exact <$> l = exact_rows c (minor inst) prev ds (minor balance);
  walked_paid : minor (OutTotalPaid out') =
    minor (OutTotalPaid out) + sum_by xpayment (exact_rows c (minor inst) prev ds (minor balance));
  walked_interest : minor (OutTotalInterest out') =
    minor (OutTotalInterest out) + sum_by xinterest (exact_rows c (minor inst) prev ds (minor balance));
  walked_periods : Periods out' =
    Periods out + Z.of_nat (length (exact_rows c (minor inst) prev ds (minor balance)));
  walked_closing : 0 < Periods out' → minor (FinalClosing out') =
    final_balance (minor balance) (exact_rows c (minor inst) prev ds (minor balance));
  walked_paid_max : minor (OutTotalPaid out') ≤ MaxInt64;
  walked_balance_max :
    final_balance (minor balance) (exact_rows c (minor inst) prev ds (minor balance)) ≤ MaxInt64 }.

Lemma walked_nil prev ds balance out rows :
  walking balance out → exact_rows c (minor inst) prev ds (minor balance) = [] →
  walked prev ds balance out out rows rows.
Proof using Type.
  intros [Hb Hp _ _ _ _ _ Hcl] E. split; rewrite ?E; simpl; try lia; try done.
  exists []. split; [|done]. destruct rows; simpl; [by rewrite app_nil_r|done].
Qed.

Lemma project_from_walked ds : ∀ i balance prev out rows out' rows',
  walking balance out →
  project_from c inst ds i balance prev out rows = Ok (out', rows') →
  walked prev ds balance out out' rows rows'.
Proof using Hterms Hinst.
  induction ds as [|due ds IH]; intros i balance prev out rows out' rows' Hw H.
  { simpl in H. injection H as <- <-. by apply walked_nil. }
  destruct (Z.leb_spec (minor balance) 0) as [Hz|Hpos].
  { cbn [project_from] in H. assert ((Sign balance <=? 0) = true) as Es
      by (unfold Sign; repeat case_match; lia). rewrite Es in H. injection H as <- <-.
    apply walked_nil; [done|]. simpl. by rewrite (proj2 (Z.leb_le _ _)). }
  apply project_step in H as [Hfits H]; [|done|done].
  destruct (walking_step due balance out prev Hw Hpos Hfits) as [Hpay Hw'].
  apply IH in H; [|done]. destruct H as [Hr Hp Hti Hn Hcl Hpm Hbm].
  destruct (next_out_totals balance prev due out) as (R1 & R2 & R3). rewrite R1 in Hn. rewrite R2 in Hp.
  rewrite R3 in Hti. clear R1 R2 R3.
  assert (exact_rows c (minor inst) prev (due :: ds) (minor balance) =
    to_exact (next_row (i + 1) balance prev due) ::
    exact_rows c (minor inst) due ds (minor (next_balance balance prev due))) as E.
  { cbn [exact_rows]. rewrite (proj2 (Z.leb_gt _ _)) by lia. cbv zeta. unfold to_exact, next_row. simpl.
    by rewrite Hpay. }
  split; rewrite ?E.
  - destruct Hr as (l & -> & Hl). eexists (_ :: l). split.
    + destruct rows as [k|]; simpl; [by rewrite <- app_assoc|done].
    + by rewrite fmap_cons, Hl.
  - rewrite Hp. unfold sum_by. cbn [foldr].
    change (xpayment (to_exact _)) with (minor (next_payment balance prev due)). lia.
  - rewrite Hti. unfold sum_by. cbn [foldr].
    change (xinterest (to_exact _)) with (interest_on c (minor balance) (DaysBetween prev due)). lia.
  - cbn [length]. rewrite Hn. lia.
  - intros Hq. rewrite Hcl by done. done.
  - done.
  - done.
Qed.
End Walk.

(** Instalment dates in order, the first of them after [prev]. *)
Fixpoint ahead (prev : Date) (ds : list Date) : Prop :=
  match ds with
  | [] => True
  | d :: rest => time prev < time d ∧ ahead d rest
  end.

Lemma ahead_days prev d rest : ahead prev (d :: rest) → 0 ≤ DaysBetween prev d.
Proof. intros [H _]. apply DaysBetween_nonneg_exact. lia. Qed.

Lemma max0_owed inst owed : owed - Z.min inst owed = Z.max 0 (owed - inst).
Proof. lia. Qed.

(** ** The exact schedule *)

Section Exact.
Context (c : Contract) (Hterms : wf_terms c).

(** What one row of the exact schedule looks like, whatever came before. *)
Definition row_sound (r : exact_row) : Prop :=
  0 < xopening r ∧ 0 ≤ xdays r ∧ xinterest r = interest_on c (xopening r) (xdays r) ∧
  0 ≤ xclosing r ∧ xclosing r = xopening r + xinterest r - xpayment r.

Lemma exact_rows_sound inst ds : ∀ prev b,
  ahead prev ds → Forall row_sound (exact_rows c inst prev ds b).
Proof using Hterms.
  induction ds as [|d ds IH]; intros prev b Ha; simpl; [constructor|].
  pose proof (ahead_days _ _ _ Ha) as Hd. destruct Ha as [_ Ha].
  destruct (Z.leb_spec b 0); constructor; [|by apply IH].
  unfold row_sound. simpl. unfold owed_on. split_and!; lia || done.
Qed.

Lemma final_balance_cons b r l : final_balance b (r :: l) = final_balance (xclosing r) l.
Proof using Type. done. Qed.

(** What was paid is what the balance fell by, plus interest. *)
Lemma exact_rows_conserve inst ds : ∀ prev b,
  sum_by xpayment (exact_rows c inst prev ds b) =
  b - final_balance b (exact_rows c inst prev ds b) + sum_by xinterest (exact_rows c inst prev ds b).
Proof using Type.
  induction ds as [|d ds IH]; intros prev b; simpl; [lia|].
  destruct (Z.leb_spec b 0); [simpl; lia|].
  rewrite final_balance_cons. simpl. rewrite IH. unfold owed_on. lia.
Qed.

Lemma exact_rows_interest_nonneg inst ds : ∀ prev b,
  ahead prev ds → 0 ≤ sum_by xinterest (exact_rows c inst prev ds b).
Proof using Hterms.
  induction ds as [|d ds IH]; intros prev b Ha; simpl; [lia|].
  pose proof (ahead_days _ _ _ Ha) as Hd. destruct Ha as [_ Ha].
  destruct (Z.leb_spec b 0); simpl; [lia|].
  pose proof (interest_on_nonneg c b (DaysBetween prev d) Hterms ltac:(lia) Hd).
  specialize (IH d (owed_on c b (DaysBetween prev d) - inst `min` owed_on c b (DaysBetween prev d)) Ha). lia.
Qed.

(** A larger instalment, or a smaller balance, never ends owing more. *)
Lemma final_balance_mono inst inst' ds : ∀ prev b b',
  ahead prev ds → inst ≤ inst' → 0 ≤ b' ≤ b →
  0 ≤ final_balance b' (exact_rows c inst' prev ds b') ≤ final_balance b (exact_rows c inst prev ds b).
Proof using Hterms.
  induction ds as [|d ds IH]; intros prev b b' Ha Hi Hb; simpl; [lia|].
  pose proof (ahead_days _ _ _ Ha) as Hd. destruct Ha as [_ Ha].
  pose proof (interest_on_mono c b' b _ Hterms Hb Hd) as Hm.
  assert (0 ≤ owed_on c b' (DaysBetween prev d) ≤ owed_on c b (DaysBetween prev d)) as Ho.
  { unfold owed_on. pose proof (interest_on_nonneg c b' _ Hterms ltac:(lia) Hd). lia. }
  destruct (Z.leb_spec b' 0) as [Hb'|Hb'], (Z.leb_spec b 0).
  - simpl. lia.
  - rewrite final_balance_cons. change (final_balance b' []) with b'. simpl.
    set (x := owed_on c b _ - _).
    pose proof (IH d x x Ha Hi ltac:(unfold x; lia)). lia.
  - lia.
  - rewrite !final_balance_cons. apply IH; [done|done|]. simpl. rewrite !max0_owed. lia.
Qed.
End Exact.

(** ** A larger instalment projects wherever a smaller one does *)

Lemma project_from_total_interest c inst ds i balance prev out o rows rows' :
  wf_terms c → 0 ≤ minor inst ≤ MaxInt64 → walking inst balance out → ahead prev ds →
  project_from c inst ds i balance prev out rows = Ok (o, rows') →
  minor (OutTotalInterest out) ≤ minor (OutTotalInterest o).
Proof.
  intros Ht Hi Hw Ha H. apply project_from_walked in H; [|done..].
  rewrite (walked_interest _ _ _ _ _ _ _ _ _ H).
  pose proof (exact_rows_interest_nonneg c Ht (minor inst) ds prev (minor balance) Ha). lia.
Qed.

Lemma project_from_mono c inst inst' ds :
  wf_terms c → 0 ≤ minor inst ≤ minor inst' → minor inst' ≤ MaxInt64 →
  ∀ i i' bal bal' prev out out' o rows rows' r,
  walking inst bal out → walking inst' bal' out' → ahead prev ds →
  minor bal' ≤ minor bal → minor (OutTotalInterest out') ≤ minor (OutTotalInterest out) →
  minor (OutTotalPaid out') + minor bal' - minor (OutTotalInterest out') =
    minor (OutTotalPaid out) + minor bal - minor (OutTotalInterest out) →
  project_from c inst ds i bal prev out rows = Ok (o, r) →
  minor (OutTotalPaid out) + minor bal - minor (OutTotalInterest out) + minor (OutTotalInterest o)
    ≤ MaxInt64 →
  ∃ o', project_from c inst' ds i' bal' prev out' rows' = Ok o'.
Proof.
  intros Ht Hi Hi'. induction ds as [|d ds IH];
    intros i i' bal bal' prev out out' o rows rows' r Hw Hw' Ha Hb Hti Hp H Hmax.
  { by eexists. }
  destruct (Z.leb_spec (minor bal') 0) as [Hz|Hpos].
  { cbn [project_from]. assert ((Sign bal' <=? 0) = true) as ->
      by (unfold Sign; repeat case_match; lia). by eexists. }
  assert (0 ≤ minor inst ≤ MaxInt64 ∧ 0 ≤ minor inst' ≤ MaxInt64 ∧ 0 < minor bal) as (Hin & Hin' & Hposb) by lia.
  apply project_step in H; [|done..]. destruct H as [Hfits H].
  destruct (walking_step c inst Ht Hin d bal out prev Hw Hposb Hfits) as [Hpay Hnext].
  pose proof (project_from_total_interest _ _ _ _ _ _ _ _ _ _ Ht Hin Hnext (proj2 Ha) H) as Hgrow.
  destruct (next_out_totals c inst bal prev d out) as (_ & E2 & E3).
  destruct (next_out_totals c inst' bal' prev d out') as (_ & E2' & E3').
  pose proof (interest_on_mono c (minor bal') (minor bal) _ Ht ltac:(lia) (ahead_days _ _ _ Ha)) as Him.
  pose proof (interest_on_nonneg c (minor bal') _ Ht ltac:(lia) (ahead_days _ _ _ Ha)) as Hi0.
  assert (row_fits c inst' (minor bal') (DaysBetween prev d) (minor (OutTotalPaid out'))
    (minor (OutTotalInterest out'))) as Hfits'.
  { destruct Hfits as (Hd & Hprod & Ho & Hpd & Htot). unfold row_fits, owed_on in *. split_and!; try lia.
    destruct Hprod as [|Hprod]; [by left|right]. nia. }
  destruct (walking_step c inst' Ht Hin' d bal' out' prev Hw' Hpos Hfits') as [Hpay' Hnext'].
  assert (minor (next_balance c inst bal prev d) =
    owed_on c (minor bal) (DaysBetween prev d) - minor (next_payment c inst bal prev d)) as E1 by done.
  assert (minor (next_balance c inst' bal' prev d) =
    owed_on c (minor bal') (DaysBetween prev d) - minor (next_payment c inst' bal' prev d)) as E1' by done.
  unfold owed_on in *.
  destruct (IH (i + 1) (i' + 1) _ _ _ _ _ o
    (append_row rows (next_row c inst (i + 1) bal prev d)) (append_row rows' (next_row c inst' (i' + 1) bal' prev d)) r
    Hnext Hnext' (proj2 Ha)) as [o' Ho']; [lia|lia|lia|exact H|lia|].
  exists o'. apply project_step; [done..|]. split; [done|exact Ho'].
Qed.

(** ** The calendar *)

(** Dates the calendar can count with: valid, and not before year 0. *)
Definition wf_dates (c : Contract) : Prop :=
  valid (StartDate c) ∧ valid (MaturityDate c) ∧ 0 ≤ month_of (StartDate c).

Definition payment_day (c : Contract) : Z :=
  if PaymentDay c =? 0 then Day (StartDate c) else PaymentDay c.

Section Occurrences.
Context (start maturity : Date) (day : Z).
Context (Hstart : valid start) (Hmat : valid maturity) (Hmonth : 0 ≤ month_of start).

Lemma Occurrence_valid n : 0 ≤ n → valid (Occurrence start day n).
Proof using Hmonth. intros. by apply Occurrence_facts; lia. Qed.

Lemma occurrences_lookup fuel : ∀ n i d,
  occurrences fuel start maturity day n !! i = Some d →
  d = Occurrence start day (n + Z.of_nat i) ∧ After d maturity = false.
Proof using Type.
  induction fuel as [|fuel IH]; intros n i d H; [done|]. simpl in H.
  destruct (After (Occurrence start day n) maturity) eqn:E; [done|].
  destruct i as [|i]; simpl in H; [injection H as <-; split; [f_equal; lia|done]|].
  apply IH in H as [-> ?]. split; [f_equal; lia|done].
Qed.

Lemma occurrences_length fuel n : (length (occurrences fuel start maturity day n) ≤ fuel)%nat.
Proof using Type.
  revert n. induction fuel as [|fuel IH]; intros n; simpl; [lia|].
  destruct (After _ _); simpl; [lia|]. specialize (IH (n + 1)). lia.
Qed.

(** Stopping short of the fuel means the next occurrence is past maturity. *)
Lemma occurrences_stop fuel : ∀ n,
  (length (occurrences fuel start maturity day n) < fuel)%nat →
  After (Occurrence start day (n + Z.of_nat (length (occurrences fuel start maturity day n)))) maturity
    = true.
Proof using Type.
  induction fuel as [|fuel IH]; intros n Hl; simpl in *; [lia|].
  destruct (After (Occurrence start day n) maturity) eqn:E; simpl in *; [by rewrite Z.add_0_r|].
  specialize (IH (n + 1) ltac:(lia)).
  replace (n + Z.of_nat (S (length (occurrences fuel start maturity day (n + 1))))) with
    (n + 1 + Z.of_nat (length (occurrences fuel start maturity day (n + 1)))) by lia. done.
Qed.

Lemma occurrences_ahead fuel : ∀ prev n,
  0 ≤ n → time prev < time (Occurrence start day n) →
  ahead prev (occurrences fuel start maturity day n).
Proof using Hmonth.
  induction fuel as [|fuel IH]; intros prev n Hn Hp; simpl; [done|].
  destruct (After _ _); simpl; [done|]. split; [done|]. apply IH; [lia|].
  apply Occurrence_lt; lia.
Qed.
End Occurrences.

Lemma PaymentDates_Ok c ds :
  PaymentDates c = Ok ds ↔
  Dates.IsZero (StartDate c) = false ∧ Dates.IsZero (MaturityDate c) = false ∧
  After (MaturityDate c) (StartDate c) = true ∧
  ds = occurrences maxPeriods (StartDate c) (MaturityDate c) (payment_day c) 1 ∧
  (0 < length ds < maxPeriods)%nat.
Proof.
  unfold PaymentDates, unsolvable, errorf_w, payment_day.
  pose proof (occurrences_length (StartDate c) (MaturityDate c)
    (if PaymentDay c =? 0 then Day (StartDate c) else PaymentDay c) maxPeriods 1) as Hl.
  set (l := occurrences _ _ _ _ _) in *. clearbody l. set (m := maxPeriods) in *. clearbody m.
  destruct (Dates.IsZero (StartDate c)), (Dates.IsZero (MaturityDate c)); simpl; try naive_solver.
  destruct (After (MaturityDate c) (StartDate c)); simpl; [|naive_solver].
  destruct (Nat.eqb_spec (length l) 0), (Nat.eqb_spec (length l) m); split; try naive_solver lia.
Qed.

Lemma PaymentDates_ahead c ds :
  wf_dates c → PaymentDates c = Ok ds → ahead (StartDate c) ds.
Proof.
  intros (Hs & Hm & H0) (_ & _ & _ & -> & _)%PaymentDates_Ok. apply occurrences_ahead; [done|lia|].
  apply month_of_lt_time; [done|apply Occurrence_valid; lia|].
  destruct (Occurrence_facts (StartDate c) (payment_day c) 1 ltac:(lia)) as (_ & -> & _). lia.
Qed.

Lemma PaymentDates_valid c ds : wf_dates c → PaymentDates c = Ok ds → Forall valid ds.
Proof.
  intros (Hs & Hm & H0) (_ & _ & _ & -> & _)%PaymentDates_Ok. apply Forall_lookup. intros i d H.
  apply occurrences_lookup in H as [-> _]. apply Occurrence_valid; lia.
Qed.

Lemma ahead_weaken prev prev' ds : time prev' ≤ time prev → ahead prev ds → ahead prev' ds.
Proof. destruct ds; simpl; [done|]. intros ? [? ?]. split; [lia|done]. Qed.

Lemma ahead_all prev ds d : ahead prev ds → d ∈ ds → time prev < time d.
Proof.
  revert prev. induction ds as [|e ds IH]; intros prev Ha Hd; [by apply not_elem_of_nil in Hd|].
  destruct Ha as [? Ha]. apply elem_of_cons in Hd as [-> |Hd]; [done|]. specialize (IH e Ha Hd). lia.
Qed.

(** In a sorted calendar the dates still ahead are the ones not yet passed. *)
Lemma drop_passed_filter c from ds prev :
  valid (NotBeforeDue c) ∨ Dates.IsZero (NotBeforeDue c) = true →
  valid from ∨ Dates.IsZero from = true →
  Forall valid ds → ahead prev ds → drop_passed c from ds = filter (λ d, passed c from d = false) ds.
Proof.
  intros Hnb Hf Hv. revert prev. induction Hv as [|d ds Hd Hv IH]; intros prev Ha; [done|].
  simpl. rewrite filter_cons. destruct (passed c from d) eqn:E; [apply (IH d), Ha|].
  f_equal. symmetry. apply filter_all. intros e He.
  destruct Ha as [_ Ha]. pose proof (ahead_all _ _ _ Ha He) as Hlt.
  rewrite Forall_forall in Hv. specialize (Hv e He). revert E. unfold passed.
  rewrite !orb_false_iff, !andb_false_iff, !negb_false_iff. intros [H1 H2]. split.
  - destruct H1 as [->|H1]; [by left|]. destruct Hf as [Hf| ->]; [|by left]. right.
    rewrite After_time in * by done. lia.
  - destruct H2 as [->|H2]; [by left|]. destruct Hnb as [Hnb| ->]; [|by left]. right.
    rewrite Before_time in * by done. lia.
Qed.

Lemma Forall_of_suffix {A} (P : A → Prop) l l' : l' `suffix_of` l → Forall P l → Forall P l'.
Proof. intros [k ->] H. by apply Forall_app in H as [_ H]. Qed.

(** Every date [remainingFrom] hands out is after the anchor, in order. *)
Lemma remainingFrom_ahead c ds from ds' :
  valid from ∨ Dates.IsZero from = true → Forall valid ds → ahead (StartDate c) ds →
  remainingFrom c ds from = Ok ds' → ahead (drawdown c from) ds' ∧ Forall valid ds' ∧ ds' `suffix_of` ds.
Proof.
  intros Hf Hv Ha. unfold remainingFrom, drawdown.
  assert (∀ prev, ahead prev ds → ahead prev (drop_passed c from ds) ∧ drop_passed c from ds `suffix_of` ds) as Hdrop.
  { clear -ds. induction ds as [|d ds IH]; intros prev Ha; [done|]. simpl.
    destruct (passed c from d); [|done]. destruct Ha as [? Ha]. apply IH in Ha as [Ha Hs].
    split; [eapply ahead_weaken; [|done]; lia|by apply suffix_cons_r]. }
  destruct (Dates.IsZero from) eqn:Ez; simpl.
  - destruct (Dates.IsZero (NotBeforeDue c)); simpl.
    + intros [= <-]. done.
    + intros H. destruct (Hdrop _ Ha) as [Ha' Hs].
      destruct (drop_passed c from ds) eqn:E; [done|]. injection H as <-. split_and!; try done.
      eapply Forall_of_suffix; [exact Hs|done].
  - destruct Hf as [Hf|Hf]; [|done]. intros H. destruct (Hdrop _ Ha) as [Ha' Hs].
    destruct (drop_passed c from ds) as [|d rest] eqn:E; [done|]. injection H as <-.
    pose proof (Forall_of_suffix _ _ _ Hs Hv) as Hv'.
    assert (passed c from d = false) as Hp.
    { clear -E. induction ds as [|e ds IH]; [done|]. simpl in E.
      destruct (passed c from e) eqn:Ee; [by apply IH|]. by injection E as -> ->. }
    split_and!; try done. destruct Ha' as [_ Ha']. split; [|done].
    unfold passed in Hp. rewrite Ez in Hp. simpl in Hp. apply orb_false_iff in Hp as [Hp _].
    apply negb_false_iff in Hp. rewrite After_time in Hp; [lia| |done].
    by apply Forall_cons in Hv' as [? _].
Qed.

(** ** The two callers of [project] *)

(** Only the rows differ between a caller that wants them and one that does not:
    the outcome and every refusal are the same. *)
Lemma project_from_rows c inst ds : ∀ i balance prev out rows rows',
  match project_from c inst ds i balance prev out rows,
        project_from c inst ds i balance prev out rows' with
  | Ok (o, _), Ok (o', _) => o = o'
  | Err e, Err e' => e = e'
  | Panic w, Panic w' => w = w'
  | _, _ => False
  end.
Proof.
  induction ds as [|d ds IH]; intros i balance prev out rows rows'; [done|]. cbn [project_from].
  destruct (Sign balance <=? 0); [done|]. destruct (DaysBetween prev d <? 0); [done|].
  repeat match goal with |- context [?m ≫= _] => destruct m; simpl; [|done|done] end.
  apply IH.
Qed.

Lemma walking_start inst principal :
  0 ≤ minor principal ≤ MaxInt64 → Code (cur inst) = Code (cur principal) →
  walking inst principal (start_outcome (cur principal)).
Proof. intros. split; simpl; done || (unfold MaxInt64; lia) || lia. Qed.

Lemma project_walked c inst principal from ds rows o rows' :
  wf_terms c → 0 ≤ minor inst ≤ MaxInt64 → 0 ≤ minor principal ≤ MaxInt64 →
  Code (cur inst) = Code (cur principal) →
  project c principal inst from ds rows = Ok (o, rows') →
  walked c inst (drawdown c from) ds principal (start_outcome (cur principal)) o rows rows'.
Proof. intros ? ? ? ? H. eapply project_from_walked; [done|done|by apply walking_start|exact H]. Qed.

Lemma checkProjection_Ok principal inst u :
  checkProjection principal inst = Ok u ↔
  0 ≤ minor principal ∧ 0 < minor inst ∧ cur principal = cur inst.
Proof.
  unfold checkProjection, Sign, unsolvable, errorf_w. destruct u.
  repeat case_match; rewrite ?negb_true_iff, ?negb_false_iff, ?bool_decide_eq_true, ?bool_decide_eq_false in *;
    naive_solver lia.
Qed.

(** A resolved calendar. *)
Lemma NewCalendar_Ok c cal :
  NewCalendar c = Ok cal ↔ contract cal = c ∧ PaymentDates c = Ok (dates cal).
Proof.
  unfold NewCalendar. rewrite bind_Ok. split; [by intros (ds & ? & [= <-])|].
  destruct cal. simpl. intros [-> ?]. eauto.
Qed.

Lemma Calendar_Dates_remaining c cal from :
  NewCalendar c = Ok cal → Calendar_Dates cal from = RemainingDates c from.
Proof.
  intros [<- H]%NewCalendar_Ok. unfold Calendar_Dates, RemainingDates. rewrite H. simpl.
  apply PaymentDates_Ok in H as (_ & _ & _ & _ & ?).
  destruct (Nat.eqb_spec (length (dates cal)) 0); [lia|done].
Qed.

Lemma RemainingDates_ahead c from ds :
  wf_dates c → valid from ∨ Dates.IsZero from = true → RemainingDates c from = Ok ds →
  ahead (drawdown c from) ds ∧ Forall valid ds.
Proof.
  intros Hc Hf H. unfold RemainingDates in H. inv_res.
  destruct (remainingFrom_ahead c r from ds Hf) as (? & ? & _); try done.
  - by eapply PaymentDates_valid.
  - by eapply PaymentDates_ahead.
Qed.

Lemma or_checked_Ok {A} check (m : res A) a : or_checked check m = Ok a ↔ m = Ok a.
Proof. destruct m, check; simpl; naive_solver. Qed.

(** * Properties *)

(** A one-year consumer loan taken on the 31st. *)
Definition sample_contract : Contract :=
  MkContract "loan" 1 AMD (MkDate 2024 1 31) zero_date 180000000 Actual365 Annuity
    (MkDate 2024 1 31) (MkDate 2025 1 31) 31 zero_date no_amount false (MkPolicy HalfUp 10)
    (MkPrepayment PrepayBorrowerChooses 0 [] no_amount) (MkPolicyRef "bank" 1).

Lemma sample_contract_wf : wf_terms sample_contract ∧ wf_dates sample_contract.
Proof. split; [vm_compute|]; repeat split; discriminate. Qed.

(** The calendar is the contract's: date number [i] is the [i]th monthly
    occurrence of the contractual day after the start, clamped to the end of a
    shorter month and returning to the contractual day after it; the dates
    increase, none passes maturity, the next occurrence would, and there are
    between 1 and 599 of them. *)
Theorem PaymentDates_spec c ds :
  wf_dates c → PaymentDates c = Ok ds →
  (∀ i d, ds !! i = Some d →
    month_of d = month_of (StartDate c) + 1 + Z.of_nat i ∧
    Day d = Z.min (Z.max 1 (payment_day c)) (month_len (Year d) (Month d)) ∧
    time d ≤ time (MaturityDate c)) ∧
  ahead (StartDate c) ds ∧ (0 < length ds < 600)%nat ∧
  time (MaturityDate c) < time (Occurrence (StartDate c) (payment_day c) (1 + Z.of_nat (length ds))).
Proof.
  intros Hc H. pose proof Hc as (Hs & Hm & H0). pose proof (PaymentDates_ahead c ds Hc H) as Ha.
  pose proof (PaymentDates_valid c ds Hc H) as Hv. rewrite Forall_lookup in Hv.
  apply PaymentDates_Ok in H as (_ & _ & _ & -> & Hl). split_and!; try done; try apply Hl.
  - intros i d Hd. specialize (Hv i d Hd). apply occurrences_lookup in Hd as [-> Hafter].
    rewrite After_time in Hafter by done.
    destruct (Occurrence_facts (StartDate c) (payment_day c) (1 + Z.of_nat i) ltac:(lia)) as (_ & E1 & E2).
    split_and!; [lia|done|lia].
  - pose proof (occurrences_stop (StartDate c) (MaturityDate c) (payment_day c) maxPeriods 1
      (proj2 Hl)) as Hstop.
    rewrite After_time in Hstop; [lia|apply Occurrence_valid; lia|done].
Qed.

Lemma PaymentDates_spec_witness :
  ∃ ds, PaymentDates sample_contract = Ok ds ∧ length ds = 12%nat ∧
  head ds = Some (MkDate 2024 2 29) ∧ ahead (MkDate 2024 1 31) ds.
Proof.
  eexists. split; [vm_compute; reflexivity|]. split; [reflexivity|]. split; [reflexivity|].
  apply (PaymentDates_spec sample_contract); [apply sample_contract_wf|vm_compute; reflexivity].
Defined.

(** From an anchor the schedule continues with exactly the dates still
    ahead of it — after the anchor, and not before the date the bank will next
    take a payment — in calendar order. *)
Theorem RemainingDates_spec c from ds ds' :
  wf_dates c → valid from ∨ Dates.IsZero from = true →
  valid (NotBeforeDue c) ∨ Dates.IsZero (NotBeforeDue c) = true →
  PaymentDates c = Ok ds → RemainingDates c from = Ok ds' →
  ds' = filter (λ d, passed c from d = false) ds ∧ ds' ≠ [] ∧ ahead (drawdown c from) ds'.
Proof.
  intros Hc Hf Hn H H'. pose proof (RemainingDates_ahead c from ds' Hc Hf H') as [Ha' _].
  pose proof (PaymentDates_ahead c ds Hc H) as Ha. pose proof (PaymentDates_valid c ds Hc H) as Hv.
  unfold RemainingDates in H'. rewrite H in H'. simpl in H'. unfold remainingFrom in H'.
  rewrite (drop_passed_filter c from ds _ Hn Hf Hv Ha) in H'.
  apply PaymentDates_Ok in H as (_ & _ & _ & _ & Hl).
  destruct (Dates.IsZero from && Dates.IsZero (NotBeforeDue c))%bool eqn:E.
  - injection H' as <-. split_and!; [|intros ->; simpl in Hl; lia|done]. symmetry. apply filter_all.
    intros d _. unfold passed. apply andb_true_iff in E as [-> ->]. done.
  - destruct (filter _ ds) as [|d l] eqn:Ef; [done|]. injection H' as <-. done.
Qed.

Lemma RemainingDates_spec_witness :
  ∃ ds ds', PaymentDates sample_contract = Ok ds ∧
  RemainingDates sample_contract (MkDate 2024 10 31) = Ok ds' ∧ length ds' = 3%nat ∧
  ahead (MkDate 2024 10 31) ds'.
Proof.
  eexists _, _. split; [vm_compute; reflexivity|]. split; [vm_compute; reflexivity|]. split; [reflexivity|].
  eapply (RemainingDates_spec sample_contract (MkDate 2024 10 31)).
  - apply sample_contract_wf.
  - left. by vm_compute.
  - right. reflexivity.
  - vm_compute. reflexivity.
  - vm_compute. reflexivity.
Defined.

(** C33. The machine schedule is the exact one. Whatever [Project] returns has,
    row for row, the dates, days, balances, interest and payments of the
    schedule in unbounded integers; each row's closing balance is its opening
    plus interest less payment and is never negative; and over the schedule
    what was paid is the principal repaid plus the interest charged. *)
Theorem Project_exact c principal inst from s :
  wf_terms c → wf_dates c → valid from ∨ Dates.IsZero from = true →
  minor principal ≤ MaxInt64 → minor inst ≤ MaxInt64 →
  Project c principal inst from = Ok s →
  ∃ ds, RemainingDates c from = Ok ds ∧
  let exact := exact_rows c (minor inst) (drawdown c from) ds (minor principal) in
  to_exact <$> Rows s = exact ∧ Forall (row_sound c) exact ∧
  minor (TotalInterest s) = sum_by xinterest exact ∧
  minor (TotalPaid s) = sum_by xpayment exact ∧
  minor (TotalPaid s) = minor principal - final_balance (minor principal) exact + minor (TotalInterest s).
Proof.
  intros Ht Hc Hf Hp Hi H. unfold Project in H. inv_res. apply or_checked_Ok in Hr.
  unfold Calendar_Project in H. inv_res. apply checkProjection_Ok in Hr0 as (Hp0 & Hi0 & Ecur).
  rewrite (Calendar_Dates_remaining c) in Hr1 by done. apply NewCalendar_Ok in Hr as [E Hpd].
  rewrite E in Hr2. destruct r2 as [o rows]. injection H as <-.
  apply project_walked in Hr2; [|done|lia|lia|by rewrite Ecur].
  destruct Hr2 as [(l & -> & Hl) Hpaid Htot _ _ _ _]. simpl in *.
  pose proof (exact_rows_conserve c (minor inst) r1 (drawdown c from) (minor principal)) as Hcons.
  exists r1. split; [done|]. split_and!; [done| |lia|lia|lia].
  apply exact_rows_sound; [done|]. by apply RemainingDates_ahead.
Qed.

Lemma Project_exact_witness :
  let principal := MkAmount 300000000 AMD in
  let inst := MkAmount 27500000 AMD in
  ∃ s, Project sample_contract principal inst zero_date = Ok s ∧ length (Rows s) = 12%nat ∧
  ∃ ds, minor (TotalPaid s) = 300000000 -
    final_balance 300000000 (exact_rows sample_contract 27500000 (MkDate 2024 1 31) ds 300000000) +
    minor (TotalInterest s).
Proof.
  eexists. split; [vm_compute; reflexivity|]. split; [reflexivity|].
  edestruct (Project_exact sample_contract (MkAmount 300000000 AMD) (MkAmount 27500000 AMD) zero_date)
    as (ds & _ & _ & _ & _ & _ & H).
  - apply sample_contract_wf.
  - apply sample_contract_wf.
  - right. reflexivity.
  - vm_compute. discriminate.
  - vm_compute. discriminate.
  - vm_compute. reflexivity.
  - exists ds. exact H.
Defined.
