(* ===== verification/Solve.v ===== *)
(** The smallest instalment that clears a loan:
    [pkg/core/amortisation/solve.go].

    The bisection loop runs on fuel. Each step halves [hi - lo], a difference
    of two [int64] figures, so 64 steps always suffice; [bisect_spec] proves
    it, and the out-of-fuel value never appears. *)
From S2P Require Import Prelude Money Dates Model Schedule.

Definition ceilDiv (a b : Z) : res Z :=
  if a <=? 0 then Ok 1 else idiv (isub (iadd a b) 1) b.

(** The closure [clears] of [Solve]. *)
Definition clears (c : Contract) (principal : Amount) (from : Date) (dates : list Date)
    (unit units : Z) : res bool :=
  '(out, _) ← project c principal (FromMinor (imul units unit) (cur principal)) from dates None;
  if Periods out =? 0 then Ok false else Ok (Sign (FinalClosing out) <=? 0).

Fixpoint bisect (fuel : nat) (clears : Z → res bool) (lo hi : Z) : res Z :=
  if lo <? hi
  then match fuel with
    | O => Panic "out of fuel"
    | S fuel =>
        let mid := iadd lo (Z.quot (isub hi lo) 2) in
        ok ← clears mid;
        if ok : bool then bisect fuel clears lo mid else bisect fuel clears (iadd mid 1) hi
    end
  else Ok hi.

Definition settlement_unit (c : Contract) : Z := if Unit (Rounding c) <=? 0 then 1 else Unit (Rounding c).

(** Interest to the first date: the bound settles everything there. *)
Definition upper_bound (c : Contract) (principal : Amount) (from : Date) (dates : list Date) : res Amount :=
  match dates with
  | [] => Panic "index out of range [0] with length 0"
  | first :: _ =>
      firstInterest ← wrap_err "amortisation: upper bound: %w"
        (Accrue principal (NominalRate c) (DaysBetween (drawdown c from) first) (ContractDayCount c)
          (Rounding c));
      wrap_err "amortisation: upper bound: %w" (Add principal firstInterest)
  end.

Definition Calendar_Solve (cal : Calendar) (principal : Amount) (from : Date) : res Amount :=
  let c := contract cal in
  if Sign principal <=? 0 then unsolvable "%w: principal must be positive"
  else
    let unit := settlement_unit c in
    dates ← Calendar_Dates cal from;
    hiAmount ← upper_bound c principal from dates;
    let lo := 1 in
    hi ← ceilDiv (minor hiAmount) unit;
    ok ← clears c principal from dates unit hi;
    if negb ok
    then unsolvable "%w: paying the full balance on the first instalment still leaves a balance at maturity"
    else
      hi ← bisect 64 (clears c principal from dates unit) lo hi;
      Ok (FromMinor (imul hi unit) (cur principal)).

Definition Solve (c : Contract) (principal : Amount) (from : Date) : res Amount :=
  cal ← or_checked
    (if Sign principal <=? 0 then unsolvable "%w: principal must be positive" else Ok tt)
    (NewCalendar c);
  Calendar_Solve cal principal from.

Definition Calendar_SolveAndProject (cal : Calendar) (principal : Amount) (from : Date) : res Schedule :=
  instalment ← Calendar_Solve cal principal from;
  dates ← Calendar_Dates cal from;
  '(out, rows) ← project (contract cal) principal instalment from dates (Some []);
  Ok (MkSchedule (default [] rows) instalment (OutFinalPayment out) (OutTotalPaid out)
    (OutTotalInterest out)).

Definition SolveAndProject (c : Contract) (principal : Amount) (from : Date) : res Schedule :=
  cal ← NewCalendar c;
  Calendar_SolveAndProject cal principal from.

(** * Bisection *)

Section Bisection.
Context (P : Z → res bool).

(** The loop ends on a success whose predecessor is a failure, or with the
    error of a probe: never without an answer. *)
Lemma bisect_spec fuel : ∀ lo hi,
  1 ≤ lo ≤ hi → hi ≤ MaxInt64 → hi - lo < 2 ^ Z.of_nat fuel → P hi = Ok true →
  (∃ r, bisect fuel P lo hi = Ok r ∧ lo ≤ r ≤ hi ∧ P r = Ok true ∧ (r = lo ∨ P (r - 1) = Ok false)) ∨
  (∃ m, lo ≤ m < hi ∧
    ((∃ e, P m = Err e ∧ bisect fuel P lo hi = Err e) ∨
     (∃ w, P m = Panic w ∧ bisect fuel P lo hi = Panic w))).
Proof.
  induction fuel as [|fuel IH]; intros lo hi Hlo Hhi Hf Hok.
  { change (2 ^ Z.of_nat 0) with 1 in Hf. left. exists hi. simpl.
    destruct (Z.ltb_spec lo hi); [lia|]. split_and!; try done; lia. }
  rewrite Nat2Z.inj_succ, Z.pow_succ_r in Hf by lia. cbn [bisect].
  destruct (Z.ltb_spec lo hi) as [Hlt|]; [|left; exists hi; split_and!; try done; lia].
  unfold isub, iadd. rewrite Z.quot_div_nonneg; [|rewrite i64_id by (unfold_i64; lia); lia|lia].
  rewrite (i64_id (hi - lo)) by (unfold_i64; lia).
  assert (lo ≤ lo + (hi - lo) / 2 < hi) as Hmid by (Z.div_mod_to_equations; lia).
  assert (hi - (lo + (hi - lo) / 2) ≤ 2 ^ Z.of_nat fuel) as Hgap by (Z.div_mod_to_equations; lia).
  assert ((lo + (hi - lo) / 2) - lo < 2 ^ Z.of_nat fuel) as Hgap' by (Z.div_mod_to_equations; lia).
  rewrite i64_id by (unfold_i64; lia). set (mid := lo + (hi - lo) / 2) in *.
  rewrite (i64_id (mid + 1)) by (unfold_i64; lia).
  destruct (P mid) as [[]|e|w] eqn:E; simpl; [| |right; exists mid; eauto..].
  - destruct (IH lo mid) as [(r & Hr & Hb & Hp & Hmin)|(m & Hm & He)]; [lia|lia|lia|done| |].
    + left. exists r. split_and!; done || lia.
    + right. exists m. split; [lia|done].
  - destruct (IH (mid + 1) hi) as [(r & Hr & Hb & Hp & Hmin)|(m & Hm & He)]; [lia|lia|lia|done| |].
    + left. exists r. split_and!; try done; try lia. right.
      destruct Hmin as [-> |]; [|done]. by rewrite Z.add_simpl_r.
    + right. exists m. split; [lia|done].
Qed.
End Bisection.
Arguments bisect : simpl never.

Lemma settlement_unit_of c : settlement_unit c = unit_of (Rounding c).
Proof. unfold settlement_unit, unit_of. destruct (Z.leb_spec (Unit (Rounding c)) 0), (Z.ltb_spec (Unit (Rounding c)) 1); lia. Qed.

Lemma ceilDiv_spec a b h :
  1 ≤ a → 1 ≤ b → a + b - 1 ≤ MaxInt64 → ceilDiv a b = Ok h →
  1 ≤ h ∧ a ≤ h * b ≤ a + b - 1.
Proof.
  intros Ha Hb Hm. unfold ceilDiv, isub, iadd, idiv. destruct (Z.leb_spec a 0); [lia|].
  destruct (Z.eqb_spec b 0); [lia|].
  change (i64 (a + b) - 1) with (i64 (a + b) + -1).
  rewrite i64_add_l, (i64_id (a + b + -1)), Z.quot_div_nonneg by (unfold_i64; lia).
  assert (0 ≤ (a + b + -1) / b ≤ a + b - 1) as Hq.
  { split; [apply Z.div_pos; lia|]. apply Z.div_le_upper_bound; nia. }
  rewrite i64_id by (unfold_i64; lia). intros [= <-].
  destruct (div_mod_facts (a + b + -1) b ltac:(lia)) as [E Hr]. split; [|nia].
  apply Z.div_le_lower_bound; lia.
Qed.

(** * The predicate bisection searches *)

Lemma exact_rows_no_payment c ds : ∀ prev b,
  wf_terms c → ahead prev ds → 0 ≤ b → sum_by xpayment (exact_rows c 0 prev ds b) = 0.
Proof.
  induction ds as [|d ds IH]; intros prev b Ht Ha Hb; [done|]. simpl.
  pose proof (interest_on_nonneg c b _ Ht Hb (ahead_days _ _ _ Ha)) as Hi.
  destruct (Z.leb_spec b 0); [done|]. unfold owed_on. rewrite Z.min_l by lia. unfold sum_by. simpl.
  unfold sum_by in IH. rewrite IH; [done|done|apply Ha|lia].
Qed.

Section Clears.
Context (c : Contract) (principal : Amount) (from : Date) (ds : list Date).
Context (Hterms : wf_terms c) (Hp : 0 < minor principal ≤ MaxInt64).
Context (Hds : ahead (drawdown c from) ds) (Hne : ds ≠ []).

(** What is left at maturity under an instalment, in exact arithmetic. *)
Definition left_owed (inst : Z) : Z :=
  final_balance (minor principal) (exact_rows c inst (drawdown c from) ds (minor principal)).

Lemma exact_rows_ne inst : exact_rows c inst (drawdown c from) ds (minor principal) ≠ [].
Proof using Hp Hne Hds.
  destruct ds as [|d l]; [done|]. simpl. destruct (Z.leb_spec (minor principal) 0); [lia|done].
Qed.

Lemma left_owed_mono inst inst' : inst ≤ inst' → 0 ≤ left_owed inst' ≤ left_owed inst.
Proof using Hterms Hp Hds. intros. apply final_balance_mono; [done..|lia]. Qed.

Lemma clears_Ok unit u b :
  1 ≤ u → 1 ≤ unit → u * unit ≤ MaxInt64 →
  clears c principal from ds unit u = Ok b → b = (left_owed (u * unit) <=? 0).
Proof using Hterms Hp Hne Hds.
  intros Hu Hun Hm H. unfold clears, imul in H. rewrite i64_id in H by (unfold_i64; nia).
  apply bind_Ok in H as ([o r] & H & Hb).
  apply project_walked in H; [|done|simpl; nia|lia|done].
  destruct H as [_ _ _ Hn Hcl _ _]. simpl in Hn, Hcl.
  pose proof (exact_rows_ne (u * unit)) as Hrows.
  assert (0 < length (exact_rows c (u * unit) (drawdown c from) ds (minor principal)))%nat as Hlen.
  { destruct (exact_rows _ _ _ _ _); [done|simpl; lia]. }
  destruct (Z.eqb_spec (Periods o) 0); [lia|]. injection Hb as <-. unfold left_owed. rewrite <- Hcl by lia.
  unfold Sign. repeat case_match; lia.
Qed.
(** What the bound costs: everything owed on the first date. *)
Lemma upper_bound_Ok d rest a :
  ds = d :: rest →
  upper_bound c principal from ds = Ok a ↔
  (NominalRate c = 0 ∨ minor principal * DaysBetween (drawdown c from) d ≤ MaxInt64) ∧
  owed_on c (minor principal) (DaysBetween (drawdown c from) d) ≤ MaxInt64 ∧
  a = MkAmount (owed_on c (minor principal) (DaysBetween (drawdown c from) d)) (cur principal).
Proof using Hterms Hp Hds.
  intros E. rewrite E in Hds |- *. pose proof (ahead_days _ _ _ Hds) as Hd. clear E.
  unfold upper_bound. pose proof (DaysBetween_max (drawdown c from) d) as Hmax.
  set (days := DaysBetween (drawdown c from) d) in *.
  pose proof (interest_on_nonneg c (minor principal) days Hterms ltac:(lia) Hd) as Hi0.
  pose proof (interest_on_rate0 c (minor principal) days) as Hr0. unfold owed_on.
  set (int := interest_on c (minor principal) days) in *.
  trans ((NominalRate c = 0 ∨ minor principal * days ≤ MaxInt64 ∧ int ≤ MaxInt64) ∧
    minor principal + int ≤ MaxInt64 ∧ a = MkAmount (minor principal + int) (cur principal));
    [|naive_solver lia].
  apply (bind_chain _ _ _ (MkAmount int (cur principal))).
  { intros x. rewrite wrap_err_Ok. apply Accrue_Ok_iff; [done|unfold_i64; lia|lia|unfold_i64; lia]. }
  intros H1. assert (int ≤ MaxInt64) by (unfold_i64; naive_solver lia).
  rewrite wrap_err_Ok, Add_nonneg_iff by (simpl; done || lia). done.
Qed.

(** Paying at least that on the first date ends the loan there. *)
Lemma clears_bound a unit h :
  upper_bound c principal from ds = Ok a → 1 ≤ h → 1 ≤ unit → minor a ≤ h * unit ≤ MaxInt64 →
  clears c principal from ds unit h = Ok true.
Proof using Hterms Hp Hne Hds.
  intros Hub Hh Hu Ha. assert (∃ d rest, ds = d :: rest) as (d & rest & E) by (destruct ds; eauto; done).
  pose proof (proj1 (upper_bound_Ok d rest a E) Hub) as (H1 & H2 & ->). simpl in Ha.
  pose proof Hds as Hahead. rewrite E in Hahead |- *.
  unfold clears, imul. rewrite i64_id by (unfold_i64; nia).
  set (inst := FromMinor (h * unit) (cur principal)).
  assert (0 ≤ minor inst ≤ MaxInt64) as Hin by (simpl; nia).
  pose proof (walking_start inst principal ltac:(lia) eq_refl) as Hw.
  pose proof (ahead_days _ _ _ Hahead) as Hd.
  set (days := DaysBetween (drawdown c from) d) in *.
  assert (row_fits c inst (minor principal) days 0 0) as Hfits.
  { unfold row_fits, owed_on in *. split_and!; simpl; try done; lia. }
  pose proof (walking_step c inst Hterms Hin d principal _ (drawdown c from) Hw ltac:(lia) Hfits) as [Hpay _].
  assert (project c principal inst from (d :: rest) None =
    Ok (next_out c inst principal (drawdown c from) d (start_outcome (cur principal)), None)) as ->.
  { apply project_step; [done|done|done|lia|]. split; [exact Hfits|].
    assert (minor (next_balance c inst principal (drawdown c from) d) = 0) as Hz.
    { change (owed_on c (minor principal) days - minor (next_payment c inst principal (drawdown c from) d) = 0).
      rewrite Hpay. fold days. simpl. lia. }
    destruct rest as [|d' rest']; [done|]. cbn [project_from].
    assert ((Sign (next_balance c inst principal (drawdown c from) d) <=? 0) = true) as ->
      by (unfold Sign; rewrite Hz; done). done. }
  simpl. change (1 =? 0) with false. cbv match. f_equal.
  change (FinalClosing _) with (next_balance c inst principal (drawdown c from) d).
  assert (minor (next_balance c inst principal (drawdown c from) d) = 0) as Hz.
  { change (owed_on c (minor principal) days - minor (next_payment c inst principal (drawdown c from) d) = 0).
    rewrite Hpay. fold days. simpl. lia. }
  unfold Sign. by rewrite Hz.
Qed.

(** If the loan could run to maturity unpaid without leaving [int64], every
    probe is answered. *)
Lemma clears_total unit u o r :
  1 ≤ u → 1 ≤ unit → u * unit ≤ MaxInt64 →
  project c principal (Zero (cur principal)) from ds None = Ok (o, r) →
  is_ok (clears c principal from ds unit u) = true.
Proof using Hterms Hp Hne Hds.
  intros Hu Hun Hm H. unfold clears, imul. rewrite i64_id by (unfold_i64; nia).
  pose proof (walking_start (Zero (cur principal)) principal ltac:(lia) eq_refl) as Hw.
  pose proof (walking_start (FromMinor (u * unit) (cur principal)) principal ltac:(lia) eq_refl) as Hw'.
  assert (0 ≤ minor (Zero (cur principal)) ≤ MaxInt64) as Hz by (unfold MaxInt64; simpl; lia).
  pose proof (project_walked _ _ principal _ _ _ _ _ Hterms Hz ltac:(lia) eq_refl H) as [_ Hpd Hti _ _ _ Hmax].
  pose proof (exact_rows_conserve c 0 ds (drawdown c from) (minor principal)) as Hcons.
  simpl in *. rewrite exact_rows_no_payment in Hcons by (done || lia).
  destruct (project_from_mono c (Zero (cur principal)) (FromMinor (u * unit) (cur principal)) ds
    Hterms ltac:(simpl; nia) ltac:(simpl; lia) 0 0 principal principal (drawdown c from) _ _ o None None r
    Hw Hw' Hds) as [o' Ho']; [lia|simpl; lia|simpl; lia|exact H|simpl; lia|].
  unfold project. rewrite Ho'. destruct o' as [o' r']. simpl. by destruct (Periods o' =? 0).
Qed.
End Clears.

(** * The solver *)

(** Figures far enough inside [int64] that rounding the bound up to a whole
    unit does not wrap. *)
Definition bound_fits (c : Contract) (principal : Amount) (from : Date) : Prop :=
  ∀ ds b, RemainingDates c from = Ok ds → upper_bound c principal from ds = Ok b →
  minor b + unit_of (Rounding c) - 1 ≤ MaxInt64.

Lemma RemainingDates_nonempty c from ds : RemainingDates c from = Ok ds → ds ≠ [].
Proof.
  unfold RemainingDates, remainingFrom. rewrite bind_Ok. intros (l & Hl & H).
  apply PaymentDates_Ok in Hl as (_ & _ & _ & _ & Hl).
  destruct (Dates.IsZero from && Dates.IsZero (NotBeforeDue c))%bool.
  - injection H as <-. intros ->. simpl in Hl. lia.
  - destruct (drop_passed c from l); [done|]. by injection H as <-.
Qed.

(** The search, once its inputs are resolved. *)
Lemma Calendar_Solve_eq c cal principal from ds b :
  NewCalendar c = Ok cal → RemainingDates c from = Ok ds → 0 < minor principal →
  upper_bound c principal from ds = Ok b →
  Calendar_Solve cal principal from =
    (hi ← ceilDiv (minor b) (unit_of (Rounding c));
     ok ← clears c principal from ds (unit_of (Rounding c)) hi;
     if negb ok
     then unsolvable "%w: paying the full balance on the first instalment still leaves a balance at maturity"
     else hi ← bisect 64 (clears c principal from ds (unit_of (Rounding c))) 1 hi;
       Ok (FromMinor (imul hi (unit_of (Rounding c))) (cur principal))).
Proof.
  intros Hcal Hrem Hp Hub. unfold Calendar_Solve. cbv zeta.
  assert ((Sign principal <=? 0) = false) as -> by (unfold Sign; repeat case_match; lia).
  rewrite (Calendar_Dates_remaining c), Hrem, settlement_unit_of by done.
  apply NewCalendar_Ok in Hcal as [-> _]. cbn [mbind result_bind]. rewrite Hub. reflexivity.
Qed.

(** What a run of the solver comes down to. *)
Lemma Calendar_Solve_cases c cal principal from ds b :
  NewCalendar c = Ok cal → RemainingDates c from = Ok ds →
  wf_terms c → wf_dates c → valid from ∨ Dates.IsZero from = true →
  0 < minor principal ≤ MaxInt64 → bound_fits c principal from →
  upper_bound c principal from ds = Ok b →
  (∃ u, Calendar_Solve cal principal from = Ok (MkAmount (u * unit_of (Rounding c)) (cur principal)) ∧
    1 ≤ u ∧ u * unit_of (Rounding c) ≤ MaxInt64 ∧
    clears c principal from ds (unit_of (Rounding c)) u = Ok true ∧
    (u = 1 ∨ clears c principal from ds (unit_of (Rounding c)) (u - 1) = Ok false)) ∨
  (∃ u, 1 ≤ u ∧ u * unit_of (Rounding c) ≤ MaxInt64 ∧
    is_ok (clears c principal from ds (unit_of (Rounding c)) u) = false ∧
    is_ok (Calendar_Solve cal principal from) = false).
Proof.
  intros Hcal Hrem Ht Hc Hf Hp Hbound Hub. pose proof (unit_of_pos (Rounding c)) as Hu.
  destruct (RemainingDates_ahead c from ds Hc Hf Hrem) as [Ha _].
  pose proof (RemainingDates_nonempty c from ds Hrem) as Hne.
  specialize (Hbound ds b Hrem Hub).
  assert (minor principal ≤ minor b) as Hpb.
  { destruct ds as [|d rest] eqn:E; [done|]. rewrite <- E in Hub, Ha.
    apply (upper_bound_Ok c principal from ds Ht Hp Ha d rest b E) in Hub as (_ & _ & ->). simpl.
    unfold owed_on. rewrite E in Ha.
    pose proof (interest_on_nonneg c (minor principal) _ Ht ltac:(lia) (ahead_days _ _ _ Ha)). lia. }
  rewrite (Calendar_Solve_eq c cal principal from ds b) by (done || lia).
  destruct (ceilDiv (minor b) (unit_of (Rounding c))) as [hi| |] eqn:Eh.
  2-3: exfalso; revert Eh; unfold ceilDiv, idiv; destruct (minor b <=? 0); [done|];
       destruct (Z.eqb_spec (unit_of (Rounding c)) 0); done || lia.
  apply ceilDiv_spec in Eh as [Hhi Hhb]; [|lia|lia|lia]. rewrite bind_of_Ok.
  pose proof (clears_bound c principal from ds Ht Hp Ha Hne b _ hi Hub Hhi Hu ltac:(lia)) as Hok.
  rewrite Hok, bind_of_Ok. cbv beta. change (negb true) with false. cbv match.
  assert (hi ≤ MaxInt64 ∧ hi - 1 < 2 ^ Z.of_nat 64) as [Hhm Hhf] by (unfold_i64; nia).
  destruct (bisect_spec (clears c principal from ds (unit_of (Rounding c))) 64 1 hi)
    as [(r & Hr & Hrb & Hrt & Hpred)|(m & Hm & He)]; [lia|done|done|done| |].
  - left. exists r. rewrite Hr, bind_of_Ok. unfold imul. rewrite i64_id by (unfold_i64; nia).
    split_and!; try done; nia.
  - right. exists m. split_and!; [lia|nia| |].
    + by destruct He as [(e & -> & _)|(w & -> & _)].
    + destruct He as [(e & _ & ->)|(w & _ & ->)]; by rewrite ?bind_of_Err, ?bind_of_Panic.
Qed.

Lemma Solve_calendar c principal from a :
  Solve c principal from = Ok a →
  ∃ cal ds b, NewCalendar c = Ok cal ∧ RemainingDates c from = Ok ds ∧
  upper_bound c principal from ds = Ok b ∧ 0 < minor principal ∧ Calendar_Solve cal principal from = Ok a.
Proof.
  unfold Solve. rewrite bind_Ok. intros (cal & Hcal%or_checked_Ok & H). pose proof H as Hs.
  unfold Calendar_Solve in H. destruct (Sign principal <=? 0) eqn:Es; [done|].
  rewrite (Calendar_Dates_remaining c) in H by done. apply NewCalendar_Ok in Hcal as E.
  destruct E as [E _]. rewrite E in H.
  apply bind_Ok in H as (ds & Hds & H). apply bind_Ok in H as (b & Hb & H).
  exists cal, ds, b. split_and!; try done. unfold Sign in Es. repeat case_match; lia.
Qed.

(** A solved instalment: representable, payable in whole units, settling the
    loan, with nothing smaller that does. *)
Lemma Calendar_Solve_sound c cal principal from a :
  NewCalendar c = Ok cal → wf_terms c → wf_dates c → valid from ∨ Dates.IsZero from = true →
  minor principal ≤ MaxInt64 → bound_fits c principal from →
  Calendar_Solve cal principal from = Ok a →
  ∃ ds u, RemainingDates c from = Ok ds ∧ ahead (drawdown c from) ds ∧ ds ≠ [] ∧
  0 < minor principal ∧ a = MkAmount (u * unit_of (Rounding c)) (cur principal) ∧ 1 ≤ u ∧
  0 < minor a ≤ MaxInt64 ∧ left_owed c principal from ds (minor a) = 0 ∧
  ∀ u', 1 ≤ u' < u → 0 < left_owed c principal from ds (u' * unit_of (Rounding c)).
Proof.
  intros Hcal Ht Hc Hf Hp Hbound H.
  assert (Solve c principal from = Ok a) as Hs by (unfold Solve; by rewrite Hcal).
  apply Solve_calendar in Hs as (cal' & ds & b & Hcal' & Hrem & Hub & Hp0 & _).
  pose proof (unit_of_pos (Rounding c)) as Hu.
  destruct (RemainingDates_ahead c from ds Hc Hf Hrem) as [Ha _].
  pose proof (RemainingDates_nonempty c from ds Hrem) as Hne.
  assert (0 < minor principal ≤ MaxInt64) as Hpp by lia.
  destruct (Calendar_Solve_cases c cal principal from ds b Hcal Hrem Ht Hc Hf Hpp Hbound Hub)
    as [(u & E & Hu1 & Hum & Hct & Hcf)|(u & _ & _ & _ & E)]; rewrite H in E; [|done].
  injection E as ->. exists ds, u. split_and!; try done; simpl; [nia| |].
  - apply clears_Ok in Hct; [|done..]. pose proof (left_owed_mono c principal from ds Ht Hpp Ha
      (u * unit_of (Rounding c)) (u * unit_of (Rounding c)) ltac:(lia)). lia.
  - intros u' Hu'. destruct Hcf as [->|Hcf]; [lia|].
    apply clears_Ok in Hcf; [|done || lia || nia..].
    pose proof (left_owed_mono c principal from ds Ht Hpp Ha (u' * unit_of (Rounding c))
      ((u - 1) * unit_of (Rounding c)) ltac:(nia)). lia.
Qed.

(** * Properties *)

(** C30. [Solve] returns the smallest level instalment a lender can collect. It
    is a whole number of settlement units, paying it leaves exactly nothing at
    maturity, and every smaller positive number of units leaves a debt — both
    judged by the exact schedule, not by the search. *)
Theorem Solve_least c principal from a :
  wf_terms c → wf_dates c → valid from ∨ Dates.IsZero from = true →
  minor principal ≤ MaxInt64 → bound_fits c principal from →
  Solve c principal from = Ok a →
  ∃ ds u, RemainingDates c from = Ok ds ∧
  a = MkAmount (u * unit_of (Rounding c)) (cur principal) ∧ 1 ≤ u ∧
  left_owed c principal from ds (minor a) = 0 ∧
  ∀ u', 1 ≤ u' < u → 0 < left_owed c principal from ds (u' * unit_of (Rounding c)).
Proof.
  intros Ht Hc Hf Hp Hbound H. apply Solve_calendar in H as (cal & _ & _ & Hcal & _ & _ & _ & H).
  destruct (Calendar_Solve_sound c cal principal from a Hcal Ht Hc Hf Hp Hbound H)
    as (ds & u & Hrem & _ & _ & _ & -> & Hu & _ & Hl & Hleast). by exists ds, u.
Qed.

Lemma sample_bound_fits : bound_fits sample_contract (MkAmount 300000000 AMD) zero_date.
Proof.
  intros ds b Hd Hb.
  assert (match RemainingDates sample_contract zero_date with
    | Ok ds => match upper_bound sample_contract (MkAmount 300000000 AMD) zero_date ds with
      | Ok b => minor b + 9 <=? MaxInt64 | _ => true end
    | _ => true end = true) as H by (vm_compute; reflexivity).
  rewrite Hd, Hb in H. change (unit_of (Rounding sample_contract)) with 10. lia.
Qed.

Lemma Solve_least_witness :
  ∃ a, Solve sample_contract (MkAmount 300000000 AMD) zero_date = Ok a ∧
  ∃ ds, left_owed sample_contract (MkAmount 300000000 AMD) zero_date ds (minor a) = 0.
Proof.
  eexists. split; [vm_compute; reflexivity|].
  edestruct (Solve_least sample_contract (MkAmount 300000000 AMD) zero_date)
    as (ds & u & _ & E & _ & H & _).
  - apply sample_contract_wf.
  - apply sample_contract_wf.
  - right. reflexivity.
  - vm_compute. discriminate.
  - apply sample_bound_fits.
  - vm_compute. reflexivity.
  - exists ds. exact H.
Defined.

(** [Solve] always finds it. If the loan could even run to maturity unpaid
    without a balance leaving [int64], no probe fails, the search ends within
    its 64 halvings, and an instalment is returned. *)
Theorem Solve_total c principal from ds o r :
  wf_terms c → wf_dates c → valid from ∨ Dates.IsZero from = true →
  0 < minor principal ≤ MaxInt64 → bound_fits c principal from →
  RemainingDates c from = Ok ds →
  project c principal (Zero (cur principal)) from ds None = Ok (o, r) →
  ∃ a, Solve c principal from = Ok a.
Proof.
  intros Ht Hc Hf Hp Hbound Hrem Hproj. pose proof (unit_of_pos (Rounding c)) as Hu.
  destruct (RemainingDates_ahead c from ds Hc Hf Hrem) as [Ha _].
  pose proof (RemainingDates_nonempty c from ds Hrem) as Hne.
  assert (∃ cal, NewCalendar c = Ok cal) as [cal Hcal].
  { unfold RemainingDates in Hrem. apply bind_Ok in Hrem as (l & Hl & _). unfold NewCalendar. rewrite Hl. by eexists. }
  assert (∃ b, upper_bound c principal from ds = Ok b) as [b Hub].
  { destruct ds as [|d rest] eqn:E; [done|]. rewrite <- E in Ha |- *. eexists.
    apply (upper_bound_Ok c principal from ds Ht Hp Ha d rest _ E).
    unfold project in Hproj. apply project_step in Hproj as [(_ & H1 & H2 & _) _];
      [done|done|simpl; unfold MaxInt64; lia|by apply walking_start; [lia|]|lia]. }
  destruct (Calendar_Solve_cases c cal principal from ds b Hcal Hrem Ht Hc Hf Hp Hbound Hub)
    as [(u & E & _)|(u & H1 & H2 & H3 & _)].
  - eexists. unfold Solve. rewrite Hcal. exact E.
  - rewrite (clears_total c principal from ds Ht Hp Ha Hne _ u o r) in H3; done.
Qed.

Lemma Solve_total_witness :
  ∃ ds o r, RemainingDates sample_contract zero_date = Ok ds ∧
  project sample_contract (MkAmount 300000000 AMD) (Zero AMD) zero_date ds None = Ok (o, r) ∧
  ∃ a, Solve sample_contract (MkAmount 300000000 AMD) zero_date = Ok a.
Proof.
  eexists _, _, _. split; [vm_compute; reflexivity|]. split; [vm_compute; reflexivity|].
  eapply (Solve_total sample_contract (MkAmount 300000000 AMD) zero_date).
  - apply sample_contract_wf.
  - apply sample_contract_wf.
  - right. reflexivity.
  - split; [reflexivity|vm_compute; discriminate].
  - apply sample_bound_fits.
  - vm_compute. reflexivity.
  - vm_compute. reflexivity.
Defined.

(** The solved schedule settles the loan: the instalment reported is the
    one [Solve] found, the rows are the exact schedule under it, the balance
    after the last row is zero, and the borrower pays the principal plus the
    interest charged, to the last minor unit. *)
Theorem SolveAndProject_settles c principal from s :
  wf_terms c → wf_dates c → valid from ∨ Dates.IsZero from = true →
  minor principal ≤ MaxInt64 → bound_fits c principal from →
  SolveAndProject c principal from = Ok s →
  Solve c principal from = Ok (Instalment s) ∧
  ∃ ds, RemainingDates c from = Ok ds ∧
  to_exact <$> Rows s =
    exact_rows c (minor (Instalment s)) (drawdown c from) ds (minor principal) ∧
  final_balance (minor principal) (to_exact <$> Rows s) = 0 ∧
  minor (TotalPaid s) = minor principal + minor (TotalInterest s).
Proof.
  intros Ht Hc Hf Hp Hbound H. unfold SolveAndProject in H. apply bind_Ok in H as (cal & Hcal & H).
  unfold Calendar_SolveAndProject in H. apply bind_Ok in H as (a & Ha & H).
  apply bind_Ok in H as (ds & Hds & H). rewrite (Calendar_Dates_remaining c) in Hds by done.
  apply bind_Ok in H as ([o rows] & Hproj & [= <-]). simpl.
  split; [unfold Solve; by rewrite Hcal|].
  destruct (Calendar_Solve_sound c cal principal from a Hcal Ht Hc Hf Hp Hbound Ha)
    as (ds' & u & Hrem & Hahead & Hne & Hp0 & Ea & Hu & Ham & Hl & _).
  assert (ds' = ds) as -> by congruence. exists ds.
  apply NewCalendar_Ok in Hcal as [Ec _]. rewrite Ec in Hproj.
  apply project_walked in Hproj; [|done|lia|lia|by rewrite Ea].
  destruct Hproj as [(l & -> & Hl') Hpd Hti _ _ _ _]. simpl in *. unfold left_owed in Hl.
  pose proof (exact_rows_conserve c (minor a) ds (drawdown c from) (minor principal)).
  split_and!; [done|done|by rewrite Hl'|lia].
Qed.

Lemma SolveAndProject_settles_witness :
  ∃ s, SolveAndProject sample_contract (MkAmount 300000000 AMD) zero_date = Ok s ∧
  length (Rows s) = 12%nat ∧ final_balance 300000000 (to_exact <$> Rows s) = 0.
Proof.
  eexists. split; [vm_compute; reflexivity|]. split; [reflexivity|].
  edestruct (SolveAndProject_settles sample_contract (MkAmount 300000000 AMD) zero_date)
    as (_ & ds & _ & _ & H & _).
  - apply sample_contract_wf.
  - apply sample_contract_wf.
  - right. reflexivity.
  - vm_compute. discriminate.
  - apply sample_bound_fits.
  - vm_compute. reflexivity.
  - exact H.
Defined.
