(* ===== verification/Declining.v ===== *)
(** Equal-principal schedules: [pkg/core/amortisation/declining.go]. *)
From S2P Require Import Prelude Money Dates Model Schedule Solve.

(** The bank's stated instalment is compared on its own due date only. *)
Definition disagrees (c : Contract) (due : Date) (payment : Amount) : res bool :=
  if HasScheduled c && negb (Dates.IsZero (NotBeforeDue c)) && Equal due (NotBeforeDue c)
  then o ← Cmp payment (ScheduledPayment c); Ok (negb (o =? 0))
  else Ok false.

(** The loop: row [i] of [n], on what is still owed. *)
Fixpoint declining_from (c : Contract) (per : Amount) (n : Z) (dates : list Date) (i : Z)
    (balance : Amount) (prev : Date) (out : outcome) (rows : option (list Row)) :
    res (outcome * option (list Row)) :=
  match dates with
  | [] => Ok (out, rows)
  | due :: rest =>
      let days := DaysBetween prev due in
      if days <? 0 then unsolvable "%w: instalment %s precedes %s"
      else
        interest ← row_err (Accrue balance (NominalRate c) days (ContractDayCount c) (Rounding c));
        principalPart ← (if i =? n - 1 then Ok balance
          else o ← Cmp balance per; Ok (if o <? 0 then balance else per));
        payment ← row_err (Add principalPart interest);
        differs ← disagrees c due payment;
        if differs : bool
        then unsolvable "%w: bank instalment differs from the declining schedule"
        else
          closing ← row_err (Sub balance principalPart);
          let rows := append_row rows
            (MkRow (i + 1) due days balance interest principalPart payment closing) in
          paid ← row_err (Add (OutTotalPaid out) payment);
          total ← row_err (Add (OutTotalInterest out) interest);
          let out := record_row out due interest principalPart payment closing paid total in
          if Sign closing =? 0 then Ok (out, rows)
          else declining_from c per n rest (i + 1) closing due out rows
  end.

(** [principal / n / unit * unit]: rounded down to a payable amount. *)
Definition per_period (principal : Amount) (n unit : Z) : res Amount :=
  q ← idiv (minor principal) n;
  q ← idiv q unit;
  Ok (FromMinor (imul q unit) (cur principal)).

Definition projectDeclining (c : Contract) (principal : Amount) (from : Date) (dates : list Date)
    (rows : option (list Row)) : res (outcome * option (list Row)) :=
  let n := Z.of_nat (length dates) in
  per ← per_period principal n (settlement_unit c);
  declining_from c per n dates 0 principal (drawdown c from) (start_outcome (cur principal)) rows.

Definition decliningDates (cal : Calendar) (principal : Amount) (from : Date) : res (list Date) :=
  if Sign principal <=? 0 then unsolvable "%w: principal must be positive"
  else Calendar_Dates cal from.

Definition Calendar_ProjectDeclining (cal : Calendar) (principal : Amount) (from : Date) : res Schedule :=
  dates ← decliningDates cal principal from;
  '(out, rows) ← projectDeclining (contract cal) principal from dates (Some []);
  let '(first, final) :=
    if 0 <? Periods out then (FirstPayment out, OutFinalPayment out) else (no_amount, no_amount) in
  Ok (MkSchedule (default [] rows) first final (OutTotalPaid out) (OutTotalInterest out)).

Definition ProjectDeclining (c : Contract) (principal : Amount) (from : Date) : res Schedule :=
  cal ← or_checked
    (if Sign principal <=? 0 then unsolvable "%w: principal must be positive" else Ok tt)
    (NewCalendar c);
  Calendar_ProjectDeclining cal principal from.

(** * The exact schedule *)

(** Each row repays the same principal, the last one whatever is left. *)
Fixpoint exact_declining (c : Contract) (per : Z) (prev : Date) (ds : list Date) (b : Z) :
    list exact_row :=
  match ds with
  | [] => []
  | due :: rest =>
      let days := DaysBetween prev due in
      let int := interest_on c b days in
      let part := match rest with [] => b | _ => Z.min b per end in
      MkExact due days b int (part + int) (b - part) ::
      (if b - part =? 0 then [] else exact_declining c per due rest (b - part))
  end.

Section Walk.
Context (c : Contract) (per : Amount) (n : Z).
Context (Hterms : wf_terms c) (Hper : 0 ≤ minor per ≤ MaxInt64).

Definition row_part (i : Z) (balance : Amount) : Amount :=
  if i =? n - 1 then balance else if minor balance <? minor per then balance else per.

Lemma disagrees_Ok due payment b :
  disagrees c due payment = Ok b →
  b = HasScheduled c && negb (Dates.IsZero (NotBeforeDue c)) && Equal due (NotBeforeDue c) &&
    negb (minor payment =? minor (ScheduledPayment c)).
Proof using Type.
  unfold disagrees. destruct (_ && _ && _)%bool; [|by intros [= <-]]. rewrite bind_Ok.
  intros (o & [_ ->]%Cmp_Ok & [= <-]). simpl. repeat case_match; lia.
Qed.

(** A row that went through. *)
Lemma declining_step due rest i balance prev out rows r :
  walking per balance out →
  declining_from c per n (due :: rest) i balance prev out rows = Ok r →
  let days := DaysBetween prev due in
  let int := interest_on c (minor balance) days in
  let part := row_part i balance in
  let payment := MkAmount (minor part + int) (cur part) in
  let closing := MkAmount (minor balance - minor part) (cur balance) in
  let out' := record_row out due (MkAmount int (cur balance)) part payment closing
    (MkAmount (minor (OutTotalPaid out) + minor payment) (cur (OutTotalPaid out)))
    (MkAmount (minor (OutTotalInterest out) + int) (cur (OutTotalInterest out))) in
  let rows' := append_row rows
    (MkRow (i + 1) due days balance (MkAmount int (cur balance)) part payment closing) in
  (HasScheduled c = true → Dates.IsZero (NotBeforeDue c) = false → due = NotBeforeDue c →
    minor payment = minor (ScheduledPayment c)) ∧
  0 ≤ days ∧ walking per closing out' ∧
  (if minor closing =? 0 then Ok (out', rows')
   else declining_from c per n rest (i + 1) closing due out' rows') = Ok r.
Proof using Hterms Hper.
  intros [Hb Hp Hti Hc1 Hc2 Hc3 Hn _] H. cbv zeta. cbn [declining_from] in H.
  pose proof (DaysBetween_max prev due) as Hmax. set (days := DaysBetween prev due) in *.
  destruct (Z.ltb_spec days 0); [done|]. set (b := minor balance) in *.
  apply bind_Ok in H as (int & Hint & H). apply row_err_Ok, Accrue_Ok_iff in Hint;
    [|done|unfold_i64; lia|fold b; lia|unfold_i64; lia].
  destruct Hint as [Hint ->]. fold b in Hint, H.
  change (accrual b (NominalRate c) days (ContractDayCount c) (Rounding c)) with (interest_on c b days) in *.
  pose proof (interest_on_nonneg c b days Hterms ltac:(lia) ltac:(lia)) as Hi0.
  pose proof (interest_on_rate0 c b days) as Hr0. set (int := interest_on c b days) in *.
  assert (int ≤ MaxInt64) as Him by (unfold_i64; naive_solver lia).
  apply bind_Ok in H as (part & Hpart & H).
  assert (part = row_part i balance) as ->.
  { unfold row_part. destruct (i =? n - 1); [by injection Hpart|].
    apply bind_Ok in Hpart as (o & [_ ->]%Cmp_Ok & [= <-]). repeat case_match; done || lia. }
  clear Hpart. set (part := row_part i balance) in *.
  assert (0 ≤ minor part ≤ b ∧ Code (cur part) = Code (cur balance)) as [Hpb Hpc].
  { unfold part, row_part. destruct (i =? n - 1); [split; [lia|done]|].
    destruct (Z.ltb_spec (minor balance) (minor per)); split; try done; lia. }
  apply bind_Ok in H as (pay & Hpay & H).
  apply row_err_Ok, Add_nonneg_iff in Hpay; [|lia|simpl; lia|done]. destruct Hpay as [Hpm ->]. simpl in Hpm.
  apply bind_Ok in H as (differs & Hdis & H). apply disagrees_Ok in Hdis.
  destruct differs; [done|]. apply bind_Ok in H as (closing & Hcl & H).
  apply row_err_Ok, Sub_nonneg_iff in Hcl; [|lia|lia|done]. subst closing. fold b in H.
  apply bind_Ok in H as (paid & Hpaid & H).
  apply row_err_Ok, Add_nonneg_iff in Hpaid; [|lia|simpl; lia|simpl; congruence]. destruct Hpaid as [Hpdm ->].
  apply bind_Ok in H as (total & Htot & H).
  apply row_err_Ok, Add_nonneg_iff in Htot; [|lia|simpl; lia|simpl; congruence]. destruct Htot as [Htm ->].
  simpl in Hpdm, Htm. cbn [minor cur] in H.
  split_and!.
  - intros E1 E2 E3. rewrite E1, E2 in Hdis. unfold Equal in Hdis.
    rewrite bool_decide_eq_true_2 in Hdis by done. simpl in *. lia.
  - done.
  - unfold record_row. destruct (Periods out + 1 =? 1); split; simpl; try done; try lia; congruence.
  - rewrite <- H. unfold Sign. simpl. fold b. repeat case_match; lia || done.
Qed.

Record declined (prev : Date) (ds : list Date) (balance : Amount) (out out' : outcome)
    (rows rows' : option (list Row)) : Prop := {
  declined_rows : ∃ l, rows' = (λ k, k ++ l) <$> rows ∧
    to_exact <$> l = exact_declining c (minor per) prev ds (minor balance);
  declined_paid : minor (OutTotalPaid out') = minor (OutTotalPaid out) +
    sum_by xpayment (exact_declining c (minor per) prev ds (minor balance));
  declined_interest : minor (OutTotalInterest out') = minor (OutTotalInterest out) +
    sum_by xinterest (exact_declining c (minor per) prev ds (minor balance));
  declined_stated : HasScheduled c = true → Dates.IsZero (NotBeforeDue c) = false →
    Forall (λ r, xdue r = NotBeforeDue c → xpayment r = minor (ScheduledPayment c))
      (exact_declining c (minor per) prev ds (minor balance)) }.

Lemma row_part_exact i balance (rest : list Date) :
  i + Z.of_nat (length rest) + 1 = n →
  minor (row_part i balance) =
    match rest with [] => minor balance | _ => Z.min (minor balance) (minor per) end.
Proof using Type.
  intros Hn. unfold row_part. destruct rest as [|d rest]; simpl in Hn.
  - by rewrite (proj2 (Z.eqb_eq _ _)) by lia.
  - rewrite (proj2 (Z.eqb_neq _ _)) by lia. destruct (Z.ltb_spec (minor balance) (minor per)); lia.
Qed.

Lemma declining_walked ds : ∀ i balance prev out rows out' rows',
  walking per balance out → i + Z.of_nat (length ds) = n →
  declining_from c per n ds i balance prev out rows = Ok (out', rows') →
  declined prev ds balance out out' rows rows'.
Proof using Hterms Hper.
  induction ds as [|due ds IH]; intros i balance prev out rows out' rows' Hw Hn H.
  { injection H as <- <-. split; simpl; try lia; [|by constructor]. exists []. split; [|done].
    destruct rows; simpl; [by rewrite app_nil_r|done]. }
  simpl length in Hn. apply declining_step in H; [|done]. cbv zeta in H. destruct H as (Hst & Hd & Hw' & H).
  pose proof (row_part_exact i balance ds ltac:(lia)) as Hpart.
  set (part := row_part i balance) in *. set (days := DaysBetween prev due) in *.
  set (closing := MkAmount (minor balance - minor part) (cur balance)) in *.
  set (row := MkRow _ _ _ _ _ _ _ _) in H.
  set (o1 := record_row _ _ _ _ _ _ _ _) in *.
  assert (minor (OutTotalPaid o1) = minor (OutTotalPaid out) + (minor part + interest_on c (minor balance) days) ∧
    minor (OutTotalInterest o1) = minor (OutTotalInterest out) + interest_on c (minor balance) days)
    as [Eo1 Eo2] by (unfold o1, record_row; destruct (_ =? 1); done).
  assert (exact_declining c (minor per) prev (due :: ds) (minor balance) =
    to_exact row :: (if minor closing =? 0 then [] else exact_declining c (minor per) due ds (minor closing)))
    as E.
  { cbn [exact_declining]. unfold row, to_exact. simpl. fold days. by rewrite Hpart. }
  assert (declined due (if minor closing =? 0 then [] else ds) closing o1 out' (append_row rows row) rows')
    as [Hr Hp Hi Hs].
  { destruct (minor closing =? 0); [|eapply IH; [exact Hw'| |exact H]; lia].
    injection H as <- <-. split; simpl; try lia; [|by constructor]. exists []. split; [|done].
    destruct rows; simpl; [by rewrite app_nil_r|done]. }
  assert (exact_declining c (minor per) due (if minor closing =? 0 then [] else ds) (minor closing) =
    (if minor closing =? 0 then [] else exact_declining c (minor per) due ds (minor closing))) as E'
    by (by destruct (minor closing =? 0)).
  rewrite E' in *. rewrite Eo1 in Hp. rewrite Eo2 in Hi. clear E'.
  split; rewrite ?E.
  - destruct Hr as (l & -> & Hl). exists (row :: l). split.
    + destruct rows as [k|]; simpl; [by rewrite <- app_assoc|done].
    + by rewrite fmap_cons, Hl.
  - rewrite Hp. unfold sum_by. cbn [foldr].
    change (xpayment (to_exact row)) with (minor part + interest_on c (minor balance) days). lia.
  - rewrite Hi. unfold sum_by. cbn [foldr].
    change (xinterest (to_exact row)) with (interest_on c (minor balance) days). lia.
  - intros H1 H2. constructor; [|by apply Hs]. intros H3. by apply Hst.
Qed.
End Walk.

Section Exact.
Context (c : Contract) (per : Z) (Hper : 0 ≤ per).

(** Equal parts, the last row taking the rest: the debt ends at zero, and the
    payments are the debt and its interest. *)
Lemma exact_declining_settles ds : ∀ prev b,
  ds ≠ [] → 0 ≤ b →
  final_balance b (exact_declining c per prev ds b) = 0 ∧
  sum_by xpayment (exact_declining c per prev ds b) =
    b + sum_by xinterest (exact_declining c per prev ds b) ∧
  Forall (λ r, 0 ≤ xclosing r ∧ xclosing r = xopening r + xinterest r - xpayment r ∧
    xinterest r = interest_on c (xopening r) (xdays r) ∧
    (xopening r - xclosing r = per ∨ xclosing r = 0)) (exact_declining c per prev ds b).
Proof using Hper.
  induction ds as [|due ds IH]; intros prev b Hne Hb; [done|]. cbn [exact_declining].
  destruct ds as [|d ds].
  - rewrite Z.sub_diag. unfold sum_by, final_balance. simpl. split_and!; [lia|lia|].
    constructor; [|constructor]. simpl. split_and!; lia.
  - set (p := Z.min b per). destruct (Z.eqb_spec (b - p) 0) as [E|E].
    + unfold sum_by, final_balance. simpl. split_and!; [lia|lia|].
      constructor; [|constructor]. simpl. split_and!; lia.
    + destruct (IH due (b - p) ltac:(done) ltac:(lia)) as (H1 & H2 & H3).
      split_and!.
      * rewrite final_balance_cons. simpl. exact H1.
      * unfold sum_by in *. cbn [foldr]. rewrite H2. simpl. lia.
      * constructor; [|exact H3]. simpl. split_and!; lia.
Qed.
End Exact.

Lemma per_period_Ok principal n unit per :
  0 ≤ minor principal ≤ MaxInt64 → 1 ≤ n → 1 ≤ unit →
  per_period principal n unit = Ok per →
  per = MkAmount (minor principal / n / unit * unit) (cur principal) ∧
  0 ≤ minor per ∧ minor per * n ≤ minor principal.
Proof.
  intros Hp Hn Hu. unfold per_period, idiv. destruct (Z.eqb_spec n 0), (Z.eqb_spec unit 0); try lia.
  cbn [mbind result_bind].
  assert (0 ≤ minor principal / n ≤ minor principal) as Hq.
  { split; [apply Z.div_pos; lia|]. apply Z.div_le_upper_bound; nia. }
  rewrite (Z.quot_div_nonneg (minor principal) n), (i64_id (_ / n)) by (unfold_i64; lia).
  rewrite Z.quot_div_nonneg by lia.
  destruct (div_mod_facts (minor principal) n ltac:(lia)) as [E1 R1].
  destruct (div_mod_facts (minor principal / n) unit ltac:(lia)) as [E2 R2].
  assert (0 ≤ minor principal / n / unit) by (apply Z.div_pos; lia).
  assert (minor principal / n / unit * unit ≤ minor principal / n) by lia.
  unfold imul. rewrite (i64_id (_ / _ / _)), i64_id by (unfold_i64; nia).
  intros [= <-]. simpl. split_and!; [done|nia|nia].
Qed.

(** Whether rows are wanted changes nothing else. *)
Lemma declining_from_rows c per n ds : ∀ i balance prev out rows rows',
  match declining_from c per n ds i balance prev out rows,
        declining_from c per n ds i balance prev out rows' with
  | Ok (o, _), Ok (o', _) => o = o'
  | Err e, Err e' => e = e'
  | Panic w, Panic w' => w = w'
  | _, _ => False
  end.
Proof.
  induction ds as [|d ds IH]; intros i balance prev out rows rows'; [done|]. cbn [declining_from].
  destruct (DaysBetween prev d <? 0); [done|].
  destruct (row_err (Accrue _ _ _ _ _)) as [int| |]; simpl; [|done|done].
  destruct (if i =? n - 1 then _ else _) as [part| |]; simpl; [|done|done].
  destruct (row_err (Add part int)) as [pay| |]; simpl; [|done|done].
  destruct (disagrees c d pay) as [[]| |]; simpl; [done| |done|done].
  destruct (row_err (Sub balance part)) as [cl| |]; simpl; [|done|done].
  destruct (row_err (Add (OutTotalPaid out) pay)); simpl; [|done|done].
  destruct (row_err (Add (OutTotalInterest out) int)); simpl; [|done|done].
  destruct (Sign cl =? 0); [done|]. apply IH.
Qed.

(** What a successful declining projection amounts to. *)
Lemma projectDeclining_walked c principal from ds rows o rows' :
  wf_terms c → 0 < minor principal ≤ MaxInt64 → ds ≠ [] →
  projectDeclining c principal from ds rows = Ok (o, rows') →
  ∃ per, per = MkAmount (minor principal / Z.of_nat (length ds) / unit_of (Rounding c) *
      unit_of (Rounding c)) (cur principal) ∧
    0 ≤ minor per ≤ minor principal ∧
    declined c per (drawdown c from) ds principal (start_outcome (cur principal)) o rows rows'.
Proof.
  intros Ht Hp Hne H. unfold projectDeclining in H. apply bind_Ok in H as (per & Hper & H).
  rewrite settlement_unit_of in Hper. pose proof (unit_of_pos (Rounding c)).
  assert (1 ≤ Z.of_nat (length ds)) by (destruct ds; [done|simpl; lia]).
  apply per_period_Ok in Hper as (-> & Hp0 & Hpn); [|lia|lia|lia]. simpl in Hp0, Hpn.
  eexists. split; [done|]. simpl. split; [nia|].
  eapply declining_walked; [done|simpl; nia| | |exact H]; [|lia].
  apply walking_start; [lia|done].
Qed.

(** * Properties *)

(** An equal-principal schedule repays the loan exactly: every row takes
    the principal divided by the number of dates, rounded down to the
    settlement unit, except the row that takes whatever is left; the debt ends
    at zero, the total paid is the principal plus the interest, and a bank
    instalment stated for a due date is met exactly on that date. *)
Theorem ProjectDeclining_settles c principal from s :
  wf_terms c → minor principal ≤ MaxInt64 →
  ProjectDeclining c principal from = Ok s →
  ∃ ds per, RemainingDates c from = Ok ds ∧
  per = minor principal / Z.of_nat (length ds) / unit_of (Rounding c) * unit_of (Rounding c) ∧
  to_exact <$> Rows s = exact_declining c per (drawdown c from) ds (minor principal) ∧
  Forall (λ r, xopening r - xclosing r = per ∨ xclosing r = 0) (to_exact <$> Rows s) ∧
  final_balance (minor principal) (to_exact <$> Rows s) = 0 ∧
  minor (TotalPaid s) = minor principal + minor (TotalInterest s) ∧
  (HasScheduled c = true → Dates.IsZero (NotBeforeDue c) = false →
    Forall (λ r, xdue r = NotBeforeDue c → xpayment r = minor (ScheduledPayment c))
      (to_exact <$> Rows s)).
Proof.
  intros Ht Hp H. unfold ProjectDeclining in H. apply bind_Ok in H as (cal & Hcal%or_checked_Ok & H).
  unfold Calendar_ProjectDeclining in H. apply bind_Ok in H as (ds & Hds & H).
  unfold decliningDates in Hds. destruct (Sign principal <=? 0) eqn:Es; [done|].
  assert (0 < minor principal) by (unfold Sign in Es; repeat case_match; lia).
  rewrite (Calendar_Dates_remaining c) in Hds by done. apply bind_Ok in H as ([o rows] & Hproj & H).
  pose proof (RemainingDates_nonempty c from ds Hds) as Hne.
  apply NewCalendar_Ok in Hcal as [Ec _]. rewrite Ec in Hproj.
  apply projectDeclining_walked in Hproj as (per & Eper & Hper & [(l & -> & Hl) Hpd Hti Hst]); [|done|lia|done].
  exists ds, (minor per).
  assert (Rows s = l ∧ TotalPaid s = OutTotalPaid o ∧ TotalInterest s = OutTotalInterest o) as (-> & -> & ->).
  { destruct (0 <? Periods o); injection H as <-; done. }
  simpl in Hpd, Hti.
  destruct (exact_declining_settles c (minor per) ltac:(lia) ds (drawdown c from) (minor principal) Hne
    ltac:(lia)) as (H1 & H2 & H3).
  rewrite Hl. split_and!; try done; [by rewrite Eper| |lia].
  eapply Forall_impl; [exact H3|]. tauto.
Qed.

(** The same loan on an equal-principal contract. *)
Definition sample_declining : Contract :=
  MkContract "loan" 1 AMD (MkDate 2024 1 31) zero_date 180000000 Actual365 DecliningPrincipal
    (MkDate 2024 1 31) (MkDate 2026 1 31) 31 zero_date no_amount false (MkPolicy HalfUp 10)
    (MkPrepayment PrepayBorrowerChooses 0 [] no_amount) (MkPolicyRef "bank" 1).

Lemma sample_declining_wf : wf_terms sample_declining ∧ wf_dates sample_declining.
Proof. split; [vm_compute|]; repeat split; discriminate. Qed.

Lemma ProjectDeclining_settles_witness :
  ∃ s, ProjectDeclining sample_declining (MkAmount 100000000 AMD) zero_date = Ok s ∧
  length (Rows s) = 24%nat ∧ final_balance 100000000 (to_exact <$> Rows s) = 0.
Proof.
  eexists. split; [vm_compute; reflexivity|]. split; [reflexivity|].
  edestruct (ProjectDeclining_settles sample_declining (MkAmount 100000000 AMD) zero_date)
    as (ds & per & _ & _ & _ & _ & H & _).
  - apply sample_declining_wf.
  - vm_compute. discriminate.
  - vm_compute. reflexivity.
  - exact H.
Defined.

(** The comments call the reported instalment the largest payment of the
    schedule, "the figure a borrower has to be able to afford". It is the
    first; a long month after a short first one costs more. *)
Example declining_first_payment_not_largest :
  let c := MkContract "loan" 1 AMD (MkDate 2023 2 1) zero_date 180000000 Actual365 DecliningPrincipal
    (MkDate 2023 2 1) (MkDate 2026 2 1) 1 zero_date no_amount false (MkPolicy HalfUp 10)
    (MkPrepayment PrepayBorrowerChooses 0 [] no_amount) (MkPolicyRef "bank" 1) in
  ∃ s r, ProjectDeclining c (MkAmount 360000000 AMD) zero_date = Ok s ∧
  Rows s !! 1%nat = Some r ∧ minor (Instalment s) < minor (Payment r).
Proof. eexists _, _. split; [vm_compute; reflexivity|]. vm_compute. done. Qed.
