(* ===== verification/Calendar.v ===== *)
(** One contract's projections, whichever structure it declares:
    [pkg/core/amortisation/calendar.go]. *)
From S2P Require Import Prelude Money Dates Model Schedule Solve Declining.

Record Obligation := MkObligation {
  ObDue : Date;
  ObPayment : Amount;
  ObInstalment : Amount }.

(** The dispatch on the repayment type; [RepaymentType] has no other value. *)
Definition build (cal : Calendar) (principal : Amount) (from : Date) (rows : option (list Row)) :
    res (outcome * Amount * option (list Row)) :=
  let c := contract cal in
  match Type_ c with
  | DecliningPrincipal =>
      dates ← decliningDates cal principal from;
      '(out, rows) ← projectDeclining c principal from dates rows;
      Ok (out, (if 0 <? Periods out then FirstPayment out else no_amount), rows)
  | Annuity =>
      let stated := HasScheduled c && (0 <? Sign (ScheduledPayment c)) in
      instalment ← (if stated then Ok (ScheduledPayment c) else Calendar_Solve cal principal from);
      _ ← checkProjection principal instalment;
      dates ← Calendar_Dates cal from;
      '(out, rows) ← project c principal instalment from dates rows;
      if stated && (0 <? Periods out) && (Sign (FirstPrincipal out) <? 0)
      then unsolvable "%w: the stated instalment %s does not cover the first interest of %s; the balance would grow"
      else if stated && (0 <? Periods out) && (0 <? Sign (FinalClosing out))
      then unsolvable "%w: the stated instalment %s leaves %s owed at maturity; check the figure or the dates"
      else Ok (out, instalment, rows)
  end.

Definition Calendar_Build (cal : Calendar) (principal : Amount) (from : Date) : res Schedule :=
  '(out, instalment, rows) ← build cal principal from (Some []);
  Ok (MkSchedule (default [] rows) instalment
    (if 0 <? Periods out then OutFinalPayment out else no_amount)
    (OutTotalPaid out) (OutTotalInterest out)).

Definition Next (cal : Calendar) (principal : Amount) (from : Date) : res Obligation :=
  '(out, instalment, _) ← build cal principal from None;
  if Periods out =? 0 then unsolvable "%w: no instalment falls after %s"
  else Ok (MkObligation (FirstDue out) (FirstPayment out) instalment).

Definition Build (c : Contract) (principal : Amount) (from : Date) : res Schedule :=
  cal ← NewCalendar c;
  Calendar_Build cal principal from.

(** * The outcome and the rows tell one story *)

(** An outcome that summarises a list of rows. *)
Record tracks (out : outcome) (l : list Row) : Prop := {
  tracks_periods : Periods out = Z.of_nat (length l);
  tracks_first r : head l = Some r →
    FirstDue out = Due r ∧ FirstInterest out = Interest r ∧ FirstPrincipal out = RowPrincipal r ∧
    FirstPayment out = Payment r;
  tracks_last r : last l = Some r → OutFinalPayment out = Payment r ∧ FinalClosing out = Closing r }.

Lemma tracks_start c : tracks (start_outcome c) [].
Proof. by split. Qed.

Lemma tracks_row out l i due days bal int part pay closing paid total :
  tracks out l →
  tracks (record_row out due int part pay closing paid total)
    (l ++ [MkRow i due days bal int part pay closing]).
Proof.
  intros [Hn Hf Hl]. unfold record_row. destruct (Z.eqb_spec (Periods out + 1) 1) as [E|E].
  - assert (l = []) as -> by (destruct l; [done|simpl in Hn; lia]). simpl in Hn.
    split; simpl; [lia|..]; by intros r [= <-].
  - split; simpl.
    + rewrite length_app. simpl. lia.
    + destruct l as [|r0 l]; [simpl in Hn; lia|]. intros r Hr. apply Hf. by simpl in *.
    + intros r Hr. rewrite last_snoc in Hr. by injection Hr as <-.
Qed.

Lemma project_from_tracks c inst ds : ∀ i balance prev out l out' rows',
  tracks out l → project_from c inst ds i balance prev out (Some l) = Ok (out', rows') →
  ∃ l', rows' = Some l' ∧ tracks out' l'.
Proof.
  induction ds as [|d ds IH]; intros i balance prev out l out' rows' Ht H.
  { injection H as <- <-. eauto. }
  cbn [project_from] in H. destruct (Sign balance <=? 0); [injection H as <- <-; eauto|].
  destruct (DaysBetween prev d <? 0); [done|].
  repeat (apply bind_Ok in H as (? & _ & H)). eapply IH; [|exact H]. by apply tracks_row.
Qed.

Lemma declining_from_tracks c per n ds : ∀ i balance prev out l out' rows',
  tracks out l → declining_from c per n ds i balance prev out (Some l) = Ok (out', rows') →
  ∃ l', rows' = Some l' ∧ tracks out' l'.
Proof.
  induction ds as [|d ds IH]; intros i balance prev out l out' rows' Ht H.
  { injection H as <- <-. eauto. }
  cbn [declining_from] in H. destruct (DaysBetween prev d <? 0); [done|].
  do 3 (apply bind_Ok in H as (? & _ & H)). apply bind_Ok in H as (differs & _ & H).
  destruct differs; [done|]. do 3 (apply bind_Ok in H as (? & _ & H)).
  match type of H with context [Sign ?cl =? 0] => destruct (Sign cl =? 0) end.
  - injection H as <- <-. eexists. split; [done|]. by apply tracks_row.
  - eapply IH; [|exact H]. by apply tracks_row.
Qed.

(** A call for the outcome alone answers as the call for a schedule does. *)
Definition same_answer {A B} (R : A → B → Prop) (m : res A) (m' : res B) : Prop :=
  match m, m' with
  | Ok a, Ok b => R a b
  | Err e, Err e' => e = e'
  | Panic w, Panic w' => w = w'
  | _, _ => False
  end.

Lemma same_answer_bind {A B C D} (R : A → B → Prop) (S : C → D → Prop) m m' k k' :
  same_answer R m m' → (∀ a b, R a b → same_answer S (k a) (k' b)) →
  same_answer S (m ≫= k) (m' ≫= k').
Proof. destruct m, m'; simpl; naive_solver. Qed.

Lemma same_answer_refl {A} (m : res A) : same_answer eq m m.
Proof. by destruct m. Qed.

Lemma build_same cal principal from :
  same_answer (λ '(o, i, _) '(o', i', rows'), o = o' ∧ i = i' ∧ ∃ l, rows' = Some l ∧ tracks o l)
    (build cal principal from None) (build cal principal from (Some [])).
Proof.
  unfold build. destruct (Type_ (contract cal)).
  - eapply (same_answer_bind eq); [apply same_answer_refl|]. intros inst ? <-.
    eapply (same_answer_bind eq); [apply same_answer_refl|]. intros u ? <-.
    eapply (same_answer_bind eq); [apply same_answer_refl|]. intros ds ? <-.
    eapply (same_answer_bind (λ '(o, _) '(o', rows'), o = o' ∧ ∃ l, rows' = Some l ∧ tracks o l)).
    + unfold project. pose proof (project_from_rows (contract cal) inst ds 0 principal
        (drawdown (contract cal) from) (start_outcome (cur principal)) None (Some [])) as H.
      destruct (project_from _ _ _ _ _ _ _ None) as [[o r]| |],
        (project_from _ _ _ _ _ _ _ (Some [])) as [[o' r']| |] eqn:E; try done. subst o'. split; [done|].
      eapply project_from_tracks; [|exact E]. apply tracks_start.
    + intros [o r] [o' r'] [<- Hl]. repeat case_match; done.
  - eapply (same_answer_bind eq); [apply same_answer_refl|]. intros ds ? <-.
    eapply (same_answer_bind (λ '(o, _) '(o', rows'), o = o' ∧ ∃ l, rows' = Some l ∧ tracks o l)).
    + unfold projectDeclining.
      eapply (same_answer_bind eq); [apply same_answer_refl|]. intros per ? <-.
      pose proof (declining_from_rows (contract cal) per (Z.of_nat (length ds)) ds 0 principal
        (drawdown (contract cal) from) (start_outcome (cur principal)) None (Some [])) as H.
      destruct (declining_from _ _ _ _ _ _ _ _ None) as [[o r]| |],
        (declining_from _ _ _ _ _ _ _ _ (Some [])) as [[o' r']| |] eqn:E; try done. subst o'. split; [done|].
      eapply declining_from_tracks; [|exact E]. apply tracks_start.
    + intros [o r] [o' r'] [<- Hl]. done.
Qed.

(** ** What the annuity branch lets through *)

Lemma closings_of (l : list Row) ex :
  to_exact <$> l = ex → Forall (λ r, 0 ≤ xclosing r) ex → Forall (λ r, 0 ≤ minor (Closing r)) l.
Proof. intros <-. by rewrite Forall_fmap. Qed.

Lemma annuity_settles c cal principal from o inst rows :
  NewCalendar c = Ok cal → wf_terms c → wf_dates c → valid from ∨ Dates.IsZero from = true →
  0 < minor principal ≤ MaxInt64 → minor (ScheduledPayment c) ≤ MaxInt64 → bound_fits c principal from →
  (let stated := HasScheduled c && (0 <? Sign (ScheduledPayment c)) in
   instalment ← (if stated then Ok (ScheduledPayment c) else Calendar_Solve cal principal from);
   _ ← checkProjection principal instalment;
   dates ← Calendar_Dates cal from;
   '(out, rows) ← project c principal instalment from dates (Some []);
   if stated && (0 <? Periods out) && (Sign (FirstPrincipal out) <? 0)
   then unsolvable "%w: the stated instalment %s does not cover the first interest of %s; the balance would grow"
   else if stated && (0 <? Periods out) && (0 <? Sign (FinalClosing out))
   then unsolvable "%w: the stated instalment %s leaves %s owed at maturity; check the figure or the dates"
   else Ok (out, instalment, rows)) = Ok (o, inst, rows) →
  default [] rows ≠ [] ∧ Forall (λ r, 0 ≤ minor (Closing r)) (default [] rows) ∧
  final_balance (minor principal) (to_exact <$> default [] rows) = 0 ∧
  minor (OutTotalPaid o) = minor principal + minor (OutTotalInterest o) ∧
  (HasScheduled c = true → 0 < minor (ScheduledPayment c) → inst = ScheduledPayment c).
Proof.
  intros Hcal Ht Hc Hf Hp Hsch Hbound H. cbv zeta in H.
  apply bind_Ok in H as (a & Ha & H). apply bind_Ok in H as (u & (_ & Ha0 & Ecur)%checkProjection_Ok & H).
  apply bind_Ok in H as (ds & Hds & H). rewrite (Calendar_Dates_remaining c) in Hds by done.
  apply bind_Ok in H as ([o' rows'] & Hproj & H).
  destruct (RemainingDates_ahead c from ds Hc Hf Hds) as [Hahead _].
  pose proof (RemainingDates_nonempty c from ds Hds) as Hne.
  set (stated := (HasScheduled c && (0 <? Sign (ScheduledPayment c)))%bool) in *.
  destruct (stated && (0 <? Periods o') && (Sign (FirstPrincipal o') <? 0))%bool; [done|].
  destruct (stated && (0 <? Periods o') && (0 <? Sign (FinalClosing o')))%bool eqn:Efin; [done|].
  injection H as -> -> ->.
  assert (minor inst ≤ MaxInt64 ∧ (stated = false → left_owed c principal from ds (minor inst) = 0)) as [Hm Hsol].
  { destruct stated; [injection Ha as <-; done|].
    destruct (Calendar_Solve_sound c cal principal from inst Hcal Ht Hc Hf (proj2 Hp) Hbound Ha)
      as (ds' & _ & Hds' & _ & _ & _ & _ & _ & ? & Hl & _).
    assert (ds' = ds) as -> by congruence. split; [lia|done]. }
  apply project_walked in Hproj; [|done|lia|lia|by rewrite Ecur].
  destruct Hproj as [(l & -> & Hl) Hpd Hti Hn Hcl _ _]. simpl in *.
  pose proof (exact_rows_ne c principal from ds Hp Hahead Hne (minor inst)) as Hrows.
  assert (0 < length (exact_rows c (minor inst) (drawdown c from) ds (minor principal)))%nat as Hlen
    by (destruct (exact_rows _ _ _ _ _); [done|simpl; lia]).
  specialize (Hcl ltac:(lia)).
  pose proof (left_owed_mono c principal from ds Ht Hp Hahead (minor inst) (minor inst) ltac:(lia)) as [H0 _].
  unfold left_owed in *.
  assert (final_balance (minor principal)
    (exact_rows c (minor inst) (drawdown c from) ds (minor principal)) = 0) as Hz.
  { destruct stated; [|by apply Hsol]. rewrite (proj2 (Z.ltb_lt 0 (Periods o))) in Efin by lia.
    unfold Sign in Efin. rewrite Hcl in Efin. simpl in Efin. repeat case_match; lia || done. }
  pose proof (exact_rows_conserve c (minor inst) ds (drawdown c from) (minor principal)) as Hcons.
  pose proof (exact_rows_sound c Ht (minor inst) ds (drawdown c from) (minor principal) Hahead) as Hsound.
  split_and!.
  - intros ->. by rewrite fmap_nil in Hl.
  - apply (closings_of l _ Hl). eapply Forall_impl; [exact Hsound|]. intros r (_ & _ & _ & ? & _). done.
  - by rewrite Hl.
  - lia.
  - intros E1 E2. assert (stated = true) as Es
      by (unfold stated, Sign; rewrite E1; simpl; repeat case_match; lia || done).
    rewrite Es in Ha. by injection Ha.
Qed.

(** * Properties *)

(** The planner's shortcut is the schedule's first row. [Next] answers
    exactly as [Build] would: the first row's date and payment with the
    schedule's instalment, the same refusal, or a refusal of its own when the
    schedule is empty. *)
Theorem Next_is_first_row cal principal from :
  Next cal principal from =
  match Calendar_Build cal principal from with
  | Ok s =>
      match Rows s with
      | [] => unsolvable "%w: no instalment falls after %s"
      | r :: _ => Ok (MkObligation (Due r) (Payment r) (Instalment s))
      end
  | Err e => Err e
  | Panic w => Panic w
  end.
Proof.
  unfold Next, Calendar_Build. pose proof (build_same cal principal from) as H.
  destruct (build cal principal from None) as [[[o i] r]|e|w],
    (build cal principal from (Some [])) as [[[o' i'] r']|e'|w']; simpl in *; try done; try congruence.
  destruct H as (<- & <- & l & -> & [Hn Hf _]). simpl. destruct l as [|r0 l]; simpl in Hn.
  - by rewrite Hn.
  - destruct (Z.eqb_spec (Periods o) 0); [lia|]. destruct (Hf r0 eq_refl) as (-> & _ & _ & ->). done.
Qed.

(** C34. What [Build] accepts is a schedule that ends at zero. Under either
    structure, and whether the instalment was solved for or stated by the
    bank, the last balance is nothing, no row's balance is negative, and the
    total paid is the principal plus the interest; a stated instalment that
    cannot do this is refused. *)
Theorem Build_settles c principal from s :
  wf_terms c → wf_dates c → valid from ∨ Dates.IsZero from = true →
  0 < minor principal ≤ MaxInt64 → minor (ScheduledPayment c) ≤ MaxInt64 → bound_fits c principal from →
  Build c principal from = Ok s →
  Rows s ≠ [] ∧ Forall (λ r, 0 ≤ minor (Closing r)) (Rows s) ∧
  final_balance (minor principal) (to_exact <$> Rows s) = 0 ∧
  minor (TotalPaid s) = minor principal + minor (TotalInterest s) ∧
  (Type_ c = Annuity → HasScheduled c = true → 0 < minor (ScheduledPayment c) →
    Instalment s = ScheduledPayment c).
Proof.
  intros Ht Hc Hf Hp Hsch Hbound H. unfold Build in H. apply bind_Ok in H as (cal & Hcal & H).
  unfold Calendar_Build in H. apply bind_Ok in H as ([[o inst] rows] & Hb & [= <-]). simpl.
  unfold build in Hb. pose proof Hcal as [Ec _]%NewCalendar_Ok. rewrite Ec in Hb.
  destruct (Type_ c).
  - apply annuity_settles with (cal := cal) (o := o) (rows := rows) in Hb; [|done..].
    destruct Hb as (H1 & H2 & H3 & H4 & H5). split_and!; done || auto.
  - apply bind_Ok in Hb as (ds & Hds & Hb). apply bind_Ok in Hb as ([o' rows'] & Hproj & Hb).
    injection Hb as -> _ ->. unfold decliningDates in Hds. destruct (Sign principal <=? 0); [done|].
    rewrite (Calendar_Dates_remaining c) in Hds by done.
    pose proof (RemainingDates_nonempty c from ds Hds) as Hne.
    apply projectDeclining_walked in Hproj as (per & _ & Hper & [(l & -> & Hl) Hpd Hti _]); [|done|lia|done].
    simpl in *. destruct (exact_declining_settles c (minor per) ltac:(lia) ds (drawdown c from)
      (minor principal) Hne ltac:(lia)) as (H1 & H2 & H3).
    rewrite Hl. split_and!; try done; [| |lia].
    + intros ->. destruct ds; [done|]. cbn [exact_declining] in Hl. by rewrite fmap_nil in Hl.
    + apply (closings_of l _ Hl). eapply Forall_impl; [exact H3|]. tauto.
Qed.

Lemma Build_settles_witness :
  let c := sample_contract in
  ∃ s, Build c (MkAmount 300000000 AMD) zero_date = Ok s ∧ length (Rows s) = 12%nat ∧
  final_balance 300000000 (to_exact <$> Rows s) = 0.
Proof.
  eexists. split; [vm_compute; reflexivity|]. split; [reflexivity|].
  eapply (Build_settles sample_contract (MkAmount 300000000 AMD) zero_date).
  - apply sample_contract_wf.
  - apply sample_contract_wf.
  - right. reflexivity.
  - split; [reflexivity|vm_compute; discriminate].
  - vm_compute. discriminate.
  - apply sample_bound_fits.
  - vm_compute. reflexivity.
Defined.
