(* ===== verification/Sha256.v ===== *)
(** [crypto/sha256.Sum256] of Go's standard library, as FIPS 180-4 defines it,
    and the big-endian integers [encoding/binary] writes. Bytes are integers
    from 0 to 255. *)
From S2P Require Import Prelude.

Definition w32 (z : Z) : Z := z mod 4294967296.
Definition rotr (n x : Z) : Z := Z.lor (Z.shiftr x n) (w32 (Z.shiftl x (32 - n))).
Definition big_sigma0 x := Z.lxor (Z.lxor (rotr 2 x) (rotr 13 x)) (rotr 22 x).
Definition big_sigma1 x := Z.lxor (Z.lxor (rotr 6 x) (rotr 11 x)) (rotr 25 x).
Definition small_sigma0 x := Z.lxor (Z.lxor (rotr 7 x) (rotr 18 x)) (Z.shiftr x 3).
Definition small_sigma1 x := Z.lxor (Z.lxor (rotr 17 x) (rotr 19 x)) (Z.shiftr x 10).
Definition ch x y z := Z.lxor (Z.land x y) (Z.land (Z.lxor x 4294967295) z).
Definition maj x y z := Z.lxor (Z.lxor (Z.land x y) (Z.land x z)) (Z.land y z).

(** The first 64 primes, and the largest number below [2 ^ (bits + 1)] whose
    cube does not exceed [n]. *)
Definition is_prime (p : nat) : bool :=
  forallb (λ d, negb (Nat.eqb (Nat.modulo p d) 0)) (seq 2 (p - 2)).
Definition primes : list Z := Z.of_nat <$> List.filter is_prime (seq 2 310).

Fixpoint cube_root (bits : nat) (acc n : Z) : Z :=
  let b := acc + 2 ^ Z.of_nat bits in
  let acc := if b * b * b <=? n then b else acc in
  match bits with
  | O => acc
  | S bits => cube_root bits acc n
  end.

(** 32 bits of the fractional parts of the primes' cube roots, and of the first
    eight square roots. *)
Definition round_constants : list Z := (λ p, w32 (cube_root 35 0 (p * 2 ^ 96))) <$> primes.
Definition initial_hash : list Z := (λ p, w32 (Z.sqrt (p * 2 ^ 64))) <$> take 8 primes.

(** Big-endian bytes of a [k]-byte word, and back. *)
Fixpoint be_bytes (k : nat) (z : Z) : list Z :=
  match k with
  | O => []
  | S k => be_bytes k (z / 256) ++ [z mod 256]
  end.
Definition be_word (l : list Z) : Z := foldl (λ acc b, acc * 256 + b) 0 l.

Fixpoint words (l : list Z) : list Z :=
  match l with
  | a :: b :: c :: e :: l => be_word [a; b; c; e] :: words l
  | _ => []
  end.

(** The message schedule, newest word first: [more] further words. *)
Fixpoint expand (more : nat) (rev_words : list Z) : list Z :=
  match more with
  | O => rev rev_words
  | S more =>
      let at_ i := nth i rev_words 0 in
      expand more
        (w32 (small_sigma1 (at_ 1%nat) + at_ 6%nat + small_sigma0 (at_ 14%nat) + at_ 15%nat) :: rev_words)
  end.

Definition compress_round (st : list Z) (kw : Z * Z) : list Z :=
  match st with
  | [a; b; c; d; e; f; g; h] =>
      let t1 := h + big_sigma1 e + ch e f g + kw.1 + kw.2 in
      let t2 := big_sigma0 a + maj a b c in
      [w32 (t1 + t2); a; b; c; w32 (d + t1); e; f; g]
  | _ => st
  end.

Definition compress (hash block : list Z) : list Z :=
  let w := expand 48 (rev (words block)) in
  zip_with (λ x y, w32 (x + y)) hash (foldl compress_round hash (zip round_constants w)).

(** One bit, zeros, and the length in bits, to a multiple of 64 bytes. *)
Definition pad (msg : list Z) : list Z :=
  let n := Z.of_nat (length msg) in
  msg ++ 128 :: replicate (Z.to_nat ((55 - n) mod 64)) 0 ++ be_bytes 8 (n * 8).

Fixpoint absorb (blocks : nat) (hash msg : list Z) : list Z :=
  match blocks with
  | O => hash
  | S blocks => absorb blocks (compress hash (take 64 msg)) (drop 64 msg)
  end.

Definition Sum256 (msg : list Z) : list Z :=
  let padded := pad msg in
  mjoin (be_bytes 4 <$> absorb (length padded / 64) initial_hash padded).

(** [[]byte(s)]. *)
Definition bytes_of_ascii (l : list Ascii.ascii) : list Z := (λ c, Z.of_nat (Ascii.nat_of_ascii c)) <$> l.
Definition bytes_of_string (s : string) : list Z := bytes_of_ascii (String.list_ascii_of_string s).

(** The digest of "abc" in the standard. *)
Example Sum256_abc :
  Sum256 (bytes_of_string "abc") = mjoin (be_bytes 4 <$>
    [0xba7816bf; 0x8f01cfea; 0x414140de; 0x5dae2223; 0xb00361a3; 0x96177a9c; 0xb410ff61; 0xf20015ad]).
Proof. vm_compute. reflexivity. Qed.

Lemma be_bytes_length k z : length (be_bytes k z) = k.
Proof. revert z. induction k as [|k IH]; intros z; [done|]. simpl. rewrite length_app, IH. simpl. lia. Qed.

Lemma be_bytes_inj k : ∀ z z',
  0 ≤ z < 256 ^ Z.of_nat k → 0 ≤ z' < 256 ^ Z.of_nat k → be_bytes k z = be_bytes k z' → z = z'.
Proof.
  induction k as [|k IH]; intros z z' Hz Hz' H; [change (256 ^ Z.of_nat 0) with 1 in *; lia|].
  rewrite Nat2Z.inj_succ, Z.pow_succ_r in * by lia. simpl in H.
  apply app_inj_2 in H as [H1 H2]; [|done]. injection H2 as H2.
  assert (z / 256 = z' / 256); [|Z.div_mod_to_equations; lia].
  apply IH; [| |done]; split; try (apply Z.div_pos; lia); apply Z.div_lt_upper_bound; lia.
Qed.

Lemma bytes_of_ascii_inj l l' : bytes_of_ascii l = bytes_of_ascii l' → l = l'.
Proof.
  apply list_fmap_eq_inj. intros a b H.
  rewrite <- (Ascii.ascii_nat_embedding a), <- (Ascii.ascii_nat_embedding b). f_equal. lia.
Qed.

Lemma bytes_of_string_inj s s' : bytes_of_string s = bytes_of_string s' → s = s'.
Proof.
  intros H%bytes_of_ascii_inj.
  rewrite <- (String.string_of_list_ascii_of_string s), <- (String.string_of_list_ascii_of_string s').
  by f_equal.
Qed.
