(* ===== verification/Ledger.v ===== *)
(** Replay: a loan's position from its facts, [pkg/core/ledger].

    [helpers.go] and [replay.go]. The accrual loop over contract versions runs
    on fuel; [across_never_stuck] shows one step per version is enough. *)
From S2P Require Import Prelude Money Dates Model Allocation Sha256.

#[export] Instance PolicyRef_countable : Countable PolicyRef.
Proof.
  refine (inj_countable' (λ r, (Key r, RefVersion r)) (λ '(k, v), MkPolicyRef k v) _). by intros [].
Defined.

(** * helpers.go *)

Definition pick (d : Date) (best : option Contract) (c : Contract) : option Contract :=
  if negb (CoversDate c d) then best
  else match best with
  | None => Some c
  | Some b => if After (EffectiveFrom c) (EffectiveFrom b) then Some c else best
  end.

Definition contractFor (versions : list Contract) (d : Date) : res Contract :=
  match foldl (pick d) None versions with
  | Some c => Ok c
  | None => errorf_w "%w: %s" ErrNoContract
  end.

Definition accrue (pos : Buckets) (c : Contract) (from to : Date) : res Amount :=
  let cur := Buckets_Currency pos in
  let days := DaysBetween from to in
  if days <=? 0 then Ok (Zero cur)
  else
    let thirty := bool_decide (ContractDayCount c = Thirty360) in
    let days := if thirty then Days30360 from to else days in
    if thirty && (days <=? 0) then Ok (Zero cur)
    else
      base ← Add (pPrincipal pos) (pOverduePrincipal pos);
      if Sign base <=? 0 then Ok (Zero cur)
      else Accrue base (NominalRate c) days (ContractDayCount c) (Rounding c).

(** Where the segment governed by [c] ends. *)
Definition segment_end (c : Contract) (to : Date) : Date :=
  if negb (Dates.IsZero (EffectiveThru c)) && Before (EffectiveThru c) to then EffectiveThru c else to.

(** [None] only when the fuel runs out. *)
Fixpoint accrue_segments (fuel : nat) (pos : Buckets) (versions : list Contract)
    (segStart to : Date) (total : Amount) : option (res Amount) :=
  if Before segStart to
  then match fuel with
    | O => None
    | S fuel =>
        match contractFor versions (AddDays segStart 1) with
        | Err e => Some (Err e)
        | Panic w => Some (Panic w)
        | Ok c =>
            let segEnd := segment_end c to in
            if negb (After segEnd segStart)
            then Some (errorf_w "%w: version %d covers no days after %s" ErrNoContract)
            else match (part ← accrue pos c segStart segEnd; Add total part) with
              | Err e => Some (Err e)
              | Panic w => Some (Panic w)
              | Ok total => accrue_segments fuel pos versions segEnd to total
              end
        end
    end
  else Some (Ok total).

Definition accrueAcross (pos : Buckets) (versions : list Contract) (from to : Date) : res Amount :=
  match accrue_segments (S (length versions)) pos versions from to (Zero (Buckets_Currency pos)) with
  | Some r => r
  | None => Panic "out of fuel"
  end.

Definition addInterest (pos : Buckets) (interest : Amount) : res Buckets :=
  if Sign interest =? 0 then Ok pos
  else
    sum ← Add (pAccruedInterest pos) interest;
    Ok (With pos AccruedInterest sum).

Definition applyEvent (pos : Buckets) (ev : Event) (p : Policy) : call (Buckets * Split) :=
  match Kind ev with
  | PaymentReported | PrepaymentReported => Apply pos (EvAmount ev) p
  | BankFeeReported =>
      try (Add (pCurrentFees pos) (EvAmount ev)) (pos, no_split) (λ fees,
      Ok ((With pos CurrentFees fees,
        MkSplit {[CurrentFees := EvAmount ev]} no_amount no_amount no_amount true), None))
  | LoanClosedReported =>
      Ok ((NewBuckets (Buckets_Currency pos), MkSplit ∅ no_amount no_amount no_amount true), None)
  | EntryVoided => Ok ((pos, no_split), Some (Errorf "event kind %s cannot be applied"))
  end.

(** The [iota] of the event kinds. *)
Definition kind_byte (k : EventKind) : Z :=
  match k with
  | PaymentReported => 0 | PrepaymentReported => 1 | BankFeeReported => 2
  | EntryVoided => 3 | LoanClosedReported => 4
  end.

(** What one event writes into the hash. *)
Definition event_bytes (e : Event) : list Z :=
  bytes_of_string (EvID e) ++ be_bytes 8 (u64 (RecordedSeq e)) ++ [kind_byte (Kind e)] ++
  bytes_of_ascii (Dates.String (ValueDate e)) ++ be_bytes 8 (u64 (minor (EvAmount e))) ++
  bytes_of_string (Code (cur (EvAmount e))).

Definition hash_input (anchor : Snapshot) (events : list Event) : list Z :=
  bytes_of_string (SnapID anchor) ++ bytes_of_ascii (Dates.String (SnapAsOf anchor)) ++
  mjoin (event_bytes <$> events).

Definition hashEvents (anchor : Snapshot) (events : list Event) : list Z :=
  Sum256 (hash_input anchor events).

(** * replay.go *)

Record Input := MkInput {
  Contracts : list Contract;
  Anchor : Snapshot;
  Events : list Event;
  Covered : gmap string bool;
  Policies : gmap PolicyRef Policy;
  AsOf : Date;
  FreshnessDays : Z;
  InEngineVersion : string }.

Record AppliedEvent := MkApplied {
  AeEvent : Event;
  AeSplit : Split;
  AeInterest : Amount;
  Skipped : string }.

Record Result := MkResult { State : LoanState; Splits : list AppliedEvent }.

Definition skip (e : Event) (why : string) : AppliedEvent := MkApplied e no_split no_amount why.

Definition voided_ids (events : list Event) : gset string :=
  foldl (λ s e, if bool_decide (Kind e = EntryVoided) && negb (String.eqb (VoidsEvent e) "")
    then {[VoidsEvent e]} ∪ s else s) ∅ events.

Definition ambiguous_reason : Reason :=
  MkReason "ambiguous_pre_anchor_event" "an entry dated %s predates the confirmed balance of %s".

Record Partition := MkPartition {
  pt_active : list Event;
  pt_skipped : list AppliedEvent;
  pt_reasons : list Reason;
  pt_watermark : Z }.

(** Why an event takes no part in the arithmetic, if it does not. *)
Definition exclusion (i : Input) (e : Event) : option string :=
  if bool_decide (Kind e = EntryVoided) then Some "void marker"%string
  else if bool_decide (EvID e ∈ voided_ids (Events i)) then Some "voided by a later entry"%string
  else if default false (Covered i !! EvID e) then Some "already included in the anchor balance"%string
  else if Before (ValueDate e) (SnapAsOf (Anchor i))
  then Some "predates the anchor without confirmation"%string
  else None.

Definition is_ambiguous (why : string) : bool :=
  String.eqb why "predates the anchor without confirmation".

Definition partition_step (i : Input) (p : Partition) (e : Event) : Partition :=
  let watermark := if pt_watermark p <? RecordedSeq e then RecordedSeq e else pt_watermark p in
  match exclusion i e with
  | None => MkPartition (pt_active p ++ [e]) (pt_skipped p) (pt_reasons p) watermark
  | Some why =>
      MkPartition (pt_active p) (pt_skipped p ++ [skip e why])
        (if is_ambiguous why then pt_reasons p ++ [ambiguous_reason] else pt_reasons p) watermark
  end.

Definition partition (i : Input) : Partition :=
  foldl (partition_step i) (MkPartition [] [] [] 0) (Events i).

Definition defaultFreshnessDays : Z := 35.

Definition grade (i : Input) (pos : Buckets) (reasons : list Reason) (policyUnknown : bool) :
    Reliability * list Reason :=
  if HasArrears pos || HasArrears (SnapPosition (Anchor i))
  then (Unsupported, reasons ++ [MkReason "arrears_present"
    "this loan carries penalties, overdue principal or unpaid interest, which the engine does not plan around"])
  else if existsb (λ r, String.eqb (ReasonCode r) "ambiguous_pre_anchor_event") reasons
  then (NeedsReconciliation, reasons)
  else if policyUnknown then (NeedsReconciliation, reasons)
  else if negb (bool_decide (SnapTrust (Anchor i) = BankConfirmed)) &&
    negb (bool_decide (SnapTrust (Anchor i) = ImportedVerified))
  then (Estimated, reasons ++ [MkReason "anchor_not_confirmed"
    "the opening balance was entered but not confirmed against the lender"])
  else
    let limit := if FreshnessDays i <=? 0 then defaultFreshnessDays else FreshnessDays i in
    if limit <? DaysBetween (SnapAsOf (Anchor i)) (AsOf i)
    then (Stale, reasons ++ [MkReason "anchor_stale"
      "the confirmed balance is %d days old, beyond the %d-day threshold"])
    else (Confirmed, reasons).

(** The running state of the loop over active events. *)
Record Run := MkRun {
  r_pos : Buckets;
  r_cursor : Date;
  r_applied : list AppliedEvent;
  r_unknown : bool }.

Definition no_policy : Policy := MkPolicy (MkPolicyRef "" 0) [] ExcessUnknown "".

Definition lift_call {A} (m : call A) : res (A * option gerror) :=
  match m with Ok a => Ok a | Err e => match e with end | Panic w => Panic w end.

Definition replay_event (i : Input) (r : Run) (ev : Event) : res Run :=
  contract ← wrap_err "event %s on %s: %w" (contractFor (Contracts i) (ValueDate ev));
  interest ← wrap_err "accruing to %s: %w"
    (accrueAcross (r_pos r) (Contracts i) (r_cursor r) (ValueDate ev));
  pos ← addInterest (r_pos r) interest;
  let policy := default no_policy (Policies i !! AllocationPolicy contract) in
  '((next, split), err) ← lift_call (applyEvent pos ev policy);
  let unknown := match err with Some e => errors_Is e ErrUnknownPolicy | None => false end in
  match err with
  | Some e =>
      if negb (errors_Is e ErrUnknownPolicy) then Err (Wrapf "event %s: %w" e)
      else Ok (MkRun next (ValueDate ev) (r_applied r ++ [MkApplied ev split interest ""])
        (r_unknown r || unknown))
  | None => Ok (MkRun next (ValueDate ev) (r_applied r ++ [MkApplied ev split interest ""]) (r_unknown r))
  end.

Fixpoint replay_events (i : Input) (r : Run) (events : list Event) : res Run :=
  match events with
  | [] => Ok r
  | ev :: rest => r ← replay_event i r ev; replay_events i r rest
  end.

Definition policy_reason : Reason :=
  MkReason "allocation_policy_unknown"
    "this lender's payment allocation has not been established, so the balance is not derived".

Definition Replay (i : Input) : res Result :=
  _ ← wrap_err "anchor snapshot: %w" (Snapshot_Validate (Anchor i));
  if Nat.eqb (length (Contracts i)) 0 then errorf_w "%w: loan has no contract versions" ErrNoContract
  else if Dates.IsZero (AsOf i) then errorf "replay needs an as-of date"
  else if Before (AsOf i) (SnapAsOf (Anchor i)) then errorf "as-of %s precedes the anchor %s"
  else
    let p := partition i in
    let active := SortForReplay (pt_active p) in
    r ← replay_events i (MkRun (SnapPosition (Anchor i)) (SnapAsOf (Anchor i)) (pt_skipped p) false) active;
    tail ← wrap_err "accruing to %s: %w" (accrueAcross (r_pos r) (Contracts i) (r_cursor r) (AsOf i));
    pos ← addInterest (r_pos r) tail;
    _ ← wrap_err "replay produced an impossible position: %w" (Buckets_Validate pos);
    let reasons := pt_reasons p ++ (if r_unknown r then [policy_reason] else []) in
    let '(reliability, reasons) := grade i pos reasons (r_unknown r) in
    Ok (MkResult
      (MkLoanState (SnapLoanID (Anchor i)) pos (SnapID (Anchor i)) (AsOf i) (pt_watermark p)
        (hashEvents (Anchor i) active) reliability reasons (InEngineVersion i))
      (r_applied r)).

(** * Facts *)

(** ** Which contract *)

Lemma foldl_pick d versions : ∀ best,
  (∀ b, foldl (pick d) best versions = Some b → best = Some b ∨ b ∈ versions ∧ CoversDate b d = true) ∧
  (∀ c, best = Some c ∨ c ∈ versions ∧ CoversDate c d = true →
    ∃ b, foldl (pick d) best versions = Some b ∧ Compare (EffectiveFrom c) (EffectiveFrom b) ≤ 0).
Proof.
  induction versions as [|v versions IH]; intros best; simpl.
  { split; [by left|]. intros c [->|[Hc _]]; [|by apply not_elem_of_nil in Hc].
    exists c. split; [done|]. rewrite (proj2 (Compare_eq _ _)); done. }
  destruct (IH (pick d best v)) as [H1 H2]. split.
  - intros b Hb. destruct (H1 b Hb) as [E|[? ?]]; [|right; split; [by right|done]].
    unfold pick in E. destruct (CoversDate v d) eqn:Ec; simpl in E; [|by left].
    destruct best as [b0|]; [destruct (After _ _)|]; try by left.
    all: injection E as <-; right; split; [by left|done].
  - intros c Hc.
    assert (∃ c', (pick d best v = Some c' ∨ c' ∈ versions ∧ CoversDate c' d = true) ∧
      Compare (EffectiveFrom c) (EffectiveFrom c') ≤ 0) as (c' & Hc' & Hle).
    { assert (∀ x, Compare x x ≤ 0) as Hrefl by (intros x; rewrite (proj2 (Compare_eq x x)); done).
      destruct Hc as [->|[[->|Hin]%elem_of_cons Hcov]]; [| |by exists c; auto].
      - unfold pick. destruct (CoversDate v d); simpl; [|by exists c; auto].
        destruct (After (EffectiveFrom v) (EffectiveFrom c)) eqn:Ea; [|by exists c; auto].
        exists v. split; [by left|]. unfold After in Ea.
        rewrite (Compare_opp (EffectiveFrom v) (EffectiveFrom c)). lia.
      - unfold pick. rewrite Hcov. simpl. destruct best as [b0|]; [|by exists v; auto].
        destruct (After (EffectiveFrom v) (EffectiveFrom b0)) eqn:Ea; [by exists v; auto|].
        exists b0. split; [by left|]. unfold After in Ea. lia. }
    destruct (H2 c' Hc') as (b & Hb & Hle'). exists b. split; [done|]. by eapply Compare_trans.
Qed.

Lemma contractFor_Ok versions d c :
  contractFor versions d = Ok c →
  c ∈ versions ∧ CoversDate c d = true ∧
  ∀ c', c' ∈ versions → CoversDate c' d = true → Compare (EffectiveFrom c') (EffectiveFrom c) ≤ 0.
Proof.
  unfold contractFor, errorf_w. destruct (foldl_pick d versions None) as [H1 H2].
  destruct (foldl (pick d) None versions) as [b|] eqn:E; [|done]. intros [= <-].
  destruct (H1 b eq_refl) as [|[? ?]]; [done|]. split_and!; try done.
  intros c' Hc' Hcov. destruct (H2 c' (or_intror (conj Hc' Hcov))) as (? & [= <-] & ?). done.
Qed.

Lemma contractFor_Err versions d :
  (∀ c, c ∈ versions → CoversDate c d = false) ↔ contractFor versions d = errorf_w "%w: %s" ErrNoContract.
Proof.
  unfold contractFor, errorf_w. destruct (foldl_pick d versions None) as [H1 H2].
  destruct (foldl (pick d) None versions) as [b|] eqn:E.
  - split; [|done]. intros H. destruct (H1 b eq_refl) as [|[Hin Hcov]]; [done|]. by rewrite H in Hcov.
  - split; [done|]. intros _ c Hc. destruct (CoversDate c d) eqn:Ec; [|done].
    by destruct (H2 c (or_intror (conj Hc Ec))) as (? & ? & ?).
Qed.

Lemma contractFor_result versions d :
  (∃ c, contractFor versions d = Ok c) ∨ contractFor versions d = errorf_w "%w: %s" ErrNoContract.
Proof. unfold contractFor. destruct (foldl _ _ _); [left; by eexists|by right]. Qed.

(** ** Accrual across versions *)

(** Versions that still end after a date: what bounds the loop. *)
Definition open_versions (versions : list Contract) (from : Date) : nat :=
  length (filter (λ c, Before from (EffectiveThru c) = true) versions).

Lemma Before_trans a b c : Before a b = true → Before b c = true → Before a c = true.
Proof.
  unfold Before. rewrite !Z.ltb_lt. intros Hab Hbc.
  pose proof (Compare_trans a b c ltac:(lia) ltac:(lia)).
  destruct (decide (Compare a c = 0)) as [->%Compare_eq|]; [|lia].
  rewrite (Compare_opp b c) in *. lia.
Qed.

Lemma Before_irrefl a : Before a a = false.
Proof. unfold Before. by rewrite (proj2 (Compare_eq a a)). Qed.

Lemma open_versions_lt versions c from :
  c ∈ versions → Before from (EffectiveThru c) = true →
  (open_versions versions (EffectiveThru c) < open_versions versions from)%nat.
Proof.
  intros Hc Hb. unfold open_versions.
  assert (∀ l, (length (filter (λ c', Before (EffectiveThru c) (EffectiveThru c') = true) l) ≤
    length (filter (λ c', Before from (EffectiveThru c') = true) l))%nat) as Hle.
  { induction l as [|v l IH]; [done|]. rewrite !filter_cons.
    destruct (decide (Before (EffectiveThru c) (EffectiveThru v) = true)) as [Ht|];
      [|case_decide; simpl; lia].
    rewrite decide_True by (by eapply Before_trans). simpl. lia. }
  induction versions as [|v versions IH]; [by apply not_elem_of_nil in Hc|].
  rewrite !filter_cons. apply elem_of_cons in Hc as [<-|Hc].
  - rewrite Before_irrefl, decide_False, decide_True by done. simpl. specialize (Hle versions). lia.
  - specialize (IH Hc).
    destruct (decide (Before (EffectiveThru c) (EffectiveThru v) = true)) as [Ht|];
      [|case_decide; simpl; lia].
    rewrite decide_True by (by eapply Before_trans). simpl. lia.
Qed.

(** Each segment but the last ends a version, so the loop always answers. *)
Lemma across_never_stuck fuel : ∀ pos versions from to total,
  (open_versions versions from < fuel)%nat →
  ∃ r, accrue_segments fuel pos versions from to total = Some r.
Proof.
  induction fuel as [|fuel IH]; intros pos versions from to total Hf; [lia|]. cbn [accrue_segments].
  destruct (Before from to) eqn:Eb; [|by eexists].
  destruct (contractFor versions (AddDays from 1)) as [c| |] eqn:Ec; [|by eexists..].
  destruct (After (segment_end c to) from) eqn:Ea; cbn [negb]; [|by eexists].
  destruct (accrue pos c from (segment_end c to) ≫= _) as [total'| |]; [|by eexists..].
  unfold segment_end in *. destruct (negb (Dates.IsZero (EffectiveThru c)) && Before (EffectiveThru c) to)%bool eqn:E.
  - apply IH. apply contractFor_Ok in Ec as [Hin _]. rewrite After_Before in Ea.
    pose proof (open_versions_lt versions c from Hin Ea). lia.
  - destruct fuel as [|fuel]; cbn [accrue_segments]; rewrite Before_irrefl; by eexists.
Qed.

Lemma accrueAcross_segments pos versions from to :
  Some (accrueAcross pos versions from to) =
  accrue_segments (S (length versions)) pos versions from to (Zero (Buckets_Currency pos)).
Proof.
  unfold accrueAcross.
  destruct (across_never_stuck (S (length versions)) pos versions from to (Zero (Buckets_Currency pos)))
    as [r ->]; [|done].
  unfold open_versions. pose proof (length_filter (λ c, Before from (EffectiveThru c) = true) versions). lia.
Qed.

(** Days the engine writes: valid, with a four-digit year. *)
Definition wf_day (d : Date) : Prop := valid d ∧ 0 ≤ Year d ≤ 9999.

(** A contract version whose accruals are exact and whose range is closed by a
    real day, if it is closed. *)
Definition wf_version (c : Contract) : Prop :=
  accrual_terms (NominalRate c) (ContractDayCount c) (Rounding c) ∧
  (Dates.IsZero (EffectiveThru c) = true ∨ wf_day (EffectiveThru c)).

Lemma Days30360_small a b : wf_day a → wf_day b → Days30360 a b ≤ MaxInt64.
Proof.
  intros [[Ha Hda] Hya] [[Hb Hdb] Hyb]. pose proof (month_len_range (Year a) (Month a)).
  pose proof (month_len_range (Year b) (Month b)). unfold Days30360, MaxInt64. repeat case_match; lia.
Qed.

Lemma Zero_in_position pos : in_position pos (Zero (Buckets_Currency pos)).
Proof. split; [simpl; unfold MaxInt64; lia|done]. Qed.

Lemma accrue_sound pos c from to a :
  wf_position pos → wf_version c → wf_day from → wf_day to →
  accrue pos c from to = Ok a → in_position pos a.
Proof.
  intros Hpos [Ht _] Hf Hto H. unfold accrue in H. cbv zeta in H.
  pose proof (DaysBetween_max from to) as Hmax. pose proof (Days30360_small from to Hf Hto) as H30.
  destruct (Z.leb_spec (DaysBetween from to) 0); [injection H as <-; apply Zero_in_position|].
  set (days := if bool_decide (ContractDayCount c = Thirty360) then Days30360 from to
    else DaysBetween from to) in *.
  destruct (bool_decide (ContractDayCount c = Thirty360) && (days <=? 0))%bool eqn:Ed;
    [injection H as <-; apply Zero_in_position|].
  assert (0 ≤ days ≤ MaxInt64) as Hd.
  { unfold days in *. destruct (bool_decide _); simpl in Ed; unfold MaxInt64 in *; lia. }
  destruct (Hpos Principal) as [Hp Hpc]. destruct (Hpos OverduePrincipal) as [Ho Hoc]. simpl in *.
  apply bind_Ok in H as (base & Hb & H). apply Add_nonneg_iff in Hb as [Hsum ->]; [|done|done|congruence].
  destruct (Sign _ <=? 0); [injection H as <-; apply Zero_in_position|].
  apply Accrue_Ok_iff in H as [Hfit ->]; [|done|unfold_i64; lia|simpl; lia|done]. simpl in *.
  pose proof (accrual_nonneg (minor (pPrincipal pos) + minor (pOverduePrincipal pos)) (NominalRate c) days
    (ContractDayCount c) (Rounding c) ltac:(lia) ltac:(lia) ltac:(apply Ht)) as Hacc.
  split; [simpl|done]. destruct Hfit as [E|[_ ?]]; [|done]. split; [done|].
  unfold accrual. rewrite E, Z.mul_0_r, Z.mul_0_l, round_div_0; [unfold MaxInt64; lia|].
  pose proof (unit_of_pos (Rounding c)). pose proof (Denominator_range (ContractDayCount c)).
  unfold ratePPB. lia.
Qed.

Record segment := MkSegment { sg_contract : Contract; sg_from : Date; sg_to : Date; sg_interest : Amount }.

(** Segments laid end to end from one date until another is reached. *)
Fixpoint tiles (from to : Date) (l : list segment) : Prop :=
  match l with
  | [] => Before from to = false
  | s :: l => sg_from s = from ∧ Before from to = true ∧ Before from (sg_to s) = true ∧ tiles (sg_to s) to l
  end.

(** A segment accrues under the version governing its first day, and stops at
    that version's last day or at the end. *)
Definition governed (pos : Buckets) (versions : list Contract) (to : Date) (s : segment) : Prop :=
  contractFor versions (AddDays (sg_from s) 1) = Ok (sg_contract s) ∧
  sg_to s = segment_end (sg_contract s) to ∧
  accrue pos (sg_contract s) (sg_from s) (sg_to s) = Ok (sg_interest s).

Lemma segment_end_wf c to : wf_version c → wf_day to → wf_day (segment_end c to).
Proof.
  intros [_ Hthru] Hto. unfold segment_end. destruct Hthru as [->|Hthru]; [done|].
  by destruct (negb _ && _)%bool.
Qed.

Lemma accrue_segments_sound fuel : ∀ pos versions from to total a,
  wf_position pos → Forall wf_version versions → wf_day from → wf_day to → in_position pos total →
  accrue_segments fuel pos versions from to total = Some (Ok a) →
  in_position pos a ∧ ∃ l, tiles from to l ∧ Forall (governed pos versions to) l ∧
    minor a = minor total + sum_by (λ s, minor (sg_interest s)) l.
Proof.
  induction fuel as [|fuel IH]; intros pos versions from to total a Hpos Hv Hf Ht Htot H;
    cbn [accrue_segments] in H; destruct (Before from to) eqn:Eb; try done.
  1,3: injection H as <-; split; [done|]; exists []; split_and!; [done|done|unfold sum_by; simpl; lia].
  destruct (contractFor versions (AddDays from 1)) as [c| |] eqn:Ec; [|done|done].
  destruct (After (segment_end c to) from) eqn:Ea; cbn [negb] in H; [|done].
  destruct (accrue pos c from (segment_end c to) ≫= _) as [total'| |] eqn:Et; [|done|done].
  apply bind_Ok in Et as (part & Hpart & Et).
  pose proof (contractFor_Ok _ _ _ Ec) as (Hin & _). rewrite Forall_forall in Hv. pose proof (Hv c Hin) as Hvc.
  pose proof (segment_end_wf c to Hvc Ht) as Hse.
  pose proof (accrue_sound pos c from _ part Hpos Hvc Hf Hse Hpart) as [Hp Hpc]. destruct Htot as [Htm Htc].
  apply Add_nonneg_iff in Et as [Hsum ->]; [|done|done|congruence].
  apply IH in H as [Ha (l & Hl & Hg & Hs)]; [|done|by apply Forall_forall|done|done|].
  2: { split; simpl; [lia|done]. }
  split; [done|]. exists (MkSegment c from (segment_end c to) part :: l). split_and!.
  - simpl. split_and!; try done. by rewrite <- After_Before.
  - by constructor.
  - simpl in Hs. unfold sum_by in *. simpl. lia.
Qed.

#[local] Strategy 100 [accrue_segments].

Lemma accrueAcross_sound pos versions from to a :
  wf_position pos → Forall wf_version versions → wf_day from → wf_day to →
  accrueAcross pos versions from to = Ok a →
  in_position pos a ∧ ∃ l, tiles from to l ∧ Forall (governed pos versions to) l ∧
    minor a = sum_by (λ s, minor (sg_interest s)) l.
Proof.
  intros Hpos Hv Hf Ht H. pose proof (accrueAcross_segments pos versions from to) as E.
  apply eq_sym in E. rewrite H in E. pose proof (Zero_in_position pos) as Hz.
  destruct (accrue_segments_sound _ pos versions from to _ a Hpos Hv Hf Ht Hz E) as (Ha & l & Hl & Hg & Hs).
  split; [exact Ha|]. exists l. split; [exact Hl|]. split; [exact Hg|]. rewrite Hs. apply Z.add_0_l.
Qed.

(** ** Positions stay possible *)

Lemma addInterest_sound pos interest pos' :
  wf_position pos → in_position pos interest → addInterest pos interest = Ok pos' →
  wf_position pos' ∧ Code (Buckets_Currency pos') = Code (Buckets_Currency pos) ∧
  minor (pAccruedInterest pos') = minor (pAccruedInterest pos) + minor interest ∧
  ∀ k, k ≠ AccruedInterest → Get pos' k = Get pos k.
Proof.
  intros Hpos [Hi Hic] H. unfold addInterest in H. destruct (Hpos AccruedInterest) as [Ha Hac]. simpl in *.
  destruct (Sign interest =? 0) eqn:Es.
  - injection H as <-. split_and!; try done. unfold Sign in Es. repeat case_match; lia.
  - apply bind_Ok in H as (sum & Hsum & [= <-]). apply Add_nonneg_iff in Hsum as [Hs ->]; [|done|done|congruence].
    destruct (With_wf pos AccruedInterest (MkAmount (minor (pAccruedInterest pos) + minor interest)
      (cur (pAccruedInterest pos))) Hpos) as [Hwf Hcode]; [split; simpl; [lia|done]|].
    split_and!; [done|done| |].
    + by destruct pos.
    + intros k Hk. rewrite Get_With. by rewrite decide_False.
Qed.

(** An event whose amount can be booked on the loan. *)
Definition wf_event (c : Currency) (e : Event) : Prop :=
  wf_day (ValueDate e) ∧
  (Kind e ≠ EntryVoided → Kind e ≠ LoanClosedReported →
    0 < minor (EvAmount e) ≤ MaxInt64 ∧ Code (cur (EvAmount e)) = Code c).

Lemma NewBuckets_wf c : wf_position (NewBuckets c) ∧ Buckets_Currency (NewBuckets c) = c.
Proof. split; [|done]. intros []; simpl; unfold MaxInt64; split; done || lia. Qed.

Lemma applyEvent_sound pos ev p pos' s err :
  wf_position pos → wf_event (Buckets_Currency pos) ev →
  applyEvent pos ev p = Ok ((pos', s), err) →
  (err = None ∨ err = Some (Sentinel ErrUnknownPolicy)) →
  wf_position pos' ∧ Code (Buckets_Currency pos') = Code (Buckets_Currency pos).
Proof.
  intros Hpos [_ Hev] H Herr. unfold applyEvent in H.
  assert (∀ pay, Apply pos pay p = Ok ((pos', s), err) → 0 < minor pay ≤ MaxInt64 →
    wf_position pos' ∧ Code (Buckets_Currency pos') = Code (Buckets_Currency pos)) as Hpay.
  { intros pay Ha Hm. destruct Herr as [-> | ->].
    - destruct (Apply_books _ _ _ _ _ Hpos (proj2 Hm) Ha) as (p1 & r1 & a1 & _ & Hs & _ & Hb).
      pose proof (booked_wf _ _ _ _ _ Hb). pose proof (booked_code _ _ _ _ _ Hb).
      pose proof (settled_code _ _ _ _ _ _ Hs). split; [done|congruence].
    - apply Apply_err_same in Ha as ->; [done|done|lia]. }
  destruct (Kind ev) eqn:Ek.
  - apply (Hpay (EvAmount ev)); [done|by apply Hev].
  - apply (Hpay (EvAmount ev)); [done|by apply Hev].
  - destruct (Hev ltac:(done) ltac:(done)) as [Hm Hc]. destruct (Hpos CurrentFees) as [Hf Hfc]. simpl in Hf, Hfc.
    destruct (Add (pCurrentFees pos) (EvAmount ev)) as [fees|e|] eqn:Ea; simpl in H; [|naive_solver|done].
    apply Add_nonneg_iff in Ea as [Hs ->]; [|done|lia|congruence]. injection H as <- _ _.
    apply With_wf; [done|]. split; simpl; [lia|done].
  - injection H as <- _ _. done.
  - injection H as <- _ _. destruct (NewBuckets_wf (Buckets_Currency pos)) as [? E]. by rewrite E.
Qed.

(** ** Partition *)

Lemma elem_of_voided events id :
  id ∈ voided_ids events ↔ id ≠ ""%string ∧ ∃ e, e ∈ events ∧ Kind e = EntryVoided ∧ VoidsEvent e = id.
Proof.
  unfold voided_ids.
  assert (∀ s : gset string, id ∈ foldl (λ s e, if bool_decide (Kind e = EntryVoided) &&
      negb (String.eqb (VoidsEvent e) "") then {[VoidsEvent e]} ∪ s else s) s events ↔
    id ∈ s ∨ id ≠ ""%string ∧ ∃ e, e ∈ events ∧ Kind e = EntryVoided ∧ VoidsEvent e = id) as H.
  { induction events as [|e events IH]; intros s; simpl.
    - split; [by left|]. intros [?|(_ & e & He & _)]; [done|by apply not_elem_of_nil in He].
    - rewrite IH. setoid_rewrite elem_of_cons.
      destruct (bool_decide_reflect (Kind e = EntryVoided)), (String.eqb_spec (VoidsEvent e) ""); simpl;
        rewrite ?elem_of_union, ?elem_of_singleton; naive_solver. }
  rewrite H. set_solver.
Qed.

Lemma voided_perm events events' : events ≡ₚ events' → voided_ids events = voided_ids events'.
Proof.
  intros Hp. apply set_eq. intros id. rewrite !elem_of_voided. by setoid_rewrite Hp.
Qed.

(** One pass over the events: each is active, or skipped with its reason. *)
Definition ambiguous (i : Input) (e : Event) : option Reason :=
  why ← exclusion i e; if is_ambiguous why then Some ambiguous_reason else None.

Lemma partition_eq i :
  partition i = MkPartition
    (filter (λ e, exclusion i e = None) (Events i))
    (omap (λ e, skip e <$> exclusion i e) (Events i))
    (omap (ambiguous i) (Events i))
    (foldr (λ e m, Z.max (RecordedSeq e) m) 0 (Events i)).
Proof.
  unfold partition.
  assert (∀ l a s r w, foldl (partition_step i) (MkPartition a s r w) l =
    MkPartition (a ++ filter (λ e, exclusion i e = None) l) (s ++ omap (λ e, skip e <$> exclusion i e) l)
      (r ++ omap (ambiguous i) l) (Z.max w (foldr (λ e m, Z.max (RecordedSeq e) m) w l))) as H.
  { induction l as [|e l IH]; intros a s r w; [simpl; by rewrite !app_nil_r, Z.max_id|].
    rewrite filter_cons. cbn [foldl foldr].
    assert (omap (λ e, skip e <$> exclusion i e) (e :: l) =
      match exclusion i e with Some why => [skip e why] | None => [] end ++
      omap (λ e, skip e <$> exclusion i e) l) as -> by (simpl; by destruct (exclusion i e)).
    assert (omap (ambiguous i) (e :: l) =
      match ambiguous i e with Some r => [r] | None => [] end ++ omap (ambiguous i) l) as ->
      by (simpl; by destruct (ambiguous i e)).
    unfold partition_step at 2. cbn [pt_watermark pt_active pt_skipped pt_reasons].
    assert (∀ x y, Z.max (if x <? y then y else x) (foldr (λ e m, Z.max (RecordedSeq e) m)
      (if x <? y then y else x) l) = Z.max x (Z.max y (foldr (λ e m, Z.max (RecordedSeq e) m) x l))) as Hm.
    { intros x y. assert (∀ v, foldr (λ e m, Z.max (RecordedSeq e) m) v l =
        match l with [] => v | _ => foldr (λ e m, Z.max (RecordedSeq e) m) v l end) as _ by (by destruct l).
      assert (∀ u v, Z.max u (foldr (λ e m, Z.max (RecordedSeq e) m) v l) =
        foldr (λ e m, Z.max (RecordedSeq e) m) (Z.max u v) l) as Hf.
      { clear. induction l as [|e l IH]; intros u v; simpl; [done|]. rewrite <- IH. lia. }
      rewrite !Hf. f_equal. destruct (Z.ltb_spec x y); lia. }
    unfold ambiguous at 1. destruct (decide (exclusion i e = None)) as [E|E].
    - rewrite E, IH, Hm. cbn. by rewrite <- app_assoc.
    - destruct (exclusion i e) as [why|] eqn:Ew; [|done]. rewrite IH, Hm. cbn.
      destruct (is_ambiguous why); simpl; rewrite <- ?app_assoc; done. }
  rewrite H. simpl. f_equal.
  assert (0 ≤ foldr (λ e m, Z.max (RecordedSeq e) m) 0 (Events i)); [|lia].
  induction (Events i) as [|e l IH]; simpl; lia.
Qed.

(** Everything but the storage order of the events. *)
Definition with_events (i : Input) (events : list Event) : Input :=
  MkInput (Contracts i) (Anchor i) events (Covered i) (Policies i) (AsOf i) (FreshnessDays i)
    (InEngineVersion i).

Lemma exclusion_perm i events :
  Events i ≡ₚ events → ∀ e, exclusion (with_events i events) e = exclusion i e.
Proof. intros Hp e. unfold exclusion, with_events. simpl. by rewrite (voided_perm _ _ Hp). Qed.

Lemma omap_perm {A B} (f : A → option B) (l l' : list A) : l ≡ₚ l' → omap f l ≡ₚ omap f l'.
Proof.
  induction 1 as [|x l l' _ IH|x y l|l1 l2 l3 _ IH1 _ IH2]; simpl; [done| | |by trans (omap f l2)].
  - destruct (f x); [by f_equiv|done].
  - destruct (f x), (f y); try done. apply Permutation_swap.
Qed.

Lemma filter_ext {A} (P Q : A → Prop) `{∀ x, Decision (P x)} `{∀ x, Decision (Q x)} (l : list A) :
  (∀ x, P x ↔ Q x) → filter P l = filter Q l.
Proof.
  intros HPQ. induction l as [|x l IH]; [done|]. rewrite !filter_cons, IH.
  destruct (decide (P x)), (decide (Q x)); naive_solver.
Qed.

Lemma omap_ext {A B} (f g : A → option B) (l : list A) : (∀ x, f x = g x) → omap f l = omap g l.
Proof. intros H. induction l as [|x l IH]; [done|].
  change (omap f (x :: l)) with (match f x with Some y => y :: omap f l | None => omap f l end).
  rewrite IH, H. done.
Qed.

Lemma partition_perm i events :
  Events i ≡ₚ events →
  pt_active (partition (with_events i events)) ≡ₚ pt_active (partition i) ∧
  pt_skipped (partition (with_events i events)) ≡ₚ pt_skipped (partition i) ∧
  pt_reasons (partition (with_events i events)) ≡ₚ pt_reasons (partition i) ∧
  pt_watermark (partition (with_events i events)) = pt_watermark (partition i).
Proof.
  intros Hp. pose proof (exclusion_perm i events Hp) as Hex. rewrite !partition_eq. simpl. split_and!.
  - rewrite (filter_ext _ (λ e, exclusion i e = None)) by (intros e; by rewrite Hex). by rewrite Hp.
  - rewrite (omap_ext _ (λ e, skip e <$> exclusion i e)) by (intros e; by rewrite Hex).
    symmetry. by apply omap_perm.
  - rewrite (omap_ext _ (ambiguous i)) by (intros e; unfold ambiguous; by rewrite Hex).
    symmetry. by apply omap_perm.
  - symmetry. revert Hp. clear. induction 1; simpl; lia.
Qed.

(** ** The loop *)

Definition with_applied (l : list AppliedEvent) (r : Run) : Run :=
  MkRun (r_pos r) (r_cursor r) (l ++ r_applied r) (r_unknown r).
Definition on_ok {A B} (f : A → B) (m : res A) : res B := a ← m; Ok (f a).

(** What was skipped before only prefixes the record. *)
Lemma replay_event_applied i ev l r :
  replay_event i (with_applied l r) ev = on_ok (with_applied l) (replay_event i r ev).
Proof.
  unfold replay_event, on_ok. cbn [with_applied r_pos r_cursor r_unknown r_applied].
  destruct (wrap_err _ (contractFor _ _)) as [c| |]; simpl; [|done|done].
  destruct (wrap_err _ (accrueAcross _ _ _ _)) as [a| |]; simpl; [|done|done].
  destruct (addInterest _ _) as [pos| |]; simpl; [|done|done].
  destruct (lift_call _) as [[[next split] err]| |]; simpl; [|done|done].
  destruct err as [e|]; simpl; [destruct (errors_Is e ErrUnknownPolicy); simpl|];
    unfold with_applied; simpl; by rewrite <- ?app_assoc.
Qed.

Lemma replay_events_applied i events : ∀ l r,
  replay_events i (with_applied l r) events = on_ok (with_applied l) (replay_events i r events).
Proof.
  induction events as [|ev events IH]; intros l r; [done|]. simpl. rewrite replay_event_applied.
  destruct (replay_event i r ev); simpl; [|done|done]. apply IH.
Qed.

Lemma replay_events_inputs i i' events : ∀ r,
  Contracts i' = Contracts i → Policies i' = Policies i →
  replay_events i' r events = replay_events i r events.
Proof.
  intros r Hc Hp. revert r. induction events as [|ev events IH]; intros r; [done|]. simpl.
  assert (replay_event i' r ev = replay_event i r ev) as ->; [|destruct (replay_event i r ev); simpl; auto].
  unfold replay_event. by rewrite Hc, Hp.
Qed.

(** ** Soundness of a run *)

(** The only error an event can end in that [errors.Is] takes for an
    unestablished policy is that sentinel itself. *)
Lemma Add_error_kind a b e s : Add a b = Err e → errors_Is e s = true → s = ErrOverflow.
Proof.
  unfold Add, mustMatch, errorf_w. destruct (String.eqb _ _); simpl; [|done].
  destruct (_ || _)%bool; [|done]. intros [= <-]. simpl. by rewrite bool_decide_eq_true.
Qed.

Lemma Sub_error_kind a b e s : Sub a b = Err e → errors_Is e s = true → s = ErrOverflow.
Proof.
  unfold Sub, mustMatch, errorf_w. destruct (String.eqb _ _); simpl; [|done].
  destruct (_ || _)%bool; [|done]. intros [= <-]. simpl. by rewrite bool_decide_eq_true.
Qed.

Lemma Min_no_error a b e : Min a b ≠ Err e.
Proof. unfold Min, Cmp, mustMatch. destruct (String.eqb _ _); done. Qed.

Lemma settle_error_kind ord : ∀ pos rem applied x e s,
  settle ord pos rem applied = Ok (x, Some e) → errors_Is e s = true → s = ErrOverflow.
Proof.
  induction ord as [|k ord IH]; intros pos rem applied x e s H He; [done|]. cbn [settle] in H.
  destruct (Sign rem <=? 0); [done|]. destruct (Sign (Get pos k) <=? 0); [by eapply IH|].
  destruct (Min _ _) as [take|e'|] eqn:Em; cbn [try] in H; [|by apply Min_no_error in Em|done].
  destruct (Sub (Get pos k) take) as [l|e'|] eqn:E1; cbn [try] in H;
    [|injection H as _ ->; by eapply Sub_error_kind|done].
  destruct (Sub rem take) as [l'|e'|] eqn:E2; cbn [try] in H;
    [|injection H as _ ->; by eapply Sub_error_kind|done].
  by eapply IH.
Qed.

Lemma unknown_policy_error pos ev p x e :
  applyEvent pos ev p = Ok (x, Some e) → errors_Is e ErrUnknownPolicy = true →
  e = Sentinel ErrUnknownPolicy.
Proof.
  intros H He. assert (∀ pay, Apply pos pay p = Ok (x, Some e) → e = Sentinel ErrUnknownPolicy) as Hpay.
  { intros pay Ha. unfold Apply in Ha. destruct (negb _); [injection Ha as _ <-; done|].
    destruct (Sign pay <=? 0); [injection Ha as _ <-; done|].
    destruct (negb (IsKnown p)); [by injection Ha|].
    destruct (settle _ _ _ _) as [[[[p1 r1] a1] [e1|]]| |] eqn:Es; simpl in Ha; try done.
    - injection Ha as _ ->. by pose proof (settle_error_kind _ _ _ _ _ _ _ Es He).
    - destruct (Sign r1 <=? 0); [done|]. unfold surplus, try in Ha.
      destruct (Excess p); try done; destruct (Add (pAdvanceCredit p1) r1) as [|e'|] eqn:Ea; try done;
        injection Ha as _ ->; by pose proof (Add_error_kind _ _ _ _ Ea He). }
  unfold applyEvent, try in H. destruct (Kind ev); [by eapply Hpay..| | |done].
  - destruct (Add (pCurrentFees pos) (EvAmount ev)) as [|e'|] eqn:Ea; try done.
    injection H as _ ->. by pose proof (Add_error_kind _ _ _ _ Ea He).
  - injection H as _ <-. done.
Qed.

Definition run_sound (c : Currency) (r : Run) : Prop :=
  wf_position (r_pos r) ∧ Code (Buckets_Currency (r_pos r)) = Code c ∧ wf_day (r_cursor r).

Lemma wf_event_code c c' e : Code c = Code c' → wf_event c e → wf_event c' e.
Proof. intros E [H1 H2]. split; [done|]. by rewrite <- E. Qed.

Lemma replay_event_sound i c r ev r' :
  Forall wf_version (Contracts i) → run_sound c r → wf_event c ev →
  replay_event i r ev = Ok r' → run_sound c r'.
Proof.
  intros Hv (Hpos & Hcode & Hday) Hev H. unfold replay_event in H.
  apply bind_Ok in H as (con & _ & H). apply bind_Ok in H as (int & Hint & H).
  apply wrap_err_Ok, accrueAcross_sound in Hint as [Hin _]; [|done..|apply Hev].
  apply bind_Ok in H as (pos & Hp & H). apply addInterest_sound in Hp as (Hwf & Hc & _); [|done|done].
  apply bind_Ok in H as ([[next split] err] & Ha & H).
  assert (applyEvent pos ev (default no_policy (Policies i !! AllocationPolicy con)) = Ok ((next, split), err)) as Ha'
    by (unfold lift_call in Ha; destruct (applyEvent _ _ _) as [|[]|]; congruence).
  assert (wf_event (Buckets_Currency pos) ev) as Hev' by (eapply wf_event_code; [|exact Hev]; congruence).
  pose proof (proj1 Hev) as Hvd.
  destruct err as [e|].
  - destruct (errors_Is e ErrUnknownPolicy) eqn:Ee; simpl in H; [|done]. injection H as <-.
    assert (e = Sentinel ErrUnknownPolicy) as ->.
    { apply (unknown_policy_error _ _ _ _ _ Ha' Ee). }
    apply applyEvent_sound in Ha' as [? ?]; [|done|done|by right]. split_and!; simpl; [done|congruence|done].
  - injection H as <-. apply applyEvent_sound in Ha' as [? ?]; [|done|done|by left].
    split_and!; simpl; [done|congruence|done].
Qed.

Lemma replay_events_sound i c events : ∀ r r',
  Forall wf_version (Contracts i) → run_sound c r → Forall (wf_event c) events →
  replay_events i r events = Ok r' → run_sound c r'.
Proof.
  induction events as [|ev events IH]; intros r r' Hv Hr He H; [by injection H as <-|].
  apply Forall_cons in He as [Hev He]. apply bind_Ok in H as (r1 & H1 & H).
  eapply IH; [done| |done|exact H]. by eapply replay_event_sound.
Qed.

(** What replay is given: the anchor is a possible position on a real day, the
    contract versions accrue exactly, and the entries are bookable. *)
Record wf_input (i : Input) : Prop := {
  wi_anchor : wf_position (SnapPosition (Anchor i));
  wi_anchor_day : wf_day (SnapAsOf (Anchor i));
  wi_as_of : wf_day (AsOf i);
  wi_versions : Forall wf_version (Contracts i);
  wi_events : Forall (wf_event (Buckets_Currency (SnapPosition (Anchor i)))) (Events i) }.

Definition anchor_run (i : Input) : Run :=
  MkRun (SnapPosition (Anchor i)) (SnapAsOf (Anchor i)) (pt_skipped (partition i)) false.
Definition active_events (i : Input) : list Event := SortForReplay (pt_active (partition i)).

Lemma active_events_in i e : e ∈ active_events i → e ∈ Events i.
Proof.
  unfold active_events. rewrite SortForReplay_perm, partition_eq. simpl.
  by intros [_ ?]%list_elem_of_filter.
Qed.

(** The position replay arrives at before its last check. *)
Definition final_position (i : Input) : res (Run * Buckets) :=
  r ← replay_events i (anchor_run i) (active_events i);
  tail ← wrap_err "accruing to %s: %w" (accrueAcross (r_pos r) (Contracts i) (r_cursor r) (AsOf i));
  pos ← addInterest (r_pos r) tail;
  Ok (r, pos).

Lemma final_position_sound i r pos :
  wf_input i → final_position i = Ok (r, pos) →
  wf_position pos ∧ Code (Buckets_Currency pos) = Code (Buckets_Currency (SnapPosition (Anchor i))).
Proof.
  intros [Ha Had Has Hv He] H. unfold final_position in H.
  apply bind_Ok in H as (r1 & Hr & H). apply bind_Ok in H as (t & Ht & H).
  apply bind_Ok in H as (p & Hp & [= <- <-]).
  eapply replay_events_sound in Hr as (Hwf & Hcode & Hday); [|done| |].
  - apply wrap_err_Ok, accrueAcross_sound in Ht as [Hin _]; [|done..].
    apply addInterest_sound in Hp as (? & E & _); [|done|done]. split; [done|]. rewrite E. exact Hcode.
  - by split_and!.
  - apply Forall_forall. intros e Hin%active_events_in. rewrite Forall_forall in He. by apply He.
Qed.

Lemma wf_position_validates pos : wf_position pos → Buckets_Validate pos = Ok tt.
Proof.
  intros H. apply Buckets_Validate_Ok; [|done]. intros k. destruct (H k) as [? _]. unfold_i64. lia.
Qed.

(** The guards at the top of [Replay]. *)
Definition replay_guards (i : Input) : res unit :=
  _ ← wrap_err "anchor snapshot: %w" (Snapshot_Validate (Anchor i));
  if Nat.eqb (length (Contracts i)) 0 then errorf_w "%w: loan has no contract versions" ErrNoContract
  else if Dates.IsZero (AsOf i) then errorf "replay needs an as-of date"
  else if Before (AsOf i) (SnapAsOf (Anchor i)) then errorf "as-of %s precedes the anchor %s"
  else Ok tt.

(** The report made from a run and its position. *)
Definition report (i : Input) (r : Run) (pos : Buckets) : Result :=
  let reasons := pt_reasons (partition i) ++ (if r_unknown r then [policy_reason] else []) in
  let '(reliability, reasons) := grade i pos reasons (r_unknown r) in
  MkResult
    (MkLoanState (SnapLoanID (Anchor i)) pos (SnapID (Anchor i)) (AsOf i) (pt_watermark (partition i))
      (hashEvents (Anchor i) (active_events i)) reliability reasons (InEngineVersion i))
    (r_applied r).

Lemma Replay_eq i :
  Replay i =
  (_ ← replay_guards i;
   '(r, pos) ← final_position i;
   _ ← wrap_err "replay produced an impossible position: %w" (Buckets_Validate pos);
   Ok (report i r pos)).
Proof.
  unfold Replay, replay_guards, final_position, report, anchor_run, active_events.
  destruct (wrap_err _ (Snapshot_Validate (Anchor i))); simpl; [|done|done].
  destruct (Nat.eqb _ _); [done|]. destruct (Dates.IsZero _); [done|]. destruct (Before _ _); [done|]. simpl.
  destruct (replay_events _ _ _) as [r| |]; simpl; [|done|done].
  destruct (wrap_err _ (accrueAcross _ _ _ _)) as [t| |]; simpl; [|done|done].
  destruct (addInterest _ _) as [pos| |]; simpl; [|done|done].
  destruct (wrap_err _ (Buckets_Validate pos)); simpl; [|done|done]. by destruct (grade _ _ _ _).
Qed.

(** The grade reads the reasons only as a set. *)
Lemma grade_perm i pos rs rs' u :
  rs ≡ₚ rs' → (grade i pos rs u).1 = (grade i pos rs' u).1 ∧ (grade i pos rs u).2 ≡ₚ (grade i pos rs' u).2.
Proof.
  intros Hp. unfold grade.
  assert (existsb (λ r, String.eqb (ReasonCode r) "ambiguous_pre_anchor_event") rs =
    existsb (λ r, String.eqb (ReasonCode r) "ambiguous_pre_anchor_event") rs') as ->.
  { clear -Hp. induction Hp as [|x l l' _ IH|x y l|? ? ? _ IH1 _ IH2]; simpl; [done| | |congruence].
    - by rewrite IH.
    - by rewrite !orb_assoc, (orb_comm (String.eqb (ReasonCode y) _)). }
  repeat case_match; simpl; split; done || by rewrite Hp.
Qed.

Lemma report_perm i events r pos :
  active_events (with_events i events) = active_events i →
  pt_skipped (partition (with_events i events)) ≡ₚ pt_skipped (partition i) →
  pt_reasons (partition (with_events i events)) ≡ₚ pt_reasons (partition i) →
  pt_watermark (partition (with_events i events)) = pt_watermark (partition i) →
  let x := report i (with_applied (pt_skipped (partition i)) r) pos in
  let y := report (with_events i events) (with_applied (pt_skipped (partition (with_events i events))) r) pos in
  StPosition (State x) = StPosition (State y) ∧ EventSetHash (State x) = EventSetHash (State y) ∧
  LastRecordedSeq (State x) = LastRecordedSeq (State y) ∧
  StReliability (State x) = StReliability (State y) ∧
  Reasons (State x) ≡ₚ Reasons (State y) ∧ Splits x ≡ₚ Splits y.
Proof.
  intros Ea Hs Hr Hw. cbv zeta. unfold report. cbn [with_applied r_unknown r_applied].
  pose proof (grade_perm i pos (pt_reasons (partition i) ++ (if r_unknown r then [policy_reason] else []))
    (pt_reasons (partition (with_events i events)) ++ (if r_unknown r then [policy_reason] else []))
    (r_unknown r) ltac:(by rewrite Hr)) as [G1 G2].
  assert (∀ rs, grade (with_events i events) pos rs (r_unknown r) = grade i pos rs (r_unknown r)) as -> by done.
  destruct (grade i pos _ _) as [g rs]. destruct (grade i pos _ _) as [g' rs']. simpl in *. subst g'.
  rewrite Ea, Hw. split_and!; try done. by rewrite Hs.
Qed.

(** ** The hash *)

(** Fields of one length in every event: identifiers as the store issues them,
    three-letter currency codes, four-digit years, [int64] numbers. *)
Definition hashable (n : nat) (e : Event) : Prop :=
  length (bytes_of_string (EvID e)) = n ∧ length (bytes_of_string (Code (cur (EvAmount e)))) = 3%nat ∧
  wf_day (ValueDate e) ∧ in_i64 (RecordedSeq e) ∧ in_i64 (minor (EvAmount e)).

(** The fields of an event that are hashed. *)
Definition hashed (e : Event) : string * Z * EventKind * Date * Z * string :=
  (EvID e, RecordedSeq e, Kind e, ValueDate e, minor (EvAmount e), Code (cur (EvAmount e))).

Lemma String_length d : wf_day d → length (Dates.String d) = 10%nat.
Proof.
  intros [[Hm Hd] Hy]. pose proof (month_len_range (Year d) (Month d)). unfold Dates.String.
  destruct (Sprintf_04d_digits (Year d) Hy) as (? & ? & ? & ? & -> & _).
  destruct (Sprintf_02d_digits (Month d) ltac:(lia)) as (? & ? & -> & _).
  destruct (Sprintf_02d_digits (Day d) ltac:(lia)) as (? & ? & -> & _). done.
Qed.

Lemma String_inj d d' : wf_day d → wf_day d' → Dates.String d = Dates.String d' → d = d'.
Proof.
  intros [Hv Hy] [Hv' Hy'] E. pose proof (Parse_String d Hv Hy) as H. rewrite E, Parse_String in H by done.
  by injection H.
Qed.

Lemma u64_inj a b : in_i64 a → in_i64 b → u64 a = u64 b → a = b.
Proof. unfold u64, in_i64, MaxInt64, MinInt64, two64. intros. Z.div_mod_to_equations. lia. Qed.

Lemma u64_bytes_inj a b : in_i64 a → in_i64 b → be_bytes 8 (u64 a) = be_bytes 8 (u64 b) → a = b.
Proof.
  intros Ha Hb E. apply u64_inj; [done|done|]. eapply be_bytes_inj; [| |exact E].
  all: unfold u64; change (256 ^ Z.of_nat 8) with two64; apply Z.mod_pos_bound; done.
Qed.

Lemma bytes_of_ascii_length l : length (bytes_of_ascii l) = length l.
Proof. apply length_fmap. Qed.

Lemma event_bytes_length n e : hashable n e → length (event_bytes e) = (n + 30)%nat.
Proof.
  intros (H1 & H2 & H3 & _ & _). unfold event_bytes.
  rewrite !length_app, !be_bytes_length, bytes_of_ascii_length, H1, H2, String_length by done.
  simpl. lia.
Qed.

Lemma event_bytes_inj n e e' :
  hashable n e → hashable n e' → event_bytes e = event_bytes e' → hashed e = hashed e'.
Proof.
  intros (L1 & L2 & L3 & L4 & L5) (L1' & L2' & L3' & L4' & L5') E. unfold event_bytes in E.
  apply app_inj_1 in E as [E1 E]; [|congruence].
  apply app_inj_1 in E as [E2 E]; [|by rewrite !be_bytes_length].
  apply app_inj_1 in E as [E3 E]; [|done].
  apply app_inj_1 in E as [E4 E]; [|by rewrite !bytes_of_ascii_length, !String_length].
  apply app_inj_1 in E as [E5 E6]; [|by rewrite !be_bytes_length].
  apply bytes_of_string_inj in E1, E6. apply u64_bytes_inj in E2, E5; [|done..].
  apply bytes_of_ascii_inj, String_inj in E4; [|done..]. unfold hashed.
  assert (Kind e = Kind e') as -> by (injection E3; destruct (Kind e), (Kind e'); done).
  congruence.
Qed.

(** * Properties *)

(** C36. Replay never invents an impossible position. From a possible anchor,
    exact contract terms and bookable entries, whenever the events and the tail
    replay without error the result passes its own final check, so replay
    answers; and its position has every bucket non-negative, representable and
    in the loan's currency. *)
Theorem Replay_sound i r pos :
  wf_input i → replay_guards i = Ok tt → final_position i = Ok (r, pos) →
  Replay i = Ok (report i r pos) ∧ wf_position (StPosition (State (report i r pos))) ∧
  Code (Buckets_Currency (StPosition (State (report i r pos)))) =
    Code (Buckets_Currency (SnapPosition (Anchor i))).
Proof.
  intros Hi Hg Hf. destruct (final_position_sound i r pos Hi Hf) as [Hwf Hc].
  rewrite Replay_eq, Hg, Hf. simpl. rewrite (wf_position_validates pos Hwf). simpl.
  assert (StPosition (State (report i r pos)) = pos) as -> by (unfold report; by destruct (grade _ _ _ _)).
  done.
Qed.

(** C31. Storage order does not matter. Entries recorded under distinct numbers
    replay to the same position, hash, watermark and reliability, with the same
    reasons and the same record up to order — or to the same error — in
    whatever order they are read back. *)
Theorem Replay_order_independent i events :
  Events i ≡ₚ events → NoDup (RecordedSeq <$> Events i) →
  match Replay i, Replay (with_events i events) with
  | Ok x, Ok y =>
      StPosition (State x) = StPosition (State y) ∧ EventSetHash (State x) = EventSetHash (State y) ∧
      LastRecordedSeq (State x) = LastRecordedSeq (State y) ∧
      StReliability (State x) = StReliability (State y) ∧
      Reasons (State x) ≡ₚ Reasons (State y) ∧ Splits x ≡ₚ Splits y
  | Err e, Err e' => e = e'
  | Panic w, Panic w' => w = w'
  | _, _ => False
  end.
Proof.
  intros Hp Hnd. destruct (partition_perm i events Hp) as (Hact & Hskip & Hreas & Hwm).
  set (i' := with_events i events) in *.
  assert (active_events i' = active_events i) as Ea.
  { symmetry. apply SortForReplay_canonical; [by symmetry|]. rewrite partition_eq. simpl.
    eapply sublist_NoDup; [exact Hnd|]. apply fmap_sublist, sublist_filter. }
  rewrite !Replay_eq. assert (replay_guards i' = replay_guards i) as -> by done.
  destruct (replay_guards i); simpl; [|done|done].
  assert (∀ j, final_position j = '(r, pos) ← (r ← replay_events j
      (MkRun (SnapPosition (Anchor j)) (SnapAsOf (Anchor j)) [] false) (active_events j);
      tail ← wrap_err "accruing to %s: %w" (accrueAcross (r_pos r) (Contracts j) (r_cursor r) (AsOf j));
      pos ← addInterest (r_pos r) tail; Ok (r, pos)); Ok (with_applied (pt_skipped (partition j)) r, pos)) as Hfp.
  { intros j. unfold final_position. assert (anchor_run j = with_applied (pt_skipped (partition j))
      (MkRun (SnapPosition (Anchor j)) (SnapAsOf (Anchor j)) [] false)) as ->
      by (unfold anchor_run, with_applied; simpl; by rewrite app_nil_r).
    rewrite replay_events_applied. destruct (replay_events j _ _) as [r| |]; simpl; [|done|done].
    destruct (wrap_err _ _); simpl; [|done|done]. by destruct (addInterest _ _). }
  rewrite !Hfp, Ea. rewrite (replay_events_inputs i i') by done.
  change (Anchor i') with (Anchor i). change (Contracts i') with (Contracts i). change (AsOf i') with (AsOf i).
  destruct (replay_events i _ _) as [r| |]; simpl; [|done|done].
  destruct (wrap_err _ (accrueAcross _ _ _ _)); simpl; [|done|done].
  destruct (addInterest _ _) as [pos| |]; simpl; [|done|done].
  destruct (wrap_err _ (Buckets_Validate pos)); simpl; [|done|done].
  apply report_perm; done.
Qed.

(** One loan of 100,000 dram at 18%, confirmed on 1 March, with a fee and two
    payments after it, and an entry that was voided. *)
Definition sample_version (v rate : Z) (from thru : Date) : Contract :=
  MkContract "loan" v AMD from thru rate Actual365 Annuity (MkDate 2024 1 31) (MkDate 2025 1 31) 31
    zero_date no_amount false (Money.MkPolicy HalfUp 10) (MkPrepayment PrepayBorrowerChooses 0 [] no_amount)
    (MkPolicyRef "bank" 1).
Definition sample_event (id : string) (seq : Z) (k : EventKind) (on : Date) (m : Z) (voids : string) : Event :=
  MkEvent id "loan" 1 seq k on (MkAmount m AMD) 0 false voids false.
Definition sample_input : Input :=
  MkInput
    [sample_version 1 180000000 (MkDate 2024 1 31) (MkDate 2024 4 1);
     sample_version 2 150000000 (MkDate 2024 4 1) zero_date]
    (MkSnapshot "snap" "loan" 1 (MkDate 2024 3 1) BankConfirmed
      (With (NewBuckets AMD) Principal (MkAmount 10000000 AMD)) no_amount zero_date 0)
    [sample_event "e1" 1 PaymentReported (MkDate 2024 3 31) 917000 "";
     sample_event "e2" 2 BankFeeReported (MkDate 2024 3 31) 5000 "";
     sample_event "e3" 3 PaymentReported (MkDate 2024 4 30) 917000 "";
     sample_event "e4" 4 PaymentReported (MkDate 2024 4 30) 917000 "";
     sample_event "e5" 5 EntryVoided (MkDate 2024 4 30) 0 "e4"]
    ∅ {[MkPolicyRef "bank" 1 := sample_policy ExcessHoldAsAdvance]} (MkDate 2024 5 1) 0 "v1".

Lemma sample_input_wf : wf_input sample_input.
Proof.
  split.
  - intros []; vm_compute; split; done.
  - vm_compute. repeat split; discriminate.
  - vm_compute. repeat split; discriminate.
  - apply Forall_forall. intros c Hc. cbn [Contracts sample_input] in Hc.
    rewrite !elem_of_cons, elem_of_nil in Hc. destruct Hc as [-> |[-> |[]]].
    all: split; [vm_compute; repeat split; discriminate|].
    all: first [left; vm_compute; reflexivity|right; vm_compute; repeat split; discriminate].
  - apply Forall_forall. intros e He. cbn [Events sample_input] in He.
    rewrite !elem_of_cons, elem_of_nil in He. destruct He as [-> |[-> |[-> |[-> |[-> |[]]]]]].
    all: split; [vm_compute; repeat split; discriminate|].
    all: intros H1 H2; first [by destruct H1|vm_compute; repeat split; discriminate].
Qed.

Lemma Replay_sound_witness :
  ∃ r pos, final_position sample_input = Ok (r, pos) ∧ minor (pPrincipal pos) = 8432760 ∧
  Replay sample_input = Ok (report sample_input r pos).
Proof.
  eexists _, _. split; [vm_compute; reflexivity|]. split; [vm_compute; reflexivity|].
  eapply (Replay_sound sample_input); [apply sample_input_wf|vm_compute; reflexivity|vm_compute; reflexivity].
Defined.

Lemma Replay_order_independent_witness :
  ∃ x y, Replay sample_input = Ok x ∧
  Replay (with_events sample_input (rev (Events sample_input))) = Ok y ∧
  StPosition (State x) = StPosition (State y).
Proof.
  pose proof (Replay_order_independent sample_input (rev (Events sample_input))) as H.
  specialize (H (Permutation_rev _)).
  assert (NoDup (RecordedSeq <$> Events sample_input)) as Hnd
    by (apply (bool_decide_unpack _); vm_compute; exact I).
  specialize (H Hnd).
  destruct (Replay sample_input) as [x| |] eqn:Ex; [|vm_compute in Ex; discriminate Ex..].
  destruct (Replay (with_events sample_input (rev (Events sample_input)))) as [y| |]; [|destruct H..].
  exists x, y. split; [reflexivity|]. split; [reflexivity|]. apply H.
Defined.

(** Every day accrues under the terms in force. Interest between two dates
    is a sum over segments laid end to end that cover the interval; each
    segment is accrued under the version governing its first day and ends with
    that version's last day or the interval; the loop always answers, and the
    sum is a non-negative amount in the loan's currency. *)
Theorem accrueAcross_by_version pos versions from to :
  wf_position pos → Forall wf_version versions → wf_day from → wf_day to →
  (∃ r, accrue_segments (S (length versions)) pos versions from to (Zero (Buckets_Currency pos)) = Some r) ∧
  ∀ a, accrueAcross pos versions from to = Ok a →
    in_position pos a ∧ ∃ l, tiles from to l ∧ Forall (governed pos versions to) l ∧
    minor a = sum_by (λ s, minor (sg_interest s)) l.
Proof.
  intros Hpos Hv Hf Ht. split.
  - rewrite <- accrueAcross_segments. by eexists.
  - intros a Ha. by apply accrueAcross_sound.
Qed.

Lemma accrueAcross_by_version_witness :
  let pos := SnapPosition (Anchor sample_input) in
  accrueAcross pos (Contracts sample_input) (MkDate 2024 3 1) (MkDate 2024 5 1) = Ok (MkAmount 276170 AMD) ∧
  ∃ l, tiles (MkDate 2024 3 1) (MkDate 2024 5 1) l ∧ 276170 = sum_by (λ s, minor (sg_interest s)) l.
Proof.
  split; [vm_compute; reflexivity|].
  edestruct (accrueAcross_by_version (SnapPosition (Anchor sample_input)) (Contracts sample_input)
    (MkDate 2024 3 1) (MkDate 2024 5 1)) as [_ H].
  - apply sample_input_wf.
  - apply sample_input_wf.
  - vm_compute. repeat split; discriminate.
  - vm_compute. repeat split; discriminate.
  - edestruct H as (_ & l & H1 & _ & H2); [vm_compute; reflexivity|]. exists l. split; [exact H1|exact H2].
Defined.

(** The comment promises that the boundary day accrues under the old terms,
    "one rule, applied every time". It does when one segment runs into it, and
    does not when an entry falls on the day before: here the same two days cost
    nothing in one step and a day of the new rate in two. *)
Example boundary_day_depends_on_entries :
  let versions := [sample_version 1 0 (MkDate 2024 1 31) (MkDate 2024 6 1);
    sample_version 2 365000000 (MkDate 2024 6 1) zero_date] in
  let pos := With (NewBuckets AMD) Principal (MkAmount 10000000 AMD) in
  accrueAcross pos versions (MkDate 2024 5 30) (MkDate 2024 6 1) = Ok (MkAmount 0 AMD) ∧
  accrueAcross pos versions (MkDate 2024 5 30) (MkDate 2024 5 31) = Ok (MkAmount 0 AMD) ∧
  accrueAcross pos versions (MkDate 2024 5 31) (MkDate 2024 6 1) = Ok (MkAmount 10000 AMD).
Proof. vm_compute. done. Qed.

(** The version in force is well defined: [contractFor] answers with a
    version of the list that covers the date and starts no earlier than any
    other that does, refuses exactly when none covers it, and does not depend
    on the order of the list while covering versions start on distinct days. *)
Theorem contractFor_latest versions d :
  (∀ c, contractFor versions d = Ok c →
    c ∈ versions ∧ CoversDate c d = true ∧
    ∀ c', c' ∈ versions → CoversDate c' d = true → Compare (EffectiveFrom c') (EffectiveFrom c) ≤ 0) ∧
  ((∀ c, c ∈ versions → CoversDate c d = false) ↔
    contractFor versions d = errorf_w "%w: %s" ErrNoContract) ∧
  (∀ versions', versions ≡ₚ versions' →
    (∀ c c', c ∈ versions → c' ∈ versions → CoversDate c d = true → CoversDate c' d = true →
      EffectiveFrom c = EffectiveFrom c' → c = c') →
    contractFor versions' d = contractFor versions d).
Proof.
  split_and!; [apply contractFor_Ok|apply contractFor_Err|]. intros versions' Hp Huniq.
  destruct (contractFor_result versions d) as [[c Hc]|E].
  - destruct (contractFor_Ok _ _ _ Hc) as (Hin & Hcov & Hmax).
    destruct (contractFor_result versions' d) as [[c' Hc']|E].
    + destruct (contractFor_Ok _ _ _ Hc') as (Hin' & Hcov' & Hmax'). rewrite <- Hp in Hin'.
      specialize (Hmax c' Hin' Hcov'). rewrite Hp in Hin. specialize (Hmax' c Hin Hcov).
      rewrite Hc, Hc'. f_equal. symmetry. rewrite <- Hp in Hin. apply Huniq; try done.
      apply Compare_eq. rewrite (Compare_opp (EffectiveFrom c) (EffectiveFrom c')) in Hmax. lia.
    + exfalso. pose proof (proj2 (contractFor_Err versions' d) E c) as Hn.
      rewrite Hp in Hin. rewrite (Hn Hin) in Hcov. done.
  - rewrite E. apply contractFor_Err. intros c Hc. rewrite <- Hp in Hc.
    by apply (proj2 (contractFor_Err versions d) E).
Qed.

Lemma contractFor_latest_witness :
  contractFor (rev (Contracts sample_input)) (MkDate 2024 4 1) =
    contractFor (Contracts sample_input) (MkDate 2024 4 1).
Proof.
  apply (contractFor_latest (Contracts sample_input) (MkDate 2024 4 1)).
  - apply Permutation_rev.
  - intros c c' Hc Hc' _ _. cbn [Contracts sample_input] in Hc, Hc'.
    rewrite !elem_of_cons, elem_of_nil in Hc, Hc'.
    destruct Hc as [-> |[-> |[]]], Hc' as [-> |[-> |[]]]; done.
Defined.

(** Every entry is accounted for once. An entry takes part in the
    arithmetic exactly when it is no void marker, no entry voids it, it is not
    asserted to be inside the anchor and it does not predate the anchor; all
    others are recorded as skipped with a reason; and the watermark is the
    highest recording number seen. *)
Theorem partition_complete i :
  (∀ e, e ∈ pt_active (partition i) ↔
    e ∈ Events i ∧ Kind e ≠ EntryVoided ∧
    (EvID e = ""%string ∨ ∀ v, v ∈ Events i → Kind v = EntryVoided → VoidsEvent v ≠ EvID e) ∧
    Covered i !! EvID e ≠ Some true ∧ Before (ValueDate e) (SnapAsOf (Anchor i)) = false) ∧
  pt_active (partition i) ++ (AeEvent <$> pt_skipped (partition i)) ≡ₚ Events i ∧
  Forall (λ a, Skipped a ≠ ""%string ∧ exclusion i (AeEvent a) = Some (Skipped a)) (pt_skipped (partition i)) ∧
  (∀ e, e ∈ Events i → RecordedSeq e ≤ pt_watermark (partition i)) ∧
  (pt_watermark (partition i) = 0 ∨ ∃ e, e ∈ Events i ∧ RecordedSeq e = pt_watermark (partition i)).
Proof.
  rewrite partition_eq. cbn [pt_active pt_skipped pt_watermark]. split_and!.
  - intros e. rewrite list_elem_of_filter. unfold exclusion.
    assert (EvID e ∈ voided_ids (Events i) ↔
      ¬ (EvID e = ""%string ∨ ∀ v, v ∈ Events i → Kind v = EntryVoided → VoidsEvent v ≠ EvID e)) as Hv.
    { rewrite elem_of_voided. split; [intros (? & v & ? & ? & ?) [?|Hn]; [done|by apply (Hn v)]|].
      intros Hn. split; [naive_solver|]. destruct (decide (Exists (λ v, Kind v = EntryVoided ∧
        VoidsEvent v = EvID e) (Events i))) as [He|He].
      - apply Exists_exists in He as (v & ? & ? & ?). by exists v.
      - exfalso. apply Hn. right. intros v H1 H2 H3. apply He, Exists_exists. by exists v. }
    destruct (bool_decide_reflect (Kind e = EntryVoided)); [naive_solver|].
    destruct (bool_decide_reflect (EvID e ∈ voided_ids (Events i))); [naive_solver|].
    destruct (Covered i !! EvID e) as [[]|]; simpl; destruct (Before _ _); try naive_solver.
    all: split; [|naive_solver]; intros [_ ?]; split_and!; try done.
    all: destruct (decide (EvID e = ""%string)) as [|Hne]; [by left|right].
    all: intros v H1 H2 H3; apply n0, elem_of_voided; split; [done|]; by exists v.
  - induction (Events i) as [|e l IH]; [done|]. rewrite filter_cons.
    change (omap (λ e, skip e <$> exclusion i e) (e :: l)) with
      (match skip e <$> exclusion i e with Some y => y :: omap (λ e, skip e <$> exclusion i e) l
        | None => omap (λ e, skip e <$> exclusion i e) l end).
    destruct (decide (exclusion i e = None)) as [E|E].
    + rewrite E. simpl. by rewrite IH.
    + destruct (exclusion i e) as [w|] eqn:Ew; [|done]. cbn [fmap option_fmap option_map].
      rewrite fmap_cons, <- Permutation_middle. simpl. by rewrite IH.
  - apply Forall_forall. intros a Ha. apply list_elem_of_omap in Ha as (e & _ & Ha).
    destruct (exclusion i e) as [w|] eqn:E; [|done]. injection Ha as <-. simpl. split; [|done].
    unfold exclusion in E. repeat case_match; by simplify_eq.
  - intros e. induction (Events i) as [|e' l IH]; intros He; [by apply not_elem_of_nil in He|].
    simpl. apply elem_of_cons in He as [<-|He]; [lia|]. specialize (IH He). lia.
  - induction (Events i) as [|e' l IH]; [by left|]. cbn [foldr].
    destruct (Z.max_spec (RecordedSeq e') (foldr (λ e m, Z.max (RecordedSeq e) m) 0 l)) as [[? ->]|[? ->]].
    + destruct IH as [IH|(e & ? & ?)]; [by left|right]. exists e. split; [by right|done].
    + right. exists e'. split; [by left|done].
Qed.

Lemma partition_complete_witness :
  (EvID <$> pt_active (partition sample_input)) = ["e1"; "e2"; "e3"]%string ∧
  pt_watermark (partition sample_input) = 5 ∧
  (pt_active (partition sample_input) ++ (AeEvent <$> pt_skipped (partition sample_input))
    ≡ₚ Events sample_input).
Proof.
  split; [vm_compute; reflexivity|]. split; [vm_compute; reflexivity|].
  apply (partition_complete sample_input).
Defined.

(** The grade is earned. A position is [Confirmed] exactly when nothing
    speaks against it — no arrears before or after replay, no ambiguous entry,
    the lender's allocation known, an anchor the bank or a verified import
    stands behind, and an anchor no older than the freshness limit — and it is
    [Unsupported] exactly when there are arrears, whatever else holds. *)
Theorem grade_exact i pos reasons unknown :
  let limit := if FreshnessDays i <=? 0 then 35 else FreshnessDays i in
  let arrears := HasArrears pos || HasArrears (SnapPosition (Anchor i)) in
  ((grade i pos reasons unknown).1 = Confirmed ↔
    arrears = false ∧ (∀ r, r ∈ reasons → ReasonCode r ≠ "ambiguous_pre_anchor_event"%string) ∧
    unknown = false ∧ (SnapTrust (Anchor i) = BankConfirmed ∨ SnapTrust (Anchor i) = ImportedVerified) ∧
    DaysBetween (SnapAsOf (Anchor i)) (AsOf i) ≤ limit) ∧
  ((grade i pos reasons unknown).1 = Unsupported ↔ arrears = true) ∧
  (∃ more, (grade i pos reasons unknown).2 = reasons ++ more).
Proof.
  cbv zeta. unfold grade, defaultFreshnessDays.
  assert (existsb (λ r, String.eqb (ReasonCode r) "ambiguous_pre_anchor_event") reasons = false ↔
    ∀ r, r ∈ reasons → ReasonCode r ≠ "ambiguous_pre_anchor_event"%string) as Hamb.
  { induction reasons as [|r l IH]; simpl; [split; [|done]; intros _ r Hr; by apply not_elem_of_nil in Hr|].
    rewrite orb_false_iff, IH, String.eqb_neq. setoid_rewrite elem_of_cons. naive_solver. }
  assert (∃ more, reasons = reasons ++ more) as Hnil by (exists []; by rewrite app_nil_r).
  destruct (HasArrears pos || HasArrears (SnapPosition (Anchor i)))%bool.
  { split_and!; [naive_solver|naive_solver|eexists; reflexivity]. }
  destruct (existsb _ reasons) eqn:Ex.
  { split_and!; [|naive_solver|exact Hnil]. split; [done|].
    intros (_ & H & _). by apply Hamb in H. }
  pose proof (proj1 Hamb eq_refl) as Hno.
  destruct unknown; [split_and!; [naive_solver|naive_solver|exact Hnil]|].
  set (limit := if FreshnessDays i <=? 0 then 35 else FreshnessDays i).
  set (age := DaysBetween (SnapAsOf (Anchor i)) (AsOf i)).
  destruct (SnapTrust (Anchor i)); simpl;
    [split_and!; [naive_solver|naive_solver|eexists; reflexivity]|..].
  all: destruct (Z.ltb_spec limit age); simpl;
    (split_and!; [|naive_solver|first [exact Hnil|eexists; reflexivity]]).
  all: split; [intros E; try discriminate E; split_and!; auto|intros (_ & _ & _ & _ & ?); try done; lia].
Qed.

(** C37. The fingerprint covers every figure it names. For identifiers and
    codes of fixed length the bytes fed to SHA-256 determine the anchor, its
    date and, in order, each event's identity, number, kind, date, amount and
    currency: two sets of facts that differ in any of them are hashed from
    different inputs. *)
Theorem hash_input_injective n a a' l l' :
  length (bytes_of_string (SnapID a)) = length (bytes_of_string (SnapID a')) →
  wf_day (SnapAsOf a) → wf_day (SnapAsOf a') →
  Forall (hashable n) l → Forall (hashable n) l' →
  hash_input a l = hash_input a' l' →
  SnapID a = SnapID a' ∧ SnapAsOf a = SnapAsOf a' ∧ hashed <$> l = hashed <$> l'.
Proof.
  intros Hid Hd Hd' Hl Hl' E. unfold hash_input in E.
  apply app_inj_1 in E as [E1 E]; [|done].
  apply app_inj_1 in E as [E2 E]; [|by rewrite !bytes_of_ascii_length, !String_length].
  split; [by apply bytes_of_string_inj|]. split; [by apply bytes_of_ascii_inj, String_inj in E2|].
  clear E1 E2. revert l' Hl' E. induction Hl as [|e l He Hl IH]; intros l' Hl' E.
  - destruct Hl' as [|e' l' He' _]; [done|]. apply (f_equal length) in E. simpl in E.
    rewrite length_app, (event_bytes_length n e' He') in E. lia.
  - destruct Hl' as [|e' l' He' Hl'].
    + apply (f_equal length) in E. simpl in E. rewrite length_app, (event_bytes_length n e He) in E. lia.
    + simpl in E. apply app_inj_1 in E as [E1 E]; [|by rewrite !(event_bytes_length n)].
      rewrite !fmap_cons. f_equal; [by eapply event_bytes_inj|by apply IH].
Qed.

Lemma hash_input_injective_witness :
  hashed <$> [sample_event "e1" 1 PaymentReported (MkDate 2024 3 31) 917000 ""] =
  hashed <$> [sample_event "e1" 1 PaymentReported (MkDate 2024 3 31) 917000 "unhashed"].
Proof.
  apply (hash_input_injective 2 (Anchor sample_input) (Anchor sample_input)); try reflexivity.
  1,2: vm_compute; repeat split; discriminate.
  1,2: apply Forall_singleton; split_and!; try reflexivity; vm_compute; repeat split; discriminate.
Defined.
