(* ===== verification/Projection.v ===== *)
(** Monthly payment capacity: [pkg/core/projection].

    [Build] walks the loans of one currency month by month: required payments
    on their bank dates, then the optional extra at month-end, highest rate
    first. The Go function hands its partial result back next to an error, and
    its callers drop it; here an error carries no result.

    The walk is measured against the [account] of each loan: interest for the
    days that pass, and the payments the months list. *)
From S2P Require Import Prelude Money Dates Model Schedule.

Definition MaxMonths : nat := 600.
Definition MaxLoans : nat := 100.
Definition MaxMinor : Z := 9007199254740991.

Definition invalid {A} : res A := Err (Sentinel ErrProjectionInvalid).

Record Extra := MkExtra { ExMinor : Z; Overrides : gmap string Z }.

Record Loan := MkLoan {
  LnID : string;
  LnName : string;
  LnContract : Contract;
  LnBalance : Amount;
  LnAsOf : Date;
  LnReason : string;
  OptionalExcluded : bool;
  OpeningInterestKnown : bool;
  OpeningInterestMinor : Z }.

Record Payment := MkPayment {
  PyID : string;
  PyName : string;
  PyDue : string;
  PyRequired : Z;
  PyExtra : Z;
  PyReason : string }.

Record Month := MkMonth {
  MoMonth : string;
  MoRequired : Z;
  MoExtra : Z;
  RequestedExtra : Z;
  UnallocatedExtra : Z;
  MoTotal : Z;
  MoLoans : list Payment }.

Record Result := MkResult {
  RCurrency : string;
  RExponent : Z;
  StartMonth : string;
  Complete : bool;
  RReason : string;
  Finish : string;
  Months : list Month }.

Definition text (l : list Ascii.ascii) : string := String.string_of_list_ascii l.

Definition MonthKey (d : Date) : string := text (take 7 (Dates.String d)).

(** [date.Parse(month + "-01")]. *)
Definition parse_month (month : string) : res Date :=
  Dates.Parse (String.list_ascii_of_string (String.append month "-01")).

Definition bad_override (entry : string * Z) : bool :=
  let '(month, n) := entry in
  match parse_month month with
  | Ok d => negb (Nat.eqb (String.length month) 7) || negb (String.eqb (MonthKey d) month) ||
      (n <? 0) || (MaxMinor <? n)
  | _ => true
  end.

(** Every entry must pass, so the order the map is walked in does not matter. *)
Definition ValidateExtra (x : Extra) : res unit :=
  if (ExMinor x <? 0) || (MaxMinor <? ExMinor x) || Nat.ltb MaxMonths (size (Overrides x)) then invalid
  else if existsb bad_override (map_to_list (Overrides x)) then invalid
  else Ok tt.

Record state := MkState {
  s_loan : Loan;
  s_balance : Z;
  s_interest : Z;
  s_from : Date;
  s_dates : list Date;
  s_index : nat;
  s_known : Date }.

Definition add (a b : Z) : res Z :=
  if (a <? 0) || (b <? 0) || (isub MaxMinor b <? a) then invalid else Ok (iadd a b).

Definition with_reason (l : Loan) (why : string) : Loan :=
  MkLoan (LnID l) (LnName l) (LnContract l) (LnBalance l) (LnAsOf l) why (OptionalExcluded l)
    (OpeningInterestKnown l) (OpeningInterestMinor l).
Definition because (s : state) (why : string) : state :=
  MkState (with_reason (s_loan s) why) (s_balance s) (s_interest s) (s_from s) (s_dates s) (s_index s)
    (s_known s).

(** [s.accrue(on)]. *)
Definition accrue_to (s : state) (on : Date) : res state :=
  if Before on (s_from s) then invalid
  else
    let c := LnContract (s_loan s) in
    interest ← Accrue (FromMinor (s_balance s) (cur (LnBalance (s_loan s)))) (NominalRate c)
      (DaysBetween (s_from s) on) (ContractDayCount c) (Rounding c);
    total ← add (s_interest s) (minor interest);
    Ok (MkState (s_loan s) (s_balance s) total on (s_dates s) (s_index s) (s_known s)).

Definition is_supported (s : state) : bool := String.eqb (LnReason (s_loan s)) "".

(** ** Reading the sources *)

Definition loan_rejected (today : Date) (c : Currency) (seen : gset string) (l : Loan) : bool :=
  String.eqb (LnID l) "" || bool_decide (LnID l ∈ seen) ||
  negb (String.eqb (Code (cur (LnBalance l))) (Code c)) ||
  negb (String.eqb (Code (ContractCurrency (LnContract l))) (Code c)) ||
  (minor (LnBalance l) <? 0) || (MaxMinor <? minor (LnBalance l)) ||
  Dates.IsZero (LnAsOf l) || After (LnAsOf l) today.

Definition interest_rejected (l : Loan) : bool :=
  (OpeningInterestMinor l <? 0) || (MaxMinor <? OpeningInterestMinor l) ||
  ((0 <? OpeningInterestMinor l) && (negb (OpeningInterestKnown l) || (Sign (LnBalance l) =? 0))).

Definition supported_terms (c : Contract) : bool :=
  is_ok (Contract_Validate c) && HasScheduled c && bool_decide (Type_ c = Annuity) &&
  negb (bool_decide (Effect (Prepayment c) = PrepayReduceInstalment)) && (FeeBP (Prepayment c) =? 0) &&
  Nat.eqb (length (Charges (Prepayment c))) 0 && (Sign (MinAmount (Prepayment c)) =? 0) &&
  (bool_decide (ContractDayCount c = Actual365) || bool_decide (ContractDayCount c = Actual360)).

(** The state one loan starts from, with the reason it cannot be projected if
    there is one: each test runs only where the code reaches it. *)
Definition open_state (l : Loan) : state :=
  MkState l (minor (LnBalance l)) (if OpeningInterestKnown l then OpeningInterestMinor l else 0)
    (LnAsOf l) [] 0 (NotBeforeDue (LnContract l)).

Definition need_interest (s : state) : state :=
  let l := s_loan s in
  if is_supported s && (0 <? NominalRate (LnContract l)) && negb (OpeningInterestKnown l) &&
    negb (Equal (LnAsOf l) (StartDate (LnContract l)))
  then because s "accrued_interest_needed" else s.

Definition with_known (s : state) (d : Date) : state :=
  MkState (s_loan s) (s_balance s) (s_interest s) (s_from s) (s_dates s) (s_index s) d.
Definition with_dates (s : state) (ds : list Date) : state :=
  MkState (s_loan s) (s_balance s) (s_interest s) (s_from s) ds (s_index s) (s_known s).

(** [l.Reason]: the loop variable's, not the state's own copy. *)
Definition find_known (l : Loan) (s : state) : res state :=
  if Dates.IsZero (s_known s) && String.eqb (LnReason l) ""
  then match RemainingDates (LnContract l) (LnAsOf l) with
    | Ok (d :: _) => Ok (with_known s d)
    | Ok [] => Panic "index out of range [0] with length 0"
    | Err _ => Ok s
    | Panic w => Panic w
    end
  else Ok s.

Definition overdue (today : Date) (s : state) : state :=
  if negb (Dates.IsZero (s_known s)) && Before (s_known s) today then because s "overdue_payment" else s.

Definition check_terms (s : state) : state :=
  if is_supported s && negb (supported_terms (LnContract (s_loan s)))
  then because s "unsupported_terms" else s.

Definition find_dates (s : state) : res state :=
  if is_supported s
  then match RemainingDates (LnContract (s_loan s)) (LnAsOf (s_loan s)) with
    | Panic w => Panic w
    | Err _ => Ok (because (with_dates s []) "bank_payment_needed")
    | Ok ds =>
        let s := with_dates s ds in
        match ds with
        | d :: _ =>
            if Dates.IsZero (s_known s) || negb (Equal d (s_known s))
            then Ok (because s "bank_payment_needed") else Ok s
        | [] => Ok (because s "bank_payment_needed")
        end
    end
  else Ok s.

Definition check_payment (s : state) : res state :=
  if is_supported s
  then match s_dates s with
    | [] => Panic "index out of range [0] with length 0"
    | d :: rest =>
        first ← accrue_to s d;
        owed ← add (s_balance first) (s_interest first);
        let required := minor (ScheduledPayment (LnContract (s_loan s))) in
        if (owed <? required) || (required <=? s_interest first) ||
          (Nat.eqb (length rest) 0 && negb (required =? owed))
        then Ok (because s "bank_payment_mismatch") else Ok s
    end
  else Ok s.

Definition prepare (today : Date) (l : Loan) : res state :=
  s ← find_known l (need_interest (open_state l));
  s ← find_dates (check_terms (overdue today s));
  check_payment s.

(** What the loop over the loans accumulates. *)
Record opening := MkOpening {
  op_states : list state;
  op_seen : gset string;
  op_earliest : string;
  op_complete : bool;
  op_reason : string }.

Definition open_loan (today : Date) (c : Currency) (start : string) (o : opening) (l : Loan) : res opening :=
  if loan_rejected today c (op_seen o) l then invalid
  else
    let seen := {[LnID l]} ∪ op_seen o in
    if interest_rejected l then invalid
    else if Sign (LnBalance l) =? 0
    then Ok (MkOpening (op_states o) seen (op_earliest o) (op_complete o) (op_reason o))
    else
      s ← prepare today l;
      let complete := op_complete o && is_supported s in
      let reason := if negb (is_supported s) && String.eqb (op_reason o) ""
        then LnReason (s_loan s) else op_reason o in
      let earliest := if Dates.IsZero (s_known s) then start
        else if String.eqb (op_earliest o) "" || String.ltb (MonthKey (s_known s)) (op_earliest o)
        then MonthKey (s_known s) else op_earliest o in
      Ok (MkOpening (op_states o ++ [s]) seen earliest complete reason).

Fixpoint open_loans (today : Date) (c : Currency) (start : string) (o : opening) (loans : list Loan) :
    res opening :=
  match loans with
  | [] => Ok o
  | l :: loans => o ← open_loan today c start o l; open_loans today c start o loans
  end.

(** Highest rate, then smallest balance, then identifier: a total order on
    loans of distinct identifiers. *)
Definition state_less (x y : state) : bool :=
  let a := s_loan x in let b := s_loan y in
  if negb (NominalRate (LnContract a) =? NominalRate (LnContract b))
  then NominalRate (LnContract b) <? NominalRate (LnContract a)
  else if negb (minor (LnBalance a) =? minor (LnBalance b))
  then minor (LnBalance a) <? minor (LnBalance b)
  else String.ltb (LnID a) (LnID b).

(** ** One month *)

Definition with_paid (s : state) (balance interest : Z) (index : nat) : state :=
  MkState (s_loan s) balance interest (s_from s) (s_dates s) index (s_known s).

(** A loan that cannot be projected shows the payment its bank states: in the
    first month when it is due by then or on no known date, later only in the
    month it is due. *)
Definition stated_month (first : bool) (month : string) (s : state) : bool :=
  (first && (Dates.IsZero (s_known s) || String.leb (MonthKey (s_known s)) month)) ||
  (negb (Dates.IsZero (s_known s)) && String.eqb (MonthKey (s_known s)) month).

Definition stated_payment (s : state) : Payment :=
  let l := s_loan s in
  MkPayment (LnID l) (LnName l)
    (if negb (Dates.IsZero (s_known s)) then text (Dates.String (s_known s)) else "")
    (if HasScheduled (LnContract l) then minor (ScheduledPayment (LnContract l)) else 0)
    0 (LnReason l).

Definition no_payment (s : state) : Payment :=
  MkPayment (LnID (s_loan s)) (LnName (s_loan s)) "" 0 0 (LnReason (s_loan s)).

(** The instalment due on a bank date: interest first, and everything owed on
    the last date. *)
Definition pay_instalment (s : state) (due : Date) : res (state * Payment) :=
  s ← accrue_to s due;
  owed ← add (s_balance s) (s_interest s);
  let scheduled := minor (ScheduledPayment (LnContract (s_loan s))) in
  let required := if (owed <? scheduled) || Nat.eqb (s_index s) (length (s_dates s) - 1)
    then owed else scheduled in
  if required <=? s_interest s then invalid
  else Ok (with_paid s (isub (s_balance s) (isub required (s_interest s))) 0 (S (s_index s)),
    MkPayment (LnID (s_loan s)) (LnName (s_loan s)) (text (Dates.String due)) required 0
      (LnReason (s_loan s))).

(** [None] where the loop continues without an entry. *)
Definition require (first : bool) (on : Date) (month : string) (s : state) :
    res (state * option Payment) :=
  if s_balance s =? 0 then Ok (s, None)
  else if negb (is_supported s)
  then Ok (s, if stated_month first month s then Some (stated_payment s) else None)
  else match s_dates s !! s_index s with
    | Some due =>
        if After due on then Ok (s, Some (no_payment s))
        else '(s, p) ← pay_instalment s due; Ok (s, Some p)
    | None => Ok (s, Some (no_payment s))
    end.

Fixpoint require_all (first : bool) (on : Date) (month : string) (states : list state) (total : Z) :
    res (list state * Z * list Payment) :=
  match states with
  | [] => Ok ([], total, [])
  | s :: states =>
      '(s, p) ← require first on month s;
      total ← match p with Some p => add total (PyRequired p) | None => Ok total end;
      '(states, total, ps) ← require_all first on month states total;
      Ok (s :: states, total, option_list p ++ ps)
  end.

Definition takes_extra (s : state) (left : Z) : bool :=
  negb (s_balance s =? 0) && is_supported s && negb (OptionalExcluded (s_loan s)) && negb (left =? 0).

(** What one loan takes of the extra still left: everything owed, or whole
    settlement units of principal. Principal that would reach zero with
    interest still owed keeps one unit. *)
Definition prepay (on : Date) (s : state) (left : Z) : res (state * Z) :=
  s ← accrue_to s on;
  owed ← add (s_balance s) (s_interest s);
  let unit := Unit (Rounding (LnContract (s_loan s))) in
  '(balance, interest, paid) ←
    (if owed <=? left then Ok (0, 0, owed)
     else
       let paid := if s_balance s <? left then s_balance s else left in
       units ← idiv paid unit;
       let paid := imul units unit in
       Ok (isub (s_balance s) paid, s_interest s, paid));
  let unit := if paid <? unit then paid else unit in
  let '(balance, paid) :=
    if (balance =? 0) && (0 <? interest) then (unit, isub paid unit) else (balance, paid) in
  Ok (with_paid s balance interest (s_index s), paid).

(** [m.Loans[j].Extra += paid] on the first entry of the loan. *)
Fixpoint credit_extra (id : string) (paid : Z) (ps : list Payment) : list Payment :=
  match ps with
  | [] => []
  | p :: ps =>
      if String.eqb (PyID p) id
      then MkPayment (PyID p) (PyName p) (PyDue p) (PyRequired p) (iadd (PyExtra p) paid) (PyReason p) :: ps
      else p :: credit_extra id paid ps
  end.

Fixpoint prepay_all (on : Date) (states : list state) (left : Z) (ps : list Payment) :
    res (list state * Z * list Payment) :=
  match states with
  | [] => Ok ([], left, ps)
  | s :: states =>
      if takes_extra s left
      then
        '(s, paid) ← prepay on s left;
        '(states, rest, ps) ← prepay_all on states (isub left paid)
          (credit_extra (LnID (s_loan s)) paid ps);
        Ok (s :: states, rest, ps)
      else
        '(states, rest, ps) ← prepay_all on states left ps;
        Ok (s :: states, rest, ps)
  end.

Definition requested_in (extra : Extra) (month : string) : Z :=
  default (ExMinor extra) (Overrides extra !! month).

Definition project_month (extra : Extra) (first : bool) (on : Date) (states : list state) :
    res (list state * Month) :=
  let month := MonthKey on in
  let requested := requested_in extra month in
  '(states, required, ps) ← require_all first on month states 0;
  '(states, rest, ps) ← prepay_all on states requested ps;
  let paid := isub requested rest in
  total ← add required paid;
  Ok (states, MkMonth month required paid requested rest total ps).

Definition alive (on : Date) (s : state) : bool :=
  (0 <? s_balance s) &&
  (is_supported s || (negb (Dates.IsZero (s_known s)) && After (s_known s) on)).

Definition month_end (begin : Date) (n : nat) : Date := EndOfMonth (AddMonths begin (Z.of_nat n)).

(** The months still to walk; the flag says the loop ended because nothing was
    alive, not because the horizon was reached. *)
Fixpoint walk_months (extra : Extra) (begin : Date) (fuel n : nat) (states : list state) :
    res (list state * list Month * bool) :=
  match fuel with
  | O => Ok (states, [], false)
  | S fuel =>
      let on := month_end begin n in
      '(states, m) ← project_month extra (Nat.eqb n 0) on states;
      if existsb (alive on) states
      then
        '(states, ms, done) ← walk_months extra begin fuel (S n) states;
        Ok (states, m :: ms, done)
      else Ok (states, [m], true)
  end.

Definition start_month (start earliest : string) : string :=
  if String.ltb start earliest then earliest else start.

Definition begin_of (month : string) : Date :=
  match parse_month month with Ok d => d | _ => zero_date end.

(** What [Build] answers from the loans it read and the months it walked. *)
Definition report (c : Currency) (start : string) (o : opening) (ms : list Month) (done : bool) : Result :=
  let finish := if done && op_complete o then default "" (MoMonth <$> last ms) else "" in
  if op_complete o && negb (Nat.eqb (length (op_states o)) 0) && String.eqb finish ""
  then MkResult (Code c) (Exponent c) start false "projection_horizon" finish ms
  else MkResult (Code c) (Exponent c) start (op_complete o) (op_reason o) finish ms.

Definition no_opening : opening := MkOpening [] ∅ "" true "".

Definition Build (today : Date) (c : Currency) (loans : list Loan) (extra : Extra) : res Result :=
  if Dates.IsZero today || Nat.ltb MaxLoans (length loans) || negb (is_ok (ValidateExtra extra))
  then invalid
  else
    o ← open_loans today c (MonthKey today) no_opening loans;
    let start := start_month (MonthKey today) (op_earliest o) in
    let states := SliceStable state_less (op_states o) in
    '(_, ms, done) ←
      (if Nat.eqb (length states) 0 then Ok ([], [], false)
       else walk_months extra (begin_of start) MaxMonths 0 states);
    Ok (report c start o ms done).

(** * Lemmas *)

(** ** Bounded sums *)

Lemma add_Ok a b r : in_i64 b → add a b = Ok r ↔ 0 ≤ a ∧ 0 ≤ b ∧ a + b ≤ MaxMinor ∧ r = a + b.
Proof.
  intros Hb. unfold add, invalid. unfold_i64. unfold MaxMinor in *.
  destruct (Z.ltb_spec a 0), (Z.ltb_spec b 0); simpl; [naive_solver lia..|].
  unfold isub, iadd. rewrite (i64_id (9007199254740991 - b)) by (unfold_i64; lia).
  destruct (Z.ltb_spec (9007199254740991 - b) a); [naive_solver lia|].
  rewrite i64_id by (unfold_i64; lia). naive_solver lia.
Qed.

(** Whatever the operands, a sum is a safe non-negative integer. *)
Lemma Accrue_result principal rate days dc p a :
  Accrue principal rate days dc p = Ok a → in_i64 (minor a) ∧ (rate = 0 → minor a = 0).
Proof.
  unfold Accrue. destruct (days <? 0); [done|]. destruct (minor principal <? 0); [done|].
  destruct (rate <? 0); [done|]. destruct ((days =? 0) || (rate =? 0) || (minor principal =? 0)) eqn:E.
  { intros H. inv_res. simpl. split; [by vm_compute|done]. }
  assert (rate ≠ 0) as Hr by (intros ->; rewrite orb_true_r in E; discriminate E).
  intros H. split; [|done].
  repeat (inv_res; match goal with p : (Z * Z)%type |- _ => destruct p | _ => idtac end;
    simpl in *; case_if_in H; try done); inv_res; apply i64_in.
Qed.

(** ** The state of a loan *)

Definition safe (z : Z) : Prop := 0 ≤ z ≤ MaxMinor.

Lemma safe_i64 z : safe z → in_i64 z.
Proof. unfold safe, in_i64, MaxMinor, MinInt64, MaxInt64. lia. Qed.

(** Safe amounts, no interest without principal, a scheduled payment that is an
    [int64] and, where the loan is walked at all, a settlement unit of at least
    one. *)
Definition wf_state (s : state) : Prop :=
  safe (s_balance s) ∧ safe (s_interest s) ∧ (s_balance s = 0 → s_interest s = 0) ∧
  wf_amount (ScheduledPayment (LnContract (s_loan s))) ∧
  (is_supported s = true → 1 ≤ Unit (Rounding (LnContract (s_loan s)))).

Definition owed (s : state) : Z := s_balance s + s_interest s.

Definition rate_of (s : state) : Z := NominalRate (LnContract (s_loan s)).

(** The part of a state no step changes. *)
Definition same_loan (s s' : state) : Prop :=
  s_loan s' = s_loan s ∧ s_known s' = s_known s ∧ s_dates s' = s_dates s.

(** ** The account of one loan

    The reference the walk is measured against: what is owed, the day interest
    was last brought up to, and the bank date that is next. *)
Record account := MkAccount {
  ac_principal : Z;
  ac_interest : Z;
  ac_from : Date;
  ac_next : nat }.

Definition account_of (s : state) : account :=
  MkAccount (s_balance s) (s_interest s) (s_from s) (s_index s).

Definition ac_owed (a : account) : Z := ac_principal a + ac_interest a.

(** [i] is the contract's interest on the principal over the days from the last
    accrual to [d]. *)
Definition accrues (c : Contract) (cr : Currency) (a : account) (d : Date) (i : Z) : Prop :=
  Before d (ac_from a) = false ∧ 0 ≤ i ∧
  ∃ x, i = minor x ∧
    Accrue (FromMinor (ac_principal a) cr) (NominalRate c) (DaysBetween (ac_from a) d)
      (ContractDayCount c) (Rounding c) = Ok x.

(** What the bank asks on a date: the scheduled payment, or everything when
    less is owed or the date is the last. *)
Definition asked (c : Contract) (dates : list Date) (next : nat) (owed : Z) : Z :=
  if (owed <? minor (ScheduledPayment c)) || Nat.eqb next (length dates - 1) then owed
  else minor (ScheduledPayment c).

(** [in_month c cr dates on a paid interest a']: within the month that ends on
    [on], the account goes from [a] to [a'] as [interest] accrues and [paid] is
    paid. Instalments are paid on the bank dates in turn, none skipped; an extra
    is paid on the last day of the month, and settles everything or reduces
    principal alone. *)
Inductive in_month (c : Contract) (cr : Currency) (dates : list Date) (on : Date) :
    account → Z → Z → account → Prop :=
  | M_none a : in_month c cr dates on a 0 0 a
  | M_instalment a due i req paid interest a' :
      dates !! ac_next a = Some due → After due on = false → accrues c cr a due i →
      req = asked c dates (ac_next a) (ac_owed a + i) → ac_interest a + i < req →
      in_month c cr dates on (MkAccount (ac_owed a + i - req) 0 due (S (ac_next a))) paid interest a' →
      in_month c cr dates on a (req + paid) (i + interest) a'
  | M_settled a i x paid interest a' :
      accrues c cr a on i → x = ac_owed a + i →
      in_month c cr dates on (MkAccount 0 0 on (ac_next a)) paid interest a' →
      in_month c cr dates on a (x + paid) (i + interest) a'
  | M_extra a i x paid interest a' :
      accrues c cr a on i → 0 ≤ x ≤ ac_principal a →
      in_month c cr dates on (MkAccount (ac_principal a - x) (ac_interest a + i) on (ac_next a)) paid interest a' →
      in_month c cr dates on a (x + paid) (i + interest) a'.

Lemma in_month_trans c cr dates on a p i a1 q j a2 :
  in_month c cr dates on a p i a1 → in_month c cr dates on a1 q j a2 →
  in_month c cr dates on a (p + q) (i + j) a2.
Proof.
  intros H H'. induction H; rewrite <- ?Z.add_assoc; [done|eapply M_instalment..|eapply M_settled|eapply M_extra]; eauto.
Qed.

(** What is paid is what was owed and what accrued, less what is still owed;
    and at a zero rate nothing accrues. *)
Lemma in_month_sum c cr dates on a p i a' :
  in_month c cr dates on a p i a' →
  ac_owed a' + p = ac_owed a + i ∧ 0 ≤ i ∧ (NominalRate c = 0 → i = 0).
Proof.
  assert (∀ a d i, accrues c cr a d i → 0 ≤ i ∧ (NominalRate c = 0 → i = 0)) as Hacc.
  { intros b d k (_ & ? & x & -> & Hx). split; [done|]. by apply Accrue_result in Hx as [_ ?]. }
  induction 1 as [a|a due i req paid int a' _ _ Ha _ _ _ IH|a i x paid int a' Ha -> _ IH|a i x paid int a' Ha _ _ IH];
    [lia|..]; apply Hacc in Ha as [? Hz]; unfold ac_owed in *; simpl in *; destruct IH as (? & ? & Hz');
    (split_and!; [lia|lia|]; intros E; rewrite (Hz E), (Hz' E); lia).
Qed.

Definition loan_month (s : state) (on : Date) : account → Z → Z → account → Prop :=
  in_month (LnContract (s_loan s)) (cur (LnBalance (s_loan s))) (s_dates s) on.

(** [s'] follows from [s] in the month that ends on [on], when [paid] is paid. A
    loan that cannot be walked stays as it is, whatever its bank asks. *)
Definition moved (on : Date) (s s' : state) (paid : Z) : Prop :=
  same_loan s s' ∧
  (is_supported s = false → s' = s) ∧
  (is_supported s = true → ∃ accrued, loan_month s on (account_of s) paid accrued (account_of s')).

Lemma same_loan_supported s s' : same_loan s s' → is_supported s' = is_supported s.
Proof. intros (E & _). unfold is_supported. by rewrite E. Qed.

Lemma moved_refl on s : moved on s s 0.
Proof. split_and!; [done..|]. intros _. exists 0. constructor. Qed.

Lemma moved_trans on s s1 s2 a b : moved on s s1 a → moved on s1 s2 b → moved on s s2 (a + b).
Proof.
  intros (Hl & Hn & Hs) (Hl' & Hn' & Hs'). pose proof (same_loan_supported _ _ Hl) as E.
  rewrite E in *. destruct Hl as (E1 & E2 & E3). split_and!.
  - destruct Hl' as (?&?&?). split_and!; congruence.
  - intros H. rewrite Hn' by done. auto.
  - intros H. destruct (Hs H) as (i & Hi), (Hs' H) as (j & Hj). exists (i + j).
    unfold loan_month in *. rewrite E1, E3 in Hj. by eapply in_month_trans.
Qed.

Lemma accrue_to_Ok s on s' :
  safe (s_interest s) → accrue_to s on = Ok s' →
  ∃ i, 0 ≤ i ∧ safe (s_interest s + i) ∧
    accrues (LnContract (s_loan s)) (cur (LnBalance (s_loan s))) (account_of s) on i ∧
    s' = MkState (s_loan s) (s_balance s) (s_interest s + i) on (s_dates s) (s_index s) (s_known s).
Proof.
  unfold accrue_to, safe. intros Hi H. case_if_in H; [done|]. inv_res.
  destruct (Accrue_result _ _ _ _ _ _ Hr) as [Hin Hz]. apply add_Ok in Hr0 as (? & ? & ? & ->); [|done].
  exists (minor r). split_and!; try lia; [|done]. split_and!; [done|done|]. by exists r.
Qed.

Lemma owed_Ok s r : wf_state s → add (s_balance s) (s_interest s) = Ok r ↔ owed s ≤ MaxMinor ∧ r = owed s.
Proof.
  intros (Hb & Hi & _). unfold owed. rewrite add_Ok by (by apply safe_i64). unfold safe in *. naive_solver lia.
Qed.

(** ** Required payments *)

Lemma pay_instalment_Ok on s due s' p :
  wf_state s → is_supported s = true → s_dates s !! s_index s = Some due → After due on = false →
  pay_instalment s due = Ok (s', p) →
  moved on s s' (PyRequired p) ∧ wf_state s' ∧ 0 < PyRequired p ≤ MaxMinor ∧
  PyID p = LnID (s_loan s) ∧ PyExtra p = 0 ∧ PyReason p = LnReason (s_loan s).
Proof.
  intros Hw Hs Hdue Hon. pose proof Hw as (Hb & Hi & Hz & Ha & Hu). unfold pay_instalment. intros H. inv_res.
  apply accrue_to_Ok in Hr as (i & Hi0 & Hs' & Hacc & ->); [|done]. simpl in *.
  apply add_Ok in Hr0 as (_ & _ & Hmax & ->); [|by apply safe_i64].
  match type of H with (if ?r <=? _ then _ else _) = _ => set (req := r) in H end. destruct (req <=? _) eqn:El; [done|]. inv_res. simpl.
  apply Z.leb_gt in El. unfold safe in *.
  assert (req ≤ s_balance s + (s_interest s + i)) as Hle.
  { subst req. destruct (Z.ltb_spec (s_balance s + (s_interest s + i))
      (minor (ScheduledPayment (LnContract (s_loan s))))); simpl; [lia|].
    destruct (Nat.eqb _ _); lia. }
  unfold isub. unfold MaxMinor in *.
  rewrite (i64_id (req - _)) by (unfold in_i64, MinInt64, MaxInt64; lia).
  rewrite i64_id by (unfold in_i64, MinInt64, MaxInt64; lia).
  split_and!; try done; try lia; simpl.
  - split_and!; [done|congruence|]. intros _. exists (i + 0). rewrite <- (Z.add_0_r req).
    eapply (M_instalment _ _ _ _ (account_of s)); [done|done|done| |done|].
    + subst req. unfold asked, ac_owed. simpl. by rewrite Z.add_assoc.
    + unfold account_of, ac_owed. simpl. rewrite Z.add_0_r.
      replace (s_balance s + s_interest s + i - req) with (s_balance s - (req - (s_interest s + i))) by lia. constructor.
  - unfold wf_state, safe, MaxMinor. simpl. split_and!; lia || done.
Qed.

Definition paid_to (id : string) (ps : list Payment) : Z :=
  sum_by (λ p, if String.eqb (PyID p) id then PyRequired p + PyExtra p else 0) ps.

Lemma require_Ok first on month s s' op :
  wf_state s → require first on month s = Ok (s', op) →
  (is_supported s = true → op = None → s_balance s' = 0) ∧
  (∀ p, op = Some p → in_i64 (PyRequired p) ∧ PyID p = LnID (s_loan s) ∧ PyExtra p = 0 ∧
    PyReason p = LnReason (s_loan s)) ∧
  moved on s s' (default 0 (PyRequired <$> op)) ∧ wf_state s'.
Proof.
  unfold require. intros Hw. destruct (Z.eqb_spec (s_balance s) 0) as [Eb|_].
  { intros H. inv_res. split_and!; [done..|apply moved_refl|done]. }
  destruct (is_supported s) eqn:Es; simpl.
  - destruct (s_dates s !! s_index s) as [due|] eqn:Ed; [destruct (After due on) eqn:Ea|]; intros H; inv_res;
      try (destruct r as [s1 p1]; simpl in *; inv_res;
        destruct (pay_instalment_Ok on _ _ _ _ Hw Es Ed Ea Hr) as (? & ? & ? & ? & ? & ?);
        pose proof (safe_i64 (PyRequired p1)); clear Ed Ea Hr; unfold safe in *; naive_solver lia);
      (split_and!; [done| |apply moved_refl|done]); intros p [= <-]; simpl; by split_and!.
  - intros H. inv_res. split_and!; [done| | |done].
    2: { split_and!; [done..|]. congruence. }
    intros p Hp. destruct (stated_month _ _ _); [|done]. injection Hp as <-. split_and!; [|done..].
    simpl. destruct (HasScheduled _); [apply Hw|by vm_compute].
Qed.

Definition id_of (s : state) : string := LnID (s_loan s).

(** What is promised of one entry of a month over these loans: the entry names
    one of them, the required part is never negative, and there is extra only
    where the loan is walked and not excluded. *)
Definition names (ls : list Loan) (p : Payment) : Prop :=
  0 ≤ PyRequired p ∧ ∃ l, l ∈ ls ∧ PyID p = LnID l ∧ PyReason p = LnReason l.
Definition allowed (ls : list Loan) (p : Payment) : Prop :=
  0 ≤ PyExtra p ∧
  (PyExtra p = 0 ∨ ∃ l, l ∈ ls ∧ PyID p = LnID l ∧ LnReason l = "" ∧ OptionalExcluded l = false).

Lemma paid_to_app id ps ps' : paid_to id (ps ++ ps') = paid_to id ps + paid_to id ps'.
Proof. apply sum_by_app. Qed.

Lemma paid_to_absent id ps : id ∉ (PyID <$> ps) → paid_to id ps = 0.
Proof.
  unfold paid_to, sum_by. induction ps as [|p ps IH]; intros H; [done|]. rewrite fmap_cons in H.
  apply not_elem_of_cons in H as [Hp H]. simpl. rewrite (proj2 (String.eqb_neq _ _)) by done.
  rewrite IH by done. lia.
Qed.

Lemma ids_of_loans (states : list state) : LnID <$> (s_loan <$> states) = id_of <$> states.
Proof. by rewrite <- list_fmap_compose. Qed.

Lemma entries_ids states ps id :
  Forall (names (s_loan <$> states)) ps → id ∈ (PyID <$> ps) → id ∈ (id_of <$> states).
Proof.
  rewrite Forall_forall. intros Hps Hid. apply list_elem_of_fmap in Hid as (p & -> & Hp).
  destruct (Hps p Hp) as (_ & l & Hl & -> & _). rewrite <- ids_of_loans. apply list_elem_of_fmap. by exists l.
Qed.

Lemma names_cons l ls ps : Forall (names ls) ps → Forall (names (l :: ls)) ps.
Proof.
  intros H. eapply Forall_impl; [exact H|]. intros p (? & l' & ? & ?). split; [done|].
  exists l'. split; [by right|done].
Qed.

Lemma require_all_Ok first on month states : ∀ total states' total' ps,
  Forall wf_state states → NoDup (id_of <$> states) → safe total →
  require_all first on month states total = Ok (states', total', ps) →
  Forall wf_state states' ∧ Forall2 (λ s s', moved on s s' (paid_to (id_of s) ps)) states states' ∧
  total' = total + sum_by PyRequired ps ∧ safe total' ∧
  Forall (λ p, PyExtra p = 0) ps ∧ Forall (names (s_loan <$> states)) ps ∧
  Forall (λ s', is_supported s' = true → s_balance s' ≠ 0 → id_of s' ∈ (PyID <$> ps)) states'.
Proof.
  induction states as [|s states IH]; intros total states' total' ps Hw Hnd Ht H; simpl in H.
  { inv_res. split_and!; try constructor; unfold sum_by; simpl; lia || apply Ht. }
  apply Forall_cons in Hw as [Hs Hw]. rewrite fmap_cons in Hnd. apply NoDup_cons in Hnd as [Hid Hnd].
  inv_res. destruct r as [s1 op]. inv_res. destruct r0 as [[states1 total2] ps1]. inv_res.
  destruct (require_Ok _ _ _ _ _ _ Hs Hr) as (Hnone & Hop & Hm & Hw1).
  assert (safe r ∧ r = total + sum_by PyRequired (option_list op) ∧
    Forall (λ p, 0 ≤ PyRequired p) (option_list op)) as (Hr' & Er & Hge).
  { destruct op as [p|]; unfold sum_by; simpl; [|inv_res; split_and!; [done|lia|constructor]].
    apply add_Ok in Hr0 as (? & ? & ? & ->); [|by apply Hop].
    unfold safe in *. split_and!; [lia..|]. by repeat constructor. }
  destruct (IH _ _ _ _ Hw Hnd Hr' Hr1) as (HW & HM & -> & HT & HE & HP & HI).
  assert (∀ id, id ∈ (PyID <$> option_list op) → id = id_of s) as Hop_id.
  { intros id Hin. destruct op as [p|]; [|by apply not_elem_of_nil in Hin].
    apply list_elem_of_singleton in Hin as ->. by apply (Hop p). }
  split_and!.
  - by constructor.
  - constructor.
    + rewrite paid_to_app, (paid_to_absent _ ps1), Z.add_0_r
        by (intros ?%(entries_ids states); [done|done]).
      replace (paid_to _ _) with (default 0 (PyRequired <$> op)); [done|].
      destruct op as [p|]; [|done]. destruct (Hop p) as (_ & Hpid & Hx & _); [done|].
      unfold paid_to, sum_by. simpl. unfold id_of. rewrite Hpid, String.eqb_refl, Hx. lia.
    + apply Forall2_same_length_lookup_2; [by eapply Forall2_length|].
      intros k x y Hx Hy. rewrite paid_to_app, (paid_to_absent _ (option_list op)), Z.add_0_l.
      { by eapply (Forall2_lookup_lr _ _ _ _ _ _ HM). }
      intros Hin%Hop_id. apply Hid. rewrite <- Hin. apply list_elem_of_fmap. exists x.
      split; [done|]. by eapply list_elem_of_lookup_2.
  - rewrite sum_by_app. lia.
  - done.
  - apply Forall_app. split; [|done]. destruct op as [p|]; [|constructor]. repeat constructor. by apply (Hop p).
  - apply Forall_app. split; [|by apply names_cons].
    destruct op as [p|]; [|constructor]. repeat constructor; [by apply Forall_cons in Hge as [? _]|].
    exists (s_loan s). destruct (Hop p) as (_ & ? & _ & ?); [done|]. split; [by left|]. done.
  - constructor.
    + intros Hsup Hnz. rewrite fmap_app, elem_of_app. left. destruct op as [p|].
      * simpl. apply list_elem_of_singleton. unfold id_of. destruct Hm as ((-> & _) & _). symmetry. by apply (Hop p).
      * destruct Hnz. apply Hnone; [|done]. destruct Hm as (Hl & _).
        by rewrite <- (same_loan_supported _ _ Hl).
    + eapply Forall_impl; [exact HI|]. intros x Hx ? ?. rewrite fmap_app, elem_of_app. right. auto.
Qed.

(** ** The optional extra *)

(** Whole units of an amount: exact in [int64], and less than one unit short. *)
Lemma whole_units a unit n :
  safe a → 1 ≤ unit → idiv (E:=gerror) a unit = Ok n →
  0 ≤ imul n unit ≤ a ∧ a - imul n unit < unit.
Proof.
  unfold safe, MaxMinor. intros Ha Hu. unfold idiv, imul. rewrite (proj2 (Z.eqb_neq unit 0)) by lia.
  intros [= <-]. destruct (quot_rem_nonneg a unit) as [-> _]; [lia..|].
  pose proof (div_mod_facts a unit ltac:(lia)). assert (0 ≤ a / unit) by (apply Z.div_pos; lia).
  assert (a / unit ≤ a) by nia. rewrite (i64_id (a / unit)) by (unfold_i64; lia).
  rewrite i64_id by (unfold_i64; nia). nia.
Qed.

Definition unit_of_loan (s : state) : Z := Unit (Rounding (LnContract (s_loan s))).

(** A prepayment never exceeds what is left. It settles the loan or reduces
    principal alone, by all but at most one unit of it or to within one unit of
    the money. *)
Lemma prepay_Ok on s left s' paid :
  wf_state s → is_supported s = true → s_balance s ≠ 0 → safe left →
  prepay on s left = Ok (s', paid) →
  moved on s s' paid ∧ wf_state s' ∧ 0 ≤ paid ≤ left ∧
  (unit_of_loan s ≤ left - paid → s_balance s' ≤ unit_of_loan s) ∧
  (owed s' = 0 ∨ s_interest s ≤ s_interest s').
Proof.
  intros (Hb & Hi & Hz & Ha & Hu) Hs Hnz Hleft. specialize (Hu Hs). unfold prepay, unit_of_loan. intros H.
  inv_res. apply accrue_to_Ok in Hr as (i & Hi0 & Hsi & Hacc & ->); [|done]. simpl in *.
  apply add_Ok in Hr0 as (_ & _ & Hmax & ->); [|by apply safe_i64].
  set (u := Unit _) in *. set (b := s_balance s) in *. set (int := s_interest s + i) in *.
  assert (∀ b' int' paid', 0 ≤ b' → safe int' → (b' = 0 → int' = 0) → b' + int' + paid' = b + int →
    0 ≤ paid' ≤ left → (u ≤ left - paid' → b' ≤ u) → (b' + int' = 0 ∨ int' = int) →
    let s0 := with_paid (MkState (s_loan s) b int on (s_dates s) (s_index s) (s_known s)) b' int' (s_index s) in
    moved on s s0 paid' ∧ wf_state s0 ∧ 0 ≤ paid' ≤ left ∧ (u ≤ left - paid' → s_balance s0 ≤ u) ∧
    (owed s0 = 0 ∨ s_interest s ≤ s_interest s0)) as Hdone.
  { intros b' int' paid' ? ? ? ? ? ? ?. unfold safe in *. simpl. split_and!; try done; try lia.
    - split_and!; [done|congruence|]. intros _. exists (i + 0). rewrite <- (Z.add_0_r paid').
      unfold account_of, loan_month. simpl. destruct (decide (b' + int' = 0)).
      + assert (b' = 0) as -> by lia. assert (int' = 0) as -> by lia.
        eapply (M_settled _ _ _ _ (account_of s)); [done|unfold ac_owed; simpl; lia|constructor].
      + assert (int' = int) as -> by lia. replace b' with (b - paid') by lia.
        eapply (M_extra _ _ _ _ (account_of s)); [done|simpl; lia|constructor].
    - unfold wf_state, safe. simpl. split_and!; lia || done.
    - unfold owed. simpl. lia. }
  destruct (Z.leb_spec (b + int) left) as [Hall|Hpart].
  { inv_res. rewrite andb_false_r in H. inv_res. apply Hdone; unfold safe in *; lia. }
  set (cap := if b <? left then b else left) in *.
  assert (cap = Z.min b left) as Ecap by (subst cap; destruct (Z.ltb_spec b left); lia).
  destruct (idiv cap u) as [n| |] eqn:En; simpl in *; inv_res.
  destruct (whole_units cap u n) as [Hn Hshort]; [unfold safe in *; lia|done|done|].
  set (p1 := imul n u) in *. unfold safe, MaxMinor, isub in *.
  rewrite (i64_id (b - p1)) in H by (unfold in_i64, MinInt64, MaxInt64; lia).
  destruct (Z.eqb_spec (b - p1) 0) as [E0|E0]; simpl in H.
  - destruct (Z.ltb_spec 0 int) as [Hint|Hint]; [|inv_res; apply (Hdone _ int); lia].
    rewrite i64_id in H by (destruct (Z.ltb_spec p1 u); unfold in_i64, MinInt64, MaxInt64; lia).
    inv_res. apply (Hdone _ int); destruct (Z.ltb_spec p1 u); lia.
  - inv_res. apply (Hdone _ int); lia.
Qed.

(** What the extra pass leaves as it is. *)
Definition face (p : Payment) : string * Z * string := (PyID p, PyRequired p, PyReason p).

Lemma credit_extra_face id paid ps : face <$> credit_extra id paid ps = face <$> ps.
Proof.
  induction ps as [|p ps IH]; [done|]. csimpl. destruct (String.eqb _ _); [done|]. csimpl. by rewrite IH.
Qed.

Lemma face_ids (ps ps' : list Payment) : face <$> ps' = face <$> ps → PyID <$> ps' = PyID <$> ps.
Proof.
  intros H. apply (f_equal (fmap (fst ∘ fst))) in H. by rewrite <- !list_fmap_compose in H.
Qed.
Lemma face_required (ps ps' : list Payment) :
  face <$> ps' = face <$> ps → sum_by PyRequired ps' = sum_by PyRequired ps.
Proof.
  revert ps'. unfold sum_by. induction ps as [|p ps IH]; intros [|p' ps'] H; try done.
  injection H as _ E _ H. simpl. rewrite E. f_equal. by apply IH.
Qed.
Lemma face_names ls (ps ps' : list Payment) : face <$> ps' = face <$> ps → Forall (names ls) ps → Forall (names ls) ps'.
Proof.
  revert ps'. induction ps as [|p ps IH]; intros [|p' ps'] H Hps; try done.
  injection H as E1 E2 E3 H. apply Forall_cons in Hps as [(? & l & ?) Hps]. constructor; [|auto].
  split; [lia|]. exists l. by rewrite E1, E3.
Qed.

Lemma sum_extra_nonneg ls ps : Forall (allowed ls) ps → 0 ≤ sum_by PyExtra ps.
Proof. rewrite Forall_forall. intros H. apply sum_by_nonneg. intros p Hp. by apply H. Qed.

(** Crediting the entry of a loan raises its extra, and only its, by the sum
    paid, as long as the month's extra stays in range. *)
Lemma credit_extra_Ok ls l paid ps :
  Forall (allowed ls) ps → 0 ≤ paid → sum_by PyExtra ps + paid ≤ MaxMinor → LnID l ∈ (PyID <$> ps) →
  l ∈ ls → LnReason l = "" → OptionalExcluded l = false →
  sum_by PyExtra (credit_extra (LnID l) paid ps) = sum_by PyExtra ps + paid ∧
  Forall (allowed ls) (credit_extra (LnID l) paid ps) ∧
  ∀ id', paid_to id' (credit_extra (LnID l) paid ps) =
    paid_to id' ps + (if String.eqb (LnID l) id' then paid else 0).
Proof.
  unfold MaxMinor. intros Hf Hpaid Hsum Hid Hl Hwhy Hin. revert Hsum Hid.
  induction Hf as [|p ps Hp Hf IH]; intros Hsum Hid; [by apply not_elem_of_nil in Hid|].
  pose proof (sum_extra_nonneg _ _ Hf) as Hps. pose proof (proj1 Hp).
  rewrite fmap_cons in Hid. unfold paid_to, sum_by in *. simpl in *.
  destruct (String.eqb_spec (PyID p) (LnID l)) as [E|Hne]; simpl.
  - unfold iadd. rewrite i64_id by (unfold_i64; lia). split_and!; [lia| |].
    + constructor; [|done]. split; simpl; [lia|]. right. by exists l.
    + intros id'. rewrite E. destruct (String.eqb_spec (LnID l) id'); lia.
  - apply elem_of_cons in Hid as [E|Hid]; [by rewrite E in Hne|].
    destruct IH as (IH1 & IH2 & IH3); [lia|done|]. split_and!; [lia|by constructor|].
    intros id'. rewrite IH3. destruct (String.eqb_spec (PyID p) id'); lia.
Qed.

Lemma prepay_all_Ok ls on states : ∀ left ps states' rest ps',
  Forall wf_state states → NoDup (id_of <$> states) → Forall (λ s, s_loan s ∈ ls) states →
  safe left → Forall (allowed ls) ps → sum_by PyExtra ps + left ≤ MaxMinor →
  Forall (λ s, is_supported s = true → s_balance s ≠ 0 → id_of s ∈ (PyID <$> ps)) states →
  prepay_all on states left ps = Ok (states', rest, ps') →
  Forall wf_state states' ∧
  Forall2 (λ s s', moved on s s' (paid_to (id_of s) ps' - paid_to (id_of s) ps)) states states' ∧
  (∀ id, id ∉ (id_of <$> states) → paid_to id ps' = paid_to id ps) ∧
  0 ≤ rest ≤ left ∧ sum_by PyExtra ps' + rest = sum_by PyExtra ps + left ∧
  Forall (allowed ls) ps' ∧ face <$> ps' = face <$> ps.
Proof.
  induction states as [|s states IH]; intros left ps states' rest ps' Hw Hnd Hls Hleft Hall Hsum Hids H; simpl in H.
  { inv_res. split_and!; try constructor; auto; unfold safe in *; lia. }
  apply Forall_cons in Hw as [Hs Hw]. rewrite fmap_cons in Hnd. apply NoDup_cons in Hnd as [Hid Hnd].
  apply Forall_cons in Hls as [Hl Hls]. apply Forall_cons in Hids as [Hentry Hids].
  destruct (takes_extra s left) eqn:Etake.
  - unfold takes_extra in Etake. rewrite !andb_true_iff, !negb_true_iff in Etake.
    destruct Etake as (((Enz & Esup) & Eex) & El). apply Z.eqb_neq in Enz.
    inv_res. destruct r as [s1 paid]. inv_res. destruct r as [[states1 rest1] ps1]. inv_res.
    destruct (prepay_Ok _ _ _ _ _ Hs Esup Enz Hleft Hr) as (Hm & Hw1 & Hpaid & _).
    destruct (credit_extra_Ok ls (s_loan s) paid ps) as (HS & HA & HP);
      [done|lia|lia|by apply Hentry|done|by apply String.eqb_eq|done|].
    unfold safe, MaxMinor in Hleft. assert (isub left paid = left - paid) as Esub
      by (unfold isub; apply i64_id; unfold in_i64, MinInt64, MaxInt64; lia).
    rewrite Esub, (proj1 (proj1 Hm)) in Hr0. pose proof (credit_extra_face (LnID (s_loan s)) paid ps) as Hface.
    eapply IH in Hr0 as (HW & HM & HO & HR & HS' & HA' & HF);
      [|done|done|done|unfold safe, MaxMinor; lia|exact HA|lia|by rewrite (face_ids _ _ Hface)].
    split_and!; [by constructor| | |lia|lia|lia|done|by rewrite HF].
    + constructor.
      { rewrite HO, HP by done. unfold id_of. rewrite String.eqb_refl.
        by replace (_ + paid - _) with paid by lia. }
      apply Forall2_same_length_lookup_2; [by eapply Forall2_length|]. intros k x y Hx Hy.
      pose proof (Forall2_lookup_lr _ _ _ _ _ _ HM Hx Hy) as Hxy. simpl in Hxy. rewrite HP in Hxy.
      destruct (String.eqb_spec (LnID (s_loan s)) (id_of x)) as [E|_]; [|by rewrite Z.add_0_r in Hxy].
      destruct Hid. unfold id_of at 1. rewrite E. apply list_elem_of_fmap. exists x.
      split; [done|by eapply list_elem_of_lookup_2].
    + intros id Hnot. apply not_elem_of_cons in Hnot as [Hne Hnot]. rewrite HO, HP by done.
      rewrite (proj2 (String.eqb_neq _ _)) by (intros E; by apply Hne). lia.
  - inv_res. destruct r as [[states1 rest1] ps1]. inv_res.
    destruct (IH _ _ _ _ _ Hw Hnd Hls Hleft Hall Hsum Hids Hr) as (HW & HM & HO & HR & HS' & HA' & HF).
    split_and!; [by constructor| | |lia|lia|lia|done|done].
    + constructor; [|done]. rewrite HO by done. rewrite Z.sub_diag. apply moved_refl.
    + intros id Hnot. apply not_elem_of_cons in Hnot as [_ Hnot]. auto.
Qed.

(** ** Months *)

Lemma existsb_false {A} (f : A → bool) l : existsb f l = false ↔ Forall (λ x, f x = false) l.
Proof. induction l as [|x l IH]; simpl; [by split|]. rewrite orb_false_iff, IH, Forall_cons. done. Qed.

Lemma bad_override_false k n :
  bad_override (k, n) = false ↔
  safe n ∧ String.length k = 7%nat ∧ ∃ d, parse_month k = Ok d ∧ MonthKey d = k.
Proof.
  unfold bad_override, safe. destruct (parse_month k) as [d|e|w]; [|naive_solver..].
  rewrite !orb_false_iff, !negb_false_iff, Nat.eqb_eq, String.eqb_eq, !Z.ltb_ge. naive_solver.
Qed.

Lemma ValidateExtra_Ok x u :
  ValidateExtra x = Ok u ↔
  safe (ExMinor x) ∧ (size (Overrides x) ≤ MaxMonths)%nat ∧
  ∀ k n, Overrides x !! k = Some n → bad_override (k, n) = false.
Proof.
  unfold ValidateExtra, invalid, safe. destruct u.
  destruct (_ || _ || Nat.ltb _ _) eqn:E.
  - split; [done|]. intros (? & ? & _). rewrite !orb_true_iff, !Z.ltb_lt, Nat.ltb_lt in E. lia.
  - rewrite !orb_false_iff, !Z.ltb_ge, Nat.ltb_ge in E.
    destruct (existsb _ _) eqn:Eo.
    + split; [done|]. intros (_ & _ & Hall). apply existsb_exists in Eo as ([k n] & Hin & Hbad).
      apply list_elem_of_In, elem_of_map_to_list in Hin. by rewrite (Hall _ _ Hin) in Hbad.
    + apply existsb_false in Eo. rewrite Forall_forall in Eo.
      split; [intros _|done]. split_and!; try lia. intros k n Hk. apply Eo. by apply elem_of_map_to_list.
Qed.

Definition safe_extra (x : Extra) : Prop := ∀ month, safe (requested_in x month).

Lemma ValidateExtra_safe x u : ValidateExtra x = Ok u → safe_extra x.
Proof.
  intros (H & _ & Ho)%ValidateExtra_Ok month. unfold requested_in.
  destruct (Overrides x !! month) as [n|] eqn:E; simpl; [|done]. by apply (bad_override_false month n), Ho.
Qed.

(** The books of one month over these loans. *)
Definition month_books (ls : list Loan) (m : Month) : Prop :=
  MoRequired m = sum_by PyRequired (MoLoans m) ∧ MoExtra m = sum_by PyExtra (MoLoans m) ∧
  RequestedExtra m = MoExtra m + UnallocatedExtra m ∧ MoTotal m = MoRequired m + MoExtra m ∧
  safe (MoExtra m) ∧ safe (UnallocatedExtra m) ∧ safe (MoTotal m) ∧
  Forall (names ls) (MoLoans m) ∧ Forall (allowed ls) (MoLoans m).

Lemma sum_by_zero {A} (f : A → Z) l : Forall (λ x, f x = 0) l → sum_by f l = 0.
Proof. unfold sum_by. induction 1; simpl; lia. Qed.

Lemma Forall2_moved_compose on (f g : string → Z) l1 l2 l3 :
  Forall2 (λ s s', moved on s s' (f (id_of s))) l1 l2 →
  Forall2 (λ s s', moved on s s' (g (id_of s))) l2 l3 →
  Forall2 (λ s s', moved on s s' (f (id_of s) + g (id_of s))) l1 l3.
Proof.
  intros H. revert l3. induction H as [|a b l1 l2 Hab H IH]; intros l3 H'.
  { apply Forall2_nil_inv_l in H' as ->. constructor. }
  apply Forall2_cons_inv_l in H' as (c & l3' & Hbc & H' & ->). constructor; [|auto].
  eapply moved_trans; [done|]. replace (id_of a) with (id_of b); [done|].
  unfold id_of. by destruct Hab as ((-> & _) & _).
Qed.

Lemma moved_loans on (f : string → Z) l l' :
  Forall2 (λ s s', moved on s s' (f (id_of s))) l l' → s_loan <$> l' = s_loan <$> l.
Proof. induction 1 as [|a b l l' ((E & _) & _) H IH]; [done|]. csimpl. by rewrite E, IH. Qed.

Lemma project_month_Ok extra first on states states' m :
  Forall wf_state states → NoDup (id_of <$> states) → safe_extra extra →
  project_month extra first on states = Ok (states', m) →
  Forall wf_state states' ∧ Forall2 (λ s s', moved on s s' (paid_to (id_of s) (MoLoans m))) states states' ∧
  month_books (s_loan <$> states) m ∧ MoMonth m = MonthKey on ∧
  RequestedExtra m = requested_in extra (MonthKey on).
Proof.
  intros Hw Hnd Hx H. unfold project_month in H. inv_res. destruct r as [[st1 req] ps1]. inv_res.
  destruct r as [[st2 rest] ps2]. inv_res. specialize (Hx (MonthKey on)).
  assert (safe 0) as Hsafe0 by (unfold safe, MaxMinor; lia).
  destruct (require_all_Ok _ _ _ _ _ _ _ _ Hw Hnd Hsafe0 Hr)
    as (Hw1 & Hm1 & -> & Hreq & Hzero & Hnames & Hids). simpl in *.
  pose proof (sum_by_zero _ _ Hzero) as Hsum. pose proof (moved_loans _ (λ id, paid_to id ps1) _ _ Hm1) as Hl1.
  assert (id_of <$> st1 = id_of <$> states) as Hid1 by (by rewrite <- !ids_of_loans, Hl1).
  apply (prepay_all_Ok (s_loan <$> states)) in Hr0 as (Hw2 & Hm2 & _ & Hrest & Hleft & Hallowed & Hface);
    [|done|by rewrite Hid1| |done| |rewrite Hsum; apply Hx|done].
  2: { apply Forall_forall. intros s Hs. rewrite <- Hl1. apply list_elem_of_fmap. by exists s. }
  2: { eapply Forall_impl; [exact Hzero|]. intros p Hp. split; simpl in *; [lia|by left]. }
  unfold safe, MaxMinor in Hx. unfold isub in *.
  rewrite i64_id in * by (unfold in_i64, MinInt64, MaxInt64; lia).
  apply add_Ok in Hr1 as (? & ? & ? & ->); [|unfold in_i64, MinInt64, MaxInt64; lia].
  split_and!; try done.
  - pose proof (Forall2_moved_compose _ (λ id, paid_to id ps1) (λ id, paid_to id ps2 - paid_to id ps1)
      _ _ _ Hm1 Hm2) as Hm. eapply Forall2_impl; [exact Hm|]. intros s s'. simpl.
    by replace (paid_to _ _ + _) with (paid_to (id_of s) ps2) by lia.
  - pose proof (face_required _ _ Hface). unfold month_books, safe, MaxMinor in *. simpl.
    split_and!; try lia; [by eapply face_names|done].
Qed.

(** What one loan was paid over a run of months. *)
Definition paid_in (id : string) (ms : list Month) : Z := sum_by (λ m, paid_to id (MoLoans m)) ms.

(** The account of one loan over the months listed, each with what the loan is
    paid in it. *)
Inductive over_months (id : string) (c : Contract) (cr : Currency) (dates : list Date) (begin : Date) :
    nat → list Month → account → Z → account → Prop :=
  | O_end n a : over_months id c cr dates begin n [] a 0 a
  | O_month n m ms a i a1 j a' :
      in_month c cr dates (month_end begin n) a (paid_to id (MoLoans m)) i a1 →
      over_months id c cr dates begin (S n) ms a1 j a' →
      over_months id c cr dates begin n (m :: ms) a (i + j) a'.

Lemma over_months_sum id c cr dates begin n ms a i a' :
  over_months id c cr dates begin n ms a i a' →
  ac_owed a' + paid_in id ms = ac_owed a + i ∧ 0 ≤ i ∧ (NominalRate c = 0 → i = 0).
Proof.
  unfold paid_in, sum_by. induction 1 as [|n m ms a i a1 j a' Hm _ (? & ? & Hz)]; simpl; [lia|].
  apply in_month_sum in Hm as (? & ? & Hz'). split_and!; [lia|lia|]. intros E. rewrite (Hz E), (Hz' E). lia.
Qed.

(** [moved], over the months. *)
Definition walked (begin : Date) (n : nat) (ms : list Month) (s s' : state) : Prop :=
  same_loan s s' ∧
  (is_supported s = true → ∃ accrued,
    over_months (id_of s) (LnContract (s_loan s)) (cur (LnBalance (s_loan s))) (s_dates s) begin n ms
      (account_of s) accrued (account_of s')).

Lemma walked_no_months begin n s : walked begin n [] s s.
Proof. split; [done|]. intros _. exists 0. constructor. Qed.

Lemma walked_cons begin n m ms s s1 s' :
  moved (month_end begin n) s s1 (paid_to (id_of s) (MoLoans m)) → walked begin (S n) ms s1 s' →
  walked begin n (m :: ms) s s'.
Proof.
  intros (Hl & _ & Hs) (Hl' & Hs'). rewrite (same_loan_supported _ _ Hl) in Hs'.
  destruct Hl as (E1 & E2 & E3). split.
  - destruct Hl' as (?&?&?). split_and!; congruence.
  - intros H. destruct (Hs H) as (i & Hi), (Hs' H) as (j & Hj). exists (i + j).
    unfold id_of in *. rewrite E1, E3 in Hj. by econstructor.
Qed.

Lemma Forall2_walked begin n m ms l1 l2 l3 :
  Forall2 (λ s s', moved (month_end begin n) s s' (paid_to (id_of s) (MoLoans m))) l1 l2 →
  Forall2 (walked begin (S n) ms) l2 l3 → Forall2 (walked begin n (m :: ms)) l1 l3.
Proof.
  intros H. revert l3. induction H as [|a b l1 l2 Hab H IH]; intros l3 H'.
  { apply Forall2_nil_inv_l in H' as ->. constructor. }
  apply Forall2_cons_inv_l in H' as (c & l3' & Hbc & H' & ->). constructor; [|auto]. by eapply walked_cons.
Qed.

Lemma walk_months_Ok extra begin fuel : ∀ n states states' ms done,
  Forall wf_state states → NoDup (id_of <$> states) → safe_extra extra →
  walk_months extra begin fuel n states = Ok (states', ms, done) →
  Forall wf_state states' ∧ Forall2 (walked begin n ms) states states' ∧
  Forall (month_books (s_loan <$> states)) ms ∧
  (∀ k m, ms !! k = Some m → MoMonth m = MonthKey (month_end begin (n + k)) ∧
    RequestedExtra m = requested_in extra (MoMonth m)) ∧
  (length ms ≤ fuel)%nat ∧
  (if done then ∃ k m, last ms = Some m ∧ MoMonth m = MonthKey (month_end begin k) ∧
      Forall (λ s, alive (month_end begin k) s = false) states'
   else length ms = fuel).
Proof.
  induction fuel as [|fuel IH]; intros n states states' ms done Hw Hnd Hx H; simpl in H.
  { inv_res. split_and!; try done; try constructor; try (simpl; lia).
    apply Forall2_same_length_lookup_2; [done|]. intros k x y Hx1 Hx2. simplify_eq. apply walked_no_months. }
  inv_res. destruct r as [st1 m1]. destruct (project_month_Ok _ _ _ _ _ _ Hw Hnd Hx Hr)
    as (Hw1 & Hm1 & Hb1 & Hmo & Hreq).
  pose proof (moved_loans _ (λ id, paid_to id (MoLoans m1)) _ _ Hm1) as Hl1.
  destruct (existsb (alive (month_end begin n)) st1) eqn:Ea; inv_res.
  - destruct r as [[st2 ms2] d2]. inv_res.
    destruct (IH _ _ _ _ _ Hw1 ltac:(by rewrite <- ids_of_loans, Hl1, ids_of_loans) Hx Hr0)
      as (Hw2 & Hm2 & Hb2 & Hk & Hlen & Hend).
    split_and!; [done| | | |simpl; lia|].
    + by eapply Forall2_walked.
    + constructor; [done|]. by rewrite <- Hl1.
    + intros [|k] m Hlook; simpl in Hlook.
      * simplify_eq. rewrite Nat.add_0_r, Hmo. done.
      * rewrite Nat.add_succ_r. by apply Hk in Hlook.
    + destruct done; [|simpl; lia]. destruct Hend as (k & m & Hlast & ? & ?).
      exists k, m. by rewrite last_cons, Hlast.
  - apply existsb_false in Ea. split_and!; [done| |by apply Forall_singleton| |simpl; lia|].
    + eapply Forall2_impl; [exact Hm1|]. intros s s' Hss. eapply walked_cons; [exact Hss|apply walked_no_months].
    + intros [|k] m Hlook; simpl in Hlook; [|done]. simplify_eq. rewrite Nat.add_0_r, Hmo. done.
    + by exists n, m1.
Qed.

(** ** Reading the loans *)

Definition opening_interest (l : Loan) : Z :=
  if OpeningInterestKnown l then OpeningInterestMinor l else 0.

(** The state a loan is read into: the loan as given, apart from its reason. *)
Definition kept (l : Loan) (s : state) : Prop :=
  s_loan s = with_reason l (LnReason (s_loan s)) ∧ s_balance s = minor (LnBalance l) ∧
  s_interest s = opening_interest l ∧ (is_supported s = true → LnReason l = "") ∧
  s_from s = LnAsOf l ∧ s_index s = 0%nat.

Lemma kept_because l s why : why ≠ "" → kept l s → kept l (because s why).
Proof.
  intros Hne (E & Eb & Ei & _ & Ef & En). split_and!; try done; simpl.
  - rewrite E. done.
  - unfold is_supported, because. simpl. by intros ?%String.eqb_eq.
Qed.

Lemma prepare_kept today l s : prepare today l = Ok s → kept l s.
Proof.
  assert (kept l (open_state l)) as H0.
  { split_and!; try done; [by destruct l|]. apply String.eqb_eq. }
  assert (kept l (need_interest (open_state l))) as H1.
  { unfold need_interest. destruct (_ && _); [by apply kept_because|done]. }
  unfold prepare. intros H. inv_res.
  assert (kept l r) as H2.
  { unfold find_known in Hr. destruct (_ && _); [|by inv_res].
    destruct (RemainingDates _ _) as [[|d ds]| |]; by inv_res. }
  assert (kept l (overdue today r)) as H3.
  { unfold overdue. destruct (_ && _); [by apply kept_because|done]. }
  assert (kept l (check_terms (overdue today r))) as H4.
  { unfold check_terms. destruct (_ && _); [by apply kept_because|done]. }
  assert (kept l r0) as H5.
  { unfold find_dates in Hr0. destruct (is_supported _); [|by inv_res].
    destruct (RemainingDates _ _) as [[|d ds]| |]; inv_res; try (by apply kept_because).
    destruct (_ || _); inv_res; [by apply kept_because|done]. }
  unfold check_payment in H. destruct (is_supported r0); [|by inv_res].
  destruct (s_dates r0); [done|]. inv_res. destruct (_ || _); inv_res; [by apply kept_because|done].
Qed.

Lemma find_known_loan l s s' : find_known l s = Ok s' → s_loan s' = s_loan s.
Proof.
  unfold find_known. intros H. destruct (_ && _); [|by inv_res].
  destruct (RemainingDates _ _) as [[|d ds]| |]; by inv_res.
Qed.

(** A loan is only walked under terms the package supports. *)
Lemma prepare_terms today l s :
  prepare today l = Ok s → is_supported s = true → supported_terms (LnContract (s_loan s)) = true.
Proof.
  unfold prepare. intros H. inv_res. set (s1 := check_terms _) in *.
  assert (is_supported s1 = true → supported_terms (LnContract (s_loan s1)) = true) as H1.
  { subst s1. unfold check_terms. destruct (_ && _) eqn:E; [by unfold is_supported|].
    intros Hs. rewrite Hs in E. by apply negb_false_iff in E. }
  assert (is_supported r0 = true → supported_terms (LnContract (s_loan r0)) = true) as H2.
  { unfold find_dates in Hr0. destruct (is_supported s1) eqn:E; [|inv_res; congruence].
    destruct (RemainingDates _ _) as [[|d ds]| |]; inv_res; try (by unfold is_supported).
    destruct (_ || _); inv_res; [by unfold is_supported|]. by auto. }
  unfold check_payment in H. destruct (is_supported r0) eqn:E; [|inv_res; congruence].
  destruct (s_dates r0); [done|]. inv_res. destruct (_ || _); inv_res; [by unfold is_supported|auto].
Qed.

(** A loan that is walked is walked over its own remaining bank dates. *)
Lemma prepare_dates today l s :
  prepare today l = Ok s → is_supported s = true → RemainingDates (LnContract l) (LnAsOf l) = Ok (s_dates s).
Proof.
  intros H Hs. destruct (prepare_kept _ _ _ H) as (Es & _). unfold prepare in H. inv_res.
  assert (r0 = s) as ->.
  { unfold check_payment in H. destruct (is_supported r0); [|by inv_res]. destruct (s_dates r0); [done|].
    inv_res. destruct (_ || _); inv_res; [done|done]. }
  unfold find_dates in Hr0. set (s1 := check_terms _) in *. destruct (is_supported s1) eqn:E; [|inv_res; congruence].
  assert (LnContract (s_loan s1) = LnContract l ∧ LnAsOf (s_loan s1) = LnAsOf l) as [E1 E2].
  { assert (s_loan s1 = with_reason l (LnReason (s_loan s1))) as ->; [|done].
    destruct (RemainingDates (LnContract (s_loan s1)) _) as [[|d ds]| |]; inv_res; try done.
    destruct (_ || _); inv_res; [done|]. exact Es. }
  rewrite E1, E2 in Hr0. destruct (RemainingDates _ _) as [[|d ds]| |]; inv_res; try done.
  destruct (_ || _); inv_res; done.
Qed.

Lemma supported_unit c : supported_terms c = true → 1 ≤ Unit (Rounding c).
Proof.
  unfold supported_terms. rewrite !andb_true_iff. intros (((((((H & _) & _) & _) & _) & _) & _) & _).
  unfold Contract_Validate in H. repeat (case_match; try done). lia.
Qed.

(** What a loan must satisfy whatever the others are. *)
Definition accepted (today : Date) (c : Currency) (l : Loan) : Prop :=
  loan_rejected today c ∅ l = false ∧ interest_rejected l = false.

Definition outstanding (l : Loan) : Prop := (Sign (LnBalance l) =? 0) = false.
#[export] Instance outstanding_dec l : Decision (outstanding l).
Proof. unfold outstanding. apply _. Defined.

Lemma loan_rejected_seen today c seen l :
  loan_rejected today c seen l = false ↔ (LnID l ∉ seen) ∧ loan_rejected today c ∅ l = false.
Proof.
  unfold loan_rejected. rewrite (bool_decide_eq_false_2 (LnID l ∈ ∅)) by set_solver.
  rewrite !orb_false_iff, bool_decide_eq_false. naive_solver.
Qed.

Lemma accepted_facts today c l :
  accepted today c l → safe (minor (LnBalance l)) ∧ safe (opening_interest l) ∧
  (outstanding l ↔ 0 < minor (LnBalance l)).
Proof.
  unfold accepted, loan_rejected, interest_rejected, opening_interest, outstanding, Sign, safe, MaxMinor.
  rewrite !orb_false_iff, !Z.ltb_ge. intros [H1 H2].
  destruct (Z.ltb_spec 0 (minor (LnBalance l))), (Z.ltb_spec (minor (LnBalance l)) 0);
    destruct (OpeningInterestKnown l); simpl; naive_solver lia.
Qed.

Lemma prepare_wf today c l s :
  accepted today c l → outstanding l → wf_amount (ScheduledPayment (LnContract l)) →
  prepare today l = Ok s → wf_state s ∧ 0 < s_balance s.
Proof.
  intros Ha Ho Hsch Hp. destruct (accepted_facts _ _ _ Ha) as (Hb & Hi & Hpos).
  destruct (prepare_kept _ _ _ Hp) as (E & Eb & Ei & _). apply Hpos in Ho. unfold wf_state.
  rewrite Eb, Ei. split; [|lia]. split; [done|]. split; [done|]. split; [lia|]. split.
  - by rewrite E.
  - intros Hs. by apply supported_unit, (prepare_terms today l).
Qed.

(** The loans read so far. *)
Definition opened (today : Date) (c : Currency) (loans : list Loan) (o : opening) : Prop :=
  NoDup (LnID <$> loans) ∧ Forall (accepted today c) loans ∧
  Forall2 (λ l s, prepare today l = Ok s) (filter outstanding loans) (op_states o) ∧
  op_seen o = list_to_set (LnID <$> loans) ∧
  op_complete o = forallb is_supported (op_states o) ∧ (op_complete o = true ↔ op_reason o = "").

(** ** The order of months and of loans *)

Lemma ltb_spec a b : String.ltb a b = true ↔ ¬ String.le b a.
Proof.
  unfold String.le, String.ltb, String.leb. rewrite (String.compare_antisym b a).
  destruct (String.compare a b); naive_solver.
Qed.
Lemma ltb_false a b : String.ltb a b = false ↔ String.le b a.
Proof.
  rewrite <- not_true_iff_false, ltb_spec. split; [apply dec_stable|naive_solver].
Qed.

(** [a] may stand before [b]. *)
Lemma state_not_after a b :
  not_after state_less a b ↔
  rate_of b < rate_of a ∨ rate_of a = rate_of b ∧
    (minor (LnBalance (s_loan a)) < minor (LnBalance (s_loan b)) ∨
     minor (LnBalance (s_loan a)) = minor (LnBalance (s_loan b)) ∧ String.le (id_of a) (id_of b)).
Proof.
  unfold not_after, state_less, rate_of, id_of.
  destruct (Z.eqb_spec (NominalRate (LnContract (s_loan b))) (NominalRate (LnContract (s_loan a))));
    simpl; [|rewrite Z.ltb_ge; lia].
  destruct (Z.eqb_spec (minor (LnBalance (s_loan b))) (minor (LnBalance (s_loan a)))); simpl;
    [rewrite ltb_false|rewrite Z.ltb_ge]; naive_solver lia.
Qed.

Lemma state_less_asym a b : state_less a b = true → state_less b a = false.
Proof.
  intros H. apply not_false_iff_true in H. change (¬ not_after state_less b a) in H.
  change (not_after state_less a b). rewrite state_not_after in *.
  destruct (total String.le (id_of a) (id_of b)); lia || (destruct (decide (rate_of a = rate_of b)); [|lia];
    destruct (decide (minor (LnBalance (s_loan a)) = minor (LnBalance (s_loan b)))); [|lia]; naive_solver).
Qed.

Lemma state_not_after_trans a b c :
  not_after state_less a b → not_after state_less b c → not_after state_less a c.
Proof.
  rewrite !state_not_after. intros [?|(? & [?|[? H1]])] [?|(? & [?|[? H2]])]; try lia.
  right. split; [lia|]. right. split; [lia|]. by etrans.
Qed.

Lemma SliceStable_states l l' :
  l ≡ₚ l' → NoDup (id_of <$> l) → SliceStable state_less l = SliceStable state_less l'.
Proof.
  intros Hp Hnd. apply SliceStable_canonical; [apply state_less_asym|apply state_not_after_trans|done|].
  intros a b Ha Hb. rewrite !state_not_after. intros Hab Hba.
  assert (id_of a = id_of b) as E by (apply (anti_symm String.le); naive_solver lia).
  apply list_elem_of_lookup in Ha as [i Hi], Hb as [j Hj].
  assert (i = j) as <-; [|congruence].
  apply (NoDup_lookup _ i j (id_of a) Hnd); rewrite list_lookup_fmap; [by rewrite Hi|by rewrite Hj, E].
Qed.

(** ** The first month *)

(** [e] is where reading these states leaves the earliest month: at or before
    this one when a loan has no known date, else the least of the known. *)
Definition earliest_ok (start : string) (states : list state) (e : string) : Prop :=
  if existsb (λ s, Dates.IsZero (s_known s)) states then e ≠ "" ∧ String.le e start
  else (states = [] ∧ e = "") ∨
    ((∃ s, s ∈ states ∧ e = MonthKey (s_known s)) ∧ ∀ s, s ∈ states → String.le e (MonthKey (s_known s))).

Lemma MonthKey_nonempty d : MonthKey d ≠ "".
Proof.
  unfold MonthKey, text, Dates.String. destruct (Sprintf_0d 4 (Year d)); by simpl.
Qed.

Definition next_earliest (start e : string) (s : state) : string :=
  if Dates.IsZero (s_known s) then start
  else if String.eqb e "" || String.ltb (MonthKey (s_known s)) e then MonthKey (s_known s) else e.

Lemma earliest_step start states e s :
  start ≠ "" → earliest_ok start states e → earliest_ok start (states ++ [s]) (next_earliest start e s).
Proof.
  intros Hst. unfold earliest_ok, next_earliest. rewrite existsb_app. simpl.
  pose proof (MonthKey_nonempty (s_known s)) as Hne.
  destruct (Dates.IsZero (s_known s)) eqn:Ez; simpl; [by rewrite orb_true_r|]. rewrite orb_false_r.
  destruct (existsb _ states).
  - intros [He Hle]. rewrite (proj2 (String.eqb_neq _ _)) by done. simpl.
    destruct (String.ltb _ e) eqn:El; [|done]. split; [done|]. apply ltb_spec in El.
    destruct (total String.le (MonthKey (s_known s)) e); [by etrans|done].
  - intros [[-> ->]|[(x & Hx & ->) Hmin]]; right; simpl.
    { split; [exists s; split; [by left|done]|]. by intros y ->%list_elem_of_singleton. }
    rewrite (proj2 (String.eqb_neq _ _)) by apply MonthKey_nonempty. simpl.
    destruct (String.ltb _ _) eqn:El; [apply ltb_spec in El|apply ltb_false in El];
      setoid_rewrite elem_of_app.
    + split; [exists s; split; [right; by left|done]|]. intros y [Hy| ->%list_elem_of_singleton]; [|done].
      specialize (Hmin y Hy). destruct (total String.le (MonthKey (s_known s)) (MonthKey (s_known x))); [|done].
      by etrans.
    + split; [exists x; split; [by left|done]|]. intros y [Hy| ->%list_elem_of_singleton]; [|done]. auto.
Qed.

(** The first month does not depend on the order the loans are read in. *)
Lemma start_month_canonical start states states' e e' :
  states ≡ₚ states' → earliest_ok start states e → earliest_ok start states' e' →
  start_month start e = start_month start e'.
Proof.
  intros Hp. unfold earliest_ok, start_month.
  assert (existsb (λ s, Dates.IsZero (s_known s)) states = existsb (λ s, Dates.IsZero (s_known s)) states') as <-.
  { apply eq_bool_prop_intro. rewrite !Is_true_true, !existsb_exists. setoid_rewrite <- list_elem_of_In.
    by setoid_rewrite Hp. }
  destruct (existsb _ states).
  { intros [_ H1] [_ H2]. by rewrite (proj2 (ltb_false _ _) H1), (proj2 (ltb_false _ _) H2). }
  intros [[-> ->]|[(x & Hx & ->) Hmin]] [[-> ->]|[(y & Hy & ->) Hmin']]; try done.
  - rewrite <- Hp in Hy. by apply not_elem_of_nil in Hy.
  - rewrite Hp in Hx. by apply not_elem_of_nil in Hx.
  - assert (MonthKey (s_known x) = MonthKey (s_known y)) as ->; [|done].
    apply (anti_symm String.le); [apply Hmin; by rewrite Hp|apply Hmin'; by rewrite <- Hp].
Qed.

(** ** All the loans *)

Definition read_loans (today : Date) (c : Currency) (start : string) (loans : list Loan) (o : opening) : Prop :=
  opened today c loans o ∧ earliest_ok start (op_states o) (op_earliest o).

Lemma open_loan_step today c start loans o l o' :
  start ≠ "" → read_loans today c start loans o → open_loan today c start o l = Ok o' →
  read_loans today c start (loans ++ [l]) o'.
Proof.
  intros Hst ((Hnd & Hacc & Hst2 & Hseen & Hcomp & Hwhy) & Hear) H. unfold open_loan in H.
  destruct (loan_rejected _ _ _ _) eqn:Erej; [done|]. destruct (interest_rejected l) eqn:Eint; [done|].
  apply loan_rejected_seen in Erej as [Hnew Erej]. rewrite Hseen in Hnew.
  assert (NoDup (LnID <$> (loans ++ [l])) ∧ Forall (accepted today c) (loans ++ [l]) ∧
    {[LnID l]} ∪ op_seen o = list_to_set (LnID <$> (loans ++ [l]))) as (Hnd' & Hacc' & Hseen').
  { rewrite !fmap_app. csimpl. split_and!.
    - apply NoDup_app. split_and!; [done| |by apply NoDup_singleton].
      intros x Hx ->%list_elem_of_singleton. apply Hnew. by apply elem_of_list_to_set.
    - apply Forall_app. split; [done|]. by apply Forall_singleton.
    - rewrite Hseen, list_to_set_app_L. set_solver. }
  unfold read_loans, opened. rewrite filter_app, filter_cons, filter_nil.
  destruct (Sign (LnBalance l) =? 0) eqn:Ez.
  - inv_res. simpl. rewrite decide_False, app_nil_r by (unfold outstanding; by rewrite Ez). by split_and!.
  - inv_res. simpl. rewrite decide_True by done. split_and!; try done.
    + apply Forall2_app; [done|]. by repeat constructor.
    + rewrite forallb_app, Hcomp. simpl. by rewrite andb_true_r.
    + destruct (is_supported r) eqn:Es; simpl; [by rewrite andb_true_r|]. rewrite andb_false_r.
      split; [done|]. destruct (String.eqb_spec (op_reason o) ""); [|done].
      intros E. unfold is_supported in Es. by rewrite E in Es.
    + by apply earliest_step.
Qed.

Lemma open_loans_read today c start loans' : ∀ loans o o',
  start ≠ "" → read_loans today c start loans o → open_loans today c start o loans' = Ok o' →
  read_loans today c start (loans ++ loans') o'.
Proof.
  induction loans' as [|l loans' IH]; intros loans o o' Hst Hr H; simpl in H.
  { inv_res. by rewrite app_nil_r. }
  inv_res. replace (loans ++ l :: loans') with ((loans ++ [l]) ++ loans') by by rewrite <- app_assoc.
  eapply IH; [done| |done]. by eapply open_loan_step.
Qed.

Lemma read_nothing today c start : read_loans today c start [] no_opening.
Proof.
  split; [|by left]. split_and!; try constructor; done.
Qed.

(** Nothing but these conditions stops the reading. *)
Lemma open_loans_total today c start loans : ∀ o,
  NoDup (LnID <$> loans) → Forall (λ l, LnID l ∉ op_seen o) loans → Forall (accepted today c) loans →
  Forall (λ l, outstanding l → ∃ s, prepare today l = Ok s) loans →
  ∃ o', open_loans today c start o loans = Ok o'.
Proof.
  induction loans as [|l loans IH]; intros o Hnd Hseen Hacc Hprep; simpl; [by eexists|].
  rewrite fmap_cons in Hnd. apply NoDup_cons in Hnd as [Hnew Hnd]. apply Forall_cons in Hseen as [Hl Hseen].
  apply Forall_cons in Hacc as [[Ha Hi] Hacc]. apply Forall_cons in Hprep as [Hp Hprep].
  assert (∃ o1, open_loan today c start o l = Ok o1 ∧ op_seen o1 = {[LnID l]} ∪ op_seen o)
    as (o1 & E & Hseen1).
  { unfold open_loan. rewrite (proj2 (loan_rejected_seen _ _ _ _)) by done. rewrite Hi.
    unfold outstanding in Hp. destruct (Sign (LnBalance l) =? 0); [by eexists|].
    destruct Hp as [s ->]; [done|]. by eexists. }
  rewrite E, bind_of_Ok. apply IH; [done| |done..]. rewrite Hseen1. rewrite Forall_forall in *.
  intros x Hx [Hin|Hin]%elem_of_union; [|by apply (Hseen x)].
  apply Hnew. apply elem_of_singleton in Hin as <-. apply list_elem_of_fmap. by exists x.
Qed.

(** ** The whole projection *)

Definition int64_payment (l : Loan) : Prop := wf_amount (ScheduledPayment (LnContract l)).

Definition first_month (today : Date) (o : opening) : string := start_month (MonthKey today) (op_earliest o).
Definition ordered (o : opening) : list state := SliceStable state_less (op_states o).

Lemma Build_Ok today c loans extra r :
  Build today c loans extra = Ok r ↔
  Dates.IsZero today = false ∧ (length loans ≤ MaxLoans)%nat ∧ ValidateExtra extra = Ok tt ∧
  ∃ o st ms done, open_loans today c (MonthKey today) no_opening loans = Ok o ∧
    (if Nat.eqb (length (ordered o)) 0 then Ok ([], [], false)
     else walk_months extra (begin_of (first_month today o)) MaxMonths 0 (ordered o)) = Ok (st, ms, done) ∧
    r = report c (first_month today o) o ms done.
Proof.
  unfold Build. destruct (_ || _ || _) eqn:E.
  - split; [done|]. intros (Ht & Hl & Hv & _). rewrite Ht, Hv in E. simpl in E. rewrite orb_false_r in E.
    apply Nat.ltb_lt in E. lia.
  - rewrite !orb_false_iff, Nat.ltb_ge, negb_false_iff in E. destruct E as [[Ht Hl] Hv].
    assert (ValidateExtra extra = Ok tt) as Hv' by (revert Hv; by destruct (ValidateExtra extra) as [[]| |]).
    rewrite bind_Ok. split.
    + intros (o & Ho & H). apply bind_Ok in H as ([[st ms] done] & Hw & H). split_and!; try done.
      exists o, st, ms, done. split_and!; [done..|]. by injection H.
    + intros (_ & _ & _ & o & st & ms & done & Ho & Hw & ->). exists o. split; [done|].
      apply bind_Ok. by exists (st, ms, done).
Qed.

(** The states the months start from: one for each outstanding loan, as read. *)
Lemma ordered_facts today c loans o :
  Forall int64_payment loans → read_loans today c (MonthKey today) loans o →
  Forall wf_state (ordered o) ∧ NoDup (id_of <$> ordered o) ∧
  (∀ s, s ∈ ordered o → ∃ l, l ∈ loans ∧ outstanding l ∧ prepare today l = Ok s) ∧
  (∀ l, l ∈ loans → outstanding l → ∃ s, s ∈ ordered o ∧ prepare today l = Ok s).
Proof.
  intros Hint ((Hnd & Hacc & Hst & _) & _). unfold ordered. pose proof (SliceStable_perm state_less (op_states o)) as Hp.
  assert (∀ s, s ∈ op_states o → ∃ l, l ∈ loans ∧ outstanding l ∧ prepare today l = Ok s) as Hfrom.
  { intros s Hs. apply list_elem_of_lookup in Hs as [i Hi].
    destruct (Forall2_lookup_r _ _ _ _ _ Hst Hi) as (l & Hl & Hprep).
    apply list_elem_of_lookup_2, list_elem_of_filter in Hl as [? ?]. by exists l. }
  rewrite Hp, Forall_forall. rewrite Forall_forall in Hint, Hacc. split_and!.
  - intros s (l & Hl & Ho & Hprep)%Hfrom. destruct (prepare_wf today c l s) as [? _];
      [by apply Hacc|done|by apply Hint|done|done].
  - replace (id_of <$> op_states o) with (LnID <$> filter outstanding loans).
    + eapply sublist_NoDup; [exact Hnd|]. by apply fmap_sublist, sublist_filter.
    + clear -Hst. induction Hst as [|l s ls ss Hprep Hst IH]; [done|]. csimpl. rewrite IH. f_equal.
      destruct (prepare_kept _ _ _ Hprep) as (E & _). unfold id_of. by rewrite E.
  - setoid_rewrite Hp. done.
  - intros l Hl Ho. assert (l ∈ filter outstanding loans) as Hf by (by apply list_elem_of_filter).
    apply list_elem_of_lookup in Hf as [i Hi]. destruct (Forall2_lookup_l _ _ _ _ _ Hst Hi) as (s & Hs & Hprep).
    exists s. split; [|done]. rewrite Hp. by eapply list_elem_of_lookup_2.
Qed.

(** What the walk gives for a projection that is answered. *)
Lemma Build_walked today c loans extra r :
  Forall int64_payment loans → Build today c loans extra = Ok r →
  ∃ o st done, open_loans today c (MonthKey today) no_opening loans = Ok o ∧
    read_loans today c (MonthKey today) loans o ∧
    r = report c (first_month today o) o (Months r) done ∧ StartMonth r = first_month today o ∧
    Forall wf_state st ∧ Forall2 (walked (begin_of (StartMonth r)) 0 (Months r)) (ordered o) st ∧
    Forall (month_books (s_loan <$> ordered o)) (Months r) ∧
    (∀ k m, Months r !! k = Some m → MoMonth m = MonthKey (month_end (begin_of (StartMonth r)) k) ∧
      RequestedExtra m = requested_in extra (MoMonth m)) ∧
    (length (Months r) ≤ MaxMonths)%nat ∧
    (done = true → ∃ k m, last (Months r) = Some m ∧
      MoMonth m = MonthKey (month_end (begin_of (StartMonth r)) k) ∧
      Forall (λ s, alive (month_end (begin_of (StartMonth r)) k) s = false) st).
Proof.
  intros Hint H. apply Build_Ok in H as (Ht & Hl & Hv & o & st & ms & done & Ho & Hwalk & ->).
  assert (read_loans today c (MonthKey today) loans o) as Hread.
  { apply (open_loans_read today c (MonthKey today) loans [] no_opening); [apply MonthKey_nonempty| |done].
    apply read_nothing. }
  destruct (ordered_facts _ _ _ _ Hint Hread) as (Hw & Hnd & _).
  assert (Months (report c (first_month today o) o ms done) = ms ∧
    StartMonth (report c (first_month today o) o ms done) = first_month today o) as [-> ->]
    by (unfold report; by destruct (_ && _ && _)).
  exists o, st, done. destruct (Nat.eqb _ 0) eqn:E.
  - inv_res. apply Nat.eqb_eq, length_zero_iff_nil in E. rewrite E. split_and!; try done; try constructor.
    unfold MaxMonths. simpl. lia.
  - apply walk_months_Ok in Hwalk as (? & ? & ? & ? & ? & Hend); [|done|done|by eapply ValidateExtra_safe].
    split_and!; try done. by intros ->.
Qed.

Lemma report_finish c start o ms done r :
  r = report c start o ms done → Finish r ≠ "" →
  done = true ∧ op_complete o = true ∧ Complete r = op_complete o ∧ RReason r = op_reason o ∧
  Finish r = default "" (MoMonth <$> last ms).
Proof.
  intros -> Hfin. unfold report in *. destruct done, (op_complete o); simpl in *;
    try (by destruct (_ && _)); try done.
  destruct (String.eqb_spec (default "" (MoMonth <$> last ms)) "") as [E|E].
  - destruct (_ && _); simpl in Hfin; by rewrite E in Hfin.
  - by rewrite andb_false_r.
Qed.

(** A walked loan that is no longer alive owes nothing, and its account says
    how it came to that. *)
Lemma walked_settled today l s s' begin ms on :
  prepare today l = Ok s → is_supported s = true → walked begin 0 ms s s' →
  alive on s' = false → wf_state s' →
  ∃ dates interest on next, RemainingDates (LnContract l) (LnAsOf l) = Ok dates ∧
    over_months (LnID l) (LnContract l) (cur (LnBalance l)) dates begin 0 ms
      (MkAccount (minor (LnBalance l)) (opening_interest l) (LnAsOf l) 0) interest (MkAccount 0 0 on next) ∧
    paid_in (LnID l) ms = minor (LnBalance l) + opening_interest l + interest ∧
    0 ≤ interest ∧ (NominalRate (LnContract l) = 0 → interest = 0).
Proof.
  intros Hprep Hsup (Hsame & Hacc) Halive ((? & _) & _ & Hz & _).
  destruct (prepare_kept _ _ _ Hprep) as (E & Eb & Ei & _ & Ef & En). destruct (Hacc Hsup) as (i & Hi).
  unfold alive in Halive. rewrite (same_loan_supported _ _ Hsame), Hsup, andb_true_r in Halive.
  apply Z.ltb_ge in Halive. assert (s_balance s' = 0) as E0 by lia.
  unfold account_of, id_of in Hi. rewrite E, E0, (Hz E0), Eb, Ei, Ef, En in Hi. simpl in Hi.
  exists (s_dates s), i, (s_from s'), (s_index s').
  split; [by eapply prepare_dates|]. split; [exact Hi|].
  apply over_months_sum in Hi as (Hsum & ? & ?). unfold ac_owed in Hsum. simpl in Hsum. split_and!; [lia|done|done].
Qed.

(** * Properties *)

Definition loan_terms (id : string) (rate : Z) : Contract :=
  MkContract id 1 AMD (MkDate 2024 1 15) zero_date rate Actual365 Annuity
    (MkDate 2024 1 15) (MkDate 2024 7 15) 15 zero_date (MkAmount 20000000 AMD) true (MkPolicy HalfUp 10)
    (MkPrepayment PrepayShortenTerm 0 [] no_amount) (MkPolicyRef "bank" 1).
Definition car : Loan :=
  MkLoan "car" "Car" (loan_terms "car" 120000000) (MkAmount 80000000 AMD) (MkDate 2024 2 20) "" false true 50000.
Definition phone : Loan :=
  MkLoan "phone" "Phone" (loan_terms "phone" 0) (MkAmount 40000000 AMD) (MkDate 2024 2 20) "" false false 0.
Definition sample_extra : Extra := MkExtra 3000000 {[ "2024-05"%string := 90000000 ]}.
Definition sample_today : Date := MkDate 2024 2 25.

Lemma sample_payments : Forall int64_payment [car; phone].
Proof. repeat constructor; discriminate. Qed.

(** Every month of a projection is a set of books: the required and the
    extra are the sums of the entries, the total is their sum, the requested
    extra is what was paid plus what is left unallocated, and none of it is
    negative or beyond the largest safe integer. Each entry is about one of the
    loans, and extra goes only to a loan that is walked: given without a
    reason, not excluded by its owner, under terms the package supports. *)
Theorem Build_books today c loans extra r m :
  Forall int64_payment loans → Build today c loans extra = Ok r → m ∈ Months r →
  MoRequired m = sum_by PyRequired (MoLoans m) ∧ MoExtra m = sum_by PyExtra (MoLoans m) ∧
  MoTotal m = MoRequired m + MoExtra m ∧ RequestedExtra m = MoExtra m + UnallocatedExtra m ∧
  safe (MoTotal m) ∧ safe (MoExtra m) ∧ safe (UnallocatedExtra m) ∧
  ∀ p, p ∈ MoLoans m → 0 ≤ PyRequired p ∧ 0 ≤ PyExtra p ∧
    ∃ l, l ∈ loans ∧ LnID l = PyID p ∧
      (0 < PyExtra p → LnReason l = "" ∧ OptionalExcluded l = false ∧ supported_terms (LnContract l) = true).
Proof.
  intros Hint H Hm. destruct (Build_walked _ _ _ _ _ Hint H)
    as (o & st & done & _ & Hread & _ & _ & _ & _ & Hbooks & _).
  destruct (ordered_facts _ _ _ _ Hint Hread) as (_ & _ & Hfrom & _).
  rewrite Forall_forall in Hbooks. destruct (Hbooks m Hm) as (? & ? & ? & ? & ? & ? & ? & Hn & Ha).
  do 7 (split; [done|]). intros p Hp. rewrite Forall_forall in Hn, Ha.
  destruct (Hn p Hp) as (? & l & Hl & Hid & _). destruct (Ha p Hp) as (? & Hex). do 2 (split; [done|]).
  assert (∀ l, l ∈ (s_loan <$> ordered o) → ∃ l0, l0 ∈ loans ∧ LnID l0 = LnID l ∧
    (LnReason l = "" → LnReason l0 = "" ∧ supported_terms (LnContract l0) = true) ∧
    OptionalExcluded l0 = OptionalExcluded l) as Hback.
  { intros l' (s & -> & Hs)%list_elem_of_fmap. destruct (Hfrom s Hs) as (l0 & Hl0 & _ & Hprep).
    destruct (prepare_kept _ _ _ Hprep) as (E & _ & _ & Hwhy & _). exists l0. rewrite E. split_and!; try done.
    intros Hr. simpl in Hr. assert (is_supported s = true) as Hsup by (by apply String.eqb_eq).
    split; [by apply Hwhy|]. pose proof (prepare_terms _ _ _ Hprep Hsup) as Ht. by rewrite E in Ht. }
  destruct Hex as [E0|(l' & Hl' & Hid' & Hr & Hx)].
  - destruct (Hback l Hl) as (l0 & ? & ? & _). exists l0. split_and!; [done|congruence|lia].
  - destruct (Hback l' Hl') as (l0 & ? & ? & Hr0 & Hx0). exists l0. split_and!; [done|congruence|].
    intros _. destruct (Hr0 Hr). by rewrite Hx0.
Qed.

Lemma Build_books_witness :
  ∃ r m, Build sample_today AMD [car; phone] sample_extra = Ok r ∧ m ∈ Months r ∧
    MoExtra m = 15730010 ∧ UnallocatedExtra m = 74269990 ∧ MoTotal m = MoRequired m + MoExtra m.
Proof.
  eexists. eexists. split; [vm_compute; reflexivity|].
  split; [do 2 right; left|split; [reflexivity|split; [reflexivity|]]].
  eapply (Build_books sample_today AMD [car; phone] sample_extra);
    [apply sample_payments|vm_compute; reflexivity|do 2 right; left].
Defined.

(** The account a projected loan starts from: its balance and the interest
    already accrued, on the day they were taken. *)
Definition opening_account (l : Loan) : account :=
  MkAccount (minor (LnBalance l)) (opening_interest l) (LnAsOf l) 0.

(** C40. A projection claims a payoff month only when every outstanding loan is
    paid off by then: it is complete and carries no reason, the month claimed is
    the last one listed, and the account of each loan, from its balance and the
    interest already accrued, goes through the months listed to nothing owed. In
    each month it is paid what the month lists for the loan: instalments on the
    loan's remaining bank dates in turn, none skipped, extra on the last day of
    the month, and before each of them the contract's interest for the actual
    days since the last accrual on the principal of those days. So each loan is
    paid its balance, its opening interest and exactly that interest; at a zero
    rate it is paid nothing more than the balance and the opening interest. *)
Theorem Build_finish_settles today c loans extra r :
  Forall int64_payment loans → Build today c loans extra = Ok r → Finish r ≠ "" →
  Complete r = true ∧ RReason r = "" ∧ MoMonth <$> last (Months r) = Some (Finish r) ∧
  ∀ l, l ∈ loans → outstanding l →
    ∃ dates interest on next, RemainingDates (LnContract l) (LnAsOf l) = Ok dates ∧
      over_months (LnID l) (LnContract l) (cur (LnBalance l)) dates (begin_of (StartMonth r)) 0 (Months r)
        (opening_account l) interest (MkAccount 0 0 on next) ∧
      paid_in (LnID l) (Months r) = minor (LnBalance l) + opening_interest l + interest ∧
      0 ≤ interest ∧ (NominalRate (LnContract l) = 0 → interest = 0).
Proof.
  intros Hint H Hfin. destruct (Build_walked _ _ _ _ _ Hint H)
    as (o & st & done & _ & Hread & Er & _ & Hw & Hm & _ & _ & _ & Hend).
  destruct (ordered_facts _ _ _ _ Hint Hread) as (_ & _ & _ & Hto).
  pose proof Hread as ((_ & _ & _ & _ & Hcomp & Hwhy) & _).
  destruct (report_finish _ _ _ _ _ _ Er Hfin) as (-> & Hoc & -> & -> & Ef).
  destruct (Hend eq_refl) as (k & m & Hlast & Hmo & Halive).
  split_and!; [done|by apply Hwhy|by rewrite Ef, Hlast|].
  intros l Hl Ho. destruct (Hto l Hl Ho) as (s & Hs & Hprep).
  assert (is_supported s = true) as Hsup.
  { rewrite Hoc in Hcomp. symmetry in Hcomp. rewrite forallb_forall in Hcomp.
    apply Hcomp, list_elem_of_In. by rewrite <- (SliceStable_perm state_less (op_states o)). }
  apply list_elem_of_lookup in Hs as [i Hi]. destruct (Forall2_lookup_l _ _ _ _ _ Hm Hi) as (s' & Hi' & Hwk).
  apply list_elem_of_lookup_2 in Hi'. rewrite Forall_forall in Halive, Hw.
  eapply walked_settled; [done..|by apply Halive|by apply Hw].
Qed.

Lemma Build_finish_settles_witness :
  ∃ r, Build sample_today AMD [car; phone] sample_extra = Ok r ∧ Finish r = "2024-05" ∧
    ∃ dates interest on next, RemainingDates (LnContract car) (LnAsOf car) = Ok dates ∧
      over_months "car" (LnContract car) AMD dates (begin_of (StartMonth r)) 0 (Months r)
        (opening_account car) interest (MkAccount 0 0 on next) ∧
      paid_in "car" (Months r) = 80000000 + 50000 + interest ∧
      0 ≤ interest ∧ (NominalRate (LnContract car) = 0 → interest = 0).
Proof.
  eexists. split; [vm_compute; reflexivity|]. split; [reflexivity|].
  eapply (Build_finish_settles sample_today AMD [car; phone] sample_extra _ sample_payments);
    [vm_compute; reflexivity|discriminate|left|reflexivity].
Defined.

Lemma prepared_states today ls ss :
  Forall2 (λ l s, prepare today l = Ok s) ls ss →
  ss = omap (λ l, match prepare today l with Ok s => Some s | _ => None end) ls.
Proof. induction 1 as [|l s ls ss E _ IH]; [done|]. simpl. by rewrite E, IH. Qed.

Definition but_reason (r : Result) : string * Z * string * bool * bool * string * list Month :=
  (RCurrency r, RExponent r, StartMonth r, Complete r, String.eqb (RReason r) "", Finish r, Months r).

(** The order the loans are given in does not matter: the projection of
    any rearrangement answers too, with the same first month, months, payments
    and payoff claim, and with a reason exactly when the other has one (the
    reason shown is the first loan's that has any). *)
Theorem Build_order_independent today c loans loans' extra r :
  Forall int64_payment loans → loans ≡ₚ loans' → Build today c loans extra = Ok r →
  ∃ r', Build today c loans' extra = Ok r' ∧ but_reason r' = but_reason r.
Proof.
  intros Hint Hp H. apply Build_Ok in H as (Ht & Hl & Hv & o & st & ms & done & Ho & Hwalk & ->).
  assert (read_loans today c (MonthKey today) loans o) as Hread.
  { apply (open_loans_read today c (MonthKey today) loans [] no_opening); [apply MonthKey_nonempty| |done].
    apply read_nothing. }
  destruct (ordered_facts _ _ _ _ Hint Hread) as (_ & Hndo & _ & Hto).
  pose proof Hread as ((Hnd & Hacc & Hst & _ & Hcomp & Hwhy) & Hear).
  destruct (open_loans_total today c (MonthKey today) loans' no_opening) as [o' Ho'].
  { by rewrite <- Hp. } { apply Forall_forall. intros l _. apply not_elem_of_empty. } { by rewrite <- Hp. }
  { rewrite <- Hp. apply Forall_forall. intros l Hin Hout. destruct (Hto l Hin Hout) as (s & _ & ?). by exists s. }
  assert (read_loans today c (MonthKey today) loans' o') as Hread'.
  { apply (open_loans_read today c (MonthKey today) loans' [] no_opening); [apply MonthKey_nonempty| |done].
    apply read_nothing. }
  destruct Hread' as ((_ & _ & Hst' & _ & Hcomp' & Hwhy') & Hear').
  assert (op_states o ≡ₚ op_states o') as Hpo.
  { rewrite (prepared_states _ _ _ Hst), (prepared_states _ _ _ Hst'). by rewrite Hp. }
  assert (ordered o' = ordered o) as Eord.
  { symmetry. apply SliceStable_states; [done|]. unfold ordered in Hndo.
    by rewrite (SliceStable_perm state_less (op_states o)) in Hndo. }
  assert (first_month today o' = first_month today o) as Efirst.
  { symmetry. by apply (start_month_canonical _ (op_states o) (op_states o')). }
  assert (op_complete o' = op_complete o) as Ecomp.
  { rewrite Hcomp, Hcomp'. apply eq_bool_prop_intro. rewrite !Is_true_true, !forallb_forall.
    setoid_rewrite <- list_elem_of_In. by setoid_rewrite Hpo. }
  exists (report c (first_month today o') o' ms done). split.
  { apply Build_Ok. split_and!; [done|by rewrite <- Hp|done|]. exists o', st, ms, done. by rewrite Eord, Efirst. }
  assert (String.eqb (op_reason o') "" = String.eqb (op_reason o) "") as Ereason.
  { apply eq_bool_prop_intro. rewrite !Is_true_true, !String.eqb_eq. rewrite <- Hwhy, <- Hwhy'. by rewrite Ecomp. }
  unfold report, but_reason. rewrite Efirst, Ecomp, (Permutation_length Hpo).
  destruct (_ && _ && _); simpl; [done|]. by rewrite Ereason.
Qed.

Lemma Build_order_independent_witness :
  ∃ r r', Build sample_today AMD [phone; car] sample_extra = Ok r ∧ Finish r = "2024-05" ∧
    Build sample_today AMD [car; phone] sample_extra = Ok r' ∧ but_reason r' = but_reason r.
Proof.
  eexists. eexists. split; [vm_compute; reflexivity|]. split; [reflexivity|].
  split; [vm_compute; reflexivity|]. edestruct (Build_order_independent sample_today AMD [phone; car] [car; phone] sample_extra)
    as (r' & H & E); [repeat constructor; discriminate|constructor|vm_compute; reflexivity|].
  assert (Build sample_today AMD [car; phone] sample_extra = Ok r') as H' by exact H.
  vm_compute in H'. injection H' as <-. exact E.
Defined.

(** The loans an extra can go to. *)
Definition takes_part (s : state) : bool :=
  negb (s_balance s =? 0) && is_supported s && negb (OptionalExcluded (s_loan s)).

Definition total_of (paids : list Z) : Z := sum_by id paids.

(** One step of the priority: the money after a loan, and what is still owed. *)
Definition served (on : Date) (left : Z) (before : list Z) (s s' : state) (paid : Z) : Prop :=
  0 ≤ paid ∧ moved on s s' paid ∧ (takes_part s = false → paid = 0 ∧ s' = s) ∧
  (takes_part s = true → unit_of_loan s ≤ left - total_of before - paid → s_balance s' ≤ unit_of_loan s).

Lemma served_shift on left p before s s' paid :
  served on (left - p) before s s' paid → served on left (p :: before) s s' paid.
Proof.
  unfold served, total_of, sum_by. simpl. intros (? & ? & ? & H). split_and!; try done.
  intros. apply H; [done|]. unfold id in *. lia.
Qed.

(** The extra goes down the ranking: [paids] is what each loan in turn is
    paid, it adds up to the extra less what is left, and money passes a loan
    that takes part only when it is less than one settlement unit or when all
    but at most one unit of that loan's principal is gone. A loan that takes no
    part is paid nothing and left as it is. *)
Theorem prepay_all_priority on states left ps states' rest ps' :
  Forall wf_state states → safe left → prepay_all on states left ps = Ok (states', rest, ps') →
  ∃ paids, length paids = length states ∧ 0 ≤ rest ∧ left = total_of paids + rest ∧
    ∀ i s s' paid, states !! i = Some s → states' !! i = Some s' → paids !! i = Some paid →
      served on left (take i paids) s s' paid.
Proof.
  revert left ps states' rest ps'.
  induction states as [|s states IH]; intros left ps states' rest ps' Hw Hleft H; simpl in H.
  { inv_res. exists []. unfold total_of, sum_by. simpl. unfold safe in Hleft. split_and!; [done|lia|lia|done]. }
  apply Forall_cons in Hw as [Hs Hw].
  assert (∀ paid s1 states1 paids, safe left → 0 ≤ paid → served on left [] s s1 paid →
    length paids = length states → 0 ≤ rest → left - paid = total_of paids + rest →
    (∀ i s s' paid', states !! i = Some s → states1 !! i = Some s' → paids !! i = Some paid' →
      served on (left - paid) (take i paids) s s' paid') →
    ∃ paids, length paids = S (length states) ∧ 0 ≤ rest ∧ left = total_of paids + rest ∧
    ∀ i x x' paid', (s :: states) !! i = Some x → (s1 :: states1) !! i = Some x' → paids !! i = Some paid' →
      served on left (take i paids) x x' paid') as Hcons.
  { intros paid s1 states1 paids _ Hpaid Hserved Hlen Hrest Hsum Hall. exists (paid :: paids).
    unfold total_of, sum_by in *. simpl in *. unfold id in *. split_and!; [lia|lia|lia|].
    intros [|i] x x' p' Hx Hx' Hp'; simpl in *; [by simplify_eq|].
    apply served_shift. by eapply Hall. }
  destruct (takes_extra s left) eqn:Etake.
  - unfold takes_extra in Etake. rewrite !andb_true_iff, !negb_true_iff in Etake.
    destruct Etake as (((Enz & Esup) & Eex) & El). assert (s_balance s ≠ 0) by (by apply Z.eqb_neq).
    inv_res. destruct r as [s1 paid]. inv_res. destruct r as [[states1 rest1] ps1]. inv_res.
    destruct (prepay_Ok _ _ _ _ _ Hs Esup ltac:(done) Hleft Hr) as (Hm & _ & Hpaid & Hprio & _).
    pose proof Hleft as Hl0. unfold safe, MaxMinor in Hl0.
    assert (isub left paid = left - paid) as Esub
      by (unfold isub; apply i64_id; unfold in_i64, MinInt64, MaxInt64; lia).
    assert (safe (left - paid)) as Hleft' by (unfold safe, MaxMinor; lia).
    rewrite Esub in Hr0. destruct (IH _ _ _ _ _ Hw Hleft' Hr0)
      as (paids & Hlen & Hrest & Hsum & Hall).
    apply (Hcons paid s1 states1 paids); try done; [lia|]. split_and!; [lia|apply Hm..| |].
    + unfold takes_part. by rewrite Enz, Esup, Eex.
    + unfold total_of, sum_by. simpl. intros _ ?. apply Hprio. lia.
  - inv_res. destruct r as [[states1 rest1] ps1]. inv_res.
    destruct (IH _ _ _ _ _ Hw Hleft Hr) as (paids & Hlen & Hrest & Hsum & Hall).
    apply (Hcons 0 s states1 paids); try done; [|lia|by rewrite Z.sub_0_r].
    split_and!; [lia|apply moved_refl|done|].
    intros Hpart Hmore. unfold takes_part in Hpart. pose proof Etake as Etake'. unfold takes_extra in Etake'.
    rewrite Hpart in Etake'. apply negb_false_iff, Z.eqb_eq in Etake' as ->.
    rewrite !andb_true_iff in Hpart. destruct Hs as (_ & _ & _ & _ & Hu).
    unfold unit_of_loan, total_of, sum_by in Hmore. simpl in Hmore. specialize (Hu ltac:(naive_solver)). lia.
Qed.

Definition state_of (l : Loan) : state :=
  match prepare sample_today l with Ok s => s | _ => open_state l end.

Lemma sample_states_wf : Forall wf_state [state_of car; state_of phone].
Proof.
  assert (∀ l, accepted sample_today AMD l → outstanding l → int64_payment l → is_ok (prepare sample_today l) = true →
    wf_state (state_of l)) as H.
  { intros l Ha Ho Hi. unfold state_of. destruct (prepare sample_today l) as [s| |] eqn:E; [|done..].
    intros _. by apply (prepare_wf sample_today AMD l s). }
  pose proof sample_payments as Hi. rewrite !Forall_cons in Hi. destruct Hi as (Hi1 & Hi2 & _).
  repeat apply Forall_cons_2; [apply H|apply H|apply Forall_nil_2]; try done; try (split; vm_compute; reflexivity);
    vm_compute; reflexivity.
Qed.

Lemma prepay_all_priority_witness :
  ∃ states' rest ps',
    prepay_all (MkDate 2024 3 31) [state_of car; state_of phone] 90000000 [] = Ok (states', rest, ps') ∧
    ∃ paids, length paids = length [state_of car; state_of phone] ∧ 0 ≤ rest ∧ 90000000 = total_of paids + rest ∧
      ∀ i s s' paid, [state_of car; state_of phone] !! i = Some s → states' !! i = Some s' →
        paids !! i = Some paid → served (MkDate 2024 3 31) 90000000 (take i paids) s s' paid.
Proof.
  eexists _, _, _. split; [vm_compute; reflexivity|].
  eapply (prepay_all_priority (MkDate 2024 3 31) _ _ []); [exact sample_states_wf| |vm_compute; reflexivity].
  unfold safe, MaxMinor. split; discriminate.
Defined.

(** The calendar of a projection: the months listed are consecutive and at
    most 600, the first is this month or later, each one's requested extra is
    the override for that month or else the default. An incomplete projection
    says why, and claims no payoff; a complete one with anything to pay claims
    one. *)
Theorem Build_calendar today c loans extra r :
  Forall int64_payment loans → Build today c loans extra = Ok r →
  String.le (MonthKey today) (StartMonth r) ∧ (length (Months r) ≤ 600)%nat ∧
  (∀ k m, Months r !! k = Some m →
    MoMonth m = MonthKey (EndOfMonth (AddMonths (begin_of (StartMonth r)) (Z.of_nat k))) ∧
    RequestedExtra m = default (ExMinor extra) (Overrides extra !! MoMonth m)) ∧
  (Complete r = true ↔ RReason r = "") ∧ (Finish r ≠ "" → Complete r = true) ∧
  (Complete r = true → Forall (λ l, ¬ outstanding l) loans ∨ Finish r ≠ "").
Proof.
  intros Hint H. destruct (Build_walked _ _ _ _ _ Hint H)
    as (o & st & done & _ & Hread & Er & Estart & _ & _ & _ & Hk & Hlen & _).
  destruct (ordered_facts _ _ _ _ Hint Hread) as (_ & _ & _ & Hto).
  pose proof Hread as ((_ & _ & _ & _ & _ & Hwhy) & _).
  split.
  { rewrite Estart. unfold first_month, start_month.
    destruct (String.ltb _ _) eqn:E; [|done]. apply ltb_spec in E.
    by destruct (total String.le (MonthKey today) (op_earliest o)). }
  split; [exact Hlen|]. split; [exact Hk|]. rewrite Er. unfold report.
  destruct (op_complete o) eqn:Eo; simpl.
  - rewrite andb_true_r. destruct (Nat.eqb_spec (length (op_states o)) 0) as [En|En]; simpl.
    + split_and!; [naive_solver|done|]. intros _. left. apply Forall_forall. intros l Hl Hout.
      destruct (Hto l Hl Hout) as (s & Hs & _). apply length_zero_iff_nil in En.
      unfold ordered in Hs. rewrite En in Hs. by apply not_elem_of_nil in Hs.
    + destruct (String.eqb_spec (if done then default "" (MoMonth <$> last (Months r)) else "") "") as [E|E];
        simpl; [|by split_and!; [naive_solver|done|right]].
      rewrite E. split_and!; done.
  - rewrite andb_false_r. simpl. split_and!; [naive_solver|done|done].
Qed.

Lemma Build_calendar_witness :
  ∃ r, Build sample_today AMD [car; phone] sample_extra = Ok r ∧ length (Months r) = 3%nat ∧
    Complete r = true ∧ (Forall (λ l, ¬ outstanding l) [car; phone] ∨ Finish r ≠ "").
Proof.
  eexists. split; [vm_compute; reflexivity|]. split; [reflexivity|]. split; [reflexivity|].
  eapply (Build_calendar sample_today AMD [car; phone] sample_extra _ sample_payments);
    [vm_compute; reflexivity|reflexivity].
Defined.

(** An extra is accepted exactly when its amounts are safe non-negative
    integers, there are at most 600 overrides and each is keyed by a calendar
    month as this package writes one; and then the extra requested in any month
    is safe. *)
Theorem ValidateExtra_spec x :
  (ValidateExtra x = Ok tt ∨ ValidateExtra x = Err (Sentinel ErrProjectionInvalid)) ∧
  (ValidateExtra x = Ok tt ↔ safe (ExMinor x) ∧ (size (Overrides x) ≤ 600)%nat ∧
    ∀ k n, Overrides x !! k = Some n → safe n ∧
      ∃ d, Dates.Parse (String.list_ascii_of_string (String.append k "-01")) = Ok d ∧ MonthKey d = k ∧
        String.length k = 7%nat) ∧
  (ValidateExtra x = Ok tt → ∀ month, safe (requested_in x month)).
Proof.
  split_and!.
  - unfold ValidateExtra. destruct (_ || _ || _); [by right|]. destruct (existsb _ _); [by right|by left].
  - rewrite ValidateExtra_Ok. setoid_rewrite bad_override_false. unfold parse_month. naive_solver.
  - by intros H%ValidateExtra_safe.
Qed.
