(* ===== verification/Fees.v ===== *)
(** What paying early costs: [pkg/core/plan/fees.go].

    [charge] is the fee a lender takes for a principal credit, by the
    contract's dated rules; [Quote] is what the simulator is told before it
    pays. The lemmas show that the fee is exact where it is answered and that
    a smaller payment is never charged more. *)
From S2P Require Import Prelude Money Dates Model.

Record Quote := MkQuote {
  QPrincipal : Amount;
  QInterest : Amount;
  QFee : Amount;
  Outflow : Amount;
  Closes : bool }.

(** [m > 0 && points > (1<<62)/m]. *)
Definition bp_overflows (m points : Z) : res bool :=
  if 0 <? m then cap ← idiv (2 ^ 62) m; Ok (cap <? points) else Ok false.

(** [bp]: basis points of an amount, half-up to the minor unit, then to the
    settlement unit under the contract's own mode. *)
Definition bp (a : Amount) (points : Z) (p : Policy) : res Amount :=
  let m := minor a in
  over ← bp_overflows m points;
  match over with
  | true => errorf "plan: fee overflow on %s"
  | false =>
      let raw := imul m points in
      minor ← idiv (iadd raw 5000) 10000;
      Ok (Quantise (FromMinor minor (cur a)) p)
  end.

Definition contractYear (c : Contract) (on : Date) : Z :=
  let y := Year on - Year (StartDate c) in
  let y := if (Month on <? Month (StartDate c)) ||
      ((Month on =? Month (StartDate c)) && (Day on <? Day (StartDate c)))
    then y - 1 else y in
  y + 1.

Definition out_of_force (r : PrepaymentCharge) (year : Z) : bool :=
  ((0 <? FromYear r) && (year <? FromYear r)) || ((0 <? ThroughYear r) && (ThroughYear r <? year)).

(** The part of the credit beyond what is left of the year's free allowance. *)
Definition chargeable_of (r : PrepaymentCharge) (principal allowanceUsed : Amount) : res Amount :=
  if 0 <? Sign (FreeAllowance r)
  then
    rest ← Sub (FreeAllowance r) allowanceUsed;
    if 0 <? Sign rest
    then
      over ← Sub principal rest;
      Ok (if Sign over <? 0 then Zero (cur principal) else over)
    else Ok principal
  else Ok principal.

Definition percent_part (r : PrepaymentCharge) (chargeable zero : Amount) (p : Policy) : res Amount :=
  if (0 <? PercentBP r) && (0 <? Sign chargeable) then bp chargeable (PercentBP r) p else Ok zero.

Definition fixed_part (r : PrepaymentCharge) (fee : Amount) : res Amount :=
  if 0 <? Sign (Fixed r) then Add fee (Fixed r) else Ok fee.

Definition raise_to_min (r : PrepaymentCharge) (fee : Amount) : res Amount :=
  if 0 <? Sign (MinCharge r)
  then c ← Cmp fee (MinCharge r); Ok (if c <? 0 then MinCharge r else fee) else Ok fee.

Definition cap_to_max (r : PrepaymentCharge) (fee : Amount) : res Amount :=
  if 0 <? Sign (MaxCharge r)
  then c ← Cmp fee (MaxCharge r); Ok (if 0 <? c then MaxCharge r else fee) else Ok fee.

(** What one rule in force charges. *)
Definition rule_charge (c : Contract) (r : PrepaymentCharge) (principal allowanceUsed : Amount) : res Amount :=
  chargeable ← chargeable_of r principal allowanceUsed;
  fee ← percent_part r chargeable (Zero (cur principal)) (Rounding c);
  fee ← fixed_part r fee;
  fee ← raise_to_min r fee;
  cap_to_max r fee.

Fixpoint charge_rules (c : Contract) (year : Z) (rules : list PrepaymentCharge)
    (principal allowanceUsed total : Amount) : res Amount :=
  match rules with
  | [] => Ok total
  | r :: rules =>
      if out_of_force r year then charge_rules c year rules principal allowanceUsed total
      else
        fee ← rule_charge c r principal allowanceUsed;
        total ← Add total fee;
        charge_rules c year rules principal allowanceUsed total
  end.

Definition charge (c : Contract) (on : Date) (principal allowanceUsed : Amount) : res Amount :=
  let zero := Zero (cur principal) in
  let pp := Prepayment c in
  match Charges pp with
  | [] => if FeeBP pp <=? 0 then Ok zero else bp principal (FeeBP pp) (Rounding c)
  | rules => charge_rules c (contractYear c on) rules principal allowanceUsed zero
  end.

(** * Lemmas *)

Definition code (a : Amount) : string := Code (cur a).

(** [bp] in exact arithmetic. *)
Definition bp_exact_minor (m points : Z) (p : Policy) : Z :=
  round_div (Mode p) ((m * points + 5000) / 10000) (unit_of p) * unit_of p.

Lemma bp_cases a points p :
  0 ≤ minor a ≤ MaxInt64 → 0 ≤ points ≤ MaxInt64 → unit_of p ≤ 2 ^ 62 →
  bp a points p =
    if 2 ^ 62 <? minor a * points then errorf "plan: fee overflow on %s"
    else Ok (MkAmount (bp_exact_minor (minor a) points p) (cur a)).
Proof.
  intros Hm Hp Hu. unfold bp, bp_exact_minor. set (m := minor a) in *.
  assert (bp_overflows m points = Ok (2 ^ 62 <? m * points)) as ->.
  { unfold bp_overflows. destruct (Z.ltb_spec 0 m) as [Hpos|Hz].
    - unfold idiv. rewrite (proj2 (Z.eqb_neq m 0)) by lia. rewrite bind_of_Ok. f_equal.
      destruct (quot_rem_nonneg (2 ^ 62) m) as [-> _]; [lia|lia|].
      pose proof (div_mod_facts (2 ^ 62) m Hpos). assert (0 ≤ 2 ^ 62 / m ≤ 2 ^ 62) by (split; nia).
      rewrite i64_id by (unfold_i64; lia).
      apply eq_bool_prop_intro. rewrite !Is_true_true, !Z.ltb_lt. nia.
    - replace m with 0 by lia. done. }
  rewrite bind_of_Ok. destruct (Z.ltb_spec (2 ^ 62) (m * points)) as [|Hfit]; [done|].
  unfold imul, iadd, idiv. rewrite (i64_id (m * points)) by (unfold_i64; nia).
  rewrite (i64_id (m * points + 5000)) by (unfold_i64; nia). simpl.
  destruct (quot_rem_nonneg (m * points + 5000) 10000) as [-> _]; [nia|lia|].
  assert (0 ≤ (m * points + 5000) / 10000 ≤ 2 ^ 61)
    by (split; [apply Z.div_pos; nia|apply Z.div_le_upper_bound; nia]).
  rewrite i64_id by (unfold_i64; lia). f_equal. unfold FromMinor.
  rewrite Quantise_exact; simpl; [|unfold_i64; lia|done]. f_equal.
  rewrite Z.abs_eq by lia. set (x := (m * points + 5000) / 10000) in *.
  destruct (decide (x = 0)) as [->|]; [|rewrite Z.sgn_pos by lia; lia].
  rewrite round_div_0; [lia|]. pose proof (unit_of_pos p). lia.
Qed.

Lemma bp_exact_minor_mono m m' points p :
  0 ≤ m ≤ m' → 0 ≤ points → 0 ≤ bp_exact_minor m points p ≤ bp_exact_minor m' points p.
Proof.
  intros Hm Hp. unfold bp_exact_minor. pose proof (unit_of_pos p).
  assert (0 ≤ (m * points + 5000) / 10000 ≤ (m' * points + 5000) / 10000)
    by (split; [apply Z.div_pos|apply Z.div_le_mono]; nia || lia).
  pose proof (round_div_nonneg (Mode p) ((m * points + 5000) / 10000) (unit_of p) ltac:(lia) ltac:(lia)).
  pose proof (round_div_mono (Mode p) ((m * points + 5000) / 10000) ((m' * points + 5000) / 10000) (unit_of p)
    ltac:(lia) ltac:(lia)).
  nia.
Qed.

Lemma bp_exact_minor_bound m points p :
  0 ≤ m → 0 ≤ points → m * points ≤ 2 ^ 62 → unit_of p ≤ 2 ^ 62 →
  0 ≤ bp_exact_minor m points p ≤ MaxInt64.
Proof.
  intros Hm Hp Hfit Hu. unfold bp_exact_minor. pose proof (unit_of_pos p).
  assert (0 ≤ (m * points + 5000) / 10000 ≤ 2 ^ 61)
    by (split; [apply Z.div_pos; nia|apply Z.div_le_upper_bound; nia]).
  set (x := (m * points + 5000) / 10000) in *.
  pose proof (round_div_nonneg (Mode p) x (unit_of p) ltac:(lia) ltac:(lia)).
  pose proof (round_div_bounds (Mode p) x (unit_of p) ltac:(lia)).
  pose proof (div_mod_facts x (unit_of p) ltac:(lia)).
  assert (round_div (Mode p) x (unit_of p) * unit_of p ≤ x + unit_of p) by nia.
  unfold MaxInt64. split; [nia|lia].
Qed.

(** ** A smaller payment is never charged more *)

(** The same money, or less of it. *)
Definition within (a' a : Amount) : Prop :=
  0 ≤ minor a' ≤ minor a ∧ minor a ≤ MaxInt64 ∧ code a' = code a.

(** A contract whose amounts are [int64]s, as Go stores them, and whose
    settlement unit is one [Quantise] handles exactly. *)
Definition int64_rule (r : PrepaymentCharge) : Prop :=
  PercentBP r ≤ MaxInt64 ∧ wf_amount (Fixed r) ∧ wf_amount (FreeAllowance r) ∧
  wf_amount (MinCharge r) ∧ wf_amount (MaxCharge r).
Definition fee_terms (c : Contract) : Prop :=
  unit_of (Rounding c) ≤ 2 ^ 62 ∧ FeeBP (Prepayment c) ≤ MaxInt64 ∧
  Forall int64_rule (Charges (Prepayment c)).

Lemma chargeable_mono r p p' used x :
  int64_rule r → wf_amount used → within p' p → chargeable_of r p used = Ok x →
  ∃ x', chargeable_of r p' used = Ok x' ∧ within x' x ∧ code x = code p.
Proof.
  intros (_ & _ & Hfree & _) Hu (Hp & Hmax & Hc). unfold chargeable_of. rewrite Sign_pos_iff.
  destruct (0 <? minor (FreeAllowance r)); [|intros H; inv_res; by exists p'].
  intros H. inv_res. rewrite Hr, bind_of_Ok. rewrite Sign_pos_iff in *.
  destruct (Z.ltb_spec 0 (minor r0)) as [Hpos|]; [|inv_res; by exists p'].
  inv_res. apply Sub_Ok_iff in Hr as (_ & -> & Hin); [|done|done]. simpl in *.
  apply Sub_Ok_iff in Hr0 as (Hcode & -> & Hin1); [|unfold_i64; lia|done]. simpl in *.
  unfold code, within in *. eexists. split.
  { apply bind_Ok. eexists. split; [apply Sub_Ok_iff; [unfold_i64; lia|done|simpl; split_and!; [congruence|done|unfold_i64; lia]]|].
    reflexivity. }
  rewrite !Sign_neg_iff. simpl.
  destruct (Z.ltb_spec (minor p' - (minor (FreeAllowance r) - minor used)) 0),
    (Z.ltb_spec (minor p - (minor (FreeAllowance r) - minor used)) 0); simpl; unfold code; simpl;
    split_and!; try lia; congruence.
Qed.

Lemma percent_mono r x x' zero zero' p f :
  int64_rule r → unit_of p ≤ 2 ^ 62 → within x' x → within zero' zero → minor zero' = 0 → code zero = code x →
  percent_part r x zero p = Ok f →
  ∃ f', percent_part r x' zero' p = Ok f' ∧ within f' f ∧ code f = code x.
Proof.
  intros (Hbp & _) Hu (Hx & Hmax & Hc) (Hz & Hzmax & Hzc) Hz0 Hcode. unfold percent_part.
  rewrite !Sign_pos_iff. unfold code, within in *.
  destruct (Z.ltb_spec 0 (PercentBP r)) as [Hpos|_]; simpl;
    [|intros H; inv_res; exists zero'; split_and!; done || lia || congruence].
  destruct (Z.ltb_spec 0 (minor x)) as [Hxpos|Hxz]; [|intros H; inv_res; exists zero'; 
    rewrite (proj2 (Z.ltb_ge 0 (minor x'))) by lia; split_and!; done || lia || congruence].
  rewrite bp_cases by lia. destruct (Z.ltb_spec (2 ^ 62) (minor x * PercentBP r)) as [|Hfit]; [done|]. intros H. inv_res. simpl.
  pose proof (bp_exact_minor_mono (minor x') (minor x) (PercentBP r) p ltac:(lia) ltac:(lia)) as Hm.
  pose proof (bp_exact_minor_bound (minor x) (PercentBP r) p ltac:(lia) ltac:(lia) ltac:(lia) Hu) as Hb.
  destruct (0 <? minor x') eqn:E.
  - rewrite bp_cases by lia. rewrite (proj2 (Z.ltb_ge _ _)) by nia. eexists. split; [done|].
    unfold code. simpl. split_and!; lia || congruence.
  - exists zero'. unfold code. simpl. split_and!; done || lia || congruence.
Qed.

Lemma fixed_mono r f f' g :
  int64_rule r → within f' f → fixed_part r f = Ok g →
  ∃ g', fixed_part r f' = Ok g' ∧ within g' g ∧ code g = code f.
Proof.
  intros (_ & Hfix & _) (Hf & Hmax & Hc). unfold fixed_part. rewrite Sign_pos_iff. unfold code, within in *.
  destruct (Z.ltb_spec 0 (minor (Fixed r))) as [Hpos|_]; [|intros H; inv_res; by exists f'].
  intros H. apply Add_Ok_iff in H as (Hcode & -> & Hin); [|unfold_i64; lia|done]. simpl in *.
  eexists. split; [apply Add_Ok_iff; [unfold_i64; lia|done|]|].
  { split_and!; [congruence|done|unfold_i64; lia]. }
  unfold code. simpl. unfold_i64. split_and!; lia || done.
Qed.

Lemma min_mono r f f' g :
  int64_rule r → within f' f → raise_to_min r f = Ok g →
  ∃ g', raise_to_min r f' = Ok g' ∧ within g' g ∧ code g = code f.
Proof.
  intros (_ & _ & _ & Hmin & _) (Hf & Hmax & Hc). unfold raise_to_min. rewrite Sign_pos_iff. unfold code, within in *.
  destruct (Z.ltb_spec 0 (minor (MinCharge r))) as [Hpos|_]; [|intros H; inv_res; by exists f'].
  intros H. inv_res. apply Cmp_Ok in Hr as [Hcode ->].
  rewrite Cmp_same by congruence. rewrite bind_of_Ok. eexists. split; [done|]. unfold_i64. unfold code.
  destruct (Z.ltb_spec (minor f) (minor (MinCharge r))), (Z.ltb_spec (minor f') (minor (MinCharge r)));
    repeat case_match; split_and!; lia || congruence.
Qed.

Lemma max_mono r f f' g :
  int64_rule r → within f' f → cap_to_max r f = Ok g →
  ∃ g', cap_to_max r f' = Ok g' ∧ within g' g ∧ code g = code f.
Proof.
  intros (_ & _ & _ & _ & Hmaxc) (Hf & Hmax & Hc). unfold cap_to_max. rewrite Sign_pos_iff. unfold code, within in *.
  destruct (Z.ltb_spec 0 (minor (MaxCharge r))) as [Hpos|_]; [|intros H; inv_res; by exists f'].
  intros H. inv_res. apply Cmp_Ok in Hr as [Hcode ->].
  rewrite Cmp_same by congruence. rewrite bind_of_Ok. eexists. split; [done|]. unfold_i64. unfold code.
  destruct (Z.ltb_spec (minor f) (minor (MaxCharge r))), (Z.ltb_spec (minor (MaxCharge r)) (minor f)),
    (Z.ltb_spec (minor f') (minor (MaxCharge r))), (Z.ltb_spec (minor (MaxCharge r)) (minor f'));
    simpl; split_and!; lia || congruence.
Qed.

Lemma within_zero p p' : within p' p → within (Zero (cur p')) (Zero (cur p)).
Proof. intros (_ & _ & Hc). unfold within, code, MaxInt64 in *. simpl. split_and!; lia || done. Qed.

Lemma rule_charge_mono c r p p' used f :
  unit_of (Rounding c) ≤ 2 ^ 62 → int64_rule r → wf_amount used → within p' p →
  rule_charge c r p used = Ok f →
  ∃ f', rule_charge c r p' used = Ok f' ∧ within f' f ∧ code f = code p.
Proof.
  intros Hu Hr Hused Hp H. unfold rule_charge in *. apply bind_Ok in H as (x & Hx & H).
  apply bind_Ok in H as (f1 & Hf1 & H). apply bind_Ok in H as (f2 & Hf2 & H). apply bind_Ok in H as (f3 & Hf3 & H).
  destruct (chargeable_mono _ _ _ _ _ Hr Hused Hp Hx) as (x' & -> & Hxx & Ex). rewrite bind_of_Ok.
  destruct (percent_mono _ _ _ _ _ _ _ Hr Hu Hxx (within_zero _ _ Hp) ltac:(done) ltac:(by rewrite Ex) Hf1)
    as (f1' & -> & Hff1 & E1). rewrite bind_of_Ok.
  destruct (fixed_mono _ _ _ _ Hr Hff1 Hf2) as (f2' & -> & Hff2 & E2). rewrite bind_of_Ok.
  destruct (min_mono _ _ _ _ Hr Hff2 Hf3) as (f3' & -> & Hff3 & E3). rewrite bind_of_Ok.
  destruct (max_mono _ _ _ _ Hr Hff3 H) as (f4' & Hf4 & Hff4 & E4).
  exists f4'. split_and!; [done|done|congruence].
Qed.

(** Sums of smaller amounts stay smaller. *)
Lemma Add_within a a' b b' r :
  within a' a → within b' b → Add a b = Ok r → ∃ r', Add a' b' = Ok r' ∧ within r' r ∧ code r = code a.
Proof.
  intros (Ha & Ham & Hac) (Hb & Hbm & Hbc) H. unfold code in *.
  apply Add_Ok_iff in H as (Hcode & -> & Hin); [|unfold_i64; lia..].
  eexists. split; [apply Add_Ok_iff; [unfold_i64; lia..|split_and!; [congruence|done|unfold_i64; lia]]|].
  unfold within, code. unfold_i64. split_and!; lia || done.
Qed.

Lemma charge_rules_mono c year rules p p' used : ∀ total total' f,
  unit_of (Rounding c) ≤ 2 ^ 62 → Forall int64_rule rules → wf_amount used → within p' p → within total' total →
  charge_rules c year rules p used total = Ok f →
  ∃ f', charge_rules c year rules p' used total' = Ok f' ∧ within f' f ∧ code f = code total.
Proof.
  induction rules as [|r rules IH]; intros total total' f Hu Hrs Hused Hp Ht H; simpl in *.
  { inv_res. by exists total'. }
  apply Forall_cons in Hrs as [Hr Hrs]. destruct (out_of_force r year); [by eapply IH|].
  apply bind_Ok in H as (fee & Hfee & H). apply bind_Ok in H as (t & Hadd & H).
  destruct (rule_charge_mono _ _ _ _ _ _ Hu Hr Hused Hp Hfee) as (fee' & -> & Hff & Ef).
  rewrite bind_of_Ok. destruct (Add_within _ _ _ _ _ Ht Hff Hadd) as (t' & -> & Htt & Et). rewrite bind_of_Ok.
  destruct (IH t t' f Hu Hrs Hused Hp Htt H) as (f' & ? & ? & ?). exists f'. split_and!; [done|done|congruence].
Qed.

(** A fee is never negative, and never more for less money. *)
Lemma charge_within c on p p' used f :
  fee_terms c → wf_amount used → within p' p → charge c on p used = Ok f →
  ∃ f', charge c on p' used = Ok f' ∧ within f' f ∧ code f = code p.
Proof.
  intros (Hu & Hbp & Hrs) Hused Hp H. unfold charge in *. pose proof (within_zero _ _ Hp) as Hz.
  destruct (Charges (Prepayment c)) as [|r rules] eqn:E.
  - destruct (Z.leb_spec (FeeBP (Prepayment c)) 0) as [|Hpos]; [inv_res; by eexists|].
    destruct Hp as (Hp & Hmax & Hc). rewrite bp_cases in * by lia.
    destruct (Z.ltb_spec (2 ^ 62) (minor p * FeeBP (Prepayment c))) as [|Hfit]; [done|]. inv_res.
    rewrite (proj2 (Z.ltb_ge _ _)) by nia. eexists. split; [done|].
    pose proof (bp_exact_minor_mono (minor p') (minor p) (FeeBP (Prepayment c)) (Rounding c) ltac:(lia) ltac:(lia)).
    pose proof (bp_exact_minor_bound (minor p) (FeeBP (Prepayment c)) (Rounding c) ltac:(lia) ltac:(lia) ltac:(lia) Hu).
    unfold within, code in *. simpl. split_and!; lia || done.
  - exact (charge_rules_mono _ _ _ _ _ _ _ _ _ Hu Hrs Hused Hp Hz H).
Qed.

(** The contract's own mode rounds the fee last: under [Down] a charge of 16
    minor units becomes 10, where half-up to the settlement unit is 20. *)
Example bp_down_contract :
  bp (MkAmount 1000 AMD) 160 (MkPolicy Down 10) = Ok (MkAmount 10 AMD) ∧
  bp (MkAmount 1000 AMD) 160 (MkPolicy HalfUp 10) = Ok (MkAmount 20 AMD).
Proof. split; vm_compute; reflexivity. Qed.

(** * Properties *)

(** A percentage beyond a yearly allowance, with a floor and a cap, in the
    first three contract years. *)
Definition dated_fees : Contract :=
  MkContract "loan" 1 AMD (MkDate 2024 1 31) zero_date 180000000 Actual365 Annuity
    (MkDate 2024 1 31) (MkDate 2029 1 31) 31 zero_date no_amount false (MkPolicy HalfUp 10)
    (MkPrepayment PrepayShortenTerm 0
      [MkPrepaymentCharge 1 3 100 (MkAmount 50000 AMD) (MkAmount 10000000 AMD) (MkAmount 100000 AMD)
         (MkAmount 2000000 AMD)] no_amount)
    (MkPolicyRef "bank" 1).

Lemma dated_fees_wf : fee_terms dated_fees.
Proof.
  unfold fee_terms, int64_rule. unfold_i64. split_and!; try done.
  apply Forall_singleton. simpl. split_and!; done.
Qed.

(** Paying early costs no more for less money. If a lender's dated rules
    give a fee for a principal credit, they give one for any smaller credit on
    the same day with the same allowance used, it is never negative and it is
    at most as high: the percentage, the allowance, the fixed part, the floor
    and the cap keep the order of the amounts under every rounding mode. *)
Theorem charge_never_more_for_less c on p p' used fee :
  fee_terms c → wf_amount used → 0 ≤ minor p' ≤ minor p → minor p ≤ MaxInt64 → Code (cur p') = Code (cur p) →
  charge c on p used = Ok fee →
  ∃ fee', charge c on p' used = Ok fee' ∧ 0 ≤ minor fee' ≤ minor fee ∧ Code (cur fee') = Code (cur p).
Proof.
  intros Hc Hused Hp Hmax Hcode H.
  destruct (charge_within c on p p' used fee Hc Hused) as (fee' & Hfee & (Hle & _ & Hc1) & Hc2); [done|done|].
  unfold code in *. exists fee'. split_and!; [done|lia|lia|congruence].
Qed.

Lemma charge_never_more_for_less_witness :
  charge dated_fees (MkDate 2025 6 1) (MkAmount 60000000 AMD) (Zero AMD) = Ok (MkAmount 550000 AMD) ∧
  ∃ fee', charge dated_fees (MkDate 2025 6 1) (MkAmount 15000000 AMD) (Zero AMD) = Ok fee' ∧
    0 ≤ minor fee' ≤ 550000 ∧ Code (cur fee') = "AMD".
Proof.
  split; [vm_compute; reflexivity|].
  apply (charge_never_more_for_less dated_fees (MkDate 2025 6 1) (MkAmount 60000000 AMD) (MkAmount 15000000 AMD)
    (Zero AMD) (MkAmount 550000 AMD)); [exact dated_fees_wf| | | | |vm_compute; reflexivity];
    unfold_i64; lia || reflexivity.
Defined.
