(* ===== verification/PlanBase.v ===== *)
(** What the planner's files share: [pkg/core/plan/errors.go], the carry and
    release identifiers of [budget_rules_policies.go], and month keys. *)
From S2P Require Import Prelude Money Dates.

(** * errors.go *)

(** The planner's errors: those of the packages it calls, and its own types
    (the last one is declared in ladder.go). *)
Inductive perror :=
| Core (e : gerror)
| UnsupportedError (LoanID Feature : string)
| InfeasibleError (Constraint_ : string) (On : Date) (LoanID : string) (Required Available Shortfall : Amount)
| StaleBalanceError (LoanID : string) (AsOf : Date) (Assumed : Z)
| MixedCurrencyError (Have Want : string)
| TruncatedError (Max : Z)
| NonMonotoneError (Reason : string).

Abbreviation pres := (result perror).

(** A call into the core packages: its error passes through. *)
Definition core {A} (m : res A) : pres A :=
  match m with Ok a => Ok a | Err e => Err (Core e) | Panic w => Panic w end.

Definition fails {A} (format : string) : pres A := Err (Core (Errorf format)).
Definition fails_w {A} (format : string) (s : sentinel) : pres A := Err (Core (Wrapf format (Sentinel s))).
Definition sentinel_err {A} (s : sentinel) : pres A := Err (Core (Sentinel s)).
Definition unsupported {A} (loan feature : string) : pres A := Err (UnsupportedError loan feature).

Definition isInfeasible (e : perror) : bool :=
  match e with InfeasibleError _ _ _ _ _ _ => true | _ => false end.

Lemma core_Ok {A} (m : res A) a : core m = Ok a ↔ m = Ok a.
Proof. destruct m; simpl; naive_solver. Qed.
Lemma core_of_Ok {A} (a : A) : core (Ok a) = Ok a.
Proof. done. Qed.

(** [core] opens with the other sequences. *)
Ltac inv_core :=
  repeat (inv_res; match goal with H : core _ = Ok _ |- _ => apply core_Ok in H | _ => idtac end);
  repeat match goal with H : core _ = Ok _ |- _ => apply core_Ok in H end.

(** * budget_rules_policies.go *)

Definition CarryCash : string := "carry_cash".
Definition NoCarry : string := "no_carry".
Definition BatchUntil : string := "batch_until".
Definition CarryToDate : string := "carry_to_date".
Definition RollAll : string := "roll_all".
Definition ReleaseAll : string := "release_all".
Definition RollAmount : string := "roll_amount".
Definition RollPercent : string := "roll_percent".

(** * Months *)

(** [MonthKey]: ["%04d-%02d"]. *)
Definition MonthKey (d : Date) : string :=
  String.string_of_list_ascii (Sprintf_0d 4 (Year d) ++ dash :: Sprintf_0d 2 (Month d)).

(** [date.Parse(key + "-01")]. *)
Definition parse_month (key : string) : res Date :=
  Dates.Parse (String.list_ascii_of_string (String.append key "-01")).

Definition budgetRuleDateValid (d : Date) : bool :=
  negb (Dates.IsZero d) && (1 <=? Year d) && (Year d <=? 9999).

(** The key names the month and nothing else, for the years it is written in. *)
Lemma MonthKey_inj a b :
  1 ≤ Month a ≤ 12 → 1 ≤ Month b ≤ 12 → 0 ≤ Year a ≤ 9999 → 0 ≤ Year b ≤ 9999 →
  MonthKey a = MonthKey b → Year a = Year b ∧ Month a = Month b.
Proof.
  intros Ha Hb Hya Hyb H. unfold MonthKey in H. apply (f_equal String.list_ascii_of_string) in H.
  rewrite !String.list_ascii_of_string_of_list_ascii in H.
  destruct (Sprintf_04d_digits (Year a) Hya) as (a3 & a2 & a1 & a0 & Ea & Va).
  destruct (Sprintf_04d_digits (Year b) Hyb) as (b3 & b2 & b1 & b0 & Eb & Vb).
  destruct (Sprintf_02d_digits (Month a) ltac:(lia)) as (x1 & x0 & Exa & Vxa).
  destruct (Sprintf_02d_digits (Month b) ltac:(lia)) as (y1 & y0 & Exb & Vxb).
  rewrite Ea, Eb, Exa, Exb in H. simpl in H. injection H as <- <- <- <- <- <-.
  split; congruence.
Qed.
