(* ===== verification/BudgetRules.v ===== *)
(** Spending limits that grow and the permission a released payment takes away:
    [pkg/core/plan/budget_rules.go] and [budget_rules_release.go].

    [ExpandSpendingLimits] walks the months once, compounding as it goes; the
    reference it is proved against grows the base afresh for every month, by
    the number of recurrences that fall in time, in closed form. *)
From S2P Require Import Prelude Money Dates PlanBase.

Record SpendingLimitGrowth := MkGrowth {
  EveryMonths : Z;
  StartsOn : Date;
  EndsOn : Date;
  GrowFixed : Amount;
  PercentPPB : Z;
  Maximum : Amount }.

Record SpendingLimitAdjustment := MkAdjustment {
  AdjMonth : string;
  Replacement : option Amount;
  Delta : option Amount }.

(** The quotient of two [big.Int]s, half-up for a non-negative numerator:
    [QuoRem] truncates and panics on a zero divisor. *)
Definition big_half_up {E} (n d : Z) : result E Z :=
  if d =? 0 then Panic "division by zero"
  else Ok (if d <=? 2 * Z.rem n d then Z.quot n d + 1 else Z.quot n d).

Definition is_int64 (z : Z) : bool := (MinInt64 <=? z) && (z <=? MaxInt64).

Definition growth_rounds (g : SpendingLimitGrowth) : bool :=
  negb (Sign (GrowFixed g) =? 0) || negb (PercentPPB g =? 0).

Definition growSpendingLimit (current : Amount) (g : SpendingLimitGrowth) : pres Amount :=
  let '(numerator, denominator) :=
    if negb (bool_decide (GrowFixed g = no_amount)) then (minor current + minor (GrowFixed g), 1)
    else if negb (PercentPPB g =? 0)
    then (minor current * (1000000000 + PercentPPB g), 1000000000)
    else (minor current, 1) in
  let unit := Unit (DefaultPolicy (cur current)) in
  numerator ←
    (if growth_rounds g then units ← big_half_up numerator (denominator * unit); Ok (units * unit)
     else Ok numerator : pres Z);
  if negb (bool_decide (Maximum g = no_amount)) && (minor (Maximum g) <? numerator) then Ok (Maximum g)
  else if negb (is_int64 numerator) then sentinel_err ErrOverflow
  else Ok (FromMinor numerator (cur current)).

Definition months_between (a b : Date) : Z := (Year b - Year a) * 12 + (Month b - Month a).

(** The recurrences due by the end of a month. [None] is fuel running out. *)
Fixpoint grow_due (fuel : nat) (monthEnd last : Date) (g : SpendingLimitGrowth) (grown : Amount)
    (next : Date) : option (pres (Amount * Date)) :=
  match fuel with
  | O => None
  | S fuel =>
      if Dates.IsZero next || After next monthEnd then Some (Ok (grown, next))
      else if negb (Dates.IsZero (EndsOn g)) && After next (EndsOn g) then Some (Ok (grown, zero_date))
      else match growSpendingLimit grown g with
        | Err e => Some (Err e)
        | Panic w => Some (Panic w)
        | Ok grown =>
            if months_between next last <? EveryMonths g then Some (Ok (grown, zero_date))
            else grow_due fuel monthEnd last g grown
              (AddMonths (StartsOn g) (months_between (StartsOn g) next + EveryMonths g))
        end
  end.

(** At most one recurrence a month until the last one asked for. *)
Definition grow_fuel (last next : Date) : nat := S (S (Z.to_nat (months_between next last))).

Definition grow_through (monthEnd last : Date) (growth : option SpendingLimitGrowth) (grown : Amount)
    (next : Date) : pres (Amount * Date) :=
  match growth with
  | None => Ok (grown, next)
  | Some g =>
      match grow_due (grow_fuel last next) monthEnd last g grown next with
      | Some r => r
      | None => Panic "out of fuel"
      end
  end.

Definition adjusted (a : option SpendingLimitAdjustment) (grown : Amount) : pres Amount :=
  match a with
  | None => Ok grown
  | Some a =>
      match Replacement a with
      | Some v => Ok v
      | None =>
          match Delta a with
          | Some d =>
              match Add grown d with
              | Ok v => Ok v
              | Err _ => sentinel_err ErrOverflow
              | Panic w => Panic w
              end
          | None => Panic "invalid memory address or nil pointer dereference"
          end
      end
  end.

Fixpoint expand_months (n : nat) (i : Z) (from last : Date) (growth : option SpendingLimitGrowth)
    (byMonth : gmap string SpendingLimitAdjustment) (grown : Amount) (next : Date)
    (limits : gmap string Amount) : pres (gmap string Amount) :=
  match n with
  | O => Ok limits
  | S n =>
      let month := AddMonths from i in
      '(grown, next) ← grow_through (EndOfMonth month) last growth grown next;
      limit ← adjusted (byMonth !! MonthKey month) grown;
      if Sign limit <? 0 then sentinel_err ErrNegative
      else expand_months n (i + 1) from last growth byMonth grown next (<[MonthKey month := limit]> limits)
  end.

Definition check_limit (cr : Currency) (a : Amount) : pres unit :=
  if negb (bool_decide (cur a = cr)) then fails "plan: invalid or mismatched budget currency" else Ok tt.

(** [growth.Fixed] and [growth.Maximum]: absent only as a zero [Amount]. *)
Definition check_growth_amount (cr : Currency) (a : Amount) : pres unit :=
  if bool_decide (a = no_amount) then Ok tt
  else _ ← check_limit cr a; if Sign a <? 0 then sentinel_err ErrNegative else Ok tt.

Definition check_growth (cr : Currency) (g : SpendingLimitGrowth) : pres unit :=
  if (EveryMonths g <? 1) || negb (budgetRuleDateValid (StartsOn g)) || negb (Day (StartsOn g) =? 1) ||
    (negb (Dates.IsZero (EndsOn g)) &&
      (negb (budgetRuleDateValid (EndsOn g)) || Before (EndsOn g) (StartsOn g)))
  then fails "plan: invalid budget growth dates or frequency"
  else if (PercentPPB g <? 0) || (negb (bool_decide (GrowFixed g = no_amount)) && negb (PercentPPB g =? 0))
  then fails "plan: invalid budget growth increase"
  else _ ← check_growth_amount cr (GrowFixed g); check_growth_amount cr (Maximum g).

(** One entry of the map built from the adjustments. *)
Definition read_adjustment (cr : Currency) (byMonth : gmap string SpendingLimitAdjustment)
    (a : SpendingLimitAdjustment) : pres (gmap string SpendingLimitAdjustment) :=
  match parse_month (AdjMonth a) with
  | Panic w => Panic w
  | Err _ => fails "plan: invalid budget adjustment month"
  | Ok d =>
      if negb (budgetRuleDateValid d) || negb (String.eqb (MonthKey d) (AdjMonth a))
      then fails "plan: invalid budget adjustment month"
      else match byMonth !! AdjMonth a with
        | Some _ => fails "plan: duplicate budget adjustment month"
        | None =>
            match Replacement a, Delta a with
            | Some v, None =>
                _ ← check_limit cr v;
                if Sign v <? 0 then sentinel_err ErrNegative else Ok (<[AdjMonth a := a]> byMonth)
            | None, Some v => _ ← check_limit cr v; Ok (<[AdjMonth a := a]> byMonth)
            | _, _ => fails "plan: budget adjustment requires exactly one operation"
            end
        end
  end.

Fixpoint read_adjustments (cr : Currency) (byMonth : gmap string SpendingLimitAdjustment)
    (l : list SpendingLimitAdjustment) : pres (gmap string SpendingLimitAdjustment) :=
  match l with
  | [] => Ok byMonth
  | a :: l => byMonth ← read_adjustment cr byMonth a; read_adjustments cr byMonth l
  end.

Definition ExpandSpendingLimits (base : Amount) (from : Date) (months : Z)
    (growth : option SpendingLimitGrowth) (adjustments : list SpendingLimitAdjustment) :
    pres (gmap string Amount) :=
  if (months <? 1) || (600 <? months) || negb (budgetRuleDateValid from)
  then fails "plan: invalid budget horizon"
  else
    let last := EndOfMonth (AddMonths from (months - 1)) in
    if negb (budgetRuleDateValid last) then fails "plan: invalid budget horizon"
    else match Lookup (Code (cur base)) with
      | Panic w => Panic w
      | Err _ => sentinel_err ErrUnknownCurrency
      | Ok cr =>
          if negb (bool_decide (cur base = cr)) then fails "plan: invalid budget currency metadata"
          else if Sign base <? 0 then sentinel_err ErrNegative
          else
            _ ← match growth with Some g => check_growth cr g | None => Ok tt end;
            byMonth ← read_adjustments cr ∅ adjustments;
            expand_months (Z.to_nat months) 0 from last growth byMonth base
              (match growth with Some g => StartsOn g | None => zero_date end) ∅
      end.

(** * budget_rules_release.go *)

(** What a percentage keeps of a released payment. *)
Definition kept_percent (cr : Currency) (released : Amount) (percentPPB : Z) : pres Amount :=
  let unit := Unit (DefaultPolicy cr) in
  units ← big_half_up (minor released * percentPPB) (1000000000 * unit);
  let units := units * unit in
  if minor released <? units then Ok released
  else if negb (is_int64 units) then sentinel_err ErrOverflow
  else Ok (FromMinor units cr).

Definition kept_by (cr : Currency) (released : Amount) (rule : string) (retain : Amount) (percentPPB : Z) :
    pres Amount :=
  if String.eqb rule ReleaseAll then Ok (Zero cr)
  else if String.eqb rule RollAmount
  then
    if negb (bool_decide (cur retain = cr)) || (Sign retain <? 0)
    then fails "plan: invalid retained payment" else Ok retain
  else if String.eqb rule RollPercent
  then
    if (percentPPB <? 0) || (1000000000 <? percentPPB)
    then fails "plan: invalid retained percentage" else kept_percent cr released percentPPB
  else unsupported "" "released-payment goal condition".

Definition ReleasedReduction (before after : Amount) (rule : string) (retain : Amount) (percentPPB : Z)
    (confirmed : bool) : pres Amount :=
  let cr := cur before in
  match Lookup (Code cr) with
  | Panic w => Panic w
  | Err _ => fails "plan: invalid released-payment currency"
  | Ok known =>
      if negb (bool_decide (known = cr)) then fails "plan: invalid released-payment currency"
      else if negb (bool_decide (cur before = cur after)) || (Sign before <? 0) || (Sign after <? 0)
      then fails "plan: invalid released-payment facts"
      else if negb confirmed then Ok (Zero cr)
      else
        c ← core (Cmp after before);
        if (0 <=? c) || String.eqb rule RollAll then Ok (Zero cr)
        else
          released ← core (Sub before after);
          kept ← kept_by cr released rule retain percentPPB;
          c ← core (Cmp kept released);
          core (Sub released (if 0 <? c then released else kept))
  end.

(** * Lemmas *)

(** ** Growth *)

Lemma registry_units : Forall (λ c, 1 ≤ SettlementUnit c ≤ 10) registry_rows.
Proof. repeat constructor; discriminate. Qed.

Lemma Lookup_unit code c : Lookup code = Ok c → 1 ≤ SettlementUnit c ≤ 10.
Proof.
  unfold Lookup. destruct (registry !! _) as [c'|] eqn:E; [|done]. intros [= <-].
  unfold registry in E. apply elem_of_list_to_map_2, list_elem_of_fmap in E as (x & [= _ ->] & Hx).
  pose proof registry_units as H. rewrite Forall_forall in H. by apply H.
Qed.

Lemma big_half_up_exact {E} n d : 0 ≤ n → 0 < d → big_half_up (E:=E) n d = Ok (round_div HalfUp n d).
Proof.
  intros Hn Hd. unfold big_half_up. rewrite (proj2 (Z.eqb_neq d 0)) by lia.
  destruct (quot_rem_nonneg n d Hn Hd) as [-> ->]. f_equal.
  destruct (div_mod_facts n d Hd) as [Hnd Hr]. simpl. symmetry.
  destruct (Z.leb_spec d (2 * (n mod d))); apply div_eq_of_bounds; nia.
Qed.

(** The grown limit in exact arithmetic, before the cap. *)
Definition grown_raw (m unit : Z) (g : SpendingLimitGrowth) : Z :=
  if negb (bool_decide (GrowFixed g = no_amount))
  then if growth_rounds g then round_div HalfUp (m + minor (GrowFixed g)) unit * unit else m + minor (GrowFixed g)
  else if negb (PercentPPB g =? 0)
  then round_div HalfUp (m * (1000000000 + PercentPPB g)) (1000000000 * unit) * unit
  else m.

Definition capped (g : SpendingLimitGrowth) (m : Z) : Z :=
  if bool_decide (Maximum g = no_amount) then m else Z.min (minor (Maximum g)) m.

(** Growth that [check_growth] lets through. *)
Definition growth_ok (cr : Currency) (g : SpendingLimitGrowth) : Prop :=
  1 ≤ EveryMonths g ∧ Day (StartsOn g) = 1 ∧ budgetRuleDateValid (StartsOn g) = true ∧
  (Dates.IsZero (EndsOn g) = false → budgetRuleDateValid (EndsOn g) = true) ∧
  0 ≤ PercentPPB g ∧ (GrowFixed g = no_amount ∨ PercentPPB g = 0) ∧
  (GrowFixed g = no_amount ∨ cur (GrowFixed g) = cr ∧ 0 ≤ minor (GrowFixed g)) ∧
  (Maximum g = no_amount ∨ cur (Maximum g) = cr ∧ 0 ≤ minor (Maximum g)).

Lemma check_growth_amount_Ok cr a u :
  check_growth_amount cr a = Ok u → a = no_amount ∨ cur a = cr ∧ 0 ≤ minor a.
Proof.
  unfold check_growth_amount, check_limit. destruct (bool_decide_reflect (a = no_amount)); [by left|].
  intros H. right. inv_res. destruct (bool_decide_reflect (cur a = cr)); simpl in *; [|done].
  unfold Sign in H. destruct (Z.ltb_spec 0 (minor a)); [split; [done|lia]|].
  destruct (Z.ltb_spec (minor a) 0); [done|]. split; [done|lia].
Qed.

Lemma check_growth_Ok cr g u : check_growth cr g = Ok u → growth_ok cr g.
Proof.
  unfold check_growth. case_test E; [done|]. case_test E2; [done|].
  intros H. inv_res. rewrite !orb_false_iff, !negb_false_iff, !andb_false_iff, !negb_false_iff in E.
  rewrite orb_false_iff, andb_false_iff, !negb_false_iff, Z.ltb_ge in E2.
  destruct E as (((Hev & Hst) & Hday) & Hend), E2 as (Hp & Hf).
  apply Z.ltb_ge in Hev. apply Z.eqb_eq in Hday.
  unfold growth_ok. split_and!; try done; try lia.
  - intros Hz. destruct Hend as [Hend|Hend]; [congruence|].
    apply orb_false_iff in Hend as [Hend _]. by apply negb_false_iff in Hend.
  - destruct Hf as [Hf|Hf]; [left; by apply bool_decide_eq_true in Hf|right; by apply Z.eqb_eq].
  - by eapply check_growth_amount_Ok.
  - by eapply check_growth_amount_Ok.
Qed.

Lemma grown_raw_nonneg cr m unit g : growth_ok cr g → 0 ≤ m → 1 ≤ unit → 0 ≤ grown_raw m unit g.
Proof.
  intros (_ & _ & _ & _ & Hp & _ & Hf & _) Hm Hu. unfold grown_raw.
  destruct (bool_decide_reflect (GrowFixed g = no_amount)); cbn [negb].
  - destruct (PercentPPB g =? 0); cbn [negb]; [done|].
    apply Z.mul_nonneg_nonneg; [|lia]. apply round_div_nonneg; nia.
  - destruct Hf as [|[_ Hf]]; [done|]. destruct (growth_rounds g); [|lia].
    apply Z.mul_nonneg_nonneg; [|lia]. apply round_div_nonneg; lia.
Qed.

(** Growth is exact: one half-up rounding to the settlement unit, then the cap,
    and an overflow error only when the capped figure is not an [int64]. *)
Lemma growSpendingLimit_exact cr a g :
  growth_ok cr g → minor (Maximum g) ≤ MaxInt64 → cur a = cr → 1 ≤ SettlementUnit cr → 0 ≤ minor a →
  0 ≤ capped g (grown_raw (minor a) (SettlementUnit cr) g) ∧
  growSpendingLimit a g =
    if capped g (grown_raw (minor a) (SettlementUnit cr) g) <=? MaxInt64
    then Ok (MkAmount (capped g (grown_raw (minor a) (SettlementUnit cr) g)) cr)
    else sentinel_err ErrOverflow.
Proof.
  intros Hg Hmax Hc Hu Hm. pose proof (grown_raw_nonneg cr (minor a) (SettlementUnit cr) g Hg Hm Hu) as Hraw.
  set (raw := grown_raw (minor a) (SettlementUnit cr) g) in *.
  assert (0 ≤ capped g raw) as Hcap.
  { unfold capped. destruct (bool_decide_reflect (Maximum g = no_amount)); [done|].
    destruct Hg as (_ & _ & _ & _ & _ & _ & _ & [|[_ ?]]); [done|lia]. }
  split; [done|]. unfold growSpendingLimit, DefaultPolicy. rewrite Hc. simpl Unit.
  assert (∀ k : Z → pres Amount,
    (let '(n, d) := if negb (bool_decide (GrowFixed g = no_amount)) then (minor a + minor (GrowFixed g), 1)
      else if negb (PercentPPB g =? 0) then (minor a * (1000000000 + PercentPPB g), 1000000000)
      else (minor a, 1) in
     m ← (if growth_rounds g then units ← big_half_up n (d * SettlementUnit cr); Ok (units * SettlementUnit cr)
       else Ok n : pres Z); k m) = k raw) as ->.
  { intros k. subst raw. unfold grown_raw. destruct Hg as (_ & _ & _ & _ & Hp & _ & Hf & _).
    unfold growth_rounds in *. destruct (bool_decide_reflect (GrowFixed g = no_amount)) as [E|E]; simpl.
    - rewrite E. simpl. destruct (PercentPPB g =? 0); simpl; [done|].
      rewrite big_half_up_exact by nia. done.
    - destruct Hf as [|[_ Hf]]; [done|]. case_test E2; [|done].
      rewrite Z.mul_1_l, big_half_up_exact by lia. done. }
  assert (is_int64 raw = (raw <=? MaxInt64)) as Hint.
  { unfold is_int64. destruct (Z.leb_spec MinInt64 raw) as [_|Hlow]; [done|]. unfold MinInt64 in Hlow. lia. }
  unfold capped. destruct (bool_decide_reflect (Maximum g = no_amount)) as [E|E]; simpl.
  - rewrite Hint. by destruct (raw <=? MaxInt64).
  - destruct Hg as (_ & _ & _ & _ & _ & _ & _ & [|[Hcr Hpos]]); [done|].
    destruct (Z.ltb_spec (minor (Maximum g)) raw).
    + rewrite Z.min_l, (proj2 (Z.leb_le _ _)) by lia. by destruct (Maximum g); simpl in *; subst.
    + rewrite Z.min_r, Hint by lia. by destruct (raw <=? MaxInt64).
Qed.

(** ** Recurrences *)

(** How many recurrences fall by the end of the month numbered [m]. *)
Definition recurrences (g : SpendingLimitGrowth) (m : Z) : Z :=
  let upto := if Dates.IsZero (EndsOn g) then m else Z.min m (month_of (EndsOn g)) in
  if upto <? month_of (StartsOn g) then 0
  else (upto - month_of (StartsOn g)) / EveryMonths g + 1.

(** The base grown that many times. *)
Definition grow_n (g : SpendingLimitGrowth) (base : Amount) (n : nat) : pres Amount :=
  Nat.iter n (λ r, r ≫= λ a, growSpendingLimit a g) (Ok base).

Definition grown_by (g : SpendingLimitGrowth) (base : Amount) (m : Z) : pres Amount :=
  grow_n g base (Z.to_nat (recurrences g m)).

Lemma grow_n_stops g base n k e :
  (∀ a, e ≠ Ok a) → grow_n g base n = e → grow_n g base (k + n) = e.
Proof.
  intros He H. induction k as [|k IH]; [done|]. unfold grow_n in *. simpl. rewrite IH.
  destruct e; [by destruct (He a)|done..].
Qed.

Lemma months_between_of a b : months_between a b = month_of b - month_of a.
Proof. unfold months_between, month_of, month_index. lia. Qed.

Lemma month_of_EndOfMonth d : month_of (EndOfMonth d) = month_of d.
Proof. reflexivity. Qed.

Lemma After_first d e : valid d → Day d = 1 → valid e → After d e = (month_of e <? month_of d).
Proof.
  intros Hd H1 He. unfold After. apply eq_bool_prop_intro. rewrite !Is_true_true, !Z.ltb_lt.
  rewrite (Compare_opp e d), Z.opp_pos_neg, Compare_lt by done.
  unfold month_of. destruct He as [_ He]. lia.
Qed.

Lemma valid_not_zero d : valid d → Dates.IsZero d = false.
Proof. intros [Hm _]. unfold Dates.IsZero. apply bool_decide_eq_false. intros ->. simpl in Hm. lia. Qed.

Lemma first_of_month d : Day d = 1 → 1 ≤ Month d ≤ 12 → valid d.
Proof. intros H1 Hm. unfold valid. pose proof (month_len_range (Year d) (Month d)). lia. Qed.

Section Recurrences.
Context (g : SpendingLimitGrowth) (base : Amount).
Context (Hevery : 1 ≤ EveryMonths g) (Hday : Day (StartsOn g) = 1) (Hstart : valid (StartsOn g)).
Context (Hyear : 0 ≤ month_of (StartsOn g)).
Context (Hends : Dates.IsZero (EndsOn g) = false → valid (EndsOn g)).

(** [d] is recurrence number [j], counted from zero. *)
Definition recurs (j : Z) (d : Date) : Prop :=
  0 ≤ j ∧ valid d ∧ Day d = 1 ∧ month_of d = month_of (StartsOn g) + j * EveryMonths g.

Lemma recurs_start : recurs 0 (StartsOn g).
Proof using Hday Hstart. unfold recurs. split_and!; done || lia. Qed.

Lemma recurs_next j d :
  recurs j d → recurs (j + 1) (AddMonths (StartsOn g) (months_between (StartsOn g) d + EveryMonths g)).
Proof using Hday Hevery Hstart Hyear.
  intros (Hj & _ & _ & Hm). rewrite months_between_of, Hm.
  destruct (AddMonths_facts (StartsOn g) (month_of (StartsOn g) + j * EveryMonths g - month_of (StartsOn g) + EveryMonths g)
    ltac:(lia) ltac:(nia)) as (Hv & Hmo & Hd).
  unfold recurs. split_and!; [lia|done| |nia]. rewrite Hd, Hday.
  pose proof (month_len_range (Year (AddMonths (StartsOn g)
    (month_of (StartsOn g) + j * EveryMonths g - month_of (StartsOn g) + EveryMonths g)))
    (Month (AddMonths (StartsOn g)
    (month_of (StartsOn g) + j * EveryMonths g - month_of (StartsOn g) + EveryMonths g)))). lia.
Qed.

(** Recurrence [j] is counted in month [m] exactly when it falls by then and
    within the end date. *)
Lemma recurrences_gt j m :
  0 ≤ j →
  j < recurrences g m ↔
  month_of (StartsOn g) + j * EveryMonths g ≤ m ∧
  (Dates.IsZero (EndsOn g) = true ∨ month_of (StartsOn g) + j * EveryMonths g ≤ month_of (EndsOn g)).
Proof using Hevery.
  intros Hj. clear -Hevery Hj. unfold recurrences. set (s := month_of (StartsOn g)). set (e := EveryMonths g) in *.
  set (upto := if Dates.IsZero (EndsOn g) then m else Z.min m (month_of (EndsOn g))).
  assert (s + j * e ≤ m ∧ (Dates.IsZero (EndsOn g) = true ∨ s + j * e ≤ month_of (EndsOn g)) ↔ s + j * e ≤ upto) as ->.
  { subst upto. destruct (Dates.IsZero (EndsOn g)); naive_solver lia. }
  destruct (Z.ltb_spec upto s) as [Hlt|Hge]; [split; [lia|nia]|].
  pose proof (div_mod_facts (upto - s) e ltac:(lia)). split; nia.
Qed.

Lemma recurrences_nonneg m : 0 ≤ recurrences g m.
Proof using Hevery.
  clear -Hevery. unfold recurrences. case_test E; [done|]. apply Z.ltb_ge in E.
  match goal with |- 0 ≤ ?x / _ + 1 => assert (0 ≤ x / EveryMonths g) by (apply Z.div_pos; lia) end. lia.
Qed.

Lemma recurrences_mono m m' : m ≤ m' → recurrences g m ≤ recurrences g m'.
Proof using Hevery.
  intros Hm. clear -Hevery Hm. pose proof (recurrences_nonneg m). pose proof (recurrences_nonneg m').
  destruct (Z.le_gt_cases (recurrences g m) (recurrences g m')) as [|Hgt]; [done|].
  pose proof (proj1 (recurrences_gt (recurrences g m') m ltac:(lia)) ltac:(lia)) as H'.
  pose proof (proj2 (recurrences_gt (recurrences g m') m' ltac:(lia))) as H2. destruct H' as [H1 H3].
  assert (recurrences g m' < recurrences g m') by (apply H2; split; [lia|done]). lia.
Qed.
(** Where the walk stands after month [m]: the base grown by the recurrences so
    far, and the next of them, or none up to the last month. *)
Definition stands (last : Date) (m : Z) (grown : Amount) (next : Date) : Prop :=
  grown_by g base m = Ok grown ∧
  (recurs (recurrences g m) next ∧ m < month_of next ∨
   Dates.IsZero next = true ∧ ∀ m', m ≤ m' ≤ month_of last → recurrences g m' = recurrences g m).

Lemma grown_by_eq m j : recurrences g m = Z.of_nat j → grown_by g base m = grow_n g base j.
Proof using Type. intros H. unfold grown_by. by rewrite H, Nat2Z.id. Qed.

Lemma grow_due_step monthEnd last fuel : ∀ j grown next,
  valid monthEnd → month_of monthEnd ≤ month_of last →
  recurs (Z.of_nat j) next → Z.of_nat j ≤ recurrences g (month_of monthEnd) →
  grow_n g base j = Ok grown → (grow_fuel last next ≤ fuel)%nat →
  ∃ r, grow_due fuel monthEnd last g grown next = Some r ∧
    match r with
    | Ok (grown', next') => stands last (month_of monthEnd) grown' next'
    | Err e => grown_by g base (month_of monthEnd) = Err e
    | Panic w => grown_by g base (month_of monthEnd) = Panic w
    end.
Proof using Hday Hevery Hstart Hyear Hends.
  induction fuel as [|fuel IH]; intros j grown next Hv Hlast Hrec Hle Hgrown Hfuel;
    [unfold grow_fuel in Hfuel; lia|]. simpl.
  pose proof Hrec as (Hj & Hvn & Hdn & Hmn).
  assert (∀ m', ¬ Z.of_nat j < recurrences g m' → Z.of_nat j ≤ recurrences g m' →
    recurrences g m' = Z.of_nat j) as Hstop by (intros; lia).
  rewrite (valid_not_zero _ Hvn), (After_first _ _ Hvn Hdn Hv). simpl.
  destruct (Z.ltb_spec (month_of monthEnd) (month_of next)) as [Hpast|Hdue].
  { assert (recurrences g (month_of monthEnd) = Z.of_nat j) as E
      by (apply Hstop; [rewrite recurrences_gt by done; lia|done]).
    eexists. split; [done|]. split; [by rewrite (grown_by_eq _ j)|]. left. rewrite E. by split. }
  destruct (negb (Dates.IsZero (EndsOn g)) && After next (EndsOn g)) eqn:Eend.
  { apply andb_true_iff in Eend as [Ez Ea]. apply negb_true_iff in Ez.
    rewrite (After_first _ _ Hvn Hdn (Hends Ez)) in Ea. apply Z.ltb_lt in Ea.
    assert (∀ m', month_of monthEnd ≤ m' → recurrences g m' = Z.of_nat j) as E.
    { intros m' Hm'. apply Hstop; [|pose proof (recurrences_mono _ _ Hm'); lia].
      rewrite recurrences_gt by done. rewrite Ez. intros [_ [?|?]]; [done|lia]. }
    eexists. split; [done|]. split; [rewrite (grown_by_eq _ j); [done|by apply E]|]. right.
    split; [done|]. intros m' Hm'. rewrite !E; lia. }
  assert (Z.of_nat j < recurrences g (month_of monthEnd)) as Hlt.
  { apply recurrences_gt; [done|]. split; [lia|]. apply andb_false_iff in Eend as [Ez|Ea].
    - left. by apply negb_false_iff.
    - destruct (Dates.IsZero (EndsOn g)) eqn:Ez; [by left|right].
      rewrite (After_first _ _ Hvn Hdn (Hends eq_refl)) in Ea. apply Z.ltb_ge in Ea. lia. }
  assert (grow_n g base (S j) = growSpendingLimit grown g) as Hnext by (unfold grow_n in *; simpl; by rewrite Hgrown).
  assert (∀ e, (∀ a, e ≠ Ok a) → growSpendingLimit grown g = e → grown_by g base (month_of monthEnd) = e) as Hfail.
  { intros e He Hg. unfold grown_by.
    replace (Z.to_nat (recurrences g (month_of monthEnd)))
      with ((Z.to_nat (recurrences g (month_of monthEnd)) - S j) + S j)%nat by lia.
    apply grow_n_stops; [done|congruence]. }
  destruct (growSpendingLimit grown g) as [grown'|e|w] eqn:Eg;
    [|eexists; split; [done|]; by apply Hfail|eexists; split; [done|]; by apply Hfail].
  rewrite months_between_of. pose proof (recurs_next _ _ Hrec) as Hrec'.
  replace (Z.of_nat j + 1) with (Z.of_nat (S j)) in Hrec' by lia.
  destruct (Z.ltb_spec (month_of last - month_of next) (EveryMonths g)) as [Hover|Hmore].
  - assert (∀ m', month_of monthEnd ≤ m' ≤ month_of last → recurrences g m' = Z.of_nat (S j)) as E.
    { intros m' Hm'. pose proof (recurrences_mono _ _ (proj1 Hm')).
      assert (¬ Z.of_nat (S j) < recurrences g m'); [|lia]. rewrite recurrences_gt by lia. nia. }
    eexists. split; [done|]. split; [rewrite (grown_by_eq _ (S j)); [done|apply E; lia]|]. right.
    split; [done|]. intros m' Hm'. rewrite !E; lia.
  - apply (IH (S j)); [done|done|exact Hrec'|lia|by rewrite Hnext|].
    destruct Hrec' as (_ & _ & _ & Hm'). unfold grow_fuel in *. rewrite Nat2Z.inj_succ, Z.mul_succ_l in Hm'.
    rewrite (months_between_of _ last). rewrite (months_between_of _ last) in Hfuel. lia.
Qed.
End Recurrences.

(** ** The months *)

Definition grown_in (growth : option SpendingLimitGrowth) (base : Amount) (month : Date) : pres Amount :=
  match growth with Some g => grown_by g base (month_of month) | None => Ok base end.

(** The limit of one month, on its own. *)
Definition limit_for (growth : option SpendingLimitGrowth) (base : Amount)
    (byMonth : gmap string SpendingLimitAdjustment) (month : Date) : pres Amount :=
  grown ← grown_in growth base month;
  limit ← adjusted (byMonth !! MonthKey month) grown;
  if Sign limit <? 0 then sentinel_err ErrNegative else Ok limit.

Fixpoint expand_ref (n : nat) (i : Z) (from : Date) (growth : option SpendingLimitGrowth) (base : Amount)
    (byMonth : gmap string SpendingLimitAdjustment) (limits : gmap string Amount) : pres (gmap string Amount) :=
  match n with
  | O => Ok limits
  | S n =>
      let month := AddMonths from i in
      limit ← limit_for growth base byMonth month;
      expand_ref n (i + 1) from growth base byMonth (<[MonthKey month := limit]> limits)
  end.

(** Growth whose dates are calendar dates. *)
Definition growth_dates (g : SpendingLimitGrowth) : Prop :=
  valid (StartsOn g) ∧ (Dates.IsZero (EndsOn g) = false → valid (EndsOn g)).

Lemma budget_year d : budgetRuleDateValid d = true → 1 ≤ Year d ≤ 9999.
Proof. unfold budgetRuleDateValid. rewrite !andb_true_iff, !Z.leb_le. lia. Qed.

Section Months.
Context (g : SpendingLimitGrowth) (base : Amount) (last : Date).
Context (Hevery : 1 ≤ EveryMonths g) (Hday : Day (StartsOn g) = 1).
Context (Hdates : growth_dates g) (Hyear : 0 ≤ month_of (StartsOn g)).

(** The walk is ready for month [m]. *)
Definition ready (m : Z) (grown : Amount) (next : Date) : Prop :=
  ∃ j, grow_n g base j = Ok grown ∧
    (recurs g (Z.of_nat j) next ∧ Z.of_nat j ≤ recurrences g m ∨
     Dates.IsZero next = true ∧ ∀ m', m ≤ m' ≤ month_of last → recurrences g m' = Z.of_nat j).

Lemma ready_start m : ready m base (StartsOn g).
Proof using Hday Hdates Hevery.
  exists 0%nat. split; [done|]. left. split; [apply recurs_start; [done|apply Hdates]|].
  by apply recurrences_nonneg.
Qed.

Lemma stands_ready m grown next : stands g base last m grown next → ready (m + 1) grown next.
Proof using Hevery.
  intros [Hg Hn]. pose proof (recurrences_nonneg g Hevery m) as H0.
  exists (Z.to_nat (recurrences g m)). split; [exact Hg|]. rewrite Z2Nat.id by done.
  destruct Hn as [[Hr Hlt]|[Hz Hall]].
  - left. split; [done|]. apply recurrences_mono; [done|lia].
  - right. split; [done|]. intros m' Hm'. apply Hall. lia.
Qed.

Lemma grow_through_ready month grown next :
  valid month → month_of month ≤ month_of last → ready (month_of month) grown next →
  ∃ r, grow_through (EndOfMonth month) last (Some g) grown next = r ∧
    match r with
    | Ok (grown', next') =>
        grown_by g base (month_of month) = Ok grown' ∧ ready (month_of month + 1) grown' next'
    | Err e => grown_by g base (month_of month) = Err e
    | Panic w => grown_by g base (month_of month) = Panic w
    end.
Proof using Hday Hdates Hevery Hyear.
  intros Hv Hlast (j & Hj & Hn). eexists. split; [done|]. unfold grow_through.
  destruct Hv as [Hm Hd]. destruct (EndOfMonth_facts month Hm) as [Hve _].
  assert (month_of (EndOfMonth month) = month_of month) as Em by done.
  destruct Hn as [[Hr Hle]|[Hz Hall]].
  - destruct (grow_due_step g base Hevery Hday (proj1 Hdates) Hyear (proj2 Hdates) (EndOfMonth month) last
      (grow_fuel last next) j grown next Hve ltac:(by rewrite Em) Hr ltac:(by rewrite Em) Hj ltac:(done))
      as (r & -> & H). rewrite Em in H. destruct r as [[grown' next']|e|w]; [|done..].
    split; [apply H|]. by apply stands_ready.
  - unfold grow_fuel. simpl. rewrite Hz. simpl. split.
    + unfold grown_by. rewrite Hall by lia. by rewrite Nat2Z.id.
    + exists j. split; [done|]. right. split; [done|]. intros m' Hm'. apply Hall. lia.
Qed.
End Months.

(** One walk over the months gives each of them its own limit. *)
Lemma expand_months_ref n : ∀ i from last growth base byMonth grown next limits,
  valid from → 0 ≤ month_of from → 0 ≤ i → month_of from + i + Z.of_nat n ≤ month_of last + 1 →
  match growth with
  | Some g => 1 ≤ EveryMonths g ∧ Day (StartsOn g) = 1 ∧ growth_dates g ∧ 0 ≤ month_of (StartsOn g) ∧
      ready g base last (month_of from + i) grown next
  | None => grown = base
  end →
  expand_months n i from last growth byMonth grown next limits =
  expand_ref n i from growth base byMonth limits.
Proof.
  induction n as [|n IH]; intros i from last growth base byMonth grown next limits Hv H0 Hi Hlast Hg; [done|].
  simpl. destruct Hv as [Hm Hd] eqn:E. clear E.
  destruct (AddMonths_facts from i ltac:(lia) ltac:(lia)) as (Hva & Hma & _).
  unfold limit_for. destruct growth as [g|].
  - destruct Hg as (He & Hday & Hdates & Hy & Hready). rewrite <- Hma in Hready.
    destruct (grow_through_ready g base last He Hday Hdates Hy _ _ _ Hva ltac:(lia) Hready) as (r & -> & Hr).
    unfold grown_in. destruct r as [[grown' next']|e|w]; [|by rewrite Hr..].
    destruct Hr as [-> Hready']. rewrite !bind_of_Ok. simpl.
    destruct (adjusted _ grown') as [l|e|w]; [|done..]. rewrite !bind_of_Ok.
    destruct (Sign l <? 0); [done|]. rewrite bind_of_Ok. apply IH; [done|done|lia|lia|].
    split_and!; try done. by rewrite Hma, <- Z.add_assoc in Hready'.
  - subst grown. simpl. destruct (adjusted _ base) as [l|e|w]; [|done..]. rewrite !bind_of_Ok.
    destruct (Sign l <? 0); [done|]. rewrite bind_of_Ok. apply IH; [done|done|lia|lia|done].
Qed.

(** ** The map built from the adjustments *)

Lemma read_adjustment_other cr m a m' k : read_adjustment cr m a = Ok m' → k ≠ AdjMonth a → m' !! k = m !! k.
Proof.
  unfold read_adjustment. intros H Hk. destruct (parse_month _) as [d| |]; try done.
  case_if_in H; [done|]. destruct (m !! AdjMonth a); [done|].
  destruct (Replacement a), (Delta a); try done; inv_res; [case_if_in H; [done|]; inv_res|];
    by rewrite lookup_insert_ne.
Qed.

Definition adjust_ok (cr : Currency) (k : string) (a : SpendingLimitAdjustment) : Prop :=
  AdjMonth a = k ∧
  ((∃ v, Replacement a = Some v ∧ Delta a = None ∧ cur v = cr ∧ 0 ≤ minor v) ∨
   (∃ v, Replacement a = None ∧ Delta a = Some v ∧ cur v = cr)).

Lemma read_adjustment_ok cr m a m' :
  read_adjustment cr m a = Ok m' → map_Forall (adjust_ok cr) m → map_Forall (adjust_ok cr) m'.
Proof.
  unfold read_adjustment, check_limit. intros H Hm. destruct (parse_month _) as [d| |]; try done.
  case_if_in H; [done|]. destruct (m !! AdjMonth a); [done|].
  destruct (Replacement a) as [v|] eqn:Er, (Delta a) as [v'|] eqn:Ed; try done; inv_res.
  - destruct (bool_decide_reflect (cur v = cr)); [|done]. rewrite Sign_neg_iff in H.
    destruct (Z.ltb_spec (minor v) 0); [done|]. inv_res.
    apply map_Forall_insert_2; [|done]. split; [done|]. left. by exists v.
  - destruct (bool_decide_reflect (cur v' = cr)); [|done]. inv_res.
    apply map_Forall_insert_2; [|done]. split; [done|]. right. by exists v'.
Qed.

Lemma read_adjustments_ok cr l : ∀ m m',
  read_adjustments cr m l = Ok m' → map_Forall (adjust_ok cr) m → map_Forall (adjust_ok cr) m'.
Proof.
  induction l as [|a l IH]; intros m m' H Hm; simpl in H; [by inv_res|]. inv_res.
  eapply IH; [done|]. by eapply read_adjustment_ok.
Qed.

Lemma expand_ref_lookup n : ∀ i from growth base byMonth limits limits',
  expand_ref n i from growth base byMonth limits = Ok limits' →
  (∀ k k', i ≤ k < i + Z.of_nat n → i ≤ k' < i + Z.of_nat n →
    MonthKey (AddMonths from k) = MonthKey (AddMonths from k') → k = k') →
  (∀ k, i ≤ k < i + Z.of_nat n →
    ∃ l, limit_for growth base byMonth (AddMonths from k) = Ok l ∧
      limits' !! MonthKey (AddMonths from k) = Some l) ∧
  (∀ key l, limits' !! key = Some l → limits !! key = Some l ∨
    ∃ k, i ≤ k < i + Z.of_nat n ∧ key = MonthKey (AddMonths from k)) ∧
  (∀ key, (∀ k, i ≤ k < i + Z.of_nat n → key ≠ MonthKey (AddMonths from k)) → limits' !! key = limits !! key).
Proof.
  induction n as [|n IH]; intros i from growth base byMonth limits limits' H Hinj; simpl in H.
  { inv_res. split_and!; [lia|by left|done]. }
  inv_res. apply IH in H as (Hk & Hall & Hrest); [|intros k k' ? ?; apply Hinj; lia]. split_and!.
  - intros k Hki. destruct (decide (k = i)) as [->|Hne]; [|apply Hk; lia].
    exists r. split; [done|]. rewrite Hrest; [by rewrite lookup_insert_eq|].
    intros k Hki' E. apply Hinj in E; lia.
  - intros key l Hl. apply Hall in Hl as [Hl|(k & ? & ->)]; [|right; exists k; split; [lia|done]].
    destruct (decide (key = MonthKey (AddMonths from i))) as [->|Hne].
    + right. exists i. split; [lia|done].
    + left. by rewrite lookup_insert_ne in Hl.
  - intros key Hkey. rewrite Hrest by (intros k ?; apply Hkey; lia).
    rewrite lookup_insert_ne; [done|]. intros E. apply (Hkey i); [lia|done].
Qed.

Lemma expand_ref_total n : ∀ i from growth base byMonth limits,
  (∀ k, i ≤ k < i + Z.of_nat n → ∃ l, limit_for growth base byMonth (AddMonths from k) = Ok l) →
  ∃ limits', expand_ref n i from growth base byMonth limits = Ok limits'.
Proof.
  induction n as [|n IH]; intros i from growth base byMonth limits H; simpl; [by eexists|].
  destruct (H i ltac:(lia)) as [l ->]. rewrite bind_of_Ok. apply IH. intros k Hk. apply H. lia.
Qed.

(** ** The whole expansion *)

(** Inputs that pass every check, with the map read from the adjustments. *)
Definition accepted_limits (base : Amount) (from : Date) (months : Z) (growth : option SpendingLimitGrowth)
    (adjustments : list SpendingLimitAdjustment) (byMonth : gmap string SpendingLimitAdjustment) : Prop :=
  1 ≤ months ≤ 600 ∧ budgetRuleDateValid from = true ∧
  budgetRuleDateValid (EndOfMonth (AddMonths from (months - 1))) = true ∧
  Lookup (Code (cur base)) = Ok (cur base) ∧ 0 ≤ minor base ∧
  match growth with Some g => check_growth (cur base) g = Ok tt | None => True end ∧
  read_adjustments (cur base) ∅ adjustments = Ok byMonth.

Definition first_recurrence (growth : option SpendingLimitGrowth) : Date :=
  match growth with Some g => StartsOn g | None => zero_date end.

Lemma ExpandSpendingLimits_Ok base from months growth adjustments limits :
  ExpandSpendingLimits base from months growth adjustments = Ok limits ↔
  ∃ byMonth, accepted_limits base from months growth adjustments byMonth ∧
    expand_months (Z.to_nat months) 0 from (EndOfMonth (AddMonths from (months - 1))) growth byMonth base
      (first_recurrence growth) ∅ = Ok limits.
Proof.
  unfold ExpandSpendingLimits, accepted_limits, first_recurrence. rewrite Sign_neg_iff. split.
  - case_test E1; [done|]. rewrite !orb_false_iff, !Z.ltb_ge, negb_false_iff in E1. destruct E1 as [[? ?] ?].
    case_test E2; [done|]. apply negb_false_iff in E2. destruct (Lookup _) as [cr| |] eqn:El; [|done..].
    destruct (bool_decide_reflect (cur base = cr)) as [Ecr|]; [subst cr; simpl|done].
    destruct (Z.ltb_spec (minor base) 0); [done|]. intros H'. apply bind_Ok in H' as ([] & Hg & H').
    apply bind_Ok in H' as (byMonth & Ha & H'). exists byMonth. split; [|done].
    split_and!; try done; try lia. by destruct growth.
  - intros (byMonth & (Hm & Hf & Hl & Hc & Hb & Hg & Ha) & H').
    rewrite (proj2 (Z.ltb_ge months 1)), (proj2 (Z.ltb_ge 600 months)), Hf, Hl, Hc by lia. simpl.
    rewrite bool_decide_true by done. simpl. rewrite (proj2 (Z.ltb_ge _ _)) by lia.
    destruct growth as [g|]; [rewrite Hg|]; rewrite bind_of_Ok, Ha, bind_of_Ok; done.
Qed.

(** Dates as Go's date package makes them. *)
Definition calendar_inputs (from : Date) (growth : option SpendingLimitGrowth) : Prop :=
  valid from ∧ match growth with Some g => growth_dates g | None => True end.

Lemma accepted_ref base from months growth adjustments byMonth :
  calendar_inputs from growth → accepted_limits base from months growth adjustments byMonth →
  expand_months (Z.to_nat months) 0 from (EndOfMonth (AddMonths from (months - 1))) growth byMonth base
    (first_recurrence growth) ∅ = expand_ref (Z.to_nat months) 0 from growth base byMonth ∅.
Proof.
  intros [Hv Hgd] (Hm & Hf & _ & _ & _ & Hg & _). pose proof (budget_year _ Hf).
  assert (0 ≤ month_of from) as H0 by (unfold month_of, month_index; destruct Hv; lia).
  destruct Hv as [Hmo Hd]. destruct (AddMonths_facts from (months - 1) ltac:(lia) ltac:(lia)) as (Hvl & Hml & _).
  apply expand_months_ref; [done|done|lia| |].
  { rewrite month_of_EndOfMonth. lia. }
  destruct growth as [g|]; [|done]. pose proof (check_growth_Ok _ _ _ Hg) as (He & Hday & Hst & _).
  pose proof (budget_year _ Hst). destruct Hgd as [Hvs Hve].
  split_and!; try done; [unfold month_of, month_index; destruct Hvs; lia|].
  by apply ready_start.
Qed.

Lemma month_keys from months k k' :
  valid from → 1 ≤ Year from → Year (AddMonths from (months - 1)) ≤ 9999 →
  0 ≤ k < months → 0 ≤ k' < months → MonthKey (AddMonths from k) = MonthKey (AddMonths from k') → k = k'.
Proof.
  intros [Hm Hd] Hy Hl Hk Hk' H.
  assert (0 ≤ month_of from) as H0 by (unfold month_of, month_index; lia).
  assert (∀ i, 0 ≤ i < months → 1 ≤ Month (AddMonths from i) ≤ 12 ∧ 0 ≤ Year (AddMonths from i) ≤ 9999 ∧
    month_of (AddMonths from i) = month_of from + i) as Hi.
  { intros i Hi. destruct (AddMonths_facts from i ltac:(lia) ltac:(lia)) as ([Hmi _] & Ei & _).
    destruct (AddMonths_facts from (months - 1) ltac:(lia) ltac:(lia)) as ([Hml _] & El & _).
    unfold month_of, month_index in *. lia. }
  destruct (Hi k Hk) as (? & ? & E), (Hi k' Hk') as (? & ? & E').
  apply MonthKey_inj in H as [Ey Em]; [|lia..]. unfold month_of, month_index in *. rewrite Ey, Em in E. lia.
Qed.

(** Ten per cent every three months from January 2025, capped; one month
    replaced, one lowered. *)
Definition sample_growth : SpendingLimitGrowth :=
  MkGrowth 3 (MkDate 2025 1 1) zero_date no_amount 100000000 (MkAmount 13000000 AMD).
Definition sample_adjustments : list SpendingLimitAdjustment :=
  [MkAdjustment "2025-05" (Some (MkAmount 4000000 AMD)) None;
   MkAdjustment "2025-08" None (Some (MkAmount (-1000000) AMD))].

(** Growth rounds the whole figure: a base that is not in settlement units can
    come out lower than it went in. *)
Example growth_can_lower :
  growSpendingLimit (MkAmount 14 AMD) (MkGrowth 1 (MkDate 2025 1 1) zero_date no_amount 1 no_amount) =
    Ok (MkAmount 10 AMD).
Proof. vm_compute. reflexivity. Qed.

(** * Properties *)

(** C39. Each month has its own limit. The expansion walks the months once and
    compounds as it goes, and what it answers is, month by month, the limit
    computed for that month alone: the base grown by the recurrences that fall
    by the end of the month and within the end date, counted in closed form,
    then replaced or shifted by the month's adjustment, never negative. There
    is one entry per month and no other. The walk always ends: with inputs that
    pass the checks it fails only if some month's own limit does. *)
Theorem ExpandSpendingLimits_by_month base from months growth adjustments :
  calendar_inputs from growth →
  (∀ limits, ExpandSpendingLimits base from months growth adjustments = Ok limits →
    ∃ byMonth, accepted_limits base from months growth adjustments byMonth ∧
      (∀ i, 0 ≤ i < months → ∃ l, limit_for growth base byMonth (AddMonths from i) = Ok l ∧
        0 ≤ minor l ∧ limits !! MonthKey (AddMonths from i) = Some l) ∧
      (∀ key l, limits !! key = Some l → ∃ i, 0 ≤ i < months ∧ key = MonthKey (AddMonths from i))) ∧
  (∀ byMonth, accepted_limits base from months growth adjustments byMonth →
    (∀ i, 0 ≤ i < months → ∃ l, limit_for growth base byMonth (AddMonths from i) = Ok l) →
    ∃ limits, ExpandSpendingLimits base from months growth adjustments = Ok limits).
Proof.
  intros Hdates. split.
  - intros limits H. apply ExpandSpendingLimits_Ok in H as (byMonth & Hacc & H).
    rewrite (accepted_ref _ _ _ _ _ _ Hdates Hacc) in H. exists byMonth. split; [done|].
    pose proof Hacc as (Hm & Hf & Hl & _). pose proof (budget_year _ Hf). pose proof (budget_year _ Hl).
    apply expand_ref_lookup in H as (Hk & Hall & _);
      [|intros k k' ? ?; apply (month_keys from months); (apply Hdates || simpl in *; lia)].
    rewrite Z2Nat.id in Hk, Hall by lia. split.
    + intros i Hi. destruct (Hk i ltac:(lia)) as (l & Hl' & Hlook). exists l. split_and!; [done| |done].
      unfold limit_for in Hl'. inv_res. rewrite Sign_neg_iff in Hl'.
      destruct (Z.ltb_spec (minor r0) 0); [done|]. by inv_res.
    + intros key l Hlook. by apply Hall in Hlook as [|].
  - intros byMonth Hacc Hfor. destruct (expand_ref_total (Z.to_nat months) 0 from growth base byMonth ∅) as [limits H].
    { intros k Hk. apply Hfor. lia. }
    exists limits. apply ExpandSpendingLimits_Ok. exists byMonth. split; [done|].
    by rewrite (accepted_ref _ _ _ _ _ _ Hdates Hacc).
Qed.

Definition sample_limits : pres (gmap string Amount) :=
  ExpandSpendingLimits (MkAmount 10000000 AMD) (MkDate 2024 12 31) 12 (Some sample_growth) sample_adjustments.

Example sample_limits_months :
  (sample_limits ≫= λ m, Ok (m !! "2024-12", m !! "2025-02", m !! "2025-05", m !! "2025-08", m !! "2025-11")) =
  Ok (Some (MkAmount 10000000 AMD), Some (MkAmount 11000000 AMD), Some (MkAmount 4000000 AMD),
      Some (MkAmount 12000000 AMD), Some (MkAmount 13000000 AMD)).
Proof. vm_compute. reflexivity. Qed.

Lemma sample_limits_ok : ∃ limits, sample_limits = Ok limits.
Proof.
  assert (is_ok sample_limits = true) as H by (vm_compute; reflexivity).
  destruct sample_limits as [limits| |]; [by exists limits|done..].
Qed.

Lemma ExpandSpendingLimits_by_month_witness :
  ∃ limits byMonth, sample_limits = Ok limits ∧
    ∃ l, limit_for (Some sample_growth) (MkAmount 10000000 AMD) byMonth (AddMonths (MkDate 2024 12 31) 5) = Ok l ∧
      0 ≤ minor l ∧ limits !! MonthKey (AddMonths (MkDate 2024 12 31) 5) = Some l.
Proof.
  destruct sample_limits_ok as [limits E].
  destruct (ExpandSpendingLimits_by_month (MkAmount 10000000 AMD) (MkDate 2024 12 31) 12 (Some sample_growth)
    sample_adjustments) as [H _]; [repeat split; done|].
  destruct (H limits E) as (byMonth & _ & Hi & _). exists limits, byMonth. split; [exact E|].
  apply (Hi 5). split; [discriminate|reflexivity].
Defined.

(** ** Released payments *)

(** What a rule keeps of a released amount, in exact arithmetic. *)
Definition kept_exact (cr : Currency) (rule : string) (retain percentPPB released : Z) : Z :=
  Z.min released
    (if String.eqb rule ReleaseAll then 0
     else if String.eqb rule RollAmount then retain
     else round_div HalfUp (released * percentPPB) (1000000000 * SettlementUnit cr) * SettlementUnit cr).

Lemma kept_by_Ok cr released rule retain ppb kept :
  1 ≤ SettlementUnit cr → cur released = cr → 0 ≤ minor released ≤ MaxInt64 →
  kept_by cr released rule retain ppb = Ok kept →
  cur kept = cr ∧ 0 ≤ minor kept ∧
  Z.min (minor released) (minor kept) = kept_exact cr rule (minor retain) ppb (minor released).
Proof.
  intros Hu Hc Hm. unfold kept_by, kept_exact. destruct (String.eqb rule ReleaseAll).
  { intros H. inv_res. simpl. split_and!; done || lia. }
  destruct (String.eqb rule RollAmount).
  { destruct (bool_decide_reflect (cur retain = cr)); [|done]. rewrite Sign_neg_iff.
    destruct (Z.ltb_spec (minor retain) 0); [done|]. cbn [negb orb]. intros H'. inv_res. split_and!; done || lia. }
  destruct (String.eqb rule RollPercent); [|done].
  destruct (Z.ltb_spec ppb 0), (Z.ltb_spec 1000000000 ppb); try done. cbn [orb].
  unfold kept_percent, DefaultPolicy. cbn [Unit]. rewrite big_half_up_exact by nia. rewrite bind_of_Ok.
  set (k := round_div _ _ _). assert (0 ≤ k) by (apply round_div_nonneg; nia).
  destruct (Z.ltb_spec (minor released) (k * SettlementUnit cr)) as [Hlt|Hge]; intros H'.
  - inv_res. split_and!; [done|lia|]. rewrite Z.min_id, Z.min_l; lia.
  - unfold is_int64, MinInt64 in H'. rewrite (proj2 (Z.leb_le _ (k * SettlementUnit cr))) in H' by nia.
    rewrite (proj2 (Z.leb_le _ MaxInt64)) in H' by lia. simpl in H'. inv_res. simpl. split_and!; [done|nia|done].
Qed.

(** The permission a released payment takes away. A reduction is answered
    only for non-negative payments of one registered currency. Without
    confirmation, without a fall in the payment, or under a rule that rolls
    everything, it is zero; otherwise it is the fall less what the rule keeps,
    exactly: nothing, the stated amount, or the stated share rounded half-up to
    the settlement unit, and never more than the fall itself. *)
Theorem ReleasedReduction_exact before after rule retain ppb confirmed r :
  minor before ≤ MaxInt64 → minor after ≤ MaxInt64 →
  ReleasedReduction before after rule retain ppb confirmed = Ok r →
  Lookup (Code (cur before)) = Ok (cur before) ∧ cur after = cur before ∧ cur r = cur before ∧
  0 ≤ minor before ∧ 0 ≤ minor after ∧ 0 ≤ minor r ≤ Z.max 0 (minor before - minor after) ∧
  minor r =
    (if negb confirmed || (minor before <=? minor after) || String.eqb rule RollAll then 0
     else minor before - minor after
       - kept_exact (cur before) rule (minor retain) ppb (minor before - minor after)).
Proof.
  intros Hb Ha. unfold ReleasedReduction. destruct (Lookup _) as [known| |] eqn:El; [|done..].
  destruct (bool_decide_reflect (known = cur before)) as [->|]; [simpl|done].
  destruct (bool_decide_reflect (cur before = cur after)) as [Ec|]; [simpl|done]. rewrite !Sign_neg_iff.
  destruct (Z.ltb_spec (minor before) 0), (Z.ltb_spec (minor after) 0); try done. simpl.
  destruct confirmed; simpl; [|intros H'; inv_res; simpl; split_and!; done || lia].
  rewrite Cmp_same by (by rewrite Ec). rewrite core_of_Ok, bind_of_Ok.
  destruct (Z.ltb_spec (minor after) (minor before)) as [Hlt|Hge].
  2: { rewrite (proj2 (Z.leb_le (minor before) _)) by lia. intros H'.
    destruct (Z.ltb_spec (minor before) (minor after)); simpl in H'; inv_res; simpl; split_and!; done || lia. }
  rewrite (proj2 (Z.leb_gt (minor before) _)) by lia. simpl.
  destruct (String.eqb rule RollAll); [intros H'; inv_res; simpl; split_and!; done || lia|].
  intros H'. inv_core. apply Sub_nonneg_iff in Hr as ->; [|lia|lia|by rewrite Ec].
  pose proof (Lookup_unit _ _ El) as Hunit.
  apply kept_by_Ok in Hr0 as (Hck & Hk0 & Hk); [|lia|done|simpl; lia]. simpl in Hk.
  apply Cmp_Ok in Hr1 as [_ ->]. simpl in H'. rewrite <- Hk.
  assert ((0 <? (if minor r1 <? minor before - minor after then -1
      else if minor before - minor after <? minor r1 then 1 else 0)) = (minor before - minor after <? minor r1)) as E.
  { destruct (Z.ltb_spec (minor r1) (minor before - minor after)),
      (Z.ltb_spec (minor before - minor after) (minor r1)); done || lia. }
  rewrite E in H'. destruct (Z.ltb_spec (minor before - minor after) (minor r1)) as [Hbig|Hsmall].
  - apply Sub_nonneg_iff in H' as ->; [|simpl; lia..|done]. simpl. split_and!; done || lia.
  - apply Sub_nonneg_iff in H' as ->; [|simpl; lia|lia|simpl; by rewrite Hck]. simpl. split_and!; done || lia.
Qed.

Lemma ReleasedReduction_exact_witness :
  ReleasedReduction (MkAmount 12345670 AMD) (MkAmount 345670 AMD) RollPercent no_amount 333333333 true =
    Ok (MkAmount 8000000 AMD) ∧
  8000000 = 12000000 - kept_exact AMD RollPercent 0 333333333 12000000.
Proof.
  split; [vm_compute; reflexivity|].
  exact (proj2 (proj2 (proj2 (proj2 (proj2 (proj2
    (ReleasedReduction_exact (MkAmount 12345670 AMD) (MkAmount 345670 AMD) RollPercent no_amount 333333333 true
      (MkAmount 8000000 AMD) ltac:(discriminate) ltac:(discriminate) ltac:(vm_compute; reflexivity)))))))).
Defined.
