(* ===== verification/PlanInput.v ===== *)
(** What the planner is told: [pkg/core/plan/input.go], [goal.go], [policy.go],
    and the validation half of [spending.go] and [cash_routing.go].

    The records are Go's. [Input_Validate] is the gate every simulation passes;
    the routing checks stand in front of the money that is earmarked. *)
From S2P Require Import Prelude Money Dates Model Allocation Schedule Calendar Fees PlanBase.

Definition MaxLoans : nat := 12.
Definition DefaultHorizon : Z := 600.
Definition MaxAssumedInstalments : nat := 3.

(** * cash_routing.go: the declarations *)

Record CashSplit := MkCashSplit { SplitLoanID : string; SplitAmount : Amount }.

Record CashRouting := MkCashRouting {
  RouteLoanID : string;
  Splits : list CashSplit;
  HoldUntil : Date;
  HoldMinimum : Amount }.

(** * input.go: the declarations *)

Record Position := MkPosition {
  PosID : string;
  PosName : string;
  PosContract : Contract;
  PosBalance : Amount;
  From : Date;
  Excess : ExcessRule;
  PosTrust : string;
  OptionalExcluded : bool }.

Record CashEvent := MkCashEvent {
  CeID : string;
  Routing : option CashRouting;
  FromOpening : bool;
  CeOn : Date;
  CeAmount : Amount;
  Expected : bool }.

Record SpendingChange := MkSpendingChange {
  ScOn : Date;
  Limit : Amount;
  ScCarryRule : string;
  ScCarryMinimum : Amount;
  ScCarryUntil : Date }.

(** [ReleaseSources] and [ReleaseFacts] are kept with a stored plan and read by
    nothing in the package. *)
Record SpendingPlan := MkSpendingPlan {
  ConfirmedReleaseOnly : bool;
  CycleDay : Z;
  Changes : list SpendingChange;
  RuleError : string;
  CarryRule : string;
  CarryMinimum : Amount;
  CarryUntil : Date;
  SpMonthly : Amount;
  SpOverrides : gmap string Amount;
  Spent : Amount }.

Record CashPlan := MkCashPlan {
  CashThrough : Date;
  Spending : option SpendingPlan;
  Monthly : Amount;
  PayDay : Z;
  OpeningCash : Amount;
  ReserveFloor : Amount;
  Lumps : list CashEvent;
  MonthlyOverrides : gmap string Amount }.

Record Input := MkInput {
  ValuationDate : Date;
  Cash : CashPlan;
  Loans : list Position;
  Horizon : Z }.

Definition SeparateSpending (c : CashPlan) : bool := match Spending c with Some _ => true | None => false end.

Definition horizon (i : Input) : Z := if 0 <? Horizon i then Horizon i else DefaultHorizon.

Definition in_currency (i : Input) : Currency := cur (Monthly (Cash i)).

(** * goal.go *)

Inductive GoalKind := LeastInterest | Fastest | Relief | FirstWin.
#[export] Instance GoalKind_eq_dec : EqDecision GoalKind.
Proof. solve_decision. Defined.

Definition GoalKind_String (k : GoalKind) : string :=
  match k with
  | Fastest => "fastest" | Relief => "relief" | FirstWin => "first_win" | LeastInterest => "least_interest"
  end.

Record Goal := MkGoal { GKind : GoalKind; Cap : Amount; Free : Amount }.

Definition Goal_Validate (g : Goal) : pres unit :=
  if bool_decide (GKind g = Relief) && (Sign (Cap g) <=? 0) && (Sign (Free g) <=? 0)
  then fails "plan: relief needs a cap or an amount to free" else Ok tt.

(** * policy.go *)

Inductive Timing := OnDue | OnReceipt.
#[export] Instance Timing_eq_dec : EqDecision Timing.
Proof. solve_decision. Defined.

Inductive Rollover := RollFreed | KeepFreed.
#[export] Instance Rollover_eq_dec : EqDecision Rollover.
Proof. solve_decision. Defined.

Definition Timing_String (t : Timing) : string :=
  match t with OnReceipt => "on_receipt" | OnDue => "on_due" end.
Definition Rollover_String (r : Rollover) : string :=
  match r with KeepFreed => "keep_freed" | RollFreed => "roll_freed" end.

(** [Order] holds indices of loans. *)
Record Policy := MkPolicy {
  RequiredOnly : bool;
  PolName : string;
  Order : list nat;
  PolTiming : list Timing;
  PolEffect : list PrepaymentEffect;
  PolRollover : Rollover;
  MinPrepay : Amount }.

(** [uniformTiming] and [uniformEffect]: the common value, if there is one. *)
Definition uniform_of {A} `{EqDecision A} (none : A) (l : list A) : option A :=
  match l with
  | [] => Some none
  | x :: rest => if forallb (λ y, bool_decide (y = x)) rest then Some x else None
  end.
Definition uniformTiming (ts : list Timing) : option Timing := uniform_of OnDue ts.
Definition uniformEffect (es : list PrepaymentEffect) : option PrepaymentEffect :=
  uniform_of PrepayBorrowerChooses es.

Definition uniform {A} (n : nat) (v : A) : list A := replicate n v.
Definition identity (n : nat) : list nat := seq 0 n.

Definition slash (s : string) : string := String.append "/" s.
Definition concat_all (l : list string) : string := foldr String.append "" l.

(** [String]: the short human form. *)
Definition Policy_String (p : Policy) : string :=
  concat_all [
    PolName p;
    match uniformTiming (PolTiming p) with
    | Some t => slash (Timing_String t) | None => "/mixed_timing" end;
    match uniformEffect (PolEffect p) with
    | Some PrepayBorrowerChooses => ""
    | Some e => slash (PrepaymentEffect_String e)
    | None => "/mixed_effect" end;
    if bool_decide (PolRollover p = KeepFreed) then slash (Rollover_String (PolRollover p)) else "";
    if 0 <? Sign (MinPrepay p) then "/batch" else ""].

(** * spending.go: validation *)

Definition validateCarry (rule : string) (minimum : Amount) (until : Date) (c : Currency) : pres unit :=
  if String.eqb rule "" || String.eqb rule CarryCash || String.eqb rule NoCarry
  then
    if negb (Sign minimum =? 0) || negb (Dates.IsZero until)
    then fails "plan: unexpected carry parameters" else Ok tt
  else if String.eqb rule BatchUntil
  then
    if negb (bool_decide (cur minimum = c)) || (Sign minimum <=? 0) || negb (Dates.IsZero until)
    then fails "plan: invalid carry threshold" else Ok tt
  else if String.eqb rule CarryToDate
  then
    if negb (budgetRuleDateValid until) || negb (Sign minimum =? 0)
    then fails "plan: invalid carry date" else Ok tt
  else fails "plan: invalid carry rule".

(** The local [check] of [validateFunding]: absent, or of the funding currency
    and not negative. *)
Definition check_funding (c : Currency) (a : Amount) : pres unit :=
  if String.eqb (Code (cur a)) "" && (Sign a =? 0) then Ok tt
  else if negb (String.eqb (Code (cur a)) (Code c)) then Err (MixedCurrencyError (Code (cur a)) (Code c))
  else if Sign a <? 0 then fails "plan: funding and spending amounts must be non-negative"
  else Ok tt.

(** A loop that returns at the first error. *)
Fixpoint each {A} (f : A → pres unit) (l : list A) : pres unit :=
  match l with
  | [] => Ok tt
  | x :: l => _ ← f x; each f l
  end.

Definition check_lump (c : Currency) (valuation : Date) (l : CashEvent) : pres unit :=
  if Dates.IsZero (CeOn l) || Before (CeOn l) valuation then fails "plan: cash event precedes valuation"
  else check_funding c (CeAmount l).

(** [prev] is the change before this one. *)
Fixpoint check_changes (c : Currency) (prev : option SpendingChange) (l : list SpendingChange) : pres unit :=
  match l with
  | [] => Ok tt
  | ch :: l =>
      _ ← validateCarry (ScCarryRule ch) (ScCarryMinimum ch) (ScCarryUntil ch) c;
      if negb (budgetRuleDateValid (ScOn ch)) ||
        match prev with Some p => negb (After (ScOn ch) (ScOn p)) | None => false end
      then fails "plan: spending changes must be strictly dated"
      else if negb (bool_decide (cur (Limit ch) = c)) then fails "plan: invalid spending change currency"
      else _ ← check_funding c (Limit ch); check_changes c (Some ch) l
  end.

Definition check_spending_month (c : Currency) (entry : string * Amount) : pres unit :=
  match parse_month (fst entry) with
  | Panic w => Panic w
  | Err _ => fails "plan: invalid spending month %q"
  | Ok d =>
      if negb (String.eqb (MonthKey d) (fst entry)) then fails "plan: invalid spending month %q"
      else check_funding c (snd entry)
  end.

(** Which of several bad map entries is reported depends on the order Go walks
    the map in; here it is the order of [map_to_list]. *)
Definition check_spending (c : CashPlan) (sp : SpendingPlan) : pres unit :=
  let cr := cur (Monthly c) in
  if negb (String.eqb (RuleError sp) "") then unsupported "" (RuleError sp)
  else if (CycleDay sp <? 0) || (31 <? CycleDay sp) then fails "plan: invalid spending cycle"
  else
    _ ← validateCarry (CarryRule sp) (CarryMinimum sp) (CarryUntil sp) cr;
    _ ← check_changes cr None (Changes sp);
    if PayDay c =? 0 then unsupported "" "explicit funding requires a known payday"
    else
      _ ← each (check_funding cr) [SpMonthly sp; Spent sp];
      each (check_spending_month cr) (map_to_list (SpOverrides sp)).

Definition validateFunding (c : CashPlan) (valuation : Date) : pres unit :=
  if After (CashThrough c) valuation then fails "plan: cash statement is in the future"
  else
    let cr := cur (Monthly c) in
    _ ← each (check_funding cr) [Monthly c; OpeningCash c; ReserveFloor c];
    _ ← each (check_lump cr valuation) (Lumps c);
    match Spending c with
    | None => Ok tt
    | Some sp => check_spending c sp
    end.

Definition cycle_day (p : SpendingPlan) : Z := if CycleDay p =? 0 then 1 else CycleDay p.

(** The start of the permission cycle a date falls in, and the start of the next. *)
Definition PeriodStart (p : SpendingPlan) (on : Date) : Date :=
  let start := OnDayOfMonth on (cycle_day p) in
  if After start on then OnDayOfMonth (AddMonths on (-1)) (cycle_day p) else start.

Definition periodEnd (p : SpendingPlan) (on : Date) : Date :=
  OnDayOfMonth (AddMonths (PeriodStart p on) 1) (cycle_day p).

(** * cash_routing.go: validation *)

Definition routing_fails {A} (reason : string) : pres A :=
  unsupported "" (String.append "cash routing: " reason).

(** [strategies.go]: identifiers are unique and not empty. *)
Fixpoint validateStrategyIDs (seen : gset string) (ls : list Position) : pres unit :=
  match ls with
  | [] => Ok tt
  | l :: ls =>
      if String.eqb (PosID l) "" || bool_decide (PosID l ∈ seen)
      then unsupported "" "strategy requires unique nonempty stable loan IDs"
      else validateStrategyIDs ({[PosID l]} ∪ seen) ls
  end.

Definition settlement_unit (l : Position) (c : Currency) : Z :=
  let unit := Unit (Rounding (PosContract l)) in
  let unit := if unit <? 1 then SettlementUnit c else unit in
  if unit <? 1 then 1 else unit.

(** The local [target]: the earmarked loan can take the money. *)
Fixpoint check_target (ls : list Position) (c : Currency) (id : string) (amount : Amount) : pres unit :=
  match ls with
  | [] => routing_fails "unknown target loan ID"
  | l :: ls =>
      if String.eqb (PosID l) id
      then
        if (Sign (PosBalance l) <=? 0) || OptionalExcluded l
        then routing_fails "target is closed or excluded"
        else if negb (bool_decide (Excess l = ExcessReducePrincipal))
        then routing_fails "target requires verified immediate principal credit"
        else
          r ← irem (minor amount) (settlement_unit l c);
          if negb (r =? 0) then routing_fails "target amount is not settlement aligned" else Ok tt
      else check_target ls c id amount
  end.

(** The splits of one receipt: their running sum, or the first fault. *)
Fixpoint check_splits (ls : list Position) (c : Currency) (ids : gset string) (sum : Amount)
    (parts : list CashSplit) : pres Amount :=
  match parts with
  | [] => Ok sum
  | p :: parts =>
      if String.eqb (SplitLoanID p) "" || bool_decide (SplitLoanID p ∈ ids) ||
        negb (bool_decide (cur (SplitAmount p) = c)) || (Sign (SplitAmount p) <=? 0)
      then routing_fails "split needs unique targets and positive same-currency amounts"
      else
        _ ← check_target ls c (SplitLoanID p) (SplitAmount p);
        sum ← core (Add sum (SplitAmount p));
        check_splits ls c ({[SplitLoanID p]} ∪ ids) sum parts
  end.

Definition bad_threshold (r : CashRouting) (c : Currency) : bool :=
  (Sign (HoldMinimum r) <? 0) ||
  (negb (String.eqb (Code (cur (HoldMinimum r))) "") && negb (bool_decide (cur (HoldMinimum r) = c))) ||
  ((0 <? Sign (HoldMinimum r)) && negb (bool_decide (cur (HoldMinimum r) = c))).

Definition no_splits (r : CashRouting) : bool := Nat.eqb (length (Splits r)) 0.

(** The instruction of one routed receipt. *)
Definition check_routing (i : Input) (event : CashEvent) (r : CashRouting) : pres unit :=
  let c := in_currency i in
  if String.eqb (CeID event) "" then routing_fails "routed event requires a stable ID"
  else if negb (bool_decide (cur (CeAmount event) = c)) || (Sign (CeAmount event) <=? 0)
  then routing_fails "positive event amount in funding currency required"
  else if negb (Dates.IsZero (HoldUntil r)) &&
    (negb (budgetRuleDateValid (HoldUntil r)) || Before (HoldUntil r) (CeOn event))
  then routing_fails "hold date precedes receipt or is invalid"
  else if bad_threshold r c then routing_fails "invalid hold threshold"
  else if negb (String.eqb (RouteLoanID r) "") && negb (no_splits r)
  then routing_fails "loan earmark and split are mutually exclusive"
  else if String.eqb (RouteLoanID r) "" && no_splits r && Dates.IsZero (HoldUntil r) &&
    (Sign (HoldMinimum r) =? 0)
  then routing_fails "empty routing instruction"
  else
    _ ← (if negb (String.eqb (RouteLoanID r) "")
         then check_target (Loans i) c (RouteLoanID r) (CeAmount event) else Ok tt);
    sum ← check_splits (Loans i) c ∅ (Zero c) (Splits r);
    if no_splits r then Ok tt
    else
      cmp ← core (Cmp sum (CeAmount event));
      if negb (cmp =? 0) then routing_fails "split amounts must exactly equal the event amount" else Ok tt.

Definition is_routed (event : CashEvent) : bool :=
  match Routing event with Some _ => true | None => false end.

(** One receipt: the identifiers seen and the retained opening cash so far. *)
Definition check_event (i : Input) (seen : gset string) (opening : Amount) (event : CashEvent) :
    pres (gset string * Amount) :=
  let c := in_currency i in
  if negb (String.eqb (CeID event) "") && bool_decide (CeID event ∈ seen)
  then routing_fails "duplicate event ID"
  else
    let seen := if String.eqb (CeID event) "" then seen else {[CeID event]} ∪ seen in
    if is_routed event && (negb (bool_decide (cur (CeAmount event) = c)) || (Sign (CeAmount event) <=? 0))
    then routing_fails "positive event amount in funding currency required"
    else
      opening ←
        (if FromOpening event
         then
           if negb (is_routed event) || Expected event || negb (Equal (CeOn event) (ValuationDate i))
           then routing_fails "retained cash must be confirmed, routed and dated at valuation"
           else core (Add opening (CeAmount event))
         else Ok opening);
      match Routing event with
      | None => Ok (seen, opening)
      | Some r => _ ← check_routing i event r; Ok (seen, opening)
      end.

Fixpoint check_events (i : Input) (seen : gset string) (opening : Amount) (events : list CashEvent) :
    pres Amount :=
  match events with
  | [] => Ok opening
  | e :: events =>
      '(seen, opening) ← check_event i seen opening e;
      check_events i seen opening events
  end.

Definition or_zero (a : Amount) (c : Currency) : Amount :=
  if String.eqb (Code (cur a)) "" then Zero c else a.

Definition validateCashRouting (i : Input) : pres unit :=
  let c := in_currency i in
  if negb (existsb (λ e, is_routed e || FromOpening e) (Lumps (Cash i))) then Ok tt
  else
    _ ← validateStrategyIDs ∅ (Loans i);
    opening ← check_events i ∅ (Zero c) (Lumps (Cash i));
    cmp ← core (Cmp opening (or_zero (OpeningCash (Cash i)) c));
    if 0 <? cmp then routing_fails "retained allocations exceed opening cash" else Ok tt.

(** * input.go: validation *)

(** [fmt.Sscanf] with [%d]: white space, a sign, digits, an [int]. *)
Definition is_digit (ch : Ascii.ascii) : bool :=
  match digit_val ch with Some _ => true | None => false end.

(** Every ASCII space but the newline, which is an error. *)
Definition scan_space (ch : Ascii.ascii) : bool :=
  let n := Ascii.nat_of_ascii ch in
  Nat.eqb n 32 || Nat.eqb n 9 || Nat.eqb n 11 || Nat.eqb n 12 || Nat.eqb n 13.

Fixpoint span (f : Ascii.ascii → bool) (l : list Ascii.ascii) : list Ascii.ascii * list Ascii.ascii :=
  match l with
  | [] => ([], [])
  | x :: l' => if f x then let '(a, b) := span f l' in (x :: a, b) else ([], l)
  end.

Definition scan_d (l : list Ascii.ascii) : option (Z * list Ascii.ascii) :=
  let '(_, l) := span scan_space l in
  let '(sign, l) :=
    match l with
    | ch :: l' =>
        if bool_decide (ch = dash) then (-1, l')
        else if Nat.eqb (Ascii.nat_of_ascii ch) 43 then (1, l') else (1, l)
    | [] => (1, l)
    end in
  let '(ds, rest) := span is_digit l in
  match ds with
  | [] => None
  | _ => n ← digits_val ds;
      if (MinInt64 <=? sign * n) && (sign * n <=? MaxInt64) then Some (sign * n, rest) else None
  end.

(** [fmt.Sscanf(k, "%d-%d", &y, &m)]: what follows the second number is not
    looked at. *)
Definition scan_month (k : string) : option (Z * Z) :=
  '(y, rest) ← scan_d (String.list_ascii_of_string k);
  match rest with
  | ch :: rest =>
      if bool_decide (ch = dash) then '(m, _) ← scan_d rest; Some (y, m) else None
  | [] => None
  end.

Definition check_month_override (c : Currency) (entry : string * Amount) : pres unit :=
  match scan_month (fst entry) with
  | None => fails "plan: budget override key %q is not a month"
  | Some (y, m) =>
      if (m <? 1) || (12 <? m) || (y <? 1900) || (9999 <? y)
      then fails "plan: budget override key %q is not a month"
      else if negb (String.eqb (Code (cur (snd entry))) (Code c))
      then Err (MixedCurrencyError (Code (cur (snd entry))) (Code c))
      else if Sign (snd entry) <? 0 then fails "plan: budget override %q is negative"
      else Ok tt
  end.

Definition check_loan (i : Input) (l : Position) : pres unit :=
  let want := Code (in_currency i) in
  if negb (String.eqb (Code (ContractCurrency (PosContract l))) want)
  then Err (MixedCurrencyError (Code (ContractCurrency (PosContract l))) want)
  else if negb (String.eqb (Code (cur (PosBalance l))) want)
  then Err (MixedCurrencyError (Code (cur (PosBalance l))) want)
  else if After (From l) (ValuationDate i)
  then unsupported (PosID l) "balance anchored after the valuation date"
  else if negb (bool_decide (Type_ (PosContract l) = Annuity)) &&
    negb (bool_decide (Type_ (PosContract l) = DecliningPrincipal))
  then unsupported (PosID l) (String.append "repayment type " (RepaymentType_String (Type_ (PosContract l))))
  else if NominalRate (PosContract l) <? 0 then unsupported (PosID l) "negative rate"
  else Ok tt.

Definition Input_Validate (i : Input) : pres unit :=
  if Nat.eqb (length (Loans i)) 0 then sentinel_err ErrNoLoans
  else if Nat.ltb MaxLoans (length (Loans i)) then Err (TruncatedError (Z.of_nat MaxLoans))
  else if Dates.IsZero (ValuationDate i) then fails "plan: valuation date is required"
  else if (PayDay (Cash i) <? 0) || (31 <? PayDay (Cash i)) then fails "plan: pay day %d out of range"
  else
    _ ← validateCashRouting i;
    _ ← validateFunding (Cash i) (ValuationDate i);
    _ ← each (check_loan i) (Loans i);
    each (check_month_override (in_currency i)) (map_to_list (MonthlyOverrides (Cash i))).

(** * input.go: bringing balances to the valuation date *)

Definition set_anchor (p : Position) (balance : Amount) (from : Date) : Position :=
  MkPosition (PosID p) (PosName p) (PosContract p) balance from (Excess p) (PosTrust p) (OptionalExcluded p).

(** The loop over one position, [n] instalments in; [first] is the anchor it was
    filed with. Three rounds that assume an instalment and a fourth that
    refuses are all there can be. *)
Fixpoint advance (fuel : nat) (valuation first : Date) (p : Position) (n : nat) : pres (Position * nat) :=
  if Sign (PosBalance p) <=? 0 then Ok (p, n)
  else match RemainingDates (PosContract p) (From p) with
    | Panic w => Panic w
    | Err _ => Ok (p, n)
    | Ok [] => Panic "index out of range [0] with length 0"
    | Ok (d :: _) =>
        if negb (Before d valuation) then Ok (p, n)
        else match fuel with
          | O => Err (StaleBalanceError (PosID p) first (Z.of_nat n + 1))
          | S fuel =>
              match Build (PosContract p) (PosBalance p) (From p) with
              | Panic w => Panic w
              | Err e => Err (Core (Wrapf "plan: advancing %s to %s: %w" e))
              | Ok s =>
                  match Rows s with
                  | [] => fails "plan: advancing %s to %s: %w"
                  | r :: _ => advance fuel valuation first (set_anchor p (Closing r) (Due r)) (S n)
                  end
              end
          end
    end.

Fixpoint normalize_loans (valuation : Date) (ls : list Position) (assumed : gmap string nat) :
    pres (list Position * gmap string nat) :=
  match ls with
  | [] => Ok ([], assumed)
  | p :: ls =>
      '(q, n) ← advance MaxAssumedInstalments valuation (From p) p 0;
      let assumed := if Nat.ltb 0 n then <[PosID q := n]> assumed else assumed in
      '(qs, assumed) ← normalize_loans valuation ls assumed;
      Ok (q :: qs, assumed)
  end.

Definition Normalize (i : Input) : pres (Input * gmap string nat) :=
  _ ← Input_Validate i;
  '(ls, assumed) ← normalize_loans (ValuationDate i) (Loans i) ∅;
  Ok (MkInput (ValuationDate i) (Cash i) ls (Horizon i), assumed).

(** * Lemmas *)

(** ** Permission cycles *)

Lemma time_lt_iff a b :
  valid a → valid b → time a < time b ↔ month_of a < month_of b ∨ month_of a = month_of b ∧ Day a < Day b.
Proof.
  intros Ha Hb. rewrite <- (Compare_lt a b Ha Hb). rewrite <- !Z.ltb_lt, <- Before_time by done. done.
Qed.

Lemma month_of_split a b : valid a → valid b → month_of a = month_of b → Year a = Year b ∧ Month a = Month b.
Proof. unfold valid, month_of, month_index. lia. Qed.

Lemma same_date a b : valid a → valid b → month_of a = month_of b → Day a = Day b → a = b.
Proof.
  intros Ha Hb Hm Hd. destruct (month_of_split a b Ha Hb Hm). destruct a, b. simpl in *. congruence.
Qed.

(** [s] starts a cycle in month [m]. *)
Definition cycle_start (p : SpendingPlan) (m : Z) (s : Date) : Prop :=
  valid s ∧ month_of s = m ∧ Day s = Z.min (cycle_day p) (month_len (Year s) (Month s)).

Lemma cycle_start_unique p m s s' : cycle_start p m s → cycle_start p m s' → s = s'.
Proof.
  intros (Hv & Hm & Hd) (Hv' & Hm' & Hd'). destruct (month_of_split s s') as [Ey Em]; [done|done|congruence|].
  apply same_date; [done|done|congruence|]. by rewrite Hd, Hd', Ey, Em.
Qed.

Lemma cycle_day_range p : 0 ≤ CycleDay p ≤ 31 → 1 ≤ cycle_day p.
Proof. unfold cycle_day. destruct (Z.eqb_spec (CycleDay p) 0); lia. Qed.

Lemma OnDay_cycle p on : 0 ≤ CycleDay p ≤ 31 → valid on → cycle_start p (month_of on) (OnDayOfMonth on (cycle_day p)).
Proof.
  intros Hp [Hm _]. destruct (OnDayOfMonth_facts on (cycle_day p) Hm) as (Hv & Em & Hd).
  pose proof (cycle_day_range p Hp). split_and!; [done|done|]. rewrite Hd, Z.max_r by lia. done.
Qed.

Lemma AddMonths_cycle p on n :
  0 ≤ CycleDay p ≤ 31 → valid on → 0 ≤ month_of on + n →
  cycle_start p (month_of on + n) (OnDayOfMonth (AddMonths on n) (cycle_day p)).
Proof.
  intros Hp [_ [Hd _]] Hn. destruct (AddMonths_facts on n Hd Hn) as (Hv & Em & _).
  rewrite <- Em. by apply OnDay_cycle.
Qed.

Lemma After_time_iff a b : valid a → valid b → After a b = true ↔ time b < time a.
Proof. intros. by rewrite After_time, Z.ltb_lt by done. Qed.

Lemma PeriodStart_cycle p on :
  0 ≤ CycleDay p ≤ 31 → valid on → 1 ≤ month_of on →
  ∃ m, cycle_start p m (PeriodStart p on) ∧ m ≤ month_of on ≤ m + 1 ∧ time (PeriodStart p on) ≤ time on ∧
    (m + 1 = month_of on → ∀ e, cycle_start p (m + 1) e → time on < time e).
Proof.
  intros Hp Hv Hm. pose proof (OnDay_cycle p on Hp Hv) as Hs. unfold PeriodStart.
  destruct (After (OnDayOfMonth on (cycle_day p)) on) eqn:Ea.
  - apply After_time_iff in Ea; [|apply Hs|done]. pose proof (AddMonths_cycle p on (-1) Hp Hv ltac:(lia)) as Hs'.
    exists (month_of on + -1). split_and!; [done|lia|lia| |].
    + assert (time (OnDayOfMonth (AddMonths on (-1)) (cycle_day p)) < time on); [|lia].
      apply time_lt_iff; [apply Hs'|done|]. left. destruct Hs' as (_ & -> & _). lia.
    + intros _ e He. replace (month_of on + -1 + 1) with (month_of on) in He by lia.
      by rewrite (cycle_start_unique _ _ _ _ He Hs).
  - exists (month_of on). split_and!; [done|lia|lia| |lia].
    apply Z.nlt_ge. rewrite <- After_time_iff; [|apply Hs|done]. by rewrite Ea.
Qed.

Lemma periodEnd_cycle p on m :
  0 ≤ CycleDay p ≤ 31 → cycle_start p m (PeriodStart p on) → 0 ≤ m → cycle_start p (m + 1) (periodEnd p on).
Proof.
  intros Hp Hc Hm. pose proof Hc as (Hv & Em & _). unfold periodEnd. rewrite <- Em.
  apply AddMonths_cycle; [done|done|lia].
Qed.

(** ** Assumed instalments *)

(** [q] is [p] after [k] contractual instalments, each due before the valuation
    date and paid as the schedule says. *)
Inductive assumes (valuation : Date) : Position → nat → Position → Prop :=
| assumes_none p : assumes valuation p 0 p
| assumes_one p d ds s r rows k q :
    0 < minor (PosBalance p) →
    RemainingDates (PosContract p) (From p) = Ok (d :: ds) → Before d valuation = true →
    Build (PosContract p) (PosBalance p) (From p) = Ok s → Rows s = r :: rows →
    assumes valuation (set_anchor p (Closing r) (Due r)) k q →
    assumes valuation p (S k) q.

(** Nothing more to assume: settled, or no bank date before the valuation. *)
Definition anchored (valuation : Date) (q : Position) : Prop :=
  minor (PosBalance q) ≤ 0 ∨ (∃ e, RemainingDates (PosContract q) (From q) = Err e) ∨
  ∃ d ds, RemainingDates (PosContract q) (From q) = Ok (d :: ds) ∧ Before d valuation = false.

Lemma advance_spec valuation first fuel : ∀ p n q m,
  advance fuel valuation first p n = Ok (q, m) →
  ∃ k, m = (n + k)%nat ∧ (k ≤ fuel)%nat ∧ assumes valuation p k q ∧ anchored valuation q.
Proof.
  induction fuel as [|fuel IH]; intros p n q m H; simpl in H; rewrite Sign_nonpos_iff in H;
    (destruct (Z.leb_spec (minor (PosBalance p)) 0) as [Hz|Hpos];
      [inv_res; exists 0%nat; split_and!; [lia|lia|constructor|by left]|]);
    destruct (RemainingDates _ _) as [[|d ds]|e|w] eqn:Er; try done;
    try (inv_res; exists 0%nat; split_and!; [lia|lia|constructor|right; left; by eexists]);
    (destruct (Before d valuation) eqn:Eb; simpl in H;
      [|inv_res; exists 0%nat; split_and!; [lia|lia|constructor|right; right; by exists d, ds]]); [done|].
  destruct (Build _ _ _) as [s|e|w] eqn:Es; [|done..]. destruct (Rows s) as [|r rows] eqn:Erows; [done|].
  apply IH in H as (k & -> & Hk & Hsteps & Hq). exists (S k). split_and!; [lia|lia| |done].
  by eapply assumes_one.
Qed.

(** A refusal comes only after as many instalments as may be assumed, with one
    more still due. *)
Lemma advance_stale valuation first fuel : ∀ p n id on k,
  advance fuel valuation first p n = Err (StaleBalanceError id on k) →
  id = PosID p ∧ on = first ∧ k = Z.of_nat (n + fuel) + 1 ∧
  ∃ q, assumes valuation p fuel q ∧ ¬ anchored valuation q.
Proof.
  induction fuel as [|fuel IH]; intros p n id on k H; simpl in H; rewrite Sign_nonpos_iff in H;
    destruct (Z.leb_spec (minor (PosBalance p)) 0) as [Hz|Hpos]; try done;
    destruct (RemainingDates _ _) as [[|d ds]|e|w] eqn:Er; try done;
    destruct (Before d valuation) eqn:Eb; try done; simpl in H.
  - injection H as <- <- <-. split_and!; [done|done|lia|]. exists p. split; [constructor|].
    intros [?|[[e He]|(d' & ds' & He & Hb)]]; [lia|congruence|congruence].
  - destruct (Build _ _ _) as [s|e|w] eqn:Es; try done. destruct (Rows s) as [|r rows] eqn:Erows; [done|].
    apply IH in H as (-> & -> & -> & q & Hsteps & Hq). split_and!; [done|done|lia|]. exists q.
    split; [by eapply assumes_one|done].
Qed.

Lemma assumes_same valuation p k q :
  assumes valuation p k q → PosID q = PosID p ∧ PosContract q = PosContract p ∧ Excess q = Excess p ∧
  OptionalExcluded q = OptionalExcluded p.
Proof. induction 1; [done|]. naive_solver. Qed.

Lemma normalize_loans_spec valuation ls : ∀ assumed qs assumed',
  normalize_loans valuation ls assumed = Ok (qs, assumed') →
  Forall2 (λ p q, ∃ k, (k ≤ MaxAssumedInstalments)%nat ∧ assumes valuation p k q ∧ anchored valuation q) ls qs ∧
  (∀ id n, assumed' !! id = Some n → assumed !! id = Some n ∨
    ∃ p q, p ∈ ls ∧ PosID p = id ∧ (0 < n)%nat ∧ assumes valuation p n q).
Proof.
  induction ls as [|p ls IH]; intros assumed qs assumed' H; cbn [normalize_loans] in H.
  { inv_res. split; [constructor|by left]. }
  apply bind_Ok in H as ([q n] & Hadv & H). cbv beta iota zeta in H.
  apply bind_Ok in H as ([qs1 assumed1] & Hrest & H). injection H as <- <-.
  apply advance_spec in Hadv as (k & -> & Hk & Hsteps & Hq). apply IH in Hrest as [H2 Ha].
  pose proof (assumes_same _ _ _ _ Hsteps) as (Eid & _). split.
  - constructor; [|done]. by exists k.
  - intros id n Hn. apply Ha in Hn as [Hn|(p' & q' & Hp' & ? & ? & ?)];
      [|right; exists p', q'; split_and!; [by right|done..]].
    destruct (Nat.ltb_spec 0 (0 + k)) as [Hpos|]; [|by left].
    destruct (decide (PosID q = id)) as [<-|Hne]; [|rewrite lookup_insert_ne in Hn by done; by left].
    rewrite lookup_insert_eq in Hn. injection Hn as <-. right. exists p, q. split_and!; [by left|done|lia|done].
Qed.

(** A month override keyed "2026-1" passes validation, and no month is ever
    looked up under that key: the stated figure is never used. *)
Example override_never_read :
  check_month_override AMD ("2026-1", MkAmount 4000000 AMD) = Ok tt ∧
  ∀ d, 1 ≤ Month d ≤ 12 → 0 ≤ Year d ≤ 9999 → MonthKey d ≠ "2026-1".
Proof.
  split; [vm_compute; reflexivity|]. intros d Hm Hy H. unfold MonthKey in H.
  destruct (Sprintf_04d_digits (Year d) Hy) as (a & b & c & e & E & _).
  destruct (Sprintf_02d_digits (Month d) ltac:(lia)) as (x & y & E' & _).
  rewrite E, E' in H. simpl in H. discriminate H.
Qed.

(** * Properties *)

Definition sample_spending (day : Z) : SpendingPlan :=
  MkSpendingPlan false day [] "" "" no_amount zero_date (MkAmount 25000000 AMD) ∅ no_amount.

(** A date lies in its cycle, and the next cycle starts a month later. *)
Lemma period_bounds p on :
  0 ≤ CycleDay p ≤ 31 → valid on → 12 ≤ month_of on →
  ∃ m, cycle_start p m (PeriodStart p on) ∧ cycle_start p (m + 1) (periodEnd p on) ∧ 0 ≤ m ≤ month_of on ≤ m + 1 ∧
    time (PeriodStart p on) ≤ time on < time (periodEnd p on).
Proof.
  intros Hp Hv Hm. destruct (PeriodStart_cycle p on Hp Hv ltac:(lia)) as (m & Hs & Hmo & Hle & Hlt).
  pose proof (periodEnd_cycle p on m Hp Hs ltac:(lia)) as He. pose proof He as (Hve & Eme & _).
  exists m. split_and!; [done|done|lia..|]. destruct (decide (m + 1 = month_of on)) as [E|]; [by apply Hlt|].
  apply month_of_lt_time; [done|done|lia].
Qed.

(** Permission cycles tile the calendar. Every date lies in exactly one
    cycle: from its start, inclusive, to the start of the next, exclusive; the
    starts are one month apart, on the cycle day or the last day of a shorter
    month, and every date in between has the same start. *)
Theorem PeriodStart_tiles p on :
  0 ≤ CycleDay p ≤ 31 → valid on → 12 ≤ month_of on →
  let s := PeriodStart p on in let e := periodEnd p on in
  valid s ∧ valid e ∧ time s ≤ time on < time e ∧ month_of e = month_of s + 1 ∧
  Day s = Z.min (cycle_day p) (month_len (Year s) (Month s)) ∧
  ∀ d, valid d → time s ≤ time d < time e → PeriodStart p d = s.
Proof.
  intros Hp Hv Hm s e. destruct (period_bounds p on Hp Hv Hm) as (m & Hs & He & Hmo & Hin).
  fold s in Hs, Hin. fold e in He, Hin.
  pose proof Hs as (Hvs & Ems & Hds). pose proof He as (Hve & Eme & _).
  split; [done|]. split; [done|]. split; [done|].
  split; [lia|]. split; [done|]. intros d Hd [Hsd Hde].
  assert (m ≤ month_of d ≤ m + 1) as Hmd.
  { split; apply Z.nlt_ge; intros Hbad.
    - pose proof (month_of_lt_time d s Hd Hvs ltac:(lia)). lia.
    - pose proof (month_of_lt_time e d Hve Hd ltac:(lia)). lia. }
  destruct (PeriodStart_cycle p d Hp Hd ltac:(lia)) as (m' & Hs' & Hmo' & Hle' & _).
  assert (m' = m) as ->; [|by apply (cycle_start_unique p m)].
  destruct (Z.lt_trichotomy m' m) as [Hl|[|Hl]]; [|done|].
  - assert (month_of d = m) as E by lia. exfalso.
    destruct (PeriodStart_cycle p d Hp Hd ltac:(lia)) as (m2 & Hs2 & ? & ? & Hlt2).
    assert (m2 = m') as ->.
    { destruct Hs' as (_ & <- & _), Hs2 as (_ & <- & _). done. }
    replace m with (m' + 1) in Hs by lia. pose proof (Hlt2 ltac:(lia) s Hs). lia.
  - assert (m' = m + 1) as -> by lia. rewrite (cycle_start_unique p (m + 1) _ _ Hs' He) in Hle'. lia.
Qed.

Lemma PeriodStart_tiles_witness :
  PeriodStart (sample_spending 31) (MkDate 2025 3 30) = MkDate 2025 2 28 ∧
  PeriodStart (sample_spending 31) (MkDate 2025 3 1) = MkDate 2025 2 28.
Proof.
  split; [reflexivity|].
  destruct (PeriodStart_tiles (sample_spending 31) (MkDate 2025 3 30)) as (_ & _ & _ & _ & _ & H).
  - split; discriminate.
  - repeat split; discriminate.
  - discriminate.
  - apply (H (MkDate 2025 3 1)); [repeat split; discriminate|]. split; vm_compute; [discriminate|reflexivity].
Defined.

Definition filed : Contract :=
  MkContract "loan" 1 AMD (MkDate 2024 1 15) zero_date 180000000 Actual365 Annuity
    (MkDate 2024 1 15) (MkDate 2025 1 15) 15 zero_date no_amount false (Money.MkPolicy HalfUp 10)
    (MkPrepayment PrepayBorrowerChooses 0 [] no_amount) (MkPolicyRef "bank" 1).
Definition filed_position (on : Date) : Position :=
  MkPosition "loan" "Loan" filed (MkAmount 100000000 AMD) on ExcessReducePrincipal "user_entered" false.
Definition sample_plan (on : Date) : Input :=
  MkInput on (MkCashPlan zero_date None (MkAmount 20000000 AMD) 10 (MkAmount 0 AMD) (MkAmount 0 AMD) [] ∅)
    [filed_position (MkDate 2024 3 15)] 0.

(** The filed loan with the instalment its bank states. *)
Definition quoted_contract (c : Contract) (a : Amount) : Contract :=
  MkContract (LoanID c) (Version c) (ContractCurrency c) (EffectiveFrom c) (EffectiveThru c) (NominalRate c)
    (ContractDayCount c) (Type_ c) (StartDate c) (MaturityDate c) (PaymentDay c) (NotBeforeDue c) a true (Rounding c)
    (Prepayment c) (AllocationPolicy c).
Definition quoted_position : Position :=
  let p := filed_position (MkDate 2024 3 15) in
  MkPosition (PosID p) (PosName p) (quoted_contract (PosContract p) (MkAmount 12000000 AMD)) (PosBalance p) (From p) (Excess p)
    (PosTrust p) (OptionalExcluded p).
Definition quoted_plan (on : Date) : Input := MkInput on (Cash (sample_plan on)) [quoted_position] 12.

(** Balances are brought to the valuation date on the contract's own terms
    and never far. Each loan of the answer is the loan filed after at most three
    contractual instalments, each due before the valuation date and taken from
    the schedule of the balance before it, and no more are due; the number
    assumed is reported under the loan's identifier, and only then. A balance
    that would need a fourth is refused as stale, with the anchor it was filed
    with and the number needed. *)
Theorem Normalize_spec i :
  (∀ j assumed, Normalize i = Ok (j, assumed) →
    ValuationDate j = ValuationDate i ∧ Cash j = Cash i ∧ Horizon j = Horizon i ∧
    Forall2 (λ p q, ∃ k, (k ≤ 3)%nat ∧ assumes (ValuationDate i) p k q ∧ anchored (ValuationDate i) q)
      (Loans i) (Loans j) ∧
    ∀ id n, assumed !! id = Some n →
      ∃ p q, p ∈ Loans i ∧ PosID p = id ∧ (0 < n)%nat ∧ assumes (ValuationDate i) p n q) ∧
  (∀ id on k, Normalize i = Err (StaleBalanceError id on k) →
    Input_Validate i = Ok tt →
    ∃ p q, p ∈ Loans i ∧ id = PosID p ∧ on = From p ∧ k = 4 ∧
      assumes (ValuationDate i) p 3 q ∧ ¬ anchored (ValuationDate i) q).
Proof.
  split.
  - intros j assumed H. unfold Normalize in H. apply bind_Ok in H as ([] & _ & H).
    apply bind_Ok in H as ([ls a] & Hn & H). injection H as <- <-.
    apply normalize_loans_spec in Hn as [H2 Ha]. split_and!; [done..|].
    intros id n Hid. apply Ha in Hid as [Hid|]; [by rewrite lookup_empty in Hid|done].
  - intros id on k H Hv. unfold Normalize in H. rewrite Hv, bind_of_Ok in H.
    assert (normalize_loans (ValuationDate i) (Loans i) ∅ = Err (StaleBalanceError id on k)) as H'.
    { destruct (normalize_loans _ _ _) as [[ls a]|e|w]; [done| |done].
      rewrite bind_of_Err in H. injection H as ->. done. }
    clear H Hv. revert H'. generalize (∅ : gmap string nat) as assumed.
    induction (Loans i) as [|p ls IH]; intros assumed H; [done|]. cbn [normalize_loans] in H.
    destruct (advance MaxAssumedInstalments (ValuationDate i) (From p) p 0) as [[q n]|e|w] eqn:Ea; [| |done].
    + rewrite bind_of_Ok in H. cbv beta iota zeta in H.
      destruct (normalize_loans _ ls _) as [[qs a]|e|w] eqn:En; [done| |done].
      injection H as ->. destruct (IH _ En) as (p' & q' & Hp' & ?). exists p', q'. split; [by right|done].
    + injection H as ->. apply advance_stale in Ea as (-> & -> & -> & q & ? & ?).
      exists p, q. split_and!; [by left|done..].
Qed.

Lemma Normalize_spec_witness :
  ∃ j assumed, Normalize (quoted_plan (MkDate 2024 5 20)) = Ok (j, assumed) ∧ Cash j = Cash (quoted_plan (MkDate 2024 5 20)) ∧
    Normalize (quoted_plan (MkDate 2024 9 20)) = Err (StaleBalanceError "loan" (MkDate 2024 3 15) 4).
Proof.
  eexists _, _. split; [vm_compute; reflexivity|]. split; [|vm_compute; reflexivity].
  eapply (proj1 (Normalize_spec (quoted_plan (MkDate 2024 5 20)))). vm_compute. reflexivity.
Defined.
