(* ===== verification/SimState.v ===== *)
(** What a simulation carries: [pkg/core/plan/result.go], the state of
    [sim.go], and the memoised projections of [projection.go].

    A pointer to a loan or a bucket is its index in the state, so that a write
    through one name is seen through every other. *)
From S2P Require Import Prelude Money Dates Model Allocation Schedule Calendar Fees PlanBase PlanInput.

(** * Assignment to a field *)

(** [set field f r] is [r.field = f(r.field)]. A record type declares its
    [Eta] expansion once; the setters are derived from it. *)
Class Eta (R : Type) := eta : R → R.
Class Setter {R E : Type} (field : R → E) := set : (E → E) → R → R.
Arguments set {_ _} field {_} _ _ : assert.

Ltac derive_setter :=
  lazymatch goal with
  | |- @Setter ?R ?E ?field =>
      let e := eval hnf in (@eta R _) in
      lazymatch eval pattern field in e with
      | ?F _ => let t := eval cbv beta in (λ (f : E → E) (r : R), F (λ r, f (field r)) r) in exact t
      end
  end.
#[export] Hint Extern 1 (@Setter _ _ _) => derive_setter : typeclass_instances.

Notation "r <| field := v |>" := (set field (λ _, v) r)
  (at level 1, left associativity, format "r <| field  :=  v |>").

(** * result.go *)

Inductive ActionKind := InstalmentPaid | ExtraPaid.
#[export] Instance ActionKind_eq_dec : EqDecision ActionKind.
Proof. solve_decision. Defined.
Definition ActionKind_String (k : ActionKind) : string :=
  match k with ExtraPaid => "extra" | InstalmentPaid => "instalment" end.

Record Action := MkAction {
  ActOn : Date;
  ActLoanID : string;
  ActLoan : string;
  ActKind : ActionKind;
  ActAmount : Amount;
  ActFee : Amount;
  Saves : Amount }.

Record MonthLoan := MkMonthLoan {
  MlFees : Amount;
  MlID : string;
  MlName : string;
  MlPaid : Amount;
  MlExtra : Amount;
  MlOwed : Amount;
  MlCleared : bool;
  MlFreed : Amount }.

Record MonthState := MkMonthState {
  MsHousehold : Amount;
  MsMonth : Z;
  MsOn : Date;
  MsRequired : Amount;
  MsExtra : Amount;
  MsFees : Amount;
  MsInterest : Amount;
  MsOwed : Amount;
  MsCash : Amount;
  MsCleared : string;
  MsLoans : list MonthLoan }.
#[export] Instance MonthState_eta : Eta MonthState := λ m,
  MkMonthState (MsHousehold m) (MsMonth m) (MsOn m) (MsRequired m) (MsExtra m) (MsFees m)
    (MsInterest m) (MsOwed m) (MsCash m) (MsCleared m) (MsLoans m).

Record Result := MkResult {
  HouseholdCash : Amount;
  ResPolicy : PlanInput.Policy;
  PayoffDate : Date;
  Months : Z;
  ResInterest : Amount;
  ResFees : Amount;
  ResPaid : Amount;
  NextMonthOwed : Amount;
  FirstClear : string;
  FirstClearOn : Date;
  FirstClearAt : Z;
  FirstFreed : Amount;
  Actions : list Action;
  Timeline : list MonthState;
  PeakRequired : Amount;
  FinalRequired : Amount;
  Prepayments : Z;
  TimingCredited : bool;
  Assumed : gmap string nat }.
#[export] Instance Result_eta : Eta Result := λ r,
  MkResult (HouseholdCash r) (ResPolicy r) (PayoffDate r) (Months r) (ResInterest r) (ResFees r)
    (ResPaid r) (NextMonthOwed r) (FirstClear r) (FirstClearOn r) (FirstClearAt r) (FirstFreed r)
    (Actions r) (Timeline r) (PeakRequired r) (FinalRequired r) (Prepayments r) (TimingCredited r)
    (Assumed r).

(** [Cost] drops the error of the addition. *)
Definition Cost (r : Result) : res Amount :=
  match Add (ResInterest r) (ResFees r) with Err _ => Ok no_amount | m => m end.

(** * sim.go: the state *)

Record loanState := MkLoanState {
  l_pos : Position;
  l_fp : string;
  l_effect : PrepaymentEffect;
  l_timing : Timing;
  l_balance : Amount;
  l_accrued : Amount;
  l_from : Date;
  l_carried : Amount;
  l_due : Date;
  l_required : Amount;
  l_pending : Amount;
  l_allowance : gmap Z Amount;
  l_closed : bool;
  l_closedOn : Date;
  l_cyclePaid : Amount;
  l_cycleExtra : Amount;
  l_cycleFees : Amount;
  l_cycleCleared : bool;
  l_cycleFreed : Amount }.
#[export] Instance loanState_eta : Eta loanState := λ l,
  MkLoanState (l_pos l) (l_fp l) (l_effect l) (l_timing l) (l_balance l) (l_accrued l) (l_from l)
    (l_carried l) (l_due l) (l_required l) (l_pending l) (l_allowance l) (l_closed l) (l_closedOn l)
    (l_cyclePaid l) (l_cycleExtra l) (l_cycleFees l) (l_cycleCleared l) (l_cycleFreed l).

(** The contract of a loan being simulated. *)
Definition l_contract (l : loanState) : Contract := PosContract (l_pos l).

(** [cashBucket] of cash_routing.go. *)
Record cashBucket := MkCashBucket {
  b_target : string;
  b_remaining : Amount;
  b_until : Date;
  b_minimum : Amount;
  b_released : bool;
  b_wake : Date }.
#[export] Instance cashBucket_eta : Eta cashBucket := λ b,
  MkCashBucket (b_target b) (b_remaining b) (b_until b) (b_minimum b) (b_released b) (b_wake b).

(** * projection.go *)

Record obligation := MkObl { o_due : Date; o_required : Amount; o_instalment : Amount }.

(** The memo key: fingerprint, balance, anchor, effect, carried instalment. *)
Definition oblKey : Type := string * Z * Date * PrepaymentEffect * Z.

#[export] Instance Date_countable : Countable Date.
Proof.
  apply (inj_countable' (λ d, (Year d, Month d, Day d)) (λ '(y, m, d), MkDate y m d)). by intros [].
Defined.
#[export] Instance PrepaymentEffect_countable : Countable PrepaymentEffect.
Proof.
  apply (inj_countable' (λ e, match e with
    | PrepayBorrowerChooses => 0%nat | PrepayShortenTerm => 1%nat | PrepayReduceInstalment => 2%nat end)
    (λ n, match n with 0%nat => PrepayBorrowerChooses | 1%nat => PrepayShortenTerm | _ => PrepayReduceInstalment end)).
  by intros [].
Defined.

Record cache := MkCache {
  obligations : gmap oblKey obligation;
  calendars : gmap string Calendar }.
Definition newCache : cache := MkCache ∅ ∅.

(** A [%s] or [%v] operand; package fmt recovers from a [String] that panics. *)
Definition operand (m : res (list Ascii.ascii)) : string :=
  match m with Ok l => String.string_of_list_ascii l | _ => "%!s(PANIC=String method)" end.
Definition operand_d (n : Z) : string := String.string_of_list_ascii (Sprintf_d n).

Fixpoint join (sep : string) (l : list string) : string :=
  match l with
  | [] => ""
  | [x] => x
  | x :: l => String.append x (String.append sep (join sep l))
  end.

(** [fingerprint]: the terms, in writing, one bar apart. *)
Definition fingerprint (c : Contract) : string :=
  join "|" [
    LoanID c; operand_d (Version c); Code (ContractCurrency c);
    operand (Rate_String (NominalRate c)); DayCount_String (ContractDayCount c);
    RepaymentType_String (Type_ c); operand (Ok (Dates.String (StartDate c)));
    operand_d (PaymentDay c); (if HasScheduled c then "true" else "false");
    operand (Amount_String (ScheduledPayment c));
    operand_d (match Mode (Rounding c) with HalfUp => 0 | HalfEven => 1 | Down => 2 | Up => 3 end);
    operand_d (Unit (Rounding c)); operand (Ok (Dates.String (MaturityDate c)));
    operand_d (match Effect (Prepayment c) with
               | PrepayBorrowerChooses => 0 | PrepayShortenTerm => 1 | PrepayReduceInstalment => 2 end)].

(** [calendar]: the memo, and the dates of one loan's contract. *)
Definition cache_calendar (m : cache) (l : loanState) : cache * pres Calendar :=
  match calendars m !! l_fp l with
  | Some cal => (m, Ok cal)
  | None =>
      match NewCalendar (l_contract l) with
      | Ok cal => (MkCache (obligations m) (<[l_fp l := cal]> (calendars m)), Ok cal)
      | r => (m, core r)
      end
  end.

(** The instalment fixed at the anchor is carried. *)
Definition carries (l : loanState) : bool :=
  bool_decide (l_effect l = PrepayShortenTerm) && bool_decide (Type_ (l_contract l) = Annuity) &&
  (0 <? Sign (l_carried l)).

Definition key_of (l : loanState) : oblKey :=
  (l_fp l, minor (l_balance l), l_from l, l_effect l, if carries l then minor (l_carried l) else 0).

(** What [next] computes from a calendar on a miss. A date list that is not
    refused has a first date. *)
Definition project_next (l : loanState) (cal : Calendar) : pres obligation :=
  if carries l
  then
    match Calendar_Dates cal (l_from l) with
    | Panic w => Panic w
    | Err _ => Ok (MkObl (Occurrence (l_from l) (PaymentDay (l_contract l)) 1) (l_carried l) (l_carried l))
    | Ok [] => Panic "index out of range"
    | Ok (d :: _) => Ok (MkObl d (l_carried l) (l_carried l))
    end
  else
    match Next cal (l_balance l) (l_from l) with
    | Panic w => Panic w
    | Err e => Err (Core (Wrapf "plan: projecting %s: %w" e))
    | Ok o => Ok (MkObl (ObDue o) (ObPayment o) (ObInstalment o))
    end.

Definition cache_next (m : cache) (l : loanState) : cache * pres obligation :=
  match obligations m !! key_of l with
  | Some o => (m, Ok o)
  | None =>
      match cache_calendar m l with
      | (m, Panic w) => (m, Panic w)
      | (m, Err (Core e)) => (m, Err (Core (Wrapf "plan: projecting %s: %w" e)))
      | (m, Err e) => (m, Err e)
      | (m, Ok cal) =>
          match project_next l cal with
          | Ok o => (MkCache (<[key_of l := o]> (obligations m)) (calendars m), Ok o)
          | r => (m, r)
          end
      end
  end.

(** * sim.go: the run *)

Record sim := MkSim {
  s_incomeDelayDays : Z;
  s_nominalIncome : Date;
  s_cashBuckets : list cashBucket;
  s_hasRouting : bool;
  s_actionSink : option (list Action);
  s_in : Input;
  s_pol : PlanInput.Policy;
  s_cache : cache;
  s_cur : Currency;
  s_loans : list loanState;
  s_cash : Amount;
  s_budget : Amount;
  s_res : Result;
  s_cycle : Z;
  s_cycleIncome : Date;
  s_nextIncome : Date;
  s_incomeYM : Z;
  s_month : MonthState;
  s_lumps : list CashEvent;
  s_inflow : Amount;
  s_nextPeriod : Date;
  s_periodLeft : Amount;
  s_periodStart : Date;
  s_periodSpent : Amount;
  s_carryRule : string;
  s_carryMinimum : Amount;
  s_carryUntil : Date;
  s_err : option perror }.
#[export] Instance sim_eta : Eta sim := λ s,
  MkSim (s_incomeDelayDays s) (s_nominalIncome s) (s_cashBuckets s) (s_hasRouting s) (s_actionSink s)
    (s_in s) (s_pol s) (s_cache s) (s_cur s) (s_loans s) (s_cash s) (s_budget s) (s_res s) (s_cycle s)
    (s_cycleIncome s) (s_nextIncome s) (s_incomeYM s) (s_month s) (s_lumps s) (s_inflow s)
    (s_nextPeriod s) (s_periodLeft s) (s_periodStart s) (s_periodSpent s) (s_carryRule s)
    (s_carryMinimum s) (s_carryUntil s) (s_err s).

(** A step of the simulator: a value and the state after it, or a panic. The
    loop of [run] is given fuel, and says so when it runs out. *)
Inductive stop := OutOfFuel.
Definition M (A : Type) : Type := sim → result stop (A * sim).
#[export] Instance M_ret : MRet M := λ _ a s, Ok (a, s).
#[export] Instance M_bind : MBind M := λ _ _ k m s,
  match m s with Ok (a, s') => k a s' | Err e => Err e | Panic w => Panic w end.

Definition gets {A} (f : sim → A) : M A := λ s, Ok (f s, s).
Definition modify (f : sim → sim) : M unit := λ s, Ok (tt, f s).
Definition panic {A} (w : string) : M A := λ _, Panic w.
Definition when (b : bool) (m : M unit) : M unit := if b then m else mret tt.

(** [s.field = v]. *)
Definition assign {E} (field : sim → E) `{!Setter field} (v : E) : M unit := modify (set field (λ _, v)).
Definition assign_res {E} (field : Result → E) `{!Setter field} (v : E) : M unit :=
  modify (set s_res (set field (λ _, v))).
Definition assign_month {E} (field : MonthState → E) `{!Setter field} (v : E) : M unit :=
  modify (set s_month (set field (λ _, v))).

(** [s.loans[i]], and a write through that pointer. *)
Definition loan (i : nat) : M loanState := λ s,
  match s_loans s !! i with Some l => Ok (l, s) | None => Panic "index out of range" end.
Definition alter_loan (i : nat) (f : loanState → loanState) : M unit := modify (set s_loans (alter f i)).
Definition assign_loan {E} (i : nat) (field : loanState → E) `{!Setter field} (v : E) : M unit :=
  alter_loan i (set field (λ _, v)).

(** The same for a bucket of routed cash. *)
Definition bucket (i : nat) : M cashBucket := λ s,
  match s_cashBuckets s !! i with Some b => Ok (b, s) | None => Panic "index out of range" end.
Definition assign_bucket {E} (i : nat) (field : cashBucket → E) `{!Setter field} (v : E) : M unit :=
  modify (set s_cashBuckets (alter (set field (λ _, v)) i)).

(** [s.err = err], and the test of it. The last error written is kept. *)
Definition raise (e : perror) : M unit := assign s_err (Some e).
Definition failed : M bool := gets (λ s, match s_err s with Some _ => true | None => false end).

(** A call that returns a value and an error, and one that returns no error. *)
Definition attempt {A} (m : pres A) : M (perror + A) := λ s,
  match m with Ok a => Ok (inr a, s) | Err e => Ok (inl e, s) | Panic w => Panic w end.
Definition total {A} (m : res A) : M A := λ s,
  match m with Ok a => Ok (a, s) | Err _ => Panic "unreachable" | Panic w => Panic w end.

(** [if err != nil { return err }]. *)
Definition and_then {A B} (m : M (perror + A)) (k : A → M (perror + B)) : M (perror + B) :=
  r ← m; match r with inl e => mret (inl e) | inr a => k a end.
Notation "x ←? m ; k" := (and_then m (λ x, k)) (at level 20, m at level 100, k at level 200, only parsing).
Notation "' x ←? m ; k" := (and_then m (λ x, match x with x => k end))
  (at level 20, x pattern, m at level 100, k at level 200, only parsing).

(** [if err != nil { s.err = err; return }]. *)
Definition or_raise {A} (r : perror + A) (k : A → M unit) : M unit :=
  match r with inl e => raise e | inr a => k a end.

(** [s.add] and [s.sub]: after a first error they hand back the left operand,
    so a run goes on to the next place that looks at the error. The sum that
    overflowed is the zero [Amount], which has no currency. *)
Definition sticky (m : res Amount) (a : Amount) : M Amount := λ s,
  match s_err s with
  | Some _ => Ok (a, s)
  | None =>
      match m with
      | Ok r => Ok (r, s)
      | Err e => Ok (no_amount, s <| s_err := Some (Core e) |>)
      | Panic w => Panic w
      end
  end.
Definition add (a b : Amount) : M Amount := sticky (Add a b) a.
Definition sub (a b : Amount) : M Amount := sticky (Sub a b) a.
Definition cmp (a b : Amount) : M Z := total (Cmp a b).

(** [s.field = s.add(s.field, x)] and its variants. *)
Definition bump (field : sim → Amount) `{!Setter field} (x : Amount) : M unit :=
  a ← gets field; v ← add a x; assign field v.
Definition draw (field : sim → Amount) `{!Setter field} (x : Amount) : M unit :=
  a ← gets field; v ← sub a x; assign field v.
Definition bump_res (field : Result → Amount) `{!Setter field} (x : Amount) : M unit :=
  a ← gets (λ s, field (s_res s)); v ← add a x; assign_res field v.
Definition bump_month (field : MonthState → Amount) `{!Setter field} (x : Amount) : M unit :=
  a ← gets (λ s, field (s_month s)); v ← add a x; assign_month field v.
Definition bump_loan (i : nat) (field : loanState → Amount) `{!Setter field} (x : Amount) : M unit :=
  l ← loan i; v ← add (field l) x; assign_loan i field v.
Definition draw_loan (i : nat) (field : loanState → Amount) `{!Setter field} (x : Amount) : M unit :=
  l ← loan i; v ← sub (field l) x; assign_loan i field v.

(** A loop that carries one value. *)
Fixpoint foldM {A B} (f : B → A → M B) (b : B) (l : list A) : M B :=
  match l with
  | [] => mret b
  | x :: l => b ← f b x; foldM f b l
  end.
