(* ===== verification/Effects.v ===== *)
(** Steps of the search: a value or an error, over a state of its own. A run of
    the simulator is one, over the memo; so is a step of a search, over what it
    has found so far. *)
From S2P Require Import Prelude Money PlanBase PlanInput SimState.

(** [Ok (inl e, s)]: the call returned the error [e] and left the state [s]. *)
Definition Step (S A : Type) : Type := S → result stop ((perror + A) * S).
#[export] Instance Step_ret S : MRet (Step S) := λ _ a s, Ok (inr a, s).
#[export] Instance Step_bind S : MBind (Step S) := λ _ _ k m s,
  match m s with
  | Ok (inr a, s) => k a s
  | Ok (inl e, s) => Ok (inl e, s)
  | Err e => Err e
  | Panic w => Panic w
  end.

Section Steps.
Context {S : Type}.

Definition reads {A} (f : S → A) : Step S A := λ s, Ok (inr (f s), s).
Definition writes (f : S → S) : Step S unit := λ s, Ok (inr tt, f s).
Definition refuse {A} (e : perror) : Step S A := λ s, Ok (inl e, s).
Definition crash {A} (w : string) : Step S A := λ _, Panic w.

(** A pure call with its error, and one whose error the code drops. *)
Definition calls {A} (m : pres A) : Step S A := λ s,
  match m with Ok a => Ok (inr a, s) | Err e => Ok (inl e, s) | Panic w => Panic w end.

(** The value and the error side by side, as Go hands them back. *)
Definition tried {A} (m : Step S A) : Step S (perror + A) := λ s,
  match m s with
  | Ok (r, s) => Ok (inr r, s)
  | Err e => Err e
  | Panic w => Panic w
  end.

(** Loops: over a slice with a value carried along, and collecting. *)
Fixpoint fold_steps {A B} (f : B → A → Step S B) (b : B) (l : list A) : Step S B :=
  match l with
  | [] => mret b
  | x :: l => b ← f b x; fold_steps f b l
  end.

(** * Inversion *)

Lemma step_bind_Ok {A B} (m : Step S A) (k : A → Step S B) s r s' :
  (m ≫= k) s = Ok (r, s') ↔
  (∃ e, m s = Ok (inl e, s') ∧ r = inl e) ∨ ∃ a s1, m s = Ok (inr a, s1) ∧ k a s1 = Ok (r, s').
Proof.
  unfold mbind, Step_bind. split.
  - destruct (m s) as [[[e|a] s1]|e|w]; [|by eauto|done|done]. intros [= <- <-]. eauto.
  - by intros [(e & -> & ->)|(a & s1 & -> & ?)].
Qed.

Lemma step_bind_value {A B} (m : Step S A) (k : A → Step S B) s b s' :
  (m ≫= k) s = Ok (inr b, s') ↔ ∃ a s1, m s = Ok (inr a, s1) ∧ k a s1 = Ok (inr b, s').
Proof. rewrite step_bind_Ok. split; [intros [(? & _ & [=])|H]; exact H|by right]. Qed.

Lemma step_ret_Ok {A} (a : A) s r s' : (mret a : Step S A) s = Ok (r, s') ↔ r = inr a ∧ s' = s.
Proof. unfold mret, Step_ret. naive_solver. Qed.
Lemma reads_Ok {A} (f : S → A) s r s' : reads f s = Ok (r, s') ↔ r = inr (f s) ∧ s' = s.
Proof. unfold reads. naive_solver. Qed.
Lemma writes_Ok f s r s' : writes f s = Ok (r, s') ↔ r = inr tt ∧ s' = f s.
Proof. unfold writes. naive_solver. Qed.
Lemma calls_Ok {A} (m : pres A) s a s' : calls m s = Ok (inr a, s') ↔ m = Ok a ∧ s' = s.
Proof. unfold calls. destruct m; naive_solver. Qed.
Lemma refuse_Ok {A} e s (r : perror + A) s' : refuse e s = Ok (r, s') ↔ r = inl e ∧ s' = s.
Proof. unfold refuse. naive_solver. Qed.
Lemma tried_Ok {A} (m : Step S A) s (r : perror + (perror + A)) s' :
  tried m s = Ok (r, s') ↔ ∃ v, r = inr v ∧ m s = Ok (v, s').
Proof.
  unfold tried. destruct (m s) as [[v s1]|e|w]; [|naive_solver..]. split; [intros [= <- <-]; eauto|].
  by intros (? & -> & [= <- <-]).
Qed.
End Steps.
