(* ===== verification/Answer.v ===== *)
(** What a search answers: [pkg/core/plan/report.go]'s certificate, rungs and
    report, the canonical name of a policy ([policy.go]) and the written
    comparator of each goal.

    [better] is shown to be a lexicographic order on a handful of figures and
    the policy's name, so a ranking does not depend on how it is sorted. *)
From S2P Require Import Prelude Money Dates Model Allocation PlanBase PlanInput SimState.

(** * policy.go *)

(** [fmt.Fprint] of the order: the indices in brackets, a blank apart. *)
Definition bracketed (l : list nat) : string :=
  concat_all ["["; join " " ((λ i, operand_d (Z.of_nat i)) <$> l); "]"].

(** [ID]: the canonical name. *)
Definition Policy_ID (p : PlanInput.Policy) : res string :=
  smallest ← (if 0 <? Sign (MinPrepay p)
              then s ← Amount_String (MinPrepay p); Ok ["/min="; String.string_of_list_ascii s]
              else Ok []);
  Ok (concat_all (
    [PolName p; if RequiredOnly p then "/required-only" else ""; bracketed (Order p)] ++
    ((λ t, slash (Timing_String t)) <$> PolTiming p) ++
    ((λ e, slash (PrepaymentEffect_String e)) <$> PolEffect p) ++
    [slash (Rollover_String (PolRollover p))] ++ smallest)).

(** * goal.go *)

Definition Goal_String (g : Goal) : res string :=
  if bool_decide (GKind g = Relief) && (0 <? Sign (Cap g))
  then s ← Amount_String (Cap g); Ok (concat_all ["relief(cap="; String.string_of_list_ascii s; ")"])
  else if bool_decide (GKind g = Relief) && (0 <? Sign (Free g))
  then s ← Amount_String (Free g); Ok (concat_all ["relief(free="; String.string_of_list_ascii s; ")"])
  else Ok (GoalKind_String (GKind g)).

(** * report.go: what is answered *)

Definition EngineVersion : string := "plan/5".

(** [Strength], with the one [dynamic.go] adds. *)
Inductive Strength := ProvenOptimal | ExhaustiveStaticOrder | BoundedHeuristic | NamedStrategiesOnly
  | ExhaustiveDynamicDomain.
#[export] Instance Strength_eq_dec : EqDecision Strength.
Proof. solve_decision. Defined.

Record CertifiedPosition := MkCertifiedPosition { CpID : string; CpTrust : string }.

Record Certificate := MkCertificate {
  CeStrength : Strength;
  Eligibility : string;
  Policies : Z;
  FeasiblePolicies : Z;
  DynamicStates : Z;
  DynamicExpansions : Z;
  CeOrders : Z;
  EffectVectors : Z;
  TimingVectors : Z;
  Truncation : string;
  BestCost : Amount;
  LowerBound : option Amount;
  Gap : option Amount;
  CeQuantum : Z;
  CandidateDates : list Date;
  CeEngine : string;
  Fingerprints : list string;
  AssumedPayments : gmap string nat;
  Positions : list CertifiedPosition }.

Record Rung := MkRung { RungBudget : Amount; RungMonths : Z; RungPayoff : Date; RungInterest : Amount }.

(** The zero [Result] a run that fails hands back beside its error. *)
Definition no_result : Result :=
  MkResult no_amount (PlanInput.MkPolicy false "" [] [] [] RollFreed no_amount) zero_date 0 no_amount no_amount
    no_amount no_amount "" zero_date 0 no_amount [] [] no_amount no_amount 0 false ∅.

Record Report := MkReport {
  RpGoal : Goal;
  Best : Result;
  RpRanked : list Result;
  Avalanche : Result;
  HighestRate : Result;
  AvalancheUnsupported : string;
  Snowball : Result;
  Minimum : Result;
  Ladder : list Rung;
  Ties : list string;
  RpCertificate : Certificate;
  TimingSaving : Amount }.

(** The loans as a certificate lists them. *)
Definition certified (ls : list Position) : list string * list CertifiedPosition :=
  ((λ l, fingerprint (PosContract l)) <$> ls, (λ l, MkCertifiedPosition (PosID l) (PosTrust l)) <$> ls).

(** * report.go: the comparator *)

Definition namePermuted : string := "order".

(** [reliefMonth]: the first month of the last stretch within the target. *)
Definition never : Z := 2 ^ 30.

Definition relief_target (g : Goal) (baseline : Amount) : res (option Amount) :=
  if 0 <? Sign (Free g)
  then match Sub baseline (Free g) with Ok t => Ok (Some t) | Err _ => Ok None | Panic w => Panic w end
  else Ok (Some (Cap g)).

(** The walk from the end; [months] is the timeline backwards. *)
Fixpoint relief_from (target : Amount) (months : list MonthState) (last : option Z) : res Z :=
  match months with
  | [] => Ok (default never last)
  | m :: months =>
      c ← Cmp (MsRequired m) target;
      if c <=? 0 then relief_from target months (Some (MsMonth m)) else Ok (default never last)
  end.

Definition reliefMonth (g : Goal) (baseline : Amount) (r : Result) : res Z :=
  t ← relief_target g baseline;
  match t with
  | None => Ok never
  | Some target => if Sign target <? 0 then Ok never else relief_from target (rev (Timeline r)) None
  end.

(** [better]'s last word: a named strategy, then the identifier. *)
Definition is_permuted (r : Result) : bool := String.eqb (PolName (ResPolicy r)) namePermuted.
Definition better_name (a b : Result) : res bool :=
  if negb (Bool.eqb (is_permuted a) (is_permuted b)) then Ok (negb (is_permuted a))
  else x ← Policy_ID (ResPolicy a); y ← Policy_ID (ResPolicy b); Ok (String.ltb x y).

(** [if c != 0 { return c < 0 }]. *)
Definition decided (c : Z) (rest : res bool) : res bool := if negb (c =? 0) then Ok (c <? 0) else rest.

Definition better (g : Goal) (baseline : Amount) (a b : Result) : res bool :=
  ca ← Cost a; cb ← Cost b; cc ← Cmp ca cb;
  let pd := Compare (PayoffDate a) (PayoffDate b) in
  match GKind g with
  | Fastest =>
      decided pd (decided cc (pr ← Cmp (PeakRequired a) (PeakRequired b); decided pr (better_name a b)))
  | Relief =>
      ra ← reliefMonth g baseline a; rb ← reliefMonth g baseline b;
      if negb (ra =? rb) then Ok (ra <? rb) else decided cc (better_name a b)
  | FirstWin =>
      let fa := FirstClearOn a in let fb := FirstClearOn b in
      if negb (Bool.eqb (Dates.IsZero fa) (Dates.IsZero fb)) then Ok (negb (Dates.IsZero fa))
      else decided (Compare fa fb) (decided cc (better_name a b))
  | LeastInterest =>
      decided cc (decided pd
        (if negb (Prepayments a =? Prepayments b) then Ok (Prepayments a <? Prepayments b) else better_name a b))
  end.

(** [sort.SliceStable] under a comparator that may panic: insertion, comparing
    as it goes. *)
Section Sorting.
Context {A : Type} (less : A → A → res bool).

Fixpoint insert_checked (x : A) (l : list A) : res (list A) :=
  match l with
  | [] => Ok [x]
  | z :: l' => b ← less z x; if (b : bool) then rest ← insert_checked x l'; Ok (z :: rest) else Ok (x :: l)
  end.
Fixpoint sort_checked (l : list A) : res (list A) :=
  match l with
  | [] => Ok []
  | x :: l => sorted ← sort_checked l; insert_checked x sorted
  end.

(** No comparison panics: the sort is the pure one. *)
Lemma sort_checked_pure (f : A → A → bool) l :
  (∀ a b, a ∈ l → b ∈ l → less a b = Ok (f a b)) → sort_checked l = Ok (SliceStable f l).
Proof.
  assert (∀ x k, (∀ z, z ∈ k → less z x = Ok (f z x)) → insert_checked x k = Ok (insert_by f x k)) as Hins.
  { intros x k. induction k as [|z k IH]; intros H; [done|]. cbn [insert_checked insert_by].
    rewrite H by (by left). cbn. destruct (f z x); [|done]. rewrite IH; [done|]. intros y Hy. apply H. by right. }
  induction l as [|x l IH]; intros H; [done|]. cbn [sort_checked]. rewrite IH; [|by intros; apply H; right].
  cbn. apply Hins. intros z Hz. rewrite (SliceStable_perm f l) in Hz. apply H; [by right|by left].
Qed.
End Sorting.

(** [candidateDates]: the distinct days of optional payments, in order. *)
Definition extra_dates (r : Result) : list Date :=
  ActOn <$> filter (λ a, ActKind a = ExtraPaid) (Actions r).
Fixpoint distinct_dates (seen : gset Date) (l : list Date) : list Date :=
  match l with
  | [] => []
  | d :: l => if bool_decide (d ∈ seen) then distinct_dates seen l else d :: distinct_dates ({[d]} ∪ seen) l
  end.
Definition candidateDates (rs : list Result) : list Date :=
  SliceStable Before (distinct_dates ∅ (rs ≫= extra_dates)).

(** * The comparator is a lexicographic order *)

(** Figures in the order they are looked at, then a name. *)
Record standing := MkStanding { st_figures : list Z; st_name : string }.

Fixpoint lex_less (a b : list Z) (eq : bool) : bool :=
  match a, b with
  | x :: a, y :: b => (x <? y) || ((x =? y) && lex_less a b eq)
  | _, _ => eq
  end.
Definition standing_less (a b : standing) : bool :=
  lex_less (st_figures a) (st_figures b) (String.ltb (st_name a) (st_name b)).

Definition date_figures (d : Date) : list Z := [Year d; Month d; Day d].
Definition flag (b : bool) : Z := if b then 1 else 0.

(** A result all of whose figures are in one currency and representable. *)
Definition comparable (cr : Currency) (r : Result) : Prop :=
  Code (cur (ResInterest r)) = Code cr ∧ Code (cur (ResFees r)) = Code cr ∧
  wf_amount (ResInterest r) ∧ wf_amount (ResFees r) ∧ in_i64 (minor (ResInterest r) + minor (ResFees r)) ∧
  Code (cur (PeakRequired r)) = Code cr ∧ Forall (λ m, Code (cur (MsRequired m)) = Code cr) (Timeline r) ∧
  ∃ id, Policy_ID (ResPolicy r) = Ok id.

Definition cost_of (r : Result) : Z := minor (ResInterest r) + minor (ResFees r).
Definition id_of (r : Result) : string := match Policy_ID (ResPolicy r) with Ok s => s | _ => "" end.
Definition relief_of (g : Goal) (baseline : Amount) (r : Result) : Z :=
  match reliefMonth g baseline r with Ok m => m | _ => never end.

(** What decides a comparison, in order: the figures of the goal, then whether
    the policy is a named strategy. *)
Definition merits (g : Goal) (baseline : Amount) (r : Result) : list Z :=
  match GKind g with
  | Fastest => date_figures (PayoffDate r) ++ [cost_of r; minor (PeakRequired r)]
  | Relief => [relief_of g baseline r; cost_of r]
  | FirstWin => flag (Dates.IsZero (FirstClearOn r)) :: date_figures (FirstClearOn r) ++ [cost_of r]
  | LeastInterest => cost_of r :: date_figures (PayoffDate r) ++ [Prepayments r]
  end.
Definition figures (g : Goal) (baseline : Amount) (r : Result) : list Z := merits g baseline r ++ [flag (is_permuted r)].
Definition standing_of (g : Goal) (baseline : Amount) (r : Result) : standing :=
  MkStanding (figures g baseline r) (id_of r).
Definition ahead_of (g : Goal) (baseline : Amount) (a b : Result) : bool :=
  standing_less (standing_of g baseline a) (standing_of g baseline b).

(** The goal's own figures compare with the results. *)
Definition goal_fits (cr : Currency) (g : Goal) (baseline : Amount) : Prop :=
  GKind g = Relief →
    if 0 <? Sign (Free g) then Code (cur baseline) = Code cr ∧ Code (cur (Free g)) = Code cr
    else Code (cur (Cap g)) = Code cr.

(** A strict total order on standings of one shape. *)
Section Standings.
Implicit Types a b c : standing.
Definition alike (a b : standing) : Prop := length (st_figures a) = length (st_figures b).

Lemma standing_trichotomy a b :
  alike a b → standing_less a b = true ∨ a = b ∨ standing_less b a = true.
Proof.
  destruct a as [l s], b as [k t]. unfold alike, standing_less. cbn [st_figures st_name]. revert k.
  induction l as [|x l IH]; intros [|y k] Hn; try done; cbn in Hn |- *.
  - destruct (string_ltb_trichotomy s t) as [|[->|]]; auto.
  - destruct (Z.ltb_spec x y); [by left|]. destruct (Z.ltb_spec y x); [by right; right|].
    assert (x = y) as -> by lia. rewrite Z.eqb_refl. cbn.
    destruct (IH k ltac:(lia)) as [|[[= -> ->]|]]; auto.
Qed.

Lemma standing_asym a b : standing_less a b = true → standing_less b a = false.
Proof.
  destruct a as [l s], b as [k t]. unfold standing_less. cbn [st_figures st_name]. revert k.
  induction l as [|x l IH]; intros [|y k]; cbn; try apply string_ltb_asym.
  destruct (Z.ltb_spec x y), (Z.ltb_spec y x), (Z.eqb_spec x y), (Z.eqb_spec y x); try lia; cbn; auto.
Qed.

Lemma standing_trans a b c :
  alike a b → alike b c → standing_less a b = true → standing_less b c = true → standing_less a c = true.
Proof.
  destruct a as [l s], b as [k t], c as [m u]. unfold alike, standing_less. cbn [st_figures st_name]. revert k m.
  induction l as [|x l IH]; intros [|y k] [|z m] Hn Hm; try done; cbn in Hn, Hm |- *; [apply string_ltb_trans|].
  specialize (IH k m ltac:(lia) ltac:(lia)).
  destruct (Z.ltb_spec x y), (Z.ltb_spec y z), (Z.ltb_spec x z), (Z.eqb_spec x y), (Z.eqb_spec y z),
    (Z.eqb_spec x z); try lia; cbn; auto.
Qed.

Lemma standing_not_after a b c :
  alike a b → alike b c → standing_less b a = false → standing_less c b = false → standing_less c a = false.
Proof.
  intros Hab Hbc Hba Hcb. apply not_true_iff_false. intros Hca.
  destruct (standing_trichotomy a b Hab) as [H|[->|H]]; [|congruence|congruence].
  assert (standing_less c b = true) as H'; [|congruence].
  apply (standing_trans c a b); try done. unfold alike in *. congruence.
Qed.
End Standings.

Lemma standings_alike g baseline a b : alike (standing_of g baseline a) (standing_of g baseline b).
Proof. unfold alike, standing_of, figures, merits. cbn [st_figures]. by destruct (GKind g). Qed.

Lemma ahead_asym g baseline a b : ahead_of g baseline a b = true → ahead_of g baseline b a = false.
Proof. apply standing_asym. Qed.
Lemma ahead_not_after g baseline a b c :
  not_after (ahead_of g baseline) a b → not_after (ahead_of g baseline) b c → not_after (ahead_of g baseline) a c.
Proof. intros H1 H2. unfold not_after in *. eapply standing_not_after; [..|exact H1|exact H2]; apply standings_alike. Qed.

(** Comparing dates is comparing their figures. *)
Lemma lex_date a b l k e :
  lex_less (date_figures a ++ l) (date_figures b ++ k) e =
  if negb (Compare a b =? 0) then Compare a b <? 0 else lex_less l k e.
Proof.
  unfold Compare, date_figures. cbn.
  destruct (Z.eqb_spec (Year a) (Year b)), (Z.eqb_spec (Month a) (Month b)), (Z.eqb_spec (Day a) (Day b)),
    (Z.ltb_spec (Year a) (Year b)), (Z.ltb_spec (Month a) (Month b)), (Z.ltb_spec (Day a) (Day b));
    cbn; lia || reflexivity.
Qed.

Lemma lex_cons x y l k e :
  lex_less (x :: l) (y :: k) e = if negb (x =? y) then x <? y else lex_less l k e.
Proof. cbn. destruct (Z.eqb_spec x y), (Z.ltb_spec x y); lia || reflexivity. Qed.

Lemma lex_flag x y l k e :
  lex_less (flag x :: l) (flag y :: k) e = if negb (Bool.eqb x y) then y else lex_less l k e.
Proof. by destruct x, y. Qed.

(** ** [better] decides that order *)

Lemma decided_cmp a b rest :
  decided (if minor a <? minor b then -1 else if minor b <? minor a then 1 else 0) rest =
  if negb (minor a =? minor b) then Ok (minor a <? minor b) else rest.
Proof.
  unfold decided. destruct (Z.ltb_spec (minor a) (minor b)), (Z.ltb_spec (minor b) (minor a)),
    (Z.eqb_spec (minor a) (minor b)); lia || reflexivity.
Qed.

Lemma Cost_comparable cr r :
  comparable cr r → ∃ c, Cost r = Ok c ∧ minor c = cost_of r ∧ Code (cur c) = Code cr.
Proof.
  intros (Hi & Hf & Hwi & Hwf & Hs & _). unfold Cost.
  pose proof (proj2 (Add_Ok_iff (ResInterest r) (ResFees r) (MkAmount (cost_of r) (cur (ResInterest r))) Hwi Hwf)) as H.
  rewrite H; [by eexists|]. split; [congruence|]. split; [done|exact Hs].
Qed.

Lemma better_name_ahead cr a b :
  comparable cr a → comparable cr b →
  better_name a b = Ok (lex_less [flag (is_permuted a)] [flag (is_permuted b)] (String.ltb (id_of a) (id_of b))).
Proof.
  intros (_ & _ & _ & _ & _ & _ & _ & x & Hx) (_ & _ & _ & _ & _ & _ & _ & y & Hy).
  unfold better_name, id_of. rewrite Hx, Hy. cbn [mbind result_bind].
  by destruct (is_permuted a), (is_permuted b).
Qed.

Lemma relief_from_Ok cr target months : ∀ last,
  Code (cur target) = Code cr → Forall (λ m, Code (cur (MsRequired m)) = Code cr) months →
  ∃ z, relief_from target months last = Ok z.
Proof.
  induction months as [|m months IH]; intros last Ht Hm; cbn [relief_from]; [by eexists|].
  apply Forall_cons in Hm as [Hm Hms]. rewrite Cmp_same by congruence. cbn [mbind result_bind].
  destruct (_ <=? 0); [by apply IH|by eexists].
Qed.

Lemma reliefMonth_Ok cr g baseline r :
  GKind g = Relief → goal_fits cr g baseline → comparable cr r →
  reliefMonth g baseline r = Ok (relief_of g baseline r).
Proof.
  intros Hk Hg (_ & _ & _ & _ & _ & _ & Hm & _). specialize (Hg Hk). unfold relief_of.
  assert (∃ z, reliefMonth g baseline r = Ok z) as [z ->]; [|done].
  assert (∀ target, Code (cur target) = Code cr →
    ∃ z, (if Sign target <? 0 then Ok never else relief_from target (rev (Timeline r)) None : res Z) = Ok z) as Hwalk.
  { intros target Ht. destruct (Sign target <? 0); [by eexists|]. eapply relief_from_Ok; [done|].
    apply Forall_forall. intros m Hin. rewrite Forall_forall in Hm. apply Hm.
    apply list_elem_of_In in Hin. apply list_elem_of_In. by apply in_rev. }
  unfold reliefMonth, relief_target. destruct (0 <? Sign (Free g)).
  - destruct Hg as [Hb Hf]. unfold Sub. rewrite mustMatch_same by congruence. cbn [mbind result_bind].
    destruct (_ || _); [by eexists|]. cbn [mbind result_bind]. by apply Hwalk.
  - cbn [mbind result_bind]. by apply Hwalk.
Qed.

Lemma better_ahead cr g baseline a b :
  goal_fits cr g baseline → comparable cr a → comparable cr b →
  better g baseline a b = Ok (ahead_of g baseline a b).
Proof.
  intros Hg Ha Hb. destruct (Cost_comparable cr a Ha) as (ca & Eca & Hca & Cca).
  destruct (Cost_comparable cr b Hb) as (cb & Ecb & Hcb & Ccb).
  unfold better. rewrite Eca, Ecb. cbn [mbind result_bind]. rewrite (Cmp_same ca cb) by congruence.
  cbn [mbind result_bind]. rewrite !decided_cmp, Hca, Hcb, (better_name_ahead cr a b Ha Hb).
  unfold ahead_of, standing_less, standing_of, figures, merits. cbn [st_figures st_name].
  destruct (GKind g) eqn:Ek.
  - rewrite <- !app_comm_cons, (lex_cons (cost_of a) (cost_of b)), <- !app_assoc, lex_date. unfold decided.
    cbn [app]. rewrite (lex_cons (Prepayments a) (Prepayments b)). repeat case_match; done.
  - rewrite <- !app_assoc, lex_date. unfold decided at 1. cbn [app].
    rewrite (lex_cons (cost_of a) (cost_of b)), (lex_cons (minor _) (minor _) [flag _] [flag _]).
    destruct Ha as (_ & _ & _ & _ & _ & Hpa & _), Hb as (_ & _ & _ & _ & _ & Hpb & _).
    rewrite (Cmp_same (PeakRequired a)) by congruence. cbn [mbind result_bind]. rewrite decided_cmp.
    repeat case_match; done.
  - rewrite !(reliefMonth_Ok cr) by done. cbn [mbind result_bind app].
    rewrite (lex_cons (relief_of _ _ a) (relief_of _ _ b)), (lex_cons (cost_of a) (cost_of b)). repeat case_match; done.
  - rewrite <- !app_comm_cons, (lex_flag (Dates.IsZero _) (Dates.IsZero _)), <- !app_assoc, lex_date.
    unfold decided at 1. cbn [app]. rewrite (lex_cons (cost_of a) (cost_of b)).
    destruct (Dates.IsZero (FirstClearOn a)), (Dates.IsZero (FirstClearOn b)); cbn [negb Bool.eqb]; repeat case_match; done.
Qed.

Lemma ranking_sorted cr g baseline l :
  goal_fits cr g baseline → Forall (comparable cr) l →
  sort_checked (better g baseline) l = Ok (SliceStable (ahead_of g baseline) l) ∧
  StronglySorted (λ a b, better g baseline b a = Ok false) (SliceStable (ahead_of g baseline) l).
Proof.
  intros Hg Hl. rewrite Forall_forall in Hl. split.
  { apply sort_checked_pure. intros a b Ha Hb. eapply better_ahead; [done|by apply Hl..]. }
  assert (Forall (comparable cr) (SliceStable (ahead_of g baseline) l)) as Hs.
  { apply Forall_forall. intros x Hx. apply Hl. by rewrite <- (SliceStable_perm (ahead_of g baseline) l). }
  pose proof (SliceStable_sorted (ahead_of g baseline) (ahead_asym g baseline) (ahead_not_after g baseline) l) as H.
  induction H as [|x k Hk IH Hx]; [constructor|]. apply Forall_cons in Hs as [Hcx Hs].
  constructor; [by apply IH|]. rewrite Forall_forall in Hx, Hs |- *. intros y Hy.
  rewrite (better_ahead cr) by auto. f_equal. by apply Hx.
Qed.

(** Who ties has one name. *)
Lemma ahead_ties g baseline a b :
  not_after (ahead_of g baseline) a b → not_after (ahead_of g baseline) b a → id_of a = id_of b.
Proof.
  intros H1 H2. destruct (standing_trichotomy _ _ (standings_alike g baseline a b)) as [H|[H|H]];
    unfold not_after, ahead_of in *; [congruence| |congruence]. by injection H.
Qed.

Lemma NoDup_fmap_inj_on {A B} (f : A → B) l a b : NoDup (f <$> l) → a ∈ l → b ∈ l → f a = f b → a = b.
Proof.
  induction l as [|x l IH]; [by intros _ ?%elem_of_nil|]. rewrite fmap_cons. intros [Hx Hnd]%NoDup_cons.
  intros [->|Ha]%elem_of_cons [->|Hb]%elem_of_cons E; [done| | |by apply IH].
  - destruct Hx. rewrite E. by apply list_elem_of_fmap_2.
  - destruct Hx. rewrite <- E. by apply list_elem_of_fmap_2.
Qed.

(** * Properties *)

(** C29. A ranking is one order, however it is sorted. Results of one currency
    are compared without a panic by a strict order on the figures of the goal,
    the kind of name and the identifier; so with distinct identifiers they have
    exactly one ranking, whatever order the runs came in, and nothing in it is
    better than what stands before it. *)
Theorem ranking_canonical cr g baseline l l' :
  goal_fits cr g baseline → Forall (comparable cr) l → l ≡ₚ l' → NoDup (id_of <$> l) →
  ∃ ranked, sort_checked (better g baseline) l = Ok ranked ∧ sort_checked (better g baseline) l' = Ok ranked ∧
    ranked ≡ₚ l ∧ StronglySorted (λ a b, better g baseline b a = Ok false) ranked.
Proof.
  intros Hg Hl Hp Hnd. destruct (ranking_sorted cr g baseline l Hg Hl) as [E Hs].
  assert (Forall (comparable cr) l') as Hl' by by rewrite <- Hp.
  destruct (ranking_sorted cr g baseline l' Hg Hl') as [E' _].
  exists (SliceStable (ahead_of g baseline) l). split; [done|]. split; [|split; [apply SliceStable_perm|done]].
  rewrite E'. f_equal. symmetry.
  apply SliceStable_canonical; [apply ahead_asym|apply ahead_not_after|done|].
  intros a b Ha Hb H1 H2. eapply (NoDup_fmap_inj_on id_of); [done..|]. by eapply ahead_ties.
Qed.

Definition ranked_as (name : string) (interest : Z) : Result :=
  MkResult no_amount (PlanInput.MkPolicy false name [0%nat] [OnDue] [PrepayShortenTerm] RollFreed no_amount)
    (MkDate 2025 1 15) 9 (MkAmount interest AMD) (Zero AMD) no_amount no_amount "" zero_date 0 no_amount [] []
    (Zero AMD) no_amount 0 false ∅.

Definition ranked_sample : list Result := [ranked_as "order" 500; ranked_as "snowball" 700; ranked_as "avalanche" 500].
Definition cheapest : Goal := MkGoal LeastInterest no_amount no_amount.

Lemma ranked_as_comparable n i : 0 ≤ i ≤ 700 → comparable AMD (ranked_as n i).
Proof.
  intros Hi. split; [done|]. split; [done|]. split; [split; simpl; unfold MinInt64, MaxInt64; lia|].
  split; [split; simpl; unfold MinInt64, MaxInt64; lia|]. split; [split; simpl; unfold MinInt64, MaxInt64; lia|].
  split; [done|]. split; [constructor|]. by eexists.
Qed.

Lemma ranking_canonical_witness :
  ∃ ranked, sort_checked (better cheapest no_amount) ranked_sample = Ok ranked ∧
    id_of <$> ranked = ["avalanche[0]/on_due/shorten_term/roll_freed"; "order[0]/on_due/shorten_term/roll_freed";
                        "snowball[0]/on_due/shorten_term/roll_freed"].
Proof.
  assert (Forall (comparable AMD) ranked_sample) as Hc by (repeat constructor; apply ranked_as_comparable; lia).
  assert (goal_fits AMD cheapest no_amount) as Hg by discriminate.
  assert (NoDup (id_of <$> ranked_sample)) as Hn by (apply (bool_decide_unpack _); vm_compute; exact I).
  destruct (ranking_canonical AMD cheapest no_amount ranked_sample ranked_sample Hg Hc (Permutation_refl _) Hn)
    as (ranked & E & _).
  exists ranked. split; [exact E|].
  assert (match sort_checked (better cheapest no_amount) ranked_sample with Ok l => id_of <$> l | _ => [] end =
    ["avalanche[0]/on_due/shorten_term/roll_freed"; "order[0]/on_due/shorten_term/roll_freed";
     "snowball[0]/on_due/shorten_term/roll_freed"]) as E' by (vm_compute; reflexivity).
  rewrite E in E'. exact E'.
Defined.
