(* ===== verification/Strategies.v ===== *)
(** The named strategies: [pkg/core/plan/strategies.go]. A strategy is a fixed
    priority over the loans, computed once at the valuation date; what cannot
    take optional payments is appended by identifier.

    Every order handed back is shown to name each loan once, the loans that can
    take money first, and to be sorted by the figure of the strategy. *)
From S2P Require Import Prelude Money Dates Model Allocation Schedule Solve Calendar Fees PlanBase PlanInput SimState.

Definition StrategyID : Type := string.
Definition StrategyHighestRate : StrategyID := "highest_rate".
Definition StrategySnowball : StrategyID := "snowball".
Definition StrategyAvalanche : StrategyID := "avalanche".
Definition StrategyHybrid : StrategyID := "hybrid".
Definition StrategyHighestRequired : StrategyID := "highest_required".
Definition StrategyHighestInterest : StrategyID := "highest_interest".
Definition StrategyCashflowIndex : StrategyID := "cashflow_index".
Definition StrategyUtilisation : StrategyID := "utilisation".
Definition StrategyCustom : StrategyID := "custom".

Definition is_one_of (id : StrategyID) (ids : list StrategyID) : bool := existsb (String.eqb id) ids.

Definition compareInt (a b : Z) : Z := if a <? b then -1 else if b <? a then 1 else 0.

(** [a/b] against [c/d], by cross products in big integers. *)
Definition compareRatio (a b c d : Z) : Z := compareInt (a * d) (c * b).

(** [avalancheDomain]: the reason the baseline does not apply, or nothing. The
    first loan sets the day count and the rounding. *)
Fixpoint avalanche_from (first : option (DayCount * Money.Policy)) (ls : list Position) : string :=
  match ls with
  | [] => ""
  | l :: ls =>
      let c := PosContract l in
      if negb (Nat.eqb (length (Charges (Prepayment c))) 0) || negb (FeeBP (Prepayment c) =? 0) ||
        negb (Sign (MinAmount (Prepayment c)) =? 0)
      then "fees or thresholds prevent a verified marginal-rate ordering"
      else if negb (bool_decide (Excess l = ExcessReducePrincipal)) || OptionalExcluded l
      then "immediate principal credit required"
      else if negb (Dates.IsZero (EffectiveThru c)) || (NominalRate c <? 0) then "fixed nonnegative rates required"
      else if negb (bool_decide (ContractDayCount c = Actual365)) && negb (bool_decide (ContractDayCount c = Actual360))
      then "unsupported marginal accrual convention"
      else match first with
      | None => avalanche_from (Some (ContractDayCount c, Rounding c)) ls
      | Some (basis, rounding) =>
          if negb (bool_decide (basis = ContractDayCount c)) || negb (bool_decide (rounding = Rounding c))
          then "common day count and rounding required"
          else avalanche_from first ls
      end
  end.
Definition avalancheDomain (ls : list Position) : string := avalanche_from None ls.

(** A loan with its index. *)
Abbreviation entry := (nat * Position)%type.
Definition entries (ls : list Position) : list entry := imap pair ls.

Definition eligible (e : entry) : Prop := 0 < Sign (PosBalance (snd e)) ∧ OptionalExcluded (snd e) = false.
#[export] Instance eligible_dec e : Decision (eligible e).
Proof. unfold eligible. apply _. Defined.

Definition lessID (a b : entry) : bool := String.ltb (PosID (snd a)) (PosID (snd b)).

(** The named loans in the caller's order, each once. *)
Fixpoint take_custom (lookup : gmap string nat) (names : list string) : pres (list nat) :=
  match names with
  | [] => Ok []
  | name :: names =>
      match lookup !! name with
      | None => unsupported "" "custom order contains duplicate, unknown or excluded ID"
      | Some i => rest ← take_custom (delete name lookup) names; Ok (i :: rest)
      end
  end.

(** What a strategy needs to know of a loan. *)
Record standing_figures := MkFigures { f_payoff : Z; f_required : Z; f_interest : Z }.

Definition measure (i : Input) (id : StrategyID) (l : Position) : pres standing_figures :=
  let c := PosContract l in
  if String.eqb id StrategyHybrid && (NominalRate c <=? 0) then unsupported (PosID l) "hybrid requires positive rates"
  else if is_one_of id [StrategyHighestRate; StrategyAvalanche; StrategyHybrid] then Ok (MkFigures 0 0 0)
  else
    schedule ← core (Build c (PosBalance l) (From l));
    match Rows schedule with
    | [] => unsupported (PosID l) "strategy needs next contractual period"
    | row :: _ =>
        payoff ←
          (if is_one_of id [StrategySnowball; StrategyCashflowIndex]
           then
             if negb (Equal (From l) (ValuationDate i))
             then unsupported (PosID l) "payoff priority requires valuation-date anchor"
             else
               fee ← core (charge c (ValuationDate i) (PosBalance l) (Zero (cur (PosBalance l))));
               total ← core (Add (PosBalance l) fee);
               Ok (minor total)
           else Ok 0);
        if String.eqb id StrategyCashflowIndex && (minor (Payment row) <=? 0)
        then unsupported (PosID l) "cashflow index requires known released payment"
        else Ok (MkFigures payoff (minor (Payment row)) (minor (Schedule.Interest row)))
    end.

Fixpoint measure_all (i : Input) (id : StrategyID) (es : list entry) : pres (list (entry * standing_figures)) :=
  match es with
  | [] => Ok []
  | e :: es => f ← measure i id (snd e); rest ← measure_all i id es; Ok ((e, f) :: rest)
  end.

(** The figure of the strategy, the first loan against the second. *)
Definition compare_by (id : StrategyID) (a b : entry * standing_figures) : Z :=
  let '((_, x), f) := a in
  let '((_, y), g) := b in
  if is_one_of id [StrategyHighestRate; StrategyAvalanche]
  then compareInt (NominalRate (PosContract y)) (NominalRate (PosContract x))
  else if String.eqb id StrategySnowball then compareInt (f_payoff f) (f_payoff g)
  else if String.eqb id StrategyHybrid
  then compareRatio (minor (PosBalance x)) (NominalRate (PosContract x)) (minor (PosBalance y)) (NominalRate (PosContract y))
  else if String.eqb id StrategyHighestRequired then compareInt (f_required g) (f_required f)
  else if String.eqb id StrategyHighestInterest then compareInt (f_interest g) (f_interest f)
  else if String.eqb id StrategyCashflowIndex
  then compareRatio (f_payoff f) (f_required f) (f_payoff g) (f_required g)
  else 0.
Definition before_by (id : StrategyID) (a b : entry * standing_figures) : bool :=
  let c := compare_by id a b in if negb (c =? 0) then c <? 0 else lessID (fst a) (fst b).

(** The two [sort.Slice] calls are not stable; their orders are total, since
    identifiers are unique, so every sort gives the stable one's answer. *)
Definition StrategyOrder (i : Input) (id : StrategyID) (customIDs : list string) : pres (list nat) :=
  _ ← validateStrategyIDs ∅ (Loans i);
  let live := filter eligible (entries (Loans i)) in
  let rest := SliceStable lessID (filter (λ e, ¬ eligible e) (entries (Loans i))) in
  if String.eqb id StrategyCustom
  then
    if negb (Nat.eqb (length customIDs) (length live))
    then unsupported "" "custom order must name every eligible loan exactly once"
    else
      ordered ← take_custom (list_to_map ((λ e, (PosID (snd e), fst e)) <$> live)) customIDs;
      Ok (ordered ++ (fst <$> rest))
  else if negb (is_one_of id [StrategyHighestRate; StrategySnowball; StrategyAvalanche; StrategyHybrid;
    StrategyHighestRequired; StrategyHighestInterest; StrategyCashflowIndex])
  then unsupported "" (concat_all ["strategy "; id; ": unsupported; utilisation requires a verified revolving limit"])
  else if String.eqb id StrategyAvalanche && negb (String.eqb (avalancheDomain (Loans i)) "")
  then unsupported "" (concat_all ["avalanche: "; avalancheDomain (Loans i); "; use highest_rate baseline"])
  else
    measured ← measure_all i id live;
    Ok ((fst ∘ fst <$> SliceStable (before_by id) measured) ++ (fst <$> rest)).

(** [strategyPolicy]: on due dates, shortening the term where it is free. *)
Definition strategy_effect (l : Position) : PrepaymentEffect :=
  let e := Effect (Prepayment (PosContract l)) in
  if bool_decide (e = PrepayBorrowerChooses) then PrepayShortenTerm else e.
Definition strategyPolicy (i : Input) (id : StrategyID) (ids : list string) (r : Rollover) : pres PlanInput.Policy :=
  order ← StrategyOrder i id ids;
  Ok (PlanInput.MkPolicy false id order (uniform (length (Loans i)) OnDue) (strategy_effect <$> Loans i) r no_amount).

Definition strategyError (e : perror) : perror :=
  match e with Core e => Core (Wrapf "plan: strategy %s: %w" e) | _ => e end.

(** * Orders *)

Lemma compareInt_antisym a b : compareInt b a = - compareInt a b.
Proof. unfold compareInt. destruct (Z.ltb_spec a b), (Z.ltb_spec b a); lia. Qed.
Lemma compareInt_le a b : compareInt a b ≤ 0 ↔ a ≤ b.
Proof. unfold compareInt. destruct (Z.ltb_spec a b), (Z.ltb_spec b a); lia. Qed.
Lemma compareRatio_antisym a b c d : compareRatio c d a b = - compareRatio a b c d.
Proof. apply compareInt_antisym. Qed.
Lemma compareRatio_trans a b c d e f :
  0 < b → 0 < d → 0 < f → compareRatio a b c d ≤ 0 → compareRatio c d e f ≤ 0 → compareRatio a b e f ≤ 0.
Proof. unfold compareRatio. rewrite !compareInt_le. intros. nia. Qed.

(** The divisors of the two ratios are positive. *)
Definition measured_ok (id : StrategyID) (a : entry * standing_figures) : Prop :=
  (id = StrategyHybrid → 0 < NominalRate (PosContract (snd (fst a)))) ∧
  (id = StrategyCashflowIndex → 0 < f_required (snd a)).

Lemma compare_by_antisym id a b : compare_by id b a = - compare_by id a b.
Proof.
  destruct a as [[i x] f], b as [[j y] g]. unfold compare_by.
  repeat case_match; first [apply compareInt_antisym|apply compareRatio_antisym|done].
Qed.

Lemma compare_by_trans id a b c :
  measured_ok id a → measured_ok id b → measured_ok id c →
  compare_by id a b ≤ 0 → compare_by id b c ≤ 0 → compare_by id a c ≤ 0.
Proof.
  destruct a as [[i x] f], b as [[j y] g], c as [[k z] h]. unfold measured_ok, compare_by. cbn [fst snd].
  intros [Ha1 Ha2] [Hb1 Hb2] [Hc1 Hc2].
  destruct (is_one_of id _); [rewrite !compareInt_le; lia|].
  destruct (String.eqb id StrategySnowball); [rewrite !compareInt_le; lia|].
  destruct (String.eqb_spec id StrategyHybrid); [by apply compareRatio_trans; auto|].
  destruct (String.eqb id StrategyHighestRequired); [rewrite !compareInt_le; lia|].
  destruct (String.eqb id StrategyHighestInterest); [rewrite !compareInt_le; lia|].
  destruct (String.eqb_spec id StrategyCashflowIndex); [by apply compareRatio_trans; auto|lia].
Qed.


Lemma before_by_asym id a b : before_by id a b = true → before_by id b a = false.
Proof.
  unfold before_by. cbv zeta. rewrite (compare_by_antisym id a b).
  destruct (Z.eqb_spec (compare_by id a b) 0) as [->|]; cbn [negb]; [apply string_ltb_asym|].
  rewrite (proj2 (Z.eqb_neq _ _)) by lia. cbn [negb]. rewrite Z.ltb_lt, Z.ltb_ge. lia.
Qed.

Lemma not_lessID_trans a b c : lessID b a = false → lessID c b = false → lessID c a = false.
Proof.
  unfold lessID. intros H1 H2. apply not_true_iff_false. intros H3.
  destruct (string_ltb_trichotomy (PosID (snd a)) (PosID (snd b))) as [H|[H|H]]; [|congruence|congruence].
  rewrite (string_ltb_trans _ _ _ H3 H) in H2. done.
Qed.

Lemma before_by_trans id a b c :
  measured_ok id a → measured_ok id b → measured_ok id c →
  not_after (before_by id) a b → not_after (before_by id) b c → not_after (before_by id) a c.
Proof.
  intros Ha Hb Hc. unfold not_after, before_by. cbv zeta.
  pose proof (compare_by_trans id a b c Ha Hb Hc). pose proof (compare_by_trans id c b a Hc Hb Ha).
  pose proof (compare_by_trans id c a b Hc Ha Hb). pose proof (compare_by_trans id b c a Hb Hc Ha).
  rewrite (compare_by_antisym id a b), (compare_by_antisym id b c), (compare_by_antisym id a c) in *.
  destruct (Z.eqb_spec (- compare_by id a b) 0) as [E1|E1], (Z.eqb_spec (- compare_by id b c) 0) as [E2|E2],
    (Z.eqb_spec (- compare_by id a c) 0) as [E3|E3]; cbn [negb]; rewrite ?Z.ltb_ge; try lia.
  apply not_lessID_trans.
Qed.

(** The identifiers are distinct. *)
Lemma validate_distinct ls : ∀ seen,
  validateStrategyIDs seen ls = Ok tt → NoDup (PosID <$> ls) ∧ Forall (λ l, (PosID l ∉ seen) ∧ PosID l ≠ "") ls.
Proof.
  induction ls as [|l ls IH]; intros seen H; [split; constructor|]. cbn [validateStrategyIDs] in H.
  destruct (String.eqb_spec (PosID l) "") as [|Hne]; cbn [orb] in H; [done|].
  destruct (bool_decide_reflect (PosID l ∈ seen)) as [|Hin]; [done|]. apply IH in H as [Hnd Hall].
  rewrite fmap_cons. split.
  - apply NoDup_cons. split; [|done]. intros (x & E & Hx)%list_elem_of_fmap. rewrite Forall_forall in Hall.
    destruct (Hall x Hx) as [Hx' _]. apply Hx'. rewrite E. set_solver.
  - constructor; [done|]. eapply Forall_impl; [exact Hall|]. intros x [Hx ?]. split; [set_solver|done].
Qed.

Definition id_of_entry (e : entry) : string := PosID (snd e).

Lemma entries_fst ls : fst <$> entries ls = identity (length ls).
Proof.
  unfold entries, identity. apply list_eq. intros i. rewrite list_lookup_fmap, list_lookup_imap.
  destruct (ls !! i) as [l|] eqn:E; cbn.
  - symmetry. rewrite lookup_seq_lt; [done|]. by eapply lookup_lt_Some.
  - symmetry. apply lookup_seq_ge. by apply lookup_ge_None.
Qed.
Lemma entries_snd ls : snd <$> entries ls = ls.
Proof.
  unfold entries. apply list_eq. intros i. rewrite list_lookup_fmap, list_lookup_imap. by destruct (ls !! i).
Qed.
Lemma ids_of_entries ls : id_of_entry <$> entries ls = PosID <$> ls.
Proof. rewrite <- (entries_snd ls) at 2. by rewrite <- list_fmap_compose. Qed.

Lemma measure_all_fst i id es ms : measure_all i id es = Ok ms → fst <$> ms = es.
Proof.
  revert ms. induction es as [|e es IH]; intros ms H; cbn [measure_all] in H; [by injection H as <-|].
  apply bind_Ok in H as (f & _ & H). apply bind_Ok in H as (rest & Hr & H). injection H as <-. rewrite fmap_cons.
  by rewrite (IH rest).
Qed.

Lemma measure_ok i id l f e : snd e = l → measure i id l = Ok f → measured_ok id (e, f).
Proof.
  intros <- H. unfold measure in H. cbv zeta in H. unfold measured_ok. cbn [fst snd].
  destruct (String.eqb_spec id StrategyHybrid) as [->|Hne]; cbn [andb] in H.
  - destruct (Z.leb_spec (NominalRate (PosContract (snd e))) 0); [done|]. split; [auto|done].
  - split; [done|]. intros ->. cbn [is_one_of existsb] in H. cbn in H.
    apply bind_Ok in H as (sch & _ & H). destruct (Rows sch) as [|row rows]; [done|].
    apply bind_Ok in H as (payoff & _ & H). destruct (Z.leb_spec (minor (Payment row)) 0); [done|].
    by injection H as <-.
Qed.

Lemma measure_all_each i id es ms :
  measure_all i id es = Ok ms → Forall (λ a, measure i id (snd (fst a)) = Ok (snd a)) ms.
Proof.
  revert ms. induction es as [|e es IH]; intros ms H; cbn [measure_all] in H; [by injection H as <-|].
  apply bind_Ok in H as (f & Hf & H). apply bind_Ok in H as (rest & Hr & H). injection H as <-.
  constructor; [done|by apply IH].
Qed.

Lemma measure_all_ok i id es ms : measure_all i id es = Ok ms → Forall (measured_ok id) ms.
Proof.
  intros H%measure_all_each. eapply Forall_impl; [exact H|]. intros [e f] Hm. by eapply measure_ok.
Qed.

Lemma strictly_sorted {A} (f : A → A → bool) (key : A → string) l :
  (∀ a b, not_after f a b → key a ≠ key b → f a b = true) → NoDup (key <$> l) →
  StronglySorted (not_after f) l → StronglySorted (λ a b, f a b = true) l.
Proof.
  intros Hf Hnd H. induction H as [|x l Hl IH Hx]; [constructor|]. rewrite fmap_cons in Hnd.
  apply NoDup_cons in Hnd as [Hnx Hnd]. constructor; [by apply IH|]. rewrite Forall_forall in Hx |- *.
  intros y Hy. apply Hf; [by apply Hx|]. intros E. apply Hnx. rewrite E. by apply list_elem_of_fmap_2.
Qed.

Lemma lessID_strict a b : not_after lessID a b → id_of_entry a ≠ id_of_entry b → lessID a b = true.
Proof.
  unfold not_after, lessID, id_of_entry. intros H Hne.
  destruct (string_ltb_trichotomy (PosID (snd a)) (PosID (snd b))) as [|[|]]; congruence.
Qed.

Lemma before_by_strict id a b :
  not_after (before_by id) a b → id_of_entry (fst a) ≠ id_of_entry (fst b) → before_by id a b = true.
Proof.
  unfold not_after, before_by. cbv zeta. rewrite (compare_by_antisym id a b).
  destruct (Z.eqb_spec (compare_by id a b) 0) as [->|]; cbn [negb]; [apply lessID_strict|].
  rewrite (proj2 (Z.eqb_neq (- _) 0)) by lia. cbn [negb]. rewrite Z.ltb_lt, Z.ltb_ge. lia.
Qed.

(** The caller's names are distinct, and each is looked up. *)
Lemma take_custom_spec names : ∀ lookup ixs,
  take_custom lookup names = Ok ixs → NoDup names ∧ Forall2 (λ name i, lookup !! name = Some i) names ixs.
Proof.
  induction names as [|name names IH]; intros lookup ixs H; cbn [take_custom] in H.
  { injection H as <-. split; constructor. }
  destruct (lookup !! name) as [i|] eqn:E; [|done]. apply bind_Ok in H as (rest & Hr & H). injection H as <-.
  apply IH in Hr as [Hnd H2]. assert (Forall2 (λ n i, n ≠ name ∧ lookup !! n = Some i) names rest) as H2'.
  { eapply Forall2_impl; [exact H2|]. intros n k Hn%lookup_delete_Some. naive_solver. }
  split.
  - constructor; [|done]. intros Hin. apply list_elem_of_lookup_1 in Hin as (k & Hk).
    destruct (Forall2_lookup_l _ _ _ _ _ H2' Hk) as (? & _ & ? & _). done.
  - constructor; [done|]. eapply Forall2_impl; [exact H2'|]. by intros ?? [].
Qed.

Lemma take_custom_live live names ixs :
  NoDup (id_of_entry <$> live) → length names = length live →
  take_custom (list_to_map ((λ e, (PosID (snd e), fst e)) <$> live)) names = Ok ixs →
  ∃ taken, taken ≡ₚ live ∧ id_of_entry <$> taken = names ∧ fst <$> taken = ixs.
Proof.
  intros Hnd Hlen H. apply take_custom_spec in H as [Hn H2].
  assert (NoDup (((λ e, (PosID (snd e), fst e)) <$> live).*1)) as Hkeys.
  { rewrite <- list_fmap_compose. exact Hnd. }
  assert (∃ taken, Forall (λ e, e ∈ live) taken ∧ id_of_entry <$> taken = names ∧ fst <$> taken = ixs) as (taken & Hin & Hid & Hix).
  { clear Hn Hlen. induction H2 as [|name i names ixs Hi _ (taken & Hin & <- & <-)]; [by exists []|].
    apply elem_of_list_to_map_2, list_elem_of_fmap in Hi as (e & [= -> ->] & He).
    exists (e :: taken). split; [by constructor|done]. }
  exists taken. split; [|done]. apply submseteq_length_Permutation.
  - apply NoDup_submseteq; [|by apply Forall_forall]. apply (NoDup_fmap_1 id_of_entry). by rewrite Hid.
  - rewrite <- Hlen, <- Hid, length_fmap. done.
Qed.

(** * Properties *)

(** A strategy is a ranking of the loans. The order it answers with names
    every loan once, first those that can take an optional payment, then the
    others by identifier. A custom order is the caller's, names and all; any
    other is strictly sorted by the figure of the strategy, and by identifier
    where the figures agree. *)
Theorem StrategyOrder_ranks i id ids order :
  StrategyOrder i id ids = Ok order →
  ∃ first rest : list entry, order = fst <$> first ++ rest ∧ first ++ rest ≡ₚ entries (Loans i) ∧
    Forall eligible first ∧ Forall (λ e, ¬ eligible e) rest ∧ StronglySorted (λ a b, lessID a b = true) rest ∧
    if String.eqb id StrategyCustom then id_of_entry <$> first = ids
    else ∃ measured, fst <$> measured = first ∧ StronglySorted (λ a b, before_by id a b = true) measured ∧
      Forall (λ a, measure i id (snd (fst a)) = Ok (snd a)) measured.
Proof.
  intros H. unfold StrategyOrder in H. apply bind_Ok in H as ([] & Hval & H).
  apply validate_distinct in Hval as [Hnd _]. rewrite <- ids_of_entries in Hnd. cbv zeta in H.
  set (es := entries (Loans i)) in *. set (live := filter eligible es) in *.
  set (rest := SliceStable lessID (filter (λ e, ¬ eligible e) es)) in *.
  assert (rest ≡ₚ filter (λ e, ¬ eligible e) es) as Hrest by apply SliceStable_perm.
  assert (live ++ rest ≡ₚ es) as Hall by (rewrite Hrest; apply filter_app_complement).
  assert (Forall eligible live) as Hlive by (apply Forall_forall; by intros e [? _]%list_elem_of_filter).
  assert (Forall (λ e, ¬ eligible e) rest) as Hdead
    by (rewrite Hrest; apply Forall_forall; by intros e [? _]%list_elem_of_filter).
  assert (NoDup (id_of_entry <$> live) ∧ NoDup (id_of_entry <$> rest)) as [Hndl Hndr].
  { rewrite <- Hall, fmap_app in Hnd. by apply NoDup_app in Hnd as (? & _ & ?). }
  assert (StronglySorted (λ a b, lessID a b = true) rest) as Hsr.
  { apply (strictly_sorted lessID id_of_entry); [apply lessID_strict|done|].
    apply SliceStable_sorted; [intros a b; apply string_ltb_asym|intros a b c; apply not_lessID_trans]. }
  destruct (String.eqb id StrategyCustom).
  - destruct (Nat.eqb_spec (length ids) (length live)) as [Hlen|]; cbn [negb] in H; [|done].
    apply bind_Ok in H as (ordered & Ht & H). injection H as <-.
    apply take_custom_live in Ht as (taken & Hp & <- & <-); [|done..].
    exists taken, rest. split_and!; [by rewrite fmap_app|by rewrite Hp|by rewrite Hp|done..].
  - case_if_in H; [done|]. case_if_in H; [done|]. apply bind_Ok in H as (ms & Hm & H). injection H as <-.
    pose proof (measure_all_ok _ _ _ _ Hm) as Hok. pose proof (measure_all_fst _ _ _ _ Hm) as Hfst.
    pose proof (SliceStable_perm (before_by id) ms) as Hp.
    assert (fst <$> SliceStable (before_by id) ms ≡ₚ live) as Hpl by by rewrite Hp, Hfst.
    exists (fst <$> SliceStable (before_by id) ms), rest.
    split_and!; [by rewrite fmap_app, list_fmap_compose|by rewrite Hpl|by rewrite Hpl|done..|].
    exists (SliceStable (before_by id) ms). split; [done|]. split.
    + apply (strictly_sorted (before_by id) (id_of_entry ∘ fst)); [apply before_by_strict| |].
      * rewrite list_fmap_compose. by rewrite Hpl.
      * apply (SliceStable_sorted_on _ (measured_ok id)); [intros; by apply before_by_asym|apply before_by_trans|done].
    + rewrite Hp. by eapply measure_all_each.
Qed.

Lemma StrategyOrder_ranks_witness :
  StrategyOrder (sample_plan (MkDate 2024 3 15)) StrategySnowball [] = Ok [0%nat] ∧
  ∃ first rest : list entry, [0%nat] = fst <$> first ++ rest ∧ first ++ rest ≡ₚ entries (Loans (sample_plan (MkDate 2024 3 15))) ∧
    Forall eligible first.
Proof.
  assert (StrategyOrder (sample_plan (MkDate 2024 3 15)) StrategySnowball [] = Ok [0%nat]) as E by (vm_compute; reflexivity).
  split; [exact E|].
  destruct (StrategyOrder_ranks (sample_plan (MkDate 2024 3 15)) StrategySnowball [] [0%nat] E)
    as (first & rest & Eo & Hp & Hf & _).
  exists first, rest. split; [exact Eo|]. split; [exact Hp|exact Hf].
Defined.
