(* ===== verification/Candidates.v ===== *)
(** The axes of the search, [pkg/core/plan/candidates.go]: priority orders,
    prepayment effects, payment timings and batch thresholds.

    Each axis is shown to hold what it should: every order of the loans, every
    mix of effects over the loans that are free, every mix of timings where fees
    make mixes worth trying. *)
From S2P Require Import Prelude Money Dates Model Allocation Fees PlanBase PlanInput SimState Answer Strategies.

Definition maxExhaustiveOrders : nat := 5.
Definition maxVectorLoans : nat := 4.
Definition maxPolicies : nat := 4096.

(** * Effects and timings *)

(** The indices of the loans a test holds of. *)
Definition indices (test : Position → bool) (ls : list Position) : list nat :=
  fst <$> filter (λ e, test (snd e) = true) (entries ls).

Definition free_effect (l : Position) : bool :=
  bool_decide (Effect (Prepayment (PosContract l)) = PrepayBorrowerChooses) &&
  bool_decide (Type_ (PosContract l) = Annuity) && (0 <? Sign (PosBalance l)).

(** One choice for each bit of the mask: [set b v] is what is written at the
    index whose bit is [b]. *)
Definition masked {A} (base : list A) (free : list nat) (choose : bool → A → A) (mask : Z) : list A :=
  foldl (λ v '(k, i), alter (choose (Z.testbit mask (Z.of_nat k))) i v) base (imap pair free).
Definition masks (free : list nat) : list Z := seqZ 0 (2 ^ Z.of_nat (length free)).

Definition choose_effect (bit : bool) (_ : PrepaymentEffect) : PrepaymentEffect :=
  if bit then PrepayReduceInstalment else PrepayShortenTerm.

Definition effectVectors (ls : list Position) : list (list PrepaymentEffect) :=
  let n := length ls in
  let free := indices free_effect ls in
  if Nat.eqb (length free) 0 then [uniform n PrepayBorrowerChooses]
  else if Nat.ltb maxVectorLoans (length free) then [uniform n PrepayShortenTerm; uniform n PrepayReduceInstalment]
  else masked (uniform n PrepayBorrowerChooses) free choose_effect <$> masks free.

Definition free_timing (l : Position) : bool :=
  bool_decide (Excess l = ExcessReducePrincipal) && (0 <? Sign (PosBalance l)).
Definition bears_fees (l : Position) : bool :=
  let p := Prepayment (PosContract l) in
  Nat.ltb 0 (length (Charges p)) || (0 <? FeeBP p) || (0 <? Sign (MinAmount p)).

Definition choose_timing (bit : bool) (t : Timing) : Timing := if bit then OnReceipt else t.

Definition timingVectors (i : Input) (ls : list Position) : list (list Timing) :=
  let n := length ls in
  let known := 0 <? PayDay (Cash i) in
  let free := if known then indices free_timing ls else [] in
  let fees := known && existsb bears_fees ls in
  if Nat.eqb (length free) 0 then [uniform n OnDue]
  else if Nat.ltb maxVectorLoans (length free) || negb fees
  then [uniform n OnDue; foldl (λ v i, <[i := OnReceipt]> v) (uniform n OnDue) free]
  else masked (uniform n OnDue) free choose_timing <$> masks free.

(** * Thresholds *)

(** The local [add]. *)
Definition add_threshold (s : gset Z * list Amount) (a : Amount) : gset Z * list Amount :=
  let '(seen, out) := s in
  if (0 <? Sign a) && negb (bool_decide (minor a ∈ seen)) then ({[minor a]} ∪ seen, out ++ [a]) else s.

Definition rule_thresholds (cr : Currency) (r : PrepaymentCharge) : list Amount :=
  FreeAllowance r :: (if 0 <? Sign (Fixed r) then [FromMinor (imul (minor (Fixed r)) 100) cr] else []).
Definition loan_thresholds (cr : Currency) (l : Position) : list Amount :=
  (Charges (Prepayment (PosContract l)) ≫= rule_thresholds cr) ++ [MinAmount (Prepayment (PosContract l))].

Definition batchThresholds (i : Input) : list Amount :=
  snd (foldl add_threshold (∅, []) (Loans i ≫= loan_thresholds (in_currency i))).

(** * Orders *)

Record order := MkOrder { or_name : string; or_idx : list nat; or_also : list string }.

Definition nameAvalanche : string := "avalanche".
Definition nameSnowball : string := "snowball".

(** The comparisons of the two named orders. Balances of one currency compare. *)
Definition avalanche_less (a b : entry) : res bool :=
  let x := snd a in let y := snd b in
  let rx := NominalRate (PosContract x) in let ry := NominalRate (PosContract y) in
  if negb (rx =? ry) then Ok (ry <? rx)
  else c ← Cmp (PosBalance x) (PosBalance y); decided c (Ok (lessID a b)).
Definition snowball_less (a b : entry) : res bool :=
  let x := snd a in let y := snd b in
  let rx := NominalRate (PosContract x) in let ry := NominalRate (PosContract y) in
  c ← Cmp (PosBalance x) (PosBalance y);
  decided c (if negb (rx =? ry) then Ok (ry <? rx) else Ok (lessID a b)).

Definition namedOrders (ls : list Position) : res (list order) :=
  av ← sort_checked avalanche_less (entries ls);
  sn ← sort_checked snowball_less (entries ls);
  let name := if String.eqb (avalancheDomain ls) "" then nameAvalanche else StrategyHighestRate in
  Ok [MkOrder name (fst <$> av) []; MkOrder nameSnowball (fst <$> sn) []].

(** [permutations]: swap each later entry into place, recurse, and swap back.
    The state is the slice [cur] and what was copied out. *)
Definition swap (k i : nat) (l : list nat) : list nat :=
  match l !! k, l !! i with Some x, Some y => <[i := x]> (<[k := y]> l) | _, _ => l end.
Fixpoint permute (more k : nat) (s : list nat * list (list nat)) : list nat * list (list nat) :=
  match more with
  | O => (fst s, snd s ++ [fst s])
  | S more =>
      foldl (λ s i, let '(cur, out) := permute more (S k) (swap k i (fst s), snd s) in (swap k i cur, out))
        s (seq k (S more))
  end.
Definition permutations (n : nat) : list order :=
  (λ idx, MkOrder namePermuted idx []) <$> snd (permute n 0 (identity n, [])).

(** [dedupeOrders]: the first of equal orders, with the names of the rest. *)
Definition dedupe (s : gmap string nat * list order) (o : order) : gmap string nat * list order :=
  let '(seen, out) := s in
  let k := bracketed (or_idx o) in
  match seen !! k with
  | Some i => (seen, alter (λ x, MkOrder (or_name x) (or_idx x) (or_also x ++ [or_name o])) i out)
  | None => (<[k := length out]> seen, out ++ [MkOrder (or_name o) (or_idx o) [or_name o]])
  end.
Definition dedupeOrders (os : list order) : list order := snd (foldl dedupe (∅, []) os).

Example permutations_3 :
  or_idx <$> permutations 3 = [[0; 1; 2]; [0; 2; 1]; [1; 0; 2]; [1; 2; 0]; [2; 1; 0]; [2; 0; 1]]%nat.
Proof. reflexivity. Qed.

(** * The vectors *)

Lemma foldl_alter {A} (choose : nat → A → A) ps : ∀ base : list A,
  NoDup (snd <$> ps) →
  let r := foldl (λ v '(k, i), alter (choose k) i v) base ps in
  length r = length base ∧ (∀ k i x, (k, i) ∈ ps → base !! i = Some x → r !! i = Some (choose k x)) ∧
  ∀ i, i ∉ snd <$> ps → r !! i = base !! i.
Proof.
  induction ps as [|[k i] ps IH]; intros base Hnd; cbv zeta; cbn [foldl].
  { split; [done|]. split; [by intros ??? ?%elem_of_nil|done]. }
  rewrite fmap_cons in Hnd. apply NoDup_cons in Hnd as [Hi Hnd]. cbn [snd] in Hi.
  destruct (IH (alter (choose k) i base) Hnd) as (Hlen & Hin & Hout). rewrite length_alter in Hlen.
  split; [done|]. split.
  - intros k' i' x [[= -> ->]|Hp]%elem_of_cons Hx.
    + by rewrite Hout, list_lookup_alter_eq, Hx.
    + assert (i' ≠ i) as Hne. { intros ->. apply Hi. by apply (list_elem_of_fmap_2' snd _ (k', i)). }
      apply Hin; [done|]. by rewrite list_lookup_alter_ne.
  - intros j. rewrite fmap_cons. intros [Hj Hjs]%not_elem_of_cons. rewrite Hout by done.
    by apply list_lookup_alter_ne.
Qed.

Lemma masked_spec {A} (base : list A) free choose mask :
  NoDup free →
  let r := masked base free choose mask in
  length r = length base ∧
  (∀ k i x, free !! k = Some i → base !! i = Some x → r !! i = Some (choose (Z.testbit mask (Z.of_nat k)) x)) ∧
  ∀ i, i ∉ free → r !! i = base !! i.
Proof.
  intros Hnd. assert (snd <$> imap pair free = free) as Es.
  { apply list_eq. intros i. rewrite list_lookup_fmap, list_lookup_imap. by destruct (free !! i). }
  unfold masked. destruct (foldl_alter (λ k, choose (Z.testbit mask (Z.of_nat k))) (imap pair free) base) as (Hl & Hin & Hout);
    [by rewrite Es|]. split; [done|]. split.
  - intros k i x Hk. apply Hin. apply elem_of_lookup_imap. by exists k, i.
  - intros i Hi. apply Hout. by rewrite Es.
Qed.

(** Any choice of bits is some mask. *)
Lemma bits_mask (bs : list bool) :
  ∃ mask, 0 ≤ mask < 2 ^ Z.of_nat (length bs) ∧ ∀ k b, bs !! k = Some b → Z.testbit mask (Z.of_nat k) = b.
Proof.
  induction bs as [|b bs (m & Hm & Hbits)]; [exists 0; split; [cbn; lia|done]|].
  exists (2 * m + Z.b2z b). cbn [length]. rewrite Nat2Z.inj_succ, Z.pow_succ_r by lia.
  split; [destruct b; cbn [Z.b2z]; lia|]. intros [|k] c H; cbn in H.
  - injection H as <-. apply Z.testbit_0_r.
  - rewrite Nat2Z.inj_succ, Z.testbit_succ_r by lia. auto.
Qed.

Lemma elem_of_masks free mask : mask ∈ masks free ↔ 0 ≤ mask < 2 ^ Z.of_nat (length free).
Proof. unfold masks. rewrite elem_of_seqZ. lia. Qed.

Lemma entries_lookup ls i l : (i, l) ∈ entries ls ↔ ls !! i = Some l.
Proof.
  unfold entries. rewrite elem_of_lookup_imap. split; [by intros (? & ? & [= -> ->] & ?)|]. intros H. by exists i, l.
Qed.
Lemma elem_of_indices test ls i : i ∈ indices test ls ↔ ∃ l, ls !! i = Some l ∧ test l = true.
Proof.
  unfold indices. rewrite list_elem_of_fmap. split.
  - intros ([j l] & -> & [Ht He%entries_lookup]%list_elem_of_filter). by exists l.
  - intros (l & Hl & Ht). exists (i, l). split; [done|]. apply list_elem_of_filter. by split; [|apply entries_lookup].
Qed.
Lemma NoDup_fmap_filter {A B} (f : A → B) (P : A → Prop) `{∀ x, Decision (P x)} l :
  NoDup (f <$> l) → NoDup (f <$> filter P l).
Proof.
  induction l as [|x l IH]; [done|]. rewrite fmap_cons, filter_cons. intros [Hx Hnd]%NoDup_cons.
  destruct (decide (P x)); [|by apply IH]. rewrite fmap_cons. apply NoDup_cons. split; [|by apply IH].
  intros (y & E & [_ Hy]%list_elem_of_filter)%list_elem_of_fmap. apply Hx. rewrite E. by apply list_elem_of_fmap_2.
Qed.
Lemma indices_NoDup test ls : NoDup (indices test ls).
Proof. apply NoDup_fmap_filter. rewrite entries_fst. apply NoDup_seq. Qed.

(** Every mix over the free loans, and nothing else. *)
Lemma masked_all {A} (base : list A) free (choose : bool → A → A) v :
  NoDup free → (∀ i, i ∈ free → (i < length base)%nat) →
  v ∈ (masked base free choose <$> masks free) ↔
  length v = length base ∧ ∀ i x, base !! i = Some x →
    if bool_decide (i ∈ free) then ∃ b, v !! i = Some (choose b x) else v !! i = Some x.
Proof.
  intros Hnd Hin. rewrite list_elem_of_fmap. split.
  - intros (mask & -> & _). destruct (masked_spec base free choose mask Hnd) as (Hl & Hfree & Hout).
    split; [done|]. intros i x Hx. case_bool_decide as Hi.
    + apply list_elem_of_lookup_1 in Hi as (k & Hk). eauto.
    + by rewrite Hout.
  - intros [Hlen Hv].
    assert (∃ bs : list bool, length bs = length free ∧ ∀ k i b x, free !! k = Some i → bs !! k = Some b →
      base !! i = Some x → v !! i = Some (choose b x)) as (bs & Hbl & Hbs).
    { assert (∀ fs, (∀ i, i ∈ fs → i ∈ free) → ∃ bs : list bool, length bs = length fs ∧ ∀ k i b x, fs !! k = Some i →
        bs !! k = Some b → base !! i = Some x → v !! i = Some (choose b x)) as Hgen; [|by apply Hgen].
      intros fs. induction fs as [|i fs IH]; intros Hsub; [by exists []|].
      destruct IH as (bs & Hl & Hbs); [intros; apply Hsub; by right|]. assert (i ∈ free) as Hi by (apply Hsub; by left).
      destruct (lookup_lt_is_Some_2 base i (Hin i Hi)) as (x & Hx). specialize (Hv i x Hx).
      rewrite bool_decide_true in Hv by done. destruct Hv as (b & Hb). exists (b :: bs). split; [cbn; lia|].
      intros [|k] j c y Hj Hc Hy; cbn in Hj, Hc; [|by eapply Hbs]. injection Hj as <-. injection Hc as <-. congruence. }
    destruct (bits_mask bs) as (mask & Hm & Hbits). exists mask. rewrite Hbl in Hm. split; [|by apply elem_of_masks].
    destruct (masked_spec base free choose mask Hnd) as (Hl & Hfree & Hout).
    apply list_eq_same_length with (length base); [done..|]. intros i y z Hi Hy Hz.
    destruct (lookup_lt_is_Some_2 base i Hi) as (x & Hx). specialize (Hv i x Hx). case_bool_decide as Hif.
    + apply list_elem_of_lookup_1 in Hif as (k & Hk).
      destruct (lookup_lt_is_Some_2 bs k) as (b & Hb); [rewrite Hbl; by eapply lookup_lt_Some|].
      rewrite (Hfree k i x Hk Hx), (Hbits k b Hb) in Hz. rewrite (Hbs k i b x Hk Hb Hx) in Hy. congruence.
    + rewrite Hout in Hz by done. congruence.
Qed.

(** A choice for each loan the test holds of, the fixed value for the others. *)
Definition a_mix {A} (test : Position → bool) (fixed : A) (choices : A → Prop) (ls : list Position) (v : list A) : Prop :=
  length v = length ls ∧
  ∀ i l, ls !! i = Some l → ∃ x, v !! i = Some x ∧ if test l then choices x else x = fixed.

Lemma masked_mixes {A} test (fixed : A) (choose : bool → A → A) (choices : A → Prop) ls v :
  (∀ x, choices x ↔ ∃ b, x = choose b fixed) →
  v ∈ masked (uniform (length ls) fixed) (indices test ls) choose <$> masks (indices test ls) ↔
  a_mix test fixed choices ls v.
Proof.
  intros Hc. rewrite masked_all; [|apply indices_NoDup|].
  2:{ intros i (l & Hl%lookup_lt_Some & _)%elem_of_indices. unfold uniform. by rewrite length_replicate. }
  unfold a_mix, uniform. rewrite length_replicate. split; intros [Hn H]; (split; [done|]); intros i.
  - intros l Hl. specialize (H i fixed). rewrite lookup_replicate in H.
    specialize (H ltac:(split; [done|by eapply lookup_lt_Some])). case_bool_decide as Hi.
    + destruct H as (b & Hb). apply elem_of_indices in Hi as (l' & Hl' & Ht). rewrite Hl in Hl'. injection Hl' as <-.
      rewrite Ht. exists (choose b fixed). rewrite Hc. eauto.
    + exists fixed. split; [done|]. destruct (test l) eqn:Ht; [|done]. destruct Hi. apply elem_of_indices. eauto.
  - intros x [-> Hi]%lookup_replicate. destruct (lookup_lt_is_Some_2 ls i Hi) as (l & Hl).
    destruct (H i l Hl) as (x & Hx & Ht). case_bool_decide as Hf.
    + apply elem_of_indices in Hf as (l' & Hl' & Htl). rewrite Hl in Hl'. injection Hl' as <-. rewrite Htl in Ht.
      apply Hc in Ht as (b & ->). eauto.
    + destruct (test l) eqn:Htl; [|by subst]. destruct Hf. apply elem_of_indices. eauto.
Qed.

(** Nothing is free: there is one vector. *)
Lemma no_mix {A} test (fixed : A) (choices : A → Prop) ls v :
  indices test ls = [] → v ∈ [uniform (length ls) fixed] ↔ a_mix test fixed choices ls v.
Proof.
  intros Hf. assert (∀ i l, ls !! i = Some l → test l = false) as Hno.
  { intros i l Hl. destruct (test l) eqn:Ht; [|done]. assert (i ∈ indices test ls) as Hi by (apply elem_of_indices; eauto).
    rewrite Hf in Hi. by apply elem_of_nil in Hi. }
  rewrite list_elem_of_singleton. unfold uniform. split.
  - intros ->. split; [apply length_replicate|]. intros i l Hl. exists fixed. rewrite (Hno i l Hl). split; [|done].
    apply lookup_replicate. split; [done|by eapply lookup_lt_Some].
  - intros [Hn H]. apply list_eq_same_length with (length ls); [apply length_replicate|done|].
    intros i x y Hi Hx Hy. apply lookup_replicate in Hy as [-> _].
    destruct (lookup_lt_is_Some_2 ls i Hi) as (l & Hl). destruct (H i l Hl) as (z & Hz & E). rewrite (Hno i l Hl) in E. congruence.
Qed.

Definition effect_choices (e : PrepaymentEffect) : Prop := e = PrepayShortenTerm ∨ e = PrepayReduceInstalment.

(** Up to four loans are free to choose: every vector of effects. *)
Lemma effectVectors_all ls v :
  (length (indices free_effect ls) ≤ maxVectorLoans)%nat →
  v ∈ effectVectors ls ↔ a_mix free_effect PrepayBorrowerChooses effect_choices ls v.
Proof.
  intros Hn. unfold effectVectors. destruct (Nat.eqb_spec (length (indices free_effect ls)) 0) as [Hz|Hz].
  { apply no_mix. by apply nil_length_inv. }
  rewrite (proj2 (Nat.ltb_ge _ _)) by done. apply masked_mixes. intros x. unfold effect_choices, choose_effect. split.
  - intros [->| ->]; [by exists false|by exists true].
  - intros ([] & ->); auto.
Qed.

Definition may_credit (i : Input) (l : Position) : bool := (0 <? PayDay (Cash i)) && free_timing l.
Definition timing_choices (t : Timing) : Prop := t = OnReceipt ∨ t = OnDue.

Lemma indices_none ls : indices (λ _, false) ls = [].
Proof.
  destruct (indices _ ls) as [|i l] eqn:E; [done|].
  assert (i ∈ indices (λ _, false) ls) as (? & _ & ?)%elem_of_indices by (rewrite E; by left). done.
Qed.
Lemma indices_may_credit i ls :
  indices (may_credit i) ls = if 0 <? PayDay (Cash i) then indices free_timing ls else [].
Proof. unfold may_credit. destruct (0 <? _); [done|]. apply indices_none. Qed.

(** Up to four loans can be credited early, and fees make mixes worth trying. *)
Lemma timingVectors_all i ls v :
  (length (indices (may_credit i) ls) ≤ maxVectorLoans)%nat →
  existsb bears_fees ls = true ∨ indices (may_credit i) ls = [] →
  v ∈ timingVectors i ls ↔ a_mix (may_credit i) OnDue timing_choices ls v.
Proof.
  intros Hn Hf. unfold timingVectors. rewrite <- indices_may_credit.
  destruct (Nat.eqb_spec (length (indices (may_credit i) ls)) 0) as [Hz|Hz].
  { apply no_mix. by apply nil_length_inv. }
  rewrite (proj2 (Nat.ltb_ge _ _)) by done. destruct Hf as [Hf|Hf]; [|by rewrite Hf in Hz].
  assert ((0 <? PayDay (Cash i)) = true) as ->.
  { rewrite indices_may_credit in Hz. by destruct (0 <? PayDay (Cash i)). }
  rewrite Hf. cbn [andb negb orb]. apply masked_mixes. intros x. unfold timing_choices, choose_timing. split.
  - intros [->| ->]; [by exists true|by exists false].
  - intros ([] & ->); auto.
Qed.

(** * Permutations *)

Definition transpose (k i j : nat) : nat := if Nat.eqb j k then i else if Nat.eqb j i then k else j.

Lemma transpose_twice k i j : transpose k i (transpose k i j) = j.
Proof.
  unfold transpose. destruct (Nat.eqb_spec j k) as [Hj|Hj]; [|destruct (Nat.eqb_spec j i) as [Hi|Hi]].
  - destruct (Nat.eqb_spec i k); [congruence|by rewrite Nat.eqb_refl].
  - by rewrite Nat.eqb_refl.
  - by rewrite (proj2 (Nat.eqb_neq j k) Hj), (proj2 (Nat.eqb_neq j i) Hi).
Qed.

Lemma swap_lookup k i l j :
  (k < length l)%nat → (i < length l)%nat → swap k i l !! j = l !! transpose k i j.
Proof.
  intros Hk Hi. destruct (lookup_lt_is_Some_2 l k Hk) as (x & Hx), (lookup_lt_is_Some_2 l i Hi) as (y & Hy).
  unfold swap, transpose. rewrite Hx, Hy. destruct (Nat.eqb_spec j k) as [->|Hjk]; [|destruct (Nat.eqb_spec j i) as [->|Hji]].
  - destruct (decide (i = k)) as [->|Hik]; [rewrite list_lookup_insert_eq by (by rewrite length_insert); congruence|].
    rewrite list_lookup_insert_ne, list_lookup_insert_eq by done. done.
  - rewrite list_lookup_insert_eq by (by rewrite length_insert). done.
  - by rewrite !list_lookup_insert_ne.
Qed.
Lemma length_swap k i l : length (swap k i l) = length l.
Proof. unfold swap. repeat case_match; by rewrite ?length_insert. Qed.

Lemma swap_perm k i l : (k < length l)%nat → (i < length l)%nat → swap k i l ≡ₚ l.
Proof.
  intros Hk Hi. apply Permutation_inj. split; [apply length_swap|]. exists (transpose k i). split.
  - intros a b E. rewrite <- (transpose_twice k i a), E. apply transpose_twice.
  - intros j. by apply swap_lookup.
Qed.
Lemma swap_twice k i l : (k < length l)%nat → (i < length l)%nat → swap k i (swap k i l) = l.
Proof.
  intros Hk Hi. apply list_eq. intros j. rewrite !swap_lookup by (by rewrite ?length_swap). by rewrite transpose_twice.
Qed.

(** What one call copies out; the slice is left as it was. *)
Definition perms_from (more k : nat) (cur : list nat) : list (list nat) := snd (permute more k (cur, [])).

Lemma permute_restores more : ∀ k cur out,
  length cur = (k + more)%nat → permute more k (cur, out) = (cur, out ++ perms_from more k cur).
Proof.
  unfold perms_from. induction more as [|more IH]; intros k cur out Hn; [done|]. cbn [permute].
  assert (∀ js o, (∀ j, j ∈ js → k ≤ j < length cur)%nat →
    foldl (λ s i, let '(c, o) := permute more (S k) (swap k i (fst s), snd s) in (swap k i c, o)) (cur, o) js =
    (cur, o ++ (js ≫= λ j, snd (permute more (S k) (swap k j cur, []))))) as Hfold.
  { intros js. induction js as [|j js IHj]; intros o Hjs; [by rewrite app_nil_r|]. cbn [foldl fst snd].
    assert (k ≤ j < length cur)%nat as Hj by (apply Hjs; by left).
    rewrite IH by (rewrite length_swap; lia). rewrite swap_twice by lia. rewrite IHj by (intros; apply Hjs; by right).
    by rewrite <- app_assoc. }
  rewrite !Hfold by (intros j Hj%elem_of_seq; lia). done.
Qed.

Lemma perms_from_S more k cur :
  length cur = (k + S more)%nat →
  perms_from (S more) k cur = seq k (S more) ≫= λ i, perms_from more (S k) (swap k i cur).
Proof.
  intros Hn. unfold perms_from at 1. cbn [permute].
  assert (∀ js o, (∀ j, j ∈ js → k ≤ j < length cur)%nat →
    foldl (λ s i, let '(c, o) := permute more (S k) (swap k i (fst s), snd s) in (swap k i c, o)) (cur, o) js =
    (cur, o ++ (js ≫= λ j, perms_from more (S k) (swap k j cur)))) as Hfold.
  { intros js. induction js as [|j js IHj]; intros o Hjs; [by rewrite app_nil_r|]. cbn [foldl fst snd].
    assert (k ≤ j < length cur)%nat as Hj by (apply Hjs; by left).
    rewrite permute_restores by (rewrite length_swap; lia). rewrite swap_twice by lia.
    rewrite IHj by (intros; apply Hjs; by right). by rewrite <- app_assoc. }
  by rewrite Hfold by (intros j Hj%elem_of_seq; lia).
Qed.

Lemma take_swap k i l :
  (k ≤ i < length l)%nat → ∀ x, l !! i = Some x → take (S k) (swap k i l) = take k l ++ [x].
Proof.
  intros Hi x Hx. assert (swap k i l !! k = Some x) as Hk.
  { rewrite swap_lookup by lia. unfold transpose. by rewrite Nat.eqb_refl. }
  rewrite (take_S_r _ _ _ Hk). f_equal. apply list_eq. intros j.
  destruct (Nat.lt_ge_cases j k).
  - rewrite !lookup_take_lt, swap_lookup by lia. unfold transpose.
    by rewrite (proj2 (Nat.eqb_neq j k)), (proj2 (Nat.eqb_neq j i)) by lia.
  - by rewrite !lookup_take_ge by lia.
Qed.

Lemma elem_of_perms_from more : ∀ k cur p,
  length cur = (k + more)%nat → p ∈ perms_from more k cur ↔ p ≡ₚ cur ∧ take k p = take k cur.
Proof.
  induction more as [|more IH]; intros k cur p Hn.
  { unfold perms_from. cbn. rewrite list_elem_of_singleton. split; [by intros ->|]. intros [Hp Ht].
    pose proof (Permutation_length Hp). rewrite !take_ge in Ht by lia. done. }
  rewrite perms_from_S, list_elem_of_bind by done. split.
  - intros (i & Hp & Hi%elem_of_seq). apply IH in Hp as [Hp Ht]; [|rewrite length_swap; lia].
    destruct (lookup_lt_is_Some_2 cur i ltac:(lia)) as (x & Hx). rewrite (take_swap k i cur ltac:(lia) x Hx) in Ht.
    split; [rewrite Hp; apply swap_perm; lia|]. apply (f_equal (take k)) in Ht.
    rewrite take_take, Nat.min_l, take_app_le, take_take, Nat.min_id in Ht by (rewrite ?length_take; lia). done.
  - intros [Hp Ht]. pose proof (Permutation_length Hp) as Hl.
    destruct (lookup_lt_is_Some_2 p k ltac:(lia)) as (x & Hx).
    assert (x ∈ drop k cur) as Hin.
    { assert (drop k p ≡ₚ drop k cur) as <-.
      { rewrite <- (take_drop k p), <- (take_drop k cur), Ht in Hp. by apply (Permutation_app_inv_l (take k cur)). }
      apply (list_elem_of_lookup_2 _ 0). rewrite lookup_drop, Nat.add_0_r. done. }
    apply list_elem_of_lookup_1 in Hin as (j & Hj). rewrite lookup_drop in Hj.
    pose proof (lookup_lt_Some _ _ _ Hj) as Hlt. exists (k + j)%nat. split; [|apply elem_of_seq; lia].
    apply IH; [rewrite length_swap; lia|]. split; [by rewrite swap_perm by lia|].
    rewrite (take_swap k (k + j) cur ltac:(lia) x Hj), (take_S_r p k x Hx). by rewrite Ht.
Qed.

Lemma permutations_all n p : p ∈ (or_idx <$> permutations n) ↔ p ≡ₚ identity n.
Proof.
  unfold permutations. rewrite <- list_fmap_compose, (list_fmap_ext _ id) by done. rewrite list_fmap_id.
  change (snd (permute n 0 (identity n, []))) with (perms_from n 0 (identity n)).
  rewrite elem_of_perms_from by (unfold identity; rewrite length_seq; lia). rewrite !take_0. naive_solver.
Qed.

(** * Equal orders print alike, and only they do *)

Definition is_digit (c : Ascii.ascii) : Prop := is_Some (digit_val c).

Lemma digits_val_snoc l c v d : digits_val l = Some v → digit_val c = Some d → digits_val (l ++ [c]) = Some (10 * v + d).
Proof. unfold digits_val. rewrite foldl_app. intros -> Hd. cbn. by rewrite Hd. Qed.

Definition shown_digit (n : Z) : bool := bool_decide (digit_val (digit n) = Some n).
Lemma shown_digits : all_from 10 0 shown_digit = true.
Proof. vm_compute. reflexivity. Qed.
Lemma digit_val_digit n : 0 ≤ n < 10 → digit_val (digit n) = Some n.
Proof. intros Hn. pose proof (all_from_spec _ _ _ shown_digits n ltac:(lia)) as H. by apply bool_decide_eq_true in H. Qed.

Lemma digits_go_val fuel : ∀ n acc,
  0 ≤ n < 10 ^ Z.of_nat fuel → (0 < fuel)%nat →
  ∃ l, digits_go fuel n acc = l ++ acc ∧ digits_val l = Some n ∧ Forall is_digit l ∧ l ≠ [].
Proof.
  induction fuel as [|fuel IH]; intros n acc Hn Hf; [lia|]. cbn [digits_go].
  assert (0 ≤ n mod 10 < 10) as Hm by (apply Z.mod_pos_bound; lia). pose proof (digit_val_digit _ Hm) as Hd.
  assert (is_digit (digit (n mod 10))) as Hdig by (by eexists). destruct (Z.ltb_spec n 10).
  - exists [digit (n mod 10)]. split; [done|]. split; [|split; [by constructor|done]].
    unfold digits_val. cbn. rewrite Hd. cbn. f_equal. rewrite Z.mod_small; lia.
  - replace (Z.of_nat (S fuel)) with (Z.of_nat fuel + 1) in Hn by lia. rewrite Z.pow_add_r in Hn by lia.
    destruct (IH (n / 10) (digit (n mod 10) :: acc)) as (l & El & Hv & Hl & Hne).
    { split; [apply Z.div_pos; lia|]. apply Z.div_lt_upper_bound; lia. }
    { destruct fuel; [cbn in Hn; lia|lia]. }
    exists (l ++ [digit (n mod 10)]). rewrite El, <- app_assoc. split; [done|]. split.
    + rewrite (digits_val_snoc _ _ _ _ Hv Hd). f_equal. pose proof (Z.div_mod n 10). lia.
    + split; [apply Forall_app; by repeat constructor|by destruct l].
Qed.

(** Reading back what ["%d"] prints. *)
Lemma decimal_val n : 0 ≤ n → digits_val (decimal n) = Some n ∧ Forall is_digit (decimal n) ∧ decimal n ≠ [].
Proof.
  intros Hn. unfold decimal. destruct (digits_go_val (S (Z.to_nat (Z.log2 n))) n []) as (l & -> & H); [|lia|by rewrite app_nil_r].
  split; [done|]. destruct (decide (n = 0)) as [->|]; [by vm_compute|]. pose proof (Z.log2_spec n ltac:(lia)) as [_ Hlog].
  pose proof (Z.log2_nonneg n). rewrite Nat2Z.inj_succ, Z2Nat.id by done. eapply Z.lt_le_trans; [done|].
  apply Z.pow_le_mono_l. lia.
Qed.

Lemma decimal_inj m n : 0 ≤ m → 0 ≤ n → decimal m = decimal n → m = n.
Proof. intros Hm Hn E. destruct (decimal_val m Hm) as [H _], (decimal_val n Hn) as [H' _]. rewrite E in H. congruence. Qed.

(** Runs of digits, each with what ends it. *)
Lemma digits_apart l : ∀ k c d r t,
  Forall is_digit l → Forall is_digit k → ¬ is_digit c → ¬ is_digit d →
  l ++ c :: r = k ++ d :: t → l = k ∧ c = d ∧ r = t.
Proof.
  induction l as [|x l IH]; intros [|y k] c d r t Hl Hk Hc Hd E; cbn in E; simplify_eq; try done.
  - by apply Forall_cons in Hk as [? _].
  - by apply Forall_cons in Hl as [? _].
  - apply Forall_cons in Hl as [_ Hl], Hk as [_ Hk]. destruct (IH k c d r t) as (-> & -> & ->); done.
Qed.

Definition close : Ascii.ascii := Ascii.ascii_of_nat 93.
Definition blank : Ascii.ascii := Ascii.ascii_of_nat 32.
Definition opening : Ascii.ascii := Ascii.ascii_of_nat 91.

Fixpoint listed (l : list nat) : list Ascii.ascii :=
  match l with
  | [] => [close]
  | [i] => decimal (Z.of_nat i) ++ [close]
  | i :: l => decimal (Z.of_nat i) ++ blank :: listed l
  end.

Lemma string_of_app l k : String.string_of_list_ascii (l ++ k) =
  String.append (String.string_of_list_ascii l) (String.string_of_list_ascii k).
Proof. induction l as [|c l IH]; [done|]. cbn. by rewrite IH. Qed.

Lemma operand_nat i : operand_d (Z.of_nat i) = String.string_of_list_ascii (decimal (Z.of_nat i)).
Proof. unfold operand_d, Sprintf_d. by rewrite (proj2 (Z.ltb_ge (Z.of_nat i) 0)) by lia. Qed.

Lemma join_listed l :
  String.append (join " " ((λ i, operand_d (Z.of_nat i)) <$> l)) "]" = String.string_of_list_ascii (listed l).
Proof.
  induction l as [|i [|j l] IH]; [done|..].
  - change (String.append (operand_d (Z.of_nat i)) "]" = String.string_of_list_ascii (decimal (Z.of_nat i) ++ [close])).
    by rewrite operand_nat, string_of_app.
  - change (String.append (String.append (operand_d (Z.of_nat i))
        (String.append " " (join " " ((λ i, operand_d (Z.of_nat i)) <$> j :: l)))) "]" =
      String.string_of_list_ascii (decimal (Z.of_nat i) ++ blank :: listed (j :: l))).
    rewrite operand_nat, string_of_app, <- !append_assoc, IH. done.
Qed.
Lemma bracketed_listed l : bracketed l = String.string_of_list_ascii (opening :: listed l).
Proof.
  change (String.append "[" (String.append (join " " ((λ i, operand_d (Z.of_nat i)) <$> l)) "]") =
    String.append "[" (String.string_of_list_ascii (listed l))).
  by rewrite join_listed.
Qed.

Lemma listed_inj l : ∀ k, listed l = listed k → l = k.
Proof.
  assert (¬ is_digit close ∧ ¬ is_digit blank) as [Hb Hs].
  { split; intros [x Hx]; by vm_compute in Hx. }
  assert (∀ i, Forall is_digit (decimal (Z.of_nat i)) ∧ decimal (Z.of_nat i) ≠ []) as Hdec.
  { intros i. apply (decimal_val (Z.of_nat i)). lia. }
  assert (∀ i c r, decimal (Z.of_nat i) ++ c :: r ≠ [close]) as Hne.
  { intros i c r E. destruct (Hdec i) as [Hd Hn]. destruct (decimal (Z.of_nat i)) as [|x d]; [done|].
    injection E as -> _. by apply Forall_cons in Hd as [? _]. }
  induction l as [|i l IH]; intros [|j k] E; [done|exfalso..|].
  - cbn in E. destruct k; by eapply Hne.
  - cbn in E. destruct l; by eapply Hne.
  - assert (i = j ∧ ((l = [] ∧ k = []) ∨ (l ≠ [] ∧ k ≠ [] ∧ listed l = listed k))) as [-> H].
    { cbn in E. destruct l as [|x l], k as [|y k];
        apply digits_apart in E as (Ed%decimal_inj & Ec & Er); try apply Hdec; try done; try lia; split; auto; lia. }
    destruct H as [[-> ->]|(_ & _ & H)]; [done|]. f_equal. by apply IH.
Qed.

Lemma bracketed_inj l k : bracketed l = bracketed k → l = k.
Proof.
  rewrite !bracketed_listed. intros E. apply (f_equal String.list_ascii_of_string) in E.
  rewrite !String.list_ascii_of_string_of_list_ascii in E. injection E as E. by apply listed_inj.
Qed.

(** [dedupeOrders] keeps one of each order. *)
Lemma dedupe_keeps os : ∀ seen out,
  NoDup (or_idx <$> out) → (∀ k i, seen !! k = Some i → ∃ o, out !! i = Some o ∧ bracketed (or_idx o) = k) →
  (∀ o, o ∈ out → is_Some (seen !! bracketed (or_idx o))) →
  let r := snd (foldl dedupe (seen, out) os) in
  NoDup (or_idx <$> r) ∧ ∀ p, p ∈ or_idx <$> r ↔ p ∈ or_idx <$> out ∨ p ∈ or_idx <$> os.
Proof.
  induction os as [|o os IH]; intros seen out Hnd Hsound Hcomp; cbv zeta; cbn [foldl].
  { split; [done|]. intros p. cbn. set_solver. }
  unfold dedupe at 2 4. destruct (seen !! bracketed (or_idx o)) as [i|] eqn:Ei.
  - destruct (Hsound _ _ Ei) as (o' & Ho' & E%bracketed_inj).
    set (f := λ x, MkOrder (or_name x) (or_idx x) (or_also x ++ [or_name o])).
    assert (or_idx <$> alter f i out = or_idx <$> out) as Ef.
    { apply list_eq. intros j. rewrite !list_lookup_fmap. destruct (decide (j = i)) as [->|Hj].
      - rewrite list_lookup_alter_eq. by destruct (out !! i).
      - by rewrite list_lookup_alter_ne. }
    destruct (IH seen (alter f i out)) as [H1 H2]; [by rewrite Ef|..].
    + intros k j Hk. destruct (Hsound k j Hk) as (x & Hx & Hb). destruct (decide (j = i)) as [->|Hj].
      * exists (f x). rewrite list_lookup_alter_eq, Hx. done.
      * exists x. by rewrite list_lookup_alter_ne.
    + intros x Hx. assert (or_idx x ∈ or_idx <$> out) as (y & -> & Hy)%list_elem_of_fmap; [|by apply Hcomp].
      rewrite <- Ef. by apply list_elem_of_fmap_2.
    + split; [done|]. intros p. rewrite H2, Ef, fmap_cons, elem_of_cons. split; [tauto|].
      intros [?|[->|?]]; auto. left. rewrite <- E. apply list_elem_of_fmap_2. by eapply list_elem_of_lookup_2.
  - destruct (IH (<[bracketed (or_idx o) := length out]> seen) (out ++ [MkOrder (or_name o) (or_idx o) [or_name o]])) as [H1 H2].
    + rewrite fmap_app. apply NoDup_app. split; [done|]. cbn. split; [|by apply NoDup_singleton].
      intros p (x & -> & Hx)%list_elem_of_fmap E%list_elem_of_singleton. destruct (Hcomp x Hx) as [j Hj].
      rewrite E in Hj. congruence.
    + intros k j. rewrite lookup_insert_Some. intros [[<- <-]|[_ Hk]].
      * exists (MkOrder (or_name o) (or_idx o) [or_name o]). split; [|done]. by apply list_lookup_middle.
      * destruct (Hsound k j Hk) as (x & Hx & Hb). exists x. split; [|done]. by apply lookup_app_l_Some.
    + intros x [Hx| ->%list_elem_of_singleton]%elem_of_app.
      * destruct (Hcomp x Hx) as [j Hj]. rewrite lookup_insert_is_Some. destruct (decide (bracketed (or_idx o) = bracketed (or_idx x))); eauto.
      * cbn. rewrite lookup_insert_eq. eauto.
    + split; [done|]. intros p. rewrite H2, fmap_app, fmap_cons, elem_of_app, !elem_of_cons.
      cbn [fmap list_fmap]. rewrite elem_of_cons, elem_of_nil. tauto.
Qed.

Lemma dedupeOrders_keeps os :
  NoDup (or_idx <$> dedupeOrders os) ∧ ∀ p, p ∈ or_idx <$> dedupeOrders os ↔ p ∈ or_idx <$> os.
Proof.
  destruct (dedupe_keeps os ∅ []) as [H1 H2]; [by constructor|..].
  - intros k i. by rewrite lookup_empty.
  - intros o. by rewrite elem_of_nil.
  - split; [done|]. intros p. rewrite H2. cbn. rewrite elem_of_nil. tauto.
Qed.
