(* ===== verification/Dynamic.v ===== *)
(** The reduced dynamic search of [pkg/core/plan/dynamic.go]: up to three fixed
    instalments falling due on one day, and every split of the cash at each due
    date, looked at once through a memo and under a cap on the work.

    The search is shown to answer with a cheapest plan among all plans that
    split the cash into quanta, the shortest of the cheapest, whenever it was
    not cut short; and with a real plan whenever it answers with one. *)
From S2P Require Import Prelude Money Dates Model Allocation PlanBase PlanInput SimState Effects Answer.

Record DynamicRequest := MkDynamicRequest {
  DrInput : Input;
  DrHorizon : Z;
  DrMaxStates : Z;
  DrQuantum : Z }.

Record DynamicStep := MkDynamicStep {
  DsOn : Date;
  DsRequired : list Amount;
  DsExtras : list Amount;
  DsInterest : Amount;
  DsCash : Amount }.

(** [SharedInputHash] is left out. *)
Record DynamicReport := MkDynamicReport {
  DrSteps : list DynamicStep;
  DrCost : option Amount;
  DrPayoff : Date;
  Complete : bool;
  DrCertificate : Certificate }.

(** The array of three balances has one entry for each loan; the entries past
    them stay zero and are left out. *)
Record dynamicKey := MkDynamicKey { k_Event : Z; k_Cash : Z; k_Balances : list Z }.
#[export] Instance dynamicKey_eq_dec : EqDecision dynamicKey.
Proof. solve_decision. Defined.
#[export] Instance dynamicKey_countable : Countable dynamicKey.
Proof.
  apply (inj_countable' (λ k, (k_Event k, k_Cash k, k_Balances k)) (λ '(e, c, b), MkDynamicKey e c b)). by intros [].
Defined.

Record dynamicTail := MkDynamicTail { t_found : bool; t_cost : Z; t_steps : list DynamicStep }.
Definition no_tail : dynamicTail := MkDynamicTail false 0 [].

(** The fields of [dynamicSearch] that change. *)
Record dynamicSearch := MkDynamicSearch {
  d_work : Z;
  d_states : Z;
  d_truncated : bool;
  d_memo : gmap dynamicKey dynamicTail }.
#[export] Instance dynamicSearch_eta : Eta dynamicSearch := λ s,
  MkDynamicSearch (d_work s) (d_states s) (d_truncated s) (d_memo s).
Abbreviation D := (Step dynamicSearch).

(** * The domain *)

Definition outside {A} (reason : string) : pres A := unsupported "" (String.append "dynamic domain: " reason).

(** The checks of one loan, against the first contract. *)
Definition check_dynamic_loan (i : Input) (first : Contract) (l : Position) : pres unit :=
  let c := PosContract l in
  let unit := Unit (Rounding first) in
  if negb (Equal (From l) (ValuationDate i)) || (Sign (PosBalance l) <=? 0) || OptionalExcluded l
  then outside "positive live loans with fresh anchors, no exclusions"
  else if negb (bool_decide (Type_ c = Annuity)) || negb (bool_decide (Effect (Prepayment c) = PrepayShortenTerm)) ||
    negb (HasScheduled c) || (Sign (ScheduledPayment c) <=? 0)
  then outside "supplied fixed instalments and shorten-term effects required"
  else if negb (bool_decide (cur (ScheduledPayment c) = in_currency i))
  then outside "instalment currency differs from funding"
  else if negb (PaymentDay c =? PaymentDay first) || negb (Dates.IsZero (NotBeforeDue c)) ||
    negb (Dates.IsZero (EffectiveThru c))
  then outside "synchronized dates without deferred dues or rate windows required"
  else if negb (bool_decide (ContractDayCount c = Actual365)) && negb (bool_decide (ContractDayCount c = Actual360))
  then outside "actual/365 or actual/360 required"
  else
    b ← irem (minor (PosBalance l)) unit; p ← irem (minor (ScheduledPayment c)) unit;
    if negb (bool_decide (Rounding c = Rounding first)) || negb (b =? 0) || negb (p =? 0)
    then outside "common rounding and quantum-aligned principal/instalments required"
    else if negb (bool_decide (Excess l = ExcessReducePrincipal)) || negb (Nat.eqb (length (Charges (Prepayment c))) 0) ||
      negb (FeeBP (Prepayment c) =? 0) || negb (Sign (MinAmount (Prepayment c)) =? 0)
    then outside "immediate principal credit without fees or thresholds required"
    else Ok tt.

Definition dynamicDomain (i : Input) : pres unit :=
  let cash := Cash i in
  if Nat.ltb 3 (length (Loans i)) then outside "at most three loans"
  else if SeparateSpending cash || negb (bool_decide (MonthlyOverrides cash = ∅)) ||
    negb (Nat.eqb (length (Lumps cash)) 0) || negb (Sign (ReserveFloor cash) =? 0) || negb (Dates.IsZero (CashThrough cash))
  then outside "constant legacy funding without reserves, events or spending permissions required"
  else match Loans i with
  | [] => Panic "index out of range [0] with length 0"
  | l :: _ =>
      let first := PosContract l in
      let unit := Unit (Rounding first) in
      if (PaymentDay first <? 1) || (28 <? PaymentDay first) || negb (Day (ValuationDate i) =? PaymentDay first)
      then outside "valuation and common payment day must match, in 1..28"
      else if negb (PayDay cash =? 0)
      then outside "unknown payday (funding on first due) required; explicit payday may fund valuation day"
      else if unit <=? 0 then outside "explicit positive settlement unit required"
      else
        m ← irem (minor (Monthly cash)) unit; o ← irem (minor (OpeningCash cash)) unit;
        if negb (m =? 0) || negb (o =? 0) then outside "cash must be quantum aligned"
        else each (check_dynamic_loan i first) (Loans i)
  end.

(** * The search *)

Definition dynamicAdd (a b : Z) : pres Z :=
  if (0 <? b) && (MaxInt64 - b <? a) then sentinel_err ErrOverflow else Ok (iadd a b).

(** [for amount := top; amount >= 0; amount -= quantum]. *)
Definition amounts (quantum top : Z) : list Z :=
  (λ k, top - k * quantum) <$> seqZ 0 (top / quantum + 1).

(** The loop over amounts, left when the search was cut short. *)
Section Amounts.
Context (f : dynamicTail → Z → D dynamicTail).
Fixpoint try_amounts (l : list Z) (best : dynamicTail) : D dynamicTail :=
  match l with
  | [] => mret best
  | x :: l =>
      best ← f best x; cut ← reads d_truncated;
      if (cut : bool) then mret best else try_amounts l best
  end.
End Amounts.

(** The better of an incumbent and a plan through [tail]. *)
Definition keep_best (best : dynamicTail) (cost : Z) (step : DynamicStep) (tail : dynamicTail) : dynamicTail :=
  if negb (t_found best) || (cost <? t_cost best) ||
    ((cost =? t_cost best) && Nat.ltb (length (t_steps tail) + 1) (length (t_steps best)))
  then MkDynamicTail true cost (step :: t_steps tail) else best.

Section Search.
Context (inp : Input) (horizon limit quantum : Z).
#[local] Abbreviation cr := (in_currency inp).

Definition tick : D bool :=
  work ← reads d_work;
  if limit <=? work then _ ← writes (set d_truncated (λ _, true)); mret false
  else _ ← writes (set d_work (λ w, w + 1)); mret true.

Definition common_day : Z := match Loans inp with l :: _ => PaymentDay (PosContract l) | [] => 0 end.
Definition event_date (event : Z) : Date :=
  if 0 <? event then Occurrence (ValuationDate inp) common_day event else ValuationDate inp.

(** The instalments of a due date: what each loan is paid, the balances, cash
    and interest after them; nothing when the cash does not reach. *)
Fixpoint pay_required (from on : Date) (ls : list Position) (balances : list Z) (cash interest : Z) :
    pres (option (list Amount * list Z * Z * Z)) :=
  match ls, balances with
  | l :: ls, b :: balances =>
      let c := PosContract l in
      accrued ← core (Accrue (FromMinor b cr) (NominalRate c) (DaysBetween from on) (ContractDayCount c) (Rounding c));
      interest ← dynamicAdd interest (minor accrued);
      owed ← dynamicAdd b (minor accrued);
      let required := Z.min owed (minor (ScheduledPayment c)) in
      if cash <? required then Ok None
      else
        rest ← pay_required from on ls balances (isub cash required) interest;
        Ok (match rest with
            | Some (paid, next, cash, interest) =>
                Some (FromMinor required cr :: paid, isub owed required :: next, cash, interest)
            | None => None
            end)
  | _, _ => Ok (Some ([], [], cash, interest))
  end.

(** The closure [split]: the balances still to share the cash with, those done,
    and the extras so far. [solve] takes the next due date. *)
Section Split.
Context (solve : dynamicKey → D dynamicTail) (event : Z) (on : Date) (paid : list Amount) (interest : Z).
Fixpoint split (rest done : list Z) (extras : list Amount) (left : Z) (best : dynamicTail) : D dynamicTail :=
  go ← tick;
  if negb go then mret best
  else match rest with
  | [] =>
      tail ← solve (MkDynamicKey event left done);
      if negb (t_found tail) then mret best
      else
        cost ← calls (dynamicAdd interest (t_cost tail));
        mret (keep_best best cost (MkDynamicStep on paid extras (FromMinor interest cr) (FromMinor left cr)) tail)
  | b :: rest =>
      try_amounts
        (λ best amount, split rest (done ++ [isub b amount]) (extras ++ [FromMinor amount cr]) (isub left amount) best)
        (amounts quantum (Z.min b left)) best
  end.
End Split.

(** [solve]. [months] are the due dates left before the horizon. *)
Fixpoint solve (months : nat) (key : dynamicKey) : D dynamicTail :=
  if forallb (λ v, negb (0 <? v)) (k_Balances key) then mret (MkDynamicTail true 0 [])
  else match months with
  | O => mret no_tail
  | S months =>
      saved ← reads (λ s, d_memo s !! key);
      match saved with
      | Some tail => mret tail
      | None =>
          go ← tick;
          if negb go then mret no_tail
          else
            _ ← writes (set d_states (λ n, n + 1));
            let on := Occurrence (ValuationDate inp) common_day (k_Event key + 1) in
            cash ← calls (dynamicAdd (k_Cash key) (minor (Monthly (Cash inp))));
            required ← calls (pay_required (event_date (k_Event key)) on (Loans inp) (k_Balances key) cash 0);
            match required with
            | None => mret no_tail
            | Some (paid, next, cash, interest) =>
                best ← split (solve months) (k_Event key + 1) on paid interest next [] [] cash no_tail;
                cut ← reads d_truncated;
                _ ← (if (cut : bool) then mret tt else writes (set d_memo (insert key best)));
                mret best
            end
      end
  end.
End Search.

(** * The request *)

Definition first_unit (i : Input) : Z :=
  match Loans i with l :: _ => Unit (Rounding (PosContract l)) | [] => 0 end.

(** Defaults filled in, bounds checked: the horizon, the cap and the quantum. *)
Definition dynamic_limits (req : DynamicRequest) : pres (Z * Z * Z) :=
  let i := DrInput req in
  _ ← Input_Validate i;
  _ ← validateStrategyIDs ∅ (Loans i);
  let horizon := if DrHorizon req =? 0 then (if Horizon i =? 0 then 12 else Horizon i) else DrHorizon req in
  if (0 <? Horizon i) && (Horizon i <? horizon) then unsupported "" "dynamic horizon exceeds input horizon"
  else
    let states := if DrMaxStates req =? 0 then 10000 else DrMaxStates req in
    if (horizon <? 1) || (24 <? horizon) || (states <? 1) || (100000 <? states)
    then unsupported "" "dynamic limits require horizon 1..24 and expansions 1..100000"
    else
      _ ← dynamicDomain i;
      if existsb (λ l, negb (After (MaturityDate (PosContract l))
        (Occurrence (ValuationDate i) (PaymentDay (PosContract l)) horizon))) (Loans i)
      then unsupported "" "dynamic horizon must precede contractual maturity"
      else
        let quantum := if DrQuantum req =? 0 then first_unit i else DrQuantum req in
        if negb (quantum =? first_unit i)
        then unsupported "" "dynamic quantum must equal contract settlement unit"
        else Ok (horizon, states, quantum).

Definition dynamic_certificate (i : Input) (horizon limit quantum : Z) (s : dynamicSearch) (tail : dynamicTail) :
    Certificate :=
  let amount := FromMinor (t_cost tail) (in_currency i) in
  let proven := t_found tail && negb (d_truncated s) in
  MkCertificate
    (if d_truncated s then BoundedHeuristic else ExhaustiveDynamicDomain)
    (concat_all ["at most three fixed-instalment fee-free annuities; synchronized due-date funding; split/hold at settlement quantum; least interest among payoffs within ";
       operand_d horizon; " months; no other action dates or effects"])
    0 0 (d_states s) (d_work s) 0 0 0
    (if d_truncated s
     then concat_all ["dynamic expansion cap "; operand_d limit; " reached; lower bound and gap unknown"] else "")
    (if t_found tail then amount else no_amount)
    (if proven then Some amount else None) (if proven then Some (Zero (in_currency i)) else None)
    quantum ((λ e, Occurrence (ValuationDate i) (common_day i) e) <$> seqZ 1 horizon)
    EngineVersion (fst (certified (Loans i))) ∅ (snd (certified (Loans i))).

Definition start_key (i : Input) : dynamicKey :=
  MkDynamicKey 0 (minor (OpeningCash (Cash i))) ((λ l, minor (PosBalance l)) <$> Loans i).

Definition SearchDynamic (req : DynamicRequest) : result stop (perror + DynamicReport) :=
  let i := DrInput req in
  match dynamic_limits req with
  | Panic w => Panic w
  | Err e => Ok (inl e)
  | Ok (horizon, limit, quantum) =>
      match solve i limit quantum (Z.to_nat horizon) (start_key i) (MkDynamicSearch 0 0 false ∅) with
      | Panic w => Panic w
      | Err e => Err e
      | Ok (inl e, _) => Ok (inl e)
      | Ok (inr tail, s) =>
          Ok (inr (MkDynamicReport
            (if t_found tail then t_steps tail else [])
            (if t_found tail then Some (FromMinor (t_cost tail) (in_currency i)) else None)
            (if t_found tail then default zero_date (DsOn <$> last (t_steps tail)) else zero_date)
            (negb (d_truncated s))
            (dynamic_certificate i horizon limit quantum s tail)))
      end
  end.

(** * What a plan is *)

Section Plans.
Context (inp : Input) (horizon limit quantum : Z).
#[local] Abbreviation cr := (in_currency inp).

(** The due date after [key]: its day, the instalments, and what is left. *)
Definition month_after (key : dynamicKey) : pres (option (list Amount * list Z * Z * Z)) :=
  cash ← dynamicAdd (k_Cash key) (minor (Monthly (Cash inp)));
  pay_required inp (event_date inp (k_Event key))
    (Occurrence (ValuationDate inp) (common_day inp) (k_Event key + 1)) (Loans inp) (k_Balances key) cash 0.

(** A split of the cash: whole quanta, at most each balance, at most the cash. *)
Definition splits (balances : list Z) (cash : Z) (extras : list Z) : Prop :=
  Forall2 (λ b e, 0 ≤ e ≤ b ∧ (quantum | e)) balances extras ∧ sum_by (λ e, e) extras ≤ cash.

(** [plays n key steps cost]: from [key], with [n] due dates left, the steps pay
    every instalment, put some split of the rest on the balances, and end with
    nothing owed; [cost] is the interest. *)
Inductive plays : nat → dynamicKey → list DynamicStep → Z → Prop :=
| plays_over n key : Forall (λ v, v ≤ 0) (k_Balances key) → plays n key [] 0
| plays_month n key paid next cash interest extras steps cost :
    ¬ Forall (λ v, v ≤ 0) (k_Balances key) →
    month_after key = Ok (Some (paid, next, cash, interest)) →
    splits next cash extras →
    plays n (MkDynamicKey (k_Event key + 1) (cash - sum_by (λ e, e) extras) (zip_with Z.sub next extras)) steps cost →
    plays (S n) key
      (MkDynamicStep (Occurrence (ValuationDate inp) (common_day inp) (k_Event key + 1)) paid
         ((λ e, FromMinor e cr) <$> extras) (FromMinor interest cr) (FromMinor (cash - sum_by (λ e, e) extras) cr)
       :: steps) (interest + cost).

(** Cheaper, or as cheap and no longer. *)
Definition beats (t : dynamicTail) (steps : list DynamicStep) (cost : Z) : Prop :=
  t_found t = true ∧ (t_cost t < cost ∨ t_cost t = cost ∧ (length (t_steps t) ≤ length steps)%nat).
Definition no_worse (t t' : dynamicTail) : Prop := t_found t' = true → beats t (t_steps t') (t_cost t').

#[export] Instance no_worse_preorder : PreOrder no_worse.
Proof.
  split; [intros t H; split; [done|right; lia]|]. intros t u v Htu Huv Hv.
  destruct (Huv Hv) as [Hu Hc]. destruct (Htu Hu) as [Ht Hd]. split; [done|]. lia.
Qed.
Lemma beats_trans t t' steps cost : no_worse t t' → beats t' steps cost → beats t steps cost.
Proof. intros Ht [H' Hc]. destruct (Ht H') as [H Hd]. split; [done|]. lia. Qed.

(** A real plan, and the best there is. *)
Definition real (n : nat) (key : dynamicKey) (t : dynamicTail) : Prop :=
  t_found t = true → plays n key (t_steps t) (t_cost t) ∧ 0 ≤ t_cost t ≤ MaxInt64.
Definition best_tail (n : nat) (key : dynamicKey) (t : dynamicTail) : Prop :=
  real n key t ∧ ∀ steps cost, plays n key steps cost → beats t steps cost.

(** ** Amounts *)

Definition fine (v : Z) : Prop := 0 ≤ v ≤ MaxInt64 ∧ (quantum | v).

Context (Hq : 0 < quantum).

Lemma elem_of_amounts top x : fine top → x ∈ amounts quantum top ↔ 0 ≤ x ≤ top ∧ (quantum | x).
Proof using Hq.
  intros [[Ht _] [m ->]]. unfold amounts. rewrite Z.div_mul by lia. rewrite list_elem_of_fmap. split.
  - intros (k & -> & Hk%elem_of_seqZ). assert (0 ≤ (m - k) * quantum) by (apply Z.mul_nonneg_nonneg; lia).
    assert (0 ≤ k * quantum) by (apply Z.mul_nonneg_nonneg; lia). split; [lia|]. exists (m - k). lia.
  - intros [Hx [j ->]]. exists (m - j). split; [ring|]. apply elem_of_seqZ.
    assert (j ≤ m) by (apply (Z.mul_le_mono_pos_r _ _ quantum); lia).
    assert (0 ≤ j) by (apply (Z.mul_le_mono_pos_r _ _ quantum); lia). lia.
Qed.

Lemma fine_sub a b : fine a → 0 ≤ b ≤ a → (quantum | b) → fine (a - b) ∧ isub a b = a - b.
Proof using Type.
  intros [Ha Hd] Hb Hdb. split; [split; [lia|by apply Z.divide_sub_r]|]. unfold isub. apply i64_id. unfold_i64. lia.
Qed.

Lemma dynamicAdd_exact a b c :
  0 ≤ a ≤ MaxInt64 → 0 ≤ b ≤ MaxInt64 → dynamicAdd a b = Ok c → c = a + b ∧ 0 ≤ c ≤ MaxInt64.
Proof using Type.
  intros Ha Hb. unfold dynamicAdd, iadd. destruct (Z.ltb_spec 0 b), (Z.ltb_spec (MaxInt64 - b) a); cbn [andb];
    try done; intros [= <-]; (rewrite i64_id; [lia|unfold_i64; lia]).
Qed.

Lemma dynamicAdd_fine a b c : fine a → fine b → dynamicAdd a b = Ok c → c = a + b ∧ fine c.
Proof using Type.
  intros [Ha Hda] [Hb Hdb] [-> Hc]%dynamicAdd_exact; [|done..]. split; [done|]. split; [done|by apply Z.divide_add_r].
Qed.

Lemma splits_cons b bs left es :
  splits (b :: bs) left es ↔ ∃ e es', es = e :: es' ∧ (0 ≤ e ≤ b ∧ (quantum | e)) ∧ splits bs (left - e) es'.
Proof using Type.
  unfold splits. split.
  - intros [H Hs]. inversion H as [|? e ? es' He Hes]; subst. exists e, es'. unfold sum_by in *. cbn [foldr] in Hs.
    split; [done|]. split; [done|]. split; [done|lia].
  - intros (e & es' & -> & He & Hes & Hs). unfold sum_by in *. cbn [foldr]. split; [by constructor|lia].
Qed.

Lemma splits_fits b bs left es : 0 ≤ left → splits (b :: bs) left es → ∃ e es', es = e :: es' ∧
  (0 ≤ e ≤ Z.min b left ∧ (quantum | e)) ∧ splits bs (left - e) es'.
Proof using Type.
  intros Hl (e & es' & -> & He & Hs)%splits_cons. exists e, es'. split; [done|]. split; [|done]. split; [|apply He].
  destruct Hs as [H Hs]. enough (0 ≤ sum_by (λ e, e) es') by lia. clear - H.
  unfold sum_by. induction H as [|b e bs es [? _] _ IH]; cbn [foldr]; lia.
Qed.

(** ** A due date *)

(** Terms an instalment stays aligned under. *)
Definition loan_fits (l : Position) : Prop :=
  accrual_terms (NominalRate (PosContract l)) (ContractDayCount (PosContract l)) (Rounding (PosContract l)) ∧
  unit_of (Rounding (PosContract l)) = quantum ∧ fine (minor (ScheduledPayment (PosContract l))).

Lemma Accrue_fine b rate days dc p a :
  accrual_terms rate dc p → unit_of p = quantum → fine (minor b) → days ≤ MaxInt64 → Accrue b rate days dc p = Ok a →
  fine (minor a).
Proof using Hq.
  intros Ht Hu [Hb Hd] Hmax H. assert (0 ≤ days) as Hd0.
  { unfold Accrue in H. destruct (Z.ltb_spec days 0); [done|lia]. }
  pose proof Ht as [Hr _].
  pose proof (accrual_nonneg (minor b) rate days dc p ltac:(lia) Hd0 ltac:(lia)) as Hn.
  apply Accrue_Ok_iff in H as [Hfit ->]; [|done|unfold_i64; lia|lia|lia]. cbn [minor].
  assert ((quantum | accrual (minor b) rate days dc p)) as Hdiv.
  { unfold accrual. rewrite Hu. by apply Z.divide_factor_r. }
  split; [|done]. destruct Hfit as [->|[_ ?]]; [|lia]. revert Hn. unfold accrual.
  replace (minor b * 0 * days) with 0 by ring. pose proof (Denominator_range dc). pose proof (unit_of_pos p).
  rewrite round_div_0 by (unfold ratePPB; nia). unfold MaxInt64. lia.
Qed.

Lemma pay_required_fine from on ls : ∀ balances cash interest paid next cash' interest',
  Forall loan_fits ls → Forall fine balances → fine cash → fine interest →
  pay_required inp from on ls balances cash interest = Ok (Some (paid, next, cash', interest')) →
  Forall fine next ∧ fine cash' ∧ fine interest'.
Proof using Hq.
  induction ls as [|l ls IH]; intros [|b bs] cash interest paid next cash' interest' Hls Hbs Hc Hi H;
    cbn [pay_required] in H; try (injection H as <- <- <- <-; by split; [constructor|]).
  apply Forall_cons in Hls as [(Ht & Hu & Hs) Hls]. apply Forall_cons in Hbs as [Hb Hbs].
  apply bind_Ok in H as (accrued & Ha & H). apply core_Ok in Ha.
  apply Accrue_fine in Ha as Hfa; [|done|done|done|unfold MaxInt64; pose proof (DaysBetween_max from on); lia].
  apply bind_Ok in H as (i1 & Hi1 & H). apply dynamicAdd_fine in Hi1 as [-> Hi1]; [|done..].
  apply bind_Ok in H as (owed & Ho & H). apply dynamicAdd_fine in Ho as [-> Ho]; [|done..]. cbv zeta in H.
  set (required := Z.min _ _) in H.
  assert (0 ≤ required ≤ b + minor accrued ∧ (quantum | required)) as [Hr Hrd].
  { destruct Hs as [? ?], Ho as [? ?]. subst required. split; [lia|].
    destruct (Z.min_spec (b + minor accrued) (minor (ScheduledPayment (PosContract l)))) as [[_ ->]|[_ ->]]; done. }
  destruct (Z.ltb_spec cash required); [done|].
  destruct (fine_sub cash required Hc ltac:(lia) Hrd) as [Hc' Ec]. destruct (fine_sub _ required Ho Hr Hrd) as [Ho' Eo].
  rewrite Ec in H. apply bind_Ok in H as (r & Hrest & H). destruct r as [[[[p n] c] i]|]; [|done].
  injection H as <- <- <- <-. apply IH in Hrest as (Hn & ?); [|done..]. rewrite Eo. split; [by constructor|done].
Qed.
End Plans.

(** * The search finds the best plan *)

Section Optimal.
Context (inp : Input) (horizon limit quantum : Z) (Hq : 0 < quantum).
Context (Hmonthly : fine quantum (minor (Monthly (Cash inp)))) (Hloans : Forall (loan_fits quantum) (Loans inp)).
#[local] Abbreviation cr := (in_currency inp).
#[local] Abbreviation fine := (fine quantum).
#[local] Abbreviation plays := (plays inp quantum).
#[local] Abbreviation solve := (solve inp limit quantum).

Definition key_ok (k : dynamicKey) : Prop := fine (k_Cash k) ∧ Forall fine (k_Balances k).

(** What is remembered is the best from there, and the work is within the cap. *)
Record sane (st : dynamicSearch) : Prop := {
  sn_memo : ∀ k t, d_memo st !! k = Some t → key_ok k → best_tail inp quantum (Z.to_nat (horizon - k_Event k)) k t;
  sn_work : d_work st ≤ limit }.

(** A cut is never taken back. *)
Definition cut_on (st st' : dynamicSearch) : Prop := d_truncated st = true → d_truncated st' = true.
#[local] Instance cut_on_preorder : PreOrder cut_on.
Proof using Type. split; [by intros st ?|]. intros a b c H1 H2 H. auto. Qed.

(** A part of the search: the incumbent is kept or replaced by a plan of the
    part, and without a cut by one no plan of the part improves on. *)
Record looked (st st' : dynamicSearch) (best t : dynamicTail) (P : list DynamicStep → Z → Prop) : Prop := {
  lk_sane : sane st';
  lk_cut : cut_on st st';
  lk_from : t = best ∨ t_found t = true ∧ P (t_steps t) (t_cost t) ∧ 0 ≤ t_cost t ≤ MaxInt64;
  lk_best : d_truncated st' = false → no_worse t best ∧ ∀ steps cost, P steps cost → beats t steps cost }.

Lemma tick_effect st r st' :
  tick limit st = Ok (r, st') → sane st →
  sane st' ∧ cut_on st st' ∧ (r = inr true ∨ r = inr false ∧ d_truncated st' = true) ∧ d_memo st' = d_memo st.
Proof using Type.
  intros H [Hm Hw]. unfold tick in H. apply step_bind_Ok in H as [(e & [[=] _]%reads_Ok & _)|(w & s1 & H1 & H)].
  apply reads_Ok in H1 as [[= ->] ->]. destruct (Z.leb_spec limit (d_work st));
    apply step_bind_Ok in H as [(e & [[=] _]%writes_Ok & _)|(u & s1 & [_ ->]%writes_Ok & H)];
    apply step_ret_Ok in H as [-> ->]; (split; [split; cbn; [done|lia]|]); (split; [by intros ?|]);
    (split; [by auto|done]).
Qed.

(** Over a list of amounts. *)
Lemma try_amounts_looked f (P : Z → list DynamicStep → Z → Prop) l : ∀ best st t st',
  (∀ best x st t st', x ∈ l → f best x st = Ok (inr t, st') → sane st → looked st st' best t (P x)) →
  try_amounts f l best st = Ok (inr t, st') → sane st →
  looked st st' best t (λ steps cost, ∃ x, x ∈ l ∧ P x steps cost).
Proof using Type.
  induction l as [|x l IH]; intros best st t st' Hf H Hs; cbn [try_amounts] in H.
  { apply step_ret_Ok in H as [[= ->] ->]. split; [done|done|by left|].
    intros _. split; [reflexivity|]. by intros steps cost (x & ?%elem_of_nil & _). }
  apply step_bind_value in H as (t1 & s1 & H1 & H). apply Hf in H1 as [Hs1 Hc1 Hfrom1 Hbest1]; [|by left|done].
  apply step_bind_value in H as (cut & s2 & [[= ->] ->]%reads_Ok & H). destruct (d_truncated s1) eqn:Ecut.
  - apply step_ret_Ok in H as [[= ->] ->]. split; [done|done| |congruence].
    destruct Hfrom1 as [->|(Hf1 & HP & ?)]; [by left|right; split; [done|split; [exists x; split; [by left|done]|done]]].
  - apply IH in H as [Hs2 Hc2 Hfrom2 Hbest2]; [|intros; apply Hf; [by right|done..]|done].
    split; [done|by etrans| |].
    + destruct Hfrom2 as [->|(Hf2 & (y & Hy & HP) & ?)].
      * destruct Hfrom1 as [->|(Hf1 & HP & ?)]; [by left|right; split; [done|split; [exists x; split; [by left|done]|done]]].
      * right. split; [done|]. split; [|done]. exists y. split; [by right|done].
    + intros E. destruct (Hbest2 E) as [Hn2 Hb2], (Hbest1 eq_refl) as [Hn1 Hb1]. split; [by etrans|].
      intros steps cost (y & Hy & HP). apply elem_of_cons in Hy as [->|Hy]; [|apply Hb2; by exists y].
      eapply beats_trans; [exact Hn2|by apply Hb1].
Qed.

(** The plans through one choice of extras. *)
Definition through (n : nat) (event : Z) (on : Date) (paid : list Amount) (interest : Z)
    (rest done_ : list Z) (extras : list Amount) (left : Z) (steps : list DynamicStep) (cost : Z) : Prop :=
  ∃ es steps' cost', splits quantum rest left es ∧
    plays n (MkDynamicKey event (left - sum_by (λ e, e) es) (done_ ++ zip_with Z.sub rest es)) steps' cost' ∧
    steps = MkDynamicStep on paid (extras ++ ((λ e, FromMinor e cr) <$> es)) (FromMinor interest cr)
              (FromMinor (left - sum_by (λ e, e) es) cr) :: steps' ∧
    cost = interest + cost'.

Lemma keep_best_looked best cost step tail :
  let t := keep_best best cost step tail in
  (t = best ∨ t_found t = true ∧ t_steps t = step :: t_steps tail ∧ t_cost t = cost) ∧
  no_worse t best ∧ beats t (step :: t_steps tail) cost.
Proof using Type.
  cbv zeta. unfold keep_best. destruct (t_found best) eqn:Ef; cbn [negb orb].
  2:{ split; [by right|]. split; [intros ?; congruence|]. split; [done|]. right. cbn. lia. }
  destruct (Z.ltb_spec cost (t_cost best)); cbn [orb].
  { split; [by right|]. split; [intros _; split; [done|]; cbn; lia|]. split; [done|]. cbn. lia. }
  destruct (Z.eqb_spec cost (t_cost best)) as [->|]; cbn [andb].
  - destruct (Nat.ltb_spec (length (t_steps tail) + 1) (length (t_steps best))).
    + split; [by right|]. split; [intros _; split; [done|]; cbn; lia|]. split; [done|]. cbn. lia.
    + split; [by left|]. split; [reflexivity|]. split; [done|]. cbn. lia.
  - split; [by left|]. split; [reflexivity|]. split; [done|]. lia.
Qed.

Lemma split_looked solve' n event on paid interest
  (Hsolve : ∀ k st t st', solve' k st = Ok (inr t, st') → sane st → key_ok k → k_Event k = event →
    sane st' ∧ cut_on st st' ∧ real inp quantum n k t ∧ (d_truncated st' = false → best_tail inp quantum n k t))
  (Hint : fine interest) rest : ∀ done_ extras purse best st t st',
  split inp limit quantum solve' event on paid interest rest done_ extras purse best st = Ok (inr t, st') →
  sane st → Forall fine rest → Forall fine done_ → fine purse →
  looked st st' best t (through n event on paid interest rest done_ extras purse).
Proof using Hq.
  induction rest as [|b rest IH]; intros done_ extras purse best st t st' H Hs Hr Hd Hl; cbn [split] in H;
    apply step_bind_value in H as (go & s1 & Htick & H);
    destruct (tick_effect _ _ _ Htick Hs) as (Hs1 & Hc1 & [[= ->]|[[= ->] Hcut]] & _); cbn [negb] in H;
    try (apply step_ret_Ok in H as [[= ->] ->]; split; [done|done|by left|intros; congruence]).
  - apply step_bind_value in H as (tail & s2 & H2 & H).
    apply Hsolve in H2 as (Hs2 & Hc2 & Hreal & Hbest); [|done|by split|done].
    assert (∀ steps cost, through n event on paid interest [] done_ extras purse steps cost →
      ∃ steps' cost', plays n (MkDynamicKey event purse done_) steps' cost' ∧
        steps = MkDynamicStep on paid extras (FromMinor interest cr) (FromMinor purse cr) :: steps' ∧ cost = interest + cost') as Hthrough.
    { intros steps cost (es & steps' & cost' & [Hes _] & Hp & -> & ->). inversion Hes; subst.
      cbn in Hp |- *. rewrite ?Z.sub_0_r, ?app_nil_r in *. by exists steps', cost'. }
    destruct (t_found tail) eqn:Ef; cbn [negb] in H.
    + apply step_bind_value in H as (cost & s3 & [Hadd ->]%calls_Ok & H). apply step_ret_Ok in H as [[= ->] ->].
      match goal with |- looked _ _ _ (keep_best _ _ ?st0 _) _ => set (stp := st0) end.
      destruct (keep_best_looked best cost stp tail) as (Hfrom & Hno & Hbeat).
      destruct (Hreal Ef) as [Hplays Htc]. apply dynamicAdd_exact in Hadd as [Ecost Hcost]; [|apply Hint|done].
      split; [done|by etrans| |].
      * destruct Hfrom as [->|(Hf & Est & Ecs)]; [by left|right]. split; [done|]. rewrite Est, Ecs. split; [|done].
        exists [], (t_steps tail), (t_cost tail). split; [split; [constructor|apply Hl]|].
        cbn. rewrite Z.sub_0_r, app_nil_r, app_nil_r. split; [done|split; [done|exact Ecost]].
      * intros E. split; [done|]. intros steps c Hp. destruct (Hthrough _ _ Hp) as (steps' & cost' & Hp' & -> & ->).
        destruct (Hbest E) as [_ Hb]. destruct (Hb _ _ Hp') as [_ Hle]. destruct Hbeat as [Hf Hb2].
        split; [done|]. cbn [length] in *. lia.
    + apply step_ret_Ok in H as [[= ->] ->]. split; [done|by etrans|by left|]. intros E. split; [reflexivity|].
      intros steps c Hp. destruct (Hthrough _ _ Hp) as (steps' & cost' & Hp' & -> & ->).
      destruct (Hbest E) as [_ Hb]. destruct (Hb _ _ Hp') as [Hf _]. congruence.
  - apply Forall_cons in Hr as [Hb Hr].
    assert (fine (Z.min b purse)) as Hmin.
    { destruct Hb as [? ?], Hl as [? ?]. split; [lia|]. by destruct (Z.min_spec b purse) as [[_ ->]|[_ ->]]. }
    apply (try_amounts_looked _ (λ x, through n event on paid interest rest (done_ ++ [b - x]) (extras ++ [FromMinor x cr]) (purse - x)))
      in H as [Hs2 Hc2 Hfrom Hbest]; [| |done].
    + assert (∀ steps cost, through n event on paid interest (b :: rest) done_ extras purse steps cost ↔
        ∃ x, x ∈ amounts quantum (Z.min b purse) ∧
          through n event on paid interest rest (done_ ++ [b - x]) (extras ++ [FromMinor x cr]) (purse - x) steps cost) as Heq.
      { intros steps cost. unfold through. split.
        - intros (es & steps' & cost' & Hes & Hp & -> & ->).
          apply splits_fits in Hes as (e & es' & -> & He & Hes'); [|apply Hl].
          exists e. split; [by apply elem_of_amounts|]. exists es', steps', cost'. split; [done|].
          revert Hp. unfold sum_by. cbn [foldr zip_with]. rewrite fmap_cons, <- !app_assoc. cbn [app].
          rewrite !Z.sub_add_distr. auto.
        - intros (x & Hx & es & steps' & cost' & Hes & Hp & -> & ->). apply elem_of_amounts in Hx as [Hx Hdx]; [|done..].
          exists (x :: es), steps', cost'. split; [apply splits_cons; exists x, es; split_and!; done || lia|].
          revert Hp. unfold sum_by. cbn [foldr zip_with]. rewrite fmap_cons, <- !app_assoc. cbn [app].
          rewrite !Z.sub_add_distr. auto. }
      split; [done|by etrans| |].
      * destruct Hfrom as [->|(Hf & HP & ?)]; [by left|right]. split; [done|]. split; [by apply Heq|done].
      * intros E. destruct (Hbest E) as [Hno Hall]. split; [done|]. intros steps cost HP. by apply Hall, Heq.
    + intros best' x st1 t1 st2 Hx H1 Hs'. apply elem_of_amounts in Hx as [Hx Hdx]; [|done..].
      destruct (fine_sub quantum b x Hb ltac:(lia) Hdx) as [Hbx Eb].
      destruct (fine_sub quantum purse x Hl ltac:(lia) Hdx) as [Hlx El]. rewrite Eb, El in H1.
      eapply IH; [exact H1|done|done| |done]. apply Forall_app. split; [done|by apply Forall_singleton].
Qed.

Lemma all_paid_iff bs : forallb (λ v, negb (0 <? v)) bs = true ↔ Forall (λ v, v ≤ 0) bs.
Proof using Type.
  induction bs as [|b bs IH]; [done|]. cbn [forallb]. rewrite andb_true_iff, Forall_cons, IH, negb_true_iff, Z.ltb_ge. done.
Qed.

Lemma real_no_tail n key : real inp quantum n key no_tail.
Proof using Type. intros [=]. Qed.

Lemma best_over n key : Forall (λ v, v ≤ 0) (k_Balances key) → best_tail inp quantum n key (MkDynamicTail true 0 []).
Proof using Type.
  intros Ho. split; [intros _; split; [by constructor|cbn; unfold MaxInt64; lia]|]. intros steps cost Hp. split; [done|].
  inversion Hp; subst; [right; done|done].
Qed.

Lemma solve_looked months : ∀ key st t st',
  solve months key st = Ok (inr t, st') → sane st → key_ok key → Z.of_nat months = horizon - k_Event key →
  sane st' ∧ cut_on st st' ∧ real inp quantum months key t ∧
    (d_truncated st' = false → best_tail inp quantum months key t).
Proof using Hq Hmonthly Hloans.
  induction months as [|months IH]; intros key st t st' H Hs Hk Hm; cbn [Dynamic.solve] in H;
    destruct (forallb _ (k_Balances key)) eqn:Eover;
    try (apply step_ret_Ok in H as [[= ->] ->]; apply all_paid_iff in Eover;
         split; [done|]; split; [done|]; split; [apply (proj1 (best_over _ _ Eover))|intros _; by apply best_over]).
  - apply step_ret_Ok in H as [[= ->] ->]. split; [done|]. split; [done|]. split; [apply real_no_tail|]. intros _. split; [apply real_no_tail|].
    intros steps cost Hp. inversion Hp; subst. apply all_paid_iff in H. congruence.
  - apply step_bind_value in H as (saved & s1 & [[= ->] ->]%reads_Ok & H).
    destruct (d_memo st !! key) as [tail|] eqn:Ememo.
    { apply step_ret_Ok in H as [[= ->] ->]. apply (sn_memo _ Hs) in Ememo; [|done].
      replace (Z.to_nat (horizon - k_Event key)) with (S months) in Ememo by lia. split; [done|]. split; [done|].
      split; [apply Ememo|done]. }
    apply step_bind_value in H as (go & s1 & Htick & H).
    destruct (tick_effect _ _ _ Htick Hs) as (Hs1 & Hc1 & [[= ->]|[[= ->] Hcut]] & _); cbn [negb] in H;
      [|apply step_ret_Ok in H as [[= ->] ->]; split; [done|]; split; [done|]; split; [apply real_no_tail|congruence]].
    apply step_bind_value in H as (u & s2 & [_ ->]%writes_Ok & H). cbv zeta in H.
    apply step_bind_value in H as (cash & s3 & [Hcash ->]%calls_Ok & H).
    apply step_bind_value in H as (required & s3 & [Hreq ->]%calls_Ok & H).
    assert (month_after inp key = Ok required) as Hmonth by (unfold month_after; by rewrite Hcash).
    destruct Hk as [Hkc Hkb]. apply dynamicAdd_fine with (quantum := quantum) in Hcash as [-> Hcash]; [|done..].
    set (s2 := set d_states _ s1) in H. assert (sane s2) as Hs2 by (destruct Hs1; by split).
    assert (cut_on s1 s2) as Hc2 by by intros ?. clearbody s2.
    destruct required as [[[[paid next] cash'] interest]|].
    2:{ apply step_ret_Ok in H as [[= ->] ->]. split; [done|]. split; [by do 2 etrans|]. split; [apply real_no_tail|].
        intros _. split; [apply real_no_tail|]. intros steps cost Hp. inversion Hp; subst.
        - match goal with R : Forall _ _ |- _ => apply all_paid_iff in R; congruence end.
        - congruence. }
    assert (fine 0) as H0 by (split; [unfold MaxInt64; lia|apply Z.divide_0_r]).
    apply (pay_required_fine inp quantum Hq) in Hreq as (Hnext & Hcash' & Hint); [|done..].
    apply step_bind_value in H as (best & s3 & Hsplit & H).
    apply (split_looked _ months) in Hsplit as [Hs3 Hc3 Hfrom Hbest]; [|..|done|done|done|constructor|done].
    2:{ intros k st1 t1 st1' H1 Hs1' Hk1 He. apply IH; [done..|lia]. }
    assert (∀ steps cost, plays (S months) key steps cost ↔
      through months (k_Event key + 1) (Occurrence (ValuationDate inp) (common_day inp) (k_Event key + 1)) paid interest
        next [] [] cash' steps cost) as Heq.
    { intros steps cost. split.
      - intros Hp. inversion Hp; subst.
        + match goal with R : Forall _ _ |- _ => apply all_paid_iff in R; congruence end.
        + match goal with R : month_after _ _ = _ |- _ => rewrite Hmonth in R; injection R as <- <- <- <- end.
          by eexists _, _, _.
      - intros (es & steps' & cost' & Hes & Hp & -> & ->). econstructor; [|done..].
        intros Ho%all_paid_iff. congruence. }
    assert (real inp quantum (S months) key best) as Hreal.
    { intros Hf. destruct Hfrom as [->|(_ & Hp & ?)]; [done|]. split; [by apply Heq|done]. }
    assert (d_truncated s3 = false → best_tail inp quantum (S months) key best) as Hbt.
    { intros E. split; [done|]. intros steps cost Hp. apply (Hbest E). by apply Heq. }
    apply step_bind_value in H as (cut & s4 & [[= ->] ->]%reads_Ok & H).
    apply step_bind_value in H as (u' & s4 & H4 & H). apply step_ret_Ok in H as [[= ->] ->].
    destruct (d_truncated s3) eqn:Ecut.
    + apply step_ret_Ok in H4 as [_ ->]. split; [done|]. split; [by do 2 etrans|]. split; [done|congruence].
    + apply writes_Ok in H4 as [_ ->]. split; [|split; [|by split; [|auto]]].
      * split; [|apply Hs3]. cbn. intros k t' [[<- <-]|[_ L]]%lookup_insert_Some Hk'; [|by apply (sn_memo _ Hs3)].
        replace (Z.to_nat (horizon - k_Event key)) with (S months) by lia. auto.
      * intros E. cbn. apply Hc3, Hc2, Hc1, E.
Qed.
End Optimal.

(** * Requests *)

(** Figures an [int64] holds, rates and units the accrual is exact under. *)
Definition request_fits (i : Input) : Prop :=
  wf_amount (Monthly (Cash i)) ∧ wf_amount (OpeningCash (Cash i)) ∧
  Forall (λ l, wf_amount (PosBalance l) ∧ wf_amount (ScheduledPayment (PosContract l)) ∧
    accrual_terms (NominalRate (PosContract l)) (ContractDayCount (PosContract l)) (Rounding (PosContract l))) (Loans i).

Lemma check_funding_nonneg c a : check_funding c a = Ok tt → 0 ≤ minor a.
Proof.
  unfold check_funding. rewrite Sign_zero_iff, Sign_neg_iff.
  destruct (String.eqb (Code (cur a)) "" && (minor a =? 0)) eqn:E; [apply andb_true_iff in E as [_ E%Z.eqb_eq]; lia|].
  destruct (negb _); [done|]. destruct (Z.ltb_spec (minor a) 0); [done|lia].
Qed.

Lemma irem_zero {E} a b r : irem (E:=E) a b = Ok r → (r =? 0) = true → (b | a).
Proof.
  unfold irem. destruct (Z.eqb_spec b 0); [done|]. intros [= <-] H%Z.eqb_eq. by apply Z.rem_divide.
Qed.

(** [case_refusals H]: every test that refuses has failed. *)
Ltac case_refusals H :=
  repeat match type of H with
  | (if ?b then _ else _) = Ok _ => let E := fresh "E" in destruct b eqn:E; [done|]
  end.

Lemma check_dynamic_loan_fits i first l :
  check_dynamic_loan i first l = Ok tt → 0 < Unit (Rounding first) →
  wf_amount (PosBalance l) ∧ wf_amount (ScheduledPayment (PosContract l)) ∧
    accrual_terms (NominalRate (PosContract l)) (ContractDayCount (PosContract l)) (Rounding (PosContract l)) →
  loan_fits (Unit (Rounding first)) l ∧ fine (Unit (Rounding first)) (minor (PosBalance l)).
Proof.
  intros H Hu (Hb & Hs & Ht). unfold check_dynamic_loan in H. cbv zeta in H. case_refusals H.
  apply bind_Ok in H as (b & Hrb & H). apply bind_Ok in H as (p & Hrp & H). case_refusals H.
  rewrite !orb_false_iff, !negb_false_iff, ?Sign_nonpos_iff in *.
  destruct_and?. apply irem_zero in Hrb; [|done]. apply irem_zero in Hrp; [|done].
  repeat match goal with R : bool_decide _ = true |- _ => apply bool_decide_eq_true in R end.
  repeat match goal with R : (_ <=? _) = false |- _ => apply Z.leb_gt in R end.
  unfold loan_fits, fine. unfold_i64.
  assert (unit_of (Rounding (PosContract l)) = Unit (Rounding first)) as Eu.
  { match goal with R : Rounding (PosContract l) = _ |- _ => rewrite R end. unfold unit_of.
    destruct (Z.ltb_spec (Unit (Rounding first)) 1); lia. }
  split_and!; try done; lia.
Qed.

Lemma each_Forall {A} (f : A → pres unit) l : each f l = Ok tt → Forall (λ x, f x = Ok tt) l.
Proof.
  induction l as [|x l IH]; intros H; [constructor|]. cbn [each] in H. apply bind_Ok in H as ([] & Hx & H).
  constructor; auto.
Qed.

Lemma dynamicDomain_fits i :
  dynamicDomain i = Ok tt → request_fits i → validateFunding (Cash i) (ValuationDate i) = Ok tt →
  0 < first_unit i ∧ fine (first_unit i) (minor (Monthly (Cash i))) ∧ Forall (loan_fits (first_unit i)) (Loans i) ∧
  key_ok (first_unit i) (start_key i).
Proof.
  intros H (Hm & Ho & Hl) Hv. unfold dynamicDomain in H. cbv zeta in H. case_refusals H. unfold first_unit.
  destruct (Loans i) as [|l ls] eqn:El; [done|]. case_refusals H.
  apply bind_Ok in H as (m & Hrm & H). apply bind_Ok in H as (o & Hro & H). case_refusals H.
  rewrite !orb_false_iff, !negb_false_iff in *. destruct_and?.
  apply irem_zero in Hrm; [|done]. apply irem_zero in Hro; [|done].
  match goal with R : (_ <=? 0) = false |- _ => apply Z.leb_gt in R; rename R into Hu end.
  unfold validateFunding in Hv. case_refusals Hv. apply bind_Ok in Hv as ([] & Hf & _).
  apply each_Forall in Hf. inversion Hf as [|? ? Hf1 Hf2]; subst. inversion Hf2 as [|? ? Hf3 _]; subst.
  apply check_funding_nonneg in Hf1, Hf3. apply each_Forall in H.
  set (unit := Unit (Rounding (PosContract l))) in *.
  assert (Forall (λ p, loan_fits unit p ∧ fine unit (minor (PosBalance p))) (l :: ls)) as Hall.
  { rewrite Forall_forall in H, Hl |- *. intros p Hp. by eapply check_dynamic_loan_fits; [apply H|..|apply Hl]. }
  assert (∀ a, wf_amount a → 0 ≤ minor a → (unit | minor a) → fine unit (minor a)) as Hfine.
  { unfold fine. unfold_i64. intros a Ha Hge Hd. split; [lia|done]. }
  split; [done|]. split; [by apply Hfine|]. split.
  - eapply Forall_impl; [exact Hall|]. by intros p [].
  - split; [by apply Hfine|]. unfold start_key. rewrite El. cbn [k_Balances].
    apply Forall_fmap. eapply Forall_impl; [exact Hall|]. by intros p [].
Qed.

Lemma dynamic_limits_fits req horizon limit quantum :
  dynamic_limits req = Ok (horizon, limit, quantum) → request_fits (DrInput req) →
  1 ≤ horizon ≤ 24 ∧ 1 ≤ limit ≤ 100000 ∧ 0 < quantum ∧ fine quantum (minor (Monthly (Cash (DrInput req)))) ∧
  Forall (loan_fits quantum) (Loans (DrInput req)) ∧ key_ok quantum (start_key (DrInput req)).
Proof.
  intros H Hfit. unfold dynamic_limits in H. apply bind_Ok in H as ([] & Hval & H). apply bind_Ok in H as ([] & _ & H).
  cbv zeta in H. case_refusals H. apply bind_Ok in H as ([] & Hdom & H). case_refusals H. injection H as <- <- <-.
  match goal with R : negb (_ =? first_unit _) = false |- _ => apply negb_false_iff, Z.eqb_eq in R; rewrite R end.
  unfold Input_Validate in Hval. case_refusals Hval. apply bind_Ok in Hval as ([] & _ & Hval).
  apply bind_Ok in Hval as ([] & Hfund & _). pose proof (dynamicDomain_fits _ Hdom Hfit Hfund) as (? & ? & ? & ?).
  rewrite !orb_false_iff, !Z.ltb_ge in *. destruct_and?. split_and!; done || lia.
Qed.

(** * Properties *)

(** C28. The dynamic search finds the best plan. The answer it gives is a real
    plan: from the opening balances its steps pay every instalment, split what
    is left in whole quanta, and end with nothing owed, at the stated cost in
    interest. When the search was not cut short the answer is no costlier than
    any plan of the domain, and no longer than any as cheap; and when it then
    answers with none, there is none. The work stays within the cap. *)
Theorem SearchDynamic_optimal req out horizon limit quantum :
  request_fits (DrInput req) → dynamic_limits req = Ok (horizon, limit, quantum) → SearchDynamic req = Ok (inr out) →
  let plans := plays (DrInput req) quantum (Z.to_nat horizon) (start_key (DrInput req)) in
  (∀ cost, DrCost out = Some cost → plans (DrSteps out) (minor cost)) ∧
  (Complete out = true → ∀ steps c, plans steps c → ∃ cost, DrCost out = Some cost ∧
    (minor cost < c ∨ minor cost = c ∧ (length (DrSteps out) ≤ length steps)%nat)) ∧
  DynamicExpansions (DrCertificate out) ≤ limit.
Proof.
  intros Hfit Hl H plans. unfold SearchDynamic in H. rewrite Hl in H.
  destruct (dynamic_limits_fits _ _ _ _ Hl Hfit) as (Hh & Hlim & Hq & Hm & Hls & Hk).
  set (st0 := MkDynamicSearch 0 0 false ∅) in H.
  destruct (solve _ _ _ _ _ st0) as [[[e|t] st]|e|w] eqn:Es; [done| |done..]. injection H as <-.
  assert (sane (DrInput req) horizon limit quantum st0) as Hs0.
  { split; [|cbn; lia]. cbn. intros k t' L. by rewrite lookup_empty in L. }
  apply (solve_looked (DrInput req) horizon) in Es as (Hs & _ & Hreal & Hbest); [|done..|cbn; lia].
  cbn [DrCost DrSteps Complete DrCertificate]. split_and!.
  - intros cost. destruct (t_found t) eqn:Ef; [|done]. intros [= <-]. by apply Hreal.
  - intros Hc%negb_true_iff steps c Hp. destruct (Hbest Hc) as [_ Hb]. destruct (Hb _ _ Hp) as [Hf Hle].
    rewrite Hf. by eexists.
  - apply Hs.
Qed.

(** Two loans, a month's money, and quanta of ten drams. *)
Definition sample_contract (rate instalment : Z) : Contract :=
  MkContract "c" 1 AMD (MkDate 2024 1 15) zero_date rate Actual365 Annuity
    (MkDate 2024 1 15) (MkDate 2026 1 15) 15 zero_date (MkAmount instalment AMD) true (Money.MkPolicy HalfUp 1000)
    (MkPrepayment PrepayShortenTerm 0 [] no_amount) (MkPolicyRef "bank" 1).
Definition sample_position (id : string) (rate instalment balance : Z) : Position :=
  MkPosition id id (sample_contract rate instalment) (MkAmount balance AMD) (MkDate 2024 3 15)
    ExcessReducePrincipal "user_entered" false.
Definition sample_request : DynamicRequest :=
  MkDynamicRequest
    (MkInput (MkDate 2024 3 15) (MkCashPlan zero_date None (MkAmount 12000 AMD) 0 (MkAmount 1000 AMD) (MkAmount 0 AMD) [] ∅)
      [sample_position "a" 480000000 3000 14000; sample_position "b" 360000000 3000 12000] 0) 4 0 0.

Definition answers (m : result stop (perror + DynamicReport)) (c : Z) : bool :=
  match m with
  | Ok (inr out) => Complete out && match DrCost out with Some cost => minor cost =? c | None => false end
  | _ => false
  end.
Lemma answers_run m c : answers m c = true →
  ∃ out cost, m = Ok (inr out) ∧ Complete out = true ∧ DrCost out = Some cost ∧ minor cost = c.
Proof.
  unfold answers. destruct m as [[e|out]|e|w]; try done. destruct (DrCost out) as [cost|] eqn:E; [|by rewrite andb_false_r].
  intros [Hc Hm%Z.eqb_eq]%andb_true_iff. by exists out, cost.
Qed.

Lemma sample_request_fits : request_fits (DrInput sample_request).
Proof.
  assert (∀ n, 0 ≤ n ≤ 40000 → wf_amount (MkAmount n AMD)) as Hw by (intros n Hn; split; simpl; unfold MinInt64, MaxInt64; lia).
  assert (∀ r, 0 ≤ r ≤ 480000000 → accrual_terms r Actual365 (Money.MkPolicy HalfUp 1000)) as Ht.
  { intros r Hr. split; [|vm_compute; discriminate]. unfold Denominator, ratePPB. lia. }
  assert (∀ id r b, 0 ≤ r ≤ 480000000 → 0 ≤ b ≤ 40000 → let l := sample_position id r 3000 b in
    wf_amount (PosBalance l) ∧ wf_amount (ScheduledPayment (PosContract l)) ∧
    accrual_terms (NominalRate (PosContract l)) (ContractDayCount (PosContract l)) (Rounding (PosContract l))) as Hl.
  { intros id r b Hr Hb. cbv zeta. split; [by apply Hw|]. split; [apply Hw; lia|by apply Ht]. }
  split; [apply Hw; lia|]. split; [apply Hw; lia|].
  apply Forall_cons. split; [apply Hl; lia|]. apply Forall_singleton. apply Hl; lia.
Qed.

Lemma SearchDynamic_optimal_witness :
  ∃ out cost, SearchDynamic sample_request = Ok (inr out) ∧ DrCost out = Some cost ∧ minor cost = 1000 ∧
    plays (DrInput sample_request) 1000 4 (start_key (DrInput sample_request)) (DrSteps out) (minor cost).
Proof.
  destruct (answers_run (SearchDynamic sample_request) 1000) as (out & cost & E & Hc & Hcost & Em);
    [vm_compute; reflexivity|].
  assert (dynamic_limits sample_request = Ok (4, 10000, 1000)) as Hl by (vm_compute; reflexivity).
  exists out, cost. split; [exact E|]. split; [exact Hcost|]. split; [exact Em|].
  exact (proj1 (SearchDynamic_optimal sample_request out 4 10000 1000 sample_request_fits Hl E) cost Hcost).
Defined.
