(* ===== verification/Sim.v ===== *)
(** One policy on one timeline: [pkg/core/plan/sim.go], with the simulation
    half of [spending.go] and [cash_routing.go].

    Each method of the simulator is a step of [M]; [run] is the loop that plays
    them until every loan is clear. *)
From S2P Require Import Prelude Money Dates Model Allocation Schedule Calendar Fees PlanBase PlanInput SimState.

(** * Reading the state *)

Definition cash_plan (s : sim) : CashPlan := Cash (s_in s).
Definition separate (s : sim) : bool := SeparateSpending (cash_plan s).
Definition zero (s : sim) : Amount := Zero (s_cur s).

(** [*s.in.Cash.Spending]. *)
Definition spending : M SpendingPlan := λ s,
  match Spending (cash_plan s) with
  | Some p => Ok (p, s)
  | None => Panic "nil pointer dereference"
  end.

Definition allClosed (s : sim) : bool := forallb l_closed (s_loans s).

Definition ym (d : Date) : Z := Year d * 12 + Month d.

(** * Accrual and quotes *)

Definition accrueTo (l : loanState) (on : Date) : pres loanState :=
  if negb (After on (l_from l)) || (Sign (l_balance l) <=? 0) then Ok l
  else
    let c := l_contract l in
    i ← core (Accrue (l_balance l) (NominalRate c) (DaysBetween (l_from l) on) (ContractDayCount c) (Rounding c));
    accrued ← core (Add (l_accrued l) i);
    Ok (l <| l_accrued := accrued |> <| l_from := on |>).

Definition no_quote (z : Amount) : Quote := MkQuote z z z z false.

Definition below_minimum (c : Contract) (a : Amount) : res bool :=
  if 0 <? Sign (MinAmount (Prepayment c))
  then r ← Cmp a (MinAmount (Prepayment c)); Ok (r <? 0) else Ok false.

(** The principal a partial payment credits: what is left after the fee on all
    of it, at most the balance, rounded down to the settlement unit. *)
Definition quantum (c : Contract) (l : loanState) (on : Date) (used available : Amount) : pres Amount :=
  fee ← core (charge c on available used);
  principal ← core (Sub available fee);
  over ← core (Cmp principal (l_balance l));
  let principal := if 0 <? over then l_balance l else principal in
  Ok (Quantise principal (Money.MkPolicy Down (Unit (Rounding c)))).

Definition partial_quote (c : Contract) (l : loanState) (on : Date) (used available z : Amount) : pres Quote :=
  principal ← quantum c l on used available;
  small ← (if Sign principal <=? 0 then Ok true else core (below_minimum c principal));
  match small with
  | true => Ok (no_quote z)
  | false =>
      fee ← core (charge c on principal used);
      out ← core (Add principal fee);
      over ← core (Cmp out available);
      if 0 <? over then fails_w "%w: optional quote exceeds allowance" ErrInvariant
      else Ok (MkQuote principal z fee out false)
  end.

(** [quote] after its accrual, of the loan as it then stands. *)
Definition quote_of (cr : Currency) (l : loanState) (on : Date) (available : Amount) : pres Quote :=
  let z := Zero cr in
  let c := l_contract l in
  let used := or_zero (default no_amount (l_allowance l !! contractYear c on)) cr in
  closeFee ← core (charge c on (l_balance l) used);
  closeOut ← core (Add (l_balance l) (l_accrued l));
  closeOut ← core (Add closeOut closeFee);
  enough ← core (Cmp available closeOut);
  if 0 <=? enough then Ok (MkQuote (l_balance l) (l_accrued l) closeFee closeOut true)
  else
    small ← core (below_minimum c available);
    match small with
    | true => Ok (no_quote z)
    | false => partial_quote c l on used available z
    end.

(** Books the accrual of loan [i]; an error ends the run, so the loan it leaves
    half written is not read again. *)
Definition accrue_loan (i : nat) (on : Date) : M (perror + unit) :=
  l ← loan i;
  l ←? attempt (accrueTo l on);
  _ ← alter_loan i (λ _, l); mret (inr tt).

Definition quote (i : nat) (on : Date) (available : Amount) : M (perror + Quote) :=
  _ ←? accrue_loan i on;
  l ← loan i; cr ← gets s_cur; attempt (quote_of cr l on available).

(** * Cycles *)

Definition openCycle (on : Date) : M unit :=
  z ← gets zero;
  n ← gets s_cycle;
  _ ← assign s_cycle (n + 1);
  _ ← assign s_cycleIncome on;
  _ ← assign s_month (MkMonthState no_amount (n + 1) on z z z z z z "" []);
  modify (set s_loans (fmap (λ l,
    l <| l_cyclePaid := z |> <| l_cycleExtra := z |> <| l_cycleCleared := false |> <| l_cycleFees := z |>))).

Definition restrictedCash : M Amount :=
  z ← gets zero; bs ← gets s_cashBuckets;
  foldM (λ t b, add t (b_remaining b)) z bs.

(** Long since paid off: not a row of this month. *)
Definition no_row (l : loanState) : bool :=
  (Sign (l_cyclePaid l) <=? 0) && l_closed l && negb (l_cycleCleared l).

Definition month_row (l : loanState) : MonthLoan :=
  MkMonthLoan (l_cycleFees l) (PosID (l_pos l)) (PosName (l_pos l)) (l_cyclePaid l) (l_cycleExtra l)
    (l_balance l) (l_cycleCleared l) (l_cycleFreed l).

Definition closeCycle : M unit :=
  z ← gets zero; ls ← gets s_loans;
  owed ← foldM (λ t l, if l_closed l then mret t else add t (l_balance l)) z ls;
  r ← restrictedCash; c ← gets s_cash; carried ← add c r;
  _ ← assign_month MsOwed owed;
  _ ← assign_month MsCash carried;
  _ ← modify (set s_month (set MsLoans (λ rows, rows ++ (month_row <$> filter (λ l, no_row l = false) ls))));
  m ← gets s_month;
  _ ← modify (set s_res (set Timeline (λ t, t ++ [m])));
  n ← gets s_cycle;
  _ ← when (n =? 1) (assign_res NextMonthOwed owed);
  peak ← gets (λ s, PeakRequired (s_res s));
  higher ← cmp (MsRequired m) peak;
  _ ← when (0 <? higher) (assign_res PeakRequired (MsRequired m));
  when (0 <? Sign (MsRequired m)) (assign_res FinalRequired (MsRequired m)).

(** * Payments *)

(** [action] of sim.go: every payment goes to the sink, those of the first
    cycle to the result. *)
Definition action (i : nat) (on : Date) (kind : ActionKind) (amount fee saves : Amount) : M unit :=
  l ← loan i;
  let a := MkAction on (PosID (l_pos l)) (PosName (l_pos l)) kind amount fee saves in
  _ ← modify (set s_actionSink (fmap (λ sink, sink ++ [a])));
  n ← gets s_cycle;
  when (negb (1 <? n)) (modify (set s_res (set Actions (λ l, l ++ [a])))).

(** Freed money is taken off the budget of the next cycles. *)
Definition keeps_freed (s : sim) : bool :=
  bool_decide (PolRollover (s_pol s) = KeepFreed) &&
  match Spending (cash_plan s) with Some p => negb (ConfirmedReleaseOnly p) | None => true end.

Definition freed_by (l : loanState) : Amount := if Sign (l_carried l) =? 0 then l_required l else l_carried l.

(** The loan's own fields on closing. *)
Definition retire (i : nat) (on : Date) (freed : Amount) : M unit :=
  z ← gets zero;
  _ ← assign_loan i l_closed true;
  _ ← assign_loan i l_closedOn on;
  _ ← assign_loan i l_cycleCleared true;
  _ ← assign_loan i l_cycleFreed freed;
  assign_loan i l_balance z.

(** The first loan to clear is reported. *)
Definition note_clear (name : string) (on : Date) (freed : Amount) : M unit :=
  _ ← assign_month MsCleared name;
  first ← gets (λ s, FirstClear (s_res s));
  n ← gets s_cycle;
  when (String.eqb first "")
    (modify (set s_res (λ r, r <| FirstClear := name |> <| FirstClearOn := on |>
      <| FirstClearAt := n |> <| FirstFreed := freed |>))).

Definition keep_freed (freed : Amount) : M unit :=
  z ← gets zero;
  keep ← gets keeps_freed;
  when keep (b ← gets s_budget; b ← sub b freed; assign s_budget (if Sign b <? 0 then z else b)).

Definition note_payoff (on : Date) : M unit :=
  p ← gets (λ s, PayoffDate (s_res s));
  _ ← when (After on p) (assign_res PayoffDate on);
  all ← gets allClosed;
  n ← gets s_cycle;
  when all (assign_res Months n).

(** [close] of sim.go retires a loan. *)
Definition close (i : nat) (on : Date) : M unit :=
  l ← loan i;
  let freed := freed_by l in
  _ ← retire i on freed;
  _ ← note_clear (PosName (l_pos l)) on freed;
  _ ← keep_freed freed;
  note_payoff on.

Definition spendPermission (outflow : Amount) : M unit :=
  _ ← bump s_periodSpent outflow; draw s_periodLeft outflow.

(** The interest an early payment avoids; its error is dropped. *)
Definition saved (l : loanState) (on : Date) (q : Quote) (early : bool) : M Amount :=
  z ← gets zero;
  if early && Before on (l_due l)
  then
    let c := l_contract l in
    match Accrue (QPrincipal q) (NominalRate c) (DaysBetween on (l_due l)) (ContractDayCount c) (Rounding c) with
    | Ok a => mret a | Err _ => mret no_amount | Panic w => panic w
    end
  else mret z.

(** The figures a payment moves, before it is listed. *)
Definition pay_out (i : nat) (q : Quote) : M unit :=
  _ ← draw s_cash (Outflow q);
  _ ← bump_loan i l_cyclePaid (Outflow q);
  _ ← bump_loan i l_cycleFees (QFee q);
  net ← sub (Outflow q) (QFee q);
  _ ← bump_loan i l_cycleExtra net;
  _ ← bump_res ResPaid (Outflow q);
  _ ← bump_res ResFees (QFee q);
  _ ← bump_month MsFees (QFee q);
  net ← sub (Outflow q) (QFee q);
  bump_month MsExtra net.

(** The free allowance the payment uses up. *)
Definition use_allowance (i : nat) (on : Date) (q : Quote) : M unit :=
  l ← loan i; cr ← gets s_cur;
  let y := contractYear (l_contract l) on in
  used ← add (or_zero (default no_amount (l_allowance l !! y)) cr) (QPrincipal q);
  alter_loan i (set l_allowance (<[y := used]>)).

(** A quote that closes the loan settles its interest. *)
Definition settle_closing (i : nat) (on : Date) (q : Quote) : M unit :=
  z ← gets zero;
  _ ← bump_res ResInterest (QInterest q);
  _ ← bump_month MsInterest (QInterest q);
  _ ← assign_loan i l_accrued z;
  close i on.

Definition prepay (i : nat) (on : Date) (q : Quote) (early : bool) : M unit :=
  sep ← gets separate;
  _ ← when sep (spendPermission (Outflow q));
  _ ← pay_out i q;
  _ ← modify (set s_res (set Prepayments (Z.add 1)));
  _ ← when early (assign_res TimingCredited true);
  _ ← use_allowance i on q;
  l ← loan i;
  saves ← saved l on q early;
  _ ← action i on ExtraPaid (Outflow q) (QFee q) saves;
  _ ← draw_loan i l_balance (QPrincipal q);
  when (Closes q) (settle_closing i on q).

(** * What optional payments may use *)

(** Falls due before the next income, and so is held back. *)
Definition due_before_income (s : sim) (l : loanState) : bool :=
  if Dates.IsZero (s_nextIncome s) then ym (l_due l) =? s_incomeYM s
  else Before (l_due l) (s_nextIncome s).

Definition reserved : M Amount :=
  cr ← gets s_cur; floor ← gets (λ s, ReserveFloor (cash_plan s)); ls ← gets s_loans;
  foldM (λ r l,
    if l_closed l then mret r
    else
      held ← gets (λ s, due_before_income s l);
      r ← (if held : bool then add r (l_required l) else mret r);
      add r (l_pending l)) (or_zero floor cr) ls.

Definition optionalPermission (on : Date) : M Amount :=
  p ← spending; left ← gets s_periodLeft; ls ← gets s_loans;
  foldM (λ left l,
    if l_closed l then mret left
    else
      left ← (if negb (Before (l_due l) on) && Before (l_due l) (periodEnd p on)
              then sub left (l_required l) else mret left);
      sub left (l_pending l)) left ls.

(** Cash is carried, untouched, to the date the rule names. *)
Definition carrying (s : sim) (on : Date) : bool :=
  separate s && String.eqb (s_carryRule s) CarryToDate && Before on (s_carryUntil s).

Definition optionalCash (on : Date) : M Amount :=
  hold ← gets (λ s, carrying s on);
  match hold with
  | true => gets zero
  | false =>
      c ← gets s_cash; r ← reserved; surplus ← sub c r;
      sep ← gets separate;
      match sep with
      | false => mret surplus
      | true =>
          permission ← optionalPermission on;
          lower ← cmp permission surplus;
          mret (if lower <? 0 then permission else surplus)
      end
  end.

(** The payment is too small to make now: the carry rule's threshold, or the
    policy's. *)
Definition batched (q : Quote) : M bool :=
  until ← gets (λ s, separate s && String.eqb (s_carryRule s) BatchUntil);
  m ← gets s_carryMinimum;
  below ← (match until with true => r ← cmp (QPrincipal q) m; mret (r <? 0) | false => mret false end);
  match below && negb (Closes q) with
  | true => mret true
  | false =>
      m ← gets (λ s, MinPrepay (s_pol s));
      match 0 <? Sign m with
      | true => r ← cmp (QPrincipal q) m; mret ((r <? 0) && negb (Closes q))
      | false => mret false
      end
  end.

(** * Obligations *)

(** [refresh]: the next obligation, from the memo; a loan that has no level
    instalment yet takes the projected one. *)
Definition refresh_loan (l : loanState) (o : obligation) : loanState :=
  let carried := if Sign (l_carried l) =? 0 then o_instalment o else l_carried l in
  l <| l_carried := carried |> <| l_due := o_due o |> <| l_required := o_required o |>.

Definition refreshed (l : loanState) : M (perror + loanState) :=
  m ← gets s_cache;
  let '(m, r) := cache_next m l in
  _ ← assign s_cache m;
  o ←? attempt r;
  mret (inr (refresh_loan l o)).

Definition refresh (i : nat) : M (perror + unit) :=
  l ← loan i;
  l ←? refreshed l;
  _ ← alter_loan i (λ _, l); mret (inr tt).

Definition calendar (i : nat) : M (perror + Calendar) :=
  l ← loan i; m ← gets s_cache;
  let '(m, r) := cache_calendar m l in
  _ ← assign s_cache m;
  attempt r.

(** * cash_routing.go: the simulation *)

(** An index into the loans of the state, by identifier. *)
Fixpoint find_loan (id : string) (ls : list loanState) (i : nat) : option nat :=
  match ls with
  | [] => None
  | l :: ls => if String.eqb (PosID (l_pos l)) id then Some i else find_loan id ls (S i)
  end.

(** An unreleased bucket for the same destination under the same hold. *)
Definition merges (r : CashRouting) (part : CashSplit) (b : cashBucket) : bool :=
  negb (b_released b) && String.eqb (b_target b) (SplitLoanID part) &&
  bool_decide (b_until b = HoldUntil r) && (minor (b_minimum b) =? minor (HoldMinimum r)).

Fixpoint merge_into (r : CashRouting) (part : CashSplit) (bs : list cashBucket) (i : nat) : option nat :=
  match bs with
  | [] => None
  | b :: bs => if merges r part b then Some i else merge_into r part bs (S i)
  end.

Definition bucket_less (a b : cashBucket) : bool :=
  if negb (String.eqb (b_target a) (b_target b)) then String.ltb (b_target a) (b_target b)
  else if negb (bool_decide (b_until a = b_until b)) then Before (b_until a) (b_until b)
  else if negb (minor (b_minimum a) =? minor (b_minimum b)) then minor (b_minimum a) <? minor (b_minimum b)
  else negb (b_released a) && b_released b.

Definition route_parts (event : CashEvent) (r : CashRouting) : list CashSplit :=
  match Splits r with [] => [MkCashSplit (RouteLoanID r) (CeAmount event)] | parts => parts end.

Definition add_part (event : CashEvent) (r : CashRouting) (_ : unit) (part : CashSplit) : M unit :=
  bs ← gets s_cashBuckets;
  match merge_into r part bs 0 with
  | Some i =>
      b ← bucket i; v ← add (b_remaining b) (SplitAmount part); assign_bucket i b_remaining v
  | None =>
      modify (set s_cashBuckets (λ bs, bs ++
        [MkCashBucket (SplitLoanID part) (SplitAmount part) (HoldUntil r) (HoldMinimum r) false (CeOn event)]))
  end.

Definition addRouted (event : CashEvent) : M unit :=
  match Routing event with
  | None => panic "nil pointer dereference"
  | Some r =>
      _ ← foldM (add_part event r) tt (route_parts event r);
      modify (set s_cashBuckets (SliceStable bucket_less))
  end.

(** The loan a bucket pays and whether it pays ahead of the due date; nothing
    when it waits. *)
Definition route_target (s : sim) (b : cashBucket) (on : Date) (dueLoan : option nat) : option (nat * bool) :=
  i ← find_loan (b_target b) (s_loans s) 0;
  l ← s_loans s !! i;
  let other := negb (bool_decide (dueLoan = Some i)) in
  let early := other && bool_decide (l_timing l = OnReceipt) && Before on (l_due l) in
  if l_closed l || (negb early && other && Before on (l_due l)) then None else Some (i, early).

(** What the reserve and the permission leave of a bucket: its balance is
    lent to the pool while they are asked. *)
Definition route_available (j : nat) (on : Date) : M Amount :=
  b ← bucket j;
  _ ← bump s_cash (b_remaining b);
  available ← optionalCash on;
  _ ← draw s_cash (b_remaining b);
  mret available.

(** The payment out of bucket [j]. The answer is whether to stop. *)
Definition route_pay (j i : nat) (on : Date) (early : bool) (dueLoan : option nat) (q : Quote) : M bool :=
  b ← bucket j;
  v ← sub (b_remaining b) (Outflow q);
  _ ← assign_bucket j b_remaining v;
  _ ← bump s_cash (Outflow q);
  _ ← prepay i on q early;
  l ← loan i;
  if bool_decide (dueLoan = Some i) && negb (l_closed l)
  then
    r ← refresh i;
    match r with inl e => _ ← raise e; mret true | inr _ => mret false end
  else mret false.

Definition route_loan (j i : nat) (on : Date) (early : bool) (dueLoan : option nat) : M bool :=
  available ← route_available j on;
  bad ← failed;
  match bad with
  | true => mret true
  | false =>
      b ← bucket j;
      over ← cmp available (b_remaining b);
      let available := if 0 <? over then b_remaining b else available in
      if Sign available <=? 0 then mret false
      else
        r ← quote i on available;
        match r with
        | inl e => _ ← raise e; mret true
        | inr q =>
            if Sign (Outflow q) <=? 0 then mret false
            else
              wait ← batched q;
              match wait with
              | true => mret false
              | false => route_pay j i on early dueLoan q
              end
        end
  end.

(** A bucket whose hold is over. *)
Definition route_released (j : nat) (on : Date) (dueLoan : option nat) : M bool :=
  b ← bucket j;
  if String.eqb (b_target b) ""
  then
    z ← gets zero;
    _ ← bump s_cash (b_remaining b);
    _ ← assign_bucket j b_remaining z;
    mret false
  else
    only ← gets (λ s, RequiredOnly (s_pol s));
    match only with
    | true => mret false
    | false =>
        t ← gets (λ s, route_target s b on dueLoan);
        match t with
        | None => mret false
        | Some (i, early) => route_loan j i on early dueLoan
        end
    end.

(** One pass of the loop of [routeCash]. *)
Definition route_bucket (j : nat) (on : Date) (dueLoan : option nat) : M bool :=
  b ← bucket j;
  _ ← when (negb (Dates.IsZero (b_wake b)) && negb (After (b_wake b) on)) (assign_bucket j b_wake zero_date);
  if Sign (b_remaining b) <=? 0 then mret false
  else if Before on (b_until b) then _ ← assign_bucket j b_wake (b_until b); mret false
  else if negb (b_released b) && (minor (b_remaining b) <? minor (b_minimum b)) then mret false
  else
    _ ← when (negb (b_released b)) (assign_bucket j b_released true);
    route_released j on dueLoan.

Fixpoint route_from (js : list nat) (on : Date) (dueLoan : option nat) : M unit :=
  match js with
  | [] => mret tt
  | j :: js =>
      halt ← route_bucket j on dueLoan;
      match halt with true => mret tt | false => route_from js on dueLoan end
  end.

Definition routeCash (on : Date) (dueLoan : option nat) : M unit :=
  bad ← failed;
  match bad with
  | true => mret tt
  | false => n ← gets (λ s, length (s_cashBuckets s)); route_from (seq 0 n) on dueLoan
  end.

(** * Spending the surplus *)

(** Paid on the day, or held for the due date. *)
Definition allocate_to (i : nat) (on : Date) (q : Quote) : M unit :=
  l ← loan i;
  if bool_decide (l_timing l = OnReceipt) && bool_decide (Excess (l_pos l) = ExcessReducePrincipal) &&
    Before on (l_due l)
  then prepay i on q true
  else bump_loan i l_pending (Outflow q).

Fixpoint allocate_from (order : list nat) (on : Date) (surplus : Amount) : M unit :=
  match order with
  | [] => mret tt
  | i :: order =>
      l ← loan i;
      if l_closed l || OptionalExcluded (l_pos l) || (Sign surplus <=? 0) then allocate_from order on surplus
      else
        r ← quote i on surplus;
        or_raise r (λ q,
          if Sign (Outflow q) <=? 0 then allocate_from order on surplus
          else
            wait ← batched q;
            match wait with
            | true => allocate_from order on surplus
            | false =>
                _ ← allocate_to i on q;
                surplus ← sub surplus (Outflow q);
                allocate_from order on surplus
            end)
  end.

Definition allocate (on : Date) : M unit :=
  _ ← routeCash on None;
  only ← gets (λ s, RequiredOnly (s_pol s));
  match only with
  | true => mret tt
  | false =>
      surplus ← optionalCash on;
      bad ← failed;
      order ← gets (λ s, Order (s_pol s));
      if bad || (Sign surplus <=? 0) then mret tt else allocate_from order on surplus
  end.

(** * Money in *)

Definition incomeAfter (d : Date) : M Date :=
  p ← gets cash_plan; delay ← gets s_incomeDelayDays; nominal ← gets s_nominalIncome;
  if PayDay p =? 0 then mret zero_date
  else
    let d := if negb (delay =? 0) then nominal else d in
    let n := OnDayOfMonth (AddMonths d 1) (PayDay p) in
    _ ← assign s_nominalIncome n;
    mret (AddDays n delay).

Definition firstIncome : M Date :=
  p ← gets cash_plan; delay ← gets s_incomeDelayDays; v ← gets (λ s, ValuationDate (s_in s));
  if PayDay p =? 0 then mret zero_date
  else
    let d := OnDayOfMonth v (PayDay p) in
    let d := if Before d v || (negb (Dates.IsZero (CashThrough p)) && negb (After d (CashThrough p)))
             then OnDayOfMonth (AddMonths v 1) (PayDay p) else d in
    _ ← assign s_nominalIncome d;
    mret (AddDays d delay).

Definition credit (s : sim) (on : Date) : Amount :=
  let p := cash_plan s in
  let on := if negb (s_incomeDelayDays s =? 0) then s_nominalIncome s else on in
  match MonthlyOverrides p !! MonthKey on with
  | Some v => v
  | None => if separate s then Monthly p else s_budget s
  end.

(** The cycle this income opened is another one. *)
Definition new_income (s : sim) (on : Date) : bool := negb (separate s) && negb (Equal (s_cycleIncome s) on).

Definition income (on : Date) : M unit :=
  c ← gets (λ s, new_income s on && (0 <? s_cycle s));
  _ ← when c closeCycle;
  c ← gets (λ s, (s_cycle s =? 0) || new_income s on);
  _ ← when c (openCycle on);
  paid ← gets (λ s, credit s on);
  _ ← bump s_cash paid;
  _ ← bump s_inflow paid;
  next ← incomeAfter on;
  _ ← assign s_nextIncome next;
  _ ← assign s_incomeYM (ym on);
  allocate on.

(** The first cycle is opened by whatever comes first. *)
Definition ensure_cycle (on : Date) : M unit :=
  n ← gets s_cycle; when (n =? 0) (openCycle on).

(** One receipt of the day. *)
Definition receive (_ : unit) (event : CashEvent) : M unit :=
  _ ← bump s_inflow (CeAmount event);
  if is_routed event then addRouted event else bump s_cash (CeAmount event).

(** [receiveRoutedDate]: all of a day's receipts, then one allocation. The rest
    of the slice is rebuilt without them. *)
Definition receiveRoutedDate (on : Date) : M unit :=
  _ ← ensure_cycle on;
  ls ← gets s_lumps;
  _ ← foldM receive tt (filter (λ e, CeOn e = on) ls);
  _ ← assign s_lumps (filter (λ e, CeOn e ≠ on) ls);
  allocate on.

Definition lump (i : nat) : M unit :=
  ls ← gets s_lumps; routed ← gets s_hasRouting;
  match ls !! i with
  | None => panic "index out of range"
  | Some l =>
      match routed with
      | true => receiveRoutedDate (CeOn l)
      | false =>
          _ ← assign s_lumps (delete i ls);
          _ ← ensure_cycle (CeOn l);
          _ ← bump s_cash (CeAmount l);
          _ ← bump s_inflow (CeAmount l);
          allocate (CeOn l)
      end
  end.

(** * Instalments *)

(** The month's money is deemed to arrive with its first due date. *)
Definition due_income (on : Date) : M unit :=
  c ← gets (λ s, (PayDay (cash_plan s) =? 0) && negb (ym on =? s_incomeYM s));
  when c (income on).

(** What is owed on the date, and how much of it is asked: the instalment, at
    most what is owed, and all of it when no contractual date is left. *)
Definition due_amounts (i : nat) (on : Date) : M (perror + (Amount * Amount)) :=
  l ← loan i;
  owed ← add (l_balance l) (l_accrued l);
  cal ←? calendar i;
  required ←
    (match Calendar_Dates cal on with
     | Ok _ => mret (l_required l)
     | Err _ => mret owed
     | Panic w => panic w
     end);
  over ← cmp required owed;
  mret (inr (l_accrued l, if 0 <? over then owed else required)).

(** The figures an instalment moves. *)
Definition settle_due (i : nat) (on : Date) (interest required : Amount) : M unit :=
  sep ← gets separate; z ← gets zero;
  _ ← when sep (spendPermission required);
  _ ← draw s_cash required;
  _ ← bump_loan i l_cyclePaid required;
  principal ← sub required interest;
  _ ← draw_loan i l_balance principal;
  _ ← assign_loan i l_accrued z;
  _ ← bump_res ResInterest interest;
  _ ← bump_res ResPaid required;
  _ ← bump_month MsInterest interest;
  _ ← bump_month MsRequired required;
  action i on InstalmentPaid required z z.

(** Whether the money and the permission are there, and the refusal if not. *)
Definition check_due (i : nat) (on : Date) (required : Amount) : M bool :=
  l ← loan i; sep ← gets separate; left ← gets s_periodLeft; c ← gets s_cash;
  let id := PosID (l_pos l) in
  limited ← (match sep with true => r ← cmp left required; mret (r <? 0) | false => mret false end);
  match limited with
  | true =>
      short ← sub required left;
      _ ← raise (InfeasibleError "spending_limit" on id required left short);
      mret false
  | false =>
      poor ← cmp c required;
      if poor <? 0
      then
        short ← attempt (core (Sub required c));
        let short := match short with inr a => a | inl _ => no_amount end in
        _ ← raise (InfeasibleError "" on id required c short);
        mret false
      else mret true
  end.

Definition refresh_or_raise (i : nat) : M unit := r ← refresh i; or_raise r (λ _, mret tt).

(** The money held for the due date, quoted again. Whether the loan is still
    to be refreshed. *)
Definition pay_pending (i : nat) (on : Date) : M bool :=
  l ← loan i;
  if negb (0 <? Sign (l_pending l)) then mret true
  else
    z ← gets zero; sep ← gets separate; c ← gets s_cash;
    _ ← assign_loan i l_pending z;
    available ← (match sep with true => optionalCash on | false => mret c end);
    over ← cmp (l_pending l) available;
    let want := if 0 <? over then available else l_pending l in
    if Sign want <=? 0 then mret false
    else
      r ← quote i on want;
      match r with
      | inl e => _ ← raise e; mret false
      | inr q =>
          if 0 <? Sign (Outflow q)
          then _ ← prepay i on q false; l ← loan i; mret (negb (l_closed l))
          else mret true
      end.

(** After the instalment: the loan closes, or what is held for it is paid. *)
Definition after_due (i : nat) (on : Date) : M unit :=
  l ← loan i; sep ← gets separate;
  if Sign (l_balance l) <=? 0 then close i on
  else
    r ← (match sep with true => refresh i | false => mret (inr tt) end);
    or_raise r (λ _,
      again ← pay_pending i on;
      match again with true => refresh_or_raise i | false => mret tt end).

Definition due_now (i : nat) (on : Date) : M unit :=
  _ ← ensure_cycle on;
  r ← accrue_loan i on;
  or_raise r (λ _,
    r ← due_amounts i on;
    or_raise r (λ '(interest, required),
      bad ← failed;
      match bad with
      | true => mret tt
      | false =>
          fine ← check_due i on required;
          match fine with
          | false => mret tt
          | true =>
              _ ← settle_due i on interest required;
              bad ← failed;
              match bad with true => mret tt | false => after_due i on end
          end
      end)).

(** [due]; the deferred [routeCash] runs on every way out. *)
Definition due (i : nat) (on : Date) : M unit :=
  _ ← due_income on;
  bad ← failed;
  _ ← (match bad with true => mret tt | false => due_now i on end);
  routeCash on (Some i).

(** * Spending periods *)

(** The changes dated on or before [on], the last one winning. *)
Definition terms : Type := Amount * (string * Amount * Date).
Fixpoint in_force (on : Date) (changes : list SpendingChange) (t : terms) : terms :=
  match changes with
  | [] => t
  | ch :: changes =>
      if After (ScOn ch) on then t
      else in_force on changes
        (Limit ch, if negb (String.eqb (ScCarryRule ch) "")
                   then (ScCarryRule ch, ScCarryMinimum ch, ScCarryUntil ch) else snd t)
  end.

Definition period_terms (s : sim) (p : SpendingPlan) (on : Date) : terms :=
  let limit := default (s_budget s) (SpOverrides p !! MonthKey (PeriodStart p on)) in
  in_force on (Changes p) (limit, (CarryRule p, CarryMinimum p, CarryUntil p)).

Definition same_period (s : sim) (start : Date) : bool :=
  negb (Dates.IsZero (s_periodStart s)) && Equal (s_periodStart s) start.

(** A new period starts with nothing spent, the valuation period with what was
    spent before it. *)
Definition open_period (p : SpendingPlan) (start : Date) : M unit :=
  z ← gets zero; v ← gets (λ s, ValuationDate (s_in s));
  _ ← assign s_periodStart start;
  assign s_periodSpent (if Equal start (PeriodStart p v) && (0 <? Sign (Spent p)) then Spent p else z).

(** The day the permission next changes. *)
Definition next_change (p : SpendingPlan) (on : Date) : Date :=
  let e := periodEnd p on in
  match find (λ ch, After (ScOn ch) on && Before (ScOn ch) e) (Changes p) with
  | Some ch => ScOn ch
  | None => e
  end.

(** [no_carry]: what is not reserved leaves the debt pool. *)
Definition release_cash : M unit :=
  r ← reserved; c ← gets s_cash; transfer ← sub c r;
  when (0 <? Sign transfer)
    (_ ← draw s_cash transfer;
     _ ← bump_res HouseholdCash transfer;
     assign_month MsHousehold transfer).

(** The reporting cycle follows the period. *)
Definition turn_cycle (on : Date) : M unit :=
  n ← gets s_cycle; rule ← gets s_carryRule;
  _ ← when ((0 <? n) && String.eqb rule NoCarry) release_cash;
  _ ← when (0 <? n) closeCycle;
  openCycle on.

Definition period (on : Date) : M unit :=
  p ← spending; z ← gets zero;
  '(limit, (rule, minimum, until)) ← gets (λ s, period_terms s p on);
  same ← gets (λ s, same_period s (PeriodStart p on));
  _ ← when (negb same) (open_period p (PeriodStart p on));
  spent ← gets s_periodSpent;
  left ← sub limit spent;
  _ ← assign s_periodLeft left;
  if Sign left <? 0
  then
    short ← sub spent limit;
    raise (InfeasibleError "spending_limit" on "" spent limit short)
  else
    _ ← assign s_nextPeriod (next_change p on);
    _ ← modify (set s_loans (fmap (set l_pending (λ _, z))));
    _ ← when (negb same) (turn_cycle on);
    _ ← assign s_carryRule rule;
    _ ← assign s_carryMinimum minimum;
    _ ← assign s_carryUntil until;
    _ ← when (String.eqb rule CarryToDate && After until on && Before until (next_change p on))
      (assign s_nextPeriod until);
    allocate on.

(** * Events *)

(** Same-day events run in this order. *)
Inductive eventKind := evPeriod | evLump | evIncome | evRoute | evDue.
Definition rank (k : eventKind) : Z :=
  match k with evPeriod => 0 | evLump => 1 | evIncome => 2 | evRoute => 3 | evDue => 4 end.

Record choice := MkChoice { ch_kind : eventKind; ch_on : Date; ch_idx : nat }.

(** The local [consider]: what is picked after one more candidate. *)
Definition consider (best : option choice) (c : choice) : option choice :=
  match best with
  | None => Some c
  | Some b =>
      if Before (ch_on c) (ch_on b) || (Equal (ch_on c) (ch_on b) && (rank (ch_kind c) <? rank (ch_kind b)))
      then Some c else best
  end.

Definition if_set (k : eventKind) (d : Date) : list choice :=
  if Dates.IsZero d then [] else [MkChoice k d 0].

(** Everything that may happen next, in the order it is looked at. Only lumps
    and dues carry an index. *)
Definition candidates (s : sim) : list choice :=
  if_set evPeriod (s_nextPeriod s) ++ if_set evIncome (s_nextIncome s) ++
  (b ← s_cashBuckets s; if_set evRoute (b_wake b)) ++
  imap (λ i l, MkChoice evLump (CeOn l) i) (s_lumps s) ++
  concat (imap (λ i l, if l_closed l then [] else [MkChoice evDue (l_due l) i]) (s_loans s)).

(** With nothing to consider the zero values come back. *)
Definition nextEvent (s : sim) : choice :=
  default (MkChoice evPeriod zero_date 0) (foldl consider None (candidates s)).

Definition handle (c : choice) : M unit :=
  match ch_kind c with
  | evPeriod => period (ch_on c)
  | evLump => lump (ch_idx c)
  | evIncome => income (ch_on c)
  | evRoute => _ ← ensure_cycle (ch_on c); allocate (ch_on c)
  | evDue => due (ch_idx c) (ch_on c)
  end.

(** * The run *)

Definition horizon_date (s : sim) : Date := AddMonths (ValuationDate (s_in s)) (horizon (s_in s)).

Fixpoint loop (fuel : nat) : M (perror + unit) :=
  match fuel with
  | O => λ _, Err OutOfFuel
  | S fuel =>
      closed ← gets allClosed;
      match closed with
      | true => mret (inr tt)
      | false =>
          c ← gets nextEvent;
          far ← gets (λ s, After (ch_on c) (horizon_date s));
          match far with
          | true => mret (inl (Core (Sentinel ErrHorizon)))
          | false =>
              _ ← handle c;
              e ← gets s_err;
              match e with
              | Some e => mret (inl e)
              | None => loop fuel
              end
          end
      end
  end.

(** A bound on the events still to come, which is the fuel the loop is given:
    the days to the horizon, and on one day a period, an income, a wake, the
    month's first due date, the receipts, and four instalments of each loan
    after each of those. *)
Definition day_work (s : sim) : Z :=
  (4 * Z.of_nat (length (s_loans s)) + 1) * (Z.of_nat (length (s_lumps s)) + 5).
Definition work (s : sim) : Z :=
  Z.max 0 (time (horizon_date s) - time (ch_on (nextEvent s)) + 1) * day_work s.

(** [conserve]: the cash identity over the whole run. *)
Definition outflows (m : MonthState) : list Amount := [MsRequired m; MsExtra m; MsFees m].

Definition invariant {A} (format : string) : M (perror + A) :=
  mret (inl (Core (Wrapf format (Sentinel ErrInvariant)))).

Definition checkRestrictedCash (s : sim) : bool := existsb (λ b, Sign (b_remaining b) <? 0) (s_cashBuckets s).

Definition conserve : M (perror + unit) :=
  cr ← gets s_cur; opening ← gets (λ s, or_zero (OpeningCash (cash_plan s)) cr);
  res ← gets s_res; c ← gets s_cash; inflow ← gets s_inflow;
  paid ←? attempt (core (sum_amounts (Zero cr) (m ← Timeline res; outflows m)));
  differs ← cmp paid (ResPaid res);
  if negb (differs =? 0) then invariant "%w: timeline paid %s, ledger paid %s"
  else if Sign c <? 0 then invariant "%w: closing cash %s"
  else
    credits ←? attempt (core (Add opening inflow));
    negative ← gets checkRestrictedCash;
    match negative with
    | true => invariant "%w: negative routed balance"
    | false =>
        r ← restrictedCash; held ← add c r;
        debits ←? attempt (core (Add (ResPaid res) held));
        debits ←? attempt (core (Add debits (HouseholdCash res)));
        differs ← cmp credits debits;
        if negb (differs =? 0) then invariant "%w: debt and household cash identity" else mret (inr tt)
    end.

(** ** The start *)

Definition start_loan (pol : PlanInput.Policy) (z : Amount) (i : nat) (p : Position) : loanState :=
  let stated := Effect (Prepayment (PosContract p)) in
  let e := if bool_decide (stated = PrepayBorrowerChooses)
           then default PrepayBorrowerChooses (PolEffect pol !! i) else stated in
  let e := if bool_decide (e = PrepayBorrowerChooses) then PrepayShortenTerm else e in
  MkLoanState p (fingerprint (PosContract p)) e (default OnDue (PolTiming pol !! i))
    (PosBalance p) z (From p) z zero_date no_amount z ∅ false zero_date
    no_amount no_amount no_amount false no_amount.

(** One loan of the input: closed already, or with its first obligation. *)
Definition add_loan (pol : PlanInput.Policy) (i : nat) (p : Position) : M (perror + unit) :=
  z ← gets zero;
  let l := start_loan pol z i p in
  l ←? (if Sign (PosBalance p) <=? 0
        then mret (inr (l <| l_closed := true |> <| l_closedOn := From p |>))
        else refreshed l);
  _ ← modify (set s_loans (λ ls, ls ++ [l])); mret (inr tt).

Fixpoint add_loans (pol : PlanInput.Policy) (i : nat) (ps : list Position) : M (perror + unit) :=
  match ps with
  | [] => mret (inr tt)
  | p :: ps => _ ←? add_loan pol i p; add_loans pol (S i) ps
  end.

(** One receipt of the plan: retained money leaves the pool for its bucket,
    expected money is not funding, the rest waits for its date. *)
Definition add_lump (_ : unit) (event : CashEvent) : M unit :=
  _ ← when (is_routed event) (assign s_hasRouting true);
  if FromOpening event then _ ← draw s_cash (CeAmount event); addRouted event
  else when (negb (Expected event)) (modify (set s_lumps (λ ls, ls ++ [event]))).

Definition start_result (pol : PlanInput.Policy) (z : Amount) : Result :=
  MkResult z pol zero_date 0 z z z z "" zero_date 0 z [] [] z z 0 false ∅.

Definition start (inp : Input) (pol : PlanInput.Policy) (c : cache) (sink : option (list Action))
    (delay : Z) : sim :=
  let cr := in_currency inp in
  let z := Zero cr in
  let budget := match Spending (Cash inp) with Some p => SpMonthly p | None => Monthly (Cash inp) end in
  MkSim delay zero_date [] false sink inp pol c cr [] (or_zero (OpeningCash (Cash inp)) cr) budget
    (start_result pol z) 0 zero_date zero_date 0
    (MkMonthState no_amount 0 zero_date no_amount no_amount no_amount no_amount no_amount no_amount "" [])
    [] z zero_date no_amount zero_date no_amount "" no_amount zero_date None.

(** The loans, the receipts and the clocks. *)
Definition setup : M (perror + unit) :=
  inp ← gets s_in; pol ← gets s_pol;
  _ ←? add_loans pol 0 (Loans inp);
  _ ← foldM add_lump tt (Lumps (Cash inp));
  sep ← gets separate;
  _ ← when sep (assign s_nextPeriod (ValuationDate inp));
  d ← firstIncome;
  _ ← assign s_nextIncome d;
  _ ← when ((PayDay (Cash inp) =? 0) && negb (Dates.IsZero (CashThrough (Cash inp))))
    (assign s_incomeYM (ym (CashThrough (Cash inp))));
  mret (inr tt).

(** After the loop: the last cycle is closed and the books are checked. *)
Definition finish : M (perror + Result) :=
  n ← gets s_cycle;
  _ ← when (0 <? n) closeCycle;
  months ← gets (λ s, Months (s_res s));
  _ ← when (months =? 0) (assign_res Months n);
  _ ←? conserve;
  r ← gets s_res; mret (inr r).

Definition simulate : M (perror + Result) :=
  _ ←? setup;
  work ← gets work;
  _ ←? loop (S (Z.to_nat work));
  finish.

Definition covers (inp : Input) (pol : PlanInput.Policy) : bool :=
  let n := length (Loans inp) in
  Nat.eqb (length (Order pol)) n && Nat.eqb (length (PolTiming pol)) n && Nat.eqb (length (PolEffect pol)) n.

(** [runConfigured]: the answer, with the cache and the sink as the run leaves
    them. *)
Definition runConfigured (inp : Input) (pol : PlanInput.Policy) (c : cache) (sink : option (list Action))
    (delay : Z) : result stop ((perror + Result) * (cache * option (list Action))) :=
  match Input_Validate inp with
  | Panic w => Panic w
  | Err e => Ok (inl e, (c, sink))
  | Ok _ =>
      if negb (covers inp pol)
      then Ok (inl (Core (Errorf "plan: policy covers %d/%d/%d of %d loans")), (c, sink))
      else
        match simulate (start inp pol c sink delay) with
        | Ok (r, s) => Ok (r, (s_cache s, s_actionSink s))
        | Err e => Err e
        | Panic w => Panic w
        end
  end.

Definition run (inp : Input) (pol : PlanInput.Policy) (c : cache) : result stop ((perror + Result) * cache) :=
  match runConfigured inp pol c None 0 with
  | Ok (r, (c, _)) => Ok (r, c)
  | Err e => Err e
  | Panic w => Panic w
  end.

Definition Run (inp : Input) (pol : PlanInput.Policy) : result stop (perror + Result) :=
  match run inp pol newCache with Ok (r, _) => Ok r | Err e => Err e | Panic w => Panic w end.

(** [PaymentTimeline] captures every dated action. *)
Definition PaymentTimeline (inp : Input) (pol : PlanInput.Policy) :
    result stop ((perror + Result) * list Action) :=
  match runConfigured inp pol newCache (Some []) 0 with
  | Ok (r, (_, sink)) => Ok (r, default [] sink)
  | Err e => Err e
  | Panic w => Panic w
  end.
