(* ===== verification/SimLogic.v ===== *)
(** Reasoning about a step of the simulator: inversion of the monad, the sticky
    error, and a triple for steps that end without one. *)
From S2P Require Import Prelude Money Dates Model Fees PlanBase PlanInput SimState Sim.

(** Writing one entry of a list. *)
Lemma alter_insert {A} (f : A → A) (l : list A) i x : l !! i = Some x → alter f i l = <[i := f x]> l.
Proof.
  revert i. induction l as [|y l IH]; intros [|i] H; simplify_eq/=; [done|]. f_equal. by apply IH.
Qed.

(** * Inversion *)

Lemma bind_M {A B} (m : M A) (k : A → M B) s b s' :
  (m ≫= k) s = Ok (b, s') ↔ ∃ a s1, m s = Ok (a, s1) ∧ k a s1 = Ok (b, s').
Proof.
  unfold mbind, M_bind. split; [|by intros (a & s1 & -> & ?)].
  destruct (m s) as [[a s1]|e|w]; [|done|done]. eauto.
Qed.

Lemma gets_Ok {A} (f : sim → A) s a s' : gets f s = Ok (a, s') ↔ a = f s ∧ s' = s.
Proof. unfold gets. naive_solver. Qed.
Lemma modify_Ok f s u s' : modify f s = Ok (u, s') ↔ s' = f s.
Proof. unfold modify. destruct u. naive_solver. Qed.
Lemma ret_Ok {A} (a : A) s b s' : (mret a : M A) s = Ok (b, s') ↔ b = a ∧ s' = s.
Proof. unfold mret, M_ret. naive_solver. Qed.
Lemma loan_Ok i s l s' : loan i s = Ok (l, s') ↔ s_loans s !! i = Some l ∧ s' = s.
Proof. unfold loan. destruct (s_loans s !! i); naive_solver. Qed.
Lemma bucket_Ok i s b s' : bucket i s = Ok (b, s') ↔ s_cashBuckets s !! i = Some b ∧ s' = s.
Proof. unfold bucket. destruct (s_cashBuckets s !! i); naive_solver. Qed.
Lemma total_Ok {A} (m : res A) s a s' : total m s = Ok (a, s') ↔ m = Ok a ∧ s' = s.
Proof. unfold total. destruct m; naive_solver. Qed.
Lemma attempt_Ok {A} (m : pres A) s r s' :
  attempt m s = Ok (r, s') ↔ s' = s ∧ match r with inl e => m = Err e | inr a => m = Ok a end.
Proof. unfold attempt. destruct m, r; naive_solver. Qed.
Lemma cmp_Ok a b s z s' :
  cmp a b s = Ok (z, s') ↔
  (Code (cur a) = Code (cur b) ∧
   z = (if minor a <? minor b then -1 else if minor b <? minor a then 1 else 0)) ∧ s' = s.
Proof. unfold cmp. by rewrite total_Ok, Cmp_Ok. Qed.
Lemma when_Ok b m s u s' : when b m s = Ok (u, s') ↔ (if b then m s = Ok (u, s') else s' = s).
Proof. unfold when. destruct b; [done|]. rewrite ret_Ok. destruct u. naive_solver. Qed.
Lemma failed_Ok s b s' : failed s = Ok (b, s') ↔ b = match s_err s with Some _ => true | None => false end ∧ s' = s.
Proof. unfold failed. by rewrite gets_Ok. Qed.

(** Adding and subtracting: with no error after, there was none before. *)
Lemma sticky_Ok m a s r s' :
  sticky m a s = Ok (r, s') → s_err s' = None → s_err s = None ∧ s' = s ∧ m = Ok r.
Proof.
  unfold sticky. destruct (s_err s) as [e|] eqn:E; [|destruct m as [a'|e|w]].
  - intros [= <- <-] H. congruence.
  - by intros [= <- <-].
  - by intros [= <- <-] ?.
  - done.
Qed.

Lemma and_then_Ok {A B} (m : M (perror + A)) (k : A → M (perror + B)) s r s' :
  and_then m k s = Ok (r, s') ↔
  (∃ e, m s = Ok (inl e, s') ∧ r = inl e) ∨ (∃ a s1, m s = Ok (inr a, s1) ∧ k a s1 = Ok (r, s')).
Proof.
  unfold and_then. rewrite bind_M. split.
  - intros ([e|a] & s1 & Hm & H); [|by eauto]. apply ret_Ok in H as [-> ->]. eauto.
  - intros [(e & Hm & ->)|(a & s1 & Hm & H)]; [|by eauto]. exists (inl e), s'. done.
Qed.

(** [steps H] opens a run of straight-line code into the runs of its parts, the
    pure ones solved and substituted. *)
Ltac steps H :=
  lazymatch type of H with
  | (_ ≫= _) _ = Ok _ =>
      let a := fresh "x" in let s := fresh "t" in let H1 := fresh "R" in
      apply bind_M in H as (a & s & H1 & H); steps H1; cbv beta zeta in H; steps H
  | gets _ _ = Ok _ => apply gets_Ok in H as [? ?]; subst
  | modify _ _ = Ok _ => apply modify_Ok in H; subst
  | assign _ _ _ = Ok _ => unfold assign in H; steps H
  | assign_res _ _ _ = Ok _ => unfold assign_res in H; steps H
  | assign_month _ _ _ = Ok _ => unfold assign_month in H; steps H
  | alter_loan _ _ _ = Ok _ => unfold alter_loan in H; steps H
  | assign_loan _ _ _ _ = Ok _ => unfold assign_loan in H; steps H
  | assign_bucket _ _ _ _ = Ok _ => unfold assign_bucket in H; steps H
  | bump _ _ _ = Ok _ => unfold bump in H; steps H
  | draw _ _ _ = Ok _ => unfold draw in H; steps H
  | bump_res _ _ _ = Ok _ => unfold bump_res in H; steps H
  | bump_month _ _ _ = Ok _ => unfold bump_month in H; steps H
  | bump_loan _ _ _ _ = Ok _ => unfold bump_loan in H; steps H
  | draw_loan _ _ _ _ = Ok _ => unfold draw_loan in H; steps H
  | mret _ _ = Ok _ => apply ret_Ok in H as [? ?]; subst
  | loan _ _ = Ok _ => let E := fresh "L" in apply loan_Ok in H as [E ?]; subst
  | bucket _ _ = Ok _ => let E := fresh "L" in apply bucket_Ok in H as [E ?]; subst
  | total _ _ = Ok _ => apply total_Ok in H as [? ?]; subst
  | cmp _ _ _ = Ok _ => apply cmp_Ok in H as [[? ?] ?]; subst
  | add _ _ _ = Ok _ => unfold add in H
  | sub _ _ _ = Ok _ => unfold sub in H
  | failed _ = Ok _ => apply failed_Ok in H as [? ?]; subst
  | attempt _ _ = Ok _ => apply attempt_Ok in H as [? ?]; subst
  | _ => idtac
  end.

(** [unstick E] walks back from the absence of an error at the end through the
    sums that led there. *)
Ltac unstick E :=
  repeat (cbn in E;
    match type of E with
    | s_err ?s1 = None =>
        match goal with
        | H : sticky _ _ _ = Ok (_, s1) |- _ =>
            let S := fresh "S" in
            apply sticky_Ok in H as (E' & S & H); [|exact E];
            clear E; rename E' into E; subst s1
        end
    end).

(** * Triples *)

(** Started where [P] holds, a step that ends without an error started without
    one and ends where [Q] holds. *)
Definition triple {A} (P : sim → Prop) (m : M A) (Q : A → sim → Prop) : Prop :=
  ∀ s a s', m s = Ok (a, s') → s_err s' = None → s_err s = None ∧ (P s → Q a s').

Section Rules.
Context {A B : Type}.
Implicit Types (P : sim → Prop) (m : M A).

Lemma triple_ret P (Q : A → sim → Prop) a : (∀ s, P s → Q a s) → triple P (mret a) Q.
Proof. intros H s b s' [-> ->]%ret_Ok E. auto. Qed.

Lemma triple_bind P (Q : A → sim → Prop) (R : B → sim → Prop) m k :
  triple P m Q → (∀ a, triple (Q a) (k a) R) → triple P (m ≫= k) R.
Proof.
  intros Hm Hk s b s' (a & s1 & H1 & H2)%bind_M E.
  destruct (Hk _ _ _ _ H2 E) as [E1 HR]. destruct (Hm _ _ _ H1 E1) as [E0 HQ]. auto.
Qed.

Lemma triple_gets P f : triple P (gets f : M A) (λ a s, a = f s ∧ P s).
Proof. intros s a s' [-> ->]%gets_Ok E. auto. Qed.

Lemma triple_modify P (Q : unit → sim → Prop) f :
  (∀ s, s_err (f s) = s_err s) → (∀ s, P s → Q tt (f s)) → triple P (modify f) Q.
Proof. intros He H s [] s' ->%modify_Ok E. rewrite He in E. auto. Qed.

Lemma triple_when P (Q : unit → sim → Prop) b (m : M unit) :
  (b = true → triple P m Q) → (b = false → ∀ s, P s → Q tt s) → triple P (when b m) Q.
Proof. destruct b; intros H1 H2; [by apply H1|]. intros s u s' [-> ->]%ret_Ok E. auto. Qed.

Lemma triple_conseq P P' (Q Q' : A → sim → Prop) m :
  triple P m Q → (∀ s, P' s → P s) → (∀ a s, Q a s → Q' a s) → triple P' m Q'.
Proof. intros H HP HQ s a s' Hm E. destruct (H _ _ _ Hm E). auto. Qed.

(** What holds of the start may be used on the way. *)
Lemma triple_pre P (Q : A → sim → Prop) m : (∀ s, P s → triple (eq s) m Q) → (triple (λ _, True) m (λ _ _, True)) → triple P m Q.
Proof.
  intros H Hs s a s' Hm E. destruct (Hs _ _ _ Hm E) as [E0 _]. split; [done|].
  intros HP. by eapply H.
Qed.

Lemma triple_and_then P (Q : A → sim → Prop) (R : perror + B → sim → Prop) (m : M (perror + A)) k :
  triple P m (λ r s, match r with inl e => R (inl e) s | inr a => Q a s end) →
  (∀ a, triple (Q a) (k a) R) → triple P (and_then m k) R.
Proof.
  intros Hm Hk. unfold and_then. intros s b s' (r & s1 & H1 & H2)%bind_M E. destruct r as [e|a].
  - apply ret_Ok in H2 as [-> ->]. by destruct (Hm _ _ _ H1 E).
  - destruct (Hk _ _ _ _ H2 E) as [E1 HR]. destruct (Hm _ _ _ H1 E1) as [E0 HQ]. auto.
Qed.

Lemma triple_or_raise P (Q : unit → sim → Prop) (r : perror + A) k :
  (∀ a, r = inr a → triple P (k a) Q) → triple P (or_raise r k) Q.
Proof.
  intros H. destruct r as [e|a]; [|by apply H]. intros s u s' Hr E. unfold or_raise, raise, assign in Hr.
  apply modify_Ok in Hr. subst s'. done.
Qed.
End Rules.

Lemma triple_raise P Q e : triple P (raise e) Q.
Proof. intros s u s' H E. unfold raise, assign in H. apply modify_Ok in H. subst s'. done. Qed.

Lemma triple_failed P : triple P failed (λ b s, b = false ∧ P s).
Proof. intros s b s' [-> ->]%failed_Ok E. rewrite E. auto. Qed.

Lemma triple_sub P a b : triple P (sub a b) (λ r s, Sub a b = Ok r ∧ P s).
Proof. intros s r s' H E. apply sticky_Ok in H as (? & -> & ?); auto. Qed.
Lemma triple_add P a b : triple P (add a b) (λ r s, Add a b = Ok r ∧ P s).
Proof. intros s r s' H E. apply sticky_Ok in H as (? & -> & ?); auto. Qed.

Lemma triple_foldM {A B} (I : B → sim → Prop) (f : B → A → M B) l :
  (∀ b x, x ∈ l → triple (I b) (f b x) I) → ∀ b, triple (I b) (foldM f b l) I.
Proof.
  induction l as [|x l IH]; intros Hf b; [by apply triple_ret|]. eapply triple_bind; [apply Hf; by left|].
  intros b'. apply IH. intros b1 y Hy. apply Hf. by right.
Qed.

(** * Stickiness *)

(** An error, once there, is still there at the end. *)
Definition sticks {A} (m : M A) : Prop := ∀ s a s', m s = Ok (a, s') → s_err s' = None → s_err s = None.

Lemma sticks_ret {A} (a : A) : sticks (mret a).
Proof. by intros s b s' [_ ->]%ret_Ok. Qed.
Lemma sticks_bind {A B} (m : M A) (k : A → M B) : sticks m → (∀ a, sticks (k a)) → sticks (m ≫= k).
Proof. intros Hm Hk s b s' (a & s1 & H1 & H2)%bind_M E. eapply Hm; [exact H1|]. by eapply Hk. Qed.
Lemma sticks_gets {A} (f : sim → A) : sticks (gets f).
Proof. by intros s b s' [_ ->]%gets_Ok. Qed.
Lemma sticks_and_then {A B} (m : M (perror + A)) (k : A → M (perror + B)) :
  sticks m → (∀ a, sticks (k a)) → sticks (and_then m k).
Proof. intros Hm Hk. apply sticks_bind; [done|]. intros [e|a]; [apply sticks_ret|done]. Qed.
Lemma sticks_total {A} (m : res A) : sticks (total m).
Proof. by intros s b s' [_ ->]%total_Ok. Qed.
Lemma sticks_attempt {A} (m : pres A) : sticks (attempt m).
Proof. by intros s b s' [-> _]%attempt_Ok. Qed.
Lemma sticks_panic {A} w : sticks (panic w : M A).
Proof. done. Qed.
Lemma sticks_foldM {A B} (f : B → A → M B) l : (∀ b x, sticks (f b x)) → ∀ b, sticks (foldM f b l).
Proof.
  intros Hf. induction l as [|x l IH]; intros b; simpl; [apply sticks_ret|]. by apply sticks_bind.
Qed.
Lemma sticks_modify f : (∀ s, s_err (f s) = s_err s) → sticks (modify f).
Proof. intros Hf s u s' ->%modify_Ok. by rewrite Hf. Qed.
Lemma sticks_raise e : sticks (raise e).
Proof. intros s u s1 H E. apply modify_Ok in H. subst s1. done. Qed.
Lemma sticks_or_raise {A} (r : perror + A) k : (∀ a, sticks (k a)) → sticks (or_raise r k).
Proof. intros Hk. destruct r as [e|a]; [apply sticks_raise|apply Hk]. Qed.
Lemma sticks_sticky m a : sticks (sticky m a).
Proof. intros s r s' H E. by apply sticky_Ok in H as (? & _). Qed.
Lemma sticks_when b m : sticks m → sticks (when b m).
Proof. destruct b; [done|]. intros _. apply sticks_ret. Qed.
Lemma sticks_loan i : sticks (loan i).
Proof. by intros s b s' [_ ->]%loan_Ok. Qed.
Lemma sticks_bucket i : sticks (bucket i).
Proof. by intros s b s' [_ ->]%bucket_Ok. Qed.

Create HintDb sticks discriminated.
#[export] Hint Constants Opaque : sticks.
#[export] Hint Resolve sticks_ret sticks_gets sticks_total sticks_attempt sticks_panic sticks_raise sticks_sticky
  sticks_loan sticks_bucket : sticks.

(** Structural: what is left are calls of other steps, found in the database. *)
Ltac sticks :=
  repeat match goal with
  | |- sticks (_ ≫= _) => apply sticks_bind; [|intros ?]
  | |- sticks (and_then _ _) => apply sticks_and_then; [|intros ?]
  | |- sticks (or_raise _ _) => apply sticks_or_raise; intros ?
  | |- sticks (when _ _) => apply sticks_when
  | |- sticks (foldM _ _ _) => apply sticks_foldM; intros ? ?
  | |- sticks (modify _) => apply sticks_modify; intros []; reflexivity
  | |- sticks (assign _ _) => unfold assign
  | |- sticks (assign_res _ _) => unfold assign_res
  | |- sticks (assign_month _ _) => unfold assign_month
  | |- sticks (alter_loan _ _) => unfold alter_loan
  | |- sticks (assign_loan _ _ _) => unfold assign_loan
  | |- sticks (assign_bucket _ _ _) => unfold assign_bucket
  | |- sticks (bump _ _) => unfold bump
  | |- sticks (draw _ _) => unfold draw
  | |- sticks (bump_res _ _) => unfold bump_res
  | |- sticks (bump_month _ _) => unfold bump_month
  | |- sticks (bump_loan _ _ _) => unfold bump_loan
  | |- sticks (draw_loan _ _ _) => unfold draw_loan
  | |- sticks (add _ _) => unfold add
  | |- sticks (sub _ _) => unfold sub
  | |- sticks (cmp _ _) => unfold cmp
  | |- sticks failed => unfold failed
  | |- sticks spending => intros ? ? ? ?; unfold spending in *; case_match; by simplify_eq
  | |- sticks (match ?x with _ => _ end) => destruct x
  | |- sticks _ => solve [auto with sticks nocore]
  end.

(** No error at the end of the rest of a step, so none where it starts. *)
Tactic Notation "unstuck" hyp(H) hyp(E) "as" ident(E') :=
  lazymatch type of H with
  | ?m _ = Ok _ => let S := fresh in assert (sticks m) as S by sticks; pose proof (S _ _ _ H E) as E'; clear S
  end.

(** Every step of the simulator sticks. *)
Lemma sticks_accrue_loan i on : sticks (accrue_loan i on).
Proof. unfold accrue_loan. sticks. Qed.
#[export] Hint Resolve sticks_accrue_loan : sticks.
Lemma sticks_quote i on available : sticks (quote i on available).
Proof. unfold quote. sticks. Qed.
#[export] Hint Resolve sticks_quote : sticks.
Lemma sticks_openCycle on : sticks (openCycle on).
Proof. unfold openCycle. sticks. Qed.
#[export] Hint Resolve sticks_openCycle : sticks.
Lemma sticks_restrictedCash : sticks restrictedCash.
Proof. unfold restrictedCash. sticks. Qed.
#[export] Hint Resolve sticks_restrictedCash : sticks.
Lemma sticks_closeCycle : sticks closeCycle.
Proof. unfold closeCycle. sticks. Qed.
#[export] Hint Resolve sticks_closeCycle : sticks.
Lemma sticks_action i on kind amount fee saves : sticks (action i on kind amount fee saves).
Proof. unfold action. sticks. Qed.
#[export] Hint Resolve sticks_action : sticks.
Lemma sticks_retire i on freed : sticks (retire i on freed).
Proof. unfold retire. sticks. Qed.
#[export] Hint Resolve sticks_retire : sticks.
Lemma sticks_note_clear name on freed : sticks (note_clear name on freed).
Proof. unfold note_clear. sticks. Qed.
#[export] Hint Resolve sticks_note_clear : sticks.
Lemma sticks_keep_freed freed : sticks (keep_freed freed).
Proof. unfold keep_freed. sticks. Qed.
#[export] Hint Resolve sticks_keep_freed : sticks.
Lemma sticks_note_payoff on : sticks (note_payoff on).
Proof. unfold note_payoff. sticks. Qed.
#[export] Hint Resolve sticks_note_payoff : sticks.
Lemma sticks_close i on : sticks (close i on).
Proof. unfold close. sticks. Qed.
#[export] Hint Resolve sticks_close : sticks.
Lemma sticks_spendPermission outflow : sticks (spendPermission outflow).
Proof. unfold spendPermission. sticks. Qed.
#[export] Hint Resolve sticks_spendPermission : sticks.
Lemma sticks_saved l on q early : sticks (saved l on q early).
Proof. unfold saved. sticks. Qed.
#[export] Hint Resolve sticks_saved : sticks.
Lemma sticks_pay_out i q : sticks (pay_out i q).
Proof. unfold pay_out. sticks. Qed.
#[export] Hint Resolve sticks_pay_out : sticks.
Lemma sticks_use_allowance i on q : sticks (use_allowance i on q).
Proof. unfold use_allowance. sticks. Qed.
#[export] Hint Resolve sticks_use_allowance : sticks.
Lemma sticks_settle_closing i on q : sticks (settle_closing i on q).
Proof. unfold settle_closing. sticks. Qed.
#[export] Hint Resolve sticks_settle_closing : sticks.
Lemma sticks_prepay i on q early : sticks (prepay i on q early).
Proof. unfold prepay. sticks. Qed.
#[export] Hint Resolve sticks_prepay : sticks.
Lemma sticks_reserved : sticks reserved.
Proof. unfold reserved. sticks. Qed.
#[export] Hint Resolve sticks_reserved : sticks.
Lemma sticks_optionalPermission on : sticks (optionalPermission on).
Proof. unfold optionalPermission. sticks. Qed.
#[export] Hint Resolve sticks_optionalPermission : sticks.
Lemma sticks_optionalCash on : sticks (optionalCash on).
Proof. unfold optionalCash. sticks. Qed.
#[export] Hint Resolve sticks_optionalCash : sticks.
Lemma sticks_batched q : sticks (batched q).
Proof. unfold batched. sticks. Qed.
#[export] Hint Resolve sticks_batched : sticks.
Lemma sticks_refreshed l : sticks (refreshed l).
Proof. unfold refreshed. sticks. Qed.
#[export] Hint Resolve sticks_refreshed : sticks.
Lemma sticks_refresh i : sticks (refresh i).
Proof. unfold refresh. sticks. Qed.
#[export] Hint Resolve sticks_refresh : sticks.
Lemma sticks_calendar i : sticks (calendar i).
Proof. unfold calendar. sticks. Qed.
#[export] Hint Resolve sticks_calendar : sticks.
Lemma sticks_add_part event r u part : sticks (add_part event r u part).
Proof. unfold add_part. sticks. Qed.
#[export] Hint Resolve sticks_add_part : sticks.
Lemma sticks_addRouted event : sticks (addRouted event).
Proof. unfold addRouted. sticks. Qed.
#[export] Hint Resolve sticks_addRouted : sticks.
Lemma sticks_route_available j on : sticks (route_available j on).
Proof. unfold route_available. sticks. Qed.
#[export] Hint Resolve sticks_route_available : sticks.
Lemma sticks_route_pay j i on early dueLoan q : sticks (route_pay j i on early dueLoan q).
Proof. unfold route_pay. sticks. Qed.
#[export] Hint Resolve sticks_route_pay : sticks.
Lemma sticks_route_loan j i on early dueLoan : sticks (route_loan j i on early dueLoan).
Proof. unfold route_loan. sticks. Qed.
#[export] Hint Resolve sticks_route_loan : sticks.
Lemma sticks_route_released j on dueLoan : sticks (route_released j on dueLoan).
Proof. unfold route_released. sticks. Qed.
#[export] Hint Resolve sticks_route_released : sticks.
Lemma sticks_route_bucket j on dueLoan : sticks (route_bucket j on dueLoan).
Proof. unfold route_bucket. sticks. Qed.
#[export] Hint Resolve sticks_route_bucket : sticks.
Lemma sticks_route_from js : ∀ on dueLoan, sticks (route_from js on dueLoan).
Proof. induction js as [|? ? IH]; intros; cbn [route_from]; sticks; apply IH. Qed.
#[export] Hint Resolve sticks_route_from : sticks.
Lemma sticks_routeCash on dueLoan : sticks (routeCash on dueLoan).
Proof. unfold routeCash. sticks. Qed.
#[export] Hint Resolve sticks_routeCash : sticks.
Lemma sticks_allocate_to i on q : sticks (allocate_to i on q).
Proof. unfold allocate_to. sticks. Qed.
#[export] Hint Resolve sticks_allocate_to : sticks.
Lemma sticks_allocate_from order : ∀ on surplus, sticks (allocate_from order on surplus).
Proof. induction order as [|? ? IH]; intros; cbn [allocate_from]; sticks; apply IH. Qed.
#[export] Hint Resolve sticks_allocate_from : sticks.
Lemma sticks_allocate on : sticks (allocate on).
Proof. unfold allocate. sticks. Qed.
#[export] Hint Resolve sticks_allocate : sticks.
Lemma sticks_incomeAfter d : sticks (incomeAfter d).
Proof. unfold incomeAfter. sticks. Qed.
#[export] Hint Resolve sticks_incomeAfter : sticks.
Lemma sticks_firstIncome : sticks firstIncome.
Proof. unfold firstIncome. sticks. Qed.
#[export] Hint Resolve sticks_firstIncome : sticks.
Lemma sticks_income on : sticks (income on).
Proof. unfold income. sticks. Qed.
#[export] Hint Resolve sticks_income : sticks.
Lemma sticks_ensure_cycle on : sticks (ensure_cycle on).
Proof. unfold ensure_cycle. sticks. Qed.
#[export] Hint Resolve sticks_ensure_cycle : sticks.
Lemma sticks_receive u event : sticks (receive u event).
Proof. unfold receive. sticks. Qed.
#[export] Hint Resolve sticks_receive : sticks.
Lemma sticks_receiveRoutedDate on : sticks (receiveRoutedDate on).
Proof. unfold receiveRoutedDate. sticks. Qed.
#[export] Hint Resolve sticks_receiveRoutedDate : sticks.
Lemma sticks_lump i : sticks (lump i).
Proof. unfold lump. sticks. Qed.
#[export] Hint Resolve sticks_lump : sticks.
Lemma sticks_due_income on : sticks (due_income on).
Proof. unfold due_income. sticks. Qed.
#[export] Hint Resolve sticks_due_income : sticks.
Lemma sticks_due_amounts i on : sticks (due_amounts i on).
Proof. unfold due_amounts. sticks. Qed.
#[export] Hint Resolve sticks_due_amounts : sticks.
Lemma sticks_settle_due i on interest required : sticks (settle_due i on interest required).
Proof. unfold settle_due. sticks. Qed.
#[export] Hint Resolve sticks_settle_due : sticks.
Lemma sticks_check_due i on required : sticks (check_due i on required).
Proof. unfold check_due. sticks. Qed.
#[export] Hint Resolve sticks_check_due : sticks.
Lemma sticks_refresh_or_raise i : sticks (refresh_or_raise i).
Proof. unfold refresh_or_raise. sticks. Qed.
#[export] Hint Resolve sticks_refresh_or_raise : sticks.
Lemma sticks_pay_pending i on : sticks (pay_pending i on).
Proof. unfold pay_pending. sticks. Qed.
#[export] Hint Resolve sticks_pay_pending : sticks.
Lemma sticks_after_due i on : sticks (after_due i on).
Proof. unfold after_due. sticks. Qed.
#[export] Hint Resolve sticks_after_due : sticks.
Lemma sticks_due_now i on : sticks (due_now i on).
Proof. unfold due_now. sticks. Qed.
#[export] Hint Resolve sticks_due_now : sticks.
Lemma sticks_due i on : sticks (due i on).
Proof. unfold due. sticks. Qed.
#[export] Hint Resolve sticks_due : sticks.
Lemma sticks_open_period p start : sticks (open_period p start).
Proof. unfold open_period. sticks. Qed.
#[export] Hint Resolve sticks_open_period : sticks.
Lemma sticks_release_cash : sticks release_cash.
Proof. unfold release_cash. sticks. Qed.
#[export] Hint Resolve sticks_release_cash : sticks.
Lemma sticks_turn_cycle on : sticks (turn_cycle on).
Proof. unfold turn_cycle. sticks. Qed.
#[export] Hint Resolve sticks_turn_cycle : sticks.
Lemma sticks_period on : sticks (period on).
Proof. unfold period. sticks. Qed.
#[export] Hint Resolve sticks_period : sticks.
Lemma sticks_handle c : sticks (handle c).
Proof. unfold handle. sticks. Qed.
#[export] Hint Resolve sticks_handle : sticks.
