(* ===== verification/Tidy.v ===== *)
(** A run keeps its figures in the plan's currency: the sums a result is ranked
    by start at zero of that currency, and addition keeps it. *)
From S2P Require Import Prelude Money Dates Model Fees PlanBase PlanInput SimState Sim SimLogic.

Create HintDb tidy discriminated.
#[export] Hint Constants Opaque : tidy.

Lemma cur_Add a b r : Add a b = Ok r → cur r = cur a ∧ wf_amount r.
Proof.
  unfold Add. intros H. inv_res. case_match; [done|]. injection H as <-. split; [done|apply i64_in].
Qed.

Section Tidy.
Context (cr : Currency).

(** The figures of a result, of the months behind it and of the one under way. *)
Record tidy (s : sim) : Prop := {
  td_cur : s_cur s = cr;
  td_interest : cur (ResInterest (s_res s)) = cr;
  td_fees : cur (ResFees (s_res s)) = cr;
  td_stored : wf_amount (ResInterest (s_res s)) ∧ wf_amount (ResFees (s_res s));
  td_peak : cur (PeakRequired (s_res s)) = cr;
  td_months : Forall (λ m, cur (MsRequired m) = cr) (Timeline (s_res s));
  td_month : 0 < s_cycle s → cur (MsRequired (s_month s)) = cr }.

Definition stays {A} (m : M A) : Prop := triple tidy m (λ _, tidy).

Section Rules.
Context {A B : Type}.

Lemma stays_ret (a : A) : stays (mret a).
Proof using Type. by apply triple_ret. Qed.
Lemma stays_bind (m : M A) (k : A → M B) : stays m → (∀ a, stays (k a)) → stays (m ≫= k).
Proof using Type. intros Hm Hk. eapply triple_bind; [exact Hm|exact Hk]. Qed.
Lemma stays_gets (f : sim → A) : stays (gets f).
Proof using Type. by intros s a s' [-> ->]%gets_Ok E. Qed.
Lemma stays_total (m : res A) : stays (total m).
Proof using Type. by intros s a s' [_ ->]%total_Ok E. Qed.
Lemma stays_attempt (m : pres A) : stays (attempt m).
Proof using Type. by intros s a s' [-> _]%attempt_Ok E. Qed.
Lemma stays_panic w : stays (panic w : M A).
Proof using Type. done. Qed.
Lemma stays_foldM (f : B → A → M B) l : (∀ b x, stays (f b x)) → ∀ b, stays (foldM f b l).
Proof using Type.
  intros Hf. induction l as [|x l IH]; intros b; cbn [foldM]; [by apply triple_ret|].
  eapply triple_bind; [apply Hf|intros c; apply IH].
Qed.
End Rules.

Lemma stays_and_then {A B} (m : M (perror + A)) (k : A → M (perror + B)) :
  stays m → (∀ a, stays (k a)) → stays (and_then m k).
Proof using Type.
  intros Hm Hk. unfold and_then. apply (stays_bind (A := perror + A)); [done|]. intros [e|a]; [apply (stays_ret (A := perror + B))|done].
Qed.
Lemma stays_modify f : (∀ s, s_err (f s) = s_err s) → (∀ s, tidy s → tidy (f s)) → stays (modify f).
Proof using Type. intros He Hf. by apply triple_modify. Qed.
Lemma stays_raise e : stays (raise e).
Proof using Type. apply triple_raise. Qed.
Lemma stays_or_raise {A} (r : perror + A) k : (∀ a, stays (k a)) → stays (or_raise r k).
Proof using Type. intros Hk. apply triple_or_raise. intros a _. apply Hk. Qed.
Lemma stays_sticky m a : stays (sticky m a).
Proof using Type. intros s r s' H E. apply sticky_Ok in H as (? & -> & _); done. Qed.
Lemma stays_when b m : stays m → stays (when b m).
Proof using Type. destruct b; [done|]. intros _. apply stays_ret. Qed.
Lemma stays_loan j : stays (loan j).
Proof using Type. by intros s a s' [_ ->]%loan_Ok E. Qed.
Lemma stays_bucket j : stays (bucket j).
Proof using Type. by intros s a s' [_ ->]%bucket_Ok E. Qed.
Lemma stays_spending : stays spending.
Proof using Type. intros s a s' H E. unfold spending in H. case_match; [|done]. by injection H as <- <-. Qed.

(** What is added to one of the figures keeps its currency. *)
Lemma stays_bump_res (field : Result → Amount) `{!Setter field} x :
  (∀ s v, tidy s → cur v = cur (field (s_res s)) → wf_amount v → tidy (set s_res (set field (λ _, v)) s)) → stays (bump_res field x).
Proof using Type.
  intros Hf s u s' H E. unfold bump_res in H. apply bind_M in H as (a & t & [-> ->]%gets_Ok & H).
  apply bind_M in H as (v & t & Hadd & H). unfold assign_res in H. apply modify_Ok in H as ->. unfold add in Hadd. unstick E.
  split; [done|]. intros Hs. apply cur_Add in Hadd as [Hc Hw]. by apply Hf.
Qed.
Lemma stays_bump_required x : stays (bump_month MsRequired x).
Proof using Type.
  intros s u s' H E. unfold bump_month in H. apply bind_M in H as (a & t & [-> ->]%gets_Ok & H).
  apply bind_M in H as (v & t & Hadd & H). unfold assign_month in H. apply modify_Ok in H as ->. unfold add in Hadd. unstick E.
  split; [done|]. intros [H1 H2 H3 Hw H4 H5 H6]. split; try done. cbn. intros Hn. rewrite <- (H6 Hn). by apply cur_Add in Hadd as [-> _].
Qed.

#[local] Hint Resolve stays_ret stays_gets stays_total stays_attempt stays_panic stays_raise stays_sticky
  stays_loan stays_bucket stays_spending stays_bump_required : tidy.

Ltac tidies :=
  repeat match goal with
  | |- stays (_ ≫= _) => apply stays_bind; [|intros ?]
  | |- stays (and_then _ _) => apply stays_and_then; [|intros ?]
  | |- stays (or_raise _ _) => apply stays_or_raise; intros ?
  | |- stays (when _ _) => apply stays_when
  | |- stays (foldM _ _ _) => apply stays_foldM; intros ? ?
  | |- stays (modify _) => apply stays_modify; [intros; reflexivity|let H := fresh in intros ? H; destruct H; by split]
  | |- stays (bump_res _ _) => apply stays_bump_res; let H := fresh in intros ? ? H ? ?; destruct H as [? ? ? [? ?] ? ? ?]; split; first [assumption|done|cbn; congruence]
  | |- stays (bump_month MsRequired _) => apply stays_bump_required
  | |- stays (assign _ _) => unfold assign
  | |- stays (assign_res _ _) => unfold assign_res
  | |- stays (assign_month _ _) => unfold assign_month
  | |- stays (alter_loan _ _) => unfold alter_loan
  | |- stays (assign_loan _ _ _) => unfold assign_loan
  | |- stays (assign_bucket _ _ _) => unfold assign_bucket
  | |- stays (bump _ _) => unfold bump
  | |- stays (draw _ _) => unfold draw
  | |- stays (bump_month _ _) => unfold bump_month
  | |- stays (bump_loan _ _ _) => unfold bump_loan
  | |- stays (draw_loan _ _ _) => unfold draw_loan
  | |- stays (add _ _) => unfold add
  | |- stays (sub _ _) => unfold sub
  | |- stays (cmp _ _) => unfold cmp
  | |- stays failed => unfold failed
  | |- stays (match ?x with _ => _ end) => destruct x
  | |- stays _ => solve [auto with tidy nocore]
  end.

Lemma stays_accrue_loan k on : stays (accrue_loan k on).
Proof using Type. unfold accrue_loan. tidies. Qed.
#[local] Hint Resolve stays_accrue_loan : tidy.
Lemma stays_quote k on available : stays (quote k on available).
Proof using Type. unfold quote. tidies. Qed.
#[local] Hint Resolve stays_quote : tidy.
Lemma stays_openCycle on : stays (openCycle on).
Proof using Type.
  intros s u s' H E. unfold openCycle in H. steps H. cbn in E. split; [done|]. intros [H1 H2 H3 Hw H4 H5 H6].
  by split.
Qed.
#[local] Hint Resolve stays_openCycle : tidy.
Lemma stays_restrictedCash : stays restrictedCash.
Proof using Type. unfold restrictedCash. tidies. Qed.
#[local] Hint Resolve stays_restrictedCash : tidy.
(** Sums that only look. *)
Definition quiet {A} (m : M A) : Prop := ∀ s a s', m s = Ok (a, s') → s_err s' = None → s_err s = None ∧ s' = s.

Lemma quiet_foldM {A B} (f : B → A → M B) l : (∀ b x, quiet (f b x)) → ∀ b, quiet (foldM f b l).
Proof using Type.
  intros Hf. induction l as [|x l IH]; intros b s r s' H E; cbn [foldM] in H; [by apply ret_Ok in H as [_ ->]|].
  apply bind_M in H as (b' & t & H1 & H). destruct (IH _ _ _ _ H E) as [Et ->]. by apply (Hf b x s b' t).
Qed.
Lemma quiet_sticky m a : quiet (sticky m a).
Proof using Type. intros s r s' H E. apply sticky_Ok in H as (? & -> & _); done. Qed.
Lemma quiet_ret {A} (a : A) : quiet (mret a).
Proof using Type. by intros s r s' [_ ->]%ret_Ok E. Qed.
Lemma quiet_gets {A} (f : sim → A) : quiet (gets f).
Proof using Type. by intros s r s' [_ ->]%gets_Ok E. Qed.
Lemma quiet_bind {A B} (m : M A) (k : A → M B) : quiet m → (∀ a, quiet (k a)) → quiet (m ≫= k).
Proof using Type.
  intros Hm Hk s b s' (a & t & H1 & H)%bind_M E. destruct (Hk a _ _ _ H E) as [Et ->]. by apply (Hm s a t).
Qed.
#[local] Hint Resolve quiet_foldM quiet_sticky quiet_ret quiet_gets quiet_bind : tidy.

Lemma quiet_restrictedCash : quiet restrictedCash.
Proof using Type. unfold restrictedCash, add. auto 10 with tidy nocore. Qed.
Lemma quiet_owed z ls : quiet (foldM (λ t l, if l_closed l then mret t else add t (l_balance l)) z ls).
Proof using Type. apply quiet_foldM. intros b l. unfold add. destruct (l_closed l); auto with tidy nocore. Qed.
Lemma quiet_reserved : quiet reserved.
Proof using Type.
  unfold reserved, add. do 3 (apply quiet_bind; [apply quiet_gets|intros ?]). apply quiet_foldM. intros b l.
  destruct (l_closed l); [apply quiet_ret|]. apply quiet_bind; [apply quiet_gets|intros held].
  apply quiet_bind; [destruct held; auto with tidy nocore|intros ?]. apply quiet_sticky.
Qed.

(** A cycle that was opened is closed in its own currency. *)
Lemma tidy_closeCycle s u s' :
  closeCycle s = Ok (u, s') → s_err s' = None →
  s_err s = None ∧ (tidy s → 0 < s_cycle s → tidy s').
Proof using Type.
  intros H E. pose proof (sticks_closeCycle _ _ _ H E) as E0. split; [done|]. intros [H1 H2 H3 Hw H4 H5 H6] Hn. specialize (H6 Hn).
  unfold closeCycle in H.
  apply bind_M in H as (z & t & [-> ->]%gets_Ok & H). apply bind_M in H as (ls & t & [-> ->]%gets_Ok & H).
  apply bind_M in H as (o & t1 & Ho & H). apply bind_M in H as (r & t2 & Hr & H).
  apply bind_M in H as (c & t & [-> ->]%gets_Ok & H). apply bind_M in H as (held & t3 & Hh & H).
  unstuck H E as E3. destruct (quiet_sticky _ _ _ _ _ Hh E3) as [E2 ->].
  destruct (quiet_restrictedCash _ _ _ Hr E2) as [E1 ->]. destruct (quiet_owed _ _ _ _ _ Ho E1) as [_ ->].
  do 3 (apply bind_M in H as ([] & ? & ->%modify_Ok & H)). apply bind_M in H as (m & t & [-> ->]%gets_Ok & H).
  match type of H with context [s_month ?t] => set (m := s_month t) in *; assert (cur (MsRequired m) = cr) as Hm by exact H6 end.
  apply bind_M in H as ([] & t4 & H7 & H). apply modify_Ok in H7.
  assert (tidy t4) as Ht4.
  { subst t4. split; try done. cbn. apply Forall_app. split; [done|]. by constructor. }
  clear H7. clearbody m. match type of H with ?x t4 = _ => assert (stays x) as Hx by tidies end.
  by apply (Hx _ _ _ H E).
Qed.
Lemma stays_action k on kind amount fee saves : stays (action k on kind amount fee saves).
Proof using Type. unfold action. tidies. Qed.
#[local] Hint Resolve stays_action : tidy.
Lemma stays_retire k on freed : stays (retire k on freed).
Proof using Type. unfold retire. tidies. Qed.
#[local] Hint Resolve stays_retire : tidy.
Lemma stays_note_clear name on freed : stays (note_clear name on freed).
Proof using Type. unfold note_clear. tidies. Qed.
#[local] Hint Resolve stays_note_clear : tidy.
Lemma stays_keep_freed freed : stays (keep_freed freed).
Proof using Type. unfold keep_freed. tidies. Qed.
#[local] Hint Resolve stays_keep_freed : tidy.
Lemma stays_note_payoff on : stays (note_payoff on).
Proof using Type. unfold note_payoff. tidies. Qed.
#[local] Hint Resolve stays_note_payoff : tidy.
Lemma stays_close k on : stays (close k on).
Proof using Type. unfold close. tidies. Qed.
#[local] Hint Resolve stays_close : tidy.
Lemma stays_spendPermission outflow : stays (spendPermission outflow).
Proof using Type. unfold spendPermission. tidies. Qed.
#[local] Hint Resolve stays_spendPermission : tidy.
Lemma stays_saved l on q early : stays (saved l on q early).
Proof using Type. unfold saved. tidies. Qed.
#[local] Hint Resolve stays_saved : tidy.
Lemma stays_pay_out k q : stays (pay_out k q).
Proof using Type. unfold pay_out. tidies. Qed.
#[local] Hint Resolve stays_pay_out : tidy.
Lemma stays_use_allowance k on q : stays (use_allowance k on q).
Proof using Type. unfold use_allowance. tidies. Qed.
#[local] Hint Resolve stays_use_allowance : tidy.
Lemma stays_settle_closing k on q : stays (settle_closing k on q).
Proof using Type. unfold settle_closing. tidies. Qed.
#[local] Hint Resolve stays_settle_closing : tidy.
Lemma stays_prepay k on q early : stays (prepay k on q early).
Proof using Type. unfold prepay. tidies. Qed.
#[local] Hint Resolve stays_prepay : tidy.
Lemma stays_reserved : stays reserved.
Proof using Type. unfold reserved. tidies. Qed.
#[local] Hint Resolve stays_reserved : tidy.
Lemma stays_optionalPermission on : stays (optionalPermission on).
Proof using Type. unfold optionalPermission. tidies. Qed.
#[local] Hint Resolve stays_optionalPermission : tidy.
Lemma stays_optionalCash on : stays (optionalCash on).
Proof using Type. unfold optionalCash. tidies. Qed.
#[local] Hint Resolve stays_optionalCash : tidy.
Lemma stays_batched q : stays (batched q).
Proof using Type. unfold batched. tidies. Qed.
#[local] Hint Resolve stays_batched : tidy.
Lemma stays_refreshed l : stays (refreshed l).
Proof using Type. unfold refreshed. tidies. Qed.
#[local] Hint Resolve stays_refreshed : tidy.
Lemma stays_refresh k : stays (refresh k).
Proof using Type. unfold refresh. tidies. Qed.
#[local] Hint Resolve stays_refresh : tidy.
Lemma stays_calendar k : stays (calendar k).
Proof using Type. unfold calendar. tidies. Qed.
#[local] Hint Resolve stays_calendar : tidy.
Lemma stays_add_part event r u part : stays (add_part event r u part).
Proof using Type. unfold add_part. tidies. Qed.
#[local] Hint Resolve stays_add_part : tidy.
Lemma stays_addRouted event : stays (addRouted event).
Proof using Type. unfold addRouted. tidies. Qed.
#[local] Hint Resolve stays_addRouted : tidy.
Lemma stays_route_available j on : stays (route_available j on).
Proof using Type. unfold route_available. tidies. Qed.
#[local] Hint Resolve stays_route_available : tidy.
Lemma stays_route_pay j k on early dueLoan q : stays (route_pay j k on early dueLoan q).
Proof using Type. unfold route_pay. tidies. Qed.
#[local] Hint Resolve stays_route_pay : tidy.
Lemma stays_route_loan j k on early dueLoan : stays (route_loan j k on early dueLoan).
Proof using Type. unfold route_loan. tidies. Qed.
#[local] Hint Resolve stays_route_loan : tidy.
Lemma stays_route_released j on dueLoan : stays (route_released j on dueLoan).
Proof using Type. unfold route_released. tidies. Qed.
#[local] Hint Resolve stays_route_released : tidy.
Lemma stays_route_bucket j on dueLoan : stays (route_bucket j on dueLoan).
Proof using Type. unfold route_bucket. tidies. Qed.
#[local] Hint Resolve stays_route_bucket : tidy.
Lemma stays_route_from js : ∀ on dueLoan, stays (route_from js on dueLoan).
Proof using Type. induction js as [|x rest IH]; intros on dueLoan; cbn [route_from]; tidies. Qed.
#[local] Hint Resolve stays_route_from : tidy.
Lemma stays_routeCash on dueLoan : stays (routeCash on dueLoan).
Proof using Type. unfold routeCash. tidies. Qed.
#[local] Hint Resolve stays_routeCash : tidy.
Lemma stays_allocate_to k on q : stays (allocate_to k on q).
Proof using Type. unfold allocate_to. tidies. Qed.
#[local] Hint Resolve stays_allocate_to : tidy.
Lemma stays_allocate_from order : ∀ on surplus, stays (allocate_from order on surplus).
Proof using Type. induction order as [|x rest IH]; intros on surplus; cbn [allocate_from]; tidies. Qed.
#[local] Hint Resolve stays_allocate_from : tidy.
Lemma stays_allocate on : stays (allocate on).
Proof using Type. unfold allocate. tidies. Qed.
#[local] Hint Resolve stays_allocate : tidy.
Lemma stays_incomeAfter d : stays (incomeAfter d).
Proof using Type. unfold incomeAfter. tidies. Qed.
#[local] Hint Resolve stays_incomeAfter : tidy.
Lemma stays_firstIncome : stays firstIncome.
Proof using Type. unfold firstIncome. tidies. Qed.
#[local] Hint Resolve stays_firstIncome : tidy.
Lemma stays_income on : stays (income on).
Proof using Type.
  intros s u s' H E. unfold income in H. apply bind_M in H as (c & t & [-> ->]%gets_Ok & H).
  apply bind_M in H as ([] & t1 & H1 & H). match type of H with ?x t1 = _ => assert (stays x) as Hx by tidies end.
  destruct (Hx _ _ _ H E) as [E1 Ht1]. rewrite when_Ok in H1. destruct (new_income s on); cbn [andb] in H1; [|by subst t1].
  destruct (Z.ltb_spec 0 (s_cycle s)); [|by subst t1]. destruct (tidy_closeCycle _ _ _ H1 E1) as [E0 Ht]. auto.
Qed.
#[local] Hint Resolve stays_income : tidy.
Lemma stays_ensure_cycle on : stays (ensure_cycle on).
Proof using Type. unfold ensure_cycle. tidies. Qed.
#[local] Hint Resolve stays_ensure_cycle : tidy.
Lemma stays_receive u event : stays (receive u event).
Proof using Type. unfold receive. tidies. Qed.
#[local] Hint Resolve stays_receive : tidy.
Lemma stays_receiveRoutedDate on : stays (receiveRoutedDate on).
Proof using Type. unfold receiveRoutedDate. tidies. Qed.
#[local] Hint Resolve stays_receiveRoutedDate : tidy.
Lemma stays_lump k : stays (lump k).
Proof using Type. unfold lump. tidies. Qed.
#[local] Hint Resolve stays_lump : tidy.
Lemma stays_due_income on : stays (due_income on).
Proof using Type. unfold due_income. tidies. Qed.
#[local] Hint Resolve stays_due_income : tidy.
Lemma stays_due_amounts k on : stays (due_amounts k on).
Proof using Type. unfold due_amounts. tidies. Qed.
#[local] Hint Resolve stays_due_amounts : tidy.
Lemma stays_settle_due k on interest required : stays (settle_due k on interest required).
Proof using Type. unfold settle_due. tidies. Qed.
#[local] Hint Resolve stays_settle_due : tidy.
Lemma stays_check_due k on required : stays (check_due k on required).
Proof using Type. unfold check_due. tidies. Qed.
#[local] Hint Resolve stays_check_due : tidy.
Lemma stays_refresh_or_raise k : stays (refresh_or_raise k).
Proof using Type. unfold refresh_or_raise. tidies. Qed.
#[local] Hint Resolve stays_refresh_or_raise : tidy.
Lemma stays_pay_pending k on : stays (pay_pending k on).
Proof using Type. unfold pay_pending. tidies. Qed.
#[local] Hint Resolve stays_pay_pending : tidy.
Lemma stays_after_due k on : stays (after_due k on).
Proof using Type. unfold after_due. tidies. Qed.
#[local] Hint Resolve stays_after_due : tidy.
Lemma stays_due_now k on : stays (due_now k on).
Proof using Type. unfold due_now. tidies. Qed.
#[local] Hint Resolve stays_due_now : tidy.
Lemma stays_due k on : stays (due k on).
Proof using Type. unfold due. tidies. Qed.
#[local] Hint Resolve stays_due : tidy.
Lemma stays_open_period p start : stays (open_period p start).
Proof using Type. unfold open_period. tidies. Qed.
#[local] Hint Resolve stays_open_period : tidy.
Lemma stays_release_cash : stays release_cash.
Proof using Type. unfold release_cash. tidies. Qed.
#[local] Hint Resolve stays_release_cash : tidy.
Lemma stays_turn_cycle on : stays (turn_cycle on).
Proof using Type.
  intros s u s' H E. unfold turn_cycle in H. apply bind_M in H as (n & t & [-> ->]%gets_Ok & H).
  apply bind_M in H as (rule & t & [-> ->]%gets_Ok & H). apply bind_M in H as ([] & t1 & H1 & H).
  apply bind_M in H as ([] & t2 & H2 & H). destruct (stays_openCycle on _ _ _ H E) as [E2 Ht2].
  assert (s_err t1 = None ∧ (s_cycle t1 = s_cycle s → tidy t1 → tidy t2)) as [E1 Ht1].
  { rewrite when_Ok in H2. destruct (Z.ltb_spec 0 (s_cycle s)); [|by subst t2].
    destruct (tidy_closeCycle _ _ _ H2 E2) as [? Ht]. split; [done|]. intros Hc Ht1. apply Ht; [done|lia]. }
  assert (s_err s = None ∧ s_cycle t1 = s_cycle s ∧ (tidy s → tidy t1)) as (E0 & Hc & Ht).
  { rewrite when_Ok in H1. destruct ((0 <? s_cycle s) && _); [|by subst t1].
    destruct (stays_release_cash _ _ _ H1 E1) as [E0 Ht]. split; [done|]. split; [|done].
    unfold release_cash in H1. apply bind_M in H1 as (r & t & Hr & H1). unstuck H1 E1 as Er.
    destruct (quiet_reserved _ _ _ Hr Er) as [_ ->]. apply bind_M in H1 as (c & t & [-> ->]%gets_Ok & H1).
    apply bind_M in H1 as (tr & t & H3 & H1). unstuck H1 E1 as E3. destruct (quiet_sticky _ _ _ _ _ H3 E3) as [_ ->].
    rewrite when_Ok in H1. destruct (0 <? Sign tr); [|by subst t1]. steps H1. cbn in E1. unstick E1. done. }
  auto.
Qed.
#[local] Hint Resolve stays_turn_cycle : tidy.
Lemma stays_period on : stays (period on).
Proof using Type. unfold period. tidies. Qed.
#[local] Hint Resolve stays_period : tidy.
Lemma stays_handle c : stays (handle c).
Proof using Type. unfold handle. tidies. Qed.
#[local] Hint Resolve stays_handle : tidy.

(** ** Steps that touch no figure, whatever goes wrong *)

Definition firm {A} (m : M A) : Prop := ∀ s a s', m s = Ok (a, s') → tidy s → tidy s'.

Lemma firm_ret {A} (a : A) : firm (mret a).
Proof using Type. by intros s b s' [_ ->]%ret_Ok. Qed.
Lemma firm_bind {A B} (m : M A) (k : A → M B) : firm m → (∀ a, firm (k a)) → firm (m ≫= k).
Proof using Type. intros Hm Hk s b s' (a & t & H1 & H)%bind_M Hs. eapply Hk; [exact H|]. by eapply Hm. Qed.
Lemma firm_and_then {A B} (m : M (perror + A)) (k : A → M (perror + B)) : firm m → (∀ a, firm (k a)) → firm (and_then m k).
Proof using Type.
  intros Hm Hk. unfold and_then. apply (firm_bind (A := perror + A)); [done|].
  intros [e|a]; [apply (firm_ret (A := perror + B))|apply Hk].
Qed.
Lemma firm_gets {A} (f : sim → A) : firm (gets f).
Proof using Type. by intros s b s' [_ ->]%gets_Ok. Qed.
Lemma firm_total {A} (m : res A) : firm (total m).
Proof using Type. by intros s b s' [_ ->]%total_Ok. Qed.
Lemma firm_attempt {A} (m : pres A) : firm (attempt m).
Proof using Type. by intros s b s' [-> _]%attempt_Ok. Qed.
Lemma firm_panic {A} w : firm (panic w : M A).
Proof using Type. done. Qed.
Lemma firm_modify f : (∀ s, tidy s → tidy (f s)) → firm (modify f).
Proof using Type. intros Hf s u s' ->%modify_Ok. apply Hf. Qed.
Lemma firm_sticky m a : firm (sticky m a).
Proof using Type.
  intros s r s' H Hs. unfold sticky in H. destruct (s_err s); [by injection H as _ <-|].
  destruct m; [by injection H as _ <-|injection H as _ <-|done]. destruct Hs. by split.
Qed.
Lemma firm_when b m : firm m → firm (when b m).
Proof using Type. destruct b; [done|]. intros _. apply firm_ret. Qed.
Lemma firm_foldM {A B} (f : B → A → M B) l : (∀ b x, firm (f b x)) → ∀ b, firm (foldM f b l).
Proof using Type.
  intros Hf. induction l as [|x l IH]; intros b; cbn [foldM]; [apply firm_ret|]. by apply firm_bind.
Qed.
Lemma firm_bucket j : firm (bucket j).
Proof using Type. by intros s b s' [_ ->]%bucket_Ok. Qed.

Ltac firms :=
  repeat match goal with
  | |- firm (_ ≫= _) => apply firm_bind; [|intros ?]
  | |- firm (and_then _ _) => apply firm_and_then; [|intros ?]
  | |- firm (when _ _) => apply firm_when
  | |- firm (foldM _ _ _) => apply firm_foldM; intros ? ?
  | |- firm (modify _) => apply firm_modify; let H := fresh in intros ? H; destruct H; by split
  | |- firm (assign _ _) => unfold assign
  | |- firm (assign_bucket _ _ _) => unfold assign_bucket
  | |- firm (assign_res _ _) => unfold assign_res
  | |- firm (draw _ _) => unfold draw
  | |- firm (add _ _) => unfold add
  | |- firm (sub _ _) => unfold sub
  | |- firm (cmp _ _) => unfold cmp
  | |- firm (invariant _) => unfold invariant
  | |- firm (match ?x with _ => _ end) => destruct x
  | |- firm _ => first [apply firm_ret|apply firm_gets|apply firm_total|apply firm_attempt|apply firm_panic|
      apply firm_sticky|apply firm_bucket]
  end.

Lemma firm_refreshed l : firm (refreshed l).
Proof using Type. unfold refreshed. firms. Qed.
Lemma firm_addRouted event : firm (addRouted event).
Proof using Type. unfold addRouted, add_part. firms. Qed.
Lemma firm_firstIncome : firm firstIncome.
Proof using Type. unfold firstIncome. firms. Qed.

Lemma firm_add_loans pol ps : ∀ k, firm (add_loans pol k ps).
Proof using Type.
  induction ps as [|p ps IH]; intros k; cbn [add_loans]; [apply firm_ret|].
  apply firm_and_then; [|done]. unfold add_loan. apply firm_bind; [apply firm_gets|intros z].
  apply firm_and_then; [|intros l; firms]. destruct (Sign (PosBalance p) <=? 0); [apply firm_ret|apply firm_refreshed].
Qed.
Lemma firm_setup : firm setup.
Proof using Type.
  unfold setup. do 2 (apply firm_bind; [apply firm_gets|intros ?]). apply firm_and_then; [apply firm_add_loans|intros ?].
  apply firm_bind; [|intros ?; firms; apply firm_firstIncome]. apply firm_foldM. intros u event. unfold add_lump.
  apply firm_bind; [firms|intros ?]. destruct (FromOpening event); [|firms].
  apply firm_bind; [firms|intros ?; apply firm_addRouted].
Qed.
Lemma firm_conserve : firm conserve.
Proof using Type. unfold conserve, restrictedCash. firms. Qed.

Lemma loop_tidy fuel : ∀ s r s', loop fuel s = Ok (r, s') → tidy s → r = inr tt → tidy s'.
Proof using Type.
  induction fuel as [|fuel IH]; intros s r s' H Hs Er; cbn [loop] in H; [done|].
  apply bind_M in H as (closed & t & [-> ->]%gets_Ok & H). destruct (allClosed s); [by apply ret_Ok in H as [_ ->]|].
  apply bind_M in H as (c & t & [-> ->]%gets_Ok & H). apply bind_M in H as (far & t & [-> ->]%gets_Ok & H).
  case_if_in H; [apply ret_Ok in H as [-> _]; done|]. apply bind_M in H as ([] & t & Hh & H).
  apply bind_M in H as (e & t' & [-> ->]%gets_Ok & H). destruct (s_err t) as [e|] eqn:Ee; [by apply ret_Ok in H as [-> _]|].
  destruct (stays_handle (nextEvent s) _ _ _ Hh Ee) as [_ Ht]. apply (IH t r s' H); auto.
Qed.

(** ** The last cycle *)

(** Sums write nothing but the error. *)
Definition sums_only {A} (m : M A) : Prop := ∀ s a s', m s = Ok (a, s') → ∃ x, s' = set s_err (λ _, x) s.

Lemma sums_ret {A} (a : A) : sums_only (mret a).
Proof using Type. intros s b s' [_ ->]%ret_Ok. exists (s_err s). by destruct s. Qed.
Lemma sums_gets {A} (f : sim → A) : sums_only (gets f).
Proof using Type. intros s b s' [_ ->]%gets_Ok. exists (s_err s). by destruct s. Qed.
Lemma sums_sticky m a : sums_only (sticky m a).
Proof using Type.
  intros s r s' H. unfold sticky in H. destruct (s_err s) eqn:E; [|destruct m; [| |done]]; injection H as _ <-;
    [exists (s_err s)|exists (s_err s)|by eexists]; by destruct s.
Qed.
Lemma sums_bind {A B} (m : M A) (k : A → M B) : sums_only m → (∀ a, sums_only (k a)) → sums_only (m ≫= k).
Proof using Type.
  intros Hm Hk s b s' (a & t & H1 & H)%bind_M. destruct (Hm _ _ _ H1) as [x ->], (Hk _ _ _ _ H) as [y ->]. by exists y.
Qed.
Lemma sums_foldM {A B} (f : B → A → M B) l : (∀ b x, sums_only (f b x)) → ∀ b, sums_only (foldM f b l).
Proof using Type.
  intros Hf. induction l as [|x l IH]; intros b; cbn [foldM]; [apply sums_ret|]. by apply sums_bind.
Qed.

Lemma firm_closeCycle s u s' : closeCycle s = Ok (u, s') → 0 < s_cycle s → tidy s → tidy s'.
Proof using Type.
  intros H Hn [H1 H2 H3 Hw H4 H5 H6]. specialize (H6 Hn). unfold closeCycle in H.
  apply bind_M in H as (z & t & [-> ->]%gets_Ok & H). apply bind_M in H as (ls & t & [-> ->]%gets_Ok & H).
  apply bind_M in H as (o & t1 & Ho & H).
  assert (∃ x, t1 = set s_err (λ _, x) s) as [x ->].
  { match type of Ho with ?f s = _ => assert (sums_only f) as Hs end; [|by apply (Hs _ _ _ Ho)].
    apply sums_foldM. intros b l. destruct (l_closed l); [apply sums_ret|apply sums_sticky]. }
  apply bind_M in H as (r & t2 & Hr & H).
  assert (∃ x, t2 = set s_err (λ _, x) s) as [y ->].
  { assert (sums_only restrictedCash) as Hs.
    { unfold restrictedCash. do 2 (apply sums_bind; [apply sums_gets|intros ?]). apply sums_foldM. intros. apply sums_sticky. }
    destruct (Hs _ _ _ Hr) as [y ->]. by exists y. }
  apply bind_M in H as (c & t & [-> ->]%gets_Ok & H). apply bind_M in H as (held & t3 & Hh & H).
  destruct (sums_sticky _ _ _ _ _ Hh) as [w ->].
  do 3 (apply bind_M in H as ([] & ? & ->%modify_Ok & H)). apply bind_M in H as (m & t & [-> ->]%gets_Ok & H).
  match type of H with context [s_month ?t] => set (m := s_month t) in *; assert (cur (MsRequired m) = cr) as Hm by exact H6 end.
  apply bind_M in H as ([] & t4 & H7 & H). apply modify_Ok in H7.
  assert (tidy t4) as Ht4.
  { subst t4. split; try done. cbn. apply Forall_app. split; [done|]. by constructor. }
  clear H7. clearbody m. match type of H with ?f t4 = _ => assert (firm f) as Hf by firms end. by apply (Hf _ _ _ H).
Qed.

Lemma finish_tidy s r s' : finish s = Ok (inr r, s') → tidy s → tidy s' ∧ r = s_res s'.
Proof using Type.
  intros H Hs. unfold finish in H. apply bind_M in H as (n & t & [-> ->]%gets_Ok & H).
  apply bind_M in H as ([] & t1 & H1 & H). rewrite when_Ok in H1.
  assert (tidy t1) as Ht1.
  { destruct (Z.ltb_spec 0 (s_cycle s)); [by eapply firm_closeCycle|by subst t1]. }
  apply bind_M in H as (months & t & [-> ->]%gets_Ok & H). apply bind_M in H as ([] & t2 & H2 & H).
  assert (tidy t2) as Ht2.
  { assert (firm (when (Months (s_res t1) =? 0) (assign_res Months (s_cycle s)))) as Hf by firms. by apply (Hf _ _ _ H2). }
  apply and_then_Ok in H as [(e & _ & [=])|([] & t3 & H3 & H)]. pose proof (firm_conserve _ _ _ H3 Ht2) as Ht3.
  apply bind_M in H as (r' & t & [-> ->]%gets_Ok & H). apply ret_Ok in H as [[= ->] ->]. done.
Qed.
End Tidy.

(** The figures of a result, in the plan's currency. *)
Record in_currency_of (cr : Currency) (r : Result) : Prop := {
  rc_interest : cur (ResInterest r) = cr;
  rc_fees : cur (ResFees r) = cr;
  rc_stored : wf_amount (ResInterest r) ∧ wf_amount (ResFees r);
  rc_peak : cur (PeakRequired r) = cr;
  rc_months : Forall (λ m, cur (MsRequired m) = cr) (Timeline r) }.

Lemma configured_tidy i pol c sink delay r t :
  runConfigured i pol c sink delay = Ok (inr r, t) → in_currency_of (in_currency i) r.
Proof.
  unfold runConfigured. destruct (Input_Validate i); [|done..]. destruct (covers i pol); [|done]. cbn [negb].
  destruct (Sim.simulate (start i pol c sink delay)) as [[[e|r'] s]|e|w] eqn:H; try done. intros [= -> _].
  unfold Sim.simulate in H. apply and_then_Ok in H as [(e & _ & [=])|([] & s0 & H0 & H)].
  apply bind_M in H as (w & u & [-> ->]%gets_Ok & H). apply and_then_Ok in H as [(e & _ & [=])|([] & s1 & H1 & H)].
  assert (tidy (in_currency i) (start i pol c sink delay)) as Hs by (split; try done; constructor).
  pose proof (firm_setup (in_currency i) _ _ _ H0 Hs) as Hs0. pose proof (loop_tidy (in_currency i) _ _ _ _ H1 Hs0 eq_refl) as Hs1.
  apply (finish_tidy (in_currency i)) in H as [[] ->]; [|done]. by split.
Qed.

Lemma Run_tidy i pol r : Run i pol = Ok (inr r) → in_currency_of (in_currency i) r.
Proof.
  unfold Run, run. destruct (runConfigured i pol newCache None 0) as [[v [c sk]]|e|w] eqn:H; [|done..]. intros [= ->].
  by apply configured_tidy in H.
Qed.

Lemma Cost_typed cr r : in_currency_of cr r → in_i64 (minor (ResInterest r) + minor (ResFees r)) →
  ∃ a, Cost r = Ok a ∧ minor a = minor (ResInterest r) + minor (ResFees r) ∧ cur a = cr.
Proof.
  intros [Hi Hf [Hwi Hwf] _ _] Hs. exists (MkAmount (minor (ResInterest r) + minor (ResFees r)) cr). split; [|done]. unfold Cost.
  pose proof (proj2 (Add_Ok_iff (ResInterest r) (ResFees r) (MkAmount (minor (ResInterest r) + minor (ResFees r)) cr) Hwi Hwf)) as H.
  rewrite H; [done|]. split; [congruence|]. split; [by rewrite <- Hi|exact Hs].
Qed.

(** C11. Money is typed by its currency, and a run keeps the type. Whatever the
    policy, the memo and the delay of receipts, and whatever currencies the events
    of the plan are written in, every figure a finished run is ranked by is an
    [int64] amount of the plan's own currency; so two runs of one plan, whose costs
    fit, are always compared and never panic on mixed currencies. *)
Theorem results_typed i pol c sink delay r t pol' c' sink' delay' r' t' :
  runConfigured i pol c sink delay = Ok (inr r, t) → runConfigured i pol' c' sink' delay' = Ok (inr r', t') →
  in_currency_of (in_currency i) r ∧
  (in_i64 (minor (ResInterest r) + minor (ResFees r)) → in_i64 (minor (ResInterest r') + minor (ResFees r')) →
   ∃ a b z, Cost r = Ok a ∧ Cost r' = Ok b ∧ Cmp a b = Ok z ∧
     (z < 0 ↔ minor (ResInterest r) + minor (ResFees r) < minor (ResInterest r') + minor (ResFees r'))).
Proof.
  intros H%configured_tidy H'%configured_tidy. split; [done|]. intros Hs Hs'.
  destruct (Cost_typed _ r H Hs) as (a & -> & Ha & Hca), (Cost_typed _ r' H' Hs') as (b & -> & Hb & Hcb).
  eexists a, b, _. split; [done|]. split; [done|]. split; [apply Cmp_same; congruence|].
  rewrite <- Ha, <- Hb. destruct (Z.ltb_spec (minor a) (minor b)), (Z.ltb_spec (minor b) (minor a)); lia.
Qed.

(** The filed loan, paid early and paid on its due dates. *)
Definition tidy_run (t : Timing) : result stop ((perror + Result) * (cache * option (list Action))) :=
  runConfigured (quoted_plan (MkDate 2024 3 15)) (PlanInput.MkPolicy false "order" [0%nat] [t] [PrepayShortenTerm] RollFreed no_amount)
    newCache None 0.
Definition small_cost (m : result stop ((perror + Result) * (cache * option (list Action)))) : bool :=
  match m with
  | Ok (inr r, _) => let x := minor (ResInterest r) + minor (ResFees r) in (MinInt64 <=? x) && (x <=? MaxInt64)
  | _ => false
  end.

Lemma results_typed_witness :
  ∃ r t r' t' z, tidy_run OnReceipt = Ok (inr r, t) ∧ tidy_run OnDue = Ok (inr r', t') ∧ cur (ResInterest r) = AMD ∧
    ∃ a b, Cost r = Ok a ∧ Cost r' = Ok b ∧ Cmp a b = Ok z.
Proof.
  assert (small_cost (tidy_run OnReceipt) && small_cost (tidy_run OnDue) = true) as Hb by (vm_compute; reflexivity).
  apply andb_true_iff in Hb as [Hb Hb'].
  destruct (tidy_run OnReceipt) as [[[e|r] t]|e|w] eqn:E; try discriminate Hb.
  destruct (tidy_run OnDue) as [[[e|r'] t']|e|w] eqn:E'; try discriminate Hb'.
  apply andb_true_iff in Hb as [H1%Z.leb_le H2%Z.leb_le], Hb' as [H3%Z.leb_le H4%Z.leb_le].
  destruct (results_typed _ _ _ _ _ r t _ _ _ _ r' t' E E') as [Ht Hc].
  destruct (Hc (conj H1 H2) (conj H3 H4)) as (a & b & z & Ha & Hb & Hz & _).
  exists r, t, r', t', z. split; [reflexivity|]. split; [reflexivity|]. split; [exact (rc_interest _ _ Ht)|].
  exists a, b. split; [exact Ha|]. split; [exact Hb|exact Hz].
Defined.
