(* ===== verification/Quotes.v ===== *)
(** What a quote and an accrual promise the simulator.

    [quote_ok] is the contract between [quote_of] and everything that pays on
    the strength of it: a payment that fits what was offered, split into
    principal, interest and fee without remainder. *)
From S2P Require Import Prelude Money Dates Model Schedule Fees PlanBase PlanInput SimState Sim.

(** An amount that is not negative and is stored without wrapping. *)
Definition held (a : Amount) : Prop := 0 ≤ minor a ≤ MaxInt64.

Lemma held_wf a : held a → wf_amount a.
Proof. unfold held. unfold_i64. lia. Qed.
#[export] Hint Resolve held_wf : core.

Lemma held_zero c : held (Zero c).
Proof. unfold held, MaxInt64. simpl. lia. Qed.
#[export] Hint Resolve held_zero : core.

Lemma wf_zero c : wf_amount (Zero c).
Proof. auto. Qed.
#[export] Hint Resolve wf_zero : core.

Lemma wf_or_zero a c : wf_amount a → wf_amount (or_zero a c).
Proof. unfold or_zero. by destruct (String.eqb _ _). Qed.
#[export] Hint Resolve wf_or_zero : core.

Lemma held_or_zero a c : held a → held (or_zero a c).
Proof. unfold or_zero. by destruct (String.eqb _ _). Qed.
#[export] Hint Resolve held_or_zero : core.

(** Sums and differences of stored amounts. *)
Lemma Add_stored a b r :
  Add a b = Ok r → wf_amount a → wf_amount b →
  minor r = minor a + minor b ∧ wf_amount r ∧ cur r = cur a ∧ Code (cur a) = Code (cur b).
Proof. intros H Ha Hb. apply Add_Ok_iff in H as (? & -> & ?); auto. Qed.
Lemma Sub_stored a b r :
  Sub a b = Ok r → wf_amount a → wf_amount b →
  minor r = minor a - minor b ∧ wf_amount r ∧ cur r = cur a ∧ Code (cur a) = Code (cur b).
Proof. intros H Ha Hb. apply Sub_Ok_iff in H as (? & -> & ?); auto. Qed.

Lemma within_refl p : held p → within p p.
Proof. intros [??]. unfold within. split_and!; lia || done. Qed.

(** The terms an engine figure is exact under: rate and unit within the widths
    of the accrual, fees stored as [int64], a calendar of real dates. *)
Definition loan_terms (c : Contract) : Prop :=
  wf_terms c ∧ fee_terms c ∧ wf_dates c ∧ wf_amount (ScheduledPayment c).

(** * Dates that mean a day *)

(** A real day of the common era. *)
Definition dated (d : Date) : Prop := valid d ∧ 12 ≤ month_of d.

Lemma dated_nonzero d : dated d → Dates.IsZero d = false.
Proof. intros [[Hm _] _]. unfold Dates.IsZero. apply bool_decide_eq_false. intros ->. simpl in Hm. lia. Qed.

Lemma dated_later a b : dated a → valid b → time a ≤ time b → dated b.
Proof.
  intros [Ha Hm] Hb Ht. split; [done|]. destruct (Z.le_gt_cases (month_of a) (month_of b)); [lia|].
  pose proof (month_of_lt_time b a Hb Ha ltac:(lia)). lia.
Qed.
Lemma dated_valid d : dated d → valid d.
Proof. by intros []. Qed.
#[export] Hint Resolve dated_valid : core.

(** A loan as the simulator keeps it. *)
Record loan_ok (l : loanState) : Prop := {
  lk_terms : loan_terms (l_contract l);
  lk_balance : held (l_balance l);
  lk_accrued : held (l_accrued l);
  lk_pending : held (l_pending l);
  lk_required : held (l_required l);
  lk_carried : held (l_carried l);
  lk_allowance : map_Forall (λ _ a, wf_amount a) (l_allowance l);
  lk_closed : l_closed l = true → minor (l_balance l) = 0 ∧ minor (l_accrued l) = 0;
  lk_from : dated (l_from l);
  lk_due : l_closed l = false → dated (l_due l) }.

(** * Accrual *)

Lemma DaysBetween_range a b : time a ≤ time b → 0 ≤ DaysBetween a b ≤ MaxInt64.
Proof.
  intros H. split; [by apply DaysBetween_nonneg_exact; lia|]. pose proof (DaysBetween_max a b). unfold MaxInt64. lia.
Qed.

Lemma Accrue_held a rate days dc p i :
  accrual_terms rate dc p → held a → 0 ≤ days ≤ MaxInt64 → Accrue a rate days dc p = Ok i →
  held i ∧ cur i = cur a.
Proof.
  intros Ht Ha Hd H. pose proof Ht as [Hr _].
  apply Accrue_Ok_iff in H as [Hfit ->]; [|auto..|apply Ha|done]. split; [|done]. unfold held. simpl.
  pose proof (accrual_nonneg (minor a) rate days dc p ltac:(apply Ha) ltac:(lia) ltac:(lia)).
  destruct Hfit as [->|[_ ?]]; [|lia]. split; [lia|]. unfold accrual. rewrite Z.mul_0_r, Z.mul_0_l.
  rewrite round_div_0; [unfold MaxInt64; lia|]. pose proof (unit_of_pos p). pose proof (Denominator_range dc).
  unfold ratePPB. nia.
Qed.

(** Interest is booked up to the date, or there is nothing it could accrue on. *)
Definition reached (on : Date) (l : loanState) : Prop := time on ≤ time (l_from l) ∨ minor (l_balance l) = 0.

(** What accrual may change: the interest grows, the date moves up to [on]. *)
Record accrued_to (on : Date) (l l' : loanState) : Prop := {
  ac_ok : loan_ok l';
  ac_same : l' = l <| l_accrued := l_accrued l' |> <| l_from := l_from l' |>;
  ac_grows : minor (l_accrued l) ≤ minor (l_accrued l');
  ac_from : l_from l' = l_from l ∨ l_from l' = on ∧ time (l_from l) < time on;
  ac_reached : reached on l' }.

Lemma accrueTo_Ok l on l' :
  loan_ok l → dated on → accrueTo l on = Ok l' → accrued_to on l l'.
Proof.
  intros [[Hwt Hrest] Hb Ha Hp Hr Hc Hal Hcl Hf Hd] Hon. unfold accrueTo, reached.
  rewrite After_time, Sign_nonpos_iff by auto.
  destruct (Z.ltb_spec (time (l_from l)) (time on)); cbn [negb orb];
    [|intros [= <-]; split; [done|by destruct l|lia|by left|left; lia]].
  destruct Hb. destruct (Z.leb_spec (minor (l_balance l)) 0);
    [intros [= <-]; split; [done|by destruct l|lia|by left|right; lia]|].
  intros HA. inv_core.
  apply Accrue_held in Hr0 as [Hi _]; [|done|done|apply DaysBetween_range; lia].
  apply Add_stored in Hr1 as (Hm & Hw & _); [|auto..]. destruct Hi as [? ?], Ha as [? ?].
  split; simpl; [|by destruct l|lia|by right|left; simpl; lia].
  split; simpl; try done; [unfold held; unfold_i64; lia|]. intros Hc'. specialize (Hcl Hc'). lia.
Qed.

(** * Quotes *)

(** What a quote of at most [avail] promises about the payment it describes. *)
Record quote_ok (l : loanState) (avail : Amount) (q : Quote) : Prop := {
  qk_out : minor (Outflow q) = minor (QPrincipal q) + minor (QInterest q) + minor (QFee q);
  qk_principal : 0 ≤ minor (QPrincipal q) ≤ minor (l_balance l);
  qk_interest : 0 ≤ minor (QInterest q);
  qk_fee : 0 ≤ minor (QFee q);
  qk_fits : minor (Outflow q) ≤ minor avail;
  qk_closes : Closes q = true →
    minor (QPrincipal q) = minor (l_balance l) ∧ minor (QInterest q) = minor (l_accrued l);
  qk_partial : Closes q = false → minor (QInterest q) = 0;
  qk_moves : Closes q = false → 0 < minor (Outflow q) → 0 < minor (QPrincipal q) }.

Lemma Cmp_le a b z : Cmp a b = Ok z →
  ((0 <? z) = (minor b <? minor a)) ∧ ((z <? 0) = (minor a <? minor b)) ∧ (0 <=? z) = (minor b <=? minor a) ∧
  ((z =? 0) = (minor a =? minor b)).
Proof.
  intros [_ ->]%Cmp_Ok. destruct (Z.ltb_spec (minor a) (minor b)), (Z.ltb_spec (minor b) (minor a)); lia.
Qed.

(** Rounding down to the unit, towards zero. *)
Lemma Quantise_down a u :
  - MaxInt64 ≤ minor a ≤ MaxInt64 →
  minor (Quantise a (Money.MkPolicy Down u)) ≤ Z.max 0 (minor a) ∧
  (0 ≤ minor a → 0 ≤ minor (Quantise a (Money.MkPolicy Down u))) ∧
  cur (Quantise a (Money.MkPolicy Down u)) = cur a.
Proof.
  intros Ha. unfold Quantise. set (v := unit_of _) in *. pose proof (unit_of_pos (Money.MkPolicy Down u)) as Hv.
  fold v in Hv. destruct (Z.eqb_spec v 1) as [|Hne]; [split_and!; lia || done|]. cbn [Mode cur minor].
  assert (abs64 (minor a) = Z.abs (minor a)) as ->.
  { unfold abs64, ineg. destruct (Z.ltb_spec (minor a) 0); [rewrite i64_id by (unfold_i64; lia)|]; lia. }
  destruct (quot_rem_nonneg (Z.abs (minor a)) v) as [-> ->]; [lia|lia|].
  pose proof (div_mod_facts (Z.abs (minor a)) v ltac:(lia)) as [E Hr].
  assert (0 ≤ Z.abs (minor a) / v) by (apply Z.div_pos; lia).
  set (k := Z.abs (minor a) / v) in *. assert (0 ≤ k * v ≤ Z.abs (minor a)) by nia. assert (k ≤ Z.abs (minor a)) by nia.
  assert (roundQuotient (i64 k) (Z.abs (minor a) mod v) v Down = k) as ->.
  { unfold roundQuotient. rewrite i64_id by (unfold_i64; lia). by destruct (_ =? 0). }
  unfold imul. rewrite (i64_id (k * v)) by (unfold_i64; nia).
  destruct (Z.ltb_spec (minor a) 0); split_and!; try done; try lia.
  unfold ineg. rewrite i64_id by (unfold_i64; lia). lia.
Qed.

(** ** Errors that blame the engine *)

(** [errors.Is(err, ErrInvariant)]. *)
Definition is_invariant (e : perror) : bool :=
  match e with Core e => errors_Is e ErrInvariant | _ => false end.

(** A computation that never reports a broken invariant. *)
Definition plain {A} (m : res A) : Prop := ∀ e, m = Err e → errors_Is e ErrInvariant = false.
Definition plainly {A} (m : pres A) : Prop := ∀ e, m = Err e → is_invariant e = false.

Create HintDb plain discriminated.
#[export] Hint Constants Opaque : plain.
Lemma plain_Ok {A} (a : A) : plain (Ok a).
Proof. done. Qed.
Lemma plain_Panic {A} w : plain (Panic w : res A).
Proof. done. Qed.
Lemma plain_bind {A B} (m : res A) (k : A → res B) : plain m → (∀ a, plain (k a)) → plain (m ≫= k).
Proof. intros Hm Hk e. destruct m as [a|e'|w]; simpl; [apply Hk|intros [= <-]; by apply Hm|done]. Qed.
Lemma plain_if {A} (b : bool) (m m' : res A) : plain m → plain m' → plain (if b then m else m').
Proof. by destruct b. Qed.
Lemma plain_Add a b : plain (Add a b).
Proof. unfold Add, mustMatch. destruct (String.eqb _ _); simpl; [|done]. case_match; [|done]. by intros e [= <-]. Qed.
Lemma plain_Sub a b : plain (Sub a b).
Proof. unfold Sub, mustMatch. destruct (String.eqb _ _); simpl; [|done]. case_match; [|done]. by intros e [= <-]. Qed.
Lemma plain_Cmp a b : plain (Cmp a b).
Proof. unfold Cmp, mustMatch. by destruct (String.eqb _ _). Qed.
Lemma plain_idiv a b : plain (idiv a b).
Proof. unfold idiv. by destruct (b =? 0). Qed.
Lemma plain_errorf {A} f : plain (errorf f : res A).
Proof. by intros e [= <-]. Qed.
Lemma plain_errorf_w {A} f s : s ≠ ErrInvariant → plain (errorf_w f s : res A).
Proof. intros H e [= <-]. simpl. by apply bool_decide_eq_false. Qed.
#[export] Hint Resolve plain_Ok plain_Panic plain_Add plain_Sub plain_Cmp plain_idiv plain_errorf
  plain_errorf_w : plain.

Ltac plain :=
  repeat match goal with
  | |- plain (_ ≫= _) => apply plain_bind; [|intros]
  | |- plain (if _ then _ else _) => apply plain_if
  | |- plain _ => solve [auto with plain]
  end.

Lemma plain_bp a points p : plain (bp a points p).
Proof. unfold bp, bp_overflows. plain. Qed.
#[export] Hint Resolve plain_bp : plain.

Lemma plain_rule c r p used : plain (rule_charge c r p used).
Proof. unfold rule_charge, chargeable_of, percent_part, fixed_part, raise_to_min, cap_to_max. plain. Qed.
#[export] Hint Resolve plain_rule : plain.

Lemma plain_charge c on p used : plain (charge c on p used).
Proof.
  unfold charge. destruct (Charges (Prepayment c)) as [|r rules]; [plain|].
  generalize (r :: rules). intros rs. generalize (Zero (cur p)).
  induction rs as [|x rs IH]; intros total; cbn [charge_rules]; plain; apply IH.
Qed.
#[export] Hint Resolve plain_charge : plain.

Lemma plain_below c a : plain (below_minimum c a).
Proof. unfold below_minimum. plain. Qed.
#[export] Hint Resolve plain_below : plain.

(** The same seen by the planner. *)
Lemma plainly_bind {A B} (m : pres A) (k : A → pres B) : plainly m → (∀ a, m = Ok a → plainly (k a)) → plainly (m ≫= k).
Proof. intros Hm Hk e. destruct m as [a|e'|w]; simpl; [by apply Hk|intros [= <-]; by apply Hm|done]. Qed.
Lemma plainly_core {A} (m : res A) : plain m → plainly (core m).
Proof. intros Hm e. destruct m as [a|e'|w]; simpl; [done|intros [= <-]; by apply Hm|done]. Qed.
Lemma plainly_Ok {A} (a : A) : plainly (Ok a).
Proof. done. Qed.
#[export] Hint Resolve plainly_core plainly_Ok : plain.

Section Quotes.
Context (cr : Currency) (l : loanState) (Hl : loan_ok l).

#[local] Abbreviation c := (l_contract l).

Lemma fee_facts on p used f :
  wf_amount used → held p → charge c on p used = Ok f →
  (held f ∧ Code (cur f) = Code (cur p)) ∧
  ∀ p', 0 ≤ minor p' ≤ minor p → Code (cur p') = Code (cur p) →
    ∃ f', charge c on p' used = Ok f' ∧ 0 ≤ minor f' ≤ minor f.
Proof using Hl.
  intros Hu Hp H. destruct Hl as [(_ & Hfee & _) _ _ _ _ _ _ _ _ _].
  destruct (charge_within _ _ _ _ _ _ Hfee Hu (within_refl _ Hp) H) as (f' & E & (? & ? & ?) & Hc).
  rewrite H in E. injection E as <-. split; [split; [split|]; unfold code in *; done || lia|]. intros p' Hp' Hcp.
  destruct (charge_within c on p p' used f Hfee Hu) as (f' & E & (? & ? & ?) & _); [|done|by exists f'].
  destruct Hp. unfold within. split_and!; done || lia.
Qed.

Lemma no_quote_ok avail : held avail → quote_ok l avail (no_quote (Zero cr)).
Proof using Hl. destruct Hl as [_ [? ?] _ _ _ _ _ _ _ _]. intros [? ?]. split; simpl; lia || done. Qed.


(** What is paid out of [avail]: the fee on the credit is no more than the fee
    on all of it, so the sum never exceeds what was offered. *)
Lemma quantum_fits on used avail p fee out :
  wf_amount used → held avail → quantum c l on used avail = Ok p → 0 < minor p →
  charge c on p used = Ok fee → Add p fee = Ok out →
  minor out = minor p + minor fee ∧ minor p ≤ minor (l_balance l) ∧ 0 ≤ minor fee ∧
  minor out ≤ minor avail.
Proof using Hl.
  intros Hu Ha Hq Hp Hf Hout. unfold quantum in Hq. inv_core. rename r1 into z.
  apply fee_facts in Hr as [[Hr Hc] Hless]; [|done..].
  apply Sub_stored in Hr0 as (Hm & Hw & Hcur & Hcode); [|auto..].
  pose proof (lk_balance l Hl) as Hb. pose proof Hr1 as [Hcb _]%Cmp_Ok. apply Cmp_le in Hr1 as [Hz _].
  set (x := if 0 <? z then l_balance l else r0) in *.
  assert (minor x ≤ minor (l_balance l) ∧ minor x ≤ minor avail - minor r ∧ - MaxInt64 ≤ minor x ∧
    Code (cur x) = Code (cur avail)) as (Hx1 & Hx2 & Hx3 & Hx4).
  { unfold held in *. subst x. rewrite Hz. destruct (Z.ltb_spec (minor (l_balance l)) (minor r0));
      split_and!; lia || congruence. }
  destruct (Quantise_down x (Unit (Rounding c))) as (Hq1 & Hq2 & Hq3); [unfold held in *; lia|].
  set (p := Quantise x _) in *. unfold held in *.
  destruct (Hless p) as (f' & Ef & ? & ?); [lia|congruence|]. rewrite Hf in Ef. injection Ef as <-.
  apply Add_stored in Hout as (-> & _); [lia|unfold_i64; lia..].
Qed.

Lemma partial_quote_ok on used avail q :
  wf_amount used → held avail → partial_quote c l on used avail (Zero cr) = Ok q → quote_ok l avail q.
Proof using Hl.
  intros Hu Ha H. unfold partial_quote in H. apply bind_Ok in H as (p & Hp & H).
  apply bind_Ok in H as ([] & Hs & H); [injection H as <-; by apply no_quote_ok|]. inv_core.
  rewrite Sign_nonpos_iff in Hs. destruct (Z.leb_spec (minor p) 0) as [|Hpos]; [done|].
  case_if_in H; [done|]. injection H as <-.
  destruct (quantum_fits on used avail p r r0) as (? & ? & ? & ?); [done..|].
  split; simpl; lia || done.
Qed.

Lemma partial_quote_plain on used avail :
  wf_amount used → held avail → plainly (partial_quote c l on used avail (Zero cr)).
Proof using Hl.
  intros Hu Ha. unfold partial_quote. apply plainly_bind.
  { unfold quantum. repeat (apply plainly_bind; [auto with plain|intros]). done. }
  intros p Hp. apply plainly_bind.
  { destruct (Sign p <=? 0); auto with plain. }
  intros [] Hs; [done|]. rewrite Sign_nonpos_iff in Hs. destruct (Z.leb_spec (minor p) 0) as [|Hpos]; [done|].
  apply plainly_bind; [auto with plain|]. intros fee Hf. apply plainly_bind; [auto with plain|]. intros out Ho.
  apply plainly_bind; [auto with plain|]. intros z Hz. inv_core. apply Cmp_le in Hz as [Hz _].
  destruct (quantum_fits on used avail p fee out) as (? & ? & ? & ?); [done..|].
  rewrite Hz, (proj2 (Z.ltb_ge _ _)) by lia. done.
Qed.

Lemma allowance_wf y : wf_amount (or_zero (default no_amount (l_allowance l !! y)) cr).
Proof using Hl.
  apply wf_or_zero. destruct (l_allowance l !! y) as [a|] eqn:E; [|unfold_i64; lia]. by apply (lk_allowance l Hl y).
Qed.

(** A quote keeps its promises... *)
Lemma quote_of_ok on avail q : held avail → quote_of cr l on avail = Ok q → quote_ok l avail q.
Proof using Hl.
  intros Ha H. unfold quote_of in H. inv_core. pose proof (allowance_wf (contractYear c on)) as Hu.
  pose proof (lk_balance l Hl) as Hb. pose proof (lk_accrued l Hl) as Hac.
  apply fee_facts in Hr as [[Hf Hfc] _]; [|done..].
  apply Add_stored in Hr0 as (Hm0 & Hw0 & _); [|auto..]. apply Add_stored in Hr1 as (Hm1 & Hw1 & _); [|auto..].
  apply Cmp_le in Hr2 as (_ & _ & Hz & _). unfold held in *.
  case_if_in H; [injection H as <-; split; simpl; lia || done|].
  apply bind_Ok in H as ([] & _ & H); [injection H as <-; by apply no_quote_ok|].
  by eapply partial_quote_ok.
Qed.

(** ... and never meets the guard that says it might not. *)
Lemma quote_of_plain on avail : held avail → plainly (quote_of cr l on avail).
Proof using Hl.
  intros Ha. unfold quote_of. repeat (apply plainly_bind; [by auto with plain|intros ? _]).
  case_test E; [done|]. apply plainly_bind; [auto with plain|].
  intros [] _; [done|]. apply partial_quote_plain; [apply allowance_wf|done].
Qed.
End Quotes.

(** ** A loan at the start *)

Lemma start_loan_ok pol z i p due :
  loan_terms (PosContract p) → held (PosBalance p) → dated (From p) → dated due →
  loan_ok ((start_loan pol (Zero z) i p) <| l_due := due |>).
Proof.
  intros Ht Hb Hf Hd. assert (held no_amount) by (unfold held, MaxInt64; simpl; lia).
  split; cbn; done || apply map_Forall_empty.
Qed.

Lemma filed_terms : loan_terms filed.
Proof.
  split_and!; [vm_compute; repeat split; discriminate| |repeat split; discriminate|split; discriminate].
  split_and!; [discriminate..|constructor].
Qed.

(** * Properties *)

(** A quote keeps its promises. Whatever is offered for a prepayment, the
    payment it describes is principal, interest and fee, each not negative, adds
    up to what leaves the pool, and never exceeds the offer; principal is at
    most the balance; it closes the loan only by paying the balance and the
    interest in full, otherwise it takes no interest; and the guard against a
    broken quote is never met. *)
Theorem quote_sound cr l on avail :
  loan_ok l → held avail →
  (∀ q, quote_of cr l on avail = Ok q →
    minor (Outflow q) = minor (QPrincipal q) + minor (QInterest q) + minor (QFee q) ∧
    minor (Outflow q) ≤ minor avail ∧ 0 ≤ minor (QPrincipal q) ≤ minor (l_balance l) ∧
    0 ≤ minor (QInterest q) ∧ 0 ≤ minor (QFee q) ∧
    if Closes q then minor (QPrincipal q) = minor (l_balance l) ∧ minor (QInterest q) = minor (l_accrued l)
    else minor (QInterest q) = 0) ∧
  ∀ e, quote_of cr l on avail = Err e → is_invariant e = false.
Proof.
  intros Hl Ha. split.
  - intros q Hq. destruct (quote_of_ok cr l Hl on avail q Ha Hq). split_and!; [done|done|lia..|].
    destruct (Closes q) eqn:Ec; auto.
  - exact (quote_of_plain cr l Hl on avail Ha).
Qed.

Definition quote_policy : PlanInput.Policy :=
  PlanInput.MkPolicy false "p" [0%nat] [OnReceipt] [PrepayBorrowerChooses] RollFreed no_amount.

(** A loan as a run starts with it. *)
Definition quoted_loan : loanState :=
  (start_loan quote_policy (Zero AMD) 0 (filed_position (MkDate 2024 3 15))) <| l_due := MkDate 2024 3 15 |>.

Lemma quoted_loan_ok : loan_ok quoted_loan.
Proof.
  assert (dated (MkDate 2024 3 15)) as Hd by (split; [vm_compute; repeat split; discriminate|vm_compute; discriminate]).
  exact (start_loan_ok quote_policy AMD 0 (filed_position (MkDate 2024 3 15)) (MkDate 2024 3 15) filed_terms
    ltac:(split; discriminate) Hd Hd).
Qed.

Lemma quote_sound_witness :
  ∃ q, quote_of AMD quoted_loan (MkDate 2024 3 20) (MkAmount 5000000 AMD) = Ok q ∧
    minor (Outflow q) = 5000000 ∧ minor (Outflow q) ≤ minor (MkAmount 5000000 AMD).
Proof.
  eexists. split; [vm_compute; reflexivity|]. split; [vm_compute; reflexivity|].
  assert (held (MkAmount 5000000 AMD)) as Ha by (split; discriminate).
  destruct (quote_sound AMD quoted_loan (MkDate 2024 3 20) (MkAmount 5000000 AMD) quoted_loan_ok Ha) as [H _].
  apply H. vm_compute. reflexivity.
Defined.
