(* ===== verification/Obligations.v ===== *)
(** The next instalment of a loan, and the memo it comes from: facts about
    [Next] of calendar.go and the cache of plan/projection.go.

    Whatever the memo holds, an obligation it hands out for an anchor falls
    after that anchor and asks for a representable, non-negative amount; and
    where fingerprints tell contracts apart the memo changes no answer. *)
From S2P Require Import Prelude Money Dates Model Schedule Solve Declining Calendar Fees PlanBase PlanInput SimState Sim Quotes.

(** * First rows *)

Lemma record_row_first out due int part pay closing paid total :
  1 ≤ Periods out →
  let out' := record_row out due int part pay closing paid total in
  1 ≤ Periods out' ∧ FirstDue out' = FirstDue out ∧ FirstPayment out' = FirstPayment out.
Proof. intros H. unfold record_row. destruct (Z.eqb_spec (Periods out + 1) 1); [lia|]. simpl. lia || (split_and!; done || lia). Qed.

Lemma project_from_first c inst ds : ∀ i bal prev out rows out' rows',
  1 ≤ Periods out → project_from c inst ds i bal prev out rows = Ok (out', rows') →
  FirstDue out' = FirstDue out ∧ FirstPayment out' = FirstPayment out.
Proof.
  induction ds as [|d ds IH]; intros i bal prev out rows out' rows' Hp H.
  { injection H as <- <-. done. }
  cbn [project_from] in H. destruct (Sign bal <=? 0); [injection H as <- <-; done|].
  destruct (DaysBetween prev d <? 0); [done|]. repeat (apply bind_Ok in H as (? & _ & H)).
  apply IH in H; [|by apply record_row_first]. destruct H as [-> ->]. by apply record_row_first.
Qed.

Lemma declining_from_first c per n ds : ∀ i bal prev out rows out' rows',
  1 ≤ Periods out → declining_from c per n ds i bal prev out rows = Ok (out', rows') →
  FirstDue out' = FirstDue out ∧ FirstPayment out' = FirstPayment out.
Proof.
  induction ds as [|d ds IH]; intros i bal prev out rows out' rows' Hp H.
  { injection H as <- <-. done. }
  cbn [declining_from] in H. destruct (DaysBetween prev d <? 0); [done|].
  do 3 (apply bind_Ok in H as (? & _ & H)). apply bind_Ok in H as ([] & _ & H); [done|].
  do 3 (apply bind_Ok in H as (? & _ & H)).
  case_if_in H; [injection H as <- <-; by apply record_row_first|].
  apply IH in H; [|by apply record_row_first]. destruct H as [-> ->]. by apply record_row_first.
Qed.

(** A calendar resolved for a contract of good terms. *)
Definition cal_ok (cal : Calendar) : Prop := ∃ c, NewCalendar c = Ok cal ∧ loan_terms c.

Lemma cal_dates cal from ds :
  cal_ok cal → dated from → Calendar_Dates cal from = Ok ds →
  ahead from ds ∧ Forall valid ds ∧ ds ≠ [].
Proof.
  intros (c & Hc & (_ & _ & Hd & _)) Hf H. rewrite (Calendar_Dates_remaining c) in H by done.
  pose proof (RemainingDates_nonempty c from ds H) as Hne.
  apply RemainingDates_ahead in H as [Ha Hv]; [|done|left; apply Hf].
  unfold drawdown in Ha. rewrite dated_nonzero in Ha by done. done.
Qed.

(** What an obligation for an anchor promises. *)
Record obl_ok (from : Date) (o : obligation) : Prop := {
  ob_due : valid (o_due o);
  ob_after : time from < time (o_due o);
  ob_required : held (o_required o);
  ob_instalment : held (o_instalment o) }.

(** * Next *)

Lemma held_Add a b r : held a → held b → Add a b = Ok r → held r.
Proof.
  intros Ha Hb H. apply Add_stored in H as (Hm & Hw & _); [|auto..]. unfold held in *. unfold_i64. lia.
Qed.

Lemma first_row out due int part pay closing paid total :
  Periods out = 0 →
  let out' := record_row out due int part pay closing paid total in
  1 ≤ Periods out' ∧ FirstDue out' = due ∧ FirstPayment out' = pay.
Proof. intros H. unfold record_row. rewrite H. done. Qed.

Lemma annuity_first c inst d ds i bal from out out' rows rows' :
  wf_terms c → held inst → held bal → time from < time d → Periods out = 0 →
  project_from c inst (d :: ds) i bal from out rows = Ok (out', rows') → Periods out' ≠ 0 →
  FirstDue out' = d ∧ held (FirstPayment out').
Proof.
  intros Ht Hi Hb Hd H0 H Hp. cbn [project_from] in H. destruct (Sign bal <=? 0); [injection H as <- <-; done|].
  destruct (DaysBetween from d <? 0); [done|]. pose proof (DaysBetween_range from d ltac:(lia)) as Hr.
  apply bind_Ok in H as (int & Hint & H). apply bind_Ok in H as (owed & Howed & H).
  apply bind_Ok in H as (o & _ & H). cbv zeta in H. set (pay := if 0 <=? o then owed else inst) in *.
  do 2 (apply bind_Ok in H as (? & _ & H)). do 2 (apply bind_Ok in H as (? & _ & H)).
  rewrite row_err_Ok in Hint, Howed. apply Accrue_held in Hint as [Hint _]; [|done..]. pose proof (held_Add _ _ _ Hb Hint Howed) as Hheld.
  apply project_from_first in H as [-> ->]; [|by apply first_row].
  destruct (first_row out d int x pay x0 x1 x2 H0) as (_ & -> & ->). split; [done|]. unfold pay. by destruct (0 <=? o).
Qed.

Lemma declining_first c per n d ds i bal from out out' rows rows' :
  wf_terms c → held per → held bal → time from < time d → Periods out = 0 →
  declining_from c per n (d :: ds) i bal from out rows = Ok (out', rows') →
  FirstDue out' = d ∧ held (FirstPayment out').
Proof.
  intros Ht Hi Hb Hd H0 H. cbn [declining_from] in H.
  destruct (DaysBetween from d <? 0); [done|]. pose proof (DaysBetween_range from d ltac:(lia)) as Hr.
  apply bind_Ok in H as (int & Hint & H). apply bind_Ok in H as (part & Hpart & H).
  apply bind_Ok in H as (pay & Hpay & H). apply bind_Ok in H as ([] & _ & H); [done|].
  do 3 (apply bind_Ok in H as (? & _ & H)).
  rewrite row_err_Ok in Hint, Hpay. apply Accrue_held in Hint as [Hint _]; [|done..].
  assert (held part) as Hheld.
  { destruct (i =? n - 1); [by injection Hpart as <-|]. apply bind_Ok in Hpart as (o & _ & [= <-]). by destruct (o <? 0). }
  pose proof (held_Add _ _ _ Hheld Hint Hpay) as Hp.
  destruct (first_row out d int part pay x x0 x1 H0) as (F1 & F2 & F3).
  case_if_in H; [injection H as <- <-; by rewrite F2, F3|].
  apply declining_from_first in H as [-> ->]; [by rewrite F2, F3|done].
Qed.

(** An instalment that was stated or solved for is stored as an [int64]. *)
Lemma Solve_stored cal bal from inst : Calendar_Solve cal bal from = Ok inst → wf_amount inst.
Proof.
  unfold Calendar_Solve. destruct (Sign bal <=? 0); [done|]. intros H. inv_res. case_if_in H; [done|]. inv_res.
  apply i64_in.
Qed.

Lemma Next_ok cal bal from o :
  cal_ok cal → held bal → dated from → Next cal bal from = Ok o →
  obl_ok from (MkObl (ObDue o) (ObPayment o) (ObInstalment o)).
Proof.
  intros Hcal Hb Hf H. unfold Next in H. apply bind_Ok in H as ([[out inst] rows] & Hbuild & H).
  destruct (Z.eqb_spec (Periods out) 0) as [|Hp]; [done|]. injection H as <-. unfold build in Hbuild.
  destruct Hcal as (c & Hc & (Ht & Hfee & Hd & Hs)). pose proof Hc as [Ec _]%NewCalendar_Ok. rewrite Ec in Hbuild.
  assert (cal_ok cal) as Hcal by by exists c.
  assert (drawdown c from = from) as Edraw by (unfold drawdown; by rewrite dated_nonzero).
  destruct (Type_ c).
  - apply bind_Ok in Hbuild as (a & Ha & H). apply bind_Ok in H as (u & (_ & Ha0 & _)%checkProjection_Ok & H).
    apply bind_Ok in H as (ds & Hds & H). apply bind_Ok in H as ([out' rows'] & Hproj & H).
    repeat (case_if_in H; [done|]). injection H as -> -> ->.
    destruct (cal_dates _ _ _ Hcal Hf Hds) as (Hah & Hv & Hne). destruct ds as [|d ds]; [done|].
    assert (held inst) as Hinst.
    { split; [lia|]. destruct (HasScheduled c && _); [injection Ha as <-; apply Hs|apply Solve_stored in Ha; apply Ha]. }
    unfold project in Hproj. rewrite Edraw in Hproj. destruct Hah as [Hlt _]. apply Forall_cons in Hv as [Hv _].
    apply annuity_first in Hproj as [-> Hpay]; [|done..]. split; done.
  - apply bind_Ok in Hbuild as (ds & Hds & H). apply bind_Ok in H as ([out' rows'] & Hproj & H).
    injection H as -> <- ->. unfold decliningDates in Hds. destruct (Sign bal <=? 0); [done|].
    destruct (cal_dates _ _ _ Hcal Hf Hds) as (Hah & Hv & Hne).
    unfold projectDeclining in Hproj. rewrite Edraw in Hproj. apply bind_Ok in Hproj as (per & Hper & Hproj).
    rewrite settlement_unit_of in Hper. pose proof (unit_of_pos (Rounding c)).
    destruct Hb as [Hb0 Hb1]. pose proof (length_zero_iff_nil ds) as Hnil. assert (length ds ≠ 0%nat) by tauto.
    apply per_period_Ok in Hper as (-> & Hp0 & Hpn); [|lia|lia|lia].
    destruct ds as [|d ds]; [done|]. destruct Hah as [Hlt _]. apply Forall_cons in Hv as [Hv _].
    apply declining_first in Hproj as [-> Hpay]; [|done|split; [done|nia]|done..].
    split; simpl; [done|done|done|]. by destruct (0 <? Periods out).
Qed.

(** * The memo *)

Definition key_from (k : oblKey) : Date := snd (fst (fst k)).

(** Every remembered obligation is one for its own anchor, and every remembered
    calendar one of good terms. *)
Record cache_ok (m : cache) : Prop := {
  ck_obligations : map_Forall (λ k o, obl_ok (key_from k) o) (obligations m);
  ck_calendars : map_Forall (λ _ cal, cal_ok cal) (calendars m) }.

Lemma newCache_ok : cache_ok newCache.
Proof. split; apply map_Forall_empty. Qed.

Lemma cache_calendar_ok m l m' r :
  cache_ok m → loan_terms (l_contract l) → cache_calendar m l = (m', r) →
  cache_ok m' ∧ ∀ cal, r = Ok cal → cal_ok cal.
Proof.
  intros [Ho Hc] Ht H. unfold cache_calendar in H. destruct (calendars m !! l_fp l) as [cal|] eqn:E.
  { injection H as <- <-. split; [done|]. intros ? [= <-]. by apply (Hc (l_fp l)). }
  destruct (NewCalendar (l_contract l)) as [cal|e|w] eqn:En; injection H as <- <-; [|done..].
  assert (cal_ok cal) as Hcal by by exists (l_contract l).
  split; [|by intros ? [= <-]]. split; [done|]. by apply map_Forall_insert_2.
Qed.

Lemma project_next_ok l cal o :
  cal_ok cal → loan_ok l → project_next l cal = Ok o → obl_ok (l_from l) o.
Proof.
  intros Hcal Hl H. pose proof (lk_from l Hl) as Hf. unfold project_next in H. destruct (carries l) eqn:Ec.
  - destruct (Calendar_Dates cal (l_from l)) as [[|d ds]|e|w] eqn:Ed; [done| | |done].
    + injection H as <-. destruct (cal_dates _ _ _ Hcal Hf Ed) as ([Ha _] & Hv & _).
      apply Forall_cons in Hv as [Hv _]. split; simpl; [done|done|apply Hl..].
    + injection H as <-. destruct Hf as [Hv Hm].
      destruct (Occurrence_facts (l_from l) (PaymentDay (l_contract l)) 1 ltac:(lia)) as (Hvo & Hmo & _).
      split; simpl; [done| |apply Hl..]. apply month_of_lt_time; [done|done|lia].
  - destruct (Next cal (l_balance l) (l_from l)) as [ob|e|w] eqn:En; [|done..]. injection H as <-.
    eapply Next_ok; [done|apply Hl|done|done].
Qed.

Lemma cache_next_ok m l m' r :
  cache_ok m → loan_ok l → cache_next m l = (m', r) →
  cache_ok m' ∧ ∀ o, r = Ok o → obl_ok (l_from l) o.
Proof.
  intros Hm Hl H. unfold cache_next in H. destruct (obligations m !! key_of l) as [o|] eqn:E.
  { injection H as <- <-. split; [done|]. intros ? [= <-]. by apply (ck_obligations m Hm (key_of l)). }
  destruct (cache_calendar m l) as [m1 rc] eqn:Ec.
  destruct (cache_calendar_ok m l m1 rc Hm ltac:(apply Hl) Ec) as [Hm1 Hcal].
  destruct rc as [cal|[e| | | | | |]|w]; try (injection H as <- <-; done).
  specialize (Hcal cal eq_refl). destruct (project_next l cal) as [o|e|w] eqn:En; injection H as <- <-; [|done..].
  pose proof (project_next_ok _ _ _ Hcal Hl En) as Ho.
  split; [|by intros ? [= <-]]. split; [|apply Hm1]. apply map_Forall_insert_2; [done|apply Hm1].
Qed.

(** ** The memo is transparent *)

(** What a fresh projection answers. *)
Definition fresh (l : loanState) : pres obligation := snd (cache_next newCache l).

(** Two loans whose fingerprints agree are two states of one contract. *)
Definition told_apart (U : loanState → Prop) : Prop :=
  ∀ l l', U l → U l' → l_fp l = l_fp l' →
    l_contract l = l_contract l' ∧ cur (l_balance l) = cur (l_balance l') ∧ cur (l_carried l) = cur (l_carried l').

(** Everything remembered is what a loan of [U] would be told afresh. *)
Record remembers (U : loanState → Prop) (m : cache) : Prop := {
  rm_obligations : ∀ l o, U l → obligations m !! key_of l = Some o → fresh l = Ok o;
  rm_calendars : ∀ l cal, U l → calendars m !! l_fp l = Some cal → NewCalendar (l_contract l) = Ok cal }.

Lemma fresh_eq l :
  fresh l = match NewCalendar (l_contract l) with
            | Ok cal => project_next l cal
            | Err e => Err (Core (Wrapf "plan: projecting %s: %w" e))
            | Panic w => Panic w
            end.
Proof.
  unfold fresh, cache_next, cache_calendar, newCache. simpl. rewrite !lookup_empty.
  destruct (NewCalendar (l_contract l)) as [cal|e|w]; simpl; [|done..]. by destruct (project_next l cal).
Qed.

Lemma Amount_eq a b : minor a = minor b → cur a = cur b → a = b.
Proof. destruct a, b. simpl. by intros -> ->. Qed.

Lemma key_of_fresh U l l' :
  told_apart U → U l → U l' → key_of l = key_of l' → fresh l = fresh l'.
Proof.
  intros Ht Hl Hl' Hk. unfold key_of in Hk. injection Hk as Hfp Hb Hf He Hca.
  destruct (Ht l l' Hl Hl' Hfp) as (Hc & Hcb & Hcc).
  assert (carries l = carries l' ∧ (carries l = true → l_carried l = l_carried l')) as [Hcar Heq].
  { unfold carries in *. rewrite <- Hc, <- He in *.
    destruct (bool_decide (l_effect l = PrepayShortenTerm)); [|done].
    destruct (bool_decide (Type_ (l_contract l) = Annuity)); [|done]. cbn [andb] in *.
    rewrite !Sign_pos_iff in *.
    destruct (Z.ltb_spec 0 (minor (l_carried l))), (Z.ltb_spec 0 (minor (l_carried l'))); try lia; try done.
    split; [done|]. intros _. by apply Amount_eq. }
  rewrite !fresh_eq, <- Hc. destruct (NewCalendar (l_contract l)) as [cal|e|w]; [|done..].
  unfold project_next. rewrite <- Hcar, <- Hf, <- Hc, <- (Amount_eq _ _ Hb Hcb).
  destruct (carries l); [|done]. by rewrite <- Heq.
Qed.

(** What the memo needs of the loans asked about: a fingerprint means one
    contract, and a key one answer. *)
Record tells (U : loanState → Prop) : Prop := {
  tl_contract : ∀ l l', U l → U l' → l_fp l = l_fp l' → l_contract l = l_contract l';
  tl_fresh : ∀ l l' o, U l → U l' → key_of l = key_of l' → fresh l = Ok o → fresh l' = Ok o }.

Lemma told_apart_tells U : told_apart U → tells U.
Proof.
  intros Ht. split; [intros l l' Hl Hl' Hfp; by apply (Ht l l')|].
  intros l l' o Hl Hl' Hk <-. symmetry. by apply (key_of_fresh U).
Qed.

Lemma cache_calendar_remembers U m l m' r :
  tells U → remembers U m → U l → cache_calendar m l = (m', r) →
  remembers U m' ∧ r = core (NewCalendar (l_contract l)) ∧ obligations m' = obligations m.
Proof.
  intros Ht [Ho Hc] Hl H. unfold cache_calendar in H. destruct (calendars m !! l_fp l) as [cal|] eqn:E.
  { injection H as <- <-. by rewrite (Hc l cal). }
  destruct (NewCalendar (l_contract l)) as [cal|e|w] eqn:En; injection H as <- <-; (split; [|done]); try done.
  split; [done|]. simpl. intros l1 cal1 Hl1 H1. apply lookup_insert_Some in H1 as [[Hfp <-]|[_ H1]]; [|by apply Hc].
  rewrite <- (tl_contract U Ht l l1 Hl Hl1 Hfp). done.
Qed.

Lemma cache_next_remembers U m l m' r :
  tells U → remembers U m → U l → cache_next m l = (m', r) →
  r = fresh l ∧ remembers U m'.
Proof.
  intros Ht Hm Hl H. unfold cache_next in H. destruct (obligations m !! key_of l) as [o|] eqn:E.
  { injection H as <- <-. split; [|done]. symmetry. by apply (rm_obligations U m Hm). }
  destruct (cache_calendar m l) as [m1 rc] eqn:Ec.
  destruct (cache_calendar_remembers U m l m1 rc Ht Hm Hl Ec) as (Hm1 & -> & Eo).
  rewrite fresh_eq. destruct (NewCalendar (l_contract l)) as [cal|e|w] eqn:En; cbn [core] in H;
    [|by injection H as <- <-..].
  destruct (project_next l cal) as [o|e|w] eqn:Ep; injection H as <- <-; (split; [done|]); [|done..].
  split; [|apply Hm1]. simpl. intros l1 o1 Hl1 H1. rewrite lookup_insert_Some in H1.
  destruct H1 as [[Hk <-]|[_ H1]]; [|by apply (rm_obligations U m1 Hm1)].
  apply (tl_fresh U Ht l l1 o Hl Hl1 Hk). by rewrite fresh_eq, En.
Qed.

(** The memo changes no answer. As long as fingerprints tell the contracts
    of a search apart, projecting loan after loan through one shared cache
    gives every loan the obligation, or the refusal, it would get from a cache
    of its own, whatever was asked before. *)
Theorem cache_transparent U m l m' r :
  told_apart U → remembers U m → U l → cache_next m l = (m', r) →
  r = fresh l ∧ remembers U m'.
Proof. intros Ht. by apply cache_next_remembers, told_apart_tells. Qed.

(** One loan and one policy, asked of an empty memo. *)
Definition told_loan : loanState :=
  start_loan (PlanInput.MkPolicy false "p" [0%nat] [OnReceipt] [PrepayBorrowerChooses] RollFreed no_amount)
    (Zero AMD) 0 (filed_position (MkDate 2024 3 15)).

Lemma remembers_new U : remembers U newCache.
Proof. split; intros l x _ H; cbn in H; by rewrite lookup_empty in H. Qed.

Lemma cache_transparent_witness :
  let m := fst (cache_next newCache told_loan) in
  snd (cache_next m told_loan) = fresh told_loan ∧ ∃ o, fresh told_loan = Ok o.
Proof.
  assert (told_apart (eq told_loan)) as Ht by (intros ? ? <- <- _; split; [reflexivity|split; reflexivity]).
  cbv zeta. split; [|eexists; vm_compute; reflexivity].
  destruct (cache_next newCache told_loan) as [m r] eqn:E1. cbn [fst].
  destruct (cache_transparent (eq told_loan) newCache told_loan m r Ht (remembers_new _) eq_refl E1) as [_ Hm].
  destruct (cache_next m told_loan) as [m2 r2] eqn:E2. cbn [snd].
  exact (proj1 (cache_transparent (eq told_loan) m told_loan m2 r2 Ht Hm eq_refl E2)).
Defined.
