(* ===== verification/Memo.v ===== *)
(** A run does not depend on what it is not told by: the memo it is lent, the
    name its policy goes by, and how the policy spells a choice the contract has
    already made.

    Two runs that differ in nothing else are followed step by step. The
    candidates of a search may so share memos, or not, and answers may be kept
    under a canonical policy. *)
From S2P Require Import Prelude Money Dates Model Allocation Schedule Solve Declining Calendar Fees PlanBase PlanInput SimState Sim SimLogic Quotes Obligations.

(** * What a projection says of currencies *)

Lemma Sign_pos a : 0 < Sign a ↔ 0 < minor a.
Proof. by rewrite <- !Z.ltb_lt, Sign_pos_iff. Qed.

Lemma project_started c inst ds i bal prev out rows out' rows' :
  project_from c inst ds i bal prev out rows = Ok (out', rows') → Periods out' ≠ Periods out → 0 < Sign bal.
Proof.
  destruct ds as [|d ds]; intros H Hp; cbn [project_from] in H; [injection H as <- <-; done|].
  destruct (Z.leb_spec (Sign bal) 0); [injection H as <- <-; done|]. done.
Qed.

Lemma Add_cur a b r : Add a b = Ok r → cur r = cur a.
Proof. unfold Add. intros H. inv_res. case_match; [done|]. by injection H as <-. Qed.
Lemma Sub_cur a b r : Sub a b = Ok r → cur r = cur a.
Proof. unfold Sub. intros H. inv_res. case_match; [done|]. by injection H as <-. Qed.

Lemma declining_pays c per n d ds bal prev out rows out' rows' :
  cur per = cur bal → Periods out = 0 →
  declining_from c per n (d :: ds) 0 bal prev out rows = Ok (out', rows') → cur (FirstPayment out') = cur bal.
Proof.
  intros Hper H0 H. cbn [declining_from] in H. destruct (DaysBetween prev d <? 0); [done|].
  apply bind_Ok in H as (int & _ & H). apply bind_Ok in H as (part & Hpart & H).
  apply bind_Ok in H as (pay & Hpay & H). apply bind_Ok in H as ([] & _ & H); [done|].
  do 3 (apply bind_Ok in H as (? & _ & H)). rewrite row_err_Ok in Hpay. apply Add_cur in Hpay.
  assert (cur part = cur bal) as Hcur.
  { destruct (0 =? n - 1); [by injection Hpart as <-|]. apply bind_Ok in Hpart as (o & _ & [= <-]). by destruct (o <? 0). }
  destruct (first_row out d int part pay x x0 x1 H0) as (F1 & F2 & F3).
  case_if_in H; [injection H as <- <-; by rewrite F3, Hpay|].
  apply declining_from_first in H as [_ ->]; [by rewrite F3, Hpay|done].
Qed.

Lemma record_row_periods out due int part pay closing paid total :
  Periods (record_row out due int part pay closing paid total) = Periods out + 1.
Proof. unfold record_row. by destruct (Periods out + 1 =? 1). Qed.
Lemma declining_periods c per n ds : ∀ i bal prev out rows out' rows',
  declining_from c per n ds i bal prev out rows = Ok (out', rows') → Periods out ≤ Periods out'.
Proof.
  induction ds as [|d ds IH]; intros i bal prev out rows out' rows' H; [by injection H as <- <-|].
  cbn [declining_from] in H. destruct (DaysBetween prev d <? 0); [done|].
  do 3 (apply bind_Ok in H as (? & _ & H)). apply bind_Ok in H as ([] & _ & H); [done|].
  do 3 (apply bind_Ok in H as (? & _ & H)).
  case_if_in H; [injection H as <- <-|apply IH in H]; rewrite record_row_periods in *; lia.
Qed.

(** The next instalment is asked of a debt, in its currency. *)
Lemma Next_currency cal bal from o : Next cal bal from = Ok o → 0 < Sign bal ∧ cur (ObInstalment o) = cur bal.
Proof.
  unfold Next. intros H. apply bind_Ok in H as ([[out inst] rows] & Hb & H).
  destruct (Z.eqb_spec (Periods out) 0) as [|Hp]; [done|]. injection H as <-. cbn [ObInstalment].
  unfold build in Hb. destruct (Type_ (contract cal)).
  - apply bind_Ok in Hb as (a & _ & H). apply bind_Ok in H as (u & Hc & H).
    apply bind_Ok in H as (ds & _ & H). apply bind_Ok in H as ([out' rows'] & Hproj & H).
    repeat (case_if_in H; [done|]). injection H as -> -> ->. unfold project in Hproj.
    apply project_started in Hproj; [|done]. split; [done|]. unfold checkProjection in Hc.
    repeat (case_if_in Hc; [done|]). by destruct (bool_decide_reflect (cur bal = cur inst)).
  - apply bind_Ok in Hb as (ds & Hds & H). apply bind_Ok in H as ([out' rows'] & Hproj & H).
    injection H as -> <- ->. unfold decliningDates in Hds. destruct (Z.leb_spec (Sign bal) 0); [done|].
    split; [done|]. unfold projectDeclining in Hproj. apply bind_Ok in Hproj as (per & Hper & Hproj).
    assert (cur per = cur bal) as Hcur by (unfold per_period in Hper; inv_res; done).
    destruct ds as [|d ds]; [injection Hproj as <- <-; done|].
    pose proof (declining_periods _ _ _ _ _ _ _ _ _ _ _ Hproj) as H1. cbn in H1.
    destruct (Z.ltb_spec 0 (Periods out)); [|lia]. by apply declining_pays in Hproj.
Qed.

(** * The loans a memo is asked about *)

(** Fingerprints tell the contracts apart, and debts are in the plan's currency. *)
Record clear_terms (i : Input) : Prop := {
  ct_told : ∀ p q, p ∈ Loans i → q ∈ Loans i →
    fingerprint (PosContract p) = fingerprint (PosContract q) → PosContract p = PosContract q;
  ct_currency : ∀ p, p ∈ Loans i → cur (PosBalance p) = in_currency i }.

Definition in_plan (cr : Currency) (a : Amount) : Prop := minor a = 0 ∨ cur a = cr.

(** A state of one of the loans. *)
Record known (i : Input) (l : loanState) : Prop := {
  kn_pos : l_pos l ∈ Loans i;
  kn_fp : l_fp l = fingerprint (l_contract l);
  kn_balance : in_plan (in_currency i) (l_balance l);
  kn_carried : in_plan (in_currency i) (l_carried l) }.

Lemma in_plan_zero cr : in_plan cr (Zero cr).
Proof. by right. Qed.

Lemma fresh_instalment i l o : known i l → fresh l = Ok o → in_plan (in_currency i) (o_instalment o).
Proof.
  intros Hl. rewrite fresh_eq. destruct (NewCalendar (l_contract l)) as [cal|e|w]; [|done..].
  unfold project_next. destruct (carries l).
  - destruct (Calendar_Dates cal (l_from l)) as [[|d ds]|e|w]; [done| | |done]; intros [= <-]; apply Hl.
  - destruct (Next cal (l_balance l) (l_from l)) as [ob|e|w] eqn:En; [|done..]. intros [= <-].
    apply Next_currency in En as [Hpos%Sign_pos Hcur]. right. cbn. rewrite Hcur.
    destruct (kn_balance i l Hl); [lia|done].
Qed.

Lemma known_tells i : clear_terms i → tells (known i).
Proof.
  intros Ht. assert (∀ l l', known i l → known i l' → l_fp l = l_fp l' → l_contract l = l_contract l') as Hc.
  { intros l l' Hl Hl' Hfp. apply (ct_told i Ht); [apply Hl|apply Hl'|].
    pose proof (kn_fp i l Hl) as E. pose proof (kn_fp i l' Hl') as E'. unfold l_contract in *. congruence. }
  split; [done|]. intros l l' o Hl Hl' Hk. unfold key_of in Hk. injection Hk as Hfp Hb Hf He Hca.
  specialize (Hc l l' Hl Hl' Hfp). rewrite !fresh_eq, <- Hc. destruct (NewCalendar (l_contract l)) as [cal|e|w]; [|done..].
  assert (∀ x, (carries x = true → 0 < minor (l_carried x)) ∧
    (0 < (if carries x then minor (l_carried x) else 0) → carries x = true)) as Hpos.
  { intros x. unfold carries. rewrite Sign_pos_iff. destruct (bool_decide (l_effect x = _) && _); cbn [andb]; [|split; [done|lia]].
    destruct (Z.ltb_spec 0 (minor (l_carried x))); split; try done; lia. }
  assert (carries l = carries l') as Hcar.
  { destruct (carries l) eqn:E.
    - symmetry. apply (Hpos l'). rewrite <- Hca. rewrite ?E. by apply (Hpos l).
    - destruct (carries l') eqn:E'; [|done]. exfalso. pose proof (proj1 (Hpos l') E'). rewrite ?E, ?E' in Hca.  lia. }
  unfold project_next. rewrite <- Hcar, <- Hf, <- Hc. destruct (carries l) eqn:E.
  - rewrite <- Hcar, ?E in Hca. pose proof (proj1 (Hpos l) E) as H0.
    assert (l_carried l = l_carried l') as <-; [|done]. apply Amount_eq; [done|].
    destruct (kn_carried i l Hl), (kn_carried i l' Hl'); [lia..|congruence].
  - destruct (Next cal (l_balance l) (l_from l)) as [ob|e|w] eqn:En; [|done..]. intros <-.
    pose proof (Next_currency _ _ _ _ En) as [Hp%Sign_pos _].
    assert (l_balance l = l_balance l') as <-; [|by rewrite En]. apply Amount_eq; [done|].
    destruct (kn_balance i l Hl), (kn_balance i l' Hl'); [lia..|congruence].
Qed.

(** * Two runs side by side *)

(** Two policies the simulator cannot tell apart. *)
Record same_choices (i : Input) (p q : PlanInput.Policy) : Prop := {
  sc_required : RequiredOnly p = RequiredOnly q;
  sc_order : Order p = Order q;
  sc_rollover : PolRollover p = PolRollover q;
  sc_minimum : MinPrepay p = MinPrepay q ∨ (Sign (MinPrepay p) ≤ 0 ∧ Sign (MinPrepay q) ≤ 0);
  sc_covers : covers i p = covers i q;
  sc_start : ∀ z k pos, Loans i !! k = Some pos → start_loan p z k pos = start_loan q z k pos }.

Lemma same_choices_refl i p : same_choices i p p.
Proof. split; auto. Qed.

Create HintDb along discriminated.
#[export] Hint Constants Opaque : along.

Section TwoRuns.
Context (i : Input) (pol pol' : PlanInput.Policy).
Context (Hterms : clear_terms i) (Hsame : same_choices i pol pol').

(** The other run at the same place: its own memo and policy. *)
Definition other (m : cache) (s : sim) : sim :=
  set s_res (set ResPolicy (λ _, pol')) (set s_pol (λ _, pol') (set s_cache (λ _, m) s)).

Record sound (s : sim) (m : cache) : Prop := {
  sd_in : s_in s = i;
  sd_cur : s_cur s = in_currency i;
  sd_pol : s_pol s = pol;
  sd_loans : Forall (λ l, known i l ∧ (s_err s = None → cur (l_balance l) = in_currency i)) (s_loans s);
  sd_memo : remembers (known i) (s_cache s);
  sd_other : remembers (known i) m }.

(** From one place, the two steps answer the same and end at one place. *)
Definition follows {A} (x y : M A) : Prop := ∀ s m, sound s m →
  match x s, y (other m s) with
  | Ok (a, t), Ok (b, u) => a = b ∧ ∃ m', u = other m' t ∧ sound t m'
  | Err e, Err e' => e = e'
  | Panic w, Panic w' => w = w'
  | _, _ => False
  end.

Section Rules.
Context {A B : Type}.
Implicit Types (x y : M A).

Lemma follows_ret (a : A) : follows (mret a) (mret a).
Proof using Type. intros s m Hs. split; [done|]. by exists m. Qed.

Lemma follows_bind_with (P : A → Prop) x y (k k' : A → M B) :
  follows x y → (∀ s m a t, sound s m → x s = Ok (a, t) → P a) → (∀ a, P a → follows (k a) (k' a)) →
  follows (x ≫= k) (y ≫= k').
Proof using Type.
  intros Hx HP Hk s m Hs. specialize (Hx s m Hs). specialize (HP s m). unfold mbind, M_bind.
  destruct (x s) as [[a t]|e|w], (y (other m s)) as [[b u]|e'|w']; try done.
  destruct Hx as (<- & m' & -> & Ht). apply Hk; [|done]. by eapply HP.
Qed.
Lemma follows_bind x y (k k' : A → M B) :
  follows x y → (∀ a, follows (k a) (k' a)) → follows (x ≫= k) (y ≫= k').
Proof using Type. intros Hx Hk. apply (follows_bind_with (λ _, True)); auto. Qed.

Lemma follows_gets (f : sim → A) : (∀ s m, sound s m → f (other m s) = f s) → follows (gets f) (gets f).
Proof using Type. intros Hf s m Hs. split; [by rewrite (Hf s m)|]. by exists m. Qed.
Lemma follows_panic w : follows (panic w : M A) (panic w).
Proof using Type. by intros s m Hs. Qed.
Lemma follows_total (r : res A) : follows (total r) (total r).
Proof using Type. intros s m Hs. unfold total. destruct r; [|done..]. split; [done|]. by exists m. Qed.
Lemma follows_attempt (r : pres A) : follows (attempt r) (attempt r).
Proof using Type. intros s m Hs. unfold attempt. destruct r; [| |done]; (split; [done|]; by exists m). Qed.

Lemma follows_foldM (f g : B → A → M B) l :
  (∀ b a, a ∈ l → follows (f b a) (g b a)) → ∀ b, follows (foldM f b l) (foldM g b l).
Proof using Type.
  induction l as [|a l IH]; intros Hf b; cbn [foldM]; [intros s m Hs; split; [done|]; by exists m|].
  intros s m Hs. specialize (Hf b a ltac:(by left) s m Hs) as H1. unfold mbind, M_bind.
  destruct (f b a s) as [[b1 t]|e|w], (g b a (other m s)) as [[b2 u]|e'|w']; try done.
  destruct H1 as (<- & m' & -> & Ht). apply IH; [|done]. intros; apply Hf. by right.
Qed.
End Rules.

Lemma follows_and_then {A B} (x y : M (perror + A)) (k k' : A → M (perror + B)) :
  follows x y → (∀ a, follows (k a) (k' a)) → follows (and_then x k) (and_then y k').
Proof using Type.
  intros Hx Hk. unfold and_then. apply (follows_bind); [done|]. intros [e|a]; [|done]. apply (follows_ret).
Qed.

Lemma follows_modify f g :
  (∀ s m, g (other m s) = other m (f s)) → (∀ s m, sound s m → sound (f s) m) → follows (modify f) (modify g).
Proof using Type. intros Hf Hg s m Hs. split; [done|]. exists m. split; [apply Hf|by apply Hg]. Qed.
Lemma follows_when b x y : (b = true → follows x y) → follows (when b x) (when b y).
Proof using Type. destruct b; intros H; [by apply H|apply follows_ret]. Qed.
Lemma follows_raise e : follows (raise e) (raise e).
Proof using Type.
  apply follows_modify; [done|]. intros s m []. split; try done. cbn. eapply Forall_impl; [done|]. by intros l [? _].
Qed.
Lemma follows_or_raise {A} (r : perror + A) k k' :
  (∀ a, follows (k a) (k' a)) → follows (or_raise r k) (or_raise r k').
Proof using Type. intros Hk. destruct r as [e|a]; [apply follows_raise|apply Hk]. Qed.
Lemma follows_sticky r a : follows (sticky r a) (sticky r a).
Proof using Type.
  intros s m Hs. unfold sticky. change (s_err (other m s)) with (s_err s). destruct (s_err s).
  - split; [done|]. by exists m.
  - destruct r as [b|e|w]; [split; [done|]; by exists m| |done]. split; [done|]. exists m. split; [done|].
    destruct Hs as [Hin Hcu Hp Hl Hm Ho]. split; try done. cbn. eapply Forall_impl; [done|]. by intros l [? _].
Qed.
Lemma follows_bucket j : follows (bucket j) (bucket j).
Proof using Type.
  intros s m Hs. unfold bucket. change (s_cashBuckets (other m s)) with (s_cashBuckets s).
  destruct (s_cashBuckets s !! j); [|done]. split; [done|]. by exists m.
Qed.
Lemma follows_spending : follows spending spending.
Proof using Type.
  intros s m Hs. unfold spending. change (cash_plan (other m s)) with (cash_plan s).
  destruct (Spending (cash_plan s)); [|done]. split; [done|]. by exists m.
Qed.

(** A loan read is a state of a loan of the input. *)
Lemma follows_loan {A} j (k k' : loanState → M A) :
  (∀ l, known i l → follows (k l) (k' l)) → follows (loan j ≫= k) (loan j ≫= k').
Proof using Type.
  apply follows_bind_with.
  - intros s m Hs. unfold loan. change (s_loans (other m s)) with (s_loans s).
    destruct (s_loans s !! j); [|done]. split; [done|]. by exists m.
  - intros s m l t Hs [Hl _]%loan_Ok. by eapply (Forall_lookup_1 _ _ _ _ (sd_loans s m Hs)).
Qed.
Lemma follows_zero {A} (k k' : Amount → M A) :
  follows (k (Zero (in_currency i))) (k' (Zero (in_currency i))) → follows (gets zero ≫= k) (gets zero ≫= k').
Proof using Type.
  intros Hk. apply (follows_bind_with (λ z, z = Zero (in_currency i))); [by apply follows_gets| |by intros ? ->].
  intros s m z t Hs [-> ->]%gets_Ok. unfold zero. by rewrite (sd_cur s m Hs).
Qed.

(** What the policies say of a run. *)
Lemma follows_policy {A B} (f : PlanInput.Policy → A) (k k' : A → M B) :
  follows (k (f pol)) (k' (f pol')) → follows (gets (λ s, f (s_pol s)) ≫= k) (gets (λ s, f (s_pol s)) ≫= k').
Proof using Type.
  intros Hk s m Hs. unfold mbind, M_bind, gets. rewrite (sd_pol s m Hs). by apply Hk.
Qed.

(** Writes to the loans. *)
Definition keeps (f : loanState → loanState) : Prop :=
  ∀ l, l_pos (f l) = l_pos l ∧ l_fp (f l) = l_fp l ∧
    (l_balance (f l) = l_balance l ∨ cur (l_balance (f l)) = in_currency i) ∧ (l_carried (f l) = l_carried l).

Lemma keeps_known f l (P : Prop) :
  keeps f → known i l ∧ (P → cur (l_balance l) = in_currency i) →
  known i (f l) ∧ (P → cur (l_balance (f l)) = in_currency i).
Proof using Type.
  intros Hf [[Hp Hfp Hb Hc] Hcur]. destruct (Hf l) as (Ep & Ef & Eb & Ec). split; [split|].
  - by rewrite Ep.
  - unfold l_contract. rewrite Ep. by rewrite Ef.
  - destruct Eb as [-> |Eb]; [done|by right].
  - by rewrite Ec.
  - destruct Eb as [-> |Eb]; [done|]. by intros _.
Qed.
Lemma sound_alter s m j f : sound s m → keeps f → sound (set s_loans (alter f j) s) m.
Proof using Type.
  intros [Hin Hcu Hp Hl Hm Ho] Hf. split; try done. cbn. apply Forall_alter; [done|]. intros l _. by apply keeps_known.
Qed.
Lemma sound_fmap s m f : sound s m → keeps f → sound (set s_loans (fmap f) s) m.
Proof using Type.
  intros [Hin Hcu Hp Hl Hm Ho] Hf. split; try done. cbn. apply Forall_fmap. eapply Forall_impl; [done|].
  intros l. by apply keeps_known.
Qed.
Lemma follows_loans f g :
  (∀ s m, g (other m s) = other m (f s)) → (∀ s m, sound s m → sound (f s) m) → follows (modify f) (modify g).
Proof using Type. apply follows_modify. Qed.

(** The balance may lose its currency to an overflow, and is then not drawn on again. *)
Lemma follows_draw_balance j x : follows (draw_loan j l_balance x) (draw_loan j l_balance x).
Proof using Type.
  intros s m Hs. unfold draw_loan, mbind, M_bind, loan, sub, sticky, assign_loan, alter_loan, modify.
  change (s_loans (other m s)) with (s_loans s). destruct (s_loans s !! j) as [l|] eqn:El; [|done].
  change (s_err (other m s)) with (s_err s).
  pose proof (Forall_lookup_1 _ _ _ _ (sd_loans s m Hs) El) as [Hk Hc].
  assert (∀ t v, sound t m → in_plan (in_currency i) v → (s_err t = None → cur v = in_currency i) →
    sound (set s_loans (alter (set l_balance (λ _, v)) j) t) m) as Hset.
  { intros t v [Hin Hcu Hp Hl Hm Ho] Hv Hvc. split; try done. cbn.
    apply Forall_alter; [done|]. intros l' _ [[] _]. split; [by split|done]. }
  destruct (s_err s) as [e|] eqn:Ee.
  - split; [done|]. exists m. split; [done|]. apply Hset; [done|apply Hk|congruence].
  - specialize (Hc eq_refl). destruct (Sub (l_balance l) x) as [r|e|w] eqn:Es; [| |done]; (split; [done|]); exists m; (split; [done|]).
    + apply Sub_cur in Es. rewrite Hc in Es. apply Hset; [done|by right|done].
    + assert (sound (s <| s_err := Some (Core e) |>) m) as Hs'.
      { destruct Hs as [Hin Hcu Hp Hl Hm Ho]. split; try done. cbn. eapply Forall_impl; [done|]. by intros l' [? _]. }
      apply Hset; [done|by left|done].
Qed.

(** ** The memo *)

Lemma sound_memo s m m1 m2 :
  sound s m → remembers (known i) m1 → remembers (known i) m2 → sound (set s_cache (λ _, m1) s) m2.
Proof using Type. intros [Hin Hcu Hp Hl Hm Ho] H1 H2. by split. Qed.

Lemma refreshed_eq l s :
  refreshed l s = match cache_next (s_cache s) l with
    | (m, Ok o) => Ok (inr (refresh_loan l o), set s_cache (λ _, m) s)
    | (m, Err e) => Ok (inl e, set s_cache (λ _, m) s)
    | (m, Panic w) => Panic w
    end.
Proof using Type.
  unfold refreshed, mbind, M_bind, gets. destruct (cache_next (s_cache s) l) as [m [o|e|w]]; done.
Qed.

(** The memo answers both runs alike. *)
Lemma next_follows l s m :
  known i l → sound s m →
  ∃ m1 m2, cache_next (s_cache s) l = (m1, fresh l) ∧ cache_next m l = (m2, fresh l) ∧
    sound (set s_cache (λ _, m1) s) m2.
Proof using Hterms.
  intros Hl Hs. pose proof (known_tells i Hterms) as Htells.
  destruct (cache_next (s_cache s) l) as [m1 r1] eqn:E1, (cache_next m l) as [m2 r2] eqn:E2.
  destruct (cache_next_remembers _ _ _ _ _ Htells (sd_memo s m Hs) Hl E1) as [-> H1].
  destruct (cache_next_remembers _ _ _ _ _ Htells (sd_other s m Hs) Hl E2) as [-> H2].
  exists m1, m2. split; [done|]. split; [done|]. by apply (sound_memo _ m).
Qed.

Lemma follows_refreshed l : known i l → follows (refreshed l) (refreshed l).
Proof using Hterms.
  intros Hl s m Hs. rewrite !refreshed_eq. change (s_cache (other m s)) with m.
  destruct (next_follows l s m Hl Hs) as (m1 & m2 & -> & -> & H). destruct (fresh l); [| |done]; (split; [done|]);
    by exists m2.
Qed.
Lemma follows_calendar j : follows (calendar j) (calendar j).
Proof using Hterms.
  unfold calendar. apply follows_loan. intros l Hl s m Hs. unfold mbind, M_bind, gets. cbv beta iota.
  change (s_cache (other m s)) with m. pose proof (known_tells i Hterms) as Htells.
  destruct (cache_calendar (s_cache s) l) as [m1 r1] eqn:E1, (cache_calendar m l) as [m2 r2] eqn:E2.
  destruct (cache_calendar_remembers _ _ _ _ _ Htells (sd_memo s m Hs) Hl E1) as (H1 & -> & _).
  destruct (cache_calendar_remembers _ _ _ _ _ Htells (sd_other s m Hs) Hl E2) as (H2 & -> & _).
  assert (sound (set s_cache (λ _, m1) s) m2) as Hs' by by apply (sound_memo _ m).
  unfold assign, modify, attempt. destruct (core (NewCalendar (l_contract l))); [| |done]; (split; [done|]); by exists m2.
Qed.

(** A loan put back with its debt and its contract untouched. *)
Lemma sound_put s m j l l' :
  sound s m → s_loans s !! j = Some l → known i l' → l_balance l' = l_balance l →
  sound (set s_loans (alter (λ _, l') j) s) m.
Proof using Type.
  intros [Hin Hcu Hp Hl Hm Ho] El Hk Hb. split; try done. cbn. rewrite (alter_insert _ _ _ _ El).
  apply Forall_insert; [done|]. split; [done|]. rewrite Hb. apply (Forall_lookup_1 _ _ _ _ Hl El).
Qed.

Lemma refresh_known l o : known i l → fresh l = Ok o → known i (refresh_loan l o).
Proof using Type.
  intros Hl Ho. pose proof (fresh_instalment i l o Hl Ho). destruct Hl. split; try done.
  cbn. by destruct (Sign (l_carried l) =? 0).
Qed.

Lemma follows_refresh j : follows (refresh j) (refresh j).
Proof using Hterms.
  intros s m Hs. unfold refresh, and_then, mbind, M_bind, loan. change (s_loans (other m s)) with (s_loans s).
  destruct (s_loans s !! j) as [l|] eqn:El; [|done].
  pose proof (Forall_lookup_1 _ _ _ _ (sd_loans s m Hs) El) as [Hl _].
  rewrite !refreshed_eq. change (s_cache (other m s)) with m.
  destruct (next_follows l s m Hl Hs) as (m1 & m2 & -> & -> & H).
  destruct (fresh l) as [o|e|w] eqn:Eo; [| |done]; (split; [done|]); exists m2; (split; [done|]); [|done].
  by eapply sound_put; [exact H|exact El|apply refresh_known|].
Qed.

Lemma accrueTo_keeps l on l' :
  accrueTo l on = Ok l' →
  l_pos l' = l_pos l ∧ l_fp l' = l_fp l ∧ l_balance l' = l_balance l ∧ l_carried l' = l_carried l.
Proof using Type.
  unfold accrueTo. case_match; [by intros [= <-]|]. intros Hr. apply bind_Ok in Hr as (? & _ & Hr).
  apply bind_Ok in Hr as (? & _ & Hr). by injection Hr as <-.
Qed.
Lemma follows_accrue_loan j on : follows (accrue_loan j on) (accrue_loan j on).
Proof using Type.
  intros s m Hs. unfold accrue_loan, and_then, mbind, M_bind, loan. change (s_loans (other m s)) with (s_loans s).
  destruct (s_loans s !! j) as [l|] eqn:El; [|done].
  pose proof (Forall_lookup_1 _ _ _ _ (sd_loans s m Hs) El) as [Hl _]. unfold attempt.
  destruct (accrueTo l on) as [l'|e|w] eqn:Ea; [| |done]; (split; [done|]); exists m; (split; [done|]); [|done].
  destruct (accrueTo_keeps _ _ _ Ea) as (Hp & Hf & Hb & Hc). eapply sound_put; [done|exact El| |done].
  destruct Hl. split; unfold l_contract; rewrite ?Hp, ?Hf, ?Hb, ?Hc; done.
Qed.

(** ** Every step of the simulator *)

(** Writes that leave the loans' debts and contracts as they are. *)
Ltac write_follows :=
  apply follows_modify;
  [ intros; reflexivity
  | let s := fresh in let m := fresh in let Hs := fresh in
    intros s m Hs;
    first
      [ destruct Hs; by split
      | apply sound_alter; [exact Hs|]; intros ?; repeat split; first [left; reflexivity|right; reflexivity|reflexivity]
      | apply sound_fmap; [exact Hs|]; intros ?; repeat split; first [left; reflexivity|right; reflexivity|reflexivity] ] ].

#[local] Hint Resolve follows_ret follows_panic follows_total follows_attempt follows_raise follows_sticky
  follows_bucket follows_spending follows_refreshed follows_refresh follows_calendar follows_accrue_loan : along.

Ltac along :=
  repeat match goal with
  | |- follows (gets zero ≫= _) _ => apply follows_zero
  | |- follows (loan _ ≫= _) _ => apply follows_loan; intros ? ?
  | |- follows (gets (λ s, RequiredOnly (s_pol s)) ≫= _) _ =>
      apply (follows_policy RequiredOnly); rewrite <- (sc_required i pol pol' Hsame)
  | |- follows (gets (λ s, Order (s_pol s)) ≫= _) _ =>
      apply (follows_policy Order); rewrite <- (sc_order i pol pol' Hsame)
  | |- follows (_ ≫= _) _ => apply follows_bind; [|intros ?]
  | |- follows (and_then _ _) _ => apply follows_and_then; [|intros ?]
  | |- follows (or_raise _ _) _ => apply follows_or_raise; intros ?
  | |- follows (when _ _) _ => apply follows_when; intros ?
  | |- follows (foldM _ _ _) _ => apply follows_foldM; intros ? ? ?
  | |- follows (gets _) _ => apply follows_gets; intros; reflexivity
  | |- follows (modify _) _ => write_follows
  | |- follows (draw_loan _ l_balance _) _ => apply follows_draw_balance
  | |- follows (assign _ _) _ => unfold assign
  | |- follows (assign_res _ _) _ => unfold assign_res
  | |- follows (assign_month _ _) _ => unfold assign_month
  | |- follows (alter_loan _ _) _ => unfold alter_loan
  | |- follows (assign_loan _ _ _) _ => unfold assign_loan
  | |- follows (assign_bucket _ _ _) _ => unfold assign_bucket
  | |- follows (bump _ _) _ => unfold bump
  | |- follows (draw _ _) _ => unfold draw
  | |- follows (bump_res _ _) _ => unfold bump_res
  | |- follows (bump_month _ _) _ => unfold bump_month
  | |- follows (bump_loan _ _ _) _ => unfold bump_loan
  | |- follows (draw_loan _ _ _) _ => unfold draw_loan
  | |- follows (add _ _) _ => unfold add
  | |- follows (sub _ _) _ => unfold sub
  | |- follows (cmp _ _) _ => unfold cmp
  | |- follows failed _ => unfold failed
  | |- follows (match ?x with _ => _ end) _ => destruct x
  | |- follows _ _ => solve [auto with along nocore]
  end.

Lemma follows_quote k on available : follows (quote k on available) (quote k on available).
Proof using Hterms Hsame. unfold quote. along. Qed.
#[local] Hint Resolve follows_quote : along.
Lemma follows_openCycle on : follows (openCycle on) (openCycle on).
Proof using Hterms Hsame. unfold openCycle. along. Qed.
#[local] Hint Resolve follows_openCycle : along.
Lemma follows_restrictedCash : follows restrictedCash restrictedCash.
Proof using Hterms Hsame. unfold restrictedCash. along. Qed.
#[local] Hint Resolve follows_restrictedCash : along.
Lemma follows_closeCycle : follows closeCycle closeCycle.
Proof using Hterms Hsame. unfold closeCycle. along. Qed.
#[local] Hint Resolve follows_closeCycle : along.
Lemma follows_action k on kind amount fee saves : follows (action k on kind amount fee saves) (action k on kind amount fee saves).
Proof using Hterms Hsame. unfold action. along. Qed.
#[local] Hint Resolve follows_action : along.
Lemma follows_retire k on freed : follows (retire k on freed) (retire k on freed).
Proof using Hterms Hsame. unfold retire. along. Qed.
#[local] Hint Resolve follows_retire : along.
Lemma follows_note_clear name on freed : follows (note_clear name on freed) (note_clear name on freed).
Proof using Hterms Hsame. unfold note_clear. along. Qed.
#[local] Hint Resolve follows_note_clear : along.
Lemma follows_keep_freed freed : follows (keep_freed freed) (keep_freed freed).
Proof using Hsame.
  unfold keep_freed. apply follows_zero. apply follows_bind; [|intros ?; along].
  apply follows_gets. intros s m Hs. unfold keeps_freed. cbn. by rewrite (sd_pol s m Hs), (sc_rollover i pol pol' Hsame).
Qed.
#[local] Hint Resolve follows_keep_freed : along.
Lemma follows_note_payoff on : follows (note_payoff on) (note_payoff on).
Proof using Hterms Hsame. unfold note_payoff. along. Qed.
#[local] Hint Resolve follows_note_payoff : along.
Lemma follows_close k on : follows (close k on) (close k on).
Proof using Hterms Hsame. unfold close. along. Qed.
#[local] Hint Resolve follows_close : along.
Lemma follows_spendPermission outflow : follows (spendPermission outflow) (spendPermission outflow).
Proof using Hterms Hsame. unfold spendPermission. along. Qed.
#[local] Hint Resolve follows_spendPermission : along.
Lemma follows_saved l on q early : follows (saved l on q early) (saved l on q early).
Proof using Hterms Hsame. unfold saved. along. Qed.
#[local] Hint Resolve follows_saved : along.
Lemma follows_pay_out k q : follows (pay_out k q) (pay_out k q).
Proof using Hterms Hsame. unfold pay_out. along. Qed.
#[local] Hint Resolve follows_pay_out : along.
Lemma follows_use_allowance k on q : follows (use_allowance k on q) (use_allowance k on q).
Proof using Hterms Hsame. unfold use_allowance. along. Qed.
#[local] Hint Resolve follows_use_allowance : along.
Lemma follows_settle_closing k on q : follows (settle_closing k on q) (settle_closing k on q).
Proof using Hterms Hsame. unfold settle_closing. along. Qed.
#[local] Hint Resolve follows_settle_closing : along.
Lemma follows_prepay k on q early : follows (prepay k on q early) (prepay k on q early).
Proof using Hterms Hsame. unfold prepay. along. Qed.
#[local] Hint Resolve follows_prepay : along.
Lemma follows_reserved : follows reserved reserved.
Proof using Hterms Hsame. unfold reserved. along. Qed.
#[local] Hint Resolve follows_reserved : along.
Lemma follows_optionalPermission on : follows (optionalPermission on) (optionalPermission on).
Proof using Hterms Hsame. unfold optionalPermission. along. Qed.
#[local] Hint Resolve follows_optionalPermission : along.
Lemma follows_optionalCash on : follows (optionalCash on) (optionalCash on).
Proof using Hterms Hsame. unfold optionalCash. along. Qed.
#[local] Hint Resolve follows_optionalCash : along.
Lemma follows_batched q : follows (batched q) (batched q).
Proof using Hsame.
  unfold batched. apply follows_bind; [along|intros until_]. apply follows_bind; [along|intros m].
  apply follows_bind; [along|intros below]. destruct (below && negb (Closes q)); [along|].
  apply follows_policy. destruct (sc_minimum i pol pol' Hsame) as [<- |[H1 H2]]; [along|].
  apply Z.ltb_ge in H1, H2. rewrite H1, H2. along.
Qed.
#[local] Hint Resolve follows_batched : along.
Lemma follows_add_part event r u part : follows (add_part event r u part) (add_part event r u part).
Proof using Hterms Hsame. unfold add_part. along. Qed.
#[local] Hint Resolve follows_add_part : along.
Lemma follows_addRouted event : follows (addRouted event) (addRouted event).
Proof using Hterms Hsame. unfold addRouted. along. Qed.
#[local] Hint Resolve follows_addRouted : along.
Lemma follows_route_available j on : follows (route_available j on) (route_available j on).
Proof using Hterms Hsame. unfold route_available. along. Qed.
#[local] Hint Resolve follows_route_available : along.
Lemma follows_route_pay j k on early dueLoan q : follows (route_pay j k on early dueLoan q) (route_pay j k on early dueLoan q).
Proof using Hterms Hsame. unfold route_pay. along. Qed.
#[local] Hint Resolve follows_route_pay : along.
Lemma follows_route_loan j k on early dueLoan : follows (route_loan j k on early dueLoan) (route_loan j k on early dueLoan).
Proof using Hterms Hsame. unfold route_loan. along. Qed.
#[local] Hint Resolve follows_route_loan : along.
Lemma follows_route_released j on dueLoan : follows (route_released j on dueLoan) (route_released j on dueLoan).
Proof using Hterms Hsame. unfold route_released. along. Qed.
#[local] Hint Resolve follows_route_released : along.
Lemma follows_route_bucket j on dueLoan : follows (route_bucket j on dueLoan) (route_bucket j on dueLoan).
Proof using Hterms Hsame. unfold route_bucket. along. Qed.
#[local] Hint Resolve follows_route_bucket : along.
Lemma follows_route_from js : ∀ on dueLoan, follows (route_from js on dueLoan) (route_from js on dueLoan).
Proof using Hterms Hsame. induction js as [|x rest IH]; intros on dueLoan; cbn [route_from]; along. Qed.
#[local] Hint Resolve follows_route_from : along.
Lemma follows_routeCash on dueLoan : follows (routeCash on dueLoan) (routeCash on dueLoan).
Proof using Hterms Hsame. unfold routeCash. along. Qed.
#[local] Hint Resolve follows_routeCash : along.
Lemma follows_allocate_to k on q : follows (allocate_to k on q) (allocate_to k on q).
Proof using Hterms Hsame. unfold allocate_to. along. Qed.
#[local] Hint Resolve follows_allocate_to : along.
Lemma follows_allocate_from order : ∀ on surplus, follows (allocate_from order on surplus) (allocate_from order on surplus).
Proof using Hterms Hsame. induction order as [|x rest IH]; intros on surplus; cbn [allocate_from]; along. Qed.
#[local] Hint Resolve follows_allocate_from : along.
Lemma follows_allocate on : follows (allocate on) (allocate on).
Proof using Hterms Hsame. unfold allocate. along. Qed.
#[local] Hint Resolve follows_allocate : along.
Lemma follows_incomeAfter d : follows (incomeAfter d) (incomeAfter d).
Proof using Hterms Hsame. unfold incomeAfter. along. Qed.
#[local] Hint Resolve follows_incomeAfter : along.
Lemma follows_firstIncome : follows firstIncome firstIncome.
Proof using Hterms Hsame. unfold firstIncome. along. Qed.
#[local] Hint Resolve follows_firstIncome : along.
Lemma follows_income on : follows (income on) (income on).
Proof using Hterms Hsame. unfold income. along. Qed.
#[local] Hint Resolve follows_income : along.
Lemma follows_ensure_cycle on : follows (ensure_cycle on) (ensure_cycle on).
Proof using Hterms Hsame. unfold ensure_cycle. along. Qed.
#[local] Hint Resolve follows_ensure_cycle : along.
Lemma follows_receive u event : follows (receive u event) (receive u event).
Proof using Hterms Hsame. unfold receive. along. Qed.
#[local] Hint Resolve follows_receive : along.
Lemma follows_receiveRoutedDate on : follows (receiveRoutedDate on) (receiveRoutedDate on).
Proof using Hterms Hsame. unfold receiveRoutedDate. along. Qed.
#[local] Hint Resolve follows_receiveRoutedDate : along.
Lemma follows_lump k : follows (lump k) (lump k).
Proof using Hterms Hsame. unfold lump. along. Qed.
#[local] Hint Resolve follows_lump : along.
Lemma follows_due_income on : follows (due_income on) (due_income on).
Proof using Hterms Hsame. unfold due_income. along. Qed.
#[local] Hint Resolve follows_due_income : along.
Lemma follows_due_amounts k on : follows (due_amounts k on) (due_amounts k on).
Proof using Hterms Hsame. unfold due_amounts. along. Qed.
#[local] Hint Resolve follows_due_amounts : along.
Lemma follows_settle_due k on interest required : follows (settle_due k on interest required) (settle_due k on interest required).
Proof using Hterms Hsame. unfold settle_due. along. Qed.
#[local] Hint Resolve follows_settle_due : along.
Lemma follows_check_due k on required : follows (check_due k on required) (check_due k on required).
Proof using Hterms Hsame. unfold check_due. along. Qed.
#[local] Hint Resolve follows_check_due : along.
Lemma follows_refresh_or_raise k : follows (refresh_or_raise k) (refresh_or_raise k).
Proof using Hterms Hsame. unfold refresh_or_raise. along. Qed.
#[local] Hint Resolve follows_refresh_or_raise : along.
Lemma follows_pay_pending k on : follows (pay_pending k on) (pay_pending k on).
Proof using Hterms Hsame. unfold pay_pending. along. Qed.
#[local] Hint Resolve follows_pay_pending : along.
Lemma follows_after_due k on : follows (after_due k on) (after_due k on).
Proof using Hterms Hsame. unfold after_due. along. Qed.
#[local] Hint Resolve follows_after_due : along.
Lemma follows_due_now k on : follows (due_now k on) (due_now k on).
Proof using Hterms Hsame. unfold due_now. along. Qed.
#[local] Hint Resolve follows_due_now : along.
Lemma follows_due k on : follows (due k on) (due k on).
Proof using Hterms Hsame. unfold due. along. Qed.
#[local] Hint Resolve follows_due : along.
Lemma follows_open_period p start : follows (open_period p start) (open_period p start).
Proof using Hterms Hsame. unfold open_period. along. Qed.
#[local] Hint Resolve follows_open_period : along.
Lemma follows_release_cash : follows release_cash release_cash.
Proof using Hterms Hsame. unfold release_cash. along. Qed.
#[local] Hint Resolve follows_release_cash : along.
Lemma follows_turn_cycle on : follows (turn_cycle on) (turn_cycle on).
Proof using Hterms Hsame. unfold turn_cycle. along. Qed.
#[local] Hint Resolve follows_turn_cycle : along.
Lemma follows_period on : follows (period on) (period on).
Proof using Hterms Hsame. unfold period. along. Qed.
#[local] Hint Resolve follows_period : along.
Lemma follows_handle c : follows (handle c) (handle c).
Proof using Hterms Hsame. unfold handle. along. Qed.
#[local] Hint Resolve follows_handle : along.

(** ** The run *)

Lemma follows_result {A} (k k' : Result → M A) :
  (∀ r, follows (k r) (k' (set ResPolicy (λ _, pol') r))) → follows (gets s_res ≫= k) (gets s_res ≫= k').
Proof using Type. intros Hk s m Hs. unfold mbind, M_bind, gets. by apply Hk. Qed.

Lemma follows_invariant {A} f : follows (invariant f : M (perror + A)) (invariant f).
Proof using Type. unfold invariant. along. Qed.
#[local] Hint Resolve follows_invariant : along.

Lemma follows_conserve : follows conserve conserve.
Proof using Hterms Hsame.
  unfold conserve. do 2 (apply follows_bind; [along|intros ?]). apply follows_result. intros r.
  change (Timeline (set ResPolicy (λ _, pol') r)) with (Timeline r). along.
Qed.

Lemma follows_loop fuel : follows (loop fuel) (loop fuel).
Proof using Hterms Hsame.
  induction fuel as [|fuel IH]; cbn [loop]; [by intros s m Hs|].
  apply follows_bind; [along|intros []]; [along|]. apply follows_bind; [along|intros c].
  apply follows_bind; [along|intros []]; [along|]. along.
Qed.

Lemma follows_add_loan k p :
  Loans i !! k = Some p → follows (add_loan pol k p) (add_loan pol' k p).
Proof using Hterms Hsame.
  intros Hk. unfold add_loan. apply follows_zero. rewrite <- (sc_start i pol pol' Hsame) by done.
  set (l := start_loan pol (Zero (in_currency i)) k p).
  assert (known i l ∧ cur (l_balance l) = in_currency i) as [Hl Hb].
  { apply list_elem_of_lookup_2 in Hk. split; [|by apply (ct_currency i Hterms)].
    split; [done|done|right; by apply (ct_currency i Hterms)|by left]. }
  unfold and_then.
  apply (follows_bind_with (λ r, ∀ l', r = inr l' → known i l' ∧ cur (l_balance l') = in_currency i)).
  - destruct (Sign (PosBalance p) <=? 0); along.
  - intros s m r t Hs H. destruct (Sign (PosBalance p) <=? 0).
    + apply ret_Ok in H as [-> _]. intros l' [= <-]. split; [|done]. by destruct Hl.
    + rewrite refreshed_eq in H. destruct (next_follows l s m Hl Hs) as (m1 & m2 & E1 & _ & _). rewrite E1 in H.
      destruct (fresh l) as [o|e|w] eqn:Eo; [|by injection H as <- _|done]. injection H as <- _.
      intros l' [= <-]. split; [by apply refresh_known|done].
  - intros [e|l'] Hl'; [along|]. destruct (Hl' l' eq_refl) as [Hk' Hb']. apply follows_bind; [|intros ?; along].
    apply follows_modify; [done|]. intros s m [Hin Hcu Hp Hls Hm Ho]. split; try done. cbn. apply Forall_app.
    split; [done|]. by constructor.
Qed.

Lemma follows_add_loans ps : ∀ k,
  (∀ j p, ps !! j = Some p → Loans i !! (k + j)%nat = Some p) → follows (add_loans pol k ps) (add_loans pol' k ps).
Proof using Hterms Hsame.
  induction ps as [|p ps IH]; intros k Hk; cbn [add_loans]; [along|].
  apply follows_and_then; [apply follows_add_loan; rewrite <- (Nat.add_0_r k); by apply Hk|intros ?].
  apply IH. intros j q Hj. specialize (Hk (S j) q Hj). by rewrite Nat.add_succ_comm.
Qed.

Lemma follows_add_lump u event : follows (add_lump u event) (add_lump u event).
Proof using Hterms Hsame. unfold add_lump. along. Qed.
#[local] Hint Resolve follows_add_lump follows_conserve follows_loop : along.

Lemma follows_setup : follows setup setup.
Proof using Hterms Hsame.
  unfold setup. apply (follows_bind_with (λ inp, inp = i)); [along|intros s m a t Hs [-> ->]%gets_Ok; by apply Hs|].
  intros ? ->. apply (follows_policy (λ p, p)). apply follows_and_then; [by apply follows_add_loans|intros ?]. along.
Qed.

(** The answers: the same, but for the policy they are filed under. *)
Definition filed_under (r : perror + Result) : perror + Result :=
  match r with inl e => inl e | inr r => inr (set ResPolicy (λ _, pol') r) end.
Definition answers (x y : M (perror + Result)) : Prop := ∀ s m, sound s m →
  match x s, y (other m s) with
  | Ok (r, t), Ok (r', u) => r' = filed_under r ∧ ∃ m', u = other m' t ∧ sound t m'
  | Err e, Err e' => e = e'
  | Panic w, Panic w' => w = w'
  | _, _ => False
  end.

Lemma answers_bind {A} (x y : M A) k k' : follows x y → (∀ a, answers (k a) (k' a)) → answers (x ≫= k) (y ≫= k').
Proof using Type.
  intros Hx Hk s m Hs. specialize (Hx s m Hs). unfold mbind, M_bind.
  destruct (x s) as [[a t]|e|w], (y (other m s)) as [[b u]|e'|w']; try done.
  destruct Hx as (<- & m' & -> & Ht). by apply Hk.
Qed.
Lemma answers_and_then {A} (x y : M (perror + A)) k k' :
  follows x y → (∀ a, answers (k a) (k' a)) → answers (and_then x k) (and_then y k').
Proof using Type.
  intros Hx Hk. unfold and_then. apply answers_bind; [done|]. intros [e|a]; [|done].
  intros s m Hs. split; [done|]. by exists m.
Qed.

Lemma answers_simulate : answers simulate simulate.
Proof using Hterms Hsame.
  unfold simulate. apply answers_and_then; [apply follows_setup|intros ?]. apply answers_bind; [along|intros w].
  apply answers_and_then; [along|intros ?]. unfold finish. do 4 (apply answers_bind; [along|intros ?]).
  apply answers_and_then; [along|intros ?]. intros s m Hs. split; [done|]. by exists m.
Qed.
End TwoRuns.

(** * Whole runs *)

Definition remembered (i : Input) (c : cache) : Prop := remembers (known i) c.
Lemma remembered_new i : remembered i newCache.
Proof. apply remembers_new. Qed.

Lemma sound_start i pol c c' sink delay :
  remembered i c → remembered i c' → sound i pol (start i pol c sink delay) c'.
Proof. intros H H'. by split. Qed.

Lemma other_start i pol pol' c c' sink delay :
  other pol' c' (start i pol c sink delay) = start i pol' c' sink delay.
Proof. done. Qed.

(** One run against the other: the answer, up to the policy it is filed under,
    and what is remembered after it. *)
Definition same_answers (i : Input) (pol' : PlanInput.Policy)
    (x y : result stop ((perror + Result) * (cache * option (list Action)))) : Prop :=
  match x, y with
  | Ok (r, (c, sink)), Ok (r', (c', sink')) =>
      r' = filed_under pol' r ∧ sink' = sink ∧ remembered i c ∧ remembered i c'
  | Err e, Err e' => e = e'
  | Panic w, Panic w' => w = w'
  | _, _ => False
  end.

(** C26. A run depends on nothing but the plan and what the policy decides. Lend it
    another memo, as long as both remember what a fresh projection would say,
    or hand it another policy that decides the same, and it pays the same
    amounts on the same days: the result differs only in the policy it is filed
    under, and errors and panics are the same ones. Both memos remember the
    truth afterwards. The terms of the plan are clear: contracts with one
    fingerprint are one contract, and debts are in the plan's currency. *)
Theorem run_alike i pol pol' c c' sink delay :
  clear_terms i → same_choices i pol pol' → remembered i c → remembered i c' →
  same_answers i pol' (runConfigured i pol c sink delay) (runConfigured i pol' c' sink delay).
Proof.
  intros Ht Hsame Hc Hc'. unfold runConfigured. destruct (Input_Validate i); [|done..].
  rewrite <- (sc_covers i pol pol' Hsame). destruct (covers i pol); [|done]. cbn [negb].
  pose proof (answers_simulate i pol pol' Ht Hsame _ _ (sound_start i pol c c' sink delay Hc Hc')) as H.
  rewrite other_start in H.
  destruct (simulate (start i pol c sink delay)) as [[r s]|e|w],
    (simulate (start i pol' c' sink delay)) as [[r' s']|e'|w']; try done.
  destruct H as (-> & m' & -> & []). done.
Qed.

Lemma run_same i pol pol' c c' :
  clear_terms i → same_choices i pol pol' → remembered i c → remembered i c' →
  match run i pol c, run i pol' c' with
  | Ok (r, c), Ok (r', c') => r' = filed_under pol' r ∧ remembered i c ∧ remembered i c'
  | Err e, Err e' => e = e'
  | Panic w, Panic w' => w = w'
  | _, _ => False
  end.
Proof.
  intros Ht Hsame Hc Hc'. pose proof (run_alike i pol pol' c c' None 0 Ht Hsame Hc Hc') as H. unfold run.
  destruct (runConfigured i pol c None 0) as [[r [c1 sk]]|e|w], (runConfigured i pol' c' None 0) as [[r' [c2 sk']]|e'|w'];
    try done. by destruct H as (-> & _ & ? & ?).
Qed.

(** A result is filed under the policy that was run. *)
Lemma filed_own i pol c r c' :
  clear_terms i → remembered i c → run i pol c = Ok (r, c') → filed_under pol r = r.
Proof.
  intros Ht Hc H. pose proof (run_same i pol pol c c Ht (same_choices_refl i pol) Hc Hc) as Hr.
  rewrite H in Hr. symmetry. apply Hr.
Qed.

(** The memo a run is lent does not matter. *)
Lemma run_fresh i pol c :
  clear_terms i → remembered i c →
  match run i pol c with
  | Ok (r, c') => Run i pol = Ok r ∧ remembered i c'
  | Err e => Run i pol = Err e
  | Panic w => Run i pol = Panic w
  end.
Proof.
  intros Ht Hc. pose proof (run_same i pol pol newCache c Ht (same_choices_refl i pol) (remembered_new i) Hc) as H.
  unfold Run. destruct (run i pol newCache) as [[r c1]|e|w] eqn:E, (run i pol c) as [[r' c2]|e'|w'] eqn:E'; try done;
    [|by rewrite H..]. destruct H as (-> & _ & H2). split; [|done]. f_equal. symmetry.
  by apply (filed_own i pol newCache r c1 Ht (remembered_new i)).
Qed.

(** Nor does the name of the policy, or how it spells what the contract decides. *)
Lemma Run_same i pol pol' :
  clear_terms i → same_choices i pol pol' →
  match Run i pol, Run i pol' with
  | Ok r, Ok r' => r' = filed_under pol' r
  | Err e, Err e' => e = e'
  | Panic w, Panic w' => w = w'
  | _, _ => False
  end.
Proof.
  intros Ht Hs. pose proof (run_same i pol pol' newCache newCache Ht Hs (remembered_new i) (remembered_new i)) as H.
  unfold Run. destruct (run i pol newCache) as [[r c1]|e|w], (run i pol' newCache) as [[r' c2]|e'|w']; try done.
  by destruct H.
Qed.

(** Two spellings of one policy on one loan, the second after the first on the
    same memo. *)
Definition spelt (name : string) (e : PrepaymentEffect) : PlanInput.Policy :=
  PlanInput.MkPolicy false name [0%nat] [OnReceipt] [e] RollFreed no_amount.
Definition memo_plan : Input := quoted_plan (MkDate 2024 3 15).

Lemma memo_terms : clear_terms memo_plan.
Proof.
  split.
  - intros p q Hp%list_elem_of_singleton Hq%list_elem_of_singleton _. by rewrite Hp, Hq.
  - intros p Hp%list_elem_of_singleton. by rewrite Hp.
Qed.
Lemma spelt_same : same_choices memo_plan (spelt "order" PrepayBorrowerChooses) (spelt "avalanche" PrepayShortenTerm).
Proof. split; try done; [by left|]. intros z [|[|k]] pos [= <-]. done. Qed.

Definition settles_in (m : result stop ((perror + Result) * (cache * option (list Action)))) : option (Z * string) :=
  match m with Ok (inr r, _) => Some (Months r, PolName (ResPolicy r)) | _ => None end.

Lemma run_alike_witness :
  let first := runConfigured memo_plan (spelt "order" PrepayBorrowerChooses) newCache None 0 in
  let memo := match first with Ok (_, (c, _)) => c | _ => newCache end in
  let second := runConfigured memo_plan (spelt "avalanche" PrepayShortenTerm) memo None 0 in
  settles_in first = Some (6, "order"%string) ∧ same_answers memo_plan (spelt "avalanche" PrepayShortenTerm) first second.
Proof.
  intros first memo. cbv zeta. split; [vm_compute; reflexivity|].
  assert (remembered memo_plan memo) as Hm.
  { pose proof (run_alike memo_plan (spelt "order" PrepayBorrowerChooses) (spelt "order" PrepayBorrowerChooses) newCache newCache
      None 0 memo_terms (same_choices_refl _ _) (remembered_new _) (remembered_new _)) as H.
    unfold memo, first. destruct (runConfigured _ _ _ _ _) as [[r [c sk]]|e|w]; [apply H|apply remembered_new..]. }
  exact (run_alike memo_plan (spelt "order" PrepayBorrowerChooses) (spelt "avalanche" PrepayShortenTerm) newCache memo None 0
    memo_terms spelt_same (remembered_new _) Hm).
Defined.
