(* ===== verification/Ladder.v ===== *)
(** The budget ladder and its inverse, [pkg/core/plan/ladder.go]: what a budget
    buys, and what budget buys a date. Both ask the simulator again, through
    one memo.

    [BudgetFor] is shown to end with a budget that pays everything off by the
    date, one settlement unit less of which does not, or with the one refusal its
    case calls for; its bisection never runs out of fuel. *)
From S2P Require Import Prelude Money Dates Model Allocation Schedule Solve Calendar Fees PlanBase PlanInput SimState Effects Answer Sim SimLogic Quotes Obligations Memo.

(** * The memo and the simulator as steps *)

Definition memo_next (l : loanState) : Step cache obligation := λ m,
  match cache_next m l with
  | (m, Ok o) => Ok (inr o, m)
  | (m, Err e) => Ok (inl e, m)
  | (_, Panic w) => Panic w
  end.
Definition runs_of (i : Input) (pol : PlanInput.Policy) : Step cache Result := run i pol.

(** * What is required now *)

(** The [&loanState] literal: the position, quoted under lower instalments. *)
Definition standing_loan (l : Position) : loanState :=
  MkLoanState l (fingerprint (PosContract l)) PrepayReduceInstalment OnDue (PosBalance l) no_amount (From l)
    no_amount zero_date no_amount no_amount ∅ false zero_date no_amount no_amount no_amount false no_amount.

Definition add_required (total : Amount) (l : Position) : Step cache Amount :=
  if Sign (PosBalance l) <=? 0 then mret total
  else o ← memo_next (standing_loan l); calls (core (Add total (o_required o))).

Definition requiredNow (i : Input) : Step cache Amount := fold_steps add_required (Zero (in_currency i)) (Loans i).

(** * The minimum *)

Definition minimum_policy (n : nat) : PlanInput.Policy :=
  PlanInput.MkPolicy true "minimum" (identity n) (uniform n OnDue) (uniform n PrepayReduceInstalment) KeepFreed no_amount.

(** The cash plan of the minimum: the required total each month. *)
Definition minimum_cash (cash : CashPlan) (req : Amount) : CashPlan :=
  MkCashPlan zero_date None req (PayDay cash) (OpeningCash cash) no_amount [] (MonthlyOverrides cash).
Definition with_cash (i : Input) (cash : CashPlan) : Input := MkInput (ValuationDate i) cash (Loans i) (Horizon i).
Definition with_minimum_prepay (pol : PlanInput.Policy) (a : Amount) : PlanInput.Policy :=
  PlanInput.MkPolicy (RequiredOnly pol) (PolName pol) (Order pol) (PolTiming pol) (PolEffect pol) (PolRollover pol) a.

Definition minimum (i : Input) : Step cache Result :=
  let pol := minimum_policy (length (Loans i)) in
  if SeparateSpending (Cash i) then runs_of i pol
  else
    req ← requiredNow i;
    runs_of (with_cash i (minimum_cash (Cash i) req)) (with_minimum_prepay pol (FromMinor (2 ^ 62) (cur req))).

(** * The ladder *)

Definition with_monthly (i : Input) (b : Amount) : Input :=
  let c := Cash i in
  with_cash i (MkCashPlan (CashThrough c) (Spending c) b (PayDay c) (OpeningCash c) (ReserveFloor c) (Lumps c)
    (MonthlyOverrides c)).

Definition rung_budget (i : Input) (pct : Z) : Amount :=
  let cr := in_currency i in
  Quantise (FromMinor (Z.quot (imul (minor (Monthly (Cash i))) pct) 100) cr) (DefaultPolicy cr).

Definition add_rung (i : Input) (pol : PlanInput.Policy) (out : list Rung) (pct : Z) : Step cache (list Rung) :=
  let b := rung_budget i pct in
  r ← tried (runs_of (with_monthly i b) pol);
  match r with
  | inl e => if isInfeasible e then mret out else refuse e
  | inr r => mret (out ++ [MkRung b (Months r) (PayoffDate r) (ResInterest r)])
  end.

Definition ladder (i : Input) (pol : PlanInput.Policy) : Step cache (list Rung) :=
  fold_steps (add_rung i pol) [] [100; 110; 125; 150; 200].

(** * The inverse *)

Definition non_monotone {A} (reason : string) : pres A := Err (NonMonotoneError reason).

(** The effect a prepayment would have: the contract's, or the policy's. *)
Definition inverse_effect (c : Contract) (pol : PlanInput.Policy) : res PrepaymentEffect :=
  if bool_decide (Effect (Prepayment c) = PrepayBorrowerChooses)
  then match PolEffect pol with e :: _ => Ok e | [] => Panic "index out of range [0] with length 0" end
  else Ok (Effect (Prepayment c)).

(** What is asked of the one loan. *)
Definition inverse_loan (i : Input) (pol : PlanInput.Policy) (p : Position) : pres unit :=
  let c := PosContract p in
  if negb (NominalRate c =? 0) then non_monotone "rounded interest is outside the proven domain"
  else if negb (FeeBP (Prepayment c) =? 0) || negb (Nat.eqb (length (Charges (Prepayment c))) 0) ||
    negb (Sign (MinAmount (Prepayment c)) =? 0)
  then non_monotone "prepayment fees or thresholds"
  else
    e ← core (inverse_effect c pol);
    if negb (bool_decide (Type_ c = Annuity)) || bool_decide (e = PrepayReduceInstalment) || OptionalExcluded p ||
      negb (bool_decide (Excess p = ExcessReducePrincipal))
    then non_monotone "requires fixed instalments and unrestricted principal reduction"
    else
      let rounding := DefaultPolicy (in_currency i) in
      b ← (if negb (bool_decide (Rounding c = rounding)) || (Sign (PosBalance p) <? 0) then Ok 1
           else irem (minor (PosBalance p)) (Unit rounding));
      s ← (if negb (b =? 0) || negb (HasScheduled c) || (Sign (ScheduledPayment c) <=? 0) then Ok 1
           else irem (minor (ScheduledPayment c)) (Unit rounding));
      if negb (s =? 0) then non_monotone "requires quantum-aligned principal and supplied instalment"
      else
        match PolTiming pol with
        | [] => Panic "index out of range [0] with length 0"
        | t :: _ =>
            if negb (bool_decide (t = OnDue)) || negb (PayDay (Cash i) =? 0) || negb (Equal (From p) (ValuationDate i))
            then non_monotone "requires funding and payment on the due calendar without anchor advancement"
            else Ok tt
        end.

Definition inverseDomain (i : Input) (pol : PlanInput.Policy) : pres unit :=
  let cash := Cash i in
  let n := length (Loans i) in
  if negb (Dates.IsZero (CashThrough cash)) || SeparateSpending cash || negb (bool_decide (MonthlyOverrides cash = ∅)) ||
    negb (Nat.eqb (length (Lumps cash)) 0) || negb (Sign (OpeningCash cash) =? 0) || negb (Sign (ReserveFloor cash) =? 0)
  then non_monotone "funding or spending varies independently of the budget"
  else if negb (bool_decide (PolRollover pol = RollFreed)) || RequiredOnly pol || negb (Sign (MinPrepay pol) =? 0)
  then non_monotone "rollover, required-only policy or batching"
  else if negb (Nat.eqb (length (Order pol)) n) || negb (Nat.eqb (length (PolTiming pol)) n) ||
    negb (Nat.eqb (length (PolEffect pol)) n)
  then non_monotone "policy dimensions"
  else
    match Loans i, Order pol with
    | [p], [o] => if negb (Nat.eqb o 0) then non_monotone "priority must be a permutation" else inverse_loan i pol p
    | _, _ => non_monotone "multiple-loan allocation is unproven"
    end.

(** The closures [clears] and [miss]. *)
Definition clears (i : Input) (pol : PlanInput.Policy) (by_ : Date) (b : Amount) : Step cache bool :=
  r ← runs_of (with_monthly i b) pol; mret (negb (After (PayoffDate r) by_)).
Definition is_horizon (e : perror) : bool := match e with Core g => errors_Is g ErrHorizon | _ => false end.
Definition miss (m : Step cache bool) : Step cache bool :=
  r ← tried m;
  match r with
  | inl e => if negb (isInfeasible e) && negb (is_horizon e) then refuse e else mret true
  | inr ok => mret (negb ok)
  end.

Fixpoint narrow (fuel : nat) (failed : Z → Step cache bool) (l h : Z) : Step cache Z :=
  if l <? h
  then match fuel with
    | O => λ _, Err OutOfFuel
    | S fuel =>
        let mid := iadd l (Z.quot (isub h l) 2) in
        bad ← failed mid;
        match bad with true => narrow fuel failed (iadd mid 1) h | false => narrow fuel failed l mid end
    end
  else mret h.

(** [hi] in whole settlement units, rounded up. *)
Definition units_up (hi : Amount) (unit : Z) : pres Z :=
  h ← idiv (minor hi) unit; r ← irem (minor hi) unit;
  Ok (if negb (r =? 0) then iadd h 1 else h).

Definition add_balance (hi : Amount) (l : Position) : Step cache Amount := calls (core (Add hi (PosBalance l))).

(** The search between nothing and [h] units, checked at both ends. *)
Definition search_units (i : Input) (pol : PlanInput.Policy) (by_ : Date) (unit h : Z) : Step cache Amount :=
  let units k := FromMinor (imul k unit) (in_currency i) in
  ok ← clears i pol by_ (units h);
  match ok with
  | false => calls (fails "plan: inverse budget bound misses target")
  | true =>
      h ← narrow 64 (λ k, miss (clears i pol by_ (units k))) 0 h;
      ok ← clears i pol by_ (units h);
      match ok with
      | false => calls (non_monotone "result budget misses target")
      | true =>
          failed ← (if 0 <? h then miss (clears i pol by_ (units (isub h 1))) else mret true);
          match failed with
          | false => calls (non_monotone "one quantum less also succeeds")
          | true => mret (units h)
          end
      end
  end.

Definition budget_for (norm : Input) (pol : PlanInput.Policy) (by_ : Date) : Step cache Amount :=
  hi ← requiredNow norm;
  hi ← fold_steps add_balance hi (Loans norm);
  let unit := Unit (DefaultPolicy (in_currency norm)) in
  h ← calls (units_up hi unit);
  most ← calls (idiv MaxInt64 unit);
  if most <? h then calls (fails "plan: inverse budget bound overflow")
  else search_units norm pol by_ unit h.

Definition BudgetFor (i : Input) (pol : PlanInput.Policy) (by_ : Date) : result stop (perror + Amount) :=
  match Normalize i with
  | Panic w => Panic w
  | Err e => Ok (inl e)
  | Ok (norm, _) =>
      if Dates.IsZero by_ || Before by_ (ValuationDate norm)
      then Ok (inl (Core (Errorf "plan: invalid inverse target date")))
      else
        match inverseDomain norm pol with
        | Panic w => Panic w
        | Err e => Ok (inl e)
        | Ok _ => match budget_for norm pol by_ newCache with Ok (r, _) => Ok r | Err e => Err e | Panic w => Panic w end
        end
  end.

(** * Asking through a memo *)

(** What a memoised step answers, whatever is remembered. *)
Definition tells_truth {A} (i : Input) (x : Step cache A) (v : result stop (perror + A)) : Prop :=
  ∀ c, remembered i c →
    match x c with
    | Ok (r, c') => v = Ok r ∧ remembered i c'
    | Err e => v = Err e
    | Panic w => v = Panic w
    end.

Definition pays_off_by (i : Input) (pol : PlanInput.Policy) (by_ : Date) (b : Amount) : result stop (perror + bool) :=
  match Run (with_monthly i b) pol with
  | Ok (inr r) => Ok (inr (negb (After (PayoffDate r) by_)))
  | Ok (inl e) => Ok (inl e)
  | Err e => Err e
  | Panic w => Panic w
  end.
Definition falls_short (i : Input) (pol : PlanInput.Policy) (by_ : Date) (b : Amount) : result stop (perror + bool) :=
  match pays_off_by i pol by_ b with
  | Ok (inr ok) => Ok (inr (negb ok))
  | Ok (inl e) => Ok (if negb (isInfeasible e) && negb (is_horizon e) then inl e else inr true)
  | Err e => Err e
  | Panic w => Panic w
  end.

Section Asking.
Context (i : Input) (pol : PlanInput.Policy) (by_ : Date) (Ht : clear_terms i).

Lemma clear_monthly b : cur b = in_currency i → clear_terms (with_monthly i b).
Proof using Ht. intros Hb. destruct Ht as [H1 H2]. split; [done|]. intros p Hp. change (in_currency (with_monthly i b)) with (cur b). rewrite Hb. by apply H2. Qed.
Lemma remembered_monthly b c : cur b = in_currency i → remembered (with_monthly i b) c ↔ remembered i c.
Proof using Type.
  intros Hb. assert (∀ l, known (with_monthly i b) l ↔ known i l) as Hk.
  { intros l. split; intros [Hp Hf Hba Hca]; split; try done; cbn in *; unfold in_currency in *; cbn in *; congruence. }
  split; intros [Ho Hc]; split; intros l x Hl; [apply Ho|apply Hc|apply Ho|apply Hc]; by apply Hk.
Qed.

Lemma clears_truth b : cur b = in_currency i → tells_truth i (clears i pol by_ b) (pays_off_by i pol by_ b).
Proof using Ht.
  intros Hb c Hc. unfold clears, runs_of, mbind, Step_bind, pays_off_by.
  pose proof (run_fresh (with_monthly i b) pol c (clear_monthly b Hb) (proj2 (remembered_monthly b c Hb) Hc)) as H.
  destruct (run (with_monthly i b) pol c) as [[[e|r] c']|e|w]; [| |by rewrite H..];
    destruct H as [-> H%(remembered_monthly b c' Hb)]; done.
Qed.

Lemma miss_truth b : cur b = in_currency i → tells_truth i (miss (clears i pol by_ b)) (falls_short i pol by_ b).
Proof using Ht.
  intros Hb c Hc. pose proof (clears_truth b Hb c Hc) as H. unfold miss, tried, mbind, Step_bind, falls_short.
  destruct (clears i pol by_ b c) as [[[e|ok] c']|e|w]; [| |by rewrite H..]; destruct H as [-> H]; [|done].
  by destruct (negb (isInfeasible e) && negb (is_horizon e)).
Qed.
End Asking.

(** * The bisection *)

Lemma narrow_stop fuel failed l h c : h ≤ l → narrow fuel failed l h c = Ok (inr h, c).
Proof. intros Hh. destruct fuel; cbn [narrow]; by rewrite (proj2 (Z.ltb_ge l h)). Qed.

Section Narrowing.
Context (i : Input) (failed : Z → Step cache bool) (short : Z → result stop (perror + bool)).
Context (Hf : ∀ k, tells_truth i (failed k) (short k)).

(** Between a miss, or nothing, below and an answer above. *)
Lemma narrow_spec fuel : ∀ l h c,
  remembered i c → 0 ≤ l ≤ h → h ≤ MaxInt64 → h - l < 2 ^ Z.of_nat fuel →
  match narrow fuel failed l h c with
  | Ok (inr r, c') => remembered i c' ∧ l ≤ r ≤ h ∧ (r = h ∨ short r = Ok (inr false)) ∧ (r = l ∨ short (r - 1) = Ok (inr true))
  | Ok (inl e, _) => ∃ k, l ≤ k < h ∧ short k = Ok (inl e)
  | Err e => ∃ k, l ≤ k < h ∧ short k = Err e
  | Panic w => ∃ k, l ≤ k < h ∧ short k = Panic w
  end.
Proof using Hf.
  induction fuel as [|fuel IH]; intros l h c Hc Hl Hh Hgap.
  { change (2 ^ Z.of_nat 0) with 1 in Hgap. cbn [narrow]. destruct (Z.ltb_spec l h); [lia|].
    split; [done|]. split; [lia|]. split; [by left|left; lia]. }
  cbn [narrow]. destruct (Z.ltb_spec l h) as [Hlt|]; [|split; [done|]; split; [lia|]; split; [by left|left; lia]].
  rewrite Nat2Z.inj_succ, Z.pow_succ_r in Hgap by lia.
  unfold isub, iadd. rewrite Z.quot_div_nonneg; [|rewrite i64_id by (unfold_i64; lia); lia|lia].
  rewrite (i64_id (h - l)) by (unfold_i64; lia).
  assert (l ≤ l + (h - l) / 2 < h) as Hmid by (Z.div_mod_to_equations; lia).
  assert (h - (l + (h - l) / 2) ≤ 2 ^ Z.of_nat fuel) as Hg1 by (Z.div_mod_to_equations; lia).
  assert ((l + (h - l) / 2) - l < 2 ^ Z.of_nat fuel) as Hg2 by (Z.div_mod_to_equations; lia).
  rewrite (i64_id (l + (h - l) / 2)) by (unfold_i64; lia). set (mid := l + (h - l) / 2) in *.
  rewrite (i64_id (mid + 1)) by (unfold_i64; lia). unfold mbind, Step_bind. pose proof (Hf mid c Hc) as Hmf.
  destruct (failed mid c) as [[[e|bad] c']|e|w]; [|destruct bad|exists mid; split; [lia|done]..].
  - exists mid. split; [lia|]. by destruct Hmf as [-> _].
  - destruct Hmf as [Hbad Hc']. specialize (IH (mid + 1) h c' Hc' ltac:(lia) Hh ltac:(lia)).
    destruct (narrow fuel failed (mid + 1) h c') as [[[e|r] c2]|e|w];
      [destruct IH as (k & Hk & IH); exists k; split; [lia|done]| |destruct IH as (k & Hk & IH); exists k; split; [lia|done]..].
    destruct IH as (H1 & H2 & H3 & H4). split; [done|]. split; [lia|]. split; [done|]. right.
    destruct H4 as [-> |]; [|done]. by rewrite Z.add_simpl_r.
  - destruct Hmf as [Hgood Hc']. specialize (IH l mid c' Hc' ltac:(lia) ltac:(lia) ltac:(lia)).
    destruct (narrow fuel failed l mid c') as [[[e|r] c2]|e|w];
      [destruct IH as (k & Hk & IH); exists k; split; [lia|done]| |destruct IH as (k & Hk & IH); exists k; split; [lia|done]..].
    destruct IH as (H1 & H2 & H3 & H4). split; [done|]. split; [lia|]. split; [|done]. right.
    by destruct H3 as [-> |].
Qed.
End Narrowing.

(** * The answer of the inverse *)

Section Inverse.
Context (i : Input) (pol : PlanInput.Policy) (by_ : Date) (Ht : clear_terms i) (unit : Z).
Let units (k : Z) : Amount := FromMinor (imul k unit) (in_currency i).

(** What the search answers once the bound is known to do. *)
Definition least_or_refused (h : Z) (out : result stop (perror + Amount)) : Prop :=
  match out with
  | Ok (inr b) => ∃ k, Z.min 0 h ≤ k ≤ h ∧ b = units k ∧ pays_off_by i pol by_ (units k) = Ok (inr true) ∧
      (k ≤ 0 ∨ falls_short i pol by_ (units (k - 1)) = Ok (inr true))
  | Ok (inl e) => ∃ k, 0 ≤ k < h ∧ pays_off_by i pol by_ (units k) = Ok (inl e) ∧ isInfeasible e = false ∧ is_horizon e = false
  | Err e => ∃ k, 0 ≤ k < h ∧ pays_off_by i pol by_ (units k) = Err e
  | Panic w => ∃ k, 0 ≤ k < h ∧ pays_off_by i pol by_ (units k) = Panic w
  end.
Definition answer_of {A} (m : result stop ((perror + A) * cache)) : result stop (perror + A) :=
  match m with Ok (r, _) => Ok r | Err e => Err e | Panic w => Panic w end.

(** A run that neither misses nor finds the money short ends the search. *)
Lemma short_stops k : match falls_short i pol by_ (units k) with
  | Ok (inl e) => pays_off_by i pol by_ (units k) = Ok (inl e) ∧ isInfeasible e = false ∧ is_horizon e = false
  | Ok (inr false) => pays_off_by i pol by_ (units k) = Ok (inr true)
  | Ok (inr true) => True
  | Err e => pays_off_by i pol by_ (units k) = Err e
  | Panic w => pays_off_by i pol by_ (units k) = Panic w
  end.
Proof using Type.
  unfold falls_short. destruct (pays_off_by _ _ _ _) as [[e|[]]|e|w]; cbn [negb]; try done.
  destruct (isInfeasible e) eqn:E1; cbn [negb andb]; [done|]. by destruct (is_horizon e) eqn:E2; cbn [negb].
Qed.

Lemma narrow_units h c : remembered i c → h ≤ MaxInt64 →
  match narrow 64 (λ k, miss (clears i pol by_ (units k))) 0 h c with
  | Ok (inr k, c2) => remembered i c2 ∧ Z.min 0 h ≤ k ≤ h ∧ (k = h ∨ pays_off_by i pol by_ (units k) = Ok (inr true)) ∧
      (k ≤ 0 ∨ falls_short i pol by_ (units (k - 1)) = Ok (inr true))
  | Ok (inl e, _) => least_or_refused h (Ok (inl e))
  | Err e => least_or_refused h (Err e)
  | Panic w => least_or_refused h (Panic w)
  end.
Proof using Ht.
  intros Hc Hh. assert (∀ k, tells_truth i (miss (clears i pol by_ (units k))) (falls_short i pol by_ (units k))) as Hmiss.
  { intros k. by apply miss_truth. }
  destruct (Z.leb_spec 0 h); [|rewrite narrow_stop by lia; split; [done|]; split; [lia|]; split; left; lia].
  pose proof (narrow_spec i (λ k, miss (clears i pol by_ (units k))) (λ k, falls_short i pol by_ (units k)) Hmiss 64 0 h c
    Hc ltac:(lia) ltac:(lia) ltac:(unfold_i64; change (2 ^ Z.of_nat 64) with 18446744073709551616; lia)) as Hn.
  destruct (narrow 64 _ 0 h c) as [[[e|k] c2]|e|w]; cbn.
  - destruct Hn as (k & Hk & Hs). exists k. split; [done|]. pose proof (short_stops k) as H1. by rewrite Hs in H1.
  - destruct Hn as (Hc2 & Hk & Hok & Hbad). split; [done|]. split; [lia|]. split.
    + destruct Hok as [|Hok]; [by left|right]. pose proof (short_stops k) as H1. by rewrite Hok in H1.
    + destruct Hbad as [-> |]; [left; lia|by right].
  - destruct Hn as (k & Hk & Hs). exists k. split; [done|]. pose proof (short_stops k) as H1. by rewrite Hs in H1.
  - destruct Hn as (k & Hk & Hs). exists k. split; [done|]. pose proof (short_stops k) as H1. by rewrite Hs in H1.
Qed.

Lemma search_units_spec h c : remembered i c → h ≤ MaxInt64 →
  let out := answer_of (search_units i pol by_ unit h c) in
  match pays_off_by i pol by_ (units h) with
  | Ok (inr true) => least_or_refused h out
  | Ok (inr false) => out = Ok (inl (Core (Errorf "plan: inverse budget bound misses target")))
  | Ok (inl e) => out = Ok (inl e)
  | Err e => out = Err e
  | Panic w => out = Panic w
  end.
Proof using Ht.
  intros Hc Hh. cbv zeta. assert (∀ k, tells_truth i (clears i pol by_ (units k)) (pays_off_by i pol by_ (units k))) as Hclear.
  { intros k. by apply clears_truth. }
  unfold search_units, mbind, Step_bind. pose proof (Hclear h c Hc) as H1. change (FromMinor (imul h unit) (in_currency i)) with (units h).
  destruct (clears i pol by_ (units h) c) as [[[e|ok] c1]|e|w]; [destruct H1 as [-> _]; done| |by rewrite H1..].
  destruct H1 as [H1 Hc1]. rewrite H1. destruct ok; [|done].
  pose proof (narrow_units h c1 Hc1 Hh) as Hn.
  change (λ k, miss (clears i pol by_ (FromMinor (imul k unit) (in_currency i)))) with (λ k, miss (clears i pol by_ (units k))).
  destruct (narrow 64 (λ k, miss (clears i pol by_ (units k))) 0 h c1) as [[[e|k] c2]|e|w]; [exact Hn| |exact Hn..].
  destruct Hn as (Hc2 & Hk & Hok & Hbad).
  assert (pays_off_by i pol by_ (units k) = Ok (inr true)) as Hpays by (destruct Hok as [-> |]; done).
  change (FromMinor (imul k unit) (in_currency i)) with (units k). pose proof (Hclear k c2 Hc2) as H2.
  rewrite Hpays in H2. destruct (clears i pol by_ (units k) c2) as [[v c3]|e|w]; [|done..].
  destruct H2 as [[= <-] Hc3]. destruct (Z.ltb_spec 0 k) as [Hpos|Hzero].
  - unfold isub. rewrite i64_id by (unfold_i64; lia). pose proof (miss_truth i pol by_ Ht (units (k - 1)) eq_refl c3 Hc3) as H3.
    change (FromMinor (imul (k - 1) unit) (in_currency i)) with (units (k - 1)).
    destruct Hbad as [Hbad|Hbad]; [lia|]. rewrite Hbad in H3.
    destruct (miss (clears i pol by_ (units (k - 1))) c3) as [[v c4]|e|w]; [|done..].
    destruct H3 as [[= <-] _]. exists k. split; [lia|]. split; [done|]. split; [done|]. by right.
  - exists k. split; [lia|]. split; [done|]. split; [done|]. by left.
Qed.
End Inverse.

(** The total of the next instalments, and the memo after asking. *)
Lemma memo_next_truth i l : clear_terms i → known i l →
  tells_truth i (memo_next l) (match fresh l with Ok o => Ok (inr o) | Err e => Ok (inl e) | Panic w => Panic w end).
Proof.
  intros Ht Hl c Hc. unfold memo_next. destruct (cache_next c l) as [c' r] eqn:E.
  destruct (cache_next_remembers _ _ _ _ _ (known_tells i Ht) Hc Hl E) as [-> Hc']. by destruct (fresh l).
Qed.
Lemma standing_known i p : clear_terms i → p ∈ Loans i → known i (standing_loan p).
Proof. intros Ht Hp. split; [done|done|right; by apply (ct_currency i Ht)|by left]. Qed.
Lemma fresh_error l e : fresh l = Err e → ∃ g, e = Core g.
Proof.
  rewrite fresh_eq. destruct (NewCalendar (l_contract l)) as [cal|e'|w]; [|intros [= <-]; eauto|done]. unfold project_next.
  destruct (carries l); [by destruct (Calendar_Dates cal (l_from l)) as [[|d ds]|?|?]|].
  destruct (Next cal (l_balance l) (l_from l)); [done| |done]. intros [= <-]. eauto.
Qed.

(** A fold over the loans, through the memo, that fails with an error of the core. *)
Definition plain_steps {A} (i : Input) (P : A → Prop) (x : Step cache A) : Prop :=
  ∀ c, remembered i c →
    match x c with
    | Ok (inr a, c') => P a ∧ remembered i c'
    | Ok (inl e, _) => ∃ g, e = Core g
    | Err _ => False
    | Panic _ => True
    end.
Lemma fold_steps_plain {A B} i (P : B → Prop) (f : B → A → Step cache B) l :
  (∀ b a, a ∈ l → P b → plain_steps i P (f b a)) → ∀ b, P b → plain_steps i P (fold_steps f b l).
Proof.
  induction l as [|a l IH]; intros Hf b Hb c Hc; [done|]. cbn [fold_steps]. unfold mbind, Step_bind.
  pose proof (Hf b a ltac:(by left) Hb c Hc) as H1. destruct (f b a c) as [[[e|b'] c']|e|w]; [done| |done..].
  destruct H1 as [Hb' Hc']. apply IH; [|done..]. intros b0 a0 Ha0. apply Hf. by right.
Qed.
Definition whole (cr : Currency) (a : Amount) : Prop := cur a = cr ∧ wf_amount a.
Lemma calls_add_plain i cr a b : whole cr a → plain_steps i (whole cr) (calls (core (Add a b))).
Proof.
  intros [Ha _] c Hc. unfold calls. destruct (Add a b) as [r|e|w] eqn:E; [|by exists e|done].
  split; [|done]. split; [by rewrite (Add_cur _ _ _ E)|]. unfold Add in E. inv_res. case_match; [done|].
  injection E as <-. apply i64_in.
Qed.

Lemma requiredNow_plain i : clear_terms i → plain_steps i (whole (in_currency i)) (requiredNow i).
Proof.
  intros Ht. apply fold_steps_plain; [|by split]. intros total l Hl Htot c Hc. unfold add_required.
  destruct (Sign (PosBalance l) <=? 0); [done|]. unfold mbind, Step_bind.
  pose proof (memo_next_truth i (standing_loan l) Ht (standing_known i l Ht Hl) c Hc) as Hn.
  destruct (memo_next (standing_loan l) c) as [[[e|o] c']|e|w].
  - destruct Hn as [Hn _]. destruct (fresh (standing_loan l)) eqn:Ef; try done. injection Hn as ->. by eapply fresh_error.
  - destruct Hn as [_ Hc']. by apply (calls_add_plain i _ total (o_required o) Htot c' Hc').
  - destruct (fresh (standing_loan l)) eqn:Ef; done.
  - done.
Qed.

(** Rounded up, so not below what was asked for. *)
Lemma units_up_spec hi unit h :
  0 < unit → wf_amount hi → units_up hi unit = Ok h →
  in_i64 h ∧ minor hi ≤ h * unit ∧ (0 ≤ minor hi → (h - 1) * unit < minor hi).
Proof.
  intros Hu Hhi H. unfold wf_amount in Hhi. unfold units_up, idiv, irem in H. destruct (Z.eqb_spec unit 0); [lia|].
  injection H as H. pose proof (Z.quot_rem' (minor hi) unit) as Eq.
  assert (in_i64 (Z.quot (minor hi) unit)) as Hq.
  { unfold in_i64 in *. pose proof (Z.quot_le_mono MinInt64 (minor hi) unit Hu). pose proof (Z.quot_le_mono (minor hi) MaxInt64 unit Hu).
    unfold_i64. destruct (Z.le_gt_cases 0 (minor hi)).
    - rewrite !Z.quot_div_nonneg in * by lia. pose proof (Z.div_le_upper_bound (minor hi) unit (minor hi)).
      pose proof (Z.div_pos (minor hi) unit). nia.
    - pose proof (Z.quot_opp_l (minor hi) unit ltac:(lia)) as Eo. rewrite (Z.quot_div_nonneg (- minor hi)) in Eo by lia.
      pose proof (Z.div_le_upper_bound (- minor hi) unit (- minor hi)). pose proof (Z.div_pos (- minor hi) unit). nia. }
  rewrite (i64_id _ Hq) in H. pose proof (Z.rem_bound_abs (minor hi) unit ltac:(lia)) as Hr.
  destruct (Z.eqb_spec (Z.rem (minor hi) unit) 0) as [E0|]; cbn [negb] in H; subst h;
    [split; [done|]; split; [lia|nia]|].
  unfold iadd. assert (in_i64 (Z.quot (minor hi) unit + 1)) as Hq'.
  { destruct (Z.eq_dec unit 1) as [->|]; [by rewrite Z.rem_1_r in *|]. unfold in_i64 in *. unfold_i64. nia. }
  rewrite (i64_id _ Hq'). split; [done|]. split; [lia|]. intros H0.
  pose proof (Z.rem_nonneg (minor hi) unit ltac:(lia) H0). lia.
Qed.

(** The one loan of the domain. *)
Lemma inverseDomain_one i pol : inverseDomain i pol = Ok tt → ∃ p, Loans i = [p].
Proof.
  unfold inverseDomain. intros H. repeat (case_if_in H; [done|]). destruct (Loans i) as [|p [|q ls]]; [done| |done]. by exists p.
Qed.
Lemma Add_total a b : cur a = cur b → wf_amount a → wf_amount b →
  Add a b = if bool_decide (in_i64 (minor a + minor b)) then Ok (MkAmount (minor a + minor b) (cur a)) else errorf_w "%w: %d + %d" ErrOverflow.
Proof.
  intros Hc Ha Hb. case_bool_decide as Hin; [apply Add_Ok_iff; [done..|]; split_and!; [by rewrite Hc|done|done]|].
  destruct (Add a b) as [c|e|w] eqn:E.
  - apply Add_Ok_iff in E; [|done..]. by destruct E as (_ & _ & ?).
  - unfold Add, mustMatch in E. rewrite Hc in E. destruct (String.eqb_spec (Code (cur b)) (Code (cur b))); [|done].
    cbn in E. case_match; [by rewrite <- E|done].
  - unfold Add, mustMatch in E. rewrite Hc in E. destruct (String.eqb_spec (Code (cur b)) (Code (cur b))); [|done].
    cbn in E. case_match; done.
Qed.

Lemma idiv_most unit : 0 < unit → idiv MaxInt64 unit = Ok (E := perror) (MaxInt64 / unit).
Proof.
  intros Hu. unfold idiv. destruct (Z.eqb_spec unit 0); [lia|]. rewrite Z.quot_div_nonneg by (unfold_i64; lia). f_equal.
  apply i64_id. pose proof (Z.div_le_upper_bound MaxInt64 unit MaxInt64). unfold in_i64. unfold_i64. split; [|nia].
  apply Z.le_trans with 0; [lia|]. apply Z.div_pos; lia.
Qed.
Lemma units_fit unit h : 0 < unit → (MaxInt64 <? h * unit) = (MaxInt64 / unit <? h).
Proof.
  intros Hu. pose proof (Z.mul_div_le MaxInt64 unit Hu). pose proof (Z.mul_succ_div_gt MaxInt64 unit Hu).
  destruct (Z.ltb_spec MaxInt64 (h * unit)), (Z.ltb_spec (MaxInt64 / unit) h); try done; nia.
Qed.

(** C27. The smallest budget that pays by a date, and every way there is none.
    Within its domain (one interest-free loan) [BudgetFor] refuses a target date
    that is missing or before the valuation; it passes on an error of the next
    instalment; and it refuses a bound that does not fit an int64. The bound is the
    least whole number of settlement units that covers the next instalment and the
    balance together. If a run on that budget pays everything off by the date, the
    answer is the least budget of its kind that does: a whole number of units, no
    more than the bound, one unit less of which misses the date or cannot meet what
    is due, or the error of a run below the bound that is neither a shortfall nor
    the horizon. If it misses the date, the answer is that the bound misses the
    target, and if it fails, its error. All these are facts about fresh runs,
    whatever the shared memo holds: the bisection always has fuel left, and the two
    refusals that re-check the answer cannot happen. *)
Theorem BudgetFor_least i pol by_ norm assumed :
  Normalize i = Ok (norm, assumed) →
  (∀ p, p ∈ Loans norm → cur (PosBalance p) = in_currency norm ∧ wf_amount (PosBalance p)) →
  0 < SettlementUnit (in_currency norm) → inverseDomain norm pol = Ok tt →
  let unit := SettlementUnit (in_currency norm) in
  let budget k := FromMinor (k * unit) (in_currency norm) in
  let answer := BudgetFor i pol by_ in
  if Dates.IsZero by_ || Before by_ (ValuationDate norm)
  then answer = Ok (inl (Core (Errorf "plan: invalid inverse target date")))
  else match requiredNow norm newCache with
  | Ok (inl e, _) => answer = Ok (inl e) | Err e => answer = Err e | Panic w => answer = Panic w
  | Ok (inr req, _) =>
      let total := minor req + sum_by (λ p, minor (PosBalance p)) (Loans norm) in
      (¬ in_i64 total → answer = Ok (inl (Core (Wrapf "%w: %d + %d" (Sentinel ErrOverflow))))) ∧
      (in_i64 total → ∃ most, total ≤ most * unit ∧ (0 ≤ total → (most - 1) * unit < total) ∧
        if MaxInt64 <? most * unit then answer = Ok (inl (Core (Errorf "plan: inverse budget bound overflow")))
        else match pays_off_by norm pol by_ (budget most) with
        | Ok (inl e) => answer = Ok (inl e) | Err e => answer = Err e | Panic w => answer = Panic w
        | Ok (inr false) => answer = Ok (inl (Core (Errorf "plan: inverse budget bound misses target")))
        | Ok (inr true) =>
            match answer with
            | Ok (inr b) => ∃ k, Z.min 0 most ≤ k ≤ most ∧ b = budget k ∧ pays_off_by norm pol by_ b = Ok (inr true) ∧
                (k ≤ 0 ∨ falls_short norm pol by_ (budget (k - 1)) = Ok (inr true))
            | Ok (inl e) => ∃ k, 0 ≤ k < most ∧ pays_off_by norm pol by_ (budget k) = Ok (inl e) ∧
                isInfeasible e = false ∧ is_horizon e = false
            | Err e => ∃ k, 0 ≤ k < most ∧ pays_off_by norm pol by_ (budget k) = Err e
            | Panic w => ∃ k, 0 ≤ k < most ∧ pays_off_by norm pol by_ (budget k) = Panic w
            end
        end)
  end.
Proof.
  intros Hn Hcur Hunit Hdom unit budget answer. unfold answer, BudgetFor. rewrite Hn.
  destruct (Dates.IsZero by_ || Before by_ (ValuationDate norm)); [done|]. rewrite Hdom.
  destruct (inverseDomain_one _ _ Hdom) as [p Hp]. destruct (Hcur p ltac:(rewrite Hp; by left)) as [Hpc Hpw].
  assert (clear_terms norm) as Ht.
  { split; [rewrite Hp; by intros x y ->%list_elem_of_singleton ->%list_elem_of_singleton|intros q Hq; by apply Hcur]. }
  unfold budget_for, mbind, Step_bind. pose proof (requiredNow_plain norm Ht newCache (remembered_new norm)) as H1.
  destruct (requiredNow norm newCache) as [[[e|hi] c1]|e|w]; [done| |done..]. destruct H1 as [[Hhc Hhw] Hc1].
  cbv zeta. rewrite Hp. change (sum_by _ [p]) with (minor (PosBalance p) + 0). rewrite Z.add_0_r.
  cbn [fold_steps]. unfold mret, Step_ret, mbind, Step_bind, add_balance, calls. rewrite (Add_total hi (PosBalance p)) by congruence.
  split; intros Hin; [by rewrite (bool_decide_eq_false_2 _ Hin)|]. rewrite (bool_decide_eq_true_2 _ Hin).
  set (total := minor hi + minor (PosBalance p)) in *. cbn [core].
  change (Unit (DefaultPolicy (in_currency norm))) with unit in *.
  destruct (units_up (MkAmount total (cur hi)) unit) as [h|e|w] eqn:Eh; [|exfalso; unfold units_up, idiv, irem in Eh; destruct (Z.eqb_spec unit 0); [lia|done]..].
  cbv iota beta. apply units_up_spec in Eh as (Hh & Hup & Htight); [|done..]. cbn [minor] in Hup, Htight. exists h. split; [done|]. split; [done|].
  assert (idiv MaxInt64 unit = Ok (E := perror) (MaxInt64 / unit)) as Hmost by by apply idiv_most.
  rewrite Hmost.
  rewrite (units_fit unit h Hunit). destruct (MaxInt64 / unit <? h) eqn:Eover; [reflexivity|].
  assert (h * unit ≤ MaxInt64) as Hmax by (rewrite <- (units_fit unit h Hunit) in Eover; lia).
  assert (∀ k, Z.min 0 h ≤ k ≤ h → FromMinor (imul k unit) (in_currency norm) = budget k) as Hbud.
  { intros k Hk. unfold budget, imul. rewrite i64_id; [done|]. unfold in_i64 in *. unfold_i64. nia. }
  pose proof (search_units_spec norm pol by_ Ht unit h c1 Hc1 ltac:(unfold_i64; nia)) as H3. unfold least_or_refused in H3. cbv zeta beta in H3.
  rewrite (Hbud h ltac:(lia)) in H3. fold (answer_of (search_units norm pol by_ unit h c1)).
  destruct (pays_off_by norm pol by_ (budget h)) as [[e|[]]|e|w]; [done| |done..].
  destruct (answer_of _) as [[e|b]|e|w].
  - destruct H3 as (k & Hk & H3). rewrite Hbud in H3 by lia. by exists k.
  - destruct H3 as (k & Hk & -> & Hpays & Hless). rewrite Hbud in * by lia. exists k. split_and!; [lia|lia|done|done|].
    destruct (Z.le_gt_cases k 0); [by left|]. destruct Hless as [|Hless]; [lia|]. right. rewrite Hbud in Hless by lia. done.
  - destruct H3 as (k & Hk & H3). rewrite Hbud in H3 by lia. by exists k.
  - destruct H3 as (k & Hk & H3). rewrite Hbud in H3 by lia. by exists k.
Qed.

(** An interest-free loan of 100 000 drams over a year, cleared within half of it. *)
Definition free_terms : Contract :=
  MkContract "loan" 1 AMD (MkDate 2024 1 15) zero_date 0 Actual365 Annuity
    (MkDate 2024 1 15) (MkDate 2025 1 15) 15 zero_date (MkAmount 1000000 AMD) true (DefaultPolicy AMD)
    (MkPrepayment PrepayShortenTerm 0 [] no_amount) (MkPolicyRef "bank" 1).
Definition free_plan : Input :=
  MkInput (MkDate 2024 3 15) (MkCashPlan zero_date None (MkAmount 20000000 AMD) 0 (MkAmount 0 AMD) (MkAmount 0 AMD) [] ∅)
    [MkPosition "loan" "Loan" free_terms (MkAmount 10000000 AMD) (MkDate 2024 3 15) ExcessReducePrincipal "bank" false] 0.
Definition free_policy : PlanInput.Policy :=
  PlanInput.MkPolicy false "order" [0%nat] [OnDue] [PrepayShortenTerm] RollFreed no_amount.
Definition half_year : Date := MkDate 2024 8 31.

Definition minor_answer (m : result stop (perror + Amount)) : option Z :=
  match m with Ok (inr b) => Some (minor b) | _ => None end.
Definition free_norm : Input := match Normalize free_plan with Ok (norm, _) => norm | _ => free_plan end.

(** The next instalment of the sample, and what it and the balance come to. *)
Definition asks (m : result stop ((perror + Amount) * cache)) (n : Z) : bool :=
  match m with Ok (inr r, _) => minor r =? n | _ => false end.
Lemma asks_inv m n : asks m n = true → ∃ r c, m = Ok (inr r, c) ∧ minor r = n.
Proof. unfold asks. destruct m as [[[e|r] c]|e|w]; try done. intros ?%Z.eqb_eq. by exists r, c. Qed.

Lemma BudgetFor_least_witness :
  BudgetFor free_plan free_policy half_year = Ok (inr (MkAmount 2000000 AMD)) ∧
  pays_off_by free_norm free_policy half_year (MkAmount 2000000 AMD) = Ok (inr true) ∧
  ∃ k, falls_short free_norm free_policy half_year (FromMinor ((k - 1) * 10) AMD) = Ok (inr true) ∧ k * 10 = 2000000.
Proof.
  assert (BudgetFor free_plan free_policy half_year = Ok (inr (MkAmount 2000000 AMD))) as E by (vm_compute; reflexivity).
  split; [exact E|]. assert (Normalize free_plan = Ok (free_norm, ∅)) as En by (vm_compute; reflexivity).
  assert (Loans free_norm = Loans free_plan) as El by (vm_compute; reflexivity).
  assert (in_currency free_norm = AMD) as Ec by (vm_compute; reflexivity).
  assert (∀ p, p ∈ Loans free_norm → cur (PosBalance p) = in_currency free_norm ∧ wf_amount (PosBalance p)) as Hcur.
  { rewrite El, Ec. intros p ->%list_elem_of_singleton. split; [reflexivity|split; discriminate]. }
  assert (inverseDomain free_norm free_policy = Ok tt) as Hd by (vm_compute; reflexivity).
  pose proof (BudgetFor_least free_plan free_policy half_year free_norm ∅ En Hcur ltac:(vm_compute; reflexivity) Hd) as H.
  cbv zeta in H. rewrite E, El, Ec in H. change (SettlementUnit AMD) with 10 in H.
  assert (Dates.IsZero half_year || Before half_year (ValuationDate free_norm) = false) as Hby by (vm_compute; reflexivity).
  rewrite Hby in H. assert (asks (requiredNow free_norm newCache) 1000000 = true) as Ha by (vm_compute; reflexivity).
  destruct (asks_inv _ _ Ha) as (req & c & Er & Hm). rewrite Er, Hm in H. destruct H as [_ H].
  destruct H as (most & Hup & _ & H); [split; discriminate|].
  destruct (MaxInt64 <? most * 10); [discriminate H|].
  destruct (pays_off_by free_norm free_policy half_year (FromMinor (most * 10) AMD)) as [[e|[]]|e|w]; try discriminate H.
  destruct H as (k & _ & Hb & Hpays & Hless). split; [exact Hpays|].
  exists k. assert (k * 10 = 2000000) as Hk by (apply (f_equal minor) in Hb; symmetry; exact Hb). split; [|exact Hk].
  destruct Hless as [Hless|Hless]; [lia|exact Hless].
Defined.

(** A date before the first payment: no budget pays by then, although every run is fine. *)
Example BudgetFor_unreachable :
  BudgetFor free_plan free_policy (MkDate 2024 3 16) = Ok (inl (Core (Errorf "plan: inverse budget bound misses target"))).
Proof. vm_compute. reflexivity. Qed.
