(* ===== verification/Search.v ===== *)
(** The search itself, [pkg/core/plan/search.go] with the shared runs of
    [comparison.go]: the universe of candidate policies and how it is simulated.

    The context is a parameter that answers each poll; the number of cores and
    the order the goroutines move in are parameters too. [Workers.v] shows they
    decide nothing. *)
From S2P Require Import Prelude Money Dates Model Allocation Fees PlanBase PlanInput SimState Effects Answer Strategies Candidates Sim Ladder.

(** * comparison.go: one run per canonical policy *)

Record cachedPolicyRun := MkPolicyRun { saved_result : Result; saved_err : option perror }.

Definition canonical_effect (l : Position) (e : PrepaymentEffect) : PrepaymentEffect :=
  let stated := Effect (Prepayment (PosContract l)) in
  let e := if bool_decide (stated = PrepayBorrowerChooses) then e else stated in
  if bool_decide (e = PrepayBorrowerChooses) then PrepayShortenTerm else e.
Fixpoint canonical_effects (ls : list Position) (es : list PrepaymentEffect) : res (list PrepaymentEffect) :=
  match ls, es with
  | [], _ => Ok es
  | _ :: _, [] => Panic "index out of range"
  | l :: ls, e :: es => rest ← canonical_effects ls es; Ok (canonical_effect l e :: rest)
  end.
Definition with_effects (p : PlanInput.Policy) (es : list PrepaymentEffect) : PlanInput.Policy :=
  PlanInput.MkPolicy (RequiredOnly p) (PolName p) (Order p) (PolTiming p) es (PolRollover p) (MinPrepay p).
Definition with_name (p : PlanInput.Policy) (name : string) : PlanInput.Policy :=
  PlanInput.MkPolicy (RequiredOnly p) name (Order p) (PolTiming p) (PolEffect p) (PolRollover p) (MinPrepay p).

Definition canonicalPolicy (i : Input) (p : PlanInput.Policy) : res PlanInput.Policy :=
  es ← canonical_effects (Loans i) (PolEffect p); Ok (with_effects p es).
Definition policyKey (p : PlanInput.Policy) : res string := Policy_ID (with_name p "").

(** * The universe *)

(** [u_polls] counts what was asked of the context. *)
Record Universe := MkUniverse {
  u_polls : nat;
  UInput : Input;
  Results : list Result;
  u_orders : list order;
  u_effects : list (list PrepaymentEffect);
  u_timings : list (list Timing);
  u_batches : list Amount;
  u_explored : list Rollover;
  u_nOrders : Z;
  u_nEffects : Z;
  u_nTimings : Z;
  u_trunc : string;
  u_assumed : gmap string nat;
  u_cache : cache;
  u_feeBearer : bool;
  u_attempted : Z;
  u_runs : option (gmap string cachedPolicyRun) }.
#[export] Instance Universe_eta : Eta Universe := λ u,
  MkUniverse (u_polls u) (UInput u) (Results u) (u_orders u) (u_effects u) (u_timings u) (u_batches u)
    (u_explored u) (u_nOrders u) (u_nEffects u) (u_nTimings u) (u_trunc u) (u_assumed u) (u_cache u)
    (u_feeBearer u) (u_attempted u) (u_runs u).

Definition Contains (s sub : string) : bool :=
  match String.index 0 sub s with Some _ => true | None => false end.
Definition truncated (trunc reason : string) : string :=
  if Contains trunc reason then trunc
  else if String.eqb trunc "" then reason else concat_all [trunc; "; "; reason].
Definition truncate (reason : string) : Step Universe unit := writes (set u_trunc (λ t, truncated t reason)).

(** A step over the memo of the universe. *)
Definition on_cache {A} (m : Step cache A) : Step Universe A := λ u,
  match m (u_cache u) with
  | Ok (r, c) => Ok (r, set u_cache (λ _, c) u)
  | Err e => Err e
  | Panic w => Panic w
  end.

(** [candidates]: the product of the axes, cut off at the cap. *)
Definition all_candidates (u : Universe) (r : Rollover) : list PlanInput.Policy :=
  o ← u_orders u; e ← u_effects u; t ← u_timings u; b ← u_batches u;
  [PlanInput.MkPolicy false (or_name o) (or_idx o) t e r b].
Definition candidates (u : Universe) (r : Rollover) : list PlanInput.Policy * bool :=
  let all := all_candidates u r in (take maxPolicies all, Nat.ltb maxPolicies (length all)).

(** What is kept of an outcome, and what ends the search. *)
Fixpoint merge (slots : list (option (perror + Result))) : perror + list Result :=
  match slots with
  | [] => inr []
  | Some (inl e) :: slots => if isInfeasible e then merge slots else inl e
  | Some (inr r) :: slots => match merge slots with inl e => inl e | inr rs => inr (r :: rs) end
  | None :: slots => merge slots
  end.

(** ** Workers *)

(** A goroutine with its own memo: about to poll the context, to take the next
    index, or to run the candidate it took. *)
Inductive worker := Ready (c : cache) | Cleared (c : cache) | Busy (c : cache) (k : nat) | Gone.
Record Pool := MkPool {
  p_polls : nat;
  p_next : nat;
  p_slots : list (option (perror + Result));
  p_team : list worker }.
#[export] Instance Pool_eta : Eta Pool := λ p, MkPool (p_polls p) (p_next p) (p_slots p) (p_team p).

Section Searching.
Context (ctx : nat → option perror) (cores : nat) (schedule : nat → list nat).

Section Team.
Context (i : Input) (policies : list PlanInput.Policy).

(** Worker [w] moves. *)
Definition turn (p : Pool) (w : nat) : result stop Pool :=
  let move x := set p_team (<[w := x]>) in
  match p_team p !! w with
  | None | Some Gone => Ok p
  | Some (Ready c) =>
      let p := set p_polls S p in
      Ok (match ctx (pred (p_polls p)) with Some _ => move Gone p | None => move (Cleared c) p end)
  | Some (Cleared c) =>
      let k := p_next p in
      let p := set p_next S p in
      Ok (if Nat.leb (length policies) k then move Gone p else move (Busy c k) p)
  | Some (Busy c k) =>
      match policies !! k with
      | None => Panic "index out of range"
      | Some pol =>
          match run i pol c with
          | Ok (r, c) => Ok (set p_slots (<[k := Some r]>) (move (Ready c) p))
          | Err e => Err e
          | Panic w => Panic w
          end
      end
  end.

Fixpoint play (p : Pool) (ws : list nat) : result stop Pool :=
  match ws with
  | [] => Ok p
  | w :: ws => p ← turn p w; play p ws
  end.

Definition team (polls workers : nat) : Pool :=
  MkPool polls 0 (replicate (length policies) None) (replicate workers (Ready newCache)).

(** Whoever is still at work when the schedule ends is let finish. *)
Definition drain (workers : nat) : list nat :=
  seq 0 workers ≫= λ w, replicate (3 * (length policies + 2)) w.
End Team.

Definition canceled : Step Universe unit := λ u,
  let n := u_polls u in
  let u := set u_polls S u in
  match ctx n with Some e => Ok (inl e, u) | None => Ok (inr tt, u) end.

(** [simulate]: a saved run under the policy's canonical key, or a new one. *)
Definition simulate (p : PlanInput.Policy) : Step Universe Result :=
  _ ← canceled;
  i ← reads UInput; runs ← reads u_runs;
  match runs with
  | None => on_cache (runs_of i p)
  | Some saved =>
      c ← calls (core (canonicalPolicy i p)); key ← calls (core (policyKey c));
      run ← (match saved !! key with
        | Some run => mret run
        | None =>
            r ← tried (on_cache (runs_of i p));
            let run := match r with inl e => MkPolicyRun no_result (Some e) | inr r => MkPolicyRun r None end in
            _ ← writes (set u_runs (fmap (<[key := run]>)));
            mret run
        end);
      assumed ← reads u_assumed;
      match saved_err run with
      | Some e => refuse e
      | None => mret (set Assumed (λ _, assumed) (set ResPolicy (λ _, p) (saved_result run)))
      end
  end.

Definition keep_feasible (out : list Result) (r : perror + Result) : Step Universe (list Result) :=
  match r with
  | inl e => if isInfeasible e then mret out else refuse e
  | inr r => mret (out ++ [r])
  end.

(** The path that keeps the memo of runs. *)
Definition simulate_saved (policies : list PlanInput.Policy) : Step Universe (list Result) :=
  fold_steps (λ out p, _ ← canceled; r ← tried (simulate p); keep_feasible out r) [] policies.

(** [simulateSerially] carries a memo of its own. *)
Fixpoint serial_from (i : Input) (policies : list PlanInput.Policy) (c : cache) (out : list Result) :
    Step Universe (list Result) :=
  match policies with
  | [] => mret out
  | p :: policies =>
      _ ← canceled;
      '(r, c) ← (λ u, match run i p c with Ok (r, c) => Ok (inr (r, c), u) | Err e => Err e | Panic w => Panic w end);
      out ← keep_feasible out r;
      serial_from i policies c out
  end.
Definition simulateSerially (policies : list PlanInput.Policy) : Step Universe (list Result) :=
  i ← reads UInput; serial_from i policies newCache [].

(** The path on every core. *)
Definition simulate_parallel (workers : nat) (policies : list PlanInput.Policy) : Step Universe (list Result) := λ u,
  match play (UInput u) policies (team policies (u_polls u) workers) (schedule (u_polls u) ++ drain policies workers) with
  | Err e => Err e
  | Panic w => Panic w
  | Ok p => (_ ← canceled; match merge (p_slots p) with inl e => refuse e | inr rs => mret rs end)
      (set u_polls (λ _, p_polls p) u)
  end.

Definition simulateAll (policies : list PlanInput.Policy) : Step Universe (list Result) :=
  runs ← reads u_runs;
  match runs with
  | Some _ => simulate_saved policies
  | None =>
      let workers := Nat.min cores (length policies) in
      if Nat.ltb workers 2 then simulateSerially policies else simulate_parallel workers policies
  end.

Definition cap_reason : string :=
  concat_all ["policies: attempted simulation cap of "; operand_d (Z.of_nat maxPolicies); " per rollover; candidate prefix only"].

Definition explore (r : Rollover) : Step Universe unit :=
  _ ← canceled;
  done ← reads (λ u, bool_decide (r ∈ u_explored u));
  match done with
  | true => mret tt
  | false =>
      _ ← writes (set u_explored (cons r));
      '(policies, capped) ← reads (λ u, candidates u r);
      _ ← (if capped : bool then truncate cap_reason else mret tt);
      _ ← writes (set u_attempted (Z.add (Z.of_nat (length policies))));
      results ← simulateAll policies;
      writes (λ u, set Results (λ rs, rs ++ (set Assumed (λ _, u_assumed u) <$> results)) u)
  end.

(** ** The axes of a normalised input *)

Definition fee_bearing (l : Position) : bool :=
  Nat.ltb 0 (length (Charges (Prepayment (PosContract l)))) || (0 <? FeeBP (Prepayment (PosContract l))).
Definition count_loans (test : Position → bool) (ls : list Position) : nat :=
  length (filter (λ l, test l = true) ls).
Definition creditable (i : Input) (l : Position) : bool :=
  (0 <? PayDay (Cash i)) && bool_decide (Excess l = ExcessReducePrincipal) && (0 <? Sign (PosBalance l)).

Definition orders_reason (n : nat) : string :=
  concat_all ["orders: "; operand_d (Z.of_nat n); " loans exceed the exhaustive limit of "; operand_d (Z.of_nat maxExhaustiveOrders)].
Definition vectors_reason (axis : string) (n : nat) : string :=
  concat_all [axis; ": "; operand_d (Z.of_nat n); " free loans exceed the vector limit of "; operand_d (Z.of_nat maxVectorLoans);
    "; uniform vectors only"].
Definition dropped_reason (total : Z) : string :=
  concat_all ["policies: "; operand_d total; " candidates exceed the cap of "; operand_d (Z.of_nat maxPolicies); "; permutations dropped"].

(** Everything [exploreNormalizedContext] sets before it explores. *)
Definition survey (norm : Input) (assumed : gmap string nat) (memoize : bool) (polls : nat) : pres Universe :=
  let ls := Loans norm in
  let n := length ls in
  let fees := existsb fee_bearing ls in
  named ← core (namedOrders ls);
  let exhaustive := Nat.leb n maxExhaustiveOrders in
  let trunc : string := if exhaustive then ""%string else orders_reason n in
  let orders := dedupeOrders (if exhaustive then named ++ permutations n else named) in
  let effects := effectVectors ls in
  let timings := timingVectors norm ls in
  if Nat.eqb (length effects) 0 || Nat.eqb (length timings) 0 then fails "plan: empty candidate axis"
  else
    let freeEffects := count_loans free_effect ls in
    let freeTimings := count_loans (creditable norm) ls in
    let trunc := if Nat.ltb maxVectorLoans freeEffects then truncated trunc (vectors_reason "effects" freeEffects) else trunc in
    let trunc := if Nat.ltb maxVectorLoans freeTimings then truncated trunc (vectors_reason "timings" freeTimings) else trunc in
    let batches := no_amount :: (if fees then batchThresholds norm else []) in
    let total := Z.of_nat (length orders) * Z.of_nat (length effects) * Z.of_nat (length timings) * Z.of_nat (length batches) in
    let over := Z.of_nat maxPolicies <? total in
    let orders := if over then dedupeOrders named else orders in
    let trunc := if over then truncated trunc (dropped_reason total) else trunc in
    Ok (MkUniverse polls norm [] orders effects timings batches [] (Z.of_nat (length orders)) (Z.of_nat (length effects))
      (Z.of_nat (length timings)) trunc assumed newCache fees 0 (if memoize then Some ∅ else None)).

(** Nothing feasible: the minimum's failure is the one reported. *)
Definition some_result : Step Universe unit :=
  rs ← reads Results; i ← reads UInput;
  match rs with
  | _ :: _ => mret tt
  | [] => _ ← on_cache (minimum i); calls (fails "plan: no feasible policy")
  end.

Definition exploreNormalizedContext (norm : Input) (assumed : gmap string nat) (memoize : bool) (polls : nat) :
    result stop (perror + Universe) :=
  match survey norm assumed memoize polls with
  | Panic w => Panic w
  | Err e => Ok (inl e)
  | Ok u =>
      match (_ ← explore RollFreed; some_result) u with
      | Ok (inl e, _) => Ok (inl e)
      | Ok (inr _, u) => Ok (inr u)
      | Err e => Err e
      | Panic w => Panic w
      end
  end.

Definition ExploreContext (i : Input) : result stop (perror + Universe) :=
  match ctx 0 with
  | Some e => Ok (inl e)
  | None =>
      match Normalize i with
      | Panic w => Panic w
      | Err e => Ok (inl e)
      | Ok (norm, assumed) => exploreNormalizedContext norm assumed false 1
      end
  end.
End Searching.

(** [context.Background()] is never done. *)
Definition background : nat → option perror := λ _, None.
Definition Explore (cores : nat) (schedule : nat → list nat) (i : Input) : result stop (perror + Universe) :=
  ExploreContext background cores schedule i.
