(* ===== verification/Workers.v ===== *)
(** The goroutines of [simulateAll]: however they are interleaved, and however
    many there are, what is merged is what one loop over the candidates finds.

    The state is the shared counter, the slots, and one memo per worker; a
    schedule says who moves next. *)
From S2P Require Import Prelude Money Dates Model Fees PlanBase PlanInput SimState Effects Answer Candidates Sim Obligations Memo Ladder Search.

Section Team.
Context (ctx : nat → option perror) (i : Input) (policies : list PlanInput.Policy) (Hterms : clear_terms i).
Implicit Types p : Pool.
Let n := length policies.

Definition memo_of (x : worker) : cache :=
  match x with Ready c | Cleared c | Busy c _ => c | Gone => newCache end.

(** The slot holds the outcome of its own candidate, from an empty memo. *)
Definition filled (slots : list (option (perror + Result))) (k : nat) : Prop :=
  ∃ pol r, policies !! k = Some pol ∧ slots !! k = Some (Some r) ∧ Run i pol = Ok r.

(** An index handed out is being worked on or its slot is filled; nobody leaves
    early unless told to. *)
Record at_work p : Prop := {
  aw_slots : length (p_slots p) = n;
  aw_memos : ∀ w x, p_team p !! w = Some x → remembered i (memo_of x);
  aw_busy : ∀ w c k, p_team p !! w = Some (Busy c k) → (k < n)%nat;
  aw_taken : ∀ k, (k < p_next p)%nat → (k < n)%nat →
    filled (p_slots p) k ∨ ∃ w c, p_team p !! w = Some (Busy c k);
  aw_gone : ∀ w, p_team p !! w = Some Gone → (n ≤ p_next p)%nat ∨ ∃ m e, (m < p_polls p)%nat ∧ ctx m = Some e }.

Lemma at_work_team polls workers : at_work (team policies polls workers).
Proof using Type.
  unfold team. split; cbn; [by rewrite length_replicate|..].
  - intros w x [-> _]%lookup_replicate. apply remembered_new.
  - by intros w c k [? _]%lookup_replicate.
  - lia.
  - by intros w [? _]%lookup_replicate.
Qed.

(** Told to stop before poll [m]. *)
Definition told (m : nat) : Prop := ∃ k e, (k < m)%nat ∧ ctx k = Some e.

Lemma at_work_step p w x y polls next slots :
  at_work p → p_team p !! w = Some x →
  length slots = n → remembered i (memo_of y) → (∀ c k, y = Busy c k → (k < n)%nat) →
  (p_polls p ≤ polls)%nat → (p_next p ≤ next)%nat → (y = Gone → (n ≤ next)%nat ∨ told polls) →
  (∀ k, (k < next)%nat → (k < n)%nat →
    filled slots k ∨ (∃ c, y = Busy c k) ∨
    ((k < p_next p)%nat ∧ slots !! k = p_slots p !! k ∧ ∀ c, x ≠ Busy c k)) →
  at_work (MkPool polls next slots (<[w := y]> (p_team p))).
Proof using Type.
  intros [H1 H2 H3 H4 H5] Hx Hs Hm Hb Hpo Hne Hg Hk. assert (w < length (p_team p))%nat as Hw by by eapply lookup_lt_Some.
  split; cbn; [done|..].
  - intros v z [(<- & <- & _)|[_ Hv]]%list_lookup_insert_Some; [done|by eapply H2].
  - intros v c k [(_ & -> & _)|[_ Hv]]%list_lookup_insert_Some; [by eapply Hb|by eapply H3].
  - intros k Hk1 Hk2. destruct (Hk k Hk1 Hk2) as [|[(c & ->)|(Hk3 & Es & Hx')]]; [by left|right|].
    + exists w, c. by apply list_lookup_insert_eq.
    + destruct (H4 k Hk3 Hk2) as [(pol & r & Hpol & Hr & Hrun)|(v & c & Hv)];
        [left; exists pol, r; by rewrite Es|right]. exists v, c.
      rewrite list_lookup_insert_ne; [done|]. intros <-. rewrite Hx in Hv. injection Hv as ->. by eapply Hx'.
  - intros v [(_ & -> & _)|[_ Hv]]%list_lookup_insert_Some; [by apply Hg|].
    destruct (H5 v Hv) as [|(m & e & Hm' & He)]; [left; lia|right]. exists m, e. split; [lia|done].
Qed.

(** One move. *)
Lemma turn_keeps p w p' : at_work p → turn ctx i policies p w = Ok p' → at_work p'.
Proof using Hterms.
  intros Hp. unfold turn. destruct (p_team p !! w) as [x|] eqn:Ew; [|by intros [= <-]].
  pose proof (aw_memos p Hp w x Ew) as Hm. destruct x as [c|c|c k|]; cbn [memo_of] in Hm; [| | |by intros [= <-]].
  - intros [= <-]. change (pred (p_polls (set p_polls S p))) with (p_polls p).
    destruct (ctx (p_polls p)) as [e|] eqn:Ec; (eapply (at_work_step p w); [done|exact Ew|apply Hp| |done|cbn; lia|done| |]).
    + apply remembered_new.
    + intros _. right. exists (p_polls p), e. split; [cbn; lia|done].
    + intros k Hk _. right. right. done.
    + done.
    + done.
    + intros k Hk _. right. right. done.
  - intros [= <-]. destruct (Nat.leb_spec (length policies) (p_next p)) as [Hn|Hn];
      (eapply (at_work_step p w); [done|exact Ew|apply Hp| | |done|cbn; lia| |]).
    + apply remembered_new.
    + done.
    + intros _. left. cbn. lia.
    + intros k Hk Hkn. right. right. cbn. split; [lia|done].
    + done.
    + intros c' k [= <- <-]. done.
    + done.
    + intros k Hk Hkn. destruct (decide (k = p_next p)) as [->|]; [by right; left; exists c|right; right].
      cbn in Hk. split; [lia|done].
  - destruct (policies !! k) as [pol|] eqn:Hpol; [|done]. pose proof (aw_busy p Hp w c k Ew) as Hk.
    pose proof (run_fresh i pol c Hterms Hm) as Hf. destruct (run i pol c) as [[r c']|e|e]; [|done..].
    destruct Hf as [Hf Hm']. intros [= <-]. eapply (at_work_step p w); [done|exact Ew| |done|done|done|done|done|].
    + rewrite length_insert. apply Hp.
    + intros j Hj Hjn. destruct (decide (j = k)) as [->|Hjk].
      * left. exists pol, r. split; [done|]. split; [|done]. apply list_lookup_insert_eq. cbn. by rewrite (aw_slots p Hp).
      * right. right. rewrite list_lookup_insert_ne by done. split; [done|]. split; [done|]. congruence.
Qed.
Lemma play_keeps ws : ∀ p p', at_work p → play ctx i policies p ws = Ok p' → at_work p'.
Proof using Hterms.
  induction ws as [|w ws IH]; intros p p' Hp H; [by injection H as <-|]. cbn [play] in H.
  apply bind_Ok in H as (p1 & H1 & H). apply (IH p1); [|done]. by eapply turn_keeps.
Qed.

(** Runs that end leave nothing in the way. *)
Lemma turn_goes p w :
  Forall (λ pol, ∃ r, Run i pol = Ok r) policies → at_work p → ∃ p', turn ctx i policies p w = Ok p'.
Proof using Hterms.
  intros Hruns Hp. unfold turn. destruct (p_team p !! w) as [x|] eqn:Ew; [|by exists p].
  pose proof (aw_memos p Hp w x Ew) as Hm. destruct x as [c|c|c k|]; cbn [memo_of] in Hm; [by eexists..| |by exists p].
  destruct (lookup_lt_is_Some_2 policies k (aw_busy p Hp w c k Ew)) as (pol & Hpol). rewrite Hpol.
  destruct (Forall_lookup_1 _ _ _ _ Hruns Hpol) as (r & Hr). pose proof (run_fresh i pol c Hterms Hm) as Hf.
  destruct (run i pol c) as [[r' c']|e|e]; [by eexists|congruence..].
Qed.
Lemma play_goes ws : Forall (λ pol, ∃ r, Run i pol = Ok r) policies → ∀ p, at_work p →
  ∃ p', play ctx i policies p ws = Ok p'.
Proof using Hterms.
  intros Hruns. induction ws as [|w ws IH]; intros p Hp; [by exists p|].
  destruct (turn_goes p w Hruns Hp) as (p1 & H1). cbn [play]. rewrite H1. apply IH. by eapply turn_keeps.
Qed.

(** ** Progress *)

(** How many of its own moves a worker still has. *)
Definition effort p (w : nat) : nat :=
  let d := (n - p_next p)%nat in
  match p_team p !! w with
  | Some (Ready _) => 3 * d + 2
  | Some (Cleared _) => 3 * d + 1
  | Some (Busy _ _) => 3 * d + 3
  | Some Gone | None => 0
  end.

Lemma effort_insert p w x polls next slots v :
  p_team p !! w = Some x → v ≠ w → (p_next p ≤ next)%nat →
  ∀ y, (effort (MkPool polls next slots (<[w := y]> (p_team p))) v ≤ effort p v)%nat.
Proof using Type.
  intros Hw Hv Hn y. unfold effort. cbn [p_team p_next]. rewrite list_lookup_insert_ne by done.
  destruct (p_team p !! v) as [[]|]; lia.
Qed.

Lemma turn_effort p w p' v :
  turn ctx i policies p w = Ok p' → (effort p' v ≤ effort p v - if bool_decide (v = w) then 1 else 0)%nat.
Proof using Type.
  unfold turn. destruct (p_team p !! w) as [x|] eqn:Ew.
  2:{ intros [= <-]. case_bool_decide as Hvw; [subst v; unfold effort; rewrite Ew; lia|lia]. }
  assert (w < length (p_team p))%nat as Hw by by eapply lookup_lt_Some.
  assert (∀ polls next slots y q, q = MkPool polls next slots (<[w := y]> (p_team p)) → (p_next p ≤ next)%nat →
    (effort q w ≤ effort p w - 1)%nat → (effort q v ≤ effort p v - if bool_decide (v = w) then 1 else 0)%nat) as Hstep.
  { intros polls next slots y q -> Hn Hq. case_bool_decide as Hvw; [by subst v|].
    pose proof (effort_insert p w x polls next slots v Ew Hvw Hn y). lia. }
  destruct x as [c|c|c k|]; [..|intros [= <-]; case_bool_decide as Hvw; [subst v; unfold effort; rewrite Ew; lia|lia]].
  - intros [= <-]. destruct (ctx _); (eapply Hstep; [reflexivity|done|]); unfold effort; cbn; rewrite list_lookup_insert_eq, Ew by done; lia.
  - intros [= <-]. destruct (Nat.leb_spec (length policies) (p_next p)); (eapply Hstep; [reflexivity|cbn; lia|]);
      unfold effort; cbn; rewrite list_lookup_insert_eq, Ew by done; lia.
  - destruct (policies !! k) as [pol|]; [|done]. destruct (run i pol c) as [[r c']|e|e]; [|done..]. intros [= <-].
    eapply Hstep; [reflexivity|done|]. unfold effort. cbn. rewrite list_lookup_insert_eq, Ew by done. lia.
Qed.

Definition turns_of (w : nat) (ws : list nat) : nat := length (filter (λ v, v = w) ws).

Lemma play_effort ws v : ∀ p p', play ctx i policies p ws = Ok p' → (effort p' v ≤ effort p v - turns_of v ws)%nat.
Proof using Type.
  unfold turns_of. induction ws as [|w ws IH]; intros p p' H; [injection H as <-; cbn; lia|].
  cbn [play] in H. apply bind_Ok in H as (p1 & H1 & H). apply IH in H. pose proof (turn_effort p w p1 v H1) as H2.
  rewrite filter_cons. case_bool_decide as Hvw; destruct (decide (w = v)); cbn [length]; try congruence; lia.
Qed.

(** Nobody at work: every slot is filled. *)
Lemma all_gone p :
  at_work p → (∀ m, ctx m = None) → (∃ w, p_team p !! w = Some Gone) → (∀ w x, p_team p !! w = Some x → x = Gone) →
  ∃ outs, Forall2 (λ pol r, Run i pol = Ok r) policies outs ∧ p_slots p = Some <$> outs.
Proof using Type.
  intros Hp Hctx [w Hw] Hall. destruct (aw_gone p Hp w Hw) as [Hn|(m & e & _ & He)]; [|by rewrite Hctx in He].
  assert (∀ k, (k < n)%nat → filled (p_slots p) k) as Hf.
  { intros k Hk. destruct (aw_taken p Hp k ltac:(lia) Hk) as [|(v & c & Hv)]; [done|by apply Hall in Hv]. }
  pose proof (aw_slots p Hp) as Hl. unfold n in *. clear -Hf Hl. revert Hf Hl. generalize (p_slots p) as slots. unfold filled.
  induction policies as [|pol l IH]; intros [|s slots] Hf Hl; try done; [by exists []|].
  destruct (Hf 0%nat ltac:(cbn; lia)) as (pol' & r & [= <-] & [= ->] & Hr).
  destruct (IH slots) as (outs & Ho & ->); [|by injection Hl|by exists (r :: outs); split; [constructor|]].
  intros k Hk. destruct (Hf (S k) ltac:(cbn; lia)) as (q & r' & Hq & Hr' & Hrun). by exists q, r'.
Qed.

(** The whole team, played to the end. *)
Lemma team_ends polls workers ws p :
  play ctx i policies (team policies polls workers) ws = Ok p →
  (∀ w, (w < workers)%nat → 3 * n + 2 ≤ turns_of w ws)%nat →
  (∀ w x, p_team p !! w = Some x → x = Gone) ∧ length (p_team p) = workers.
Proof using Type.
  intros H Hws. assert (length (p_team p) = workers) as Hlen.
  { assert (∀ ws q p, play ctx i policies q ws = Ok p → length (p_team p) = length (p_team q)) as Hl.
    { clear. induction ws as [|w ws IH]; intros q p H; [by injection H as <-|]. cbn [play] in H.
      apply bind_Ok in H as (p1 & H1 & H). rewrite (IH p1 p H). unfold turn in H1.
      destruct (p_team q !! w) as [[c|c|c k|]|]; try (injection H1 as <-; repeat case_match; cbn; by rewrite ?length_insert).
      destruct (policies !! k) as [pol|]; [|done]. destruct (run i pol c) as [[r c']|e|e]; [|done..].
      injection H1 as <-. cbn. by rewrite length_insert. }
    rewrite (Hl _ _ _ H). cbn. apply length_replicate. }
  split; [|done]. intros w x Hx. assert (w < workers)%nat as Hw by (rewrite <- Hlen; by eapply lookup_lt_Some).
  pose proof (play_effort ws w _ _ H) as He. specialize (Hws w Hw).
  assert (effort (team policies polls workers) w = 3 * n + 2)%nat as Hstart.
  { unfold effort. cbn. rewrite lookup_replicate_2 by done. lia. }
  unfold effort at 1 in He. rewrite Hx in He. destruct x; lia || done.
Qed.
End Team.

(** A team that ends has filled every slot. *)
Lemma team_fills ctx i policies polls workers ws p :
  clear_terms i → (∀ m, ctx m = None) → (0 < workers)%nat →
  (∀ w, (w < workers)%nat → 3 * length policies + 2 ≤ turns_of w ws)%nat →
  play ctx i policies (team policies polls workers) ws = Ok p →
  p_team p = replicate workers Gone ∧
  ∃ outs, Forall2 (λ pol r, Run i pol = Ok r) policies outs ∧ p_slots p = Some <$> outs.
Proof.
  intros Ht Hctx Hpos Hws H. pose proof (play_keeps ctx i policies Ht ws _ _ (at_work_team ctx i policies polls workers) H) as Hp.
  destruct (team_ends ctx i policies polls workers ws p H Hws) as [Hall Hlen]. split.
  - symmetry. apply replicate_as_Forall_2; [done|]. apply Forall_lookup. intros w x Hx. symmetry. by eapply Hall.
  - apply (all_gone ctx i policies p Hp Hctx); [|done]. exists 0%nat.
    destruct (lookup_lt_is_Some_2 (p_team p) 0 ltac:(lia)) as (x & Hx). by rewrite Hx, (Hall _ _ Hx).
Qed.

Lemma outcomes_unique i policies : ∀ outs outs',
  Forall2 (λ pol r, Run i pol = Ok r) policies outs → Forall2 (λ pol r, Run i pol = Ok r) policies outs' → outs = outs'.
Proof.
  induction policies as [|pol l IH]; intros outs outs' H H'; [by apply Forall2_nil_inv_l in H as ->, H' as ->|].
  apply Forall2_cons_inv_l in H as (r & o & Hr & H & ->), H' as (r' & o' & Hr' & H' & ->).
  rewrite Hr in Hr'. injection Hr' as <-. by rewrite (IH o o').
Qed.
Lemma outcomes_run i policies outs :
  Forall2 (λ pol r, Run i pol = Ok r) policies outs → Forall (λ pol, ∃ r, Run i pol = Ok r) policies.
Proof. induction 1; constructor; eauto. Qed.

(** Every interleaving gives the outcomes in candidate order, and every one in
    which each worker goes on being scheduled ends. Whatever the number of
    workers, whatever order they are woken in, and whatever each has cached so
    far, a schedule that gives every worker enough turns leaves them all done and
    fills every slot with the outcome of that candidate on its own. *)
Theorem workers_agree ctx i policies outs polls workers ws :
  clear_terms i → Forall2 (λ pol r, Run i pol = Ok r) policies outs → (∀ m, ctx m = None) →
  (0 < workers)%nat → (∀ w, (w < workers)%nat → 3 * length policies + 2 ≤ turns_of w ws)%nat →
  ∃ p, play ctx i policies (team policies polls workers) ws = Ok p ∧
    p_team p = replicate workers Gone ∧ p_slots p = Some <$> outs.
Proof.
  intros Ht Ho Hctx Hpos Hws.
  destruct (play_goes ctx i policies Ht ws (outcomes_run _ _ _ Ho) _ (at_work_team ctx i policies polls workers)) as (p & H).
  destruct (team_fills ctx i policies polls workers ws p Ht Hctx Hpos Hws H) as (Hg & outs' & Ho' & Hs).
  exists p. rewrite (outcomes_unique _ _ _ _ Ho Ho'). done.
Qed.

(** The drain alone is enough. *)
Lemma turns_of_app w l l' : turns_of w (l ++ l') = (turns_of w l + turns_of w l')%nat.
Proof. unfold turns_of. by rewrite filter_app, length_app. Qed.
Lemma turns_of_replicate w v k : turns_of w (replicate k v) = if bool_decide (v = w) then k else 0%nat.
Proof.
  unfold turns_of. induction k as [|k IH]; [by case_bool_decide|]. cbn [replicate]. rewrite filter_cons.
  case_bool_decide; destruct (decide (v = w)); cbn [length]; congruence || by rewrite IH.
Qed.
Lemma turns_of_drain policies workers w :
  (w < workers)%nat → (3 * length policies + 2 ≤ turns_of w (drain policies workers))%nat.
Proof.
  intros Hw. unfold drain. assert (w ∈ seq 0 workers) as (l1 & l2 & ->)%list_elem_of_split by (apply elem_of_seq; lia).
  rewrite bind_app, bind_cons, !turns_of_app, turns_of_replicate, bool_decide_true by done. lia.
Qed.

Lemma turns_of_drained policies workers ws w :
  (w < workers)%nat → (3 * length policies + 2 ≤ turns_of w (ws ++ drain policies workers))%nat.
Proof. intros Hw. rewrite turns_of_app. pose proof (turns_of_drain policies workers w Hw). lia. Qed.

Lemma drained_team ctx i policies outs polls workers ws :
  clear_terms i → Forall2 (λ pol r, Run i pol = Ok r) policies outs → (∀ m, ctx m = None) → (0 < workers)%nat →
  ∃ p, play ctx i policies (team policies polls workers) (ws ++ drain policies workers) = Ok p ∧ p_slots p = Some <$> outs.
Proof.
  intros Ht Ho Hctx Hpos.
  destruct (play_goes ctx i policies Ht (ws ++ drain policies workers) (outcomes_run _ _ _ Ho) _
    (at_work_team ctx i policies polls workers)) as (p & H).
  destruct (team_fills ctx i policies polls workers _ p Ht Hctx Hpos (turns_of_drained policies workers ws) H) as (_ & outs' & Ho' & Hs).
  exists p. by rewrite (outcomes_unique _ _ _ _ Ho Ho').
Qed.

(** One loop over the candidates. *)
Lemma serial_merges ctx i : clear_terms i → (∀ m, ctx m = None) → ∀ policies outs c out u,
  Forall2 (λ pol r, Run i pol = Ok r) policies outs → remembered i c →
  ∃ k, serial_from ctx i policies c out u =
    Ok (match merge (Some <$> outs) with inl e => inl e | inr rs => inr (out ++ rs) end, set u_polls (λ _, k) u).
Proof.
  intros Ht Hctx. induction policies as [|pol policies IH]; intros outs c out u Ho Hc.
  { apply Forall2_nil_inv_l in Ho as ->. exists (u_polls u). cbn. rewrite app_nil_r. by destruct u. }
  apply Forall2_cons_inv_l in Ho as (r & outs' & Hr & Ho & ->). cbn [serial_from]. unfold canceled, mbind, Step_bind.
  rewrite Hctx. pose proof (run_fresh i pol c Ht Hc) as Hf. destruct (run i pol c) as [[r' c']|e|w]; [|congruence..].
  destruct Hf as [Hf Hc']. assert (r' = r) as -> by congruence. unfold keep_feasible. cbn [fmap list_fmap merge].
  destruct r as [e|r].
  - destruct (isInfeasible e); [|by eexists]. cbn. destruct (IH outs' c' out (set u_polls S u) Ho Hc') as (k & ->). by exists k.
  - cbn. destruct (IH outs' c' (out ++ [r]) (set u_polls S u) Ho Hc') as (k & ->). exists k. f_equal. f_equal.
    destruct (merge _) as [e|rs]; [done|]. by rewrite <- app_assoc.
Qed.

(** What the candidates come to, each run from an empty memo. *)
Definition own_outcomes (i : Input) (policies : list PlanInput.Policy) (outs : list (perror + Result)) : Prop :=
  Forall2 (λ pol r, Run i pol = Ok r) policies outs.

(** C8. The cores change nothing. What [simulateAll] hands back to the search (the
    feasible results in candidate order, or the first arithmetic fault in that
    order) is the merge of each candidate's own run from an empty memo, for any
    number of cores and any interleaving of the goroutines; of the universe only
    the count of polls moves. *)
Theorem simulateAll_serial ctx cores schedule u policies outs :
  clear_terms (UInput u) → (∀ m, ctx m = None) → u_runs u = None →
  own_outcomes (UInput u) policies outs →
  ∃ k, simulateAll ctx cores schedule policies u = Ok (merge (Some <$> outs), set u_polls (λ _, k) u).
Proof.
  intros Ht Hctx Hruns Ho. unfold simulateAll, mbind, Step_bind, reads. rewrite Hruns.
  destruct (Nat.ltb_spec (Nat.min cores (length policies)) 2) as [Hw|Hw].
  - unfold simulateSerially, mbind, Step_bind, reads.
    destruct (serial_merges ctx (UInput u) Ht Hctx policies outs newCache [] u Ho (remembered_new _)) as (k & ->).
    exists k. by destruct (merge _).
  - unfold simulate_parallel. set (workers := Nat.min cores (length policies)) in *.
    destruct (drained_team ctx (UInput u) policies outs (u_polls u) workers (schedule (u_polls u)) Ht Ho Hctx) as (p & -> & ->); [lia|].
    unfold canceled, mbind, Step_bind. rewrite Hctx. exists (S (p_polls p)). by destruct (merge _).
Qed.

(** ** What a successful search has run *)

Lemma serial_ran ctx i : clear_terms i → (∀ m, ctx m = None) → ∀ policies c out u rs u',
  remembered i c → serial_from ctx i policies c out u = Ok (inr rs, u') →
  ∃ outs rs', Forall2 (λ pol r, Run i pol = Ok r) policies outs ∧ merge (Some <$> outs) = inr rs' ∧ rs = out ++ rs' ∧
    ∃ k, u' = set u_polls (λ _, k) u.
Proof.
  intros Ht Hctx. induction policies as [|pol policies IH]; intros c out u rs u' Hc H.
  { injection H as <- <-. exists [], []. rewrite app_nil_r. split; [constructor|]. split; [done|]. split; [done|].
    exists (u_polls u). by destruct u. }
  cbn [serial_from] in H. unfold canceled, mbind, Step_bind in H. rewrite Hctx in H.
  pose proof (run_fresh i pol c Ht Hc) as Hf. destruct (run i pol c) as [[r c']|e|w]; [|done..]. destruct Hf as [Hr Hc'].
  unfold keep_feasible in H. destruct r as [e|r].
  - destruct (isInfeasible e) eqn:Ei; [|done]. apply (IH c' out (set u_polls S u)) in H as (outs & rs' & Ho & Hm & -> & k & ->); [|done].
    exists (inl e :: outs), rs'. split; [by constructor|]. split; [cbn; by rewrite Ei|]. split; [done|]. by exists k.
  - apply (IH c' (out ++ [r]) (set u_polls S u)) in H as (outs & rs' & Ho & Hm & -> & k & ->); [|done].
    exists (inr r :: outs), (r :: rs'). split; [by constructor|]. split; [cbn; by rewrite Hm|]. split; [by rewrite <- app_assoc|].
    by exists k.
Qed.

Lemma simulateAll_ran ctx cores schedule u policies rs u' :
  clear_terms (UInput u) → (∀ m, ctx m = None) → u_runs u = None →
  simulateAll ctx cores schedule policies u = Ok (inr rs, u') →
  ∃ outs, Forall2 (λ pol r, Run (UInput u) pol = Ok r) policies outs ∧ merge (Some <$> outs) = inr rs ∧
    ∃ k, u' = set u_polls (λ _, k) u.
Proof.
  intros Ht Hctx Hruns H. unfold simulateAll, mbind, Step_bind, reads in H. rewrite Hruns in H.
  destruct (Nat.ltb_spec (Nat.min cores (length policies)) 2) as [Hw|Hw].
  - unfold simulateSerially, mbind, Step_bind, reads in H.
    apply serial_ran in H as (outs & rs' & Ho & Hm & -> & Hk); [|done..|apply remembered_new]. by exists outs.
  - unfold simulate_parallel in H. set (workers := Nat.min cores (length policies)) in *.
    destruct (play _ _ _ _ _) as [p|e|w] eqn:Ep; [|done..].
    apply team_fills in Ep as (_ & outs & Ho & Hs); [|done|done|lia|apply turns_of_drained].
    unfold canceled, mbind, Step_bind in H. rewrite Hctx, Hs in H. destruct (merge (Some <$> outs)) as [e|rs'] eqn:Em; [done|].
    injection H as -> <-. exists outs. split; [done|]. split; [done|]. by exists (S (p_polls p)).
Qed.

(** ** A pair of candidates on two workers *)

Definition outcome_of_run (i : Input) (pol : PlanInput.Policy) : perror + Result :=
  match Run i pol with Ok r => r | _ => inr no_result end.
Definition answered (i : Input) (pol : PlanInput.Policy) : bool := match Run i pol with Ok _ => true | _ => false end.
Lemma answered_outcomes i policies :
  forallb (answered i) policies = true → Forall2 (λ pol r, Run i pol = Ok r) policies (outcome_of_run i <$> policies).
Proof.
  induction policies as [|pol policies IH]; [constructor|]. cbn [forallb fmap list_fmap].
  intros [Ha H]%andb_true_iff. constructor; [|by apply IH]. unfold answered, outcome_of_run in *. by destruct (Run i pol).
Qed.

Definition pair_of_policies : list PlanInput.Policy :=
  [spelt "order" PrepayReduceInstalment; spelt "snowball" PrepayShortenTerm].

Lemma workers_agree_witness :
  let ws := [1; 0; 1; 1; 0; 0]%nat ++ drain pair_of_policies 2 in
  ∃ p, play background memo_plan pair_of_policies (team pair_of_policies 0 2) ws = Ok p ∧
    p_team p = replicate 2 Gone ∧ p_slots p = Some <$> (outcome_of_run memo_plan <$> pair_of_policies).
Proof.
  intros ws. apply (workers_agree background memo_plan pair_of_policies (outcome_of_run memo_plan <$> pair_of_policies) 0 2 ws
    memo_terms).
  - apply answered_outcomes. vm_compute. reflexivity.
  - reflexivity.
  - lia.
  - apply (turns_of_drained pair_of_policies 2).
Defined.

Definition small_universe : Universe :=
  MkUniverse 0 memo_plan [] [] [] [] [] [] 0 0 0 "" ∅ newCache false 0 None.
Lemma simulateAll_serial_witness :
  ∃ k, simulateAll background 8 (λ _, [1; 0; 1]%nat) pair_of_policies small_universe =
    Ok (merge (Some <$> (outcome_of_run memo_plan <$> pair_of_policies)), set u_polls (λ _, k) small_universe).
Proof.
  apply (simulateAll_serial background 8 (λ _, [1; 0; 1]%nat) small_universe pair_of_policies
    (outcome_of_run memo_plan <$> pair_of_policies) memo_terms).
  - reflexivity.
  - reflexivity.
  - apply answered_outcomes. vm_compute. reflexivity.
Defined.
