(* ===== verification/Exhaust.v ===== *)
(** What a universe covers: the candidates of a search against the static
    policies there are, and against the timings of them that are tried.

    A universe that reports no truncation holds every order, effect vector,
    timing vector and threshold its axes promise, each exactly as a policy; one
    that had to drop something says so, and no search attempts more than 4096
    policies a rollover. *)
From S2P Require Import Prelude Money Dates Model Allocation Fees PlanBase PlanInput SimState Answer Strategies Candidates Sim Ladder Search.

(** * Sizes *)

Lemma length_product {A B} (f : A → list B) l k : (∀ x, x ∈ l → length (f x) = k) → length (l ≫= f) = (length l * k)%nat.
Proof.
  induction l as [|x l IH]; intros Hf; [done|]. rewrite bind_cons, length_app, Hf by (by left).
  rewrite IH by (intros; apply Hf; by right). cbn [length]. lia.
Qed.

Lemma length_all_candidates u r :
  length (all_candidates u r) =
  (length (u_orders u) * (length (u_effects u) * (length (u_timings u) * length (u_batches u))))%nat.
Proof.
  unfold all_candidates. apply length_product. intros o _. apply length_product. intros e _.
  apply length_product. intros t _. rewrite (length_product _ _ 1) by done. lia.
Qed.

Lemma elem_of_all_candidates u r p :
  p ∈ all_candidates u r ↔ ∃ o e t b, o ∈ u_orders u ∧ e ∈ u_effects u ∧ t ∈ u_timings u ∧ b ∈ u_batches u ∧
    p = PlanInput.MkPolicy false (or_name o) (or_idx o) t e r b.
Proof.
  unfold all_candidates. rewrite list_elem_of_bind. split.
  - intros (o & H & Ho). apply list_elem_of_bind in H as (e & H & He). apply list_elem_of_bind in H as (t & H & Ht).
    apply list_elem_of_bind in H as (b & ->%list_elem_of_singleton & Hb). by exists o, e, t, b.
  - intros (o & e & t & b & Ho & He & Ht & Hb & ->). exists o. split; [|done]. apply list_elem_of_bind. exists e. split; [|done].
    apply list_elem_of_bind. exists t. split; [|done]. apply list_elem_of_bind. exists b. split; [|done]. by apply list_elem_of_singleton.
Qed.

(** * The reasons *)

Lemma truncated_empty t r : truncated t r = ""%string → t = ""%string ∧ r = ""%string.
Proof.
  unfold truncated, Contains. destruct (String.index 0 r t) as [k|] eqn:E.
  - intros ->. split; [done|]. by destruct r.
  - destruct (String.eqb_spec t ""); [by intros ->; split|]. intros H. by destruct t.
Qed.

Lemma if_truncated (b : bool) t r : r ≠ ""%string → (if b then truncated t r else t) = ""%string → b = false ∧ t = ""%string.
Proof. intros Hr. destruct b; [|done]. by intros [_ ?]%truncated_empty. Qed.

(** * The orders *)

Lemma insert_checked_perm {A} (less : A → A → res bool) x l : ∀ l', insert_checked less x l = Ok l' → l' ≡ₚ x :: l.
Proof.
  induction l as [|z l IH]; intros l' H; cbn [insert_checked] in H; [by injection H as <-|].
  apply bind_Ok in H as (b & _ & H). destruct b; [|by injection H as <-].
  apply bind_Ok in H as (rest & Hr & [= <-]). rewrite (IH _ Hr). apply Permutation_swap.
Qed.
Lemma sort_checked_perm {A} (less : A → A → res bool) l : ∀ l', sort_checked less l = Ok l' → l' ≡ₚ l.
Proof.
  induction l as [|x l IH]; intros l' H; cbn [sort_checked] in H; [by injection H as <-|].
  apply bind_Ok in H as (sorted & Hs & H). apply insert_checked_perm in H. by rewrite H, (IH _ Hs).
Qed.

Lemma namedOrders_perm ls os p : namedOrders ls = Ok os → p ∈ or_idx <$> os → p ≡ₚ identity (length ls).
Proof.
  intros H Hp. unfold namedOrders in H. apply bind_Ok in H as (av & Ha & H). apply bind_Ok in H as (sn & Hs & [= <-]).
  apply sort_checked_perm in Ha, Hs. cbn [fmap list_fmap or_idx] in Hp.
  apply elem_of_cons in Hp as [->|[->|[]%elem_of_nil]%elem_of_cons]; rewrite ?Ha, ?Hs; by rewrite entries_fst.
Qed.

(** * The timings *)

Lemma foldl_insert {A} (x : A) ks : ∀ v : list A,
  (∀ k, k ∈ ks → (k < length v)%nat) →
  let r := foldl (λ v k, <[k := x]> v) v ks in
  length r = length v ∧ (∀ k, k ∈ ks → r !! k = Some x) ∧ ∀ k, k ∉ ks → r !! k = v !! k.
Proof.
  induction ks as [|k ks IH]; intros v Hks; cbv zeta; cbn [foldl].
  { split; [done|]. split; [by intros k ?%elem_of_nil|done]. }
  destruct (IH (<[k := x]> v)) as (H1 & H2 & H3).
  { intros j Hj. rewrite length_insert. apply Hks. by right. }
  rewrite length_insert in H1. split; [done|]. split.
  - intros j Hj. destruct (decide (j ∈ ks)) as [|Hn]; [by apply H2|]. rewrite H3 by done.
    apply elem_of_cons in Hj as [->|]; [|done]. apply list_lookup_insert_eq. apply Hks. by left.
  - intros j [Hj Hn]%not_elem_of_cons. rewrite H3 by done. by rewrite list_lookup_insert_ne.
Qed.

Lemma all_chosen {A} test (fixed x : A) ls v :
  v = foldl (λ v k, <[k := x]> v) (uniform (length ls) fixed) (indices test ls) ↔ a_mix test fixed (λ y, y = x) ls v.
Proof.
  set (r := foldl _ _ _). assert (a_mix test fixed (λ y, y = x) ls r) as Hr.
  { destruct (foldl_insert x (indices test ls) (uniform (length ls) fixed)) as (H1 & H2 & H3).
    { intros k (l & Hl%lookup_lt_Some & _)%elem_of_indices. unfold uniform. by rewrite length_replicate. }
    unfold uniform in H1, H3. rewrite length_replicate in H1. split; [done|]. intros k l Hl.
    destruct (test l) eqn:Ht.
    - exists x. split; [|done]. apply H2. apply elem_of_indices. eauto.
    - exists fixed. split; [|done]. fold (uniform (length ls) fixed) in H3. unfold r. rewrite H3.
      + unfold uniform. apply lookup_replicate. split; [done|by eapply lookup_lt_Some].
      + intros (l' & Hl' & Ht')%elem_of_indices. congruence. }
  split; [by intros ->|]. intros [Hn H]. destruct Hr as [Hrn Hr]. apply list_eq_same_length with (length ls); [done..|].
  intros k a b Hk Ha Hb. destruct (lookup_lt_is_Some_2 ls k Hk) as (l & Hl).
  destruct (H k l Hl) as (a' & Ha' & Ta), (Hr k l Hl) as (b' & Hb' & Tb). destruct (test l); congruence.
Qed.

(** What the search tries: every mix where fees make one worth trying, otherwise
    all the early loans early, or none. *)
Definition timing_tried (i : Input) (ls : list Position) (v : list Timing) : Prop :=
  if existsb bears_fees ls then a_mix (may_credit i) OnDue timing_choices ls v
  else a_mix (may_credit i) OnDue (λ t, t = OnReceipt) ls v ∨ v = uniform (length ls) OnDue.

Lemma timingVectors_tried i ls v :
  (length (indices (may_credit i) ls) ≤ maxVectorLoans)%nat → v ∈ timingVectors i ls ↔ timing_tried i ls v.
Proof.
  intros Hn. unfold timing_tried. destruct (existsb bears_fees ls) eqn:Hf; [apply timingVectors_all; auto|].
  destruct (indices (may_credit i) ls) as [|k ks] eqn:Ei.
  - assert (v ∈ timingVectors i ls ↔ v = uniform (length ls) OnDue) as ->.
    { unfold timingVectors. rewrite <- indices_may_credit, Ei. cbn [length Nat.eqb]. by rewrite list_elem_of_singleton. }
    rewrite <- list_elem_of_singleton, (no_mix (may_credit i) OnDue (λ t, t = OnReceipt)) by done. tauto.
  - rewrite <- all_chosen, Ei. unfold timingVectors. rewrite <- indices_may_credit, Ei, Hf. cbn [length Nat.eqb].
    rewrite andb_false_r, orb_true_r, elem_of_cons, list_elem_of_singleton. tauto.
Qed.

(** What is tried is a mix of the two timings; with at most one loan to choose
    for there is no other. *)
Lemma tried_mix i ls v : timing_tried i ls v → a_mix (may_credit i) OnDue timing_choices ls v.
Proof.
  unfold timing_tried. destruct (existsb bears_fees ls); [done|]. intros [[Hn H]| ->].
  - split; [done|]. intros k l Hl. destruct (H k l Hl) as (x & Hx & Hc). exists x. split; [done|]. destruct (may_credit i l); [by left|done].
  - unfold uniform. split; [apply length_replicate|]. intros k l Hl. exists OnDue. split.
    + apply lookup_replicate. split; [done|by eapply lookup_lt_Some].
    + destruct (may_credit i l); [by right|done].
Qed.
Lemma one_timing i ls v :
  (length (indices (may_credit i) ls) ≤ 1)%nat → a_mix (may_credit i) OnDue timing_choices ls v → timing_tried i ls v.
Proof.
  intros Hone Hmix. unfold timing_tried. destruct (existsb bears_fees ls); [done|]. destruct Hmix as [Hn H].
  assert (∀ k j l l', ls !! k = Some l → ls !! j = Some l' → may_credit i l = true → may_credit i l' = true → k = j) as Hsame.
  { intros k j l l' Hl Hl' Hk Hj. assert (k ∈ indices (may_credit i) ls ∧ j ∈ indices (may_credit i) ls) as [Ik Ij].
    { split; apply elem_of_indices; eauto. }
    destruct (indices (may_credit i) ls) as [|a [|b rest]]; [by apply elem_of_nil in Ik| |cbn in Hone; lia].
    apply list_elem_of_singleton in Ik, Ij. congruence. }
  destruct (decide (OnReceipt ∈ v)) as [(k & Hv)%list_elem_of_lookup_1|Hno].
  - destruct (lookup_lt_is_Some_2 ls k) as (l & Hl); [rewrite <- Hn; by eapply lookup_lt_Some|].
    assert (may_credit i l = true) as Hk.
    { destruct (H k l Hl) as (x & Hx & Hc). destruct (may_credit i l); [done|]. congruence. }
    left. split; [done|]. intros j l' Hl'. destruct (H j l' Hl') as (x & Hx & Hc). exists x. split; [done|].
    destruct (may_credit i l') eqn:Hj; [|done]. rewrite <- (Hsame k j l l' Hl Hl' Hk Hj) in Hx. congruence.
  - right. unfold uniform. apply list_eq_same_length with (length ls); [apply length_replicate|done|].
    intros j x y Hj Hx Hy. apply lookup_replicate in Hy as [-> _]. destruct (lookup_lt_is_Some_2 ls j Hj) as (l & Hl).
    destruct (H j l Hl) as (z & Hz & Hc). assert (z = x) as -> by congruence.
    destruct (may_credit i l) eqn:Hk; [|done]. destruct Hc as [->|]; [|done]. destruct Hno. by eapply list_elem_of_lookup_2.
Qed.

(** * The axes of a survey *)

Lemma count_loans_indices test ls : count_loans test ls = length (indices test ls).
Proof.
  unfold count_loans, indices, entries. rewrite length_fmap.
  assert (∀ (f : nat → Position → nat * Position), (∀ j l, snd (f j l) = l) →
    length (filter (λ l, test l = true) ls) = length (filter (λ e, test (snd e) = true) (imap f ls))) as H; [|by apply H].
  induction ls as [|l ls IH]; intros f Hf; [done|]. rewrite imap_cons, !filter_cons, Hf.
  destruct (decide _); cbn [length]; rewrite (IH (f ∘ S)); done || (intros; apply Hf).
Qed.
Lemma count_creditable i ls : count_loans (creditable i) ls = length (indices (may_credit i) ls).
Proof.
  rewrite count_loans_indices. f_equal. unfold indices. f_equal. apply list_filter_iff. intros [k l]. cbn.
  unfold creditable, may_credit, free_timing. by rewrite andb_assoc.
Qed.

(** A surveyed universe, before anything is simulated. *)
Record surveyed (norm : Input) (u : Universe) : Prop := {
  sv_input : UInput u = norm;
  sv_fees : u_feeBearer u = existsb fee_bearing (Loans norm);
  sv_orders : NoDup (or_idx <$> u_orders u);
  sv_some_order : ∀ p, p ∈ or_idx <$> u_orders u → p ≡ₚ identity (length (Loans norm));
  sv_effects : u_effects u = effectVectors (Loans norm);
  sv_timings : u_timings u = timingVectors norm (Loans norm);
  sv_batches : u_batches u = no_amount :: (if existsb fee_bearing (Loans norm) then batchThresholds norm else []);
  sv_whole : u_trunc u = ""%string →
    (∀ p, p ≡ₚ identity (length (Loans norm)) → p ∈ or_idx <$> u_orders u) ∧
    (length (indices free_effect (Loans norm)) ≤ maxVectorLoans)%nat ∧
    (length (indices (may_credit norm) (Loans norm)) ≤ maxVectorLoans)%nat ∧
    ∀ r, (length (all_candidates u r) ≤ maxPolicies)%nat }.

Lemma survey_surveyed norm assumed memoize polls u : survey norm assumed memoize polls = Ok u → surveyed norm u.
Proof.
  intros H. unfold survey in H. apply bind_Ok in H as (named & Hnamed & H). apply core_Ok in Hnamed.
  set (ls := Loans norm) in *. set (exh := Nat.leb (length ls) maxExhaustiveOrders) in *.
  set (os := dedupeOrders (if exh then named ++ permutations (length ls) else named)) in *.
  case_if_in H; [done|]. cbv zeta in H.
  set (trunc0 := if exh then ""%string else orders_reason (length ls)) in *.
  set (nE := count_loans free_effect ls) in *. set (nT := count_loans (creditable norm) ls) in *.
  set (trunc1 := if Nat.ltb maxVectorLoans nE then _ else trunc0) in *.
  set (trunc2 := if Nat.ltb maxVectorLoans nT then _ else trunc1) in *.
  set (bs := no_amount :: _) in *. set (total := _ * Z.of_nat (length bs)) in *.
  set (over := Z.of_nat maxPolicies <? total) in *.
  assert (∀ l, (∀ p, p ∈ or_idx <$> l → p ≡ₚ identity (length ls)) → NoDup (or_idx <$> dedupeOrders l) ∧
    ∀ p, p ∈ or_idx <$> dedupeOrders l → p ≡ₚ identity (length ls)) as Hdedupe.
  { intros l Hl. destruct (dedupeOrders_keeps l) as [Hnd Hmem]. split; [done|]. intros p. rewrite Hmem. apply Hl. }
  assert (∀ p, p ∈ or_idx <$> named → p ≡ₚ identity (length ls)) as Hnp.
  { intros p. by apply namedOrders_perm. }
  destruct (Hdedupe named Hnp) as [Hnd1 Hperm1].
  destruct (Hdedupe (if exh then named ++ permutations (length ls) else named)) as [Hnd2 Hperm2].
  { destruct exh; [|done]. intros p. rewrite fmap_app, elem_of_app. intros [?|?]; [by apply Hnp|by apply permutations_all]. }
  injection H as <-. split; cbn [UInput u_orders u_effects u_timings u_batches u_trunc]; try done.
  - by destruct over.
  - by destruct over.
  - intros Htr. apply if_truncated in Htr as [Hover Htr]; [|done]. rewrite Hover.
    apply if_truncated in Htr as [HT Htr]; [|done]. apply if_truncated in Htr as [HE Htr]; [|done].
    assert (exh = true) as Hexh. { unfold trunc0 in Htr. by destruct exh. }
    apply Nat.ltb_ge in HT, HE. unfold nT, nE in HT, HE. rewrite count_creditable in HT. rewrite count_loans_indices in HE.
    split; [|split; [done|]; split; [done|]].
    + intros p Hp. unfold os. destruct (dedupeOrders_keeps (if exh then named ++ permutations (length ls) else named)) as [_ ->].
      rewrite Hexh, fmap_app, elem_of_app. right. by apply permutations_all.
    + intros r. rewrite length_all_candidates. cbn [u_orders u_effects u_timings u_batches]. apply Z.ltb_ge in Hover.
      unfold total in Hover. fold bs. lia.
Qed.

(** A static policy: an order of the loans, and for each loan that leaves the
    choice an effect and a timing. *)
Record static_policy (norm : Input) (r : Rollover) (pol : PlanInput.Policy) : Prop := {
  sp_extra : RequiredOnly pol = false;
  sp_order : Order pol ≡ₚ identity (length (Loans norm));
  sp_effect : a_mix free_effect PrepayBorrowerChooses effect_choices (Loans norm) (PolEffect pol);
  sp_timing : a_mix (may_credit norm) OnDue timing_choices (Loans norm) (PolTiming pol);
  sp_rollover : PolRollover pol = r;
  sp_minimum : MinPrepay pol = no_amount ∨ existsb fee_bearing (Loans norm) = true ∧ MinPrepay pol ∈ batchThresholds norm }.

Lemma surveyed_candidates norm u r :
  surveyed norm u → u_trunc u = ""%string →
  candidates u r = (all_candidates u r, false) ∧
  ∀ pol, static_policy norm r pol ∧ timing_tried norm (Loans norm) (PolTiming pol) ↔
    ∃ p, p ∈ all_candidates u r ∧ pol = with_name p (PolName pol).
Proof.
  intros H Htr. destruct (sv_whole norm u H Htr) as (Hall & He & Ht & Hcap). specialize (Hcap r). split.
  { unfold candidates. rewrite take_ge by done. f_equal. by apply Nat.ltb_ge. }
  intros pol. split.
  - intros [[H1 H2 H3 _ H5 H6] H4]. apply Hall in H2 as (o & Eo & Ho)%list_elem_of_fmap.
    exists (PlanInput.MkPolicy false (or_name o) (or_idx o) (PolTiming pol) (PolEffect pol) r (MinPrepay pol)). split.
    + apply elem_of_all_candidates. exists o, (PolEffect pol), (PolTiming pol), (MinPrepay pol). split; [done|].
      rewrite (sv_effects norm u H), (sv_timings norm u H), (sv_batches norm u H).
      split; [by apply effectVectors_all|]. split; [by apply timingVectors_tried|]. split; [|done].
      apply elem_of_cons. destruct H6 as [|[-> ?]]; auto.
    + destruct pol. cbn in *. subst. done.
  - intros (p & Hp & ->). apply elem_of_all_candidates in Hp as (o & e & t & b & Ho & Hee & Htt & Hb & ->).
    rewrite (sv_effects norm u H) in Hee. rewrite (sv_timings norm u H) in Htt. rewrite (sv_batches norm u H) in Hb.
    apply timingVectors_tried in Htt; [|done]. split; [|done].
    split; cbn; [done| |by apply effectVectors_all|by apply tried_mix|done|].
    + apply (sv_some_order norm u H). by apply list_elem_of_fmap_2.
    + apply elem_of_cons in Hb as [|Hb]; [by left|right]. destruct (existsb fee_bearing (Loans norm)); [done|].
      by apply elem_of_nil in Hb.
Qed.

(** C7. An unlabelled search is exhaustive. When a surveyed universe reports no
    truncation, the candidates of a rollover are exactly the static policies of
    the plan whose timings are tried: every order of the loans, each once; every
    mix of effects over the loans whose contract leaves the choice; every mix of
    timings over the loans that can be credited early when some loan bears fees,
    otherwise all of them early or none; no threshold or a contract breakpoint. Nothing is cut off, and no order is tried under two names.
    Labelled or not, at most 4096 are attempted, and a cut is reported. *)
Theorem candidates_exhaustive norm assumed memoize polls u r :
  survey norm assumed memoize polls = Ok u →
  (length (fst (candidates u r)) ≤ maxPolicies)%nat ∧
  (snd (candidates u r) = false → fst (candidates u r) = all_candidates u r) ∧
  (u_trunc u = ""%string →
    snd (candidates u r) = false ∧
    (∀ pol, static_policy norm r pol ∧ timing_tried norm (Loans norm) (PolTiming pol) ↔
      ∃ p, p ∈ fst (candidates u r) ∧ pol = with_name p (PolName pol)) ∧
    NoDup (or_idx <$> u_orders u)).
Proof.
  intros H%survey_surveyed. split; [unfold candidates; cbn [fst]; rewrite length_take; lia|]. split.
  { unfold candidates. intros Hn%Nat.ltb_ge. by apply take_ge. }
  intros Htr. destruct (surveyed_candidates norm u r H Htr) as [-> Hs]. split; [done|]. split; [done|apply (sv_orders norm u H)].
Qed.

(** Two loans, whose bank leaves the effect to the borrower and credits early. *)
Definition two_loans : Input :=
  let p := filed_position (MkDate 2024 3 15) in
  MkInput (MkDate 2024 3 15) (Cash (sample_plan (MkDate 2024 3 15)))
    [p; MkPosition "other" "Other" (PosContract p) (MkAmount 50000000 AMD) (From p) (Excess p) (PosTrust p) false] 0.
Definition two_universe : Universe :=
  match survey two_loans ∅ false 0 with
  | Ok u => u
  | _ => MkUniverse 0 two_loans [] [] [] [] [] [] 0 0 0 "" ∅ newCache false 0 None
  end.

Lemma candidates_exhaustive_witness :
  length (fst (candidates two_universe RollFreed)) = 16%nat ∧
  ∀ pol, static_policy two_loans RollFreed pol ∧ timing_tried two_loans (Loans two_loans) (PolTiming pol) ↔
    ∃ p, p ∈ fst (candidates two_universe RollFreed) ∧ pol = with_name p (PolName pol).
Proof.
  split; [vm_compute; reflexivity|].
  assert (survey two_loans ∅ false 0 = Ok two_universe) as E by (vm_compute; reflexivity).
  destruct (candidates_exhaustive two_loans ∅ false 0 two_universe RollFreed E) as (_ & _ & H).
  assert (u_trunc two_universe = ""%string) as Et by (vm_compute; reflexivity).
  exact (proj1 (proj2 (H Et))).
Defined.
