(* ===== verification/Rank.v ===== *)
(** Ranking and the certificate: the rest of [pkg/core/plan/report.go], and
    [Search] of search.go. *)
From S2P Require Import Prelude Money Dates Model Allocation Fees PlanBase PlanInput SimState Effects Answer Strategies Candidates Sim Ladder Search.

Definition rate_note : string :=
  "the highest rate is also the smallest balance: highest rate and snowball are the same order".
Definition floor_rule : string :=
  "feasible zero interest and fees reaches the nonnegative cost floor; payoff/tie-break optimality is not claimed".
Definition batch_note : string := "fees: batching thresholds are sampled at contract breakpoints, not solved".

(** * The certificate *)

(** [provable]: the rule a proof relies on, if there is one. *)
Definition provable (u : Universe) (g : Goal) (best : Result) : res (option string) :=
  if negb (bool_decide (GKind g = LeastInterest)) || u_feeBearer u || negb (String.eqb (u_trunc u) "") ||
    SeparateSpending (Cash (UInput u))
  then Ok None
  else
    cost ← Cost best;
    if negb (Sign cost =? 0) then Ok None
    else if existsb (λ l, (NominalRate (PosContract l) <? 0) || OptionalExcluded l) (Loans (UInput u)) then Ok None
    else Ok (Some floor_rule).

(** What the search may claim short of a proof, and the truncation printed. *)
Definition claimed (u : Universe) : Strength * string :=
  if negb (String.eqb (u_trunc u) "")
  then (if Nat.ltb maxExhaustiveOrders (length (Loans (UInput u))) && (u_nEffects u =? 1) && (u_nTimings u =? 1)
        then NamedStrategiesOnly else BoundedHeuristic, u_trunc u)
  else if u_feeBearer u then (BoundedHeuristic, batch_note)
  else (ExhaustiveStaticOrder, "").

Definition certificate (u : Universe) (g : Goal) (best : Result) (ranked : list Result) : res Certificate :=
  cost ← Cost best;
  rule ← provable u g best;
  let '(strength, trunc) := claimed u in
  let '(prints, positions) := certified (Loans (UInput u)) in
  Ok (MkCertificate (match rule with Some _ => ProvenOptimal | None => strength end) (default "" rule)
    (u_attempted u) (Z.of_nat (length (Results u))) 0 0 (u_nOrders u) (u_nEffects u) (u_nTimings u) trunc cost None None
    (Unit (DefaultPolicy (in_currency (UInput u)))) (candidateDates ranked) EngineVersion prints (u_assumed u) positions).

(** * Ties *)

Definition same_cost (a b : Result) : res bool := x ← Cost a; y ← Cost b; c ← Cmp x y; Ok (c =? 0).

(** [fmt.Sprint(os[0].idx) == fmt.Sprint(os[1].idx)]. *)
Definition orders_agree (ls : list Position) : res bool :=
  os ← namedOrders ls;
  match os with
  | a :: b :: _ => Ok (String.eqb (bracketed (or_idx a)) (bracketed (or_idx b)))
  | _ => Panic "index out of range"
  end.

Definition ties (i : Input) (g : Goal) (best least : Result) : res (list string) :=
  let live := length (filter (λ l, (0 <? Sign (PosBalance l)) = true) (Loans i)) in
  let credits := existsb (λ l, bool_decide (Excess l = ExcessReducePrincipal)) (Loans i) in
  flat ← (if negb (bool_decide (GKind g = Relief)) && Equal (PayoffDate least) (PayoffDate best)
          then same_cost best least else Ok false);
  agree ← (if Nat.ltb 1 live then orders_agree (Loans i) else Ok false);
  Ok ((if Nat.eqb live 1 then ["one loan: the order cannot matter"] else []) ++
    (if (flat : bool) then ["no surplus: every plan pays only what is required"] else []) ++
    (if (agree : bool) then [rate_note] else []) ++
    (if negb credits then ["no lender credits early payment: timing cannot matter"]
     else if PayDay (Cash i) =? 0 then ["no payday given: early payment was not simulated"] else [])).

(** * The baselines *)

Record baselines := MkBaselines { bl_avalanche : Result; bl_highest : Result; bl_snowball : Result }.
#[export] Instance baselines_eta : Eta baselines := λ b, MkBaselines (bl_avalanche b) (bl_highest b) (bl_snowball b).

(** A run whose infeasibility leaves the zero result behind. *)
Definition or_nothing (m : Step cache Result) : Step Universe Result :=
  r ← tried (on_cache m);
  match r with
  | inl e => if isInfeasible e then mret no_result else refuse e
  | inr r => mret r
  end.

Definition add_baseline (base : PlanInput.Policy) (idx : list nat) (b : baselines) (name : string) : Step Universe baselines :=
  i ← reads UInput;
  let pol := PlanInput.MkPolicy false name idx (uniform (length (Loans i)) OnDue) (PolEffect base) RollFreed no_amount in
  if String.eqb name nameAvalanche || String.eqb name StrategyHighestRate
  then
    r ← or_nothing (runs_of i pol);
    let b := set bl_highest (λ _, r) b in
    mret (if String.eqb name nameAvalanche then set bl_avalanche (λ _, r) b else b)
  else if String.eqb name nameSnowball
  then r ← or_nothing (runs_of i pol); mret (set bl_snowball (λ _, r) b)
  else mret b.
Definition add_order (base : PlanInput.Policy) (b : baselines) (o : order) : Step Universe baselines :=
  fold_steps (add_baseline base (or_idx o)) b (or_also o).
Definition all_baselines (base : PlanInput.Policy) : Step Universe baselines :=
  os ← reads u_orders; fold_steps (add_order base) (MkBaselines no_result no_result no_result) os.

(** * The payday's worth *)

Definition on_due (p : PlanInput.Policy) : bool := bool_decide (uniformTiming (PolTiming p) = Some OnDue).

(** The first of the ranked results that pays only on due dates. *)
Definition timing_saving (cr : Currency) (best : Result) (ranked : list Result) : res Amount :=
  saving ← (if on_due (ResPolicy best) then Ok (Zero cr)
            else match find (λ r, on_due (ResPolicy r)) ranked with
              | Some r => x ← Cost r; y ← Cost best; Sub x y
              | None => Ok (Zero cr)
              end);
  Ok (if negb (on_due (ResPolicy best)) && (Sign saving <? 0) then Zero cr else saving).

(** * Rank *)

Definition wanted (g : Goal) : Rollover := if bool_decide (GKind g = Relief) then KeepFreed else RollFreed.

Section Ranking.
Context (ctx : nat → option perror) (cores : nat) (schedule : nat → list nat).

Definition Rank (g : Goal) : Step Universe Report :=
  _ ← calls (Goal_Validate g);
  i ← reads UInput;
  baseline ← on_cache (requiredNow i);
  _ ← explore ctx cores schedule (wanted g);
  rs ← reads Results;
  let mine := filter (λ r, PolRollover (ResPolicy r) = wanted g) rs in
  ranked ← calls (match mine with [] => fails "plan: no feasible policy for %s" | _ => core (sort_checked (better g baseline) mine) end);
  best ← calls (match ranked with r :: _ => Ok r | [] => Panic "index out of range [0] with length 0" end);
  bases ← all_baselines (ResPolicy best);
  least ← or_nothing (minimum i);
  saving ← calls (core (timing_saving (in_currency i) best ranked));
  rungs ← (if bool_decide (GKind g = Relief) then mret [] else on_cache (ladder i (ResPolicy best)));
  tied ← calls (core (ties i g best least));
  u ← reads id;
  cert ← calls (core (certificate u g best ranked));
  mret (MkReport g best ranked (bl_avalanche bases) (bl_highest bases) (avalancheDomain (Loans i)) (bl_snowball bases)
    least rungs tied cert saving).

Definition SearchContext (i : Input) (g : Goal) : result stop (perror + Report) :=
  match ExploreContext ctx cores schedule i with
  | Err e => Err e
  | Panic w => Panic w
  | Ok (inl e) => Ok (inl e)
  | Ok (inr u) => match Rank g u with Ok (r, _) => Ok r | Err e => Err e | Panic w => Panic w end
  end.
End Ranking.

Definition Search (cores : nat) (schedule : nat → list nat) (i : Input) (g : Goal) : result stop (perror + Report) :=
  SearchContext background cores schedule i g.
