(* ===== verification/Optimal.v ===== *)
(** What the answer of a search is worth: the best of every static policy whose
    timings are tried, when the certificate says so.

    The universe is followed through [explore] and [Rank]: what it holds is the
    outcome of every candidate, and what is ranked first is beaten by none. *)
From S2P Require Import Prelude Money Dates Model Fees PlanBase PlanInput SimState Effects Answer Strategies Candidates Sim Tidy Obligations Memo Ladder Search Workers Exhaust Rank.

(** * What is merged *)

Lemma merge_values outs : ∀ rs, merge (Some <$> outs) = inr rs →
  (∀ e, inl e ∈ outs → isInfeasible e = true) ∧ ∀ r, r ∈ rs ↔ inr r ∈ outs.
Proof.
  induction outs as [|[e|x] outs IH]; intros rs H; cbn in H.
  - injection H as <-. split; [by intros e ?%elem_of_nil|]. intros r. by rewrite !elem_of_nil.
  - destruct (isInfeasible e) eqn:Ee; [|done]. destruct (IH rs H) as [H1 H2]. split.
    + intros e' [[= ->]|He]%elem_of_cons; [done|by apply H1].
    + intros r. rewrite H2, elem_of_cons. split; [by right|by intros [|]].
  - destruct (merge (Some <$> outs)) as [e|rs']; [done|]. injection H as <-. destruct (IH rs' eq_refl) as [H1 H2]. split.
    + intros e [|He]%elem_of_cons; [done|by apply H1].
    + intros r. rewrite !elem_of_cons, H2. split; (intros [Hr|Hr]; [left; congruence|by right]).
Qed.

Lemma Forall2_in_l {A B} (P : A → B → Prop) l k x : Forall2 P l k → x ∈ l → ∃ y, y ∈ k ∧ P x y.
Proof.
  intros H [j Hj]%list_elem_of_lookup. eapply Forall2_lookup_l in Hj as (y & Hy & HP); [|exact H].
  exists y. split; [by eapply list_elem_of_lookup_2|done].
Qed.
Lemma Forall2_in_r {A B} (P : A → B → Prop) l k y : Forall2 P l k → y ∈ k → ∃ x, x ∈ l ∧ P x y.
Proof.
  intros H [j Hj]%list_elem_of_lookup. eapply Forall2_lookup_r in Hj as (x & Hx & HP); [|exact H].
  exists x. split; [by eapply list_elem_of_lookup_2|done].
Qed.

(** * A universe and what it holds *)

Section Holding.
Context (norm : Input) (assumed : gmap string nat).

(** A result as the universe files it. *)
Definition filed_result (r : Result) : Result := set Assumed (λ _, assumed) r.

Record holds (u : Universe) : Prop := {
  hd_survey : surveyed norm u;
  hd_runs : u_runs u = None;
  hd_assumed : u_assumed u = assumed;
  hd_memo : remembered norm (u_cache u);
  hd_every : ∀ ro p, ro ∈ u_explored u → p ∈ fst (candidates u ro) →
    (∃ r, Run norm p = Ok (inr r) ∧ filed_result r ∈ Results u) ∨ ∃ e, Run norm p = Ok (inl e) ∧ isInfeasible e = true;
  hd_only : ∀ x, x ∈ Results u →
    ∃ ro p r, ro ∈ u_explored u ∧ p ∈ fst (candidates u ro) ∧ Run norm p = Ok (inr r) ∧ x = filed_result r }.

(** The parts of a universe a survey is about. *)
Definition axes (u : Universe) :=
  (UInput u, u_feeBearer u, u_orders u, u_effects u, u_timings u, u_batches u).

Lemma surveyed_axes u u' :
  axes u' = axes u → (u_trunc u' = ""%string → u_trunc u = ""%string) → surveyed norm u → surveyed norm u'.
Proof using Type.
  unfold axes. intros [= Hi Hf Ho He Ht Hb] Htr Hs. split; rewrite ?Hi, ?Hf, ?Ho, ?He, ?Ht, ?Hb; try apply Hs.
  intros Hw%Htr. destruct (sv_whole norm u Hs Hw) as (H1 & H2 & H3 & H4). split; [done|]. split; [done|]. split; [done|].
  intros r. specialize (H4 r). rewrite length_all_candidates in *. congruence.
Qed.
Lemma candidates_axes u u' ro : axes u' = axes u → candidates u' ro = candidates u ro.
Proof using Type. unfold axes, candidates, all_candidates. by intros [= _ _ -> -> -> ->]. Qed.

(** Nothing but the memo and the count of polls has moved. *)
Lemma holds_cache u c k : holds u → remembered norm c → holds (set u_polls (λ _, k) (set u_cache (λ _, c) u)).
Proof using Type. intros [] Hc. split; try done. by apply (surveyed_axes u). Qed.

Lemma holds_explore ctx cores schedule ro u u' :
  clear_terms norm → (∀ m, ctx m = None) → holds u → explore ctx cores schedule ro u = Ok (inr tt, u') →
  holds u' ∧ ro ∈ u_explored u' ∧ u_cache u' = u_cache u.
Proof using Type.
  intros Ht Hctx Hu H. unfold explore in H. apply step_bind_value in H as ([] & u1 & H1 & H).
  unfold canceled in H1. rewrite Hctx in H1. injection H1 as <-.
  set (u1 := set u_polls S u) in *. assert (holds u1) as Hu1.
  { destruct Hu. split; try done. by apply (surveyed_axes u). }
  apply step_bind_value in H as (done & u2 & [= <- <-] & H). case_bool_decide as Hin.
  { apply step_ret_Ok in H as [_ ->]. done. }
  apply step_bind_value in H as ([] & u2 & [= <-] & H). set (u2 := set u_explored (cons ro) u1) in *.
  apply step_bind_value in H as ([policies capped] & u3 & [= Hpol Hcap <-] & H).
  apply step_bind_value in H as ([] & u3 & H3 & H).
  assert (axes u3 = axes u1 ∧ (u_trunc u3 = ""%string → u_trunc u1 = ""%string) ∧ u_runs u3 = None ∧ u_assumed u3 = assumed ∧
    u_cache u3 = u_cache u1 ∧ u_explored u3 = ro :: u_explored u1 ∧ Results u3 = Results u1)
    as (Hax & Htr & Hruns & Has & Hca & Hex & Hres).
  { destruct Hu1. destruct capped; injection H3 as <-; (split; [done|]); (split; [|done]); [|done].
    cbn. by intros [? _]%truncated_empty. }
  clear H3. apply step_bind_value in H as ([] & u4 & [= <-] & H). set (u4 := set u_attempted _ u3) in *.
  apply step_bind_value in H as (rs & u5 & Hsim & H). injection H as <-.
  assert (UInput u4 = norm) as Hin4.
  { change (UInput u4) with (UInput u3). transitivity (UInput u1); [by injection Hax|apply Hu1]. }
  apply simulateAll_ran in Hsim as (outs & Ho & Hm & k & ->); [|by rewrite Hin4|done|done].
  rewrite Hin4 in Ho. destruct (merge_values outs rs Hm) as [Hinf Hval].
  assert (policies = fst (candidates u1 ro)) as -> by (rewrite <- Hpol; done).
  match goal with |- holds ?x ∧ _ => set (u6 := x) in * end.
  assert (axes u6 = axes u1 ∧ u_explored u6 = ro :: u_explored u1 ∧ Results u6 = Results u1 ++ (filed_result <$> rs) ∧
    (u_trunc u6 = ""%string → u_trunc u1 = ""%string) ∧ u_runs u6 = None ∧ u_assumed u6 = assumed ∧ u_cache u6 = u_cache u)
    as (Hax' & Hex' & Hres' & Htr' & Hruns' & Has' & Hca').
  { split; [exact Hax|]. split; [exact Hex|]. split; [|done].
    transitivity (Results u3 ++ (set Assumed (λ _, u_assumed u3) <$> rs)); [done|]. by rewrite Hres, Has. }
  clearbody u6. split; [|split; [rewrite Hex'; by left|done]]. split; try done.
  - by apply (surveyed_axes u1); [..|apply Hu1].
  - rewrite Hca'. apply Hu1.
  - intros ro' p Hro Hp. rewrite (candidates_axes u1) in Hp by exact Hax'. rewrite Hex' in Hro.
    rewrite Hres'. setoid_rewrite elem_of_app. apply elem_of_cons in Hro as [->|Hro].
    + destruct (Forall2_in_l _ _ _ _ Ho Hp) as ([e|r] & Hout & Hr).
      * right. exists e. auto.
      * left. exists r. split; [done|]. right. apply list_elem_of_fmap. exists r. split; [done|]. by apply Hval.
    + destruct (hd_every u1 Hu1 ro' p Hro Hp) as [(r & Hr & Hin')|He]; [left; eauto|by right].
  - rewrite Hres'. intros x [Hx|Hx]%elem_of_app.
    + destruct (hd_only u1 Hu1 x Hx) as (ro' & p & r & Hro & Hp & Hr & ->). exists ro', p, r.
      rewrite Hex', (candidates_axes u1) by exact Hax'. split; [by right|done].
    + apply list_elem_of_fmap in Hx as (r & -> & Hr%Hval). destruct (Forall2_in_r _ _ _ _ Ho Hr) as (p & Hp & Hrun).
      exists ro, p, r. rewrite Hex', (candidates_axes u1) by exact Hax'. split; [by left|done].
Qed.
End Holding.

(** * The universe a search starts from *)

Lemma survey_holds norm assumed polls u : survey norm assumed false polls = Ok u → holds norm assumed u.
Proof.
  intros H. pose proof (survey_surveyed _ _ _ _ _ H) as Hs. unfold survey in H.
  apply bind_Ok in H as (named & _ & H). case_if_in H; [done|]. cbv zeta in H. injection H as <-.
  split; [done|done|done|apply remembered_new|by intros ro p ?%elem_of_nil|by intros x ?%elem_of_nil].
Qed.

Lemma explored_holds cores schedule norm assumed polls u :
  clear_terms norm → exploreNormalizedContext background cores schedule norm assumed false polls = Ok (inr u) →
  holds norm assumed u.
Proof.
  intros Ht H. unfold exploreNormalizedContext in H. destruct (survey norm assumed false polls) as [u0|e|w] eqn:Es; [|done..].
  apply survey_holds in Es. destruct ((_ ← explore background cores schedule RollFreed; some_result) u0) as [[[e|[]] u']|e|w] eqn:Eu; [done| |done..].
  injection H as ->. apply step_bind_value in Eu as ([] & u1 & H1 & H2).
  destruct (holds_explore norm assumed background cores schedule RollFreed u0 u1 Ht (λ _, eq_refl) Es H1) as (Hu & _).
  unfold some_result in H2. apply step_bind_value in H2 as (rs & u2 & [= <- <-] & H2).
  apply step_bind_value in H2 as (i & u2 & [= <- <-] & H2). destruct (Results u1).
  - apply step_bind_value in H2 as (r & u2 & _ & H2). by apply calls_Ok in H2 as [? _].
  - by apply step_ret_Ok in H2 as [_ ->].
Qed.

(** * Steps that move only the memo *)

Definition cache_only {A} (m : Step Universe A) : Prop :=
  ∀ u r u', m u = Ok (r, u') → ∃ c, u' = set u_cache (λ _, c) u.

Lemma same_cache u : u = set u_cache (λ _, u_cache u) u.
Proof. by destruct u. Qed.
Lemma cache_only_ret {A} (a : A) : cache_only (mret a).
Proof. intros u r u' [_ ->]%step_ret_Ok. exists (u_cache u). apply same_cache. Qed.
Lemma cache_only_reads {A} (f : Universe → A) : cache_only (reads f).
Proof. intros u r u' [= _ <-]. exists (u_cache u). apply same_cache. Qed.
Lemma cache_only_refuse {A} e : cache_only (refuse e : Step Universe A).
Proof. intros u r u' [= _ <-]. exists (u_cache u). apply same_cache. Qed.
Lemma cache_only_on_cache {A} (m : Step cache A) : cache_only (on_cache m).
Proof. intros u r u' H. unfold on_cache in H. destruct (m (u_cache u)) as [[v c]|e|w]; [|done..]. injection H as _ <-. by exists c. Qed.
Lemma cache_only_bind {A B} (m : Step Universe A) (k : A → Step Universe B) :
  cache_only m → (∀ a, cache_only (k a)) → cache_only (m ≫= k).
Proof.
  intros Hm Hk u r u' [(e & H & _)|(a & u1 & H & H1)]%step_bind_Ok; [by eapply Hm|].
  destruct (Hm _ _ _ H) as [c ->], (Hk _ _ _ _ H1) as [c' ->]. by exists c'.
Qed.
Lemma cache_only_tried {A} (m : Step Universe A) : cache_only m → cache_only (tried m).
Proof. intros Hm u r u' (v & _ & H)%tried_Ok. by eapply Hm. Qed.
Lemma cache_only_fold {A B} (f : B → A → Step Universe B) l : (∀ b a, cache_only (f b a)) → ∀ b, cache_only (fold_steps f b l).
Proof. intros Hf. induction l as [|a l IH]; intros b; cbn [fold_steps]; [apply cache_only_ret|]. by apply cache_only_bind. Qed.

Lemma cache_only_or_nothing m : cache_only (or_nothing m).
Proof.
  unfold or_nothing. apply cache_only_bind; [apply cache_only_tried, cache_only_on_cache|intros [e|r]; [|apply cache_only_ret]].
  destruct (isInfeasible e); [apply cache_only_ret|apply cache_only_refuse].
Qed.
Lemma cache_only_baselines base : cache_only (all_baselines base).
Proof.
  unfold all_baselines. apply cache_only_bind; [apply cache_only_reads|intros os]. apply cache_only_fold. intros b o.
  unfold add_order. apply cache_only_fold. clear b. intros b name. unfold add_baseline.
  apply cache_only_bind; [apply cache_only_reads|intros i]. cbv zeta.
  destruct (_ || _); [|destruct (String.eqb name nameSnowball)]; try apply cache_only_ret;
    (apply cache_only_bind; [apply cache_only_or_nothing|intros r; apply cache_only_ret]).
Qed.

(** * The parts of a ranking *)

Lemma on_cache_Ok {A} (m : Step cache A) u r u' :
  on_cache m u = Ok (r, u') → ∃ c, m (u_cache u) = Ok (r, c) ∧ u' = set u_cache (λ _, c) u.
Proof. unfold on_cache. destruct (m (u_cache u)) as [[v c]|e|w]; [|done..]. intros [= -> <-]. by exists c. Qed.

(** What a report says of the ranking it comes from. *)
Record report_of (norm : Input) (g : Goal) (u1 : Universe) (baseline : Amount) (rep : Report) : Prop := {
  ro_sorted : sort_checked (better g baseline) (filter (λ r, PolRollover (ResPolicy r) = wanted g) (Results u1)) = Ok (RpRanked rep);
  ro_best : ∃ rest, RpRanked rep = Best rep :: rest;
  ro_certificate : ∃ c, certificate (set u_cache (λ _, c) u1) g (Best rep) (RpRanked rep) = Ok (RpCertificate rep) }.

Lemma Rank_parts norm assumed cores schedule g u rep u' :
  clear_terms norm → holds norm assumed u → Rank background cores schedule g u = Ok (inr rep, u') →
  ∃ baseline c u1, requiredNow norm (u_cache u) = Ok (inr baseline, c) ∧ holds norm assumed u1 ∧
    wanted g ∈ u_explored u1 ∧ report_of norm g u1 baseline rep.
Proof.
  intros Ht Hu H. unfold Rank in H. apply step_bind_value in H as ([] & u0 & H0 & H). apply calls_Ok in H0 as [_ ->].
  apply step_bind_value in H as (i & ? & [= <- <-] & H). rewrite (sv_input _ _ (hd_survey _ _ _ Hu)) in H.
  apply step_bind_value in H as (baseline & u0 & H0 & H). apply on_cache_Ok in H0 as (c0 & Hreq & ->).
  pose proof (requiredNow_plain norm Ht _ (hd_memo _ _ _ Hu)) as Hplain. rewrite Hreq in Hplain. destruct Hplain as [_ Hc0].
  assert (holds norm assumed (set u_cache (λ _, c0) u)) as Hu0 by (apply (holds_cache norm assumed u c0 (u_polls u) Hu Hc0)).
  apply step_bind_value in H as ([] & u1 & He & H).
  destruct (holds_explore norm assumed background cores schedule _ _ _ Ht (λ _, eq_refl) Hu0 He) as (Hu1 & Hex & _).
  exists baseline, c0, u1. split; [done|]. split; [done|]. split; [done|].
  apply step_bind_value in H as (rs & ? & [= <- <-] & H). cbv zeta in H.
  apply step_bind_value in H as (ranked & ? & Hsort & H). apply calls_Ok in Hsort as [Hsort ->].
  apply step_bind_value in H as (best & ? & Hbest & H). apply calls_Ok in Hbest as [Hbest ->].
  apply step_bind_value in H as (bases & u2 & H2 & H). destruct (cache_only_baselines _ _ _ _ H2) as [c2 ->].
  apply step_bind_value in H as (least & u3 & H3 & H). destruct (cache_only_or_nothing _ _ _ _ H3) as [c3 ->].
  apply step_bind_value in H as (saving & ? & H4 & H). apply calls_Ok in H4 as [_ ->].
  apply step_bind_value in H as (rungs & u5 & H5 & H).
  assert (∃ c5, u5 = set u_cache (λ _, c5) u1) as [c5 ->].
  { case_bool_decide; [apply step_ret_Ok in H5 as [_ ->]; by exists c3|]. apply on_cache_Ok in H5 as (c5 & _ & ->). by exists c5. }
  apply step_bind_value in H as (tied & ? & H6 & H). apply calls_Ok in H6 as [_ ->].
  apply step_bind_value in H as (u6 & ? & [= <- <-] & H). apply step_bind_value in H as (cert & ? & H7 & H).
  apply calls_Ok in H7 as [H7%core_Ok ->]. apply step_ret_Ok in H as [[= ->] _].
  assert (sort_checked (better g baseline) (filter (λ r, PolRollover (ResPolicy r) = wanted g) (Results u1)) = Ok ranked) as Hs.
  { destruct (filter _ _); [done|]. by apply core_Ok in Hsort. }
  split; cbn; [done| |by exists c5]. destruct ranked as [|r rest]; [done|]. injection Hbest as ->. by exists rest.
Qed.

(** The total required now does not depend on the memo it is asked through. *)
Lemma fold_steps_truth {A B} i (f : B → A → Step cache B) l :
  (∀ b a, a ∈ l → ∃ v, tells_truth i (f b a) v) → ∀ b, ∃ v, tells_truth i (fold_steps f b l) v.
Proof.
  induction l as [|a l IH]; intros Hf b; [by exists (Ok (inr b))|]. cbn [fold_steps].
  destruct (Hf b a ltac:(by left)) as [v Hv]. assert (∀ b a, a ∈ l → ∃ v, tells_truth i (f b a) v) as Hl by (intros; apply Hf; by right).
  destruct v as [[e|b']|e|w].
  - exists (Ok (inl e)). intros c Hc. specialize (Hv c Hc). unfold mbind, Step_bind.
    destruct (f b a c) as [[r c']|?|?]; [|done..]. by destruct Hv as [[= <-] ?].
  - destruct (IH Hl b') as [v Hv']. exists v. intros c Hc. specialize (Hv c Hc). unfold mbind, Step_bind.
    destruct (f b a c) as [[r c']|?|?]; [|done..]. destruct Hv as [[= <-] Hc']. by apply Hv'.
  - exists (Err e). intros c Hc. specialize (Hv c Hc). unfold mbind, Step_bind. destruct (f b a c) as [[r c']|?|?]; [by destruct Hv|congruence..].
  - exists (Panic w). intros c Hc. specialize (Hv c Hc). unfold mbind, Step_bind. destruct (f b a c) as [[r c']|?|?]; [by destruct Hv|congruence..].
Qed.

Lemma requiredNow_truth i : clear_terms i → ∃ v, tells_truth i (requiredNow i) v.
Proof.
  intros Ht. apply fold_steps_truth. intros total l Hl. unfold add_required.
  destruct (Sign (PosBalance l) <=? 0); [by exists (Ok (inr total))|].
  pose proof (memo_next_truth i (standing_loan l) Ht (standing_known i l Ht Hl)) as Hn.
  destruct (fresh (standing_loan l)) as [o|e|w]; eexists; intros c Hc; specialize (Hn c Hc); unfold mbind, Step_bind;
    destruct (memo_next (standing_loan l) c) as [[[e'|o'] c']|?|?]; try (by destruct Hn); try congruence.
  - destruct Hn as [[= <-] Hc']. unfold calls. instantiate (1 := match core (Add total (o_required o)) with
      | Ok a => Ok (inr a) | Err e => Ok (inl e) | Panic w => Panic w end). by destruct (core _).
  - destruct Hn as [[= <-] Hc']. split; [reflexivity|done].
  - instantiate (1 := Panic w). congruence.
Qed.
Lemma requiredNow_any i c c' r c1 :
  clear_terms i → remembered i c → remembered i c' → requiredNow i c = Ok (r, c1) → ∃ c2, requiredNow i c' = Ok (r, c2).
Proof.
  intros Ht Hc Hc' H. destruct (requiredNow_truth i Ht) as [v Hv]. pose proof (Hv c Hc) as H1. rewrite H in H1.
  destruct H1 as [-> _]. specialize (Hv c' Hc'). destruct (requiredNow i c') as [[r' c2]|?|?]; [|done..].
  destruct Hv as [[= ->] _]. by exists c2.
Qed.

(** * Comparing what was found *)

(** The target of a relief goal is in the plan's currency. *)
Definition goal_in (cr : Currency) (g : Goal) : Prop :=
  GKind g = Relief → Code (cur (if 0 <? Sign (Free g) then Free g else Cap g)) = Code cr.
Lemma goal_in_fits cr g baseline : goal_in cr g → cur baseline = cr → goal_fits cr g baseline.
Proof. intros Hg Hb Hk. specialize (Hg Hk). destruct (0 <? Sign (Free g)); [|done]. by rewrite Hb. Qed.

Lemma lex_app l k l' k' e : length l = length k → lex_less (l ++ l') (k ++ k') e = lex_less l k (lex_less l' k' e).
Proof. revert k. induction l as [|x l IH]; intros [|y k] Hn; try done. cbn in Hn |- *. by rewrite IH by lia. Qed.
Lemma lex_weaken l : ∀ k (e e' : bool), (e = true → e' = true) → lex_less l k e' = false → lex_less l k e = false.
Proof.
  intros k e e' He. assert (e' = false → e = false) as Hf by (destruct e, e'; intros; first [done|by rewrite He]). clear He. revert k.
  induction l as [|x l IH]; intros [|y k]; cbn; try done. destruct (x <? y), (x =? y); cbn; [done..| |done]. apply IH.
Qed.

(** What is not ahead has no merits ahead. *)
Lemma not_ahead_merits g baseline a b :
  ahead_of g baseline a b = false → lex_less (merits g baseline a) (merits g baseline b) false = false.
Proof.
  unfold ahead_of, standing_less, standing_of, figures. cbn [st_figures st_name]. rewrite lex_app.
  - apply lex_weaken. done.
  - unfold merits. by destruct (GKind g).
Qed.
Lemma merits_cost g baseline a b :
  GKind g = LeastInterest → lex_less (merits g baseline a) (merits g baseline b) false = false → cost_of b ≤ cost_of a.
Proof. unfold merits. intros ->. cbn [lex_less]. destruct (Z.ltb_spec (cost_of a) (cost_of b)); [done|]. intros _. lia. Qed.

(** Neither the name a result is filed under nor the tally of assumed payments
    is a merit. *)
Lemma merits_filed g baseline assumed p r :
  merits g baseline (filed_result assumed (set ResPolicy (λ _, p) r)) = merits g baseline r.
Proof. done. Qed.

Lemma renamed_same norm p name : same_choices norm (with_name p name) p.
Proof. split; try done. by left. Qed.

Section Best.
Context (norm : Input) (assumed : gmap string nat) (g : Goal) (u : Universe) (baseline : Amount) (rep : Report).
Context (Ht : clear_terms norm) (Hu : holds norm assumed u) (Hw : wanted g ∈ u_explored u)
  (Hrep : report_of norm g u baseline rep).

Lemma elem_of_ranked x : x ∈ RpRanked rep ↔ x ∈ Results u ∧ PolRollover (ResPolicy x) = wanted g.
Proof using Hrep.
  pose proof (sort_checked_perm _ _ _ (ro_sorted _ _ _ _ _ Hrep)) as Hp. rewrite Hp, list_elem_of_filter. tauto.
Qed.

(** A result of the universe is the run of its own policy. *)
Lemma found x : x ∈ Results u →
  ∃ ro r, ro ∈ u_explored u ∧ ResPolicy r ∈ fst (candidates u ro) ∧ Run norm (ResPolicy r) = Ok (inr r) ∧ x = filed_result assumed r.
Proof using Hu Ht.
  intros (ro & p & r & Hro & Hp & Hr & ->)%(hd_only _ _ _ Hu). exists ro, r.
  assert (ResPolicy r = p) as ->; [|done]. unfold Run in Hr. destruct (run norm p newCache) as [[r' c]|?|?] eqn:E; [|done..].
  injection Hr as ->. apply (filed_own norm p newCache _ c Ht (remembered_new norm)) in E. cbn in E. injection E as E.
  by rewrite <- E.
Qed.

(** An unlabelled, fee-free universe gives every candidate an identifier. *)
Lemma found_comparable :
  u_trunc u = ""%string → u_feeBearer u = false → Forall (λ r, in_i64 (cost_of r)) (RpRanked rep) →
  Forall (comparable (in_currency norm)) (RpRanked rep).
Proof using Ht Hu Hrep.
  intros Htr Hfee Hcost. rewrite Forall_forall in *. intros x Hx. specialize (Hcost x Hx).
  apply elem_of_ranked in Hx as [Hx _]. apply found in Hx as (ro & r & _ & Hp & Hr & ->).
  apply Run_tidy in Hr as [H1 H2 [H3 H4] H5 H6]. split; [cbn; congruence|]. split; [cbn; congruence|].
  split; [done|]. split; [done|]. split; [done|]. split; [cbn; congruence|]. split.
  { cbn. eapply Forall_impl; [done|]. cbn. intros m ->. done. }
  destruct (surveyed_candidates norm u ro (hd_survey _ _ _ Hu) Htr) as [Hc Hs]. rewrite Hc in Hp. cbn [fst] in Hp.
  assert (static_policy norm ro (ResPolicy r) ∧ timing_tried norm (Loans norm) (PolTiming (ResPolicy r))) as [Hst _].
  { apply Hs. exists (ResPolicy r). split; [done|]. by destruct (ResPolicy r). }
  assert (MinPrepay (ResPolicy r) = no_amount) as Hm.
  { destruct (sp_minimum _ _ _ Hst) as [|[Hf _]]; [done|]. rewrite <- (sv_fees _ _ (hd_survey _ _ _ Hu)) in Hf. congruence. }
  cbn. unfold Policy_ID. rewrite Hm. eexists. reflexivity.
Qed.

Lemma best_of_all :
  goal_in (in_currency norm) g → cur baseline = in_currency norm →
  u_trunc u = ""%string → u_feeBearer u = false → Forall (λ r, in_i64 (cost_of r)) (RpRanked rep) →
  ∃ r0, (static_policy norm (wanted g) (ResPolicy r0) ∧ timing_tried norm (Loans norm) (PolTiming (ResPolicy r0))) ∧
    Run norm (ResPolicy r0) = Ok (inr r0) ∧ Best rep = filed_result assumed r0 ∧
    ∀ pol r, static_policy norm (wanted g) pol ∧ timing_tried norm (Loans norm) (PolTiming pol) → Run norm pol = Ok (inr r) →
      lex_less (merits g baseline r) (merits g baseline (Best rep)) false = false.
Proof using Ht Hu Hw Hrep.
  intros Hg Hb Htr Hfee Hcost. pose proof (found_comparable Htr Hfee Hcost) as Hcomp.
  destruct (ro_best _ _ _ _ _ Hrep) as [rest Hbest].
  assert (Best rep ∈ RpRanked rep) as Hin by (rewrite Hbest; by left).
  pose proof Hin as [Hres Hroll]%elem_of_ranked. apply found in Hres as (ro & r0 & Hro & Hp & Hr0 & E).
  exists r0. destruct (surveyed_candidates norm u ro (hd_survey _ _ _ Hu) Htr) as [Hc Hs]. rewrite Hc in Hp. cbn [fst] in Hp.
  assert (static_policy norm ro (ResPolicy r0) ∧ timing_tried norm (Loans norm) (PolTiming (ResPolicy r0))) as Hst.
  { apply Hs. exists (ResPolicy r0). split; [done|]. by destruct (ResPolicy r0). }
  assert (ro = wanted g) as ->.
  { rewrite <- Hroll, E, <- (sp_rollover _ _ _ (proj1 Hst)). done. }
  split; [done|]. split; [done|]. split; [done|]. intros pol r Hpol Hr.
  destruct (surveyed_candidates norm u (wanted g) (hd_survey _ _ _ Hu) Htr) as [Hc' Hs'].
  apply Hs' in Hpol as (p & Hp' & Hpol).
  pose proof (Run_same norm _ _ Ht (renamed_same norm p (PolName pol))) as Hsame. rewrite <- Hpol, Hr in Hsame.
  assert (p ∈ fst (candidates u (wanted g))) as Hpc by by rewrite Hc'.
  destruct (hd_every _ _ _ Hu (wanted g) p Hw Hpc) as [(r' & Hr' & Hin')|(e & He & _)]; [|by rewrite He in Hsame].
  rewrite Hr' in Hsame. cbn in Hsame. injection Hsame as Hsame.
  assert (filed_result assumed r' ∈ RpRanked rep) as Hr''.
  { apply elem_of_ranked. split; [done|]. rewrite Hsame. cbn.
    apply elem_of_all_candidates in Hp' as (? & ? & ? & ? & _ & _ & _ & _ & ->). done. }
  assert (merits g baseline r = merits g baseline (filed_result assumed r')) as -> by by rewrite Hsame.
  apply not_ahead_merits. rewrite Hbest in Hr''. apply elem_of_cons in Hr'' as [->|Hrest].
  { unfold ahead_of. apply not_true_iff_false. intros Hlt. pose proof (standing_asym _ _ Hlt). congruence. }
  pose proof (goal_in_fits _ _ _ Hg Hb) as Hfits.
  assert (StronglySorted (λ a b, better g baseline b a = Ok false) (RpRanked rep)) as Hsorted.
  { pose proof (ro_sorted _ _ _ _ _ Hrep) as Hsort. rewrite Forall_forall in Hcomp.
    destruct (ranking_sorted (in_currency norm) g baseline (filter (λ r, PolRollover (ResPolicy r) = wanted g) (Results u)) Hfits) as [H1 H2].
    - apply Forall_forall. intros x Hx. apply Hcomp. by rewrite (sort_checked_perm _ _ _ Hsort).
    - rewrite Hsort in H1. injection H1 as ->. done. }
  rewrite Hbest in Hsorted. apply StronglySorted_inv in Hsorted as [_ Hall]. rewrite Forall_forall in Hall, Hcomp.
  specialize (Hall _ Hrest). rewrite (better_ahead (in_currency norm)) in Hall.
  - by injection Hall.
  - done.
  - apply Hcomp. rewrite Hbest. by right.
  - by apply Hcomp.
Qed.
End Best.

(** What the certificate calls exhaustive. *)
Lemma certificate_whole u g best ranked cert :
  certificate u g best ranked = Ok cert → CeStrength cert ∈ [ExhaustiveStaticOrder; ProvenOptimal] →
  u_trunc u = ""%string ∧ u_feeBearer u = false.
Proof.
  unfold certificate. intros H Hs. apply bind_Ok in H as (cost & _ & H). apply bind_Ok in H as (rule & Hrule & H).
  unfold provable, claimed in *. destruct (String.eqb_spec (u_trunc u) "") as [Ht|Ht], (u_feeBearer u); [|done| |];
    cbn [negb] in Hrule, H; rewrite ?orb_true_r in Hrule; cbn [orb] in Hrule; injection Hrule as <-; exfalso;
    repeat case_match; simplify_eq; cbn in Hs; by set_unfold; naive_solver.
Qed.

(** C6. The certificate means what it says, for the timings the search tries. When
    a search answers with the strength of an exhaustive or a proved search, its
    best plan is the run of a static policy, and no static policy does better on
    the goal's own figures (for the least interest, none costs less): no order of
    the loans, no mix of free effects, under whatever name, with all the loans
    that can be credited early early, or none, or any mix where some loan bears a
    fee. With at most one such loan that is every static policy there is; with two
    or more and no fees the other mixes of timings are not tried, although the
    strength is said to be exhaustive per loan timing, and one of them can do
    better ([mixed_timing_does_better]). The costs of the ranked runs fit an int64;
    the cores and the schedule of the goroutines are any. *)
Theorem Search_best cores schedule i g rep norm assumed :
  Normalize i = Ok (norm, assumed) → clear_terms norm → goal_in (in_currency norm) g →
  Search cores schedule i g = Ok (inr rep) →
  Forall (λ r, in_i64 (cost_of r)) (RpRanked rep) →
  CeStrength (RpCertificate rep) ∈ [ExhaustiveStaticOrder; ProvenOptimal] →
  ∃ baseline c r0,
    requiredNow norm newCache = Ok (inr baseline, c) ∧
    static_policy norm (wanted g) (ResPolicy r0) ∧ timing_tried norm (Loans norm) (PolTiming (ResPolicy r0)) ∧
    Run norm (ResPolicy r0) = Ok (inr r0) ∧ Best rep = filed_result assumed r0 ∧
    ∀ pol r, static_policy norm (wanted g) pol →
      timing_tried norm (Loans norm) (PolTiming pol) ∨ (length (indices (may_credit norm) (Loans norm)) ≤ 1)%nat →
      Run norm pol = Ok (inr r) →
      lex_less (merits g baseline r) (merits g baseline (Best rep)) false = false ∧
      (GKind g = LeastInterest → cost_of (Best rep) ≤ cost_of r).
Proof.
  intros Hn Ht Hg H Hcost Hstrength. unfold Search, SearchContext, ExploreContext in H. cbn [background] in H. rewrite Hn in H.
  destruct (exploreNormalizedContext background cores schedule norm assumed false 1) as [[e|u]|e|w] eqn:Eu; [done| |done..].
  destruct (Rank background cores schedule g u) as [[r u']|e|w] eqn:Er; [|done..]. injection H as ->.
  apply (explored_holds _ _ _ _ _ _ Ht) in Eu. apply (Rank_parts norm assumed) in Er as (baseline & c & u1 & Hreq & Hu1 & Hw & Hrep); [|done..].
  destruct (ro_certificate _ _ _ _ _ Hrep) as [c' Hcert]. destruct (certificate_whole _ _ _ _ _ Hcert Hstrength) as [Htr Hfee].
  pose proof (requiredNow_plain norm Ht _ (hd_memo _ _ _ Eu)) as Hb. rewrite Hreq in Hb. destruct Hb as [[Hb _] _].
  destruct (requiredNow_any norm _ newCache _ _ Ht (hd_memo _ _ _ Eu) (remembered_new norm) Hreq) as [c2 Hreq2].
  destruct (best_of_all norm assumed g u1 baseline rep Ht Hu1 Hw Hrep Hg Hb Htr Hfee Hcost) as (r0 & [H1 H1'] & H2 & H3 & H4).
  exists baseline, c2, r0. do 5 (split; [done|]). intros pol r Hpol Htried Hr.
  assert (timing_tried norm (Loans norm) (PolTiming pol)) as Htime
    by (destruct Htried as [|Hone]; [done|]; apply one_timing, Hpol; exact Hone).
  specialize (H4 pol r (conj Hpol Htime) Hr). split; [done|]. intros Hk. by eapply merits_cost.
Qed.

(** The filed loan under a larger budget: paid off in two months, whatever is
    chosen of the two effects and the two timings. *)
Definition brief_plan : Input := with_monthly memo_plan (MkAmount 60000000 AMD).
Definition cheapest : Goal := MkGoal LeastInterest no_amount no_amount.
Definition fits (r : Result) : bool := (MinInt64 <=? cost_of r) && (cost_of r <=? MaxInt64).
Definition found_exhaustively (x : result stop (perror + Report)) : bool :=
  match x with
  | Ok (inr rep) => bool_decide (CeStrength (RpCertificate rep) = ExhaustiveStaticOrder) &&
      Nat.eqb (length (RpRanked rep)) 4 && forallb fits (RpRanked rep)
  | _ => false
  end.

Lemma Search_best_witness :
  ∃ rep r0, Search 1 (λ _, []) brief_plan cheapest = Ok (inr rep) ∧ Best rep = filed_result ∅ r0 ∧
    ∀ pol r, static_policy brief_plan RollFreed pol → Run brief_plan pol = Ok (inr r) → cost_of (Best rep) ≤ cost_of r.
Proof.
  assert (found_exhaustively (Search 1 (λ _, []) brief_plan cheapest) = true) as Hf by (vm_compute; reflexivity).
  destruct (Search 1 (λ _, []) brief_plan cheapest) as [[e|rep]|e|w] eqn:Es; try discriminate Hf.
  apply andb_true_iff in Hf as [[Hstr%bool_decide_eq_true _]%andb_true_iff Hfit].
  assert (Normalize brief_plan = Ok (brief_plan, ∅)) as Hn by (vm_compute; reflexivity).
  assert (clear_terms brief_plan) as Ht.
  { split; [|intros p ->%list_elem_of_singleton; reflexivity].
    intros p q ->%list_elem_of_singleton ->%list_elem_of_singleton _. reflexivity. }
  destruct (Search_best 1 (λ _, []) brief_plan cheapest rep brief_plan ∅ Hn Ht) as (baseline & c & r0 & _ & _ & _ & _ & Hb & H).
  - intros Hk. discriminate Hk.
  - exact Es.
  - apply Forall_forall. intros r Hr%list_elem_of_In. rewrite forallb_forall in Hfit. specialize (Hfit r Hr).
    apply andb_true_iff in Hfit as [?%Z.leb_le ?%Z.leb_le]. by split.
  - rewrite Hstr. by left.
  - exists rep, r0. split; [reflexivity|]. split; [exact Hb|]. intros pol r Hpol Hr. refine (proj2 (H pol r Hpol (or_intror _) Hr) eq_refl).
    vm_compute; lia.
Defined.

(** Two loans, one of them free of interest, and three receipts before its due
    date: paying it on receipt costs the same as on the due date and takes three
    prepayments more, while the other loan is best paid on receipt. *)
Definition fixed_terms (id : string) (day rate : Z) : Contract :=
  MkContract id 1 AMD (MkDate 2024 1 day) zero_date rate Actual365 Annuity (MkDate 2024 1 day) (MkDate 2025 1 day) day
    zero_date no_amount false (Money.MkPolicy HalfUp 10) (MkPrepayment PrepayShortenTerm 0 [] no_amount) (MkPolicyRef "bank" 1).
Definition on_terms (id : string) (day rate balance : Z) : Position :=
  MkPosition id id (fixed_terms id day rate) (MkAmount balance AMD) (MkDate 2024 3 21) Allocation.ExcessReducePrincipal "user_entered" false.
Definition receipt (day n : Z) : CashEvent := MkCashEvent "" None false (MkDate 2024 4 day) (MkAmount n AMD) false.
Definition mixed_plan : Input :=
  MkInput (MkDate 2024 3 21)
    (MkCashPlan zero_date None (MkAmount 40000000 AMD) 15 (MkAmount 0 AMD) (MkAmount 0 AMD)
      [receipt 3 15000000; receipt 5 5000000; receipt 7 5000000] ∅)
    [on_terms "free" 15 0 60000000; on_terms "dear" 20 90000000 10000000] 0.
Definition mixed_policy : PlanInput.Policy :=
  PlanInput.MkPolicy false "mixed" [1%nat; 0%nat] [OnDue; OnReceipt] [PrepayBorrowerChooses; PrepayBorrowerChooses] RollFreed no_amount.

Definition answers (x : result stop (perror + Report)) : option (Strength * list Z) :=
  match x with Ok (inr rep) => Some (CeStrength (RpCertificate rep), merits cheapest no_amount (Best rep)) | _ => None end.
Definition comes_to (x : result stop (perror + Result)) : option (list Z) :=
  match x with Ok (inr r) => Some (merits cheapest no_amount r) | _ => None end.

(** The search calls its answer exhaustive per loan timing; a mix it did not
    try pays the same, on the same day, in two prepayments instead of five. *)
Example mixed_timing_does_better :
  static_policy mixed_plan RollFreed mixed_policy ∧
  answers (Search 1 (λ _, []) mixed_plan cheapest) = Some (ExhaustiveStaticOrder, [32050; 2024; 5; 15; 5]) ∧
  comes_to (Run mixed_plan mixed_policy) = Some [32050; 2024; 5; 15; 2].
Proof.
  split; [|split; vm_compute; reflexivity]. split; [done|apply Permutation_swap| | |done|by left].
  - split; [done|]. intros [|[|k]] l Hl; [| |done]; injection Hl as <-; eexists; (split; [reflexivity|]); reflexivity.
  - split; [done|]. intros [|[|k]] l Hl; [| |done]; injection Hl as <-; eexists; (split; [reflexivity|]).
    + by right.
    + by left.
Qed.
