(* ===== verification/Stress.v ===== *)
(** The stress report, [pkg/core/plan/plan_stress.go]: the selected policy
    replayed with every scheduled receipt three days late, beside the
    perturbations the engine cannot replay and says so.

    The health of a report is shown to be decided by the two replays and the
    debt alone, whatever the other cases say. *)
From S2P Require Import Prelude Money Dates Model Fees PlanBase PlanInput SimState Sim Memo Ladder.

Inductive StressHealth := StressHealthy | StressTight | StressInfeasible | StressUnknown.
#[export] Instance StressHealth_eq_dec : EqDecision StressHealth.
Proof. solve_decision. Defined.
Inductive StressStatus := StressPassed | StressFailed | StressNotApplicable | StressCaseUnknown.
#[export] Instance StressStatus_eq_dec : EqDecision StressStatus.
Proof. solve_decision. Defined.
Inductive StressReason := StressExactReplay | StressLateIncome | StressExpectedExcluded | StressNoExpected
  | StressPaydayUnknown | StressRequiredConfigMissing | StressRequiredTermsMissing | StressCalendarMissing
  | StressNoExtras | StressNoFees | StressFeeRuleMissing | StressFixedFees | StressNoDebt | StressHorizonUnknown
  | StressDomainUnknown.

Record StressOptions := MkStressOptions { RequiredIncreaseBP : Z }.

(** [Failure] points at the refusal of the run. *)
Record StressCase := MkStressCase {
  ScID : string;
  ScStatus : StressStatus;
  ScReason : StressReason;
  ScFailure : option perror;
  ScPayoffDate : Date }.
#[export] Instance StressCase_eta : Eta StressCase := λ c,
  MkStressCase (ScID c) (ScStatus c) (ScReason c) (ScFailure c) (ScPayoffDate c).

Record StressReport := MkStressReport {
  Health : StressHealth;
  BaseCase : StressCase;
  Cases : list StressCase;
  SrIncreaseBP : Z }.

(** [stressOutcome]: a failed run hands back the zero result. *)
Definition stressOutcome (id : string) (reason : StressReason) (r : perror + Result) : pres StressCase :=
  match r with
  | inr r => Ok (MkStressCase id StressPassed reason None (PayoffDate r))
  | inl e =>
      if isInfeasible e then Ok (MkStressCase id StressFailed reason (Some e) zero_date)
      else if is_horizon e then Ok (MkStressCase id StressCaseUnknown StressHorizonUnknown None zero_date)
      else match e with
        | UnsupportedError _ _ => Ok (MkStressCase id StressCaseUnknown StressDomainUnknown None zero_date)
        | _ => Err e
        end
  end.

(** The replay with receipts [delay] days late, from an empty memo. *)
Definition replay (i : Input) (pol : PlanInput.Policy) (delay : Z) : result stop (perror + Result) :=
  match runConfigured i pol newCache None delay with
  | Ok (r, _) => Ok r
  | Err e => Err e
  | Panic w => Panic w
  end.
Definition judged (id : string) (reason : StressReason) (m : result stop (perror + Result)) :
    result stop (perror + StressCase) :=
  match m with
  | Ok r => match stressOutcome id reason r with Ok c => Ok (inr c) | Err e => Ok (inl e) | Panic w => Panic w end
  | Err e => Err e
  | Panic w => Panic w
  end.

(** ** The cases *)

Definition live_debt (i : Input) : bool := existsb (λ l, 0 <? Sign (PosBalance l)) (Loans i).
Definition unknown_case (id : string) (reason : StressReason) : StressCase :=
  MkStressCase id StressCaseUnknown reason None zero_date.

Definition income_case (i : Input) (pol : PlanInput.Policy) : result stop (perror + StressCase) :=
  if 0 <? PayDay (Cash i) then judged "income_three_days_late" StressLateIncome (replay i pol 3)
  else Ok (inr (unknown_case "income_three_days_late" StressPaydayUnknown)).

Definition expected_case (i : Input) (base : StressCase) : StressCase :=
  if existsb Expected (Lumps (Cash i))
  then MkStressCase "missing_expected_cash" (ScStatus base) StressExpectedExcluded (ScFailure base) (ScPayoffDate base)
  else MkStressCase "missing_expected_cash" StressNotApplicable StressNoExpected None zero_date.

Definition required_case (o : StressOptions) : StressCase :=
  unknown_case "required_payment_increase"
    (if 0 <? RequiredIncreaseBP o then StressRequiredTermsMissing else StressRequiredConfigMissing).

Definition posting_case (base : perror + Result) : StressCase :=
  let c := unknown_case "next_business_day_credit" StressCalendarMissing in
  match base with
  | inr r => if Prepayments r =? 0 then c <| ScStatus := StressNotApplicable |> <| ScReason := StressNoExtras |> else c
  | inl _ => c
  end.

(** The loops over the fee rules, left at the first rule that has no maximum. *)
Definition fee_missing (fee : StressCase) : StressCase :=
  fee <| ScStatus := StressCaseUnknown |> <| ScReason := StressFeeRuleMissing |>.
Fixpoint charge_loop (base : StressCase) (charges : list PrepaymentCharge) (fee : StressCase) : StressCase :=
  match charges with
  | [] => fee
  | c :: charges =>
      if negb (PercentBP c =? 0) then fee_missing fee
      else charge_loop base charges
        (if bool_decide (ScStatus fee = StressCaseUnknown) then fee
         else fee <| ScStatus := ScStatus base |> <| ScReason := StressFixedFees |> <| ScFailure := ScFailure base |>)
  end.
Fixpoint fee_loop (base : StressCase) (ls : list Position) (fee : StressCase) : StressCase :=
  match ls with
  | [] => fee
  | l :: ls =>
      if Sign (PosBalance l) <=? 0 then fee_loop base ls fee
      else
        let pp := Prepayment (PosContract l) in
        if negb (FeeBP pp =? 0) then fee_missing fee
        else
          let fee := charge_loop base (Charges pp) fee in
          if bool_decide (ScStatus fee = StressCaseUnknown) then fee else fee_loop base ls fee
  end.
Definition fee_case (i : Input) (base : StressCase) : StressCase :=
  fee_loop base (Loans i) (MkStressCase "maximum_verified_fee" StressNotApplicable StressNoFees None zero_date).

Definition no_debt (c : StressCase) : StressCase :=
  c <| ScStatus := StressNotApplicable |> <| ScReason := StressNoDebt |>.

(** The loop over the cases: a failure ends it. *)
Fixpoint health_loop (cases : list StressCase) (h : StressHealth) : StressHealth :=
  match cases with
  | [] => h
  | c :: cases =>
      match ScStatus c with
      | StressFailed => StressTight
      | StressCaseUnknown => health_loop cases StressUnknown
      | _ => health_loop cases h
      end
  end.
Definition health_of (base : StressCase) (cases : list StressCase) : StressHealth :=
  match ScStatus base with
  | StressFailed => StressInfeasible
  | StressCaseUnknown => StressUnknown
  | _ => health_loop cases StressHealthy
  end.

(** The report beside an error is dropped, as callers do. *)
Definition StressCases (i : Input) (pol : PlanInput.Policy) (o : StressOptions) : result stop (perror + StressReport) :=
  if (RequiredIncreaseBP o <? 0) || (10000 <? RequiredIncreaseBP o)
  then Ok (inl (Core (Errorf "plan: stress percentage must be between zero and 10000 basis points")))
  else
    match Input_Validate i with
    | Panic w => Panic w
    | Err e => Ok (inl e)
    | Ok _ =>
        match Run i pol with
        | Panic w => Panic w
        | Err e => Err e
        | Ok r =>
            match stressOutcome "base" StressExactReplay r, income_case i pol with
            | Panic w, _ => Panic w
            | Err e, _ => Ok (inl e)
            | Ok _, Panic w => Panic w
            | Ok _, Err e => Err e
            | Ok _, Ok (inl e) => Ok (inl e)
            | Ok base, Ok (inr income) =>
                let debt := live_debt i in
                let income := if debt then income else no_debt income in
                let required := if debt then required_case o else no_debt (required_case o) in
                let cases := [income; expected_case i base; required; posting_case r; fee_case i base] in
                Ok (inr (MkStressReport (health_of base cases) base cases (RequiredIncreaseBP o)))
            end
        end
    end.

(** * What decides the health *)

(** The replay with late receipts meets an instalment it cannot pay. *)
Definition late_fails (i : Input) (pol : PlanInput.Policy) : Prop :=
  ∃ e, replay i pol 3 = Ok (inl e) ∧ isInfeasible e = true.

(** A case that did not fail only takes health away. *)
Lemma health_loop_spec cases : ∀ h, h = StressHealthy ∨ h = StressUnknown →
  health_loop cases h =
    if existsb (λ c, bool_decide (ScStatus c = StressFailed)) cases then StressTight
    else if existsb (λ c, bool_decide (ScStatus c = StressCaseUnknown)) cases then StressUnknown else h.
Proof.
  induction cases as [|c cases IH]; intros h Hh; [done|]. cbn [health_loop existsb].
  destruct (ScStatus c); cbn; rewrite ?IH by auto; repeat case_match; done.
Qed.

Definition not_failed (c : StressCase) : Prop := ScStatus c ≠ StressFailed.

Lemma charge_loop_keeps base cs : not_failed base → ∀ fee, not_failed fee → not_failed (charge_loop base cs fee).
Proof.
  unfold not_failed. intros Hb. induction cs as [|c cs IH]; intros fee Hf; [done|]. cbn [charge_loop].
  destruct (PercentBP c =? 0); [|done]. apply IH. by case_bool_decide.
Qed.
Lemma fee_loop_keeps base ls : not_failed base → ∀ fee, not_failed fee → not_failed (fee_loop base ls fee).
Proof.
  unfold not_failed. intros Hb. induction ls as [|l ls IH]; intros fee Hf; [done|]. cbn [fee_loop].
  destruct (Sign (PosBalance l) <=? 0); [by apply IH|]. destruct (FeeBP _ =? 0); [|done]. cbv zeta.
  pose proof (charge_loop_keeps base (Charges (Prepayment (PosContract l))) Hb fee Hf) as Hc.
  case_bool_decide; [done|by apply IH].
Qed.
Lemma fee_loop_no_debt base ls fee : existsb (λ l, 0 <? Sign (PosBalance l)) ls = false → fee_loop base ls fee = fee.
Proof.
  induction ls as [|l ls IH]; [done|]. cbn. intros [Hl Hls]%orb_false_iff.
  destruct (Z.leb_spec (Sign (PosBalance l)) 0); [by apply IH|]. by apply Z.ltb_ge in Hl; lia.
Qed.

Lemma income_case_failed i pol c :
  income_case i pol = Ok (inr c) → ScStatus c = StressFailed ↔ 0 < PayDay (Cash i) ∧ late_fails i pol.
Proof.
  unfold income_case, late_fails. destruct (Z.ltb_spec 0 (PayDay (Cash i))).
  - unfold judged. destruct (replay i pol 3) as [[e|r]|e|w]; [| |done..]; cbn [stressOutcome].
    + destruct (isInfeasible e) eqn:Ei.
      { intros [= <-]. split; [|done]. intros _. split; [done|]. by exists e. }
      assert (∀ P, P ∧ (∃ e', Ok (E := stop) (inl (B := Result) e) = Ok (inl e') ∧ isInfeasible e' = true) → False) as Hno.
      { intros P (_ & e' & [= <-] & He'). congruence. }
      destruct (is_horizon e); [intros [= <-]|destruct e; try discriminate; intros [= <-]]; (split; [done|]); intros Hx; by apply Hno in Hx.
    + intros [= <-]. split; [done|]. by intros (_ & e & [=] & _).
  - intros [= <-]. cbn. split; [done|lia].
Qed.

(** C10. The health of a stress report is decided by two replays and the debt.
    A plan the base run refuses for cash is infeasible, with that refusal as its
    evidence; one it cannot judge is unknown. A plan that settles is tight exactly
    when it has debt, a known payday, and the replay with receipts three days late
    meets an instalment it cannot pay. It is healthy exactly when there is nothing
    left to pay: with debt the required-payment case stays unknown, so the report
    never claims health it has not replayed. *)
Theorem StressCases_health i pol o rep :
  StressCases i pol o = Ok (inr rep) →
  0 ≤ SrIncreaseBP rep ≤ 10000 ∧ length (Cases rep) = 5%nat ∧
  match Run i pol with
  | Ok (inl e) =>
      Health rep = (if isInfeasible e then StressInfeasible else StressUnknown) ∧
      ScFailure (BaseCase rep) = (if isInfeasible e then Some e else None)
  | Ok (inr r) =>
      (Health rep = StressTight ↔ live_debt i = true ∧ 0 < PayDay (Cash i) ∧ late_fails i pol) ∧
      (Health rep = StressHealthy ↔ live_debt i = false ∧ Prepayments r = 0) ∧ Health rep ≠ StressInfeasible
  | _ => False
  end.
Proof.
  unfold StressCases. intros H. destruct (Z.ltb_spec (RequiredIncreaseBP o) 0), (Z.ltb_spec 10000 (RequiredIncreaseBP o)); try done.
  cbn [orb] in H. destruct (Input_Validate i); [|done..]. destruct (Run i pol) as [[e|r]|e|w]; [| |done..]; cbn [stressOutcome] in H.
  - destruct (isInfeasible e).
    { destruct (income_case i pol) as [[?|income]|?|?]; try done. injection H as <-. cbn. split; [lia|]. done. }
    destruct (is_horizon e).
    { destruct (income_case i pol) as [[?|income]|?|?]; try done. injection H as <-. cbn. split; [lia|]. done. }
    destruct e; try done. destruct (income_case i pol) as [[?|income]|?|?]; try done. injection H as <-. cbn. split; [lia|]. done.
  - set (base := MkStressCase "base" StressPassed StressExactReplay None (PayoffDate r)) in *.
    destruct (income_case i pol) as [[?|income]|?|?] eqn:Ei; try done. apply income_case_failed in Ei.
    injection H as <-. cbn [SrIncreaseBP Cases Health length]. split; [lia|]. split; [done|].
    unfold health_of. change (ScStatus base) with StressPassed. cbv iota. rewrite health_loop_spec by (by left). cbn [existsb].
    assert (ScStatus (fee_case i base) ≠ StressFailed) as Hfee by (by apply fee_loop_keeps).
    assert (ScStatus (expected_case i base) ≠ StressFailed ∧ ScStatus (expected_case i base) ≠ StressCaseUnknown) as [He He'].
    { unfold expected_case. by destruct (existsb _ _). }
    destruct (live_debt i) eqn:Ed.
    + change (ScStatus (required_case o)) with StressCaseUnknown. generalize dependent (ScStatus (fee_case i base)).
      generalize dependent (ScStatus (expected_case i base)). intros se He He' sf Hf.
      match goal with |- (?h = _ ↔ _) ∧ _ =>
        assert (h = if bool_decide (ScStatus income = StressFailed) then StressTight else StressUnknown) as ->
      end.
      { by destruct (ScStatus income), se, sf, (Prepayments r =? 0). }
      case_bool_decide as Hi; (split; [|split; [by split; [|intros [? _]]|done]]).
      * split; [|done]. intros _. split; [done|by apply Ei].
      * split; [done|]. intros (_ & Hlate). by apply Ei in Hlate.
    + change (ScStatus (no_debt income)) with StressNotApplicable. change (ScStatus (no_debt (required_case o))) with StressNotApplicable.
      unfold fee_case. rewrite fee_loop_no_debt by done. cbn [ScStatus]. generalize dependent (ScStatus (expected_case i base)).
      intros se He He'. destruct se, (Z.eqb_spec (Prepayments r) 0); try done; cbn; naive_solver.
Qed.

(** Paid on the 14th for an instalment on the 15th: three days late is too late. *)
Definition close_payday : Input :=
  let c := Cash memo_plan in
  with_cash memo_plan (MkCashPlan (CashThrough c) (Spending c) (Monthly c) 14 (OpeningCash c) (ReserveFloor c) (Lumps c)
    (MonthlyOverrides c)).
Definition health_is (h : StressHealth) (x : result stop (perror + StressReport)) : bool :=
  match x with Ok (inr rep) => bool_decide (Health rep = h) | _ => false end.

Lemma StressCases_health_witness :
  health_is StressTight (StressCases close_payday (spelt "order" PrepayShortenTerm) (MkStressOptions 0)) = true ∧
  late_fails close_payday (spelt "order" PrepayShortenTerm).
Proof.
  assert (health_is StressTight (StressCases close_payday (spelt "order" PrepayShortenTerm) (MkStressOptions 0)) = true) as H
    by (vm_compute; reflexivity).
  split; [exact H|].
  destruct (StressCases close_payday (spelt "order" PrepayShortenTerm) (MkStressOptions 0)) as [[e|rep]|e|w] eqn:Es; try discriminate H.
  apply bool_decide_eq_true in H.
  pose proof (StressCases_health close_payday (spelt "order" PrepayShortenTerm) (MkStressOptions 0) rep Es) as (_ & _ & Hh).
  destruct (Run close_payday (spelt "order" PrepayShortenTerm)) as [[e|r]|e|w]; [|apply (proj1 (proj1 Hh) H)|destruct Hh..].
  destruct Hh as [Hh _]. rewrite H in Hh. destruct (isInfeasible e); discriminate Hh.
Defined.
