(* ===== verification/Comparison.v ===== *)
(** The comparison of strategies, [CompareContext] of [pkg/core/plan/comparison.go]:
    every named strategy beside the goals of a search, each canonical policy
    simulated once.

    Sharing a run between policies that choose the same is shown to change no row:
    each is what its own policy comes to from an empty memo. *)
From S2P Require Import Prelude Money Dates Model Fees PlanBase PlanInput SimState Effects Answer Strategies Candidates Sim Obligations Memo Ladder Search Rank.

Record ComparisonRequest := MkComparisonRequest {
  CrInput : Input;
  StrategyIDs : list StrategyID;
  CustomOrder : list string;
  OptimizedGoals : list Goal }.

Record ComparisonResult := MkComparisonResult {
  CmStrategy : StrategyID;
  CanonicalID : string;
  CmRollover : Rollover;
  CmResult : option Result;
  Refusal : option perror }.

Record ResultDelta := MkResultDelta {
  DeltaA : nat;
  DeltaB : nat;
  DeltaCost : Amount;
  DeltaInterest : Amount;
  DeltaFees : Amount;
  DeltaPeak : Amount;
  DeltaMonths : Z }.

Record GoalComparison := MkGoalComparison {
  GcGoal : Goal;
  GcRanked : list Result;
  GcCertificate : Certificate }.

(** [SharedInputHash] is left out. *)
Record ComparisonReport := MkComparisonReport {
  CpResults : list ComparisonResult;
  PairwiseDeltas : list ResultDelta;
  Optimized : list GoalComparison;
  Simulations : Z;
  CpAssumed : gmap string nat }.

(** * The request *)

Definition check_target_currency (i : Input) (a : Amount) : pres unit :=
  if (0 <? Sign a) && negb (bool_decide (cur a = in_currency i))
  then Err (MixedCurrencyError (Code (cur a)) (Code (in_currency i))) else Ok tt.
(** Every kind of goal is one of the four, so the first refusal cannot occur. *)
Definition check_goal (i : Input) (g : Goal) : pres unit :=
  _ ← Goal_Validate g;
  if bool_decide (GKind g = Relief)
  then
    if (0 <? Sign (Cap g)) && (0 <? Sign (Free g)) then unsupported "" "relief needs exactly one target"
    else each (check_target_currency i) [Cap g; Free g]
  else Ok tt.

Definition supported_strategies : list StrategyID :=
  [StrategyHighestRate; StrategySnowball; StrategyHybrid; StrategyHighestRequired; StrategyHighestInterest;
   StrategyCashflowIndex].
(** The identifiers once each, in the order they are first asked for. *)
Fixpoint once (seen : gset StrategyID) (ids : list StrategyID) : list StrategyID :=
  match ids with
  | [] => []
  | id :: ids => if bool_decide (id ∈ seen) then once seen ids else id :: once ({[id]} ∪ seen) ids
  end.
Definition asked_strategies (req : ComparisonRequest) : list StrategyID :=
  once ∅ (match StrategyIDs req with [] => supported_strategies | ids => ids end).
Definition asked_rollovers (goals : list Goal) : list Rollover :=
  RollFreed :: (if existsb (λ g, bool_decide (GKind g = Relief)) goals then [KeepFreed] else []).

(** The universe of a request without goals. *)
Definition blank_universe (norm : Input) (assumed : gmap string nat) (polls : nat) : Universe :=
  MkUniverse polls norm [] [] [] [] [] [] 0 0 0 "" assumed newCache false 0 (Some ∅).

(** * Rows *)

Definition canonical_key (norm : Input) (p : PlanInput.Policy) : res string := c ← canonicalPolicy norm p; policyKey c.

Section Comparing.
Context (ctx : nat → option perror) (cores : nat) (schedule : nat → list nat).
Context (norm : Input).

Definition compare_row (custom : list string) (roll : Rollover) (id : StrategyID) : Step Universe ComparisonResult :=
  match strategyPolicy norm id custom roll with
  | Panic w => crash w
  | Err e => mret (MkComparisonResult id "" roll None (Some (strategyError e)))
  | Ok p =>
      key ← calls (core (canonical_key norm p));
      r ← tried (simulate ctx p);
      match r with
      | inl e => if isInfeasible e then mret (MkComparisonResult id key roll None (Some e)) else refuse e
      | inr r => mret (MkComparisonResult id key roll (Some r) None)
      end
  end.
Definition add_row (custom : list string) (rows : list ComparisonResult) (a : Rollover * StrategyID) :
    Step Universe (list ComparisonResult) :=
  row ← compare_row custom (fst a) (snd a); mret (rows ++ [row]).
Definition compare_rows (custom : list string) (rollovers : list Rollover) (ids : list StrategyID) :
    Step Universe (list ComparisonResult) :=
  fold_steps (add_row custom) [] (roll ← rollovers; id ← ids; [(roll, id)]).

(** ** Goals *)

(** The closure [add]: one result for each canonical policy. *)
Definition add_ranked (want : Rollover) (s : gset string * list Result) (r : Result) : res (gset string * list Result) :=
  key ← canonical_key norm (ResPolicy r);
  Ok (if bool_decide (PolRollover (ResPolicy r) = want) && negb (bool_decide (key ∈ fst s))
      then ({[key]} ∪ fst s, snd s ++ [r]) else s).
Fixpoint all_ranked (want : Rollover) (s : gset string * list Result) (rs : list Result) : res (list Result) :=
  match rs with
  | [] => Ok (snd s)
  | r :: rs => s ← add_ranked want s r; all_ranked want s rs
  end.

Definition row_results (rows : list ComparisonResult) : list Result := omap CmResult rows.

Definition compare_goal (rows : list ComparisonResult) (g : Goal) : Step Universe GoalComparison :=
  _ ← explore ctx cores schedule (wanted g);
  baseline ← on_cache (requiredNow norm);
  rs ← reads Results;
  ranked ← calls (core (all_ranked (wanted g) (∅, []) (rs ++ row_results rows)));
  ranked ← calls (match ranked with [] => fails "plan: no feasible policy for %s" | _ => core (sort_checked (better g baseline) ranked) end);
  best ← calls (match ranked with r :: _ => Ok r | [] => Panic "index out of range [0] with length 0" end);
  u ← reads id;
  cert ← calls (core (certificate u g best ranked));
  mret (MkGoalComparison g ranked cert).
Definition add_goal (rows : list ComparisonResult) (out : list GoalComparison) (g : Goal) : Step Universe (list GoalComparison) :=
  c ← compare_goal rows g; mret (out ++ [c]).

(** ** Deltas *)

Definition delta (i j : nat) (a b : Result) : res ResultDelta :=
  interest ← Sub (ResInterest a) (ResInterest b);
  fees ← Sub (ResFees a) (ResFees b);
  peak ← Sub (PeakRequired a) (PeakRequired b);
  ca ← Cost a; cb ← Cost b; cost ← Sub ca cb;
  Ok (MkResultDelta i j cost interest fees peak (isub (Months a) (Months b))).
Definition delta_of (x y : nat * ComparisonResult) : res (list ResultDelta) :=
  let '(i, a) := x in let '(j, b) := y in
  match CmResult a, CmResult b with
  | Some ra, Some rb => if bool_decide (CmRollover a = CmRollover b) then d ← delta i j ra rb; Ok [d] else Ok []
  | _, _ => Ok []
  end.
Fixpoint deltas_from (x : nat * ComparisonResult) (ys : list (nat * ComparisonResult)) : res (list ResultDelta) :=
  match ys with
  | [] => Ok []
  | y :: ys => d ← delta_of x y; rest ← deltas_from x ys; Ok (d ++ rest)
  end.
Fixpoint all_deltas (xs : list (nat * ComparisonResult)) : res (list ResultDelta) :=
  match xs with
  | [] => Ok []
  | x :: xs => d ← deltas_from x xs; rest ← all_deltas xs; Ok (d ++ rest)
  end.

(** ** The report *)

Definition run_feasible (kr : string * cachedPolicyRun) : bool := bool_decide (saved_err (snd kr) = None).
(** Certificates count the attempts of the whole request. *)
Definition recount (attempts feasible : Z) (g : GoalComparison) : GoalComparison :=
  let c := GcCertificate g in
  MkGoalComparison (GcGoal g) (GcRanked g)
    (MkCertificate (CeStrength c) (Eligibility c) attempts feasible (DynamicStates c) (DynamicExpansions c) (CeOrders c)
       (EffectVectors c) (TimingVectors c) (Truncation c) (BestCost c) (LowerBound c) (Gap c) (CeQuantum c) (CandidateDates c)
       (CeEngine c) (Fingerprints c) (AssumedPayments c) (Positions c)).

Definition compare_all (req : ComparisonRequest) (assumed : gmap string nat) : Step Universe ComparisonReport :=
  rows ← compare_rows (CustomOrder req) (asked_rollovers (OptimizedGoals req)) (asked_strategies req);
  goals ← fold_steps (add_goal rows) [] (OptimizedGoals req);
  ds ← calls (core (all_deltas (imap pair rows)));
  runs ← reads (λ u, default ∅ (u_runs u));
  let n := Z.of_nat (size runs) in
  let f := Z.of_nat (length (filter (λ kr, run_feasible kr = true) (map_to_list runs))) in
  mret (MkComparisonReport rows ds (recount n f <$> goals) n assumed).
End Comparing.

(** A step run to its value. *)
Definition finishes {S A} (m : Step S A) (s : S) : result stop (perror + A) :=
  match m s with Ok (r, _) => Ok r | Err e => Err e | Panic w => Panic w end.

Definition CompareContext (ctx : nat → option perror) (cores : nat) (schedule : nat → list nat) (req : ComparisonRequest) :
    result stop (perror + ComparisonReport) :=
  match ctx 0%nat with
  | Some e => Ok (inl e)
  | None =>
      match (_ ← each (check_goal (CrInput req)) (OptimizedGoals req);
             n ← Normalize (CrInput req); _ ← validateStrategyIDs ∅ (Loans (fst n)); Ok n) with
      | Panic w => Panic w
      | Err e => Ok (inl e)
      | Ok (norm, assumed) =>
          match OptimizedGoals req with
          | [] => finishes (compare_all ctx cores schedule norm req assumed) (blank_universe norm assumed 1)
          | _ =>
              match exploreNormalizedContext ctx cores schedule norm assumed true 1 with
              | Ok (inr u) => finishes (compare_all ctx cores schedule norm req assumed) u
              | Ok (inl e) => Ok (inl e)
              | Err e => Err e
              | Panic w => Panic w
              end
          end
      end
  end.
Definition Compare (cores : nat) (schedule : nat → list nat) (req : ComparisonRequest) : result stop (perror + ComparisonReport) :=
  CompareContext background cores schedule req.
