(* ===== verification/Sharing.v ===== *)
(** One run for each canonical policy: what [comparison.go] saves under a key is
    what every policy of that key comes to.

    A key is read back: it fixes the order, the timings, the effects the plan
    leaves open, the rollover and the printed threshold. *)
From S2P Require Import Prelude Money Dates Model Fees PlanBase PlanInput SimState Effects Answer Strategies Candidates Sim Obligations Memo Ladder Search Exhaust Rank Comparison.

(** * Reading a key *)

Lemma listed_app l : ∀ k r t, listed l ++ r = listed k ++ t → l = k ∧ r = t.
Proof.
  assert (¬ is_digit Candidates.close ∧ ¬ is_digit blank) as [Hb Hs].
  { split; intros [x Hx]; by vm_compute in Hx. }
  assert (∀ i, Forall is_digit (decimal (Z.of_nat i)) ∧ decimal (Z.of_nat i) ≠ []) as Hdec.
  { intros i. apply (decimal_val (Z.of_nat i)). lia. }
  assert (∀ i c r t, decimal (Z.of_nat i) ++ c :: r ≠ Candidates.close :: t) as Hne.
  { intros i c r t E. destruct (Hdec i) as [Hd Hn]. destruct (decimal (Z.of_nat i)) as [|x d]; [done|].
    injection E as -> _. by apply Forall_cons in Hd as [? _]. }
  induction l as [|i l IH]; intros [|j k] r t E; [by injection E|exfalso..|].
  - symmetry in E. destruct k; cbn in E; rewrite <- app_assoc in E; by eapply Hne.
  - destruct l; cbn in E; rewrite <- app_assoc in E; by eapply Hne.
  - assert (i = j ∧ ((l = [] ∧ k = [] ∧ r = t) ∨ (l ≠ [] ∧ k ≠ [] ∧ listed l ++ r = listed k ++ t))) as [-> H].
    { destruct l as [|x l], k as [|y k]; cbn in E; rewrite <- !app_assoc in E; cbn [app] in E;
        apply digits_apart in E as (Ed%decimal_inj & Ec & Er); try apply Hdec; try done; try lia; split; auto; lia. }
    destruct H as [(-> & -> & ->)|(_ & _ & H)]; [done|]. by destruct (IH _ _ _ H) as [-> ->].
Qed.

Lemma append_list (a b : string) :
  String.list_ascii_of_string (String.append a b) = String.list_ascii_of_string a ++ String.list_ascii_of_string b.
Proof. induction a as [|x a IH]; [done|]. exact (f_equal (cons x) IH). Qed.
Lemma list_of_string_inj (a b : string) : String.list_ascii_of_string a = String.list_ascii_of_string b → a = b.
Proof. intros E. rewrite <- (String.string_of_list_ascii_of_string a), E. apply String.string_of_list_ascii_of_string. Qed.

Lemma bracketed_app l k (r t : string) : String.append (bracketed l) r = String.append (bracketed k) t → l = k ∧ r = t.
Proof.
  intros E. apply (f_equal String.list_ascii_of_string) in E. rewrite !append_list, !bracketed_listed in E.
  rewrite !String.list_ascii_of_string_of_list_ascii in E. injection E as E. apply listed_app in E as [-> E].
  split; [done|]. by apply list_of_string_inj.
Qed.

Lemma concat_all_app l k : concat_all (l ++ k) = String.append (concat_all l) (concat_all k).
Proof.
  induction l as [|x l IH]; [done|].
  change (String.append x (concat_all (l ++ k)) = String.append (String.append x (concat_all l)) (concat_all k)).
  by rewrite IH, append_assoc.
Qed.

(** Lists of one length, written by words none of which begins another. *)
Definition prefix_free {A} (f : A → string) : Prop :=
  ∀ a b r t, String.append (f a) r = String.append (f b) t → a = b ∧ r = t.
Lemma words_app {A} (f : A → string) : prefix_free f → ∀ l k r t, length l = length k →
  String.append (concat_all (f <$> l)) r = String.append (concat_all (f <$> k)) t → l = k ∧ r = t.
Proof.
  intros Hf. induction l as [|a l IH]; intros [|b k] r t Hn E; try done. rewrite !fmap_cons in E. cbn [concat_all foldr] in E.
  rewrite <- !append_assoc in E. apply Hf in E as [-> E]. apply IH in E as [-> ->]; [done|]. by injection Hn.
Qed.
Lemma timing_words : prefix_free (λ t, slash (Timing_String t)).
Proof. intros [] [] r t E; cbn in E; by simplify_eq. Qed.
Lemma effect_words : prefix_free (λ e, slash (PrepaymentEffect_String e)).
Proof. intros [] [] r t E; cbn in E; by simplify_eq. Qed.
Lemma rollover_words : prefix_free (λ r, slash (Rollover_String r)).
Proof. intros [] [] r t E; cbn in E; by simplify_eq. Qed.

Lemma append_inj_l (a x y : string) : String.append a x = String.append a y → x = y.
Proof. induction a as [|c a IH]; [done|]. intros E. apply IH. exact (f_equal (λ s, match s with String.String _ s => s | _ => s end) E). Qed.
Lemma append_nil (a : string) : String.append a "" = a.
Proof. induction a as [|c a IH]; [done|]. exact (f_equal (String.String c) IH). Qed.
(** A bracket tells a policy that pays extras from one that does not. *)
Lemma required_words (b c : bool) l k (r t : string) :
  String.append (if b then "/required-only" else "") (String.append (bracketed l) r) =
    String.append (if c then "/required-only" else "") (String.append (bracketed k) t) → b = c ∧ l = k ∧ r = t.
Proof.
  intros E. assert (∀ m s, String.append (bracketed m) s =
    String.String Candidates.opening (String.append (String.string_of_list_ascii (listed m)) s)) as Hb by (intros m s; by rewrite bracketed_listed).
  destruct b, c.
  - apply append_inj_l, bracketed_app in E. by split.
  - change (String.append "" ?x) with x in E. rewrite Hb in E. by injection E.
  - change (String.append "" ?x) with x in E. rewrite Hb in E. by injection E.
  - apply bracketed_app in E. by split.
Qed.

(** The printed threshold. *)
Definition shown_minimum (p : PlanInput.Policy) : res (list string) :=
  if 0 <? Sign (MinPrepay p)
  then s ← Amount_String (MinPrepay p); Ok ["/min="%string; String.string_of_list_ascii s]
  else Ok [].

Lemma policyKey_parts p k : policyKey p = Ok k →
  ∃ m, shown_minimum p = Ok m ∧
    k = String.append (if RequiredOnly p then "/required-only" else "") (String.append (bracketed (Order p))
      (String.append (concat_all ((λ t, slash (Timing_String t)) <$> PolTiming p))
        (String.append (concat_all ((λ e, slash (PrepaymentEffect_String e)) <$> PolEffect p))
          (String.append (slash (Rollover_String (PolRollover p))) (concat_all m))))).
Proof.
  unfold policyKey, Policy_ID. cbn [with_name MinPrepay PolName RequiredOnly Order PolTiming PolEffect PolRollover]. intros H.
  apply bind_Ok in H as (m & Hm & [= <-]). exists m. split; [done|]. rewrite !concat_all_app. cbn [concat_all foldr].
  by rewrite !append_assoc.
Qed.

(** * Policies of a plan *)

Section Sharing.
Context (norm : Input) (assumed : gmap string nat).
#[local] Abbreviation n := (length (Loans norm)).

(** Thresholds that print alike are alike. *)
Definition apart_minimums : Prop :=
  ∀ a b s, a ∈ batchThresholds norm → b ∈ batchThresholds norm → Amount_String a = Ok s → Amount_String b = Ok s → a = b.

(** What a search or a strategy hands to the simulator. *)
Record plan_policy (p : PlanInput.Policy) : Prop := {
  pp_timing : length (PolTiming p) = n;
  pp_effect : length (PolEffect p) = n;
  pp_minimum : Sign (MinPrepay p) ≤ 0 ∨ MinPrepay p ∈ batchThresholds norm }.

Lemma canonical_effects_spec ls : ∀ es cs, canonical_effects ls es = Ok cs → length es = length ls →
  length cs = length ls ∧
  ∀ k l e, ls !! k = Some l → es !! k = Some e → cs !! k = Some (canonical_effect l e).
Proof using Type.
  induction ls as [|l ls IH]; intros [|e es] cs H Hn; try done; cbn in H.
  { injection H as <-. done. }
  apply bind_Ok in H as (rest & Hr & [= <-]). destruct (IH _ _ Hr ltac:(by injection Hn)) as [Hl Hk].
  split; [cbn; by rewrite Hl|]. intros [|k] l' e' H1 H2; cbn in *; [congruence|by apply Hk].
Qed.

(** A loan starts by its canonical effect. *)
Lemma start_canonical p z k l e : PolEffect p !! k = Some e →
  start_loan p z k l = start_loan (with_effects p (<[k := canonical_effect l e]> (PolEffect p))) z k l.
Proof using Type.
  intros He. unfold start_loan. cbn [PolEffect PolTiming with_effects]. rewrite list_lookup_insert_eq by (by eapply lookup_lt_Some).
  rewrite He. cbn [default from_option id]. unfold canonical_effect. repeat case_bool_decide; congruence.
Qed.
Lemma start_same p q z k l e e' :
  PolEffect p !! k = Some e → PolEffect q !! k = Some e' → canonical_effect l e = canonical_effect l e' →
  PolTiming p = PolTiming q → start_loan p z k l = start_loan q z k l.
Proof using Type.
  intros He He' Hc Ht. rewrite (start_canonical p z k l e He), (start_canonical q z k l e' He'), Hc.
  unfold start_loan. cbn [PolEffect PolTiming with_effects].
  rewrite !list_lookup_insert_eq by (by eapply lookup_lt_Some). by rewrite Ht.
Qed.

(** Policies of one key choose the same. *)
Lemma same_key p q k :
  apart_minimums → plan_policy p → plan_policy q → canonical_key norm p = Ok k → canonical_key norm q = Ok k →
  same_choices norm p q.
Proof using Type.
  intros Hm Hp Hq Hkp Hkq. unfold canonical_key in *.
  apply bind_Ok in Hkp as (cp & Hcp & Hkp). apply bind_Ok in Hkq as (cq & Hcq & Hkq). unfold canonicalPolicy in Hcp, Hcq.
  apply bind_Ok in Hcp as (ep & Hep & [= <-]). apply bind_Ok in Hcq as (eq & Heq & [= <-]).
  apply canonical_effects_spec in Hep as [Hlp Hep]; [|apply Hp]. apply canonical_effects_spec in Heq as [Hlq Heq]; [|apply Hq].
  apply policyKey_parts in Hkp as (mp & Hmp & ->). apply policyKey_parts in Hkq as (mq & Hmq & E).
  cbn [with_effects RequiredOnly Order PolTiming PolEffect PolRollover] in E.
  apply required_words in E as (Hr & Ho & E1).
  apply (words_app _ timing_words) in E1 as [Ht E1]; [|by rewrite (pp_timing p Hp), (pp_timing q Hq)].
  apply (words_app _ effect_words) in E1 as [He E1]; [|by rewrite Hlp, Hlq].
  apply rollover_words in E1 as [Hro E1]. subst eq. split; [done..| | |].
  - unfold shown_minimum in Hmp, Hmq. cbn [with_effects MinPrepay] in Hmp, Hmq.
    destruct (Z.ltb_spec 0 (Sign (MinPrepay p))), (Z.ltb_spec 0 (Sign (MinPrepay q))); [|..|by right].
    + left. apply bind_Ok in Hmp as (x & Hx & [= <-]). apply bind_Ok in Hmq as (y & Hy & [= <-]).
      change (String.append "/min=" (String.append (String.string_of_list_ascii x) "") =
        String.append "/min=" (String.append (String.string_of_list_ascii y) "")) in E1.
      apply append_inj_l in E1. rewrite !append_nil in E1. apply (f_equal String.list_ascii_of_string) in E1.
      rewrite !String.list_ascii_of_string_of_list_ascii in E1. subst y.
      destruct (pp_minimum p Hp) as [|Hp']; [lia|]. destruct (pp_minimum q Hq) as [|Hq']; [lia|]. by apply (Hm _ _ x).
    + apply bind_Ok in Hmp as (x & Hx & [= <-]). by injection Hmq as <-.
    + apply bind_Ok in Hmq as (x & Hx & [= <-]). by injection Hmp as <-.
  - unfold covers. by rewrite Ho, Ht, (pp_effect p Hp), (pp_effect q Hq).
  - intros z j l Hl. assert (is_Some (PolEffect p !! j)) as [e Hep'].
    { apply lookup_lt_is_Some_2. rewrite (pp_effect p Hp). by eapply lookup_lt_Some. }
    assert (is_Some (PolEffect q !! j)) as [e' Heq'].
    { apply lookup_lt_is_Some_2. rewrite (pp_effect q Hq). by eapply lookup_lt_Some. }
    apply (start_same _ _ _ _ _ e e'); try done. specialize (Hep j l e Hl Hep'). specialize (Heq j l e' Hl Heq'). congruence.
Qed.

(** A key is found or the code panics. *)
Lemma canonical_key_Err p e : canonical_key norm p ≠ Err e.
Proof using Type.
  assert (∀ ls es x, canonical_effects ls es ≠ Err x) as Hce.
  { induction ls as [|l ls IH]; intros [|e' es] x; try done. cbn. specialize (IH es).
    destruct (canonical_effects ls es); [done|by specialize (IH e0)|done]. }
  unfold canonical_key, canonicalPolicy. specialize (Hce (Loans norm) (PolEffect p)).
  destruct (canonical_effects _ _) as [es|x|w]; [|by specialize (Hce x)|done]. cbn [mbind result_bind].
  unfold policyKey, Policy_ID. destruct (0 <? Sign _); [|done]. unfold Amount_String, idiv, irem.
  destruct (_ <? 0); destruct (pow10 _ =? 0); try done; cbn [mbind result_bind]; cbv zeta; by destruct (_ || _).
Qed.

(** * The runs saved *)

Definition saved_run (v : perror + Result) : cachedPolicyRun :=
  match v with inl e => MkPolicyRun no_result (Some e) | inr r => MkPolicyRun r None end.
(** An outcome as the universe files it. *)
Definition own_result (r : Result) : Result := set Assumed (λ _, assumed) r.
Definition own_outcome (v : perror + Result) : perror + Result :=
  match v with inl e => inl e | inr r => inr (own_result r) end.

Record shares (u : Universe) : Prop := {
  sh_input : UInput u = norm;
  sh_assumed : u_assumed u = assumed;
  sh_memo : remembered norm (u_cache u);
  sh_runs : ∃ runs, u_runs u = Some runs ∧ ∀ k s, runs !! k = Some s →
    ∃ p v, plan_policy p ∧ canonical_key norm p = Ok k ∧ Run norm p = Ok v ∧ s = saved_run v;
  sh_policies : ∀ ro p, p ∈ fst (candidates u ro) → plan_policy p;
  sh_results : ∀ x, x ∈ Results u → ∃ p r, plan_policy p ∧ Run norm p = Ok (inr r) ∧ x = own_result r }.

(** What a step leaves of the axes. *)
Lemma shares_moved u u' :
  UInput u' = UInput u → u_assumed u' = u_assumed u → u_cache u' = u_cache u → u_runs u' = u_runs u →
  (∀ ro, candidates u' ro = candidates u ro) → Results u' = Results u → shares u → shares u'.
Proof using Type. 
  intros H1 H2 H3 H4 H5 H6 Hu.
  split; [rewrite H1|rewrite H2|rewrite H3|rewrite H4|intros ro p; rewrite H5|rewrite H6]; apply Hu.
Qed.

Context (Ht : clear_terms norm) (Hm : apart_minimums).
Context (ctx : nat → option perror) (Hctx : ∀ m, ctx m = None).

(** The runs a universe has saved, by key. *)
Definition keys_of (u : Universe) : gset string := dom (default ∅ (u_runs u)).

(** One simulation: the run of the policy itself, saved or not. *)
Lemma simulate_shares p u r u' :
  plan_policy p → shares u → simulate ctx p u = Ok (r, u') →
  shares u' ∧ ∃ v key, Run norm p = Ok v ∧ r = own_outcome v ∧ canonical_key norm p = Ok key ∧ keys_of u' = {[key]} ∪ keys_of u.
Proof using Ht Hm Hctx.
  intros Hp Hu H. unfold simulate in H. unfold canceled in H. unfold mbind at 1, Step_bind in H. rewrite Hctx in H. cbv beta iota zeta in H.
  set (u0 := set u_polls S u) in *. assert (shares u0) as Hu0 by (by apply (shares_moved u)).
  assert (keys_of u0 = keys_of u) as Hk0 by done. clearbody u0. clear Hu.
  apply step_bind_Ok in H as [(e & [=] & _)|(i & u1 & [= <- <-] & H)].
  apply step_bind_Ok in H as [(e & [=] & _)|(runs & u1 & [= <- <-] & H)]. rewrite (sh_input u0 Hu0) in H.
  destruct (sh_runs u0 Hu0) as (runs & Hruns & Hsaved). rewrite Hruns in H.
  assert (∃ c key u1, canonicalPolicy norm p = Ok c ∧ policyKey c = Ok key ∧ (run ← (match runs !! key with
        | Some run => mret run
        | None =>
            r ← tried (on_cache (runs_of norm p));
            let run := match r with inl e => MkPolicyRun no_result (Some e) | inr r => MkPolicyRun r None end in
            _ ← writes (set u_runs (fmap (<[key := run]>)));
            mret run
        end);
      assumed ← reads u_assumed;
      match saved_err run with
      | Some e => refuse e
      | None => mret (set Assumed (λ _, assumed) (set ResPolicy (λ _, p) (saved_result run)))
      end) u0 = Ok (r, u') ∧ u1 = u0) as (c & key & _ & Hc & Hkey & H' & _).
  { pose proof (canonical_key_Err p) as Hnerr. unfold canonical_key in Hnerr. cbn [from_option] in H.
    apply step_bind_Ok in H as [(e & H1 & ->)|(c & u1 & H1 & H)].
    - unfold calls in H1. destruct (canonicalPolicy norm p) as [c|e'|w]; try done. by specialize (Hnerr e').
    - apply calls_Ok in H1 as [H1%core_Ok ->]. rewrite H1 in Hnerr.
      apply step_bind_Ok in H as [(e & H2 & ->)|(key & u1 & H2 & H)].
      + unfold calls in H2. cbn in Hnerr. destruct (policyKey c) as [k|e'|w]; try done. by specialize (Hnerr e').
      + apply calls_Ok in H2 as [H2%core_Ok ->]. by exists c, key, u0. }
  clear H. assert (canonical_key norm p = Ok key) as Hck by (unfold canonical_key; rewrite Hc; exact Hkey).
  apply step_bind_Ok in H' as [(e & H1 & ->)|(run & u1 & H1 & H)].
  { exfalso. destruct (runs !! key); [done|]. apply step_bind_Ok in H1 as [(e' & H1 & _)|(v & u1 & H1 & H2)].
    - apply tried_Ok in H1 as (v & [=] & _).
    - apply step_bind_Ok in H2 as [(e' & [=] & _)|(t & u2 & _ & H2)]. by apply step_ret_Ok in H2 as [[=] _]. }
  assert (shares u1 ∧ keys_of u1 = {[key]} ∪ keys_of u0 ∧ ∃ v, Run norm p = Ok v ∧ saved_err run = saved_err (saved_run v) ∧
    (saved_err run = None → set ResPolicy (λ _, p) (saved_result run) = saved_result (saved_run v))) as (Hu1 & Hk1 & v & Hv & He & Hr).
  { destruct (runs !! key) as [saved|] eqn:Es.
    - apply step_ret_Ok in H1 as [[= ->] ->]. split; [done|]. split.
      { unfold keys_of. rewrite Hruns. cbn. apply elem_of_dom_2 in Es. set_solver. }
      destruct (Hsaved _ _ Es) as (q & v & Hq & Hkq & Hv & ->). pose proof (Run_same norm q p Ht (same_key _ _ _ Hm Hq Hp Hkq Hck)) as Hs.
      rewrite Hv in Hs. destruct (Run norm p) as [v'|?|?]; [|done..]. subst v'. exists (filed_under p v). split; [done|].
      destruct v; by split.
    - apply step_bind_Ok in H1 as [(e' & H1 & _)|(v & u2 & H1 & H2)]; [by apply tried_Ok in H1 as (v & [=] & _)|].
      apply tried_Ok in H1 as (v' & [= ->] & H1). unfold on_cache, runs_of in H1.
      pose proof (run_fresh norm p (u_cache u0) Ht (sh_memo u0 Hu0)) as Hf.
      destruct (Sim.run norm p (u_cache u0)) as [[v0 c']|?|?]; [|done..]. injection H1 as -> <-. destruct Hf as [Hv Hc'].
      apply step_bind_value in H2 as (t & u2 & [= <- <-] & H2). apply step_ret_Ok in H2 as [[= ->] ->].
      assert ((match v' with inl e => MkPolicyRun no_result (Some e) | inr r => MkPolicyRun r None end) = saved_run v') as -> by by destruct v'.
      split; [|split].
      + destruct Hu0. split; try done. exists (<[key := saved_run v']> runs). split; [cbn; by rewrite Hruns|].
        intros k s [[<- <-]|[_ Hk]]%lookup_insert_Some; [by exists p, v'|by apply Hsaved].
      + unfold keys_of. cbn. rewrite Hruns. cbn. by rewrite dom_insert_L.
      + exists v'. split; [done|]. split; [done|]. destruct v' as [e|x]; [done|]. intros _. cbn.
        unfold Run in Hv. destruct (Sim.run norm p newCache) as [[v1 c1]|?|?] eqn:E1; [|done..]. injection Hv as ->.
        apply (filed_own norm p newCache _ c1 Ht (remembered_new norm)) in E1. cbn in E1. by injection E1. }
  apply step_bind_Ok in H as [(e & [=] & _)|(a & u2 & [= <- <-] & H)]. rewrite (sh_assumed u1 Hu1) in H.
  assert (r = own_outcome v ∧ u' = u1) as [-> ->].
  { rewrite He in H, Hr. destruct v as [e|x]; cbn in H.
    - apply refuse_Ok in H as [-> ->]. done.
    - apply step_ret_Ok in H as [-> ->]. split; [|done]. cbn. unfold own_result. by rewrite (Hr eq_refl). }
  split; [done|]. exists v, key. rewrite Hk1, Hk0. done.
Qed.

Lemma canceled_shares u r u' : canceled ctx u = Ok (r, u') → shares u → r = inr tt ∧ shares u' ∧ keys_of u' = keys_of u.
Proof using Hctx.
  unfold canceled. rewrite Hctx. intros [= <- <-] Hu. split; [done|]. split; [|done]. by apply (shares_moved u).
Qed.

(** An outcome of the plan's own. *)
Definition own_run (x : Result) : Prop := ∃ p r, plan_policy p ∧ Run norm p = Ok (inr r) ∧ x = own_result r.

Lemma simulate_saved_shares policies : (∀ p, p ∈ policies → plan_policy p) → ∀ out u rs u',
  (∀ x, x ∈ out → own_run x) → shares u →
  fold_steps (λ out p, _ ← canceled ctx; r ← tried (simulate ctx p); keep_feasible out r) out policies u = Ok (inr rs, u') →
  shares u' ∧ ∀ x, x ∈ rs → own_run x.
Proof using Ht Hm Hctx.
  induction policies as [|p policies IH]; intros Hps out u rs u' Hout Hu H; cbn [fold_steps] in H.
  { apply step_ret_Ok in H as [[= ->] ->]. done. }
  apply step_bind_value in H as (out' & u3 & H & Hrest). apply step_bind_value in H as ([] & u1 & H1 & H).
  apply canceled_shares in H1 as (_ & Hu1 & _); [|done]. apply step_bind_value in H as (v & u2 & H2 & H).
  apply tried_Ok in H2 as (v' & [= <-] & H2). apply simulate_shares in H2 as (Hu2 & v' & key & Hv & -> & _); [|apply Hps; by left|done].
  revert Hrest. apply IH; [intros q Hq; apply Hps; by right| |].
  - destruct v' as [e|r]; cbn in H.
    + destruct (isInfeasible e); [|done]. by apply step_ret_Ok in H as [[= ->] _].
    + apply step_ret_Ok in H as [[= ->] _]. intros x [Hx|Hx]%elem_of_app; [by apply Hout|].
      apply list_elem_of_singleton in Hx as ->. exists p, r. split; [apply Hps; by left|done].
  - destruct v' as [e|r]; cbn in H.
    + destruct (isInfeasible e); [|done]. by apply step_ret_Ok in H as [_ ->].
    + by apply step_ret_Ok in H as [_ ->].
Qed.

Lemma own_run_filed x : own_run x → own_result x = x.
Proof using Type. by intros (p & r & _ & _ & ->). Qed.

Lemma explore_shares cores schedule ro u u' :
  shares u → explore ctx cores schedule ro u = Ok (inr tt, u') → shares u'.
Proof using Ht Hm Hctx.
  intros Hu H. unfold explore in H. apply step_bind_value in H as ([] & u1 & H1 & H).
  apply canceled_shares in H1 as (_ & Hu1 & _); [|done]. clear Hu u.
  apply step_bind_value in H as (done & u2 & [= <- <-] & H). case_bool_decide; [by apply step_ret_Ok in H as [_ ->]|].
  apply step_bind_value in H as ([] & u2 & [= <-] & H). apply step_bind_value in H as ([policies capped] & u3 & [= Hp Hc <-] & H).
  assert (∀ p, p ∈ policies → plan_policy p) as Hps.
  { intros p. rewrite <- Hp. apply (sh_policies u1 Hu1 ro). }
  apply step_bind_value in H as ([] & u3 & H3 & H).
  assert (shares u3) as Hu3.
  { destruct capped; [injection H3 as <-|apply step_ret_Ok in H3 as [_ ->]]; by apply (shares_moved u1). }
  apply step_bind_value in H as ([] & u4 & [= <-] & H). set (u4 := set u_attempted _ u3) in *.
  assert (shares u4) as Hu4 by (by apply (shares_moved u3)). clearbody u4.
  apply step_bind_value in H as (rs & u5 & Hsim & H). injection H as <-.
  unfold simulateAll in Hsim. apply step_bind_value in Hsim as (runs & u6 & [= <- <-] & Hsim).
  destruct (sh_runs u4 Hu4) as (runs & Hruns & _). rewrite Hruns in Hsim. unfold simulate_saved in Hsim.
  apply simulate_saved_shares in Hsim as [Hu5 Hrs]; [|done|by intros x ?%elem_of_nil|done].
  destruct Hu5. split; try done. cbn. intros x [Hx|Hx]%elem_of_app; [by apply sh_results0|].
  apply list_elem_of_fmap in Hx as (y & -> & Hy). apply Hrs in Hy as Hown. rewrite sh_assumed0.
  destruct Hown as (q & r & Hq & Hr & ->). by exists q, r.
Qed.

(** ** Rows *)

Lemma strategy_plan custom roll id p : strategyPolicy norm id custom roll = Ok p → plan_policy p.
Proof using Type.
  unfold strategyPolicy. intros H. apply bind_Ok in H as (o & _ & [= <-]). split; cbn.
  - unfold uniform. by rewrite length_replicate.
  - by rewrite length_fmap.
  - left. done.
Qed.

(** A row is what its strategy comes to on its own. *)
Definition row_ok (custom : list string) (row : ComparisonResult) : Prop :=
  match strategyPolicy norm (CmStrategy row) custom (CmRollover row) with
  | Ok p =>
      canonical_key norm p = Ok (CanonicalID row) ∧
      match Run norm p with
      | Ok (inr r) => CmResult row = Some (own_result r) ∧ Refusal row = None
      | Ok (inl e) => isInfeasible e = true ∧ CmResult row = None ∧ Refusal row = Some e
      | _ => False
      end
  | Err e => CmResult row = None ∧ Refusal row = Some (strategyError e) ∧ CanonicalID row = ""%string
  | Panic _ => False
  end.
(** The keys of the rows that were simulated. *)
Definition row_keys (rows : list ComparisonResult) : gset string :=
  list_to_set (CanonicalID <$> filter (λ r, CanonicalID r ≠ ""%string) rows).

Lemma canonical_key_shown p k : canonical_key norm p = Ok k → k ≠ ""%string.
Proof using Type.
  unfold canonical_key. intros H. apply bind_Ok in H as (c & _ & Hk). apply policyKey_parts in Hk as (m & _ & ->).
  destruct (RequiredOnly c); [done|]. rewrite bracketed_listed. done.
Qed.
Lemma row_keys_cons row : CanonicalID row ≠ ""%string → row_keys [row] = {[CanonicalID row]}.
Proof using Type. intros Hr. unfold row_keys. rewrite filter_cons, decide_True by done. cbn. apply union_empty_r_L. Qed.

Lemma compare_row_shares custom roll id u row u' :
  shares u → compare_row ctx norm custom roll id u = Ok (inr row, u') →
  shares u' ∧ row_ok custom row ∧ CmStrategy row = id ∧ CmRollover row = roll ∧ keys_of u' = row_keys [row] ∪ keys_of u.
Proof using Ht Hm Hctx.
  intros Hu H. unfold compare_row in H. unfold row_ok. destruct (strategyPolicy norm id custom roll) as [p|e|w] eqn:Es; [| |done].
  - apply step_bind_value in H as (key & u1 & H1 & H). apply calls_Ok in H1 as [H1%core_Ok ->].
    apply step_bind_value in H as (v & u1 & H2 & H). apply tried_Ok in H2 as (v' & [= <-] & H2).
    apply simulate_shares in H2 as (Hu1 & v' & key' & Hv & -> & Hk & Hkeys); [|by eapply strategy_plan|done].
    assert (key' = key) as -> by congruence. apply canonical_key_shown in Hk as Hne.
    assert (∀ row, CanonicalID row = key → keys_of u1 = row_keys [row] ∪ keys_of u) as Hkey.
    { intros x Hx. rewrite row_keys_cons by congruence. by rewrite Hx, Hkeys. }
    destruct v' as [e|r]; cbn in H.
    + destruct (isInfeasible e) eqn:Ei; [|done]. apply step_ret_Ok in H as [[= ->] ->]. rewrite (Hkey (MkComparisonResult id key roll None (Some e))) by done.
      cbn. by rewrite Es, Hv.
    + apply step_ret_Ok in H as [[= ->] ->]. rewrite (Hkey (MkComparisonResult id key roll (Some (own_result r)) None)) by done.
      cbn. by rewrite Es, Hv.
  - apply step_ret_Ok in H as [[= ->] ->]. split; [done|]. split; [cbn; by rewrite Es|]. split; [done|]. split; [done|].
    change (row_keys [_]) with (∅ : gset string). by rewrite union_empty_l_L.
Qed.
Lemma row_keys_app rows rows' : row_keys (rows ++ rows') = row_keys rows ∪ row_keys rows'.
Proof using Type. unfold row_keys. by rewrite filter_app, fmap_app, list_to_set_app_L. Qed.
Lemma add_rows_shares custom asked : ∀ rows u rows' u',
  shares u → Forall (row_ok custom) rows → fold_steps (add_row ctx norm custom) rows asked u = Ok (inr rows', u') →
  shares u' ∧ Forall (row_ok custom) rows' ∧
  (λ r, (CmRollover r, CmStrategy r)) <$> rows' = ((λ r, (CmRollover r, CmStrategy r)) <$> rows) ++ asked ∧
  (keys_of u = row_keys rows → keys_of u' = row_keys rows').
Proof using Ht Hm Hctx.
  induction asked as [|[roll id] asked IH]; intros rows u rows' u' Hu Hrows H; cbn [fold_steps] in H.
  { apply step_ret_Ok in H as [[= ->] ->]. by rewrite app_nil_r. }
  apply step_bind_value in H as (rows1 & u1 & H1 & H). unfold add_row in H1. apply step_bind_value in H1 as (row & u2 & H1 & H2).
  apply step_ret_Ok in H2 as [[= ->] ->]. apply compare_row_shares in H1 as (Hu2 & Hrow & H3 & H4 & H5); [|done]. cbn in H3, H4.
  apply IH in H as (Hu' & Hr' & -> & Hk); [|done|apply Forall_app; split; [done|by constructor]]. split; [done|]. split; [done|].
  split; [rewrite fmap_app, <- app_assoc; cbn; by rewrite H3, H4|]. intros E. apply Hk. rewrite H5, E, row_keys_app. apply union_comm_L.
Qed.

(** ** Rankings *)

Definition same_policy (a b : Result) : Prop := ∃ k, canonical_key norm (ResPolicy a) = Ok k ∧ canonical_key norm (ResPolicy b) = Ok k.

(** One result of the wanted rollover for each canonical policy. *)
Record one_each (want : Rollover) (rs ranked : list Result) : Prop := {
  oe_from : ∀ x, x ∈ ranked → x ∈ rs ∧ PolRollover (ResPolicy x) = want;
  oe_every : ∀ x, x ∈ rs → PolRollover (ResPolicy x) = want → ∃ y, y ∈ ranked ∧ same_policy x y;
  oe_once : NoDup ((λ x, canonical_key norm (ResPolicy x)) <$> ranked) }.

Lemma all_ranked_spec want rs : ∀ s before ranked,
  all_ranked norm want s rs = Ok ranked →
  one_each want before (snd s) → (∀ k, k ∈ fst s ↔ ∃ x, x ∈ snd s ∧ canonical_key norm (ResPolicy x) = Ok k) →
  one_each want (before ++ rs) ranked.
Proof using Type.
  induction rs as [|r rs IH]; intros [seen out] before ranked H Ho Hk; cbn [all_ranked] in H.
  { injection H as <-. by rewrite app_nil_r. }
  apply bind_Ok in H as (s & Hs & H). unfold add_ranked in Hs. apply bind_Ok in Hs as (key & Hkey & [= <-]). cbn [fst snd] in *.
  rewrite (cons_middle r before rs), app_assoc. apply (IH _ _ _ H); clear IH H.
  - case_bool_decide as Hw; [case_bool_decide as Hseen|]; cbn [andb negb snd].
    + destruct Ho as [H1 H2 H3]. split; [intros x Hx; apply H1 in Hx as [? ?]; split; [apply elem_of_app; by left|done]| |done].
      intros x [Hx|Hx]%elem_of_app Hwx; [by apply H2|]. apply list_elem_of_singleton in Hx as ->.
      apply Hk in Hseen as (y & Hy & Ey). exists y. split; [done|]. by exists key.
    + destruct Ho as [H1 H2 H3]. split.
      * intros x [Hx|Hx]%elem_of_app; [apply H1 in Hx as [? ?]; split; [apply elem_of_app; by left|done]|].
        apply list_elem_of_singleton in Hx as ->. split; [|done]. apply elem_of_app. right. by left.
      * intros x [Hx|Hx]%elem_of_app Hwx.
        -- destruct (H2 x Hx Hwx) as (y & Hy & ?). exists y. split; [apply elem_of_app; by left|done].
        -- apply list_elem_of_singleton in Hx as ->. exists r. split; [apply elem_of_app; right; by left|by exists key].
      * rewrite fmap_app. apply NoDup_app. split; [done|]. split; [|apply NoDup_singleton].
        intros x (y & -> & Hy)%list_elem_of_fmap Hx. apply list_elem_of_singleton in Hx. apply Hseen, Hk.
        exists y. split; [done|]. by rewrite Hx.
    + destruct Ho as [H1 H2 H3]. split; [intros x Hx; apply H1 in Hx as [? ?]; split; [apply elem_of_app; by left|done]| |done].
      intros x [Hx|Hx]%elem_of_app Hwx; [by apply H2|]. by apply list_elem_of_singleton in Hx as ->.
  - case_bool_decide as Hw; [case_bool_decide as Hseen|]; cbn [andb negb fst snd]; [done| |done].
    intros k. rewrite elem_of_union, elem_of_singleton, Hk. split.
    + intros [->|(x & Hx & Ex)]; [exists r; split; [apply elem_of_app; right; by left|done]|].
      exists x. split; [apply elem_of_app; by left|done].
    + intros (x & [Hx|Hx]%elem_of_app & Ex); [right; by exists x|]. apply list_elem_of_singleton in Hx as ->. left. congruence.
Qed.

(** A goal's ranking: the shared runs and the rows, one for each canonical
    policy of the rollover. *)
Definition goal_ok (rows : list ComparisonResult) (g : GoalComparison) : Prop :=
  (∀ x, x ∈ GcRanked g → PolRollover (ResPolicy x) = wanted (GcGoal g) ∧ own_run x) ∧
  NoDup ((λ x, canonical_key norm (ResPolicy x)) <$> GcRanked g) ∧
  ∀ row r, row ∈ rows → CmResult row = Some r → PolRollover (ResPolicy r) = wanted (GcGoal g) →
    ∃ y, y ∈ GcRanked g ∧ same_policy r y.

Lemma one_each_perm want rs l l' : l ≡ₚ l' → one_each want rs l → one_each want rs l'.
Proof using Type. intros Hp [H1 H2 H3]. split; [by setoid_rewrite <- Hp|by setoid_rewrite <- Hp|by rewrite <- Hp]. Qed.

Lemma row_own custom row r : row_ok custom row → CmResult row = Some r → own_run r.
Proof using Type.
  unfold row_ok. destruct (strategyPolicy norm (CmStrategy row) custom (CmRollover row)) as [p|e|w] eqn:Es; [|by intros (-> & _)|done].
  intros [_ H]. destruct (Run norm p) as [[e|x]|e|w] eqn:Er; [by destruct H as (_ & -> & _)| |done..]. destruct H as [-> _].
  intros [= <-]. exists p, x. split; [by eapply strategy_plan|done].
Qed.

Lemma compare_goal_shares cores schedule custom rows g u c u' :
  shares u → Forall (row_ok custom) rows → compare_goal ctx cores schedule norm rows g u = Ok (inr c, u') →
  shares u' ∧ GcGoal c = g ∧ goal_ok rows c.
Proof using Ht Hm Hctx.
  intros Hu Hrows H. unfold compare_goal in H. apply step_bind_value in H as ([] & u1 & H1 & H).
  apply explore_shares in H1; [|done]. clear Hu u. apply step_bind_value in H as (baseline & u2 & H2 & H).
  assert (shares u2) as Hu2.
  { unfold on_cache in H2. pose proof (requiredNow_plain norm Ht (u_cache u1) (sh_memo u1 H1)) as Hp.
    destruct (requiredNow norm (u_cache u1)) as [[v c']|e|w]; [|done..]. injection H2 as -> <-. destruct Hp as [_ Hc].
    destruct H1. by split. }
  clear H1 H2 u1. apply step_bind_value in H as (rs & u1 & [= <- <-] & H). apply step_bind_value in H as (ranked & u1 & H3 & H).
  apply calls_Ok in H3 as [H3%core_Ok ->]. apply step_bind_value in H as (sorted & u1 & H4 & H). apply calls_Ok in H4 as [H4 ->].
  apply step_bind_value in H as (best & u1 & H5 & H). apply calls_Ok in H5 as [_ ->].
  apply step_bind_value in H as (u1 & u3 & [= <- <-] & H). apply step_bind_value in H as (cert & u3 & H6 & H).
  apply calls_Ok in H6 as [_ ->]. apply step_ret_Ok in H as [[= ->] ->]. split; [done|]. split; [done|].
  apply (all_ranked_spec _ _ _ []) in H3; [|cbn [snd]; split; [by intros x ?%elem_of_nil|by intros x ?%elem_of_nil|constructor]|].
  2: { cbn [fst snd]. intros k. split; [by intros ?%elem_of_empty|by intros (x & ?%elem_of_nil & _)]. }
  cbn [app] in H3. assert (sorted ≡ₚ ranked) as Hp.
  { destruct ranked; [done|]. apply core_Ok in H4. by apply sort_checked_perm in H4. }
  symmetry in Hp. apply (one_each_perm _ _ _ _ Hp) in H3. destruct H3 as [G1 G2 G3]. split; [|split; [done|]].
  - intros x Hx. apply G1 in Hx as [[Hx|Hx]%elem_of_app Hw]; (split; [done|]); [exact (sh_results u2 Hu2 x Hx)|].
    unfold row_results in Hx. apply list_elem_of_omap in Hx as (row & Hrow & Er). rewrite Forall_forall in Hrows.
    by eapply row_own; [apply Hrows|].
  - intros row r Hrow Er Hw. apply G2; [|done]. apply elem_of_app. right. unfold row_results. apply list_elem_of_omap. by exists row.
Qed.
Lemma add_goals_shares cores schedule custom rows goals : ∀ out u out' u',
  shares u → Forall (row_ok custom) rows → Forall (goal_ok rows) out →
  fold_steps (add_goal ctx cores schedule norm rows) out goals u = Ok (inr out', u') →
  shares u' ∧ Forall (goal_ok rows) out' ∧ GcGoal <$> out' = (GcGoal <$> out) ++ goals.
Proof using Ht Hm Hctx.
  induction goals as [|g goals IH]; intros out u out' u' Hu Hrows Hout H; cbn [fold_steps] in H.
  { apply step_ret_Ok in H as [[= ->] ->]. by rewrite app_nil_r. }
  apply step_bind_value in H as (out1 & u1 & H1 & H). unfold add_goal in H1. apply step_bind_value in H1 as (c & u2 & H1 & H2).
  apply step_ret_Ok in H2 as [[= ->] ->]. eapply compare_goal_shares in H1 as (Hu2 & Hg & Hc); [|done..].
  apply IH in H as (Hu' & Ho' & ->); [|done|done|apply Forall_app; split; [done|by constructor]]. split; [done|]. split; [done|].
  rewrite fmap_app, <- app_assoc. cbn. by rewrite Hg.
Qed.
End Sharing.

(** * Where a comparison starts *)

Lemma effectVectors_length ls v : v ∈ effectVectors ls → length v = length ls.
Proof.
  unfold effectVectors, uniform. destruct (Nat.eqb _ 0); [|destruct (Nat.ltb _ _)].
  - intros ->%list_elem_of_singleton. apply length_replicate.
  - intros [->|Hv]%elem_of_cons; [apply length_replicate|]. apply list_elem_of_singleton in Hv as ->. apply length_replicate.
  - intros (m & -> & _)%list_elem_of_fmap. destruct (masked_spec (replicate (length ls) PrepayBorrowerChooses)
      (indices free_effect ls) choose_effect m (indices_NoDup _ _)) as [-> _]. apply length_replicate.
Qed.
Lemma timingVectors_length i ls v : v ∈ timingVectors i ls → length v = length ls.
Proof.
  unfold timingVectors, uniform. cbv zeta. set (free := if 0 <? PayDay (Cash i) then indices free_timing ls else []).
  assert (NoDup free ∧ ∀ k, k ∈ free → (k < length ls)%nat) as [Hnd Hfree].
  { unfold free. destruct (0 <? PayDay (Cash i)); [|split; [constructor|by intros k ?%elem_of_nil]].
    split; [apply indices_NoDup|]. intros k (l & Hl%lookup_lt_Some & _)%elem_of_indices. done. }
  destruct (Nat.eqb _ 0); [|destruct (_ || _)].
  - intros ->%list_elem_of_singleton. apply length_replicate.
  - intros [->|Hv]%elem_of_cons; [apply length_replicate|]. apply list_elem_of_singleton in Hv as ->.
    destruct (foldl_insert OnReceipt free (replicate (length ls) OnDue)) as [-> _]; [|apply length_replicate].
    intros k Hk. rewrite length_replicate. by apply Hfree.
  - intros (m & -> & _)%list_elem_of_fmap. destruct (masked_spec (replicate (length ls) OnDue) free choose_timing m Hnd) as [-> _].
    apply length_replicate.
Qed.

Lemma surveyed_policies norm u ro p : surveyed norm u → p ∈ fst (candidates u ro) → plan_policy norm p.
Proof.
  intros Hs Hp. unfold candidates in Hp. cbn [fst] in Hp. apply elem_of_take in Hp as (k & Hk & _). apply list_elem_of_lookup_2 in Hk.
  apply elem_of_all_candidates in Hk as (o & e & t & b & _ & He & Ht & Hb & ->).
  rewrite (sv_effects norm u Hs) in He. rewrite (sv_timings norm u Hs) in Ht. rewrite (sv_batches norm u Hs) in Hb.
  split; cbn; [by apply timingVectors_length in Ht|by apply effectVectors_length|].
  apply elem_of_cons in Hb as [->|Hb]; [by left|right]. destruct (existsb fee_bearing (Loans norm)); [done|by apply elem_of_nil in Hb].
Qed.

Lemma survey_shares norm assumed polls u : survey norm assumed true polls = Ok u → shares norm assumed u.
Proof.
  intros H. pose proof (survey_surveyed _ _ _ _ _ H) as Hs. unfold survey in H. apply bind_Ok in H as (named & _ & H).
  case_if_in H; [done|]. cbv zeta in H. injection H as <-. split; [done|done|apply remembered_new| | |].
  - exists ∅. split; [done|]. intros k s Hk. by rewrite lookup_empty in Hk.
  - intros ro p. by apply surveyed_policies.
  - by intros x ?%elem_of_nil.
Qed.
Lemma blank_shares norm assumed polls : shares norm assumed (blank_universe norm assumed polls).
Proof.
  split; [done|done|apply remembered_new| | |].
  - exists ∅. split; [done|]. intros k s Hk. by rewrite lookup_empty in Hk.
  - by intros ro p ?%elem_of_nil.
  - by intros x ?%elem_of_nil.
Qed.

Lemma explored_shares ctx cores schedule norm assumed polls u :
  clear_terms norm → apart_minimums norm → (∀ m, ctx m = None) →
  exploreNormalizedContext ctx cores schedule norm assumed true polls = Ok (inr u) → shares norm assumed u.
Proof.
  intros Ht Hm Hctx H. unfold exploreNormalizedContext in H. destruct (survey norm assumed true polls) as [u0|e|w] eqn:Es; [|done..].
  apply survey_shares in Es. destruct ((_ ← explore ctx cores schedule RollFreed; some_result) u0) as [[[e|[]] u']|e|w] eqn:Eu; [done| |done..].
  injection H as ->. apply step_bind_value in Eu as ([] & u1 & H1 & H2). apply (explore_shares norm assumed Ht Hm ctx Hctx) in H1; [|done].
  unfold some_result in H2. apply step_bind_value in H2 as (rs & u2 & [= <- <-] & H2).
  apply step_bind_value in H2 as (i & u2 & [= <- <-] & H2). destruct (Results u1).
  - apply step_bind_value in H2 as (r & u2 & _ & H2). by apply calls_Ok in H2 as [? _].
  - by apply step_ret_Ok in H2 as [_ ->].
Qed.

(** * Properties *)

(** What is asked for: each rollover, each strategy once. *)
Definition asked_rows (req : ComparisonRequest) : list (Rollover * StrategyID) :=
  roll ← asked_rollovers (OptimizedGoals req); id ← asked_strategies req; [(roll, id)].

(** C9. Sharing runs changes no row. Each row of a comparison is what its own
    strategy comes to, simulated alone from an empty memo, or the refusal it meets,
    although policies that choose the same are simulated once; each goal's ranking
    holds runs of their own policies, one for each canonical policy, and every
    feasible row of its rollover among them. Without goals the simulations counted
    are the distinct policies of the rows. *)
Theorem Compare_shares cores schedule req rep norm assumed :
  Normalize (CrInput req) = Ok (norm, assumed) → clear_terms norm → apart_minimums norm →
  Compare cores schedule req = Ok (inr rep) →
  Forall (row_ok norm assumed (CustomOrder req)) (CpResults rep) ∧
  (λ r, (CmRollover r, CmStrategy r)) <$> CpResults rep = asked_rows req ∧
  Forall (goal_ok norm assumed (CpResults rep)) (Optimized rep) ∧ GcGoal <$> Optimized rep = OptimizedGoals req ∧
  (OptimizedGoals req = [] → Simulations rep = Z.of_nat (size (row_keys (CpResults rep)))).
Proof.
  intros Hn Ht Hm H. unfold Compare, CompareContext in H. cbn [background] in H. rewrite Hn in H.
  destruct (each (check_goal (CrInput req)) (OptimizedGoals req)); [|done..]. cbn [mbind result_bind fst] in H.
  destruct (validateStrategyIDs ∅ (Loans norm)); [|done..]. cbn [mbind result_bind] in H.
  assert (∃ u, finishes (compare_all background cores schedule norm req assumed) u = Ok (inr rep) ∧ shares norm assumed u ∧
    (OptimizedGoals req = [] → keys_of u = ∅)) as (u & Hf & Hu & Hk0).
  { destruct (OptimizedGoals req) as [|g gs] eqn:Eg.
    - eexists. split; [exact H|]. split; [apply blank_shares|done].
    - destruct (exploreNormalizedContext background cores schedule norm assumed true 1) as [[e|u]|e|w] eqn:Eu; [done| |done..].
      exists u. split; [done|]. split; [|done]. by eapply explored_shares. }
  clear H. unfold finishes in Hf. destruct (compare_all background cores schedule norm req assumed u) as [[r u']|e|w] eqn:H; [|done..].
  injection Hf as ->. unfold compare_all in H. apply step_bind_value in H as (rows & u1 & H1 & H).
  apply (add_rows_shares norm assumed Ht Hm background (λ _, eq_refl)) in H1 as (Hu1 & Hrows & Hasked & Hkeys); [|done|constructor].
  apply step_bind_value in H as (goals & u2 & H2 & H).
  pose proof H2 as Hg. apply (add_goals_shares norm assumed Ht Hm background (λ _, eq_refl) _ _ (CustomOrder req)) in Hg as (Hu2 & Hgoals & Hgs);
    [|done|done|constructor].
  apply step_bind_value in H as (ds & u3 & H3 & H). apply calls_Ok in H3 as [_ ->].
  apply step_bind_value in H as (runs & u3 & [= <- <-] & H). apply step_ret_Ok in H as [[= ->] _]. cbn [CpResults Optimized Simulations].
  split; [done|]. split; [done|]. split; [|split].
  - apply Forall_fmap. eapply Forall_impl; [exact Hgoals|]. intros c Hc. exact Hc.
  - change (GcGoal <$> goals = OptimizedGoals req) in Hgs. rewrite <- list_fmap_compose, <- Hgs. by apply list_fmap_ext.
  - intros E. rewrite E in H2. cbn in H2. apply step_ret_Ok in H2 as [_ ->]. specialize (Hkeys (Hk0 E)).
    unfold keys_of in Hkeys. rewrite <- Hkeys. by rewrite size_dom.
Qed.

(** Highest rate and snowball on one loan: two rows, one simulation. *)
Definition shared_request : ComparisonRequest :=
  MkComparisonRequest memo_plan [StrategyHighestRate; StrategySnowball; StrategyHighestRate] [] [].
Definition shared_once (x : result stop (perror + ComparisonReport)) : bool :=
  match x with
  | Ok (inr rep) => (Simulations rep =? 1) && Nat.eqb (length (row_results (CpResults rep))) 2
  | _ => false
  end.

Lemma Compare_shares_witness :
  ∃ rep, Compare 1 (λ _, []) shared_request = Ok (inr rep) ∧ Simulations rep = 1 ∧
    Forall (row_ok memo_plan ∅ []) (CpResults rep) ∧
    CmStrategy <$> CpResults rep = [StrategyHighestRate; StrategySnowball].
Proof.
  assert (Normalize memo_plan = Ok (memo_plan, ∅)) as Hn by (vm_compute; reflexivity).
  assert (batchThresholds memo_plan = []) as Hnone by (vm_compute; reflexivity).
  assert (apart_minimums memo_plan) as Hm.
  { intros a b s Ha. rewrite Hnone in Ha. exfalso. inversion Ha. }
  assert (shared_once (Compare 1 (λ _, []) shared_request) = true) as Hc by (vm_compute; reflexivity).
  destruct (Compare 1 (λ _, []) shared_request) as [[e|rep]|e|w] eqn:Ec; try discriminate Hc.
  apply andb_true_iff in Hc as [Hc%Z.eqb_eq _].
  destruct (Compare_shares 1 (λ _, []) shared_request rep memo_plan ∅ Hn memo_terms Hm Ec) as (Hrows & Hasked & _).
  exists rep. split; [reflexivity|]. split; [exact Hc|]. split; [exact Hrows|].
  apply (f_equal (fmap snd)) in Hasked. rewrite <- list_fmap_compose in Hasked. exact Hasked.
Defined.
