(* ===== verification/Timely.v ===== *)
(** Time never runs backwards: the date a loan is told follows the calendar of
    its contract from its anchor, so no step of the simulator moves a due date
    to an earlier day; and no step but the loop can run out of fuel.

    The memo is shared by loans whose fingerprints agree. [terms] says which
    contract a fingerprint stands for. *)
From S2P Require Import Prelude Money Dates Model Schedule Solve Declining Calendar Fees PlanBase PlanInput.
From S2P Require Import SimState Sim SimLogic Quotes Obligations.

(** * The date after an anchor *)

(** The first contractual date ahead, or the next monthly occurrence when none
    is left. *)
Definition next_date (c : Contract) (from : Date) : Date :=
  match RemainingDates c from with
  | Ok (d :: _) => d
  | _ => Occurrence from (PaymentDay c) 1
  end.

Lemma annuity_due c inst d ds i bal from out out' rows rows' :
  Periods out = 0 → project_from c inst (d :: ds) i bal from out rows = Ok (out', rows') → Periods out' ≠ 0 →
  FirstDue out' = d.
Proof.
  intros H0 H Hp. cbn [project_from] in H. destruct (Sign bal <=? 0); [injection H as <- <-; done|].
  destruct (DaysBetween from d <? 0); [done|]. repeat (apply bind_Ok in H as (? & _ & H)).
  apply project_from_first in H as [-> _]; by apply first_row.
Qed.

Lemma declining_due c per n d ds i bal from out out' rows rows' :
  Periods out = 0 → declining_from c per n (d :: ds) i bal from out rows = Ok (out', rows') → FirstDue out' = d.
Proof.
  intros H0 H. cbn [declining_from] in H. destruct (DaysBetween from d <? 0); [done|].
  do 3 (apply bind_Ok in H as (? & _ & H)). apply bind_Ok in H as ([] & _ & H); [done|].
  do 3 (apply bind_Ok in H as (? & _ & H)).
  case_if_in H; [injection H as <- <-; by apply first_row|].
  apply declining_from_first in H as [-> _]; by apply first_row.
Qed.

Lemma Next_due c cal bal from o :
  NewCalendar c = Ok cal → Next cal bal from = Ok o → ObDue o = next_date c from.
Proof.
  intros Hc H. unfold Next in H. apply bind_Ok in H as ([[out inst] rows] & Hbuild & H).
  destruct (Z.eqb_spec (Periods out) 0) as [|Hp]; [done|]. injection H as <-. unfold build in Hbuild.
  pose proof Hc as [Ec _]%NewCalendar_Ok. rewrite Ec in Hbuild. unfold next_date.
  rewrite <- (Calendar_Dates_remaining c cal from Hc). destruct (Type_ c).
  - apply bind_Ok in Hbuild as (a & Ha & H). apply bind_Ok in H as (u & _ & H).
    apply bind_Ok in H as (ds & -> & H). apply bind_Ok in H as ([out' rows'] & Hproj & H).
    repeat (case_if_in H; [done|]). injection H as -> -> ->. unfold project in Hproj.
    destruct ds as [|d ds]; [by injection Hproj as <- <-|]. by apply annuity_due in Hproj.
  - apply bind_Ok in Hbuild as (ds & Hds & H). apply bind_Ok in H as ([out' rows'] & Hproj & H).
    injection H as -> <- ->. unfold decliningDates in Hds. destruct (Sign bal <=? 0); [done|]. rewrite Hds.
    unfold projectDeclining in Hproj. apply bind_Ok in Hproj as (per & _ & Hproj).
    destruct ds as [|d ds]; [by injection Hproj as <- <-|]. by apply declining_due in Hproj.
Qed.

Lemma project_next_due l cal o :
  NewCalendar (l_contract l) = Ok cal → project_next l cal = Ok o → o_due o = next_date (l_contract l) (l_from l).
Proof.
  intros Hc H. unfold project_next in H. destruct (carries l).
  - rewrite (Calendar_Dates_remaining _ _ _ Hc) in H. unfold next_date.
    destruct (RemainingDates _ _) as [[|d ds]|e|w]; [done| | |done]; by injection H as <-.
  - destruct (Next cal (l_balance l) (l_from l)) as [ob|e|w] eqn:En; [|done..]. injection H as <-.
    by apply (Next_due _ _ _ _ _ Hc En).
Qed.

(** ** It moves forward with the anchor *)

Lemma drop_passed_head c from ds d rest :
  drop_passed c from ds = d :: rest → d ∈ ds ∧ passed c from d = false.
Proof.
  induction ds as [|e ds IH]; cbn [drop_passed]; [done|]. destruct (passed c from e) eqn:E.
  - intros [??]%IH. split; [by right|done].
  - intros [= -> ->]. split; [by left|done].
Qed.

Lemma drop_passed_all c from ds d : drop_passed c from ds = [] → d ∈ ds → passed c from d = true.
Proof.
  induction ds as [|e ds IH]; cbn [drop_passed]; [by intros _ ?%elem_of_nil|].
  destruct (passed c from e) eqn:E; [|done]. intros H [->|Hd]%elem_of_cons; auto.
Qed.

(** A date passed for an anchor stays passed. *)
Lemma passed_mono c f f' d :
  dated f → dated f' → valid d → time f ≤ time f' → passed c f d = true → passed c f' d = true.
Proof.
  intros Hf Hf' Hd Ht. unfold passed. rewrite (dated_nonzero f), (dated_nonzero f') by done. rewrite !After_time by auto.
  destruct (Z.ltb_spec (time f) (time d)), (Z.ltb_spec (time f') (time d)); try lia; cbn; auto.
Qed.

Lemma drop_passed_mono c f f' prev ds d rest d' rest' :
  dated f → dated f' → time f ≤ time f' → Forall valid ds → ahead prev ds →
  drop_passed c f ds = d :: rest → drop_passed c f' ds = d' :: rest' → time d ≤ time d'.
Proof.
  intros Hf Hf' Ht Hv. revert prev. induction Hv as [|e ds He Hv IH]; intros prev Ha H H'; [done|].
  cbn [drop_passed] in H, H'. destruct (passed c f e) eqn:E.
  - rewrite (passed_mono c f f' e) in H' by done. by apply (IH e); [apply Ha|..].
  - injection H as <- <-. destruct (passed c f' e); [|injection H' as <- _; done].
    apply drop_passed_head in H' as [Hin _]. apply Z.lt_le_incl. by apply (ahead_all e ds d'); [apply Ha|].
Qed.

Lemma remaining_dated c from ds :
  dated from → PaymentDates c = Ok ds →
  RemainingDates c from = match drop_passed c from ds with
                          | [] => unsolvable "%w: no instalment falls after %s"
                          | rest => Ok rest
                          end.
Proof. intros Hf H. unfold RemainingDates, remainingFrom. rewrite H. cbn. by rewrite dated_nonzero. Qed.

Lemma next_date_mono c f f' :
  wf_dates c → dated f → dated f' → time f ≤ time f' → time (next_date c f) ≤ time (next_date c f').
Proof.
  intros Hc Hf Hf' Ht.
  assert (∀ g, dated g → valid (Occurrence g (PaymentDay c) 1) ∧ month_of (Occurrence g (PaymentDay c) 1) = month_of g + 1 ∧
    Day (Occurrence g (PaymentDay c) 1) = Z.min (Z.max 1 (PaymentDay c))
      (month_len (Year (Occurrence g (PaymentDay c) 1)) (Month (Occurrence g (PaymentDay c) 1)))) as Hocc.
  { intros g [_ Hm]. apply Occurrence_facts. lia. }
  destruct (Hocc f Hf) as (Hvo & Hmo & Hdo), (Hocc f' Hf') as (Hvo' & Hmo' & Hdo').
  assert (time (Occurrence f (PaymentDay c) 1) ≤ time (Occurrence f' (PaymentDay c) 1)) as Hoo.
  { destruct (Z.lt_trichotomy (month_of f) (month_of f')) as [Hlt|[Heq|Hgt]].
    - apply Z.lt_le_incl, month_of_lt_time; done || lia.
    - enough (Occurrence f (PaymentDay c) 1 = Occurrence f' (PaymentDay c) 1) as -> by lia.
      destruct (month_of_split _ _ Hvo Hvo') as [Ey Em]; [lia|]. apply same_date; [done|done|lia|].
      by rewrite Hdo, Hdo', Ey, Em.
    - pose proof (month_of_lt_time f' f ltac:(auto) ltac:(auto) Hgt). lia. }
  unfold next_date. destruct (PaymentDates c) as [ds|e|w] eqn:Eds;
    [|unfold RemainingDates; rewrite Eds; done..].
  rewrite !(remaining_dated c _ ds) by done.
  pose proof (PaymentDates_ahead c ds Hc Eds) as Ha. pose proof (PaymentDates_valid c ds Hc Eds) as Hv.
  destruct (drop_passed c f ds) as [|d rest] eqn:E, (drop_passed c f' ds) as [|d' rest'] eqn:E'; cbn [unsolvable].
  - exact Hoo.
  - exfalso. apply drop_passed_head in E' as [Hin Hp]. rewrite Forall_forall in Hv.
    rewrite (passed_mono c f f' d') in Hp; [done|done|done|by apply Hv|done|by eapply drop_passed_all].
  - apply drop_passed_head in E as [Hin Hp]. pose proof (drop_passed_all _ _ _ _ E' Hin) as Hp'.
    rewrite Forall_forall in Hv. specialize (Hv d Hin). unfold passed in Hp, Hp'.
    rewrite (dated_nonzero f') in Hp' by done. apply orb_false_iff in Hp as [_ Hp]. rewrite Hp, orb_false_r in Hp'.
    cbn [negb andb] in Hp'. apply negb_true_iff in Hp'. rewrite After_time, Z.ltb_ge in Hp' by auto.
    pose proof (month_of_lt_time f' _ (dated_valid f' Hf') Hvo' ltac:(lia)). cbn [unsolvable]. exact (Z.le_trans _ _ _ Hp' (Z.lt_le_incl _ _ H)).
  - by eapply (drop_passed_mono c f f' (StartDate c) ds).
Qed.

(** * The memo and the loans agree *)

Section Timely.
Context (terms : string → Contract).

Definition key_fp (k : oblKey) : string := fst (fst (fst (fst k))).

(** Whatever is remembered is what the calendar of the contract says. *)
Record told (m : cache) : Prop := {
  td_obligations : ∀ k o, obligations m !! k = Some o → o_due o = next_date (terms (key_fp k)) (key_from k);
  td_calendars : ∀ fp cal, calendars m !! fp = Some cal → NewCalendar (terms fp) = Ok cal }.

(** The contract a loan goes by, and the anchor it counts from. *)
Record named (l : loanState) : Prop := {
  nm_terms : terms (l_fp l) = l_contract l;
  nm_dates : wf_dates (l_contract l);
  nm_from : dated (l_from l) }.

(** An open loan waits for the date after some anchor it has reached. *)
Definition timely (l : loanState) : Prop :=
  named l ∧ (l_closed l = true ∨
    ∃ f, dated f ∧ time f ≤ time (l_from l) ∧ l_due l = next_date (l_contract l) f).

Definition Told (s : sim) : Prop := told (s_cache s) ∧ Forall timely (s_loans s).

Lemma told_newCache : told newCache.
Proof using Type. split; cbn; intros ? ? H; by rewrite lookup_empty in H. Qed.

(** ** Asking the memo *)

Lemma cache_calendar_told m l m' r :
  told m → named l → cache_calendar m l = (m', r) →
  told m' ∧ ∀ cal, r = Ok cal → NewCalendar (l_contract l) = Ok cal.
Proof using Type.
  intros Hm Hl H. unfold cache_calendar in H. destruct (calendars m !! l_fp l) as [cal|] eqn:E.
  { injection H as <- <-. split; [done|]. intros ? [= <-]. rewrite <- (nm_terms l Hl). by apply (td_calendars m Hm). }
  destruct (NewCalendar (l_contract l)) as [cal|e|w] eqn:En; injection H as <- <-; [|done..].
  split; [|by intros ? [= <-]]. split; [apply Hm|]. cbn. intros fp cal' [[<- <-]|[_ H]]%lookup_insert_Some.
  - by rewrite (nm_terms l Hl).
  - by apply (td_calendars m Hm).
Qed.

Lemma cache_next_told m l m' r :
  told m → named l → cache_next m l = (m', r) →
  told m' ∧ ∀ o, r = Ok o → o_due o = next_date (l_contract l) (l_from l).
Proof using Type.
  intros Hm Hl H. unfold cache_next in H. destruct (obligations m !! key_of l) as [o|] eqn:E.
  { injection H as <- <-. split; [done|]. intros ? [= <-]. rewrite <- (nm_terms l Hl).
    by apply (td_obligations m Hm (key_of l)). }
  destruct (cache_calendar m l) as [m1 rc] eqn:Ec.
  destruct (cache_calendar_told m l m1 rc Hm Hl Ec) as [Hm1 Hcal].
  destruct rc as [cal|[e| | | | | |]|w]; try (injection H as <- <-; done).
  specialize (Hcal cal eq_refl). destruct (project_next l cal) as [o|e|w] eqn:En; injection H as <- <-; [|done..].
  pose proof (project_next_due _ _ _ Hcal En) as Ho.
  split; [|by intros ? [= <-]]. split; [|apply Hm1]. cbn. intros k o' [[<- <-]|[_ H]]%lookup_insert_Some.
  - by rewrite <- (nm_terms l Hl) in Ho.
  - by apply (td_obligations m1 Hm1).
Qed.

(** ** Steps that keep time *)

(** No loan reopens, and no open loan falls due earlier. *)
Definition later (l l' : loanState) : Prop :=
  (l_closed l = true → l_closed l' = true) ∧ (l_closed l' = true ∨ time (l_due l) ≤ time (l_due l')).
#[export] Instance later_preorder : PreOrder later.
Proof using Type.
  split; [intros l; split; auto with lia|]. intros a b c [H1 H2] [H3 H4]. split; [auto|].
  destruct H4 as [|H4]; [by left|]. destruct H2 as [H2|]; [left; auto|right; lia].
Qed.

Definition forward (s s' : sim) : Prop :=
  ∀ i l, s_loans s !! i = Some l → ∃ l', s_loans s' !! i = Some l' ∧ later l l'.
#[export] Instance forward_preorder : PreOrder forward.
Proof using Type.
  split; [intros s i l L; by exists l|]. intros s1 s2 s3 H1 H2 i l L.
  destruct (H1 i l L) as (l2 & L2 & ?), (H2 i l2 L2) as (l3 & L3 & ?). exists l3. split; [done|by etrans].
Qed.

(** A step of the day [on] that never runs out of fuel and keeps [Told], never
    moving a due date back. *)
Context (on : Date).
Definition tells {A} (m : M A) : Prop :=
  ∀ s, match m s with
       | Ok (_, s') => dated on → Told s → Told s' ∧ forward s s'
       | Err _ => False
       | Panic _ => True
       end.

Lemma tells_Ok {A} (m : M A) s a s' : tells m → m s = Ok (a, s') → dated on → Told s → Told s' ∧ forward s s'.
Proof using Type. intros Hm H Hon HT. specialize (Hm s). rewrite H in Hm. auto. Qed.
Lemma tells_Err {A} (m : M A) s e : tells m → m s ≠ Err e.
Proof using Type. intros Hm H. specialize (Hm s). by rewrite H in Hm. Qed.

Lemma tells_still {A} (m : M A) :
  (∀ s, match m s with Ok (_, s') => s_loans s' = s_loans s ∧ s_cache s' = s_cache s | Err _ => False | Panic _ => True end) →
  tells m.
Proof using Type.
  intros Hm s. specialize (Hm s). destruct (m s) as [[a s']|e|w]; [|done..]. destruct Hm as [El Ec].
  intros _ [Hc Hl]. split; [by split; rewrite ?El, ?Ec|]. intros i l L. exists l. by rewrite El.
Qed.

Lemma tells_ret {A} (a : A) : tells (mret a).
Proof using Type. by apply tells_still. Qed.
Lemma tells_gets {A} (f : sim → A) : tells (gets f).
Proof using Type. by apply tells_still. Qed.
Lemma tells_panic {A} w : tells (panic w : M A).
Proof using Type. by intros s. Qed.
Lemma tells_bind {A B} (m : M A) (k : A → M B) : tells m → (∀ a, tells (k a)) → tells (m ≫= k).
Proof using Type.
  intros Hm Hk s. unfold mbind, M_bind. specialize (Hm s). destruct (m s) as [[a s1]|e|w]; [|done..].
  specialize (Hk a s1). destruct (k a s1) as [[b s2]|e|w]; [|done..]. intros Hon HT.
  destruct (Hm Hon HT) as [HT1 Hf1], (Hk Hon (proj1 (Hm Hon HT))) as [HT2 Hf2]. split; [done|by etrans].
Qed.
Lemma tells_and_then {A B} (m : M (perror + A)) (k : A → M (perror + B)) :
  tells m → (∀ a, tells (k a)) → tells (and_then m k).
Proof using Type. intros Hm Hk. apply tells_bind; [done|]. intros [e|a]; [apply tells_ret|done]. Qed.
Lemma tells_total {A} (m : res A) : tells (total m).
Proof using Type. apply tells_still. intros s. unfold total. by destruct m. Qed.
Lemma tells_attempt {A} (m : pres A) : tells (attempt m).
Proof using Type. apply tells_still. intros s. unfold attempt. by destruct m. Qed.
Lemma tells_foldM {A B} (f : B → A → M B) l : (∀ b x, tells (f b x)) → ∀ b, tells (foldM f b l).
Proof using Type.
  intros Hf. induction l as [|x l IH]; intros b; simpl; [apply tells_ret|]. by apply tells_bind.
Qed.
Lemma tells_modify f : (∀ s, s_loans (f s) = s_loans s ∧ s_cache (f s) = s_cache s) → tells (modify f).
Proof using Type. intros Hf. by apply tells_still. Qed.
Lemma tells_raise e : tells (raise e).
Proof using Type. by apply tells_modify. Qed.
Lemma tells_or_raise {A} (r : perror + A) k : (∀ a, tells (k a)) → tells (or_raise r k).
Proof using Type. intros Hk. destruct r as [e|a]; [apply tells_raise|apply Hk]. Qed.
Lemma tells_sticky m a : tells (sticky m a).
Proof using Type. apply tells_still. intros s. unfold sticky. destruct (s_err s); [done|]. by destruct m. Qed.
Lemma tells_when b m : tells m → tells (when b m).
Proof using Type. destruct b; [done|]. intros _. apply tells_ret. Qed.
Lemma tells_loan i : tells (loan i).
Proof using Type. apply tells_still. intros s. unfold loan. by destruct (s_loans s !! i). Qed.
Lemma tells_bucket i : tells (bucket i).
Proof using Type. apply tells_still. intros s. unfold bucket. by destruct (s_cashBuckets s !! i). Qed.
Lemma tells_spending : tells spending.
Proof using Type. apply tells_still. intros s. unfold spending. by destruct (Spending (cash_plan s)). Qed.

(** A write to loans that leaves contract, anchor and date alone. *)
Definition mild (g : loanState → loanState) : Prop :=
  ∀ l, l_pos (g l) = l_pos l ∧ l_fp (g l) = l_fp l ∧ l_from (g l) = l_from l ∧ l_due (g l) = l_due l ∧
    (l_closed l = true → l_closed (g l) = true).

Lemma mild_timely g l : mild g → timely l → timely (g l) ∧ later l (g l).
Proof using Type.
  intros Hg [[Ht Hd Hf] Hw]. destruct (Hg l) as (Ep & Efp & Ef & Ed & Hc).
  assert (l_contract (g l) = l_contract l) as Ec by (unfold l_contract; by rewrite Ep).
  split; [split; [split; by rewrite ?Efp, ?Ec, ?Ef|]|split; [done|right; rewrite Ed; lia]].
  rewrite Ec, Ed, Ef. destruct Hw as [Hw|Hw]; [left; auto|by right].
Qed.

Lemma tells_loans f (g : list loanState → list loanState) :
  (∀ s, s_loans (f s) = g (s_loans s) ∧ s_cache (f s) = s_cache s) →
  (∀ ls, Forall timely ls → Forall timely (g ls) ∧
    ∀ i l, ls !! i = Some l → ∃ l', g ls !! i = Some l' ∧ later l l') →
  tells (modify f).
Proof using Type.
  intros Hf Hg s. cbn. intros _ [Hc Hl]. destruct (Hf s) as [El Ec]. destruct (Hg _ Hl) as [Hl' Hw].
  split; [by split; rewrite ?El, ?Ec|]. intros i l L. rewrite El. by apply Hw.
Qed.

Lemma tells_alter i g : mild g → tells (alter_loan i g).
Proof using Type.
  intros Hg. apply (tells_loans _ (alter g i)); [done|]. intros ls Hl. split.
  - apply Forall_alter; [done|]. intros l L Hl'. by apply mild_timely.
  - intros k l L. destruct (decide (k = i)) as [->|Hne].
    + exists (g l). rewrite list_lookup_alter_eq, L. split; [done|]. apply mild_timely; [done|].
      by apply (proj1 (Forall_lookup _ _) Hl _ _ L).
    + exists l. by rewrite list_lookup_alter_ne.
Qed.

Lemma tells_every g : mild g → tells (modify (set s_loans (fmap g))).
Proof using Type.
  intros Hg. apply (tells_loans _ (fmap g)); [done|]. intros ls Hl. split.
  - apply Forall_fmap. eapply Forall_impl; [exact Hl|]. intros l ?. by apply mild_timely.
  - intros k l L. exists (g l). rewrite list_lookup_fmap, L. split; [done|]. apply mild_timely; [done|].
    by apply (proj1 (Forall_lookup _ _) Hl _ _ L).
Qed.
End Timely.

(** * Every step keeps time *)

Create HintDb tells discriminated.
#[export] Hint Constants Opaque : tells.
#[export] Hint Resolve tells_ret tells_gets tells_panic tells_total tells_attempt tells_raise tells_sticky
  tells_loan tells_bucket tells_spending : tells.

Ltac mild := intros l; destruct l; cbn; split_and!; reflexivity || (intros; assumption || reflexivity).

(** Structural, as [sticks]: what is left are calls of other steps. *)
Ltac tells :=
  repeat match goal with
  | |- tells _ _ (_ ≫= _) => apply tells_bind; [|intros ?]
  | |- tells _ _ (and_then _ _) => apply tells_and_then; [|intros ?]
  | |- tells _ _ (or_raise _ _) => apply tells_or_raise; intros ?
  | |- tells _ _ (when _ _) => apply tells_when
  | |- tells _ _ (foldM _ _ _) => apply tells_foldM; intros ? ?
  | |- tells _ _ (modify (set s_loans (fmap _))) => apply tells_every; mild
  | |- tells _ _ (modify _) => apply tells_modify; intros []; split; reflexivity
  | |- tells _ _ (assign_loan _ _ _) => unfold assign_loan
  | |- tells _ _ (alter_loan _ _) => apply tells_alter; mild
  | |- tells _ _ (assign _ _) => unfold assign
  | |- tells _ _ (assign_res _ _) => unfold assign_res
  | |- tells _ _ (assign_month _ _) => unfold assign_month
  | |- tells _ _ (assign_bucket _ _ _) => unfold assign_bucket
  | |- tells _ _ (bump _ _) => unfold bump
  | |- tells _ _ (draw _ _) => unfold draw
  | |- tells _ _ (bump_res _ _) => unfold bump_res
  | |- tells _ _ (bump_month _ _) => unfold bump_month
  | |- tells _ _ (bump_loan _ _ _) => unfold bump_loan
  | |- tells _ _ (draw_loan _ _ _) => unfold draw_loan
  | |- tells _ _ (add _ _) => unfold add
  | |- tells _ _ (sub _ _) => unfold sub
  | |- tells _ _ (cmp _ _) => unfold cmp
  | |- tells _ _ failed => unfold failed
  | |- tells _ _ (match ?x with _ => _ end) => destruct x
  | |- tells _ _ _ => solve [auto with tells nocore]
  end.

Section Steps.
Context (terms : string → Contract) (on : Date).
#[local] Abbreviation tells := (Timely.tells terms on).
#[local] Abbreviation Told := (Timely.Told terms).
#[local] Abbreviation timely := (Timely.timely terms).
#[local] Abbreviation named := (Timely.named terms).

(** ** The steps that move dates *)

Lemma write_timely s i l l' :
  Told s → s_loans s !! i = Some l → timely l' → later l l' →
  Told (set s_loans (alter (λ _, l') i) s) ∧ forward s (set s_loans (alter (λ _, l') i) s).
Proof using Type.
  intros [Hc Hl] L Hl' Hw. pose proof (alter_insert (λ _, l') _ _ _ L) as Ea. cbv beta in Ea. split.
  - split; [done|]. cbn. rewrite Ea. by apply Forall_insert.
  - intros k l1 L1. cbn. rewrite Ea. destruct (decide (k = i)) as [->|Hne].
    + exists l'. rewrite list_lookup_insert_eq by by apply lookup_lt_Some in L. split; [done|]. congruence.
    + exists l1. by rewrite list_lookup_insert_ne by done.
Qed.

Lemma accrueTo_timely l l' : dated on → timely l → accrueTo l on = Ok l' → timely l' ∧ later l l'.
Proof using Type.
  intros Hon [[Ht Hd Hf] Hw] H. unfold accrueTo in H.
  destruct (negb (After on (l_from l)) || _) eqn:E; [by injection H as <-|].
  apply orb_false_iff in E as [E _]. apply negb_false_iff in E. rewrite After_time, Z.ltb_lt in E by auto.
  cbv zeta in H. inv_core. split; [|split; cbn; [done|right; lia]]. split; [by split|].
  destruct Hw as [Hw|(f & Hfd & Hle & Hdue)]; [by left|right]. exists f. split_and!; [done|cbn; lia|done].
Qed.

Lemma tells_accrue_loan i : tells (accrue_loan i on).
Proof using Type.
  intros s. unfold accrue_loan, mbind, M_bind. unfold loan. destruct (s_loans s !! i) as [l|] eqn:L; [|done].
  unfold and_then, mbind, M_bind, attempt. destruct (accrueTo l on) as [l'|e|w] eqn:E; [|by cbn|done]. cbn. intros Hon HT.
  destruct (accrueTo_timely _ _ Hon (proj1 (Forall_lookup _ _) (proj2 HT) _ _ L) E). by apply (write_timely s i l l').
Qed.

(** The answer of the memo. *)
Lemma refreshed_told l s :
  match refreshed l s with
  | Ok (r, s') => Told s → named l → Told s' ∧ s_loans s' = s_loans s ∧
      ∀ l', r = inr l' → ∃ o, l' = refresh_loan l o ∧ o_due o = next_date (l_contract l) (l_from l)
  | Err _ => False
  | Panic _ => True
  end.
Proof using Type.
  unfold refreshed, gets, mbind, M_bind. destruct (cache_next (s_cache s) l) as [m r] eqn:E.
  cbn. unfold and_then, mbind, M_bind, attempt. destruct r as [o|e|w]; cbn; [| |done];
    intros [Hc Hl] Hn; destruct (cache_next_told _ _ _ _ _ Hc Hn E) as [Hm Ho]; (split_and!; [by split|done|]); [|done].
  intros l' [= <-]. exists o. auto.
Qed.

Lemma refresh_timely l o :
  timely l → o_due o = next_date (l_contract l) (l_from l) → timely (refresh_loan l o) ∧ later l (refresh_loan l o).
Proof using Type.
  intros [[Ht Hd Hf] Hw] Ho. split.
  - split; [by split|]. right. exists (l_from l). split_and!; [done|cbn; lia|done].
  - split; [done|]. destruct Hw as [Hw|(f & Hfd & Hle & Hdue)]; [by left|right]. cbn. rewrite Hdue, Ho.
    by apply next_date_mono.
Qed.

Lemma tells_refresh i : tells (refresh i).
Proof using Type.
  intros s. unfold refresh, mbind at 1, M_bind at 1. unfold loan. destruct (s_loans s !! i) as [l|] eqn:L; [|done].
  pose proof (refreshed_told l s) as Hr.
  unfold and_then, mbind, M_bind. destruct (refreshed l s) as [[[e|l'] s1]|e|w]; [| |done..]; cbn; intros _ HT;
    pose proof (proj1 (Forall_lookup _ _) (proj2 HT) _ _ L) as Hl; destruct (Hr HT (proj1 Hl)) as (HT1 & El & Ho).
  - split; [done|]. intros k x Lx. exists x. by rewrite El.
  - destruct (Ho l' eq_refl) as (o & -> & Hdue).
    destruct (refresh_timely l o Hl Hdue) as [Ht Hw]. rewrite <- El in L.
    destruct (write_timely s1 i l (refresh_loan l o) HT1 L Ht Hw) as [HT2 Hf]. split; [done|].
    intros k x Lx. rewrite <- El in Lx. by apply Hf.
Qed.

Lemma tells_calendar i : tells (calendar i).
Proof using Type.
  intros s. unfold calendar, mbind at 1, M_bind at 1. unfold loan. destruct (s_loans s !! i) as [l|] eqn:L; [|done].
  unfold gets, mbind, M_bind. destruct (cache_calendar (s_cache s) l) as [m r] eqn:E. cbn. unfold attempt.
  assert (Told s → Told (s <| s_cache := m |>) ∧ forward s (s <| s_cache := m |>)) as Hend.
  { intros HT. pose proof (proj1 (Forall_lookup _ _) (proj2 HT) _ _ L) as [Hn _].
    destruct (cache_calendar_told _ _ _ _ _ (proj1 HT) Hn E) as [Hm _]. split; [split; [done|apply HT]|]. intros k x Lx. by exists x. }
  destruct r; auto.
Qed.

Hint Resolve tells_accrue_loan tells_refresh tells_calendar : tells.

(** ** The others *)

Lemma tells_quote i available : tells (quote i on available).
Proof using Type. unfold quote. tells. Qed.
Hint Resolve tells_quote : tells.
Lemma tells_openCycle d : tells (openCycle d).
Proof using Type. unfold openCycle. tells. Qed.
Hint Resolve tells_openCycle : tells.
Lemma tells_restrictedCash : tells restrictedCash.
Proof using Type. unfold restrictedCash. tells. Qed.
Hint Resolve tells_restrictedCash : tells.
Lemma tells_closeCycle : tells closeCycle.
Proof using Type. unfold closeCycle. tells. Qed.
Hint Resolve tells_closeCycle : tells.
Lemma tells_action i d kind amount fee saves : tells (action i d kind amount fee saves).
Proof using Type. unfold action. tells. Qed.
Hint Resolve tells_action : tells.
Lemma tells_close i d : tells (close i d).
Proof using Type. unfold close, retire, note_clear, keep_freed, note_payoff. tells. Qed.
Hint Resolve tells_close : tells.
Lemma tells_prepay i d q early : tells (prepay i d q early).
Proof using Type. unfold prepay, spendPermission, pay_out, use_allowance, saved, settle_closing. tells. Qed.
Hint Resolve tells_prepay : tells.
Lemma tells_reserved : tells reserved.
Proof using Type. unfold reserved. tells. Qed.
Hint Resolve tells_reserved : tells.
Lemma tells_optionalCash d : tells (optionalCash d).
Proof using Type. unfold optionalCash, optionalPermission. tells. Qed.
Hint Resolve tells_optionalCash : tells.
Lemma tells_batched q : tells (batched q).
Proof using Type. unfold batched. tells. Qed.
Hint Resolve tells_batched : tells.
Lemma tells_addRouted event : tells (addRouted event).
Proof using Type. unfold addRouted, add_part. tells. Qed.
Hint Resolve tells_addRouted : tells.
Lemma tells_route_bucket j dueLoan : tells (route_bucket j on dueLoan).
Proof using Type. unfold route_bucket, route_released, route_loan, route_available, route_pay. tells. Qed.
Hint Resolve tells_route_bucket : tells.
Lemma tells_routeCash dueLoan : tells (routeCash on dueLoan).
Proof using Type.
  assert (∀ js, tells (route_from js on dueLoan)) as Hfrom.
  { induction js as [|j js IH]; cbn [route_from]; tells. }
  unfold routeCash. tells.
Qed.
Hint Resolve tells_routeCash : tells.
Lemma tells_allocate_from order : ∀ surplus, tells (allocate_from order on surplus).
Proof using Type. induction order as [|i order IH]; intros surplus; cbn [allocate_from]; unfold allocate_to; tells; apply IH. Qed.
Hint Resolve tells_allocate_from : tells.
Lemma tells_allocate : tells (allocate on).
Proof using Type. unfold allocate. tells. Qed.
Hint Resolve tells_allocate : tells.
Lemma tells_income : tells (income on).
Proof using Type. unfold income, incomeAfter. tells. Qed.
Hint Resolve tells_income : tells.
Lemma tells_ensure_cycle d : tells (ensure_cycle d).
Proof using Type. unfold ensure_cycle. tells. Qed.
Hint Resolve tells_ensure_cycle : tells.
Lemma tells_receiveRoutedDate : tells (receiveRoutedDate on).
Proof using Type. unfold receiveRoutedDate, receive. tells. Qed.
Hint Resolve tells_receiveRoutedDate : tells.
Lemma tells_due_now i : tells (due_now i on).
Proof using Type.
  unfold due_now, due_amounts, check_due, settle_due, spendPermission, after_due, refresh_or_raise, pay_pending. tells.
Qed.
Hint Resolve tells_due_now : tells.
Lemma tells_due i : tells (due i on).
Proof using Type. unfold due, due_income. tells. Qed.
Lemma tells_period : tells (period on).
Proof using Type. unfold period, open_period, turn_cycle, release_cash. tells. Qed.
Hint Resolve tells_income tells_due tells_period tells_receiveRoutedDate tells_allocate tells_ensure_cycle : tells.

(** A receipt names its own day. *)
Lemma lump_told i s l :
  s_lumps s !! i = Some l → CeOn l = on →
  match lump i s with Ok (_, s') => dated on → Told s → Told s' ∧ forward s s' | Err _ => False | Panic _ => True end.
Proof using Type.
  intros L Ed. unfold lump, gets, mbind at 1 2, M_bind at 1 2. rewrite L, Ed.
  match goal with |- match ?m s with _ => _ end => assert (tells m) as Hm; [|exact (Hm s)] end. tells.
Qed.

(** ** The start and the end *)

Lemma tells_firstIncome : tells firstIncome.
Proof using Type. unfold firstIncome. tells. Qed.
Lemma tells_add_lump u event : tells (add_lump u event).
Proof using Type. unfold add_lump. tells. Qed.
Lemma tells_conserve : tells conserve.
Proof using Type. unfold conserve, invariant. tells. Qed.
Hint Resolve tells_firstIncome tells_add_lump tells_conserve : tells.
Lemma tells_finish : tells finish.
Proof using Type. unfold finish. tells. Qed.

(** What a position must be for its loan to be told its dates. *)
Definition position_named (p : Position) : Prop :=
  terms (fingerprint (PosContract p)) = PosContract p ∧ wf_dates (PosContract p) ∧ dated (From p).

Lemma add_loan_told pol i p s :
  match add_loan pol i p s with Ok (_, s') => position_named p → Told s → Told s' | Err _ => False | Panic _ => True end.
Proof using Type.
  unfold add_loan, gets, mbind at 1, M_bind at 1. cbv beta zeta. set (l0 := start_loan pol (zero s) i p).
  assert (position_named p → named l0) as Hn by (intros (? & ? & ?); by split).
  unfold and_then, mbind, M_bind. destruct (Sign (PosBalance p) <=? 0).
  - cbn. intros Hp [Hc Hl]. split; [done|]. cbn. apply Forall_app. split; [done|]. apply Forall_singleton.
    destruct (Hn Hp). split; [by split|by left].
  - pose proof (refreshed_told l0 s) as Hr. destruct (refreshed l0 s) as [[[e|l] s1]|e|w]; [| |done..]; cbn; intros Hp HT.
    { apply (Hr HT (Hn Hp)). }
    destruct (Hr HT (Hn Hp)) as ([Hc Hl] & _ & Ho). destruct (Ho l eq_refl) as (o & -> & Hdue).
    split; [done|]. cbn. apply Forall_app. split; [done|]. apply Forall_singleton. destruct (Hn Hp). split; [by split|].
    right. exists (l_from l0). split_and!; [done|cbn; lia|done].
Qed.

Lemma add_loans_told pol ps : ∀ i s,
  match add_loans pol i ps s with
  | Ok (_, s') => Forall position_named ps → Told s → Told s' | Err _ => False | Panic _ => True
  end.
Proof using Type.
  induction ps as [|p ps IH]; intros i s; cbn [add_loans]; [by cbn|]. pose proof (add_loan_told pol i p s) as Hp.
  unfold and_then at 1, mbind, M_bind. destruct (add_loan pol i p s) as [[[e|u] s1]|e|w]; [| |done..].
  - intros [? _]%Forall_cons. auto.
  - specialize (IH (S i) s1). destruct (add_loans pol (S i) ps s1) as [[r s2]|e|w]; [|done..].
    intros [? ?]%Forall_cons. auto.
Qed.

Lemma gets_bind {A B} (f : sim → A) (k : A → M B) s : (gets f ≫= k) s = k (f s) s.
Proof using Type. done. Qed.

Lemma setup_told s :
  match setup s with
  | Ok (_, s') => dated on → Forall position_named (Loans (s_in s)) → Told s → Told s'
  | Err _ => False | Panic _ => True
  end.
Proof using Type.
  unfold setup. rewrite 2!gets_bind. pose proof (add_loans_told (s_pol s) (Loans (s_in s)) 0 s) as Ha.
  unfold and_then at 1, mbind at 1, M_bind at 1.
  destruct (add_loans (s_pol s) 0 (Loans (s_in s)) s) as [[[e|u] s1]|e|w]; [by cbn; intros; apply Ha| |done..].
  cbv beta iota. match goal with |- match ?m s1 with _ => _ end => assert (tells m) as Hm by tells; specialize (Hm s1); destruct (m s1) as [[r s2]|e|w] end;
    [|done..].
  intros Hon Hp HT. apply Hm; [done|]. by apply Ha.
Qed.
End Steps.
