(* ===== verification/Payments.v ===== *)
(** What the payments of the simulator do to its books: [prepay], the settling
    of an instalment and [close], each as one change of the figures. *)
From S2P Require Import Prelude Money Dates Model Allocation Schedule Calendar Fees PlanBase PlanInput.
From S2P Require Import SimState SimLogic Sim Quotes Obligations.

(** * Lists of loans *)

Lemma alter_alter {A} (f g : A → A) (l : list A) i : alter f i (alter g i l) = alter (λ x, f (g x)) i l.
Proof. revert i. induction l as [|y l IH]; intros [|i]; simplify_eq/=; [done..|]. f_equal. apply IH. Qed.

Lemma sum_by_insert {A} (f : A → Z) (l : list A) i x y :
  l !! i = Some x → sum_by f (<[i := y]> l) = sum_by f l - f x + f y.
Proof.
  unfold sum_by. revert i. induction l as [|z l IH]; intros [|i] H; simplify_eq/=; [lia|].
  rewrite (IH i) by done. lia.
Qed.

Lemma Forall_insert_2 {A} (P : A → Prop) (l : list A) i y : Forall P l → P y → Forall P (<[i := y]> l).
Proof. intros Hl Hy. by apply Forall_insert. Qed.

Lemma sum_by_fmap_same {A} (f : A → Z) (g : A → A) l : (∀ x, f (g x) = f x) → sum_by f (g <$> l) = sum_by f l.
Proof. intros H. induction l as [|x l IH]; [done|]. rewrite fmap_cons. unfold sum_by in *. cbn [foldr]. by rewrite H, IH. Qed.

(** * Figures *)

Definition month_out (m : MonthState) : Z := minor (MsRequired m) + minor (MsExtra m) + minor (MsFees m).

(** The figures of a state are stored as [int64]. *)
Record stored (s : sim) : Prop := {
  st_cash : wf_amount (s_cash s);
  st_paid : wf_amount (ResPaid (s_res s));
  st_fees : wf_amount (ResFees (s_res s));
  st_interest : wf_amount (ResInterest (s_res s));
  st_household : wf_amount (HouseholdCash (s_res s));
  st_inflow : wf_amount (s_inflow s);
  st_mrequired : wf_amount (MsRequired (s_month s));
  st_mextra : wf_amount (MsExtra (s_month s));
  st_mfees : wf_amount (MsFees (s_month s));
  st_left : wf_amount (s_periodLeft s);
  st_spent : wf_amount (s_periodSpent s);
  st_budget : held (s_budget s) }.

(** What a payment leaves alone: the plan, the clocks, the receipts to come,
    the months already closed. *)
Definition fixed (s : sim) :=
  (s_in s, s_pol s, s_cur s, s_incomeDelayDays s, s_nominalIncome s, s_hasRouting s, s_cycle s,
   s_cycleIncome s, s_nextIncome s, s_incomeYM s, s_lumps s, s_inflow s, s_nextPeriod s, s_periodStart s,
   (s_carryRule s, s_carryMinimum s, s_carryUntil s), Timeline (s_res s), HouseholdCash (s_res s)).

(** What it leaves alone of the loan it pays. *)
Definition loan_fixed (l : loanState) :=
  (l_pos l, l_fp l, l_effect l, l_timing l, l_from l, l_carried l, l_due l, l_required l, l_pending l).

(** A payment of [out] to loan [i], of which [principal] comes off the balance
    and [spent] off the permission. *)
Record paid_out (i : nat) (s s' : sim) (l l' : loanState) (out principal interest fee spent : Z) : Prop := {
  po_loan : s_loans s !! i = Some l;
  po_loans : s_loans s' = <[i := l']> (s_loans s);
  po_fixed : fixed s' = fixed s;
  po_cache : s_cache s' = s_cache s;
  po_buckets : s_cashBuckets s' = s_cashBuckets s;
  po_stored : stored s';
  po_same : loan_fixed l' = loan_fixed l;
  po_allowance : map_Forall (λ _ a, wf_amount a) (l_allowance l) → map_Forall (λ _ a, wf_amount a) (l_allowance l');
  po_balance : minor (l_balance l') = minor (l_balance l) - principal;
  po_cash : minor (s_cash s') = minor (s_cash s) - out;
  po_paid : minor (ResPaid (s_res s')) = minor (ResPaid (s_res s)) + out;
  po_fees : minor (ResFees (s_res s')) = minor (ResFees (s_res s)) + fee;
  po_interest : minor (ResInterest (s_res s')) = minor (ResInterest (s_res s)) + interest;
  po_month : month_out (s_month s') = month_out (s_month s) + out;
  po_left : minor (s_periodLeft s') = minor (s_periodLeft s) - spent;
  po_spent : minor (s_periodSpent s') = minor (s_periodSpent s) + spent }.

Arguments po_loan {_ _ _ _ _ _ _ _ _ _} _.
Arguments po_loans {_ _ _ _ _ _ _ _ _ _} _.
Arguments po_fixed {_ _ _ _ _ _ _ _ _ _} _.
Arguments po_cache {_ _ _ _ _ _ _ _ _ _} _.
Arguments po_buckets {_ _ _ _ _ _ _ _ _ _} _.
Arguments po_stored {_ _ _ _ _ _ _ _ _ _} _.
Arguments po_same {_ _ _ _ _ _ _ _ _ _} _.
Arguments po_allowance {_ _ _ _ _ _ _ _ _ _} _.
Arguments po_balance {_ _ _ _ _ _ _ _ _ _} _.
Arguments po_cash {_ _ _ _ _ _ _ _ _ _} _.
Arguments po_paid {_ _ _ _ _ _ _ _ _ _} _.
Arguments po_fees {_ _ _ _ _ _ _ _ _ _} _.
Arguments po_interest {_ _ _ _ _ _ _ _ _ _} _.
Arguments po_month {_ _ _ _ _ _ _ _ _ _} _.
Arguments po_left {_ _ _ _ _ _ _ _ _ _} _.
Arguments po_spent {_ _ _ _ _ _ _ _ _ _} _.

Lemma po_after {i s s' l l' o p n f d} : paid_out i s s' l l' o p n f d → s_loans s' !! i = Some l'.
Proof. intros H. rewrite (po_loans H). apply list_lookup_insert_eq. by eapply lookup_lt_Some, (po_loan H). Qed.

Lemma loan_fixed_same l l' :
  loan_fixed l' = loan_fixed l →
  l_pos l' = l_pos l ∧ l_carried l' = l_carried l ∧ l_required l' = l_required l ∧ l_pending l' = l_pending l ∧
  l_due l' = l_due l ∧ l_from l' = l_from l ∧ l_timing l' = l_timing l.
Proof. unfold loan_fixed. intros [=]. done. Qed.

(** * The pieces *)

Lemma spendPermission_effect out s u s' :
  spendPermission out s = Ok (u, s') → s_err s' = None → wf_amount out → stored s →
  s_err s = None ∧ ∃ a b, s' = s <| s_periodSpent := a |> <| s_periodLeft := b |> ∧
    minor a = minor (s_periodSpent s) + minor out ∧ minor b = minor (s_periodLeft s) - minor out ∧
    wf_amount a ∧ wf_amount b.
Proof.
  intros H E Ho Hs. unfold spendPermission in H. steps H. unstick E. cbn in *.
  apply Add_stored in R0 as (? & ? & _); [|apply Hs|done]. apply Sub_stored in R as (? & ? & _); [|apply Hs|done].
  split; [done|]. eexists _, _. split; [reflexivity|]. done.
Qed.

Lemma saved_effect l on q early s a s' : saved l on q early s = Ok (a, s') → s' = s.
Proof.
  unfold saved. intros (z & s1 & [-> ->]%gets_Ok & H)%bind_M.
  destruct (early && Before on (l_due l)); [|by apply ret_Ok in H as [_ ->]].
  destruct (Accrue _ _ _ _ _); [by apply ret_Ok in H as [_ ->]..|done].
Qed.

(** Listing a payment changes the lists only. *)
Definition figures (s : sim) :=
  (fixed s, s_cache s, s_cashBuckets s, s_loans s, s_cash s,
   (MsRequired (s_month s), MsExtra (s_month s), MsFees (s_month s)), s_periodLeft s, s_periodSpent s,
   s_budget s, s_err s, ResPaid (s_res s), ResFees (s_res s), ResInterest (s_res s)).

Lemma action_effect i on kind a f sv s u s' :
  action i on kind a f sv s = Ok (u, s') → figures s' = figures s.
Proof.
  intros H. unfold action in H. steps H. rewrite when_Ok in H. case_if_in H; [steps H|subst s']; reflexivity.
Qed.

Lemma stored_figures s s' : figures s' = figures s → stored s → stored s'.
Proof. unfold figures, fixed. intros [=] []. split; congruence. Qed.

(** ** Payments in sequence *)

Lemma paid_out_trans i s1 s2 s3 l1 l2 l2' l3 o p n f d o' p' n' f' d' :
  paid_out i s1 s2 l1 l2 o p n f d → paid_out i s2 s3 l2' l3 o' p' n' f' d' →
  paid_out i s1 s3 l1 l3 (o + o') (p + p') (n + n') (f + f') (d + d').
Proof.
  intros H1 H2. pose proof (po_loan H2) as Hl. rewrite (po_loans H1) in Hl.
  pose proof (lookup_lt_Some _ _ _ (po_loan H1)) as Hlt.
  rewrite list_lookup_insert_eq in Hl by done. injection Hl as <-. destruct H1, H2.
  split; try congruence || lia || done.
  - rewrite po_loans1, po_loans0. apply list_insert_insert_eq.
  - auto.
Qed.

Lemma figures_same s s' :
  figures s' = figures s →
  (fixed s' = fixed s ∧ s_cache s' = s_cache s ∧ s_cashBuckets s' = s_cashBuckets s ∧ s_loans s' = s_loans s) ∧
  s_cash s' = s_cash s ∧ month_out (s_month s') = month_out (s_month s) ∧ s_periodLeft s' = s_periodLeft s ∧
  s_periodSpent s' = s_periodSpent s ∧ s_err s' = s_err s ∧ ResPaid (s_res s') = ResPaid (s_res s) ∧
  ResFees (s_res s') = ResFees (s_res s) ∧ ResInterest (s_res s') = ResInterest (s_res s).
Proof. unfold figures, fixed, month_out. intros [=]. split_and!; congruence. Qed.

Arguments paid_out_trans {_ _ _ _ _ _ _ _ _ _ _ _ _ _ _ _ _ _} _ _.

Lemma paid_out_figures i s s' l :
  figures s' = figures s → s_loans s !! i = Some l → stored s → paid_out i s s' l l 0 0 0 0 0.
Proof.
  intros H Hl Hs. pose proof (stored_figures _ _ H Hs).
  apply figures_same in H as ((? & ? & ? & E) & E1 & E2 & E3 & E4 & ? & E5 & E6 & E7).
  split; rewrite ?E, ?E1, ?E2, ?E3, ?E4, ?E5, ?E6, ?E7; done || lia || by rewrite list_insert_id.
Qed.

Ltac loans L :=
  repeat match goal with
  | H : alter _ ?i _ !! ?i = Some _ |- _ => rewrite list_lookup_alter_eq in H
  | H : s_loans _ !! _ = Some ?x |- _ =>
      is_var x; assert_fails (constr_eq H L); let T := fresh in pose proof (eq_trans (eq_sym L) H) as T; clear H; injection T as <-
  | H : _ <$> _ = Some _ |- _ => rewrite ?L in H; cbn in H; injection H as <-
  end.

(** The sums among the hypotheses, exact where their operands are stored. *)
Ltac sums :=
  repeat match goal with
  | H : Add _ _ = Ok _ |- _ => apply Add_stored in H as (? & ? & _); [|solve [auto]..]
  | H : Sub _ _ = Ok _ |- _ => apply Sub_stored in H as (? & ? & _); [|solve [auto]..]
  end.

(** The change of a list of loans as one write, then the figures. *)
Ltac paid L :=
  split; cbn;
  first [ exact L
        | rewrite ?alter_alter; by erewrite alter_insert by exact L
        | by rewrite list_insert_id
        | done | lia | by split | by unfold month_out; cbn; lia | idtac ].

Lemma permission_effect i l out s u s' :
  spendPermission out s = Ok (u, s') → s_err s' = None → wf_amount out → stored s →
  s_loans s' !! i = Some l →
  s_err s = None ∧ paid_out i s s' l l 0 0 0 0 (minor out).
Proof.
  intros H E Ho Hs Hl. unfold spendPermission in H. steps H. unstick E. cbn in *.
  apply Add_stored in R0 as (? & ? & _); [|apply Hs|done]. apply Sub_stored in R as (? & ? & _); [|apply Hs|done].
  split; [done|]. destruct Hs.
  paid Hl.
Qed.

Lemma pay_out_effect i q s u s' :
  pay_out i q s = Ok (u, s') → s_err s' = None →
  wf_amount (Outflow q) → wf_amount (QFee q) → stored s →
  s_err s = None ∧ ∃ l l', paid_out i s s' l l' (minor (Outflow q)) 0 0 (minor (QFee q)) 0 ∧
    l_closed l' = l_closed l ∧ l_accrued l' = l_accrued l.
Proof.
  intros H E Ho Hf Hs. unfold pay_out in H. steps H. unstick E. cbn in *. split; [done|].
  loans L. destruct Hs.
  apply Sub_stored in R0 as (? & ? & _); [|done..]. apply Sub_stored in R3 as (? & ? & _); [|done..].
  apply Add_stored in R5 as (? & ? & _); [|done..]. apply Add_stored in R6 as (? & ? & _); [|done..].
  apply Add_stored in R7 as (? & ? & _); [|done..]. apply Add_stored in R8 as (? & ? & _); [|done..].
  eexists _, _. split; [|shelve]. paid L.
  Unshelve. split; reflexivity.
Qed.

Lemma use_allowance_effect i on q s u s' :
  use_allowance i on q s = Ok (u, s') → s_err s' = None → wf_amount (QPrincipal q) → stored s →
  s_err s = None ∧ ∃ l l', paid_out i s s' l l' 0 0 0 0 0 ∧ l_closed l' = l_closed l ∧
    l_accrued l' = l_accrued l ∧ l_balance l' = l_balance l.
Proof.
  intros H E Hq Hs. unfold use_allowance in H. steps H. unstick E. cbn in *. split; [done|].
  eexists _, _. split; [|shelve]. paid L.
  { destruct Hs. by split. }
  intros Hal. apply map_Forall_insert_2; [|done]. apply Add_stored in R as (_ & ? & _); [done| |done].
  apply wf_or_zero. destruct (l_allowance x !! _) as [a|] eqn:Ea; [by apply (Hal _ _ Ea)|]. simpl. unfold_i64. lia.
  Unshelve. done.
Qed.

(** ** Closing *)

Lemma note_clear_effect name on freed s u s' :
  note_clear name on freed s = Ok (u, s') → figures s' = figures s.
Proof. intros H. unfold note_clear in H. steps H. rewrite when_Ok in H. case_if_in H; [steps H|subst s']; reflexivity. Qed.

Lemma note_payoff_effect on s u s' : note_payoff on s = Ok (u, s') → figures s' = figures s.
Proof.
  intros H. unfold note_payoff in H. steps H. rewrite !when_Ok in *.
  repeat case_match; repeat match goal with H : modify _ _ = _ |- _ => apply modify_Ok in H | H : assign_res _ _ _ = _ |- _ => unfold assign_res in H end;
    subst; reflexivity.
Qed.

Lemma keep_freed_effect freed i s u s' l :
  keep_freed freed s = Ok (u, s') → s_err s' = None → held freed → stored s → s_loans s !! i = Some l →
  s_err s = None ∧ paid_out i s s' l l 0 0 0 0 0.
Proof.
  intros H E Hf Hs Hl. unfold keep_freed in H. steps H. rewrite when_Ok in H. case_if_in H; cycle 1.
  { subst s'. split; [done|]. by apply paid_out_figures. }
  steps H. unstick E. cbn in *. split; [done|]. paid Hl. destruct Hs. split; cbn; try done.
  sums. rewrite Sign_neg_iff. case_match; [done|]. unfold held. unfold_i64. lia.
Qed.

Lemma freed_by_held l : held (l_carried l) → held (l_required l) → held (freed_by l).
Proof. unfold freed_by. by destruct (Sign (l_carried l) =? 0). Qed.

Lemma retire_effect i on freed l s u s' :
  retire i on freed s = Ok (u, s') → s_loans s !! i = Some l → stored s →
  s_err s' = s_err s ∧ ∃ l', paid_out i s s' l l' 0 (minor (l_balance l)) 0 0 0 ∧ l_closed l' = true ∧
    l_accrued l' = l_accrued l.
Proof.
  intros H L Hs. unfold retire in H. steps H. split; [done|].
  eexists. split; [|shelve]. destruct Hs. paid L. Unshelve. done.
Qed.

Lemma close_effect i on l s u s' :
  close i on s = Ok (u, s') → s_err s' = None → stored s → s_loans s !! i = Some l →
  held (l_carried l) ∧ held (l_required l) →
  ∃ l', paid_out i s s' l l' 0 (minor (l_balance l)) 0 0 0 ∧ l_closed l' = true ∧
    l_accrued l' = l_accrued l.
Proof.
  intros H E Hs L Hok. unfold close in H. steps H. rewrite L in L0. injection L0 as <-.
  destruct (retire_effect _ _ _ _ _ _ _ R L Hs) as (Ee & l' & H1 & Hc & Ha).
  pose proof (note_clear_effect _ _ _ _ _ _ R0) as F2. pose proof (note_payoff_effect _ _ _ _ H) as F4.
  pose proof (figures_same _ _ F2) as ((_ & _ & _ & Hl2) & _ & _ & _ & _ & E2 & _).
  pose proof (figures_same _ _ F4) as (_ & _ & _ & _ & _ & E4 & _).
  pose proof (stored_figures _ _ F2 (po_stored H1)) as S2.
  pose proof (po_after H1) as Hlt.
  rewrite E4 in E. destruct (keep_freed_effect _ i _ _ _ l' R1 E) as [E3 H3]; [by apply freed_by_held; apply Hok|done|by rewrite Hl2|].
  exists l'. split; [|done].
  pose proof (paid_out_figures i _ _ l' F2 Hlt (po_stored H1)) as P2.
  pose proof (paid_out_figures i _ _ l' F4 (po_after H3) (po_stored H3)) as P4.
  pose proof (paid_out_trans H1 (paid_out_trans P2 (paid_out_trans H3 P4))) as P.
  rewrite ?Z.add_0_r in P. exact P.
Qed.

Lemma settle_closing_effect i on q l s u s' :
  settle_closing i on q s = Ok (u, s') → s_err s' = None → wf_amount (QInterest q) → stored s →
  s_loans s !! i = Some l → loan_ok l →
  ∃ l', paid_out i s s' l l' 0 (minor (l_balance l)) (minor (QInterest q)) 0 0 ∧
    l_closed l' = true ∧ minor (l_accrued l') = 0.
Proof.
  intros H E Hq Hs L Hok. unfold settle_closing in H. steps H.
  pose proof (sticks_close _ _ _ _ _ H E) as E2. unstick E2. cbn in E2.
  match type of H with close _ _ ?t = _ => set (s2 := t) in * end.
  assert (∃ l1, paid_out i s s2 l l1 0 0 (minor (QInterest q)) 0 0 ∧ l_closed l1 = l_closed l ∧
    minor (l_accrued l1) = 0 ∧ l_balance l1 = l_balance l) as (l1 & P1 & Hc1 & Ha1 & Hb1).
  { destruct Hs. sums. eexists. split; [|shelve]. unfold s2. paid L. Unshelve. done. }
  destruct (close_effect i on l1 s2 u s' H E (po_stored P1)) as (l' & P2 & Hc2 & Ha2); [exact (po_after P1)|..].
  { destruct (loan_fixed_same _ _ (po_same P1)) as (_ & -> & -> & _). split; apply Hok. }
  exists l'. split; [|split; [done|congruence]].
  pose proof (paid_out_trans P1 P2) as P. by rewrite Hb1, ?Z.add_0_r, ?Z.add_0_l in P.
Qed.

(** * Paying *)

Lemma paid_loan_ok {i s s' l l' o p n f d} :
  paid_out i s s' l l' o p n f d → loan_ok l → 0 ≤ minor (l_balance l) - p ≤ MaxInt64 → held (l_accrued l') →
  (l_closed l' = true → minor (l_balance l') = 0 ∧ minor (l_accrued l') = 0) → (l_closed l' = false → l_closed l = false) → loan_ok l'.
Proof.
  intros P [] Hp Ha Hc Hc'. destruct (loan_fixed_same _ _ (po_same P)) as (E1 & E2 & E3 & E4 & E5 & E6 & _).
  pose proof (po_balance P). pose proof (po_allowance P).
  split; try (unfold l_contract in *; congruence); try (unfold held; lia); auto.
  intros ?. rewrite E5. auto.
Qed.


Lemma when_permission sep out i l s u s' :
  when sep (spendPermission out) s = Ok (u, s') → s_err s' = None → wf_amount out → stored s →
  s_loans s !! i = Some l → paid_out i s s' l l 0 0 0 0 (if sep then minor out else 0).
Proof.
  intros H E Ho Hs L. rewrite when_Ok in H. destruct sep; [|subst s'; by apply paid_out_figures].
  eapply permission_effect; try done.
  unfold spendPermission in H. steps H. cbn. by unstick E.
Qed.

Lemma note_prepayment early s u s' :
  when early (assign_res TimingCredited true) (set s_res (set Prepayments (Z.add 1)) s) = Ok (u, s') →
  figures s' = figures s.
Proof. rewrite when_Ok. intros H. destruct early; [steps H|subst s']; reflexivity. Qed.

(** An optional payment on a quote. *)
Lemma prepay_effect i on q early l s u s' :
  prepay i on q early s = Ok (u, s') → s_err s' = None → stored s → s_loans s !! i = Some l → loan_ok l →
  wf_amount (Outflow q) → wf_amount (QFee q) → wf_amount (QPrincipal q) → wf_amount (QInterest q) →
  (Closes q = true → minor (QPrincipal q) = minor (l_balance l)) →
  ∃ l', paid_out i s s' l l' (minor (Outflow q)) (minor (QPrincipal q))
      (if Closes q then minor (QInterest q) else 0) (minor (QFee q)) (if separate s then minor (Outflow q) else 0) ∧
    l_closed l' = l_closed l || Closes q ∧
    minor (l_accrued l') = (if Closes q then 0 else minor (l_accrued l)).
Proof.
  intros H E Hs L Hok Ho Hf Hp Hi Hcl. unfold prepay in H. steps H.
  rewrite when_Ok in H. apply saved_effect in R3. subst t3. apply note_prepayment in R1.
  match type of H with context [settle_closing _ _ _ ?t = _] => set (s2 := t) in * end.
  assert (s_err s2 = None) as E2 by (destruct (Closes q); [by eapply sticks_settle_closing|by subst s']).
  unstick E2. cbn in E2. pose proof (sticks_action _ _ _ _ _ _ _ _ _ R4 E2) as E3. apply action_effect in R4.
  pose proof (sticks_use_allowance _ _ _ _ _ _ R2 E3) as E4.
  assert (s_err t0 = None) as E5 by (apply figures_same in R1; destruct R1 as (_ & _ & _ & _ & _ & <- & _); done).
  pose proof (sticks_pay_out _ _ _ _ _ R0 E5) as E6.
  pose proof (when_permission _ _ i l _ _ _ R E6 Ho Hs L) as P1.
  destruct (pay_out_effect _ _ _ _ _ R0 E5 Ho Hf (po_stored P1)) as (_ & la & lb & P2 & Hc2 & Ha2).
  pose proof (po_loan P2) as Hla. rewrite (po_after P1) in Hla. injection Hla as <-.
  pose proof (paid_out_figures i _ _ _ R1 (po_after P2) (po_stored P2)) as P3.
  destruct (use_allowance_effect _ _ _ _ _ _ R2 E3 Hp (po_stored P3)) as (_ & lc & ld & P4 & Hc4 & Ha4 & Hb4).
  pose proof (po_loan P4) as Hlc. rewrite (po_after P3) in Hlc. injection Hlc as <-.
  pose proof (paid_out_figures i _ _ _ R4 (po_after P4) (po_stored P4)) as P5.
  pose proof (paid_out_trans P1 (paid_out_trans P2 (paid_out_trans P3 (paid_out_trans P4 P5)))) as P.
  rewrite ?Z.add_0_r, ?Z.add_0_l in P. clear P1 P2 P3 P4 P5. rewrite (po_after P) in L1. injection L1 as <-.
  assert (paid_out i t4 s2 ld (ld <| l_balance := x9 |>) 0 (minor (QPrincipal q)) 0 0 0) as P6.
  { pose proof (po_stored P) as []. pose proof (po_after P). pose proof (po_balance P). pose proof (lk_balance l Hok).
    apply Sub_stored in R6 as (? & ? & _); [|unfold held in *; unfold_i64; lia|done].
    unfold s2. paid (po_after P). }
  pose proof (paid_out_trans P P6) as P7. rewrite ?Z.add_0_r, ?Z.add_0_l in P7.
  destruct (Closes q) eqn:Ecl; cycle 1.
  { subst s'. eexists. split; [exact P7|]. simpl. rewrite orb_false_r. split; congruence. }
  destruct (settle_closing_effect i on q (ld <| l_balance := x9 |>) _ _ _ H E Hi (po_stored P6) (po_after P6))
    as (l' & P8 & Hc8 & Ha8).
  { pose proof (po_balance P7) as Hb7. cbn in Hb7. specialize (Hcl eq_refl). eapply (paid_loan_ok P7 Hok); simpl.
    - unfold MaxInt64. lia.
    - rewrite Ha4, Ha2. apply Hok.
    - intros Hc9. destruct (lk_closed l Hok) as [_ Hz]; [congruence|]. split; [lia|congruence].
    - congruence. }
  exists l'. pose proof (paid_out_trans P7 P8) as P9.
  assert (minor (l_balance (ld <| l_balance := x9 |>)) = 0) as Hz by (rewrite (po_balance P7), (Hcl eq_refl); lia).
  rewrite Hz, ?Z.add_0_r, ?Z.add_0_l in P9. rewrite orb_true_r. done.
Qed.

(** An instalment, up to the listing of it. *)
Lemma settle_due_effect i on interest required l s u s' :
  settle_due i on interest required s = Ok (u, s') → s_err s' = None → stored s → s_loans s !! i = Some l →
  wf_amount (l_balance l) → wf_amount interest → wf_amount required →
  ∃ l', paid_out i s s' l l' (minor required) (minor required - minor interest) (minor interest) 0
      (if separate s then minor required else 0) ∧
    l_closed l' = l_closed l ∧ minor (l_accrued l') = 0.
Proof.
  intros H E Hs L Hb Hi Hr. unfold settle_due in H. steps H.
  match type of H with action _ _ _ _ _ _ ?t = _ => set (s2 := t) in * end.
  pose proof (sticks_action _ _ _ _ _ _ _ _ _ H E) as E2. apply action_effect in H.
  unstick E2. cbn in E2.
  match goal with R : when _ _ _ = Ok (_, ?t) |- _ => pose proof (when_permission _ _ i l _ _ _ R E2 Hr Hs L) as P1 end.
  pose proof (po_after P1) as Lt. cbn in *. loans Lt. cbn in *.
  match type of P1 with paid_out _ _ ?t _ _ _ _ _ _ _ =>
    assert (∃ l', paid_out i t s2 l l' (minor required) (minor required - minor interest) (minor interest) 0 0 ∧
      l_closed l' = l_closed l ∧ minor (l_accrued l') = 0) as (l' & P2 & Hc & Ha) end.
  { pose proof (po_stored P1) as []. sums. eexists. split; [|shelve]. unfold s2. paid Lt. Unshelve. split; reflexivity. }
  exists l'. split; [|done].
  pose proof (paid_out_trans P1 (paid_out_trans P2 (paid_out_figures i _ _ l' H (po_after P2) (po_stored P2)))) as P.
  rewrite ?Z.add_0_r, ?Z.add_0_l in P. exact P.
Qed.
