(* ===== verification/Books.v ===== *)
(** The books of a simulation: what holds between any two events.

    [Inv] says the run has lost no money: everything credited is with a lender,
    in the pool, in a routed bucket or with the household, and every payment
    is principal, interest or fee. The lemmas show that each step keeps it and
    how far a step may dip into the reserve. *)
From S2P Require Import Prelude Money Dates Model Allocation Schedule Calendar Fees PlanBase PlanInput.
From S2P Require Import SimState Sim SimLogic Quotes Obligations Payments.

(** * Figures *)

Definition restricted (s : sim) : Z := sum_by (λ b, minor (b_remaining b)) (s_cashBuckets s).
Definition owed (ls : list loanState) : Z := sum_by (λ l, minor (l_balance l)) ls.

(** What the reserve holds back for one loan. *)
Definition held_back (s : sim) (l : loanState) : Z :=
  if l_closed l then 0
  else (if due_before_income s l then minor (l_required l) else 0) + minor (l_pending l).

Definition floor_of (s : sim) : Amount := or_zero (ReserveFloor (cash_plan s)) (s_cur s).
Definition reserve (s : sim) : Z := minor (floor_of s) + sum_by (held_back s) (s_loans s).

(** What optional payments may still use without touching the reserve. *)
Definition slack (s : sim) : Z := minor (s_cash s) - reserve s.

(** A loop of sums that leaves the state alone adds up its terms. *)
Lemma foldM_sum {A} (f : Amount → A → M Amount) (g : A → Z) s l :
  (∀ acc x, sticks (f acc x)) →
  (∀ acc x r s', x ∈ l → wf_amount acc → f acc x s = Ok (r, s') → s_err s' = None →
    s' = s ∧ minor r = minor acc + g x ∧ wf_amount r) →
  ∀ acc r s', wf_amount acc → foldM f acc l s = Ok (r, s') → s_err s' = None →
    s' = s ∧ minor r = minor acc + sum_by g l ∧ wf_amount r.
Proof.
  intros Hs. unfold sum_by. induction l as [|x l IH]; intros Hf acc r s' Hacc H E; cbn [foldM foldr] in *.
  { steps H. split_and!; lia || done. }
  apply bind_M in H as (a & t & H1 & H). pose proof (sticks_foldM f l Hs a _ _ _ H E) as Et.
  destruct (Hf acc x a t ltac:(by left) Hacc H1 Et) as (-> & Ea & Ha).
  destruct (IH ltac:(intros; eapply Hf; [by right|done..]) a r s' Ha H E) as (-> & Er & Hr).
  split_and!; lia || done.
Qed.

(** A clock is unset or shows a real date. *)
Definition ticks (d : Date) : Prop := Dates.IsZero d = true ∨ dated d.

Definition month_stored (m : MonthState) : Prop :=
  wf_amount (MsRequired m) ∧ wf_amount (MsExtra m) ∧ wf_amount (MsFees m).

(** A receipt whose parts make up the whole. *)
Definition event_ok (e : CashEvent) : Prop :=
  held (CeAmount e) ∧ dated (CeOn e) ∧
  ∀ r, Routing e = Some r →
    Forall (λ p, held (SplitAmount p)) (route_parts e r) ∧
    sum_by (λ p, minor (SplitAmount p)) (route_parts e r) = minor (CeAmount e) ∧
    ticks (HoldUntil r).

Record spending_ok (p : SpendingPlan) : Prop := {
  sp_day : 0 ≤ CycleDay p ≤ 31;
  sp_monthly : held (SpMonthly p);
  sp_spent : wf_amount (Spent p);
  sp_overrides : map_Forall (λ _ a, wf_amount a) (SpOverrides p);
  sp_until : ticks (CarryUntil p);
  sp_changes : Forall (λ ch, wf_amount (Limit ch) ∧ dated (ScOn ch) ∧ ticks (ScCarryUntil ch)) (Changes p) }.

(** Opening cash set aside for a bucket. *)
Definition retained (e : CashEvent) : Z := if FromOpening e then minor (CeAmount e) else 0.

(** A plan of stored, non-negative amounts and real dates, on contracts within
    the engine's terms. *)
Record input_ok (inp : Input) : Prop := {
  in_valuation : dated (ValuationDate inp);
  in_loans : Forall (λ p, loan_terms (PosContract p) ∧ held (PosBalance p) ∧ dated (From p)) (Loans inp);
  in_monthly : held (Monthly (Cash inp));
  in_opening : held (OpeningCash (Cash inp));
  in_floor : held (ReserveFloor (Cash inp));
  in_overrides : map_Forall (λ _ a, held a) (MonthlyOverrides (Cash inp));
  in_lumps : Forall event_ok (Lumps (Cash inp));
  in_payday : 0 ≤ PayDay (Cash inp) ≤ 31;
  in_retained : sum_by retained (Lumps (Cash inp)) ≤ minor (or_zero (OpeningCash (Cash inp)) (in_currency inp));
  in_spending : ∀ p, Spending (Cash inp) = Some p → spending_ok p }.

#[local] Arguments sum_by : simpl never.
#[local] Arguments owed : simpl never.
#[local] Arguments restricted : simpl never.

(** What spending on a day leaves of the plan and the calendar: everything
    [fixed], and the due date of every loan. A loan may close; interest is
    booked up to the day before its balance is cleared. *)
Record same_due (on : Date) (l l' : loanState) : Prop := {
  du_pos : l_pos l' = l_pos l;
  du_due : l_due l' = l_due l;
  du_closed : l_closed l = true → l_closed l' = true;
  du_from : time (l_from l) ≤ time (l_from l');
  du_cleared : time (l_from l') < time on → minor (l_balance l') = 0 → minor (l_balance l) = 0 }.
#[export] Instance same_due_preorder on : PreOrder (same_due on).
Proof.
  split; [intros l; split; done || lia|]. intros a b c [] []. split; try congruence || lia || by auto.
Qed.

Record spends (on : Date) (s s' : sim) : Prop := {
  sd_fixed : fixed s' = fixed s;
  sd_dues : Forall2 (same_due on) (s_loans s) (s_loans s') }.
#[export] Instance spends_preorder on : PreOrder (spends on).
Proof.
  split; [intros s; by split|]. intros s1 s2 s3 [H1 H2] [H3 H4]. split; [congruence|by etrans].
Qed.

(** The same, with nothing set aside for a due date. *)
Definition pendings (s : sim) : list Amount := l_pending <$> s_loans s.
Definition pays (on : Date) (s s' : sim) : Prop := spends on s s' ∧ pendings s' = pendings s.
#[export] Instance pays_preorder on : PreOrder (pays on).
Proof. split; [by intros s|]. intros s1 s2 s3 [? ?] [? ?]. split; [by etrans|congruence]. Qed.

Section Books.
Context (inp : Input) (Hinp : input_ok inp).

Definition opening : Z := minor (or_zero (OpeningCash (Cash inp)) (in_currency inp)).
Definition borrowed : Z := sum_by (λ p, minor (PosBalance p)) (Loans inp).

Record Inv (s : sim) : Prop := {
  iv_in : s_in s = inp;
  iv_delay : s_incomeDelayDays s = 0;
  iv_cache : cache_ok (s_cache s);
  iv_stored : stored s;
  iv_loans : Forall loan_ok (s_loans s);
  iv_positions : l_pos <$> s_loans s = Loans inp;
  iv_cash : 0 ≤ minor (s_cash s);
  iv_buckets : Forall (λ b, held (b_remaining b) ∧ ticks (b_wake b) ∧ ticks (b_until b)) (s_cashBuckets s);
  iv_left : 0 ≤ minor (s_periodLeft s);
  iv_timeline : Forall month_stored (Timeline (s_res s));
  iv_cycle : 0 ≤ s_cycle s ∧ (s_cycle s = 0 → month_out (s_month s) = 0);
  iv_clocks : ticks (s_nextPeriod s) ∧ ticks (s_nextIncome s) ∧ ticks (s_nominalIncome s) ∧ ticks (s_carryUntil s);
  iv_lumps : Forall event_ok (s_lumps s);
  iv_books : opening + minor (s_inflow s) =
    minor (ResPaid (s_res s)) + minor (s_cash s) + restricted s + minor (HouseholdCash (s_res s));
  iv_months : sum_by month_out (Timeline (s_res s)) + month_out (s_month s) = minor (ResPaid (s_res s));
  iv_debt : borrowed + minor (ResInterest (s_res s)) + minor (ResFees (s_res s)) =
    minor (ResPaid (s_res s)) + owed (s_loans s) }.

(** A cycle is open: payments have a month to be booked in. *)
Definition Open (s : sim) : Prop := Inv s ∧ 0 < s_cycle s.

(** ** One payment *)

Lemma fixed_same s s' :
  fixed s' = fixed s →
  (s_in s' = s_in s ∧ s_pol s' = s_pol s ∧ s_cur s' = s_cur s ∧ s_incomeDelayDays s' = s_incomeDelayDays s ∧
   s_nominalIncome s' = s_nominalIncome s) ∧
  (s_hasRouting s' = s_hasRouting s ∧ s_cycle s' = s_cycle s ∧ s_cycleIncome s' = s_cycleIncome s ∧
   s_nextIncome s' = s_nextIncome s ∧ s_incomeYM s' = s_incomeYM s ∧ s_lumps s' = s_lumps s ∧
   s_inflow s' = s_inflow s ∧ s_nextPeriod s' = s_nextPeriod s ∧ s_periodStart s' = s_periodStart s) ∧
  s_carryRule s' = s_carryRule s ∧ s_carryMinimum s' = s_carryMinimum s ∧ s_carryUntil s' = s_carryUntil s ∧
  Timeline (s_res s') = Timeline (s_res s) ∧ HouseholdCash (s_res s') = HouseholdCash (s_res s).
Proof using Type. unfold fixed. intros [=]. done. Qed.

Lemma paid_Inv i s s' l l' out principal interest fee spent :
  paid_out i s s' l l' out principal interest fee spent → Open s →
  out = principal + interest + fee → out ≤ minor (s_cash s) → spent ≤ minor (s_periodLeft s) →
  loan_ok l' → Open s'.
Proof using Type.
  intros P [HI Hc] Hout Hcash Hleft Hl'.
  destruct (fixed_same _ _ (po_fixed P)) as ((E1 & _ & _ & E4 & E5) & (_ & E7 & _ & E9 & _ & E11 & E12 & E13 & _) & _ & _ & E17 & E18 & E19).
  destruct (loan_fixed_same _ _ (po_same P)) as (F1 & _ & _ & _ & _ & F6 & _).
  pose proof (po_loan P) as L. destruct HI as [? ? ? ? Hls Hpos ? ? ? ? [??] ? ? Hb Hm Hd].
  unfold restricted, owed in *.
  split; [|lia]. split; rewrite ?E1, ?E4, ?E7, ?E11, ?E12, ?E13, ?E5, ?E9, ?E17, ?E18, ?E19, ?(po_cache P), ?(po_buckets P), ?(po_loans P), ?(po_cash P), ?(po_left P),
    ?(po_paid P), ?(po_fees P), ?(po_interest P), ?(po_month P); try done.
  - apply (po_stored P).
  - by apply Forall_insert_2.
  - rewrite list_fmap_insert, F1. rewrite list_insert_id; [done|]. by rewrite list_lookup_fmap, L.
  - lia.
  - lia.
  - split; [done|lia].
  - unfold restricted. rewrite (po_buckets P). lia.
  - lia.
  - unfold owed. rewrite (sum_by_insert _ _ _ _ _ L), (po_balance P). lia.
Qed.

Lemma same_due_insert on ls i l l' :
  ls !! i = Some l → same_due on l l' → Forall2 (same_due on) ls (<[i := l']> ls).
Proof using Type.
  intros L H. rewrite <- (list_insert_id ls i l L) at 1. by apply Forall2_insert.
Qed.

Lemma pendings_insert (ls : list loanState) i l l' :
  ls !! i = Some l → l_pending l' = l_pending l → l_pending <$> <[i := l']> ls = l_pending <$> ls.
Proof using Type. intros L E. rewrite list_fmap_insert, E, list_insert_id; [done|]. by rewrite list_lookup_fmap, L. Qed.

Lemma paid_pays i s s' l l' out principal interest fee spent on :
  paid_out i s s' l l' out principal interest fee spent → (l_closed l = true → l_closed l' = true) →
  reached on l → pays on s s'.
Proof using Type.
  intros P Hc Hr. destruct (loan_fixed_same _ _ (po_same P)) as (F1 & _ & _ & F4 & F5 & F6 & _).
  split; [split; [apply (po_fixed P)|]|].
  - rewrite (po_loans P). apply (same_due_insert _ _ _ _ _ (po_loan P)).
    split; [done|done|done|rewrite F6; lia|]. rewrite F6. destruct Hr; [lia|done].
  - unfold pendings. rewrite (po_loans P). by apply (pendings_insert _ _ _ _ (po_loan P)).
Qed.

Lemma spends_fixed on s s' :
  spends on s s' → s_in s' = s_in s ∧ s_pol s' = s_pol s ∧ separate s' = separate s ∧ s_cycle s' = s_cycle s.
Proof using Type.
  intros [((E1 & E2 & _) & (_ & E3 & _) & _)%fixed_same _]. unfold separate, cash_plan. by rewrite E1.
Qed.

(** ** The reserve *)

Lemma held_back_nonneg s l : loan_ok l → 0 ≤ held_back s l.
Proof using Type.
  intros Hl. pose proof (lk_required l Hl) as [? _]. pose proof (lk_pending l Hl) as [? _]. unfold held_back.
  destruct (l_closed l), (due_before_income s l); lia.
Qed.

Lemma sum_by_ext {A} (f g : A → Z) l : (∀ x, f x = g x) → sum_by f l = sum_by g l.
Proof using Type. intros H. unfold sum_by. induction l as [|x l IH]; [done|]. cbn [foldr]. by rewrite H, IH. Qed.

Lemma held_back_fixed s s' l :
  s_nextIncome s' = s_nextIncome s → s_incomeYM s' = s_incomeYM s → held_back s' l = held_back s l.
Proof using Type. intros E1 E2. unfold held_back, due_before_income. by rewrite E1, E2. Qed.

(** The slack after one loan was written. *)
Lemma slack_insert s s' i l l' :
  s_loans s !! i = Some l → s_loans s' = <[i := l']> (s_loans s) → s_in s' = s_in s → s_cur s' = s_cur s →
  s_nextIncome s' = s_nextIncome s → s_incomeYM s' = s_incomeYM s →
  slack s' = slack s + (minor (s_cash s') - minor (s_cash s)) + (held_back s l - held_back s l').
Proof using Type.
  intros L El E1 E2 E3 E4. unfold slack, reserve, floor_of, cash_plan. rewrite El, E1, E2.
  rewrite (sum_by_ext (held_back s') (held_back s)) by (intros; by apply held_back_fixed).
  rewrite (sum_by_insert _ _ _ _ _ L). lia.
Qed.

(** A payment lowers the slack by no more than itself. *)
Lemma paid_slack i s s' l l' out principal interest fee spent :
  paid_out i s s' l l' out principal interest fee spent → loan_ok l → (l_closed l = true → l_closed l' = true) →
  slack s - out ≤ slack s'.
Proof using Type.
  intros P Hl Hc. destruct (fixed_same _ _ (po_fixed P)) as ((E1 & _ & E3 & _) & (_ & _ & _ & E9 & E10 & _) & _).
  destruct (loan_fixed_same _ _ (po_same P)) as (_ & _ & F3 & F4 & F5 & _).
  rewrite (slack_insert s s' i l l' (po_loan P) (po_loans P)), (po_cash P) by done.
  pose proof (held_back_nonneg s l Hl).
  assert (held_back s l' ≤ held_back s l); [|lia]. unfold held_back in *.
  replace (due_before_income s l') with (due_before_income s l) by (unfold due_before_income; by rewrite F5).
  rewrite F3, F4. destruct (l_closed l); [rewrite Hc by done; lia|]. destruct (l_closed l'); lia.
Qed.

(** [reserved] computes the reserve. *)
Lemma Inv_loan s i l : Inv s → s_loans s !! i = Some l → loan_ok l.
Proof using Type. intros HI L. exact (proj1 (Forall_lookup _ _) (iv_loans s HI) _ _ L). Qed.

(** What the reserve is computed from. *)
Definition Sound (s : sim) : Prop := s_in s = inp ∧ stored s ∧ Forall loan_ok (s_loans s).
Lemma Inv_Sound s : Inv s → Sound s.
Proof using Type. intros []. done. Qed.

Lemma floor_held s : Sound s → held (floor_of s).
Proof using Hinp. intros [E _]. unfold floor_of, cash_plan. rewrite E. apply held_or_zero, Hinp. Qed.

Lemma reserved_value s r s' :
  reserved s = Ok (r, s') → s_err s' = None → Sound s → s' = s ∧ minor r = reserve s ∧ wf_amount r.
Proof using Hinp.
  intros H E HI. unfold reserved in H. steps H. pose proof (floor_held s HI) as Hf. unfold reserve.
  change (or_zero (ReserveFloor (cash_plan s)) (s_cur s)) with (floor_of s) in H.
  eapply foldM_sum in H; [exact H|..]; [|clear H|auto|done].
  { intros acc l. sticks. }
  intros acc l r' t Hl Hacc H Et. pose proof HI as (_ & _ & Hok). rewrite Forall_forall in Hok.
  specialize (Hok l Hl). pose proof (lk_required l Hok). pose proof (lk_pending l Hok). unfold held_back.
  destruct (l_closed l); [steps H; split_and!; lia || done|]. steps H. unstick Et.
  destruct (due_before_income s l); match goal with R : _ s = Ok (_, _) |- _ => steps R end; unstick Et; sums;
    split_and!; lia || done.
Qed.

(** ** The permission *)

(** What the period still asks of one loan. *)
Definition claimed (p : SpendingPlan) (on : Date) (l : loanState) : Z :=
  if l_closed l then 0
  else (if negb (Before (l_due l) on) && Before (l_due l) (periodEnd p on) then minor (l_required l) else 0) +
    minor (l_pending l).

Lemma permission_value on s r s' :
  optionalPermission on s = Ok (r, s') → s_err s' = None → Sound s →
  s' = s ∧ minor r ≤ minor (s_periodLeft s) ∧ wf_amount r.
Proof using Hinp.
  intros H E HI. unfold optionalPermission in H. apply bind_M in H as (p & t & Hp & H).
  assert (t = s) as -> by (unfold spending in Hp; case_match; by simplify_eq). steps H.
  eapply (foldM_sum _ (λ l, - claimed p on l)) in H; [| |clear H|apply HI|done].
  - destruct H as (-> & -> & ?). split_and!; [done| |done].
    assert (sum_by (λ l, - claimed p on l) (s_loans s) ≤ 0); [|lia].
    pose proof HI as (_ & _ & Hok). induction Hok as [|l ls Hl Hok IH]; unfold sum_by in *; cbn [foldr]; [lia|].
    pose proof (lk_required l Hl) as [? _]. pose proof (lk_pending l Hl) as [? _]. unfold claimed at 1.
    repeat case_match; lia.
  - intros acc l. sticks.
  - intros acc l r' t Hl Hacc H Et. pose proof HI as (_ & _ & Hok). rewrite Forall_forall in Hok.
    specialize (Hok l Hl). pose proof (lk_required l Hok). pose proof (lk_pending l Hok). unfold claimed.
    destruct (l_closed l); [steps H; split_and!; lia || done|]. steps H. unstick Et.
    case_match; match goal with R : _ s = Ok (_, _) |- _ => steps R end; unstick Et; sums;
      split_and!; lia || done.
Qed.

(** What optional payments may use: never the reserve, and never more than the
    permission where there is one. *)
Lemma optionalCash_value on s r s' :
  optionalCash on s = Ok (r, s') → s_err s' = None → Sound s →
  s' = s ∧ wf_amount r ∧
  (0 < minor r → minor r ≤ slack s ∧ (separate s = true → minor r ≤ minor (s_periodLeft s))).
Proof using Hinp.
  intros H E HI. unfold optionalCash in H. steps H. destruct (carrying s on).
  { steps H. split_and!; [done|apply wf_zero|simpl; lia]. }
  apply bind_M in H as (c & t & H1 & H). steps H1. apply bind_M in H as (rv & t & Hr & H).
  apply bind_M in H as (sp & t1 & Hs & H). apply bind_M in H as (sep & t2 & Hsep & H).
  steps Hsep. unfold sub in Hs.
  assert (s_err t1 = None) as E1.
  { destruct (separate t1); [|by steps H]. apply bind_M in H as (p & t9 & Hp & H). steps H.
    by apply (sticks_optionalPermission _ _ _ _ Hp). }
  unstick E1. destruct (reserved_value _ _ _ Hr E1 HI) as (-> & Hm & Hw).
  apply Sub_stored in Hs as (Hm2 & Hw2 & _); [|apply HI|done].
  destruct (separate s) eqn:Es; [|steps H; split_and!; [done|done|]; unfold slack; intros; split; [lia|done]].
  apply bind_M in H as (p & t9 & Hp & H). steps H.
  destruct (permission_value _ _ _ _ Hp E HI) as (-> & Hle & Hwp).
  unfold slack. split_and!; [done|by case_match|]. intros Hpos. repeat case_match; rewrite ?Z.ltb_lt, ?Z.ltb_ge in *; lia.
Qed.

(** ** Accrual and quotes *)

(** What a step that only books interest leaves as it was. *)
Definition gauges (s : sim) := (fixed s, s_cashBuckets s, s_cash s, s_periodLeft s, slack s).

Lemma gauges_same s s' :
  gauges s' = gauges s →
  fixed s' = fixed s ∧ s_cashBuckets s' = s_cashBuckets s ∧ s_cash s' = s_cash s ∧
  s_periodLeft s' = s_periodLeft s ∧ slack s' = slack s.
Proof using Type. unfold gauges. generalize (slack s') (slack s). unfold fixed. intros ? ? [=]. split_and!; congruence. Qed.

Lemma accrued_Inv s i l l' on :
  Inv s → s_loans s !! i = Some l → accrued_to on l l' → dated on →
  let s' := set s_loans (alter (λ _, l') i) s in Inv s' ∧ gauges s' = gauges s ∧ pays on s s'.
Proof using Type.
  intros HI L [Hok Hsame Hgrow Hfrom Hr] Hon. cbv zeta. pose proof (Inv_loan s i l HI L) as Hl.
  assert (l_pos l' = l_pos l ∧ l_balance l' = l_balance l ∧ l_pending l' = l_pending l ∧ same_due on l l' ∧
    (∀ t, held_back t l' = held_back t l)) as (E1 & E2 & E4 & Hdue & E3).
  { rewrite Hsame. split_and!; [done..| |done]. split; try done. destruct Hfrom as [->|[-> ?]]; cbn; lia. }
  assert (alter (λ _, l') i (s_loans s) = <[i := l']> (s_loans s)) as Ea by exact (alter_insert (λ _, l') _ _ _ L).
  destruct HI. split.
  - split; cbn; rewrite ?Ea; try done.
    + by destruct iv_stored0.
    + by apply Forall_insert_2.
    + rewrite list_fmap_insert, E1, list_insert_id; [done|]. by rewrite list_lookup_fmap, L.
    + unfold owed in *. rewrite (sum_by_insert _ _ _ _ _ L), E2. lia.
  - split; [|split; [split; [done|]|]; unfold pendings; cbn; rewrite Ea;
      [by apply (same_due_insert _ _ _ _ _ L)|by apply (pendings_insert _ _ _ _ L)]].
    unfold gauges. f_equal. rewrite (slack_insert s _ i l l'), E3; [cbn; lia|done..].
Qed.

Lemma accrue_loan_effect i on s r s' :
  accrue_loan i on s = Ok (r, s') → Inv s → dated on →
  Inv s' ∧ gauges s' = gauges s ∧ pays on s s' ∧ ∃ l l', s_loans s !! i = Some l ∧ s_loans s' !! i = Some l' ∧
    (r = inr tt → accrued_to on l l').
Proof using Type.
  intros H HI Hon. unfold accrue_loan in H. apply bind_M in H as (l & t & L & H). steps L.
  apply and_then_Ok in H as [(e & H & ->)|(l' & t & Hl' & H)].
  { steps H. split_and!; [done..|by exists l, l]. }
  apply attempt_Ok in Hl' as [-> H0]. steps H. destruct (Inv_loan s i l HI L0) as [Hl Hd].
  apply accrueTo_Ok in H0; [|done..]. destruct (accrued_Inv s i l l' on HI L0 H0 Hon) as (HI' & Hg & Hsp).
  split_and!; try done. exists l, l'. split_and!; [done| |done]. cbn. rewrite list_lookup_alter_eq. by rewrite L0.
Qed.

Lemma quote_effect i on avail s r s' :
  quote i on avail s = Ok (r, s') → Inv s → dated on → held avail →
  Inv s' ∧ gauges s' = gauges s ∧ pays on s s' ∧
  ∀ q, r = inr q → ∃ l, s_loans s' !! i = Some l ∧ loan_ok l ∧ reached on l ∧ quote_ok l avail q.
Proof using Type.
  intros H HI Hon Ha. unfold quote in H. apply and_then_Ok in H as [(e & H & ->)|([] & t & H1 & H)].
  { destruct (accrue_loan_effect _ _ _ _ _ H HI Hon) as (? & ? & ? & _). done. }
  destruct (accrue_loan_effect _ _ _ _ _ H1 HI Hon) as (HI' & Hg & Hsp & l0 & l & L0 & L & Hac). steps H.
  split_and!; try done. intros q ->. specialize (Hac eq_refl).
  exists l. split_and!; [done|apply Hac|apply Hac|].
  match goal with R : s_loans t !! i = Some ?x, R2 : quote_of _ ?x _ _ = _ |- _ => assert (x = l) as -> by congruence end.
  eapply quote_of_ok; [apply Hac|done..].
Qed.

(** ** An optional payment *)

Lemma prepay_Open i on q early s u s' l avail :
  prepay i on q early s = Ok (u, s') → s_err s' = None → Open s → s_loans s !! i = Some l → loan_ok l →
  reached on l → quote_ok l avail q → held avail → minor (Outflow q) ≤ minor (s_cash s) →
  (separate s = true → minor (Outflow q) ≤ minor (s_periodLeft s)) →
  Open s' ∧ slack s - minor (Outflow q) ≤ slack s' ∧ s_cashBuckets s' = s_cashBuckets s ∧ pays on s s' ∧
  minor (s_cash s') = minor (s_cash s) - minor (Outflow q) ∧
  minor (s_periodLeft s') = minor (s_periodLeft s) - (if separate s then minor (Outflow q) else 0) ∧
  ∃ l', s_loans s' !! i = Some l' ∧ l_closed l' = l_closed l || Closes q ∧ l_from l' = l_from l.
Proof using Type.
  intros H E HO L Hl Hrch [Qout Qp Qi Qf Qfit Qc Qpart _] [Ha1 Ha2] Hcash Hleft.
  destruct (prepay_effect i on q early l s u s' H E) as (l' & P & Hcl & Hac); try done; try (unfold_i64; lia).
  { apply (iv_stored s (proj1 HO)). }
  { intros Hc. by destruct (Qc Hc) as [-> _]. }
  pose proof (lk_balance l Hl) as [Hb0 Hb1]. pose proof (lk_accrued l Hl) as [Hi0 Hi1].
  assert (loan_ok l') as Hl'.
  { apply (paid_loan_ok P Hl); [lia| | |].
    - unfold held. rewrite Hac. destruct (Closes q); [unfold MaxInt64; lia|lia].
    - intros Hc'. rewrite (po_balance P). rewrite Hcl in Hc'. destruct (l_closed l) eqn:Ec.
      + destruct (lk_closed l Hl Ec) as [E1 E2]. rewrite Hac. destruct (Closes q); lia.
      + simpl in Hc'. destruct (Qc Hc') as [-> _]. rewrite Hac, Hc'. lia.
    - rewrite Hcl. by destruct (l_closed l). }
  split_and!.
  - eapply (paid_Inv _ _ _ _ _ _ _ _ _ _ P HO); [|done| |done].
    + destruct (Closes q) eqn:Ec; [lia|]. rewrite (Qpart eq_refl) in *. lia.
    + destruct (separate s); [auto|]. apply (iv_left s (proj1 HO)).
  - apply (paid_slack _ _ _ _ _ _ _ _ _ _ P Hl). intros Hc. by rewrite Hcl, Hc.
  - apply (po_buckets P).
  - apply (paid_pays _ _ _ _ _ _ _ _ _ _ _ P); [|done]. intros Hc. by rewrite Hcl, Hc.
  - apply (po_cash P).
  - apply (po_left P).
  - exists l'. split_and!; [apply (po_after P)|done|]. by destruct (loan_fixed_same _ _ (po_same P)) as (_ & _ & _ & _ & _ & ? & _).
Qed.

(** ** Spending the surplus *)

Lemma batched_same q s b s' : batched q s = Ok (b, s') → s' = s.
Proof using Type.
  intros H. unfold batched in H. steps H.
  assert (t = s) as -> by (match goal with R : _ = Ok (x, t) |- _ => case_if_in R; steps R; done end).
  case_if_in H; steps H; [done|]. case_if_in H; steps H; done.
Qed.

(** Money promised to a loan for its due date is held back. *)
Lemma pend_Open on i x s u s' l :
  bump_loan i l_pending x s = Ok (u, s') → s_err s' = None → Open s → held x → s_loans s !! i = Some l →
  Open s' ∧ slack s - minor x ≤ slack s' ∧ spends on s s' ∧ s_cashBuckets s' = s_cashBuckets s ∧
  s_periodLeft s' = s_periodLeft s.
Proof using Type.
  intros H E [HI Hc] Hx L. unfold bump_loan in H. steps H. unstick E. cbn in E. loans L.
  match goal with R : Add _ _ = Ok ?v |- _ => rename v into p; rename R into Radd end.
  pose proof (Inv_loan s i l HI L) as Hl. pose proof (lk_pending l Hl) as Hp.
  pose proof (held_Add _ _ _ Hp Hx Radd) as Hr. sums.
  pose proof (alter_insert (set l_pending (λ _, p)) _ _ _ L) as Ea.
  set (l' := set l_pending (λ _, p) l) in *.
  assert (loan_ok l') as Hl' by (destruct Hl; by split).
  split_and!.
  - split; [|done]. destruct HI. split; cbn; rewrite ?Ea; try done.
    + by destruct iv_stored0.
    + by apply Forall_insert_2.
    + rewrite list_fmap_insert, list_insert_id; [done|]. by rewrite list_lookup_fmap, L.
    + unfold owed in *. rewrite (sum_by_insert _ _ _ _ _ L). cbn. lia.
  - match goal with |- _ ≤ slack ?t => rewrite (slack_insert s t i l l' L Ea) by done end. unfold held_back, due_before_income, l'. cbn.
    pose proof Hx as [? _].
    destruct (l_closed l); [lia|]. repeat case_match; lia.
  - split; [done|]. cbn. rewrite Ea. apply (same_due_insert _ _ _ _ _ L). split; done || (cbn; lia).
  - done.
  - done.
Qed.

Lemma slack_cash s : Sound s → slack s ≤ minor (s_cash s).
Proof using Hinp.
  intros HI. unfold slack, reserve. pose proof HI as (_ & _ & Hok). pose proof (floor_held s HI) as [? _].
  assert (0 ≤ sum_by (held_back s) (s_loans s)); [|lia].
  apply sum_by_nonneg. intros l Hl. apply held_back_nonneg. by apply (proj1 (Forall_forall _ _) Hok).
Qed.

(** Everything an optional payment may draw on. *)
Definition affordable (s : sim) (x : Amount) : Prop :=
  0 < minor x → minor x ≤ slack s ∧ (separate s = true → minor x ≤ minor (s_periodLeft s)).

Lemma allocate_to_Open i on q s u s' l avail :
  allocate_to i on q s = Ok (u, s') → s_err s' = None → Open s → s_loans s !! i = Some l → loan_ok l →
  reached on l → quote_ok l avail q → held avail → affordable s (Outflow q) → 0 < minor (Outflow q) →
  Open s' ∧ slack s - minor (Outflow q) ≤ slack s' ∧ spends on s s' ∧ s_cashBuckets s' = s_cashBuckets s ∧
  minor (s_periodLeft s) - (if separate s then minor (Outflow q) else 0) ≤ minor (s_periodLeft s').
Proof using Hinp.
  intros H E HO L Hl Hr Q Ha Haff Hpos. destruct (Haff Hpos) as [Hs Hleft].
  pose proof (slack_cash s (Inv_Sound s (proj1 HO))). unfold allocate_to in H. steps H. case_if_in H.
  - destruct (prepay_Open _ _ _ _ _ _ _ _ _ H E HO L Hl Hr Q Ha) as (? & ? & ? & [? _] & ? & -> & _); [lia|done|].
    split_and!; done || lia.
  - assert (held (Outflow q)) as Hout by (destruct Q, Ha; split; lia).
    destruct (pend_Open on _ _ _ _ _ _ H E HO Hout L) as (? & ? & ? & ? & ->).
    split_and!; try done. destruct (separate s); lia.
Qed.

Lemma allocate_from_Open order on : ∀ surplus s u s',
  allocate_from order on surplus s = Ok (u, s') → s_err s' = None → Open s → dated on → wf_amount surplus →
  affordable s surplus →
  Open s' ∧ spends on s s' ∧ s_cashBuckets s' = s_cashBuckets s ∧ (0 ≤ slack s → 0 ≤ slack s').
Proof using Hinp.
  induction order as [|i order IH]; intros surplus s u s' H E HO Hon Hw Haff; cbn [allocate_from] in H.
  { steps H. by split_and!. }
  apply bind_M in H as (l & t & L & H). apply loan_Ok in L as [L ->].
  destruct (l_closed l || OptionalExcluded (l_pos l) || (Sign surplus <=? 0)) eqn:Eskip; [by eapply IH|].
  apply orb_false_iff in Eskip as [_ Hpos]. rewrite Sign_nonpos_iff, Z.leb_gt in Hpos.
  apply bind_M in H as (r & t & Hq & H).
  assert (held surplus) as Ha by (unfold held; unfold_i64; lia).
  destruct (quote_effect _ _ _ _ _ _ Hq (proj1 HO) Hon Ha) as (HI & Hg & [Hsp _] & Hquote).
  apply gauges_same in Hg as (Hf & Hb & Hc & Hl & Hsl).
  destruct (spends_fixed _ _ _ Hsp) as (_ & _ & Esep & Ecyc).
  assert (Open t) as HO' by (split; [done|]; rewrite Ecyc; apply HO).
  assert (∀ x, affordable s x → affordable t x) as Haff'
    by (intros x Hx Hp'; rewrite Hsl, Esep, Hl; exact (Hx Hp')).
  destruct r as [e|q]; [apply modify_Ok in H; by subst s'|]. cbn [or_raise] in H.
  destruct (Hquote q eq_refl) as (l1 & L1 & Hl1 & Hr1 & Q).
  assert (allocate_from order on surplus t = Ok (u, s') →
    Open s' ∧ spends on s s' ∧ s_cashBuckets s' = s_cashBuckets s ∧ (0 ≤ slack s → 0 ≤ slack s')) as Hskip.
  { intros H'. destruct (IH _ _ _ _ H' E HO' Hon Hw (Haff' _ Haff)) as (? & ? & ? & ?).
    split_and!; [done|by etrans|congruence|by rewrite <- Hsl]. }
  destruct (Z.leb_spec (Sign (Outflow q)) 0) as [|Hout]; [by apply Hskip|].
  assert (0 < minor (Outflow q)) as Hout' by (revert Hout; unfold Sign; repeat case_match; lia).
  apply bind_M in H as (w & t' & Hb' & H). apply batched_same in Hb' as ->. destruct w; [by apply Hskip|].
  apply bind_M in H as ([] & t1 & Hto & H). apply bind_M in H as (rest & t2 & Hsub & H).
  pose proof (sticks_allocate_from _ _ _ _ _ _ H E) as E2. unfold sub in Hsub. unstick E2.
  destruct (Haff Hpos) as [Hsl0 Hleft0]. pose proof (qk_fits _ _ _ Q).
  assert (wf_amount (Outflow q)) by (apply held_wf; destruct Ha; split; lia). sums.
  destruct (allocate_to_Open _ _ _ _ _ _ _ _ Hto E2 HO' L1 Hl1 Hr1 Q Ha) as (HO1 & Hsl1 & Hsp1 & Hb1 & Hl1').
  { intros _. rewrite Hsl, Hl, Esep. split; [lia|]. intros Es. specialize (Hleft0 Es). lia. }
  { done. }
  destruct (spends_fixed _ _ _ Hsp1) as (_ & _ & Esep1 & _).
  destruct (IH _ _ _ _ H E HO1 Hon) as (? & ? & ? & Hfin); [done| |].
  { intros Hr. rewrite Esep1, Esep. split; [lia|]. intros Es. specialize (Hleft0 Es). rewrite Esep, Es in Hl1'. rewrite Hl in Hl1'. lia. }
  split_and!; [done|etrans; [exact Hsp|]; by etrans|congruence|]. intros Hs0. apply Hfin. lia.
Qed.
End Books.
