(* ===== verification/Cycles.v ===== *)
(** Months of a simulation: what closing a cycle books, what opening one
    resets, and the obligation a loan is told next. *)
From S2P Require Import Prelude Money Dates Model Allocation Schedule Calendar Fees PlanBase PlanInput.
From S2P Require Import SimState Sim SimLogic Quotes Obligations Payments Books.

#[local] Arguments sum_by : simpl never.
#[local] Arguments owed : simpl never.
#[local] Arguments restricted : simpl never.

(** A month nothing was booked in. *)
Definition blank : MonthState :=
  MkMonthState no_amount 0 zero_date no_amount no_amount no_amount no_amount no_amount no_amount "" [].
Definition unbooked (s : sim) : sim := s <| s_month := blank |>.

(** What is still to happen, by date. *)
Definition dates_of (l : loanState) :=
  (l_pos l, l_closed l, l_due l, l_from l, l_pending l, l_balance l).
Definition clocks (s : sim) :=
  (s_in s, s_pol s, s_nextPeriod s, (s_nextIncome s, s_incomeYM s), dates_of <$> s_loans s, s_lumps s,
   b_wake <$> s_cashBuckets s).

Section Cycles.
Context (inp : Input) (Hinp : input_ok inp).
#[local] Abbreviation Inv := (Books.Inv inp).
#[local] Abbreviation Open := (Books.Open inp).

Lemma restrictedCash_value s r s' :
  restrictedCash s = Ok (r, s') → s_err s' = None → Forall (λ b, held (b_remaining b)) (s_cashBuckets s) →
  s' = s ∧ minor r = restricted s ∧ wf_amount r.
Proof using Type.
  intros H E HI. unfold restrictedCash in H. steps H.
  eapply (foldM_sum _ (λ b, minor (b_remaining b))) in H; [exact H|..]; [|clear H|apply wf_zero|done].
  { intros acc b. sticks. }
  intros acc b r' t Hb Hacc H Et. unfold add in H. apply sticky_Ok in H as (_ & -> & H); [|done].
  apply (proj1 (Forall_forall _ _) HI) in Hb. sums. done.
Qed.

(** Totals reported of the loans still open. *)
Lemma owed_value s r s' :
  foldM (λ t l, if l_closed l then mret t else add t (l_balance l)) (zero s) (s_loans s) s = Ok (r, s') →
  s_err s' = None → Inv s → s' = s ∧ minor r = owed (s_loans s).
Proof using Type.
  intros H E HI.
  eapply (foldM_sum _ (λ l, minor (l_balance l))) in H; [by destruct H as (? & ? & ?)|..]; [|clear H|apply wf_zero|done].
  { intros acc l. sticks. }
  intros acc l r' t Hl Hacc H Et. apply (proj1 (Forall_forall _ _) (iv_loans _ s HI)) in Hl.
  destruct (l_closed l) eqn:Ec; [steps H; destruct (lk_closed l Hl Ec) as [-> _]; split_and!; lia || done|].
  unfold add in H. apply sticky_Ok in H as (_ & -> & H); [|done]. pose proof (lk_balance l Hl). sums. done.
Qed.

(** What is only reported. *)
Definition unreported (s : sim) : sim :=
  set s_res (λ r, r <| NextMonthOwed := no_amount |> <| PeakRequired := no_amount |> <| FinalRequired := no_amount |>
    <| Months := 0 |>) s.

Lemma when_reported (field : Result → Amount) `{!Setter field} b v s u s' :
  (∀ t, unreported (set s_res (set field (λ _, v)) t) = unreported t) →
  when b (assign_res field v) s = Ok (u, s') → unreported s' = unreported s.
Proof using Type. rewrite when_Ok. intros Hf H. destruct b; [|by subst s']. steps H. apply Hf. Qed.

Lemma closeCycle_reported s u s' :
  closeCycle s = Ok (u, s') → s_err s' = None → Inv s →
  ∃ m t, unreported s' = unreported t ∧ t = s <| s_month := m |> <| s_res := set Timeline (λ l, l ++ [m]) (s_res s) |> ∧
    month_out m = month_out (s_month s) ∧ month_stored m.
Proof using Type.
  intros H E HI. unfold closeCycle in H.
  apply bind_M in H as (z & t & [-> ->]%gets_Ok & H). apply bind_M in H as (ls & t & [-> ->]%gets_Ok & H).
  apply bind_M in H as (o & t1 & Ho & H). apply bind_M in H as (r & t2 & Hr & H).
  apply bind_M in H as (c & t & [-> ->]%gets_Ok & H). apply bind_M in H as (held & t3 & Hh & H).
  do 3 (apply bind_M in H as ([] & ? & ->%modify_Ok & H)). apply bind_M in H as (m & t & [-> ->]%gets_Ok & H).
  cbv beta zeta in H.
  match type of H with context [MsRequired ?m] => set (m0 := m) in * end.
  apply bind_M in H as ([] & ? & ->%modify_Ok & H). apply bind_M in H as (n & t & [-> ->]%gets_Ok & H).
  apply bind_M in H as ([] & t4 & H4 & H). apply bind_M in H as (peak & t & [-> ->]%gets_Ok & H).
  apply bind_M in H as (higher & t & [_ ->]%cmp_Ok & H). apply bind_M in H as ([] & t5 & H5 & H).
  apply when_reported in H, H5, H4; [|done..].
  assert (s_err t3 = None) as E3 by (rewrite <- E; change (s_err s') with (s_err (unreported s')); by rewrite H, H5, H4).
  apply sticky_Ok in Hh as (E2 & -> & _); [|done].
  pose proof (sticks_restrictedCash _ _ _ Hr E2) as E1.
  apply owed_value in Ho as [-> _]; [|done..]. apply restrictedCash_value in Hr as [-> _]; [|done|].
  2:{ eapply Forall_impl; [apply (iv_buckets _ s HI)|]. by intros b [? _]. }
  exists m0. eexists. split_and!; [|reflexivity|done|]; [by rewrite H, H5, H4|].
  pose proof (iv_stored _ s HI) as []. done.
Qed.

Lemma Inv_reported s t : unreported t = unreported s → Inv s → Inv t.
Proof using Type.
  intros E HI. assert (Inv (unreported t)) as [].
  { rewrite E. destruct HI. split; try done. by destruct iv_stored. }
  split; try done. by destruct iv_stored.
Qed.

(** Closing a cycle moves its month to the timeline. *)
Lemma closeCycle_Inv s u s' :
  closeCycle s = Ok (u, s') → s_err s' = None → Inv s →
  Inv (unbooked s') ∧ clocks s' = clocks s ∧ s_cycle s' = s_cycle s ∧ separate s' = separate s ∧
  s_cycleIncome s' = s_cycleIncome s.
Proof using Type.
  intros H E HI. destruct (closeCycle_reported _ _ _ H E HI) as (m & t & Ht & Et & Hm & Hw).
  split; [|change (clocks s') with (clocks (unreported s')); change (s_cycle s') with (s_cycle (unreported s'));
    change (separate s') with (separate (unreported s')); change (s_cycleIncome s') with (s_cycleIncome (unreported s'));
    by rewrite Ht, Et].
  apply (Inv_reported (unbooked t)).
  { transitivity (unbooked (unreported s')); [done|]. rewrite Ht. done. }
  subst t. destruct HI. split; cbn; try done.
  - by destruct iv_stored.
  - apply Forall_app. auto.
  - split; [lia|done].
  - rewrite sum_by_app. unfold sum_by at 2. cbn [foldr]. change (month_out blank) with 0. lia.
Qed.

Definition reopened (z : Amount) (l : loanState) : loanState :=
  l <| l_cyclePaid := z |> <| l_cycleExtra := z |> <| l_cycleCleared := false |> <| l_cycleFees := z |>.

Lemma openCycle_Inv on s u s' :
  openCycle on s = Ok (u, s') → Inv (unbooked s) →
  Open s' ∧ clocks s' = clocks s ∧ separate s' = separate s ∧ s_err s' = s_err s.
Proof using Type.
  intros H HI. unfold openCycle in H. steps H.
  match goal with |- context [fmap ?f] => change f with (reopened (zero s)) end.
  assert (∀ l, loan_ok (reopened (zero s) l) ↔ loan_ok l) as Hl by (intros l; split; intros []; by split).
  destruct HI. cbn in *. split; [split|].
  - split; cbn; try done.
    + by destruct iv_stored.
    + apply Forall_fmap. by eapply Forall_impl; [|intros l; apply Hl].
    + by rewrite <- list_fmap_compose.
    + lia.
    + unfold owed in *. rewrite sum_by_fmap_same by done. lia.
  - cbn. lia.
  - split; [|done]. unfold clocks. cbn. by rewrite <- list_fmap_compose.
Qed.

(** A cycle that is not open has nothing booked. *)
Lemma unbooked_start s : Inv s → s_cycle s = 0 → Inv (unbooked s).
Proof using Type.
  intros [] Hc. split; cbn; try done.
  - by destruct iv_stored.
  - split; [lia|done].
  - change (month_out blank) with 0. destruct iv_cycle as [_ Hm]. specialize (Hm Hc). lia.
Qed.

Lemma ensure_cycle_Open on s u s' :
  ensure_cycle on s = Ok (u, s') → Inv s →
  Open s' ∧ clocks s' = clocks s ∧ separate s' = separate s ∧ s_err s' = s_err s.
Proof using Type.
  intros H HI. unfold ensure_cycle in H. apply bind_M in H as (n & t & [-> ->]%gets_Ok & H). rewrite when_Ok in H.
  destruct (Z.eqb_spec (s_cycle s) 0).
  - apply openCycle_Inv in H; [done|]. by apply unbooked_start.
  - subst s'. split_and!; [|done..]. split; [done|]. pose proof (iv_cycle _ s HI). lia.
Qed.

(** ** The next obligation *)

(** A write to one loan that leaves its debt alone. *)
Lemma write_loan_Inv s i l l' :
  Inv s → s_loans s !! i = Some l → loan_ok l' → l_pos l' = l_pos l → minor (l_balance l') = minor (l_balance l) →
  Inv (set s_loans (alter (λ _, l') i) s).
Proof using Type.
  intros HI L Hl Hp Hb. pose proof (alter_insert (λ _, l') _ _ _ L) as Ea. cbv beta in Ea.
  destruct HI. split; cbn; rewrite ?Ea; try done.
  - by destruct iv_stored.
  - by apply Forall_insert_2.
  - rewrite list_fmap_insert, Hp, list_insert_id; [done|]. by rewrite list_lookup_fmap, L.
  - unfold owed in *. rewrite (sum_by_insert _ _ _ _ _ L), Hb. lia.
Qed.

Lemma cached_Inv s m : cache_ok m → Inv s → Inv (set s_cache (λ _, m) s).
Proof using Type. intros Hm []. split; cbn; try done. by destruct iv_stored. Qed.

(** What asking the projection leaves alone. *)
Definition purse (s : sim) :=
  (fixed s, s_cashBuckets s, s_cash s, s_periodLeft s, s_err s, s_month s, s_res s).

Lemma purse_same s s' :
  purse s' = purse s →
  fixed s' = fixed s ∧ s_cashBuckets s' = s_cashBuckets s ∧ s_cash s' = s_cash s ∧
  s_periodLeft s' = s_periodLeft s ∧ s_err s' = s_err s.
Proof using Type. unfold purse, fixed. intros [=]. split_and!; congruence. Qed.

Lemma refreshed_cache l s r s' :
  refreshed l s = Ok (r, s') → cache_ok (s_cache s) → loan_ok l →
  ∃ m, s' = set s_cache (λ _, m) s ∧ cache_ok m ∧
  ∀ l', r = inr l' → loan_ok l' ∧ dated (l_due l') ∧ time (l_from l) < time (l_due l') ∧ ∃ o, l' = refresh_loan l o.
Proof using Type.
  intros H HI Hl. unfold refreshed in H. apply bind_M in H as (m & t & [-> ->]%gets_Ok & H).
  destruct (cache_next (s_cache s) l) as [m ob] eqn:Ec.
  destruct (cache_next_ok _ _ _ _ HI Hl Ec) as [Hm Ho].
  apply bind_M in H as ([] & t & ->%modify_Ok & H). exists m.
  apply and_then_Ok in H as [(e & [-> _]%attempt_Ok & ->)|(o & t & [-> ->]%attempt_Ok & H)].
  { done. }
  apply ret_Ok in H as [-> ->]. split_and!; [done..|]. intros l' [= <-].
  destruct (Ho o eq_refl) as [Hd Hlt Hr Hi]. pose proof (lk_from l Hl) as Hf.
  assert (dated (o_due o)) as Hdue by (apply (dated_later (l_from l)); [done|done|lia]).
  destruct Hl. split_and!; [|done|done|by eexists].
  unfold refresh_loan. split; cbn; try done. by destruct (Sign (l_carried l) =? 0).
Qed.

Lemma refreshed_effect l s r s' :
  refreshed l s = Ok (r, s') → Inv s → loan_ok l →
  Inv s' ∧ purse s' = purse s ∧ s_loans s' = s_loans s ∧
  ∀ l', r = inr l' → loan_ok l' ∧ dated (l_due l') ∧ time (l_from l) < time (l_due l') ∧ ∃ o, l' = refresh_loan l o.
Proof using Type.
  intros H HI Hl. destruct (refreshed_cache _ _ _ _ H (iv_cache _ s HI) Hl) as (m & -> & Hm & Hr).
  split; [by apply cached_Inv|done].
Qed.

Lemma refresh_effect i s r s' :
  refresh i s = Ok (r, s') → Inv s →
  Inv s' ∧ purse s' = purse s ∧
  match r with
  | inl _ => s_loans s' = s_loans s
  | inr _ => ∃ l o, s_loans s !! i = Some l ∧ s_loans s' = <[i := refresh_loan l o]> (s_loans s) ∧
      time (l_from l) < time (o_due o) ∧ dated (o_due o)
  end.
Proof using Type.
  intros H HI. unfold refresh in H. apply bind_M in H as (l & t & [L ->]%loan_Ok & H).
  pose proof (Inv_loan _ _ _ _ HI L) as Hl.
  apply and_then_Ok in H as [(e & H & ->)|(l' & t & H1 & H)].
  { by destruct (refreshed_effect _ _ _ _ H HI Hl) as (? & ? & ? & _). }
  destruct (refreshed_effect _ _ _ _ H1 HI Hl) as (HI' & Hp & Hls & Hl').
  destruct (Hl' l' eq_refl) as (Hok & Hd & Hlt & o & ->). steps H. rewrite <- Hls in L.
  split_and!.
  - by apply (write_loan_Inv _ _ l).
  - by rewrite <- Hp.
  - rewrite Hls in L. exists l, o. split_and!; try done. cbn. rewrite Hls.
    exact (alter_insert (λ _, refresh_loan l o) _ _ _ L).
Qed.
End Cycles.
