(* ===== verification/Routing.v ===== *)
(** Cash with a destination: receiving it, paying it out of its bucket, and the
    allocation of the day.

    A bucket's balance is never in the pool, so the books count it apart; what
    [routeCash] pays a lender leaves its bucket and nothing else. *)
From S2P Require Import Prelude Money Dates Model Allocation Schedule Calendar Fees PlanBase PlanInput.
From S2P Require Import SimState Sim SimLogic Quotes Obligations Payments Books Cycles.

#[local] Arguments sum_by : simpl never.
#[local] Arguments owed : simpl never.
#[local] Arguments restricted : simpl never.

Definition bucket_ok (b : cashBucket) : Prop := held (b_remaining b) ∧ ticks (b_wake b) ∧ ticks (b_until b).

(** After a day's routing no bucket wakes that day. *)
Definition asleep (on : Date) (b : cashBucket) : Prop := Dates.IsZero (b_wake b) = true ∨ time on < time (b_wake b).

(** The dates after a day's routing: the due date of [dueLoan] may have moved. *)
Record routed (on : Date) (dueLoan : option nat) (s s' : sim) : Prop := {
  rt_fixed : fixed s' = fixed s;
  rt_pendings : pendings s' = pendings s;
  rt_length : length (s_cashBuckets s') = length (s_cashBuckets s);
  rt_loans : ∀ i l, s_loans s !! i = Some l → ∃ l', s_loans s' !! i = Some l' ∧
    (l_closed l = true → l_closed l' = true) ∧ time (l_from l) ≤ time (l_from l') ∧
    (same_due on l l' ∨ dueLoan = Some i ∧ dated (l_due l') ∧ (l_closed l' = false → time on < time (l_due l'))) }.

(** Routed money is spent from its bucket: the pool never falls, and outside an
    instalment neither does what the reserve leaves of it. *)
Record gains (dueLoan : option nat) (s s' : sim) : Prop := {
  ga_pool : minor (s_cash s) ≤ minor (s_cash s');
  ga_slack : dueLoan = None → slack s ≤ slack s' }.
#[export] Instance gains_preorder d : PreOrder (gains d).
Proof.
  split; [by split|]. intros s1 s2 s3 [P1 S1] [P2 S2]. split; [by etrans|]. intros Hd. etrans; [by apply S1|by apply S2].
Qed.

Section Routing.
Context (inp : Input) (Hinp : input_ok inp).
#[local] Abbreviation Inv := (Books.Inv inp).
#[local] Abbreviation Open := (Books.Open inp).
#[local] Abbreviation Sound := (Books.Sound inp).

(** ** Money moved *)

(** With the same loans and plan, the slack follows the pool. *)
Lemma slack_of_cash s t :
  s_loans t = s_loans s → s_in t = s_in s → s_cur t = s_cur s → s_nextIncome t = s_nextIncome s →
  s_incomeYM t = s_incomeYM s → slack t = slack s + (minor (s_cash t) - minor (s_cash s)).
Proof using Type.
  intros E1 E2 E3 E4 E5. unfold slack, reserve, floor_of, cash_plan. rewrite E1, E2, E3.
  rewrite (sum_by_ext (held_back t) (held_back s)) by (intros; by apply held_back_fixed). lia.
Qed.

(** The books after money moved between outside, pool and buckets. *)
Lemma money_Inv s c bs f :
  Inv s → 0 ≤ minor c → wf_amount c → wf_amount f → Forall bucket_ok bs →
  minor f - minor (s_inflow s) = (minor c - minor (s_cash s)) + (sum_by (λ b, minor (b_remaining b)) bs - restricted s) →
  Inv (s <| s_cash := c |> <| s_cashBuckets := bs |> <| s_inflow := f |>).
Proof using Type.
  intros [] Hc Hwc Hwf Hbs He. split; cbn; try done.
  - by destruct iv_stored.
  - unfold restricted in *. cbn. lia.
Qed.

Lemma sum_by_alter {A} (f : A → Z) (g : A → A) l i x :
  l !! i = Some x → sum_by f (alter g i l) = sum_by f l - f x + f (g x).
Proof using Type. intros L. by rewrite (alter_insert _ _ _ _ L), (sum_by_insert _ _ _ _ _ L). Qed.

Lemma Forall_alter_2 {A} (P : A → Prop) (g : A → A) l i x :
  l !! i = Some x → Forall P l → P (g x) → Forall P (alter g i l).
Proof using Type. intros L Hl Hg. rewrite (alter_insert _ _ _ _ L). by apply Forall_insert_2. Qed.

(** ** Receiving *)

Lemma merge_into_Some r part bs : ∀ i j, merge_into r part bs i = Some j → ∃ k b, j = (i + k)%nat ∧ bs !! k = Some b.
Proof using Type.
  induction bs as [|b bs IH]; intros i j H; simpl in H; [done|]. destruct (merges r part b).
  - injection H as <-. exists 0%nat, b. split; [lia|done].
  - apply IH in H as (k & b' & -> & L). exists (S k), b'. split; [lia|done].
Qed.

(** Buckets after some money was routed to them. *)
Definition filled (s : sim) (x : Z) (n : nat) (s' : sim) : Prop :=
  ∃ bs, s' = s <| s_cashBuckets := bs |> ∧ Forall bucket_ok bs ∧
    sum_by (λ b, minor (b_remaining b)) bs = restricted s + x ∧
    (length bs ≤ length (s_cashBuckets s) + n)%nat.

Lemma add_part_effect e r u part s u' s' :
  add_part e r u part s = Ok (u', s') → s_err s' = None → Forall bucket_ok (s_cashBuckets s) →
  held (SplitAmount part) → dated (CeOn e) → ticks (HoldUntil r) →
  filled s (minor (SplitAmount part)) 1 s'.
Proof using Type.
  intros H E Hbs Hp Hon Hr. unfold add_part in H. apply bind_M in H as (bs & t & [-> ->]%gets_Ok & H).
  destruct (merge_into r part (s_cashBuckets s) 0) as [i|] eqn:Em.
  - steps H. unstick E. pose proof (proj1 (Forall_lookup _ _) Hbs _ _ L) as (Hb & ? & ?).
    match goal with A : Add _ _ = Ok _ |- _ => pose proof (held_Add _ _ _ Hb Hp A) end. sums.
    eexists. split; [reflexivity|]. split_and!.
    + by eapply Forall_alter_2.
    + erewrite sum_by_alter by exact L. cbn. unfold restricted. lia.
    + rewrite length_alter. lia.
  - steps H. eexists. split; [reflexivity|]. split_and!.
    + apply Forall_app. split; [done|]. apply Forall_singleton. split_and!; [done|by right|done].
    + rewrite sum_by_app. unfold sum_by at 2, restricted. cbn [foldr]. cbn. lia.
    + rewrite length_app. simpl. lia.
Qed.

Lemma add_parts_effect e r parts : ∀ u s u' s',
  foldM (add_part e r) u parts s = Ok (u', s') → s_err s' = None → Forall bucket_ok (s_cashBuckets s) →
  Forall (λ p, held (SplitAmount p)) parts → dated (CeOn e) → ticks (HoldUntil r) →
  filled s (sum_by (λ p, minor (SplitAmount p)) parts) (length parts) s'.
Proof using Type.
  induction parts as [|p parts IH]; intros u s u' s' H E Hbs Hp Hon Hr; cbn [foldM] in H.
  { steps H. exists (s_cashBuckets s). split_and!; [by destruct s|done|unfold restricted, sum_by; cbn [foldr]; lia|lia]. }
  apply bind_M in H as ([] & t & H1 & H). apply Forall_cons in Hp as [Hp Hps].
  pose proof (sticks_foldM _ _ (λ b x, sticks_add_part _ _ b x) _ _ _ _ H E) as Et.
  destruct (add_part_effect _ _ _ _ _ _ _ H1 Et Hbs Hp Hon Hr) as (bs & -> & Hbs1 & Hsum & Hlen).
  destruct (IH _ _ _ _ H E Hbs1 Hps Hon Hr) as (bs' & -> & Hbs2 & Hsum' & Hlen').
  exists bs'. split_and!; [done|done| |].
  - rewrite Hsum'. unfold restricted at 1. cbn. rewrite Hsum. unfold sum_by. cbn [foldr]. lia.
  - cbn in *. lia.
Qed.

Definition parts_of (e : CashEvent) : nat :=
  match Routing e with Some r => length (route_parts e r) | None => 0 end.

Lemma addRouted_effect e s u s' :
  addRouted e s = Ok (u, s') → s_err s' = None → Forall bucket_ok (s_cashBuckets s) → event_ok e →
  filled s (minor (CeAmount e)) (parts_of e) s'.
Proof using Type.
  intros H E Hbs (Ha & Hon & Hr). unfold addRouted, parts_of in *. destruct (Routing e) as [r|]; [|done].
  destruct (Hr r eq_refl) as (Hp & Hsum & Hu). apply bind_M in H as ([] & t & H1 & H). steps H. cbn in E.
  destruct (add_parts_effect _ _ _ _ _ _ _ H1 E Hbs Hp Hon Hu) as (bs & -> & Hbs1 & Hs & Hl).
  exists (SliceStable bucket_less bs). pose proof (SliceStable_perm bucket_less bs) as Hperm.
  split_and!; [done|by rewrite Hperm| |by rewrite Hperm].
  by rewrite (sum_by_perm _ _ _ Hperm), Hs, Hsum.
Qed.

(** ** Paying out of a bucket *)

Lemma set_same_cash s : (s <| s_cash := s_cash s |>) = s.
Proof using Type. by destruct s. Qed.

(** The bucket's balance is lent to the pool only while the question is asked. *)
Lemma route_available_value j on s r s' b :
  route_available j on s = Ok (r, s') → s_err s' = None → Inv s → s_cashBuckets s !! j = Some b →
  s' = s ∧ wf_amount r ∧
  (0 < minor r → minor r ≤ slack s + minor (b_remaining b) ∧ (separate s = true → minor r ≤ minor (s_periodLeft s))).
Proof using Hinp.
  intros H E HI L. unfold route_available in H. steps H. cbn in E. unstick E. cbn in R0.
  assert (x = b) as -> by congruence.
  match goal with O : optionalCash on ?s1 = _ |- _ => pose proof (sticks_optionalCash _ _ _ _ O E) as E1; unstick E1 end.
  pose proof (proj1 (Forall_lookup _ _) (iv_buckets _ s HI) _ _ L) as (Hb & _).
  pose proof (iv_stored _ s HI) as Hst. pose proof (st_cash _ Hst) as Hc.
  assert (Sound (s <| s_cash := x1 |>)) as HS.
  { split_and!; [apply (iv_in _ s HI)| |apply (iv_loans _ s HI)]. apply Add_stored in R0 as (_ & ? & _); [|auto..]. by destruct Hst. }
  destruct (optionalCash_value _ Hinp _ _ _ _ R E HS) as (-> & Hw & Hv). clear R.
  apply Add_stored in R0 as (Hm & Hw1 & Hcur & _); [|auto..]. cbn in R2.
  apply Sub_stored in R2 as (Hm2 & _ & Hcur2 & _); [|auto..].
  assert (x4 = s_cash s) as -> by (apply Amount_eq; [lia|congruence]).
  split; [by destruct s|]. split; [done|]. intros Hpos. destruct (Hv Hpos) as [Hle Hleft]. split; [|exact Hleft].
  rewrite (slack_of_cash s) in Hle by done. cbn in Hle. lia.
Qed.

(** ** What routing leaves *)

#[export] Instance routed_preorder on d : PreOrder (routed on d).
Proof using Type.
  split.
  - intros s. split; [done..|]. intros i l L. exists l. split_and!; [done|done|lia|by left].
  - intros s1 s2 s3 [F1 P1 N1 L1] [F2 P2 N2 L2]. split; [congruence..|]. intros i l L.
    destruct (L1 i l L) as (l2 & La & Hc2 & Hf2 & Hd2). destruct (L2 i l2 La) as (l3 & Lb & Hc3 & Hf3 & Hd3).
    exists l3. split_and!; [done|auto|lia|].
    destruct Hd3 as [Hs3|]; [|by right]. destruct Hd2 as [Hs2|(-> & Hdd & Hlt)]; [left; by etrans|right].
    split_and!; [done|by rewrite (du_due _ _ _ Hs3)|]. intros Hc. rewrite (du_due _ _ _ Hs3). apply Hlt.
    destruct (l_closed l2) eqn:E; [|done]. by rewrite Hc3 in Hc.
Qed.

Lemma pays_routed on d s s' :
  pays on s s' → length (s_cashBuckets s') = length (s_cashBuckets s) → routed on d s s'.
Proof using Type.
  intros [[Hf Hd] Hp] Hn. split; [done..|]. intros i l L. destruct (Forall2_lookup_l _ _ _ _ _ Hd L) as (l' & L' & Hs).
  exists l'. split_and!; [done|apply (du_closed _ _ _ Hs)|apply (du_from _ _ _ Hs)|by left].
Qed.

(** A step that routes bucket [j] and touches no other. *)
Record touches (on : Date) (d : option nat) (j : nat) (s s' : sim) : Prop := {
  to_open : Open s';
  to_routed : routed on d s s';
  to_gains : gains d s s';
  to_others : ∀ k, k ≠ j → s_cashBuckets s' !! k = s_cashBuckets s !! k }.

Lemma touches_refl on d j s : Open s → touches on d j s s.
Proof using Type. split; done. Qed.

Lemma touches_trans on d j s1 s2 s3 : touches on d j s1 s2 → touches on d j s2 s3 → touches on d j s1 s3.
Proof using Type.
  intros [H1 R1 S1 O1] [H2 R2 S2 O2]. split; [done|by etrans|by etrans|].
  intros k Hk. by rewrite O2, O1.
Qed.

(** The due loan is told its next obligation. *)
Lemma refresh_routed i on s s' u l :
  refresh i s = Ok (inr u, s') → Open s → s_loans s !! i = Some l → time on ≤ time (l_from l) → l_closed l = false →
  Open s' ∧ routed on (Some i) s s' ∧ gains (Some i) s s' ∧ s_cashBuckets s' = s_cashBuckets s.
Proof using Type.
  intros H [HI Hc] L Hon Hcl. destruct (refresh_effect _ _ _ _ _ H HI) as (HI' & Hp & l0 & o & L0 & Hls & Hlt & Hd).
  assert (l0 = l) as -> by congruence. apply purse_same in Hp as (Hf & Hb & Hcash & _).
  destruct (fixed_same _ _ Hf) as (_ & (_ & Ecyc & _) & _).
  split_and!; [by split; [|rewrite Ecyc]| |split; [by rewrite Hcash|done]|done]. split; [done| |by rewrite Hb|].
  - unfold pendings. rewrite Hls. by apply (pendings_insert _ _ _ _ L).
  - intros k lk Lk. rewrite Hls. destruct (decide (k = i)) as [->|Hne].
    + assert (lk = l) as -> by congruence. exists (refresh_loan l o).
      split_and!; [by apply list_lookup_insert_eq, (lookup_lt_Some _ _ _ L)|done|cbn; lia|right].
      split_and!; [done|done|]. intros _. cbn. lia.
    + exists lk. rewrite list_lookup_insert_ne by done. split_and!; [done|done|lia|by left].
Qed.

(** ** One bucket *)

Lemma routed_fixed on d s s' : routed on d s s' → separate s' = separate s ∧ s_cycle s' = s_cycle s ∧ s_pol s' = s_pol s.
Proof using Type.
  intros [((E1 & E2 & _) & (_ & E3 & _) & _)%fixed_same _ _ _]. unfold separate, cash_plan. by rewrite E1.
Qed.

(** Money of a bucket is put in the pool for the payment. *)
Lemma lend_Open j b x s :
  Open s → s_cashBuckets s !! j = Some b → 0 ≤ minor x ≤ minor (b_remaining b) →
  ∀ v c, Sub (b_remaining b) x = Ok v → Add (s_cash s) x = Ok c →
  let s' := s <| s_cashBuckets := alter (set b_remaining (λ _, v)) j (s_cashBuckets s) |> <| s_cash := c |> in
  Open s' ∧ slack s' = slack s + minor x ∧ minor (s_cash s') = minor (s_cash s) + minor x.
Proof using Type.
  intros [HI Hc] L Hx v c Hv Hcash. pose proof (iv_stored _ s HI) as Hst. pose proof (st_cash _ Hst).
  pose proof (proj1 (Forall_lookup _ _) (iv_buckets _ s HI) _ _ L) as (Hb & Hw & Hu). pose proof (iv_cash _ s HI).
  assert (wf_amount x) by (apply held_wf; destruct Hb; split; lia). sums.
  split_and!; [split; [|done]| |cbn; lia].
  - apply (money_Inv s c (alter (set b_remaining (λ _, v)) j (s_cashBuckets s)) (s_inflow s)); [done|lia|done|apply Hst| |].
    + eapply Forall_alter_2; [done|apply HI|]. split; [|done]. cbn. destruct Hb. split; lia.
    + erewrite sum_by_alter by exact L. cbn. unfold restricted. lia.
  - rewrite (slack_of_cash s) by done. cbn. lia.
Qed.

Lemma route_pay_effect j i on early d q s halt s' b l avail :
  route_pay j i on early d q s = Ok (halt, s') → s_err s' = None → Open s → dated on →
  s_cashBuckets s !! j = Some b → s_loans s !! i = Some l → loan_ok l → reached on l →
  quote_ok l avail q → held avail → 0 < minor (Outflow q) → minor (Outflow q) ≤ minor (b_remaining b) →
  (separate s = true → minor (Outflow q) ≤ minor (s_periodLeft s)) →
  halt = false ∧ Open s' ∧ routed on d s s' ∧ gains d s s' ∧
  ∃ v, s_cashBuckets s' = alter (set b_remaining (λ _, v)) j (s_cashBuckets s).
Proof using Hinp.
  intros H E HO Hon Lb L Hl Hr Q Ha Hpos Hrem Hleft. unfold route_pay in H. steps H.
  assert (x = b) as -> by congruence. rename t0 into s2. rename R0 into Hpre.
  assert (s_err s2 = None) as E2.
  { case_if_in H; [|by steps H]. apply bind_M in H as (r & t9 & Hrf & H).
    assert (s_err t9 = None) as E9 by (destruct r; [apply bind_M in H as ([] & ? & ->%modify_Ok & H)|]; by steps H).
    by apply (sticks_refresh _ _ _ _ Hrf). }
  pose proof (sticks_prepay _ _ _ _ _ _ _ Hpre E2) as E1. cbn in E1. unstick E1.
  match goal with A : Add _ _ = Ok _, S : Sub _ _ = Ok _ |- _ => cbn in A;
    pose proof (lend_Open j b (Outflow q) s HO Lb ltac:(lia) _ _ S A) as (HO1 & Hs1 & Hc1) end.
  match type of Hpre with prepay _ _ _ _ ?t = _ => set (s1 := t) in * end.
  change (_ <| s_cash := x3 |>) with s1 in HO1, Hs1, Hc1.
  pose proof (iv_cash _ s (proj1 HO)).
  destruct (prepay_Open _ _ _ _ _ _ _ _ _ _ Hpre E2 HO1 L Hl Hr Q Ha) as (HO2 & Hsl & Hb2 & Hp2 & Hpool & _ & l' & L' & Hc' & Hf'); [lia|done|].
  assert (routed on d s s2) as Hrt.
  { apply pays_routed; [|rewrite Hb2; cbn; apply length_alter]. etrans; [|exact Hp2].
    split; [split; [done|]|done]. cbn. reflexivity. }
  assert (s_cashBuckets s2 = alter (set b_remaining (λ _, x0)) j (s_cashBuckets s)) as Hbk by (rewrite Hb2; done).
  assert (x5 = l') as -> by congruence.
  destruct (bool_decide (d = Some i) && negb (l_closed l')) eqn:Ed; cycle 1.
  { steps H. split_and!; [done..|split; lia|by exists x0]. }
  apply andb_true_iff in Ed as [->%bool_decide_eq_true Hopen%negb_true_iff].
  apply bind_M in H as (r & t9 & Hrf & H). destruct r as [e|[]]; [apply bind_M in H as ([] & ? & ->%modify_Ok & H); by steps H|].
  steps H. rewrite Hopen in Hc'. symmetry in Hc'. apply orb_false_iff in Hc' as [_ Hc'].
  assert (time on ≤ time (l_from l')) as Hfr.
  { rewrite Hf'. destruct Hr as [|Hz]; [done|]. pose proof (qk_moves _ _ _ Q Hc' Hpos).
    pose proof (qk_principal _ _ _ Q). lia. }
  destruct (refresh_routed i on s2 _ _ l' Hrf HO2 L' Hfr Hopen) as (HO3 & Hrt3 & Hg3 & Hb3).
  split_and!; [done|done|by etrans| |exists x0; by rewrite Hb3].
  etrans; [|exact Hg3]. split; [lia|done].
Qed.

Lemma raise_stops {A} e (m : M A) s a s' : sticks m → (raise e ≫= λ _, m) s = Ok (a, s') → s_err s' = None → False.
Proof using Type. intros Hm ([] & t & ->%modify_Ok & H)%bind_M E. by apply (Hm _ _ _ H) in E. Qed.

Lemma route_loan_effect j i on early d s halt s' b :
  route_loan j i on early d s = Ok (halt, s') → s_err s' = None → Open s → dated on →
  s_cashBuckets s !! j = Some b →
  halt = false ∧ Open s' ∧ routed on d s s' ∧ gains d s s' ∧
  ∃ v, s_cashBuckets s' = alter (set b_remaining (λ _, v)) j (s_cashBuckets s).
Proof using Hinp.
  intros H E HO Hon Lb. unfold route_loan in H.
  assert (∃ v, s_cashBuckets s = alter (set b_remaining (λ _, v)) j (s_cashBuckets s)) as Hsame.
  { exists (b_remaining b). rewrite (alter_insert _ _ _ _ Lb), list_insert_id; [done|]. by destruct b. }
  apply bind_M in H as (a & t & Hav & H). apply bind_M in H as (bad & t0 & [-> ->]%failed_Ok & H).
  destruct (s_err t) eqn:Et; [steps H; congruence|].
  destruct (route_available_value _ _ _ _ _ _ Hav Et (proj1 HO) Lb) as (-> & Hw & Hval).
  apply bind_M in H as (b' & t0 & [Lb' ->]%bucket_Ok & H). assert (b' = b) as -> by congruence. clear Lb'.
  apply bind_M in H as (over & t0 & [Hcmp ->]%total_Ok & H). apply Cmp_le in Hcmp as [Hover _]. cbv zeta in H.
  pose proof (proj1 (Forall_lookup _ _) (iv_buckets _ s (proj1 HO)) _ _ Lb) as (Hb & _).
  set (v := if 0 <? over then b_remaining b else a) in *.
  assert (minor v ≤ minor (b_remaining b) ∧ minor v ≤ minor a ∧ wf_amount v) as (Hv1 & Hv2 & Hv3).
  { subst v. rewrite Hover. destruct (Z.ltb_spec (minor (b_remaining b)) (minor a)); split_and!; auto; lia. }
  rewrite Sign_nonpos_iff in H. destruct (Z.leb_spec (minor v) 0) as [|Hpos]; [steps H; by split_and!|].
  apply bind_M in H as (r & t & Hq & H).
  assert (held v) as Hheld by (unfold held; unfold_i64; lia).
  destruct (quote_effect _ _ _ _ _ _ _ Hq (proj1 HO) Hon Hheld) as (HI & Hg & Hp & Hquote).
  destruct r as [e|q]; [exfalso; by eapply raise_stops; [apply sticks_ret|..]|].
  apply gauges_same in Hg as (Hf & Hbk & Hc & Hl & Hsl).
  pose proof (pays_routed on d s t Hp ltac:(by rewrite Hbk)) as Hrt.
  destruct (routed_fixed _ _ _ _ Hrt) as (Esep & Ecyc & _).
  assert (Open t) as HO' by (split; [done|]; rewrite Ecyc; apply HO).
  assert (halt = false → s' = t → halt = false ∧ Open s' ∧ routed on d s s' ∧ gains d s s' ∧
    ∃ v, s_cashBuckets s' = alter (set b_remaining (λ _, v)) j (s_cashBuckets s)) as Hskip.
  { intros -> ->. split_and!; [done..|by split; rewrite ?Hsl, ?Hc|by rewrite Hbk]. }
  destruct (Z.leb_spec (Sign (Outflow q)) 0) as [|Hout]; [apply ret_Ok in H as [-> ->]; by apply Hskip|].
  assert (0 < minor (Outflow q)) as Hout' by (revert Hout; unfold Sign; repeat case_match; lia).
  apply bind_M in H as (w & t' & Hb' & H). apply batched_same in Hb' as ->.
  destruct w; [apply ret_Ok in H as [-> ->]; by apply Hskip|].
  destruct (Hquote q eq_refl) as (l1 & L1 & Hl1 & Hr1 & Q). pose proof (qk_fits _ _ _ Q).
  destruct (Hval ltac:(lia)) as [_ Hleft].
  destruct (route_pay_effect _ _ _ _ _ _ _ _ _ b l1 v H E HO' Hon) as (-> & HO2 & Hrt2 & Hs2 & x & Hb2);
    [by rewrite Hbk|done..|lia|rewrite Esep, Hl; intros Es; specialize (Hleft Es); lia|].
  split_and!; [done|done|by etrans| |]. { by destruct Hs2; split; rewrite <- ?Hsl, <- ?Hc. }
  exists x. by rewrite Hb2, Hbk.
Qed.

(** ** All of them *)

Lemma asleep_remaining on b v : asleep on b → asleep on (set b_remaining (λ _, v) b).
Proof using Type. done. Qed.

Lemma alter_others {A} (f : A → A) (j : nat) (l : list A) : ∀ k : nat, k ≠ j → alter f j l !! k = l !! k.
Proof using Type. intros k Hk. by rewrite list_lookup_alter_ne. Qed.

(** A write to bucket [j] that leaves its balance. *)
Lemma write_bucket s j b g on d :
  Open s → s_cashBuckets s !! j = Some b → b_remaining (g b) = b_remaining b → bucket_ok (g b) →
  touches on d j s (set s_cashBuckets (alter g j) s).
Proof using Type.
  intros [HI Hc] L Hr Hb. split; [split; [|done]| |done|cbn; apply alter_others].
  - pose proof (iv_stored _ s HI) as Hst.
    refine (money_Inv s (s_cash s) (alter g j (s_cashBuckets s)) (s_inflow s) HI _ _ _ _ _);
      [apply HI|apply Hst|apply Hst| |].
    + eapply Forall_alter_2; [done|apply HI|done].
    + rewrite (sum_by_alter _ _ _ _ _ L), Hr. unfold restricted. lia.
  - apply pays_routed; [|cbn; apply length_alter]. split; [split; [done|]|done]. cbn. reflexivity.
Qed.

(** The balance of a general bucket joins the pool. *)
Lemma pool_bucket s j b c z :
  Open s → s_cashBuckets s !! j = Some b → Add (s_cash s) (b_remaining b) = Ok c → 0 ≤ minor (b_remaining b) →
  let s' := s <| s_cash := c |> <| s_cashBuckets := alter (set b_remaining (λ _, Zero z)) j (s_cashBuckets s) |> in
  Open s' ∧ ∀ on d, routed on d s s' ∧ gains d s s'.
Proof using Type.
  intros [HI Hc] L Hadd Hb0. cbv zeta. pose proof (iv_stored _ s HI) as Hst. pose proof (iv_cash _ s HI).
  pose proof (proj1 (Forall_lookup _ _) (iv_buckets _ s HI) _ _ L) as (Hb & Hw & Hu).
  apply Add_stored in Hadd as (Hm & Hwc & _); [|apply Hst|auto]. split; [|intros on d; split].
  - split; [|done].
    apply (money_Inv s c (alter (set b_remaining (λ _, Zero z)) j (s_cashBuckets s)) (s_inflow s));
      [done|lia|done|apply Hst| |].
    + eapply Forall_alter_2; [done|apply HI|]. by split; [apply held_zero|].
    + pose proof (sum_by_alter (λ b, minor (b_remaining b)) (set b_remaining (λ _, Zero z)) _ _ _ L) as ->.
      unfold restricted. cbn. lia.
  - apply pays_routed; [|cbn; apply length_alter]. split; [split; [done|]|done]. cbn. reflexivity.
  - split; [cbn; lia|intros _]. match goal with |- _ ≤ slack ?t => rewrite (slack_of_cash s t) by done end. cbn. lia.
Qed.

Lemma route_released_effect j on d s halt s' b :
  route_released j on d s = Ok (halt, s') → s_err s' = None → Open s → dated on →
  s_cashBuckets s !! j = Some b →
  halt = false ∧ Open s' ∧ routed on d s s' ∧ gains d s s' ∧
  ∃ v, s_cashBuckets s' = alter (set b_remaining (λ _, v)) j (s_cashBuckets s).
Proof using Hinp.
  intros H E HO Hon Lb. unfold route_released in H.
  assert (∃ v, s_cashBuckets s = alter (set b_remaining (λ _, v)) j (s_cashBuckets s)) as Hsame.
  { exists (b_remaining b). rewrite (alter_insert _ _ _ _ Lb), list_insert_id; [done|]. by destruct b. }
  apply bind_M in H as (b' & t0 & [Lb' ->]%bucket_Ok & H). assert (b' = b) as -> by congruence. clear Lb'.
  destruct (String.eqb (b_target b) "").
  - steps H. cbn in E. unstick E.
    match goal with A : Add _ _ = Ok ?v |- _ => destruct (pool_bucket s j b v (s_cur s) HO Lb A) as (? & Hpool) end.
    { by destruct (proj1 (Forall_lookup _ _) (iv_buckets _ s (proj1 HO)) _ _ Lb) as ([? _] & _). }
    split_and!; [done|done|apply Hpool|apply Hpool, on|by eexists].
  - apply bind_M in H as (o & t0 & [-> ->]%gets_Ok & H).
    destruct (RequiredOnly (s_pol s)); [steps H; by split_and!|].
    apply bind_M in H as (o & t0 & [-> ->]%gets_Ok & H).
    destruct (route_target s b on d) as [[i early]|]; [|steps H; by split_and!].
    by eapply route_loan_effect.
Qed.

Lemma ticks_after d on : ticks d → dated on → After d on = true → time on < time d.
Proof using Type.
  intros [Hz|Hd] [Hv Hm]; [|by rewrite After_time, Z.ltb_lt by auto].
  apply bool_decide_eq_true in Hz as ->. unfold After, Compare, month_of, month_index in *. destruct Hv as [Hm2 Hd2]. simpl.
  rewrite Z.ltb_lt. repeat case_match; rewrite ?negb_true_iff, ?negb_false_iff, ?Z.eqb_eq, ?Z.eqb_neq, ?Z.ltb_lt, ?Z.ltb_ge in *; lia.
Qed.

Lemma Before_zero d on : dated on → Dates.IsZero d = true → Before on d = false.
Proof using Type.
  intros [[Hm2 Hd2] Hm] Hz. apply bool_decide_eq_true in Hz as ->. unfold Before, Compare, month_of, month_index in *. simpl.
  rewrite Z.ltb_ge. repeat case_match; rewrite ?negb_true_iff, ?negb_false_iff, ?Z.eqb_eq, ?Z.eqb_neq, ?Z.ltb_lt, ?Z.ltb_ge in *; lia.
Qed.

Lemma After_zero d on : dated on → Dates.IsZero d = true → After d on = false.
Proof using Type.
  intros [[Hm2 Hd2] Hm] Hz. apply bool_decide_eq_true in Hz as ->. unfold After, Compare, month_of, month_index in *. simpl.
  rewrite Z.ltb_ge. repeat case_match; rewrite ?negb_true_iff, ?negb_false_iff, ?Z.eqb_eq, ?Z.eqb_neq, ?Z.ltb_lt, ?Z.ltb_ge in *; lia.
Qed.

Lemma when_bucket_written {E} (field : cashBucket → E) `{!Setter field} (c : bool) v j s u s' b on d :
  when c (assign_bucket j field v) s = Ok (u, s') → Open s → s_cashBuckets s !! j = Some b →
  b_remaining (set field (λ _, v) b) = b_remaining b → (c = true → bucket_ok (set field (λ _, v) b)) →
  touches on d j s s' ∧ s_cashBuckets s' !! j = Some (if c then set field (λ _, v) b else b).
Proof using Type.
  rewrite when_Ok. intros H HO L Hr Hb. destruct c; [|subst s'; split; [by apply touches_refl|done]].
  steps H. split; [by eapply write_bucket; auto|]. cbn. by rewrite list_lookup_alter_eq, L.
Qed.

Lemma route_bucket_effect j on d s halt s' :
  route_bucket j on d s = Ok (halt, s') → s_err s' = None → Open s → dated on →
  halt = false ∧ touches on d j s s' ∧ ∀ b, s_cashBuckets s' !! j = Some b → asleep on b.
Proof using Hinp.
  intros H E HO Hon. unfold route_bucket in H. apply bind_M in H as (b & t0 & [Lb ->]%bucket_Ok & H).
  pose proof (proj1 (Forall_lookup _ _) (iv_buckets _ s (proj1 HO)) _ _ Lb) as (Hb & Hw & Hu).
  apply bind_M in H as ([] & t & Hwake & H).
  eapply (when_bucket_written _ _ _ _ _ _ _ b on d) in Hwake as [Ht Lt]; [|done..|by intros; split_and!; [done|by left|done]].
  set (b1 := if negb _ && _ then _ else b) in *.
  assert (asleep on b1 ∧ b_remaining b1 = b_remaining b ∧ b_until b1 = b_until b ∧ b_released b1 = b_released b ∧
    bucket_ok b1) as (Ha & Er & Eu & El & Hok).
  { subst b1. unfold asleep, bucket_ok. destruct (Dates.IsZero (b_wake b)) eqn:Ez; cbn [negb andb];
      [split_and!; by auto|]. destruct (After (b_wake b) on) eqn:Ea; cbn [negb].
    - split_and!; try done. right. by apply ticks_after.
    - split_and!; try done; by left. }
  assert (∀ h, (mret h : M bool) t = Ok (halt, s') → halt = h ∧ touches on d j s s' ∧ ∀ b, s_cashBuckets s' !! j = Some b → asleep on b) as Hstay.
  { intros h [-> ->]%ret_Ok. split_and!; [done..|]. intros b' L'. by assert (b' = b1) as -> by congruence. }
  destruct (Sign (b_remaining b) <=? 0); [by apply Hstay|]. destruct (Before on (b_until b)) eqn:Ebef.
  { steps H. split_and!; [done|eapply touches_trans; [exact Ht|]|].
    - eapply write_bucket; [apply Ht|exact Lt|done|]. destruct Hok as (? & ? & ?). by split_and!.
    - cbn. rewrite list_lookup_alter_eq, Lt. intros b' [= <-]. right. cbn. destruct Hu as [Hz|Hd].
      + by rewrite Before_zero in Ebef.
      + by rewrite Before_time, Z.ltb_lt in Ebef by auto. }
  destruct (negb (b_released b) && _); [by apply Hstay|].
  apply bind_M in H as ([] & t2 & Hrel & H).
  eapply (when_bucket_written _ _ _ _ _ _ _ b1 on d) in Hrel as [Ht2 Lt2]; [|apply Ht|done|done|done].
  set (b2 := if _ : bool then _ else b1) in *.
  assert (asleep on b2) as Ha2 by (subst b2; by case_match).
  destruct (route_released_effect _ _ _ _ _ _ b2 H E (to_open _ _ _ _ _ Ht2) Hon Lt2) as (-> & HO3 & Hr3 & Hs3 & v & Hb3).
  split; [done|]. split.
  - eapply touches_trans; [exact Ht|]. eapply touches_trans; [exact Ht2|]. split; [done..|].
    rewrite Hb3. apply alter_others.
  - rewrite Hb3, list_lookup_alter_eq, Lt2. intros b' [= <-]. done.
Qed.

Lemma route_from_effect on d : ∀ js s u s',
  route_from js on d s = Ok (u, s') → s_err s' = None → Open s → dated on → NoDup js →
  Open s' ∧ routed on d s s' ∧ gains d s s' ∧
  (∀ k, k ∉ js → s_cashBuckets s' !! k = s_cashBuckets s !! k) ∧
  ∀ k b, k ∈ js → s_cashBuckets s' !! k = Some b → asleep on b.
Proof using Hinp.
  induction js as [|j js IH]; intros s u s' H E HO Hon Hnd; cbn [route_from] in H.
  { steps H. split_and!; try done. by intros ?? ?%elem_of_nil. }
  apply NoDup_cons in Hnd as [Hj Hnd]. apply bind_M in H as (halt & t & Hr & H).
  assert (s_err t = None) as Et by (destruct halt; [by steps H|by apply (sticks_route_from _ _ _ _ _ _ H)]).
  destruct (route_bucket_effect _ _ _ _ _ _ Hr Et HO Hon) as (-> & [HO1 R1 S1 O1] & Ha).
  destruct (IH _ _ _ H E HO1 Hon Hnd) as (HO2 & R2 & S2 & O2 & A2).
  split_and!; [done|by etrans|by etrans| |].
  - intros k Hk. apply not_elem_of_cons in Hk as [Hk Hks]. by rewrite O2, O1.
  - intros k b Hk L. destruct (decide (k ∈ js)); [by eapply A2|]. apply elem_of_cons in Hk as [->|]; [|done].
    rewrite O2 in L by done. by apply Ha.
Qed.

(** Routing keeps the books, never lowers what the reserve leaves, and every
    bucket sleeps after it. *)
Lemma routeCash_effect on d s u s' :
  routeCash on d s = Ok (u, s') → s_err s' = None → Open s → dated on →
  Open s' ∧ routed on d s s' ∧ gains d s s' ∧ Forall (asleep on) (s_cashBuckets s').
Proof using Hinp.
  intros H E HO Hon. unfold routeCash in H. apply bind_M in H as (bad & t & [-> ->]%failed_Ok & H).
  destruct (s_err s) eqn:Es; [steps H; congruence|]. apply bind_M in H as (n & t & [-> ->]%gets_Ok & H).
  destruct (route_from_effect _ _ _ _ _ _ H E HO Hon ltac:(apply NoDup_seq)) as (HO' & R & S & _ & A).
  split_and!; try done. apply Forall_lookup. intros k b L. eapply A; [|done]. apply elem_of_seq.
  rewrite <- (rt_length _ _ _ _ R). apply lookup_lt_Some in L. lia.
Qed.

(** ** The allocation of a day *)

Lemma allocate_effect on s u s' :
  allocate on s = Ok (u, s') → s_err s' = None → Open s → dated on →
  Open s' ∧ spends on s s' ∧ Forall (asleep on) (s_cashBuckets s') ∧
  length (s_cashBuckets s') = length (s_cashBuckets s) ∧
  (0 ≤ slack s ∨ minor (s_cash s') < minor (s_cash s) → 0 ≤ slack s').
Proof using Hinp.
  intros H E HO Hon. unfold allocate in H. apply bind_M in H as ([] & t & Hr & H).
  assert (s_err t = None) as Et.
  { apply bind_M in H as (o & t1 & [-> ->]%gets_Ok & H). destruct (RequiredOnly (s_pol t)); [by steps H|].
    apply bind_M in H as (sp & t1 & Ho & H). apply bind_M in H as (bad & t2 & [-> ->]%failed_Ok & H).
    apply bind_M in H as (or & t2 & [-> ->]%gets_Ok & H). cbn in H.
    destruct (s_err t1) eqn:E1; cbn [orb] in H; [steps H; congruence|]. by apply (sticks_optionalCash _ _ _ _ Ho). }
  destruct (routeCash_effect _ _ _ _ _ Hr Et HO Hon) as (HO1 & R1 & S1 & A1).
  destruct S1 as [Hpool S1]. specialize (S1 eq_refl). pose proof R1 as [Hf _ Hlen Hl].
  assert (spends on s t) as Hsp.
  { split; [done|]. apply Forall2_same_length_lookup. split.
    - pose proof (iv_positions _ _ (proj1 HO)) as P1. pose proof (iv_positions _ _ (proj1 HO1)) as P2.
      apply (f_equal length) in P1, P2. rewrite length_fmap in P1, P2. congruence.
    - intros i l l' L L'. destruct (Hl i l L) as (l2 & L2 & _ & _ & [Hs|(? & _)]); [|done]. congruence. }
  assert (∀ t', t' = t → Open t' ∧ spends on s t' ∧ Forall (asleep on) (s_cashBuckets t') ∧
    length (s_cashBuckets t') = length (s_cashBuckets s) ∧
    (0 ≤ slack s ∨ minor (s_cash t') < minor (s_cash s) → 0 ≤ slack t')) as Hstop.
  { intros ? ->. split_and!; try done. lia. }
  apply bind_M in H as (o & t1 & [-> ->]%gets_Ok & H). destruct (RequiredOnly (s_pol t)); [steps H; by apply Hstop|].
  apply bind_M in H as (sp & t1 & Ho & H). apply bind_M in H as (bad & t2 & [-> ->]%failed_Ok & H).
  apply bind_M in H as (or & t2 & [-> ->]%gets_Ok & H). cbv beta in H.
  destruct (s_err t1) eqn:E1; cbn [orb] in H; [steps H; congruence|].
  destruct (optionalCash_value _ Hinp _ _ _ _ Ho E1 (Inv_Sound _ _ (proj1 HO1))) as (-> & Hw & Hv).
  destruct (Sign sp <=? 0) eqn:Esp; cbn [orb] in H; [steps H; by apply Hstop|].
  rewrite Sign_nonpos_iff, Z.leb_gt in Esp. destruct (Hv Esp) as [Hroom _].
  destruct (allocate_from_Open _ Hinp _ _ _ _ _ _ H E HO1 Hon Hw Hv) as (HO2 & Hsp2 & Hb2 & Hs2).
  split_and!; [done|by etrans|by rewrite Hb2|by rewrite Hb2|]. intros _. apply Hs2. lia.
Qed.
End Routing.
