(* ===== verification/Events.v ===== *)
(** The events of a simulation: income, a receipt, a routed wake, an
    instalment, the turn of a spending period. Each keeps the books. *)
From S2P Require Import Prelude Money Dates Model Allocation Schedule Calendar Fees PlanBase PlanInput.
From S2P Require Import SimState Sim SimLogic Quotes Obligations Payments Books Cycles Routing.

#[local] Arguments sum_by : simpl never.
#[local] Arguments owed : simpl never.
#[local] Arguments restricted : simpl never.

(** What an event leaves of what is still to happen. *)
Record calm (on : Date) (s s' : sim) : Prop := {
  ca_in : s_in s' = s_in s;
  ca_pol : s_pol s' = s_pol s;
  ca_period : s_nextPeriod s' = s_nextPeriod s;
  ca_lumps : s_lumps s' = s_lumps s;
  ca_loans : Forall2 (same_due on) (s_loans s) (s_loans s');
  ca_buckets : length (s_cashBuckets s') = length (s_cashBuckets s) }.
#[export] Instance calm_preorder on : PreOrder (calm on).
Proof.
  split; [intros s; by split|]. intros s1 s2 s3 [] []. split; try congruence. by etrans.
Qed.

Definition incomes (s : sim) := (s_nextIncome s, s_incomeYM s).

(** What is still to happen but for the loans and the buckets. *)
Definition agenda (s : sim) := (s_in s, s_nextPeriod s, incomes s, s_lumps s).

Lemma fixed_agenda s s' : fixed s' = fixed s → agenda s' = agenda s.
Proof. intros ((? & _) & (_ & _ & _ & ? & ? & ? & _ & ? & _) & _)%fixed_same. unfold agenda, incomes. congruence. Qed.
Lemma clocks_agenda s s' : clocks s' = clocks s → agenda s' = agenda s.
Proof. unfold clocks, agenda, incomes. congruence. Qed.

Lemma spends_calm on s s' :
  spends on s s' → length (s_cashBuckets s') = length (s_cashBuckets s) → calm on s s' ∧ incomes s' = incomes s.
Proof.
  intros [Hf Hd] Hn. pose proof (fixed_same _ _ Hf) as ((? & ? & _) & (_ & _ & _ & ? & ? & ? & _ & ? & _) & _).
  split; [by split|]. unfold incomes. congruence.
Qed.

Lemma clocks_calm on s s' : clocks s' = clocks s → calm on s s' ∧ incomes s' = incomes s.
Proof.
  unfold clocks, incomes. intros [=]. split; [|congruence]. split; try done.
  - apply Forall2_same_length_lookup.
    match goal with H : _ <$> s_loans s' = _ |- _ => rename H into Hl end. split.
    + apply (f_equal length) in Hl. by rewrite !length_fmap in Hl.
    + intros i l l' L L'. apply (f_equal (.!! i)) in Hl. rewrite !list_lookup_fmap, L, L' in Hl.
      unfold dates_of in Hl. cbn in Hl. injection Hl as ??? Ef ? Eb.
      split; congruence || (rewrite Ef; lia) || by rewrite Eb.
  - match goal with H : _ <$> s_cashBuckets s' = _ |- _ => apply (f_equal length) in H; by rewrite !length_fmap in H end.
Qed.

Section Events.
Context (inp : Input) (Hinp : input_ok inp).
#[local] Abbreviation Inv := (Books.Inv inp).
#[local] Abbreviation Open := (Books.Open inp).

(** ** Income *)

Lemma credit_held s on : Inv s → held (credit s on).
Proof using Hinp.
  intros HI. unfold credit, cash_plan. rewrite (iv_in _ s HI). cbv zeta.
  destruct (MonthlyOverrides (Cash inp) !! _) as [v|] eqn:E; [by apply (in_overrides inp Hinp _ _ E)|].
  destruct (separate s); [apply Hinp|apply (iv_stored _ s HI)].
Qed.

Lemma next_pay_day on day : dated on → dated (OnDayOfMonth (AddMonths on 1) day) ∧
  time on < time (OnDayOfMonth (AddMonths on 1) day).
Proof using Type.
  intros [Hv Hm]. pose proof Hv as [Hmo [Hd _]]. destruct (AddMonths_facts on 1 Hd ltac:(lia)) as (Hv1 & E1 & _).
  destruct (OnDayOfMonth_facts (AddMonths on 1) day (proj1 Hv1)) as (Hv2 & E2 & _).
  split; [split; [done|lia]|]. apply month_of_lt_time; [done|done|lia].
Qed.

Definition pays_in (s : sim) (on : Date) : Date :=
  if PayDay (cash_plan s) =? 0 then zero_date else OnDayOfMonth (AddMonths on 1) (PayDay (cash_plan s)).

(** The money of the month arrives. *)
Lemma credit_Open s on c f next nominal n :
  Open s → Add (s_cash s) (credit s on) = Ok c → Add (s_inflow s) (credit s on) = Ok f →
  ticks next → ticks nominal →
  Open (s <| s_cash := c |> <| s_inflow := f |> <| s_nominalIncome := nominal |> <| s_nextIncome := next |> <| s_incomeYM := n |>).
Proof using Hinp.
  intros [HI Hc] Hca Hf Hn Hnom. pose proof (iv_stored _ s HI) as Hst. pose proof (credit_held s on HI) as Hcr.
  pose proof Hcr as [Hc0 _]. pose proof (iv_cash _ s HI).
  apply Add_stored in Hca as (Hm & Hw & _); [|apply Hst|auto]. apply Add_stored in Hf as (Hm2 & Hw2 & _); [|apply Hst|auto].
  split; [|done]. destruct HI. destruct iv_clocks as (? & _ & _ & ?). split; cbn; try done.
  - by destruct Hst.
  - lia.
  - unfold restricted in *. cbn. lia.
Qed.

Lemma when_cycle_Open on s u1 s1 u2 s2 :
  when (new_income s on && (0 <? s_cycle s)) closeCycle s = Ok (u1, s1) →
  when ((s_cycle s1 =? 0) || new_income s1 on) (openCycle on) s1 = Ok (u2, s2) → s_err s2 = None → Inv s →
  Open s2 ∧ clocks s2 = clocks s ∧ separate s2 = separate s.
Proof using Type.
  rewrite !when_Ok. intros H1 H2 E HI. pose proof (iv_cycle _ s HI) as [Hc0 _].
  assert (s_err s1 = None) as E1.
  { destruct ((s_cycle s1 =? 0) || _); [by apply (sticks_openCycle _ _ _ _ H2)|congruence]. }
  destruct (new_income s on && (0 <? s_cycle s)) eqn:Ec.
  - apply andb_true_iff in Ec as [Hn Hc].
    destruct (closeCycle_Inv _ _ _ _ H1 E1 HI) as (HI1 & Hk & Hcy & Hse & Hci).
    destruct ((s_cycle s1 =? 0) || new_income s1 on) eqn:Eo.
    + destruct (openCycle_Inv _ _ _ _ _ H2 HI1) as (? & Hk2 & Hs2 & _). split_and!; congruence || done.
    + exfalso. apply orb_false_iff in Eo as [_ Eo]. unfold new_income in *. rewrite Hse, Hci in Eo. congruence.
  - subst s1. destruct ((s_cycle s =? 0) || new_income s on) eqn:Eo.
    + assert (s_cycle s = 0) as Hz.
      { destruct (Z.eqb_spec (s_cycle s) 0); [done|]. simpl in Eo. rewrite Eo in Ec. simpl in Ec.
        apply Z.ltb_ge in Ec. lia. }
      destruct (openCycle_Inv _ _ _ _ _ H2 (unbooked_start _ _ HI Hz)) as (? & Hk2 & Hs2 & _). done.
    + subst s2. split_and!; [|done..]. split; [done|]. apply orb_false_iff in Eo as [Eo%Z.eqb_neq _]. lia.
Qed.

Lemma income_effect on s u s' :
  income on s = Ok (u, s') → s_err s' = None → Inv s → dated on →
  Open s' ∧ calm on s s' ∧ Forall (asleep on) (s_cashBuckets s') ∧
  s_nextIncome s' = pays_in s on ∧ s_incomeYM s' = ym on.
Proof using Hinp.
  intros H E HI Hon. unfold income in H.
  apply bind_M in H as (c1 & t & [-> ->]%gets_Ok & H). apply bind_M in H as ([] & s1 & H1 & H).
  apply bind_M in H as (c2 & t & [-> ->]%gets_Ok & H). apply bind_M in H as ([] & s2 & H2 & H).
  apply bind_M in H as (paid & t & [-> ->]%gets_Ok & H). apply bind_M in H as ([] & s3 & H3 & H).
  apply bind_M in H as ([] & s4 & H4 & H). apply bind_M in H as (next & s5 & H5 & H).
  apply bind_M in H as ([] & s6 & H6 & H). apply bind_M in H as ([] & s7 & H7 & H).
  pose proof (sticks_allocate _ _ _ _ H E) as E7. steps H7. steps H6. cbn in E7.
  pose proof (sticks_incomeAfter _ _ _ _ H5 E7) as E4. steps H4. steps H3. cbn in E4. unstick E4.
  cbn in *. destruct (when_cycle_Open _ _ _ _ _ _ H1 H2 E4 HI) as (HO2 & Hk & Hse).
  destruct (clocks_calm on _ _ Hk) as [Hca _].
  assert (∃ nom, ticks nom ∧ ticks next ∧ next = pays_in s on ∧
    s5 = s2 <| s_cash := x0 |> <| s_inflow := x |> <| s_nominalIncome := nom |>) as (nom & Hnom & Hnext & Epay & ->).
  { assert (pays_in s2 on = pays_in s on) as <- by (unfold pays_in, cash_plan; by rewrite (ca_in _ _ _ Hca)).
    destruct (next_pay_day on (PayDay (cash_plan s2)) Hon) as [Hnp _].
    unfold incomeAfter in H5.
    apply bind_M in H5 as (p & t & [-> ->]%gets_Ok & H5). apply bind_M in H5 as (delay & t & [-> ->]%gets_Ok & H5).
    apply bind_M in H5 as (nominal & t & [-> ->]%gets_Ok & H5). unfold pays_in.
    match type of H5 with context [s_incomeDelayDays ?t] =>
      change (s_incomeDelayDays t) with (s_incomeDelayDays s2) in H5; change (cash_plan t) with (cash_plan s2) in H5 end.
    rewrite (iv_delay _ s2 (proj1 HO2)) in H5.
    change (negb (0 =? 0)) with false in H5. cbv beta iota zeta in H5.
    destruct (PayDay (cash_plan s2) =? 0).
    - apply ret_Ok in H5 as [-> ->]. exists (s_nominalIncome s2).
      split_and!; [apply (iv_clocks _ s2 (proj1 HO2))|by left|done|by destruct s2].
    - apply bind_M in H5 as ([] & t & ->%modify_Ok & [-> ->]%ret_Ok).
      assert (AddDays (OnDayOfMonth (AddMonths on 1) (PayDay (cash_plan s2))) 0 =
        OnDayOfMonth (AddMonths on 1) (PayDay (cash_plan s2))) as ->.
      { apply time_inj; [apply AddDays_valid|apply Hnp|rewrite time_AddDays; lia]. }
      exists (OnDayOfMonth (AddMonths on 1) (PayDay (cash_plan s2))). split_and!; [by right|by right|done|done]. }
  pose proof (credit_Open s2 on _ _ next nom (ym on) HO2 R0 R Hnext Hnom) as HO3.
  match type of H with allocate on ?t = _ => change (Open t) in HO3; assert (calm on s t) as Hca3; [|clear Hca] end.
  { by destruct Hca; split. }
  destruct (allocate_effect _ Hinp _ _ _ _ H E HO3 Hon) as (HO4 & Hsp & Ha & Hlen & _).
  destruct (spends_calm _ _ _ Hsp Hlen) as [Hca4 [= En Ey]]. rewrite En, Ey. split_and!; try done. by etrans.
Qed.

(** ** A receipt *)

Lemma receive_effect ev u s u' s' :
  receive u ev s = Ok (u', s') → s_err s' = None → Open s → event_ok ev →
  Open s' ∧ (∀ on, calm on s (s' <| s_cashBuckets := s_cashBuckets s |>)) ∧ incomes s' = incomes s ∧
  (length (s_cashBuckets s') ≤ length (s_cashBuckets s) + parts_of ev)%nat.
Proof using Hinp.
  intros H E [HI Hc] Hev. pose proof (iv_stored _ s HI) as Hst. pose proof (iv_cash _ s HI).
  pose proof Hev as (Ha & Hon & Hr). pose proof Ha as [Ha0 _]. unfold receive in H.
  apply bind_M in H as ([] & t & H1 & H). destruct (is_routed ev).
  - pose proof (sticks_addRouted _ _ _ _ H E) as Et. steps H1. cbn in Et. unstick Et.
    match goal with R : Add _ _ = Ok _ |- _ => apply Add_stored in R as (Hm & Hw & _); [|apply Hst|auto] end.
    destruct (addRouted_effect _ _ _ _ H E) as (bs & -> & Hbs & Hsum & Hlen); [apply HI|done|].
    cbn in Hlen. split_and!; [|by intros on; split|done|done]. split; [|done].
    refine (money_Inv _ s (s_cash s) bs x HI _ _ _ _ _); [apply HI|apply Hst|done|done|].
    unfold restricted in *. cbn in Hsum. lia.
  - steps H1. steps H. cbn in E. unstick E. cbn in *.
    repeat match goal with R : Add _ _ = Ok _ |- _ => apply Add_stored in R as (? & ? & _); [|apply Hst|auto] end.
    pose proof (λ c, money_Inv _ s c (s_cashBuckets s) x HI) as Hmoney.
    split_and!; [|by intros on; split|done|cbn; lia]. split; [|done].
    refine (Hmoney _ _ _ _ _ _); [lia|done|done|apply HI|]. unfold restricted. lia.
Qed.

Lemma receives_effect evs : ∀ s u s',
  foldM receive tt evs s = Ok (u, s') → s_err s' = None → Open s → Forall event_ok evs →
  Open s' ∧ (∀ on, calm on s (s' <| s_cashBuckets := s_cashBuckets s |>)) ∧ incomes s' = incomes s ∧
  (length (s_cashBuckets s') ≤ length (s_cashBuckets s) + sum_list (parts_of <$> evs))%nat.
Proof using Hinp.
  induction evs as [|ev evs IH]; intros s u s' H E HO Hev; cbn [foldM] in H.
  { steps H. split_and!; [done| |done|cbn; lia]. intros on. by destruct s. }
  apply Forall_cons in Hev as [Hev Hevs]. apply bind_M in H as ([] & t & H1 & H).
  pose proof (sticks_foldM _ _ sticks_receive _ _ _ _ H E) as Et.
  destruct (receive_effect _ _ _ _ _ H1 Et HO Hev) as (HO1 & Hc1 & Hi1 & Hn1).
  destruct (IH _ _ _ H E HO1 Hevs) as (HO2 & Hc2 & Hi2 & Hn2).
  split_and!; [done| |congruence|rewrite fmap_cons; cbn [sum_list_with]; cbn in *; lia].
  intros on. specialize (Hc1 on). specialize (Hc2 on). destruct Hc1, Hc2. cbn in *. split; cbn; try congruence. by etrans.
Qed.

(** Receipts still to come, and the buckets they may open. *)
Definition room (s : sim) : nat := length (s_cashBuckets s) + sum_list (parts_of <$> s_lumps s).

Record received (on : Date) (s s' : sim) : Prop := {
  rc_open : Open s';
  rc_asleep : Forall (asleep on) (s_cashBuckets s');
  rc_calm : calm on s (s' <| s_lumps := s_lumps s |> <| s_cashBuckets := s_cashBuckets s |>);
  rc_incomes : incomes s' = incomes s;
  rc_lumps : s_lumps s' `sublist_of` s_lumps s;
  rc_fewer : (length (s_lumps s') < length (s_lumps s))%nat;
  rc_room : (room s' ≤ room s)%nat }.

Lemma drop_lumps_Inv s ls : Inv s → Forall event_ok ls → Inv (set s_lumps (λ _, ls) s).
Proof using Type. intros [] Hl. split; cbn; try done. by destruct iv_stored. Qed.

Lemma Forall_sublist {A} (P : A → Prop) l k : l `sublist_of` k → Forall P k → Forall P l.
Proof using Type. induction 1; intros Hk; [done|..]; apply Forall_cons in Hk as [? ?]; auto. Qed.

Lemma sum_filter_split {A} (f : A → nat) (P : A → Prop) `{∀ x, Decision (P x)} l :
  sum_list (f <$> l) = (sum_list (f <$> filter P l) + sum_list (f <$> filter (λ x, ¬ P x) l))%nat.
Proof using Type.
  induction l as [|x l IH]; [done|]. rewrite !filter_cons, fmap_cons. cbn [sum_list_with]. rewrite IH.
  destruct (decide (P x)); destruct (decide (¬ P x)); try done; rewrite fmap_cons; cbn [sum_list_with]; lia.
Qed.

Lemma sum_list_delete {A} (f : A → nat) l i (x : A) :
  l !! i = Some x → sum_list (f <$> l) = (f x + sum_list (f <$> delete i l))%nat.
Proof using Type.
  revert i. induction l as [|y l IH]; intros [|i] L; simplify_eq/=; [done|]. rewrite (IH i L). lia.
Qed.

(** A receipt taken from the list, then the day's allocation. *)
Lemma allocate_received on s t u s' :
  allocate on t = Ok (u, s') → s_err s' = None → Open t → dated on →
  calm on s (t <| s_lumps := s_lumps s |> <| s_cashBuckets := s_cashBuckets s |>) → incomes t = incomes s →
  s_lumps t `sublist_of` s_lumps s → (length (s_lumps t) < length (s_lumps s))%nat → (room t ≤ room s)%nat →
  received on s s'.
Proof using Hinp.
  intros H E HO Hon Hc Hi Hs Hlt Hr.
  destruct (allocate_effect _ Hinp _ _ _ _ H E HO Hon) as (HO' & Hsp & Ha & Hlen & _).
  destruct (spends_calm _ _ _ Hsp Hlen) as [Hca Hi'].
  split; [done|done| |congruence|by rewrite (ca_lumps _ _ _ Hca)..|].
  - destruct Hca, Hc. cbn in *. split; cbn; try congruence. by etrans.
  - unfold room in *. by rewrite Hlen, (ca_lumps _ _ _ Hca).
Qed.

Lemma receiveRoutedDate_received on s u s' l i :
  receiveRoutedDate on s = Ok (u, s') → s_err s' = None → Inv s → s_lumps s !! i = Some l → CeOn l = on →
  received on s s'.
Proof using Hinp.
  intros H E HI L <-. pose proof (proj1 (Forall_lookup _ _) (iv_lumps _ s HI) _ _ L) as (_ & Hon & _).
  unfold receiveRoutedDate in H. apply bind_M in H as ([] & t & H1 & H).
  destruct (ensure_cycle_Open _ _ _ _ _ H1 HI) as (HO1 & Hk & _). destruct (clocks_calm (CeOn l) _ _ Hk) as [Hc1 Hi1].
  apply bind_M in H as (ls & t1 & [-> ->]%gets_Ok & H). apply bind_M in H as ([] & t2 & H2 & H).
  apply bind_M in H as ([] & t3 & ->%modify_Ok & H). pose proof (sticks_allocate _ _ _ _ H E) as E2. cbn in E2.
  assert (s_lumps t = s_lumps s) as El by apply Hc1. rewrite El in *.
  destruct (receives_effect _ _ _ _ H2 E2 HO1) as (HO2 & Hc2 & Hi2 & Hn2).
  { eapply Forall_sublist; [apply sublist_filter|]. apply HI. }
  eapply (allocate_received _ _ _ _ _ H E); [|done| |change (incomes t2 = incomes s); congruence|cbn; apply sublist_filter| |].
  - split; [|apply HO2]. apply drop_lumps_Inv; [apply HO2|]. eapply Forall_sublist; [apply sublist_filter|]. apply HI.
  - specialize (Hc2 (CeOn l)). destruct Hc1, Hc2. cbn in *. split; cbn; try congruence. by etrans.
  - cbn. apply (length_filter_lt _ _ l); [by eapply list_elem_of_lookup_2|]. intros []. done.
  - unfold room. cbn. rewrite (sum_filter_split parts_of (λ e, CeOn e = CeOn l) (s_lumps s)).
    rewrite (ca_buckets _ _ _ Hc1) in Hn2. lia.
Qed.

Lemma lump_received i s u s' :
  lump i s = Ok (u, s') → s_err s' = None → Inv s → ∃ l, s_lumps s !! i = Some l ∧ received (CeOn l) s s'.
Proof using Hinp.
  intros H E HI. unfold lump in H. apply bind_M in H as (ls & t & [-> ->]%gets_Ok & H).
  apply bind_M in H as (routed & t & [-> ->]%gets_Ok & H).
  destruct (s_lumps s !! i) as [l|] eqn:L; [|done]. exists l. split; [done|].
  destruct (s_hasRouting s); [by eapply receiveRoutedDate_received|].
  pose proof (proj1 (Forall_lookup _ _) (iv_lumps _ s HI) _ _ L) as Hev. pose proof Hev as (Ha & Hon & _).
  apply bind_M in H as ([] & t & ->%modify_Ok & H). apply bind_M in H as ([] & t1 & H1 & H).
  apply bind_M in H as ([] & t2 & H2 & H). apply bind_M in H as ([] & t3 & H3 & H).
  pose proof (sticks_allocate _ _ _ _ H E) as E3. steps H3. steps H2. cbn in E3. unstick E3. cbn in *.
  pose proof (drop_lumps_Inv s (delete i (s_lumps s)) HI
    ltac:(eapply Forall_sublist; [apply sublist_delete|apply HI])) as HI0.
  destruct (ensure_cycle_Open _ _ _ _ _ H1 HI0) as (HO1 & Hk & _).
  destruct (clocks_calm (CeOn l) _ _ Hk) as [Hc1 Hi1].
  pose proof (iv_stored _ t1 (proj1 HO1)) as Hst. pose proof (iv_cash _ t1 (proj1 HO1)). destruct Ha as [Ha0 Ha1].
  apply Add_stored in R0 as (Hm & Hw & _); [|apply Hst|unfold_i64; lia].
  apply Add_stored in R as (Hm2 & Hw2 & _); [|apply Hst|unfold_i64; lia].
  eapply (allocate_received _ _ _ _ _ H E); [|done| |done|pose proof (ca_lumps _ _ _ Hc1) as El; cbn in *; rewrite El; apply sublist_delete| |].
  - split; [|apply HO1].
    refine (money_Inv _ t1 x0 (s_cashBuckets t1) x (proj1 HO1) _ _ _ _ _); [lia|done|done|apply HO1|].
    unfold restricted. lia.
  - destruct Hc1. cbn in *. by split.
  - pose proof (ca_lumps _ _ _ Hc1) as El. cbn in *. rewrite El, length_delete by done.
    apply lookup_lt_Some in L. lia.
  - unfold room. pose proof (ca_lumps _ _ _ Hc1) as El. pose proof (ca_buckets _ _ _ Hc1) as Eb. cbn in *.
    rewrite El, Eb, (sum_list_delete parts_of _ _ _ L). lia.
Qed.
End Events.
