(* ===== verification/Dues.v ===== *)
(** Instalments: what falls due is paid to the unit or refused, and the loan
    closes or is told its next obligation. *)
From S2P Require Import Prelude Money Dates Model Allocation Schedule Calendar Fees PlanBase PlanInput.
From S2P Require Import SimState Sim SimLogic Quotes Obligations Payments Books Cycles Routing Events.

#[local] Arguments sum_by : simpl never.
#[local] Arguments owed : simpl never.
#[local] Arguments restricted : simpl never.

(** What an instalment leaves: of the loans only the one that falls due is
    rewritten. *)
Record at_due (on : Date) (i : nat) (s s' : sim) : Prop := {
  ad_agenda : agenda s' = agenda s;
  ad_buckets : length (s_cashBuckets s') = length (s_cashBuckets s);
  ad_others : ∀ j l, j ≠ i → s_loans s !! j = Some l → ∃ l', s_loans s' !! j = Some l' ∧ same_due on l l' ∧
    l_pending l' = l_pending l }.
#[export] Instance at_due_preorder on i : PreOrder (at_due on i).
Proof.
  split.
  - intros s. split; [done..|]. intros j l _ L. by exists l.
  - intros s1 s2 s3 [F1 B1 O1] [F2 B2 O2]. split; [congruence..|]. intros j l Hj L.
    destruct (O1 j l Hj L) as (l2 & L2 & S2 & P2), (O2 j l2 Hj L2) as (l3 & L3 & S3 & P3).
    exists l3. split_and!; [done|by etrans|congruence].
Qed.

Lemma pays_pending on s s' j l :
  pays on s s' → s_loans s !! j = Some l → ∃ l', s_loans s' !! j = Some l' ∧ same_due on l l' ∧ l_pending l' = l_pending l.
Proof.
  intros [[_ Hd] Hp] L. destruct (Forall2_lookup_l _ _ _ _ _ Hd L) as (l' & L' & Hs). exists l'. split_and!; [done..|].
  apply (f_equal (.!! j)) in Hp. unfold pendings in Hp. rewrite !list_lookup_fmap, L, L' in Hp. by injection Hp.
Qed.

Lemma pays_at_due on i s s' :
  pays on s s' → length (s_cashBuckets s') = length (s_cashBuckets s) → at_due on i s s'.
Proof. intros Hp Hb. split; [apply fixed_agenda, Hp|done|]. intros j l _ L. by apply pays_pending with s. Qed.

Lemma insert_at_due on i s s' l' :
  fixed s' = fixed s → s_cashBuckets s' = s_cashBuckets s → s_loans s' = <[i := l']> (s_loans s) → at_due on i s s'.
Proof.
  intros Hf Hb Hl. split; [by apply fixed_agenda|by rewrite Hb|]. intros j l Hj L. exists l. by rewrite Hl, list_lookup_insert_ne.
Qed.

(** Loans whose dates did not change. *)
Lemma clocks_same_due on s s' j l :
  clocks s' = clocks s → s_loans s !! j = Some l →
  ∃ l', s_loans s' !! j = Some l' ∧ same_due on l l' ∧ l_pending l' = l_pending l ∧ l_closed l' = l_closed l ∧
    l_from l' = l_from l ∧ l_balance l' = l_balance l.
Proof.
  intros H L. unfold clocks in H. injection H as _ _ _ _ _ Hl _ _.
  apply (f_equal (.!! j)) in Hl. rewrite !list_lookup_fmap, L in Hl.
  destruct (s_loans s' !! j) as [l'|]; [|done]. exists l'. cbn in Hl. unfold dates_of in Hl. injection Hl as ??????.
  split_and!; try done. split; congruence || (intros; congruence) || (match goal with H : l_from _ = _ |- _ => rewrite H end; lia).
Qed.

Lemma clocks_at_due on i s s' : clocks s' = clocks s → at_due on i s s'.
Proof.
  intros H. split.
  - by apply clocks_agenda.
  - unfold clocks in H. injection H as _ _ _ _ _ _ _ Hb. apply (f_equal length) in Hb. by rewrite !length_fmap in Hb.
  - intros j l _ L. destruct (clocks_same_due on _ _ _ _ H L) as (l' & ? & ? & ? & _). by exists l'.
Qed.

(** The instalments a loan may still ask for on a day: the one that is due, one
    more when money held for the date may leave the date unchanged, and one or
    two when interest is not booked up to the day. *)
Definition tasks (on : Date) (l : loanState) : nat :=
  if l_closed l || (time on <? time (l_due l)) then 0
  else 1 + (if 0 <? minor (l_pending l) then 1 else 0) +
    (if time (l_from l) <? time on then if minor (l_balance l) =? 0 then 2 else 1 else 0).

Lemma tasks_bound on l : (tasks on l ≤ 4)%nat.
Proof. unfold tasks. repeat case_match; lia. Qed.

Lemma tasks_done on l : l_closed l = true ∨ time on < time (l_due l) → tasks on l = 0%nat.
Proof. unfold tasks. intros [->|H%Z.ltb_lt]; [done|]. by rewrite H, orb_true_r. Qed.

Lemma tasks_same_due on l l' :
  same_due on l l' → l_pending l' = l_pending l → (tasks on l' ≤ tasks on l)%nat.
Proof.
  intros [_ Hd Hc Hf Hz] Hp. unfold tasks. rewrite Hd, Hp. destruct (l_closed l); [rewrite Hc by done; done|].
  destruct (l_closed l'); [cbn; lia|]. cbn [orb].
  destruct (time on <? time (l_due l)); [done|]. destruct (Z.ltb_spec (time (l_from l')) (time on)).
  - rewrite (proj2 (Z.ltb_lt (time (l_from l)) (time on))) by lia. specialize (Hz H).
    destruct (Z.eqb_spec (minor (l_balance l')) 0), (Z.eqb_spec (minor (l_balance l)) 0); lia.
  - lia.
Qed.

Section Dues.
Context (inp : Input) (Hinp : input_ok inp).
#[local] Abbreviation Inv := (Books.Inv inp).
#[local] Abbreviation Open := (Books.Open inp).

Lemma purse_Open s s' : purse s' = purse s → Inv s' → Open s → Open s'.
Proof using Type.
  intros Hp HI [_ Hc]. split; [done|]. apply purse_same in Hp as (Hf & _).
  destruct (fixed_same _ _ Hf) as (_ & (_ & -> & _) & _). done.
Qed.

Lemma calendar_effect i s r s' l :
  calendar i s = Ok (r, s') → Inv s → s_loans s !! i = Some l → Inv s' ∧ purse s' = purse s ∧ s_loans s' = s_loans s.
Proof using Type.
  intros H HI L. unfold calendar in H. apply bind_M in H as (l' & t & [L' ->]%loan_Ok & H).
  assert (l' = l) as -> by congruence. apply bind_M in H as (m & t & [-> ->]%gets_Ok & H).
  destruct (cache_calendar (s_cache s) l) as [m rc] eqn:Ec.
  destruct (cache_calendar_ok _ _ _ _ (iv_cache _ s HI) ltac:(apply (Inv_loan _ s i l HI L)) Ec) as [Hm _].
  apply bind_M in H as ([] & t & ->%modify_Ok & H). apply attempt_Ok in H as [-> _].
  split; [by apply cached_Inv|done].
Qed.

(** At most what is owed is asked. *)
Lemma due_amounts_effect i on s r s' l :
  due_amounts i on s = Ok (r, s') → s_err s' = None → Open s → s_loans s !! i = Some l →
  Open s' ∧ purse s' = purse s ∧ s_loans s' = s_loans s ∧
  ∀ interest required, r = inr (interest, required) →
    interest = l_accrued l ∧ held required ∧ minor required ≤ minor (l_balance l) + minor (l_accrued l) ≤ MaxInt64.
Proof using Type.
  intros H E HO L. unfold due_amounts in H. apply bind_M in H as (l' & t & [L' ->]%loan_Ok & H).
  assert (l' = l) as -> by congruence. pose proof (Inv_loan _ _ _ _ (proj1 HO) L) as Hl.
  apply bind_M in H as (ow & t & H1 & H).
  unstuck H E as Et.
  apply sticky_Ok in H1 as (_ & -> & Hadd); [|done]. pose proof (held_Add _ _ _ (lk_balance l Hl) (lk_accrued l Hl) Hadd) as How.
  apply Add_stored in Hadd as (Hm & _); [|apply held_wf; apply Hl..].
  apply and_then_Ok in H as [(e & H & ->)|(cal & t & H1 & H)].
  { destruct (calendar_effect _ _ _ _ _ H (proj1 HO) L) as (HI & Hp & Hls).
    split_and!; [by eapply purse_Open|done..]. }
  destruct (calendar_effect _ _ _ _ _ H1 (proj1 HO) L) as (HI & Hp & Hls).
  apply bind_M in H as (req & t1 & Hreq & H). apply bind_M in H as (ov & t2 & [Hov ->]%total_Ok & H).
  apply ret_Ok in H as [-> ->]. apply Cmp_le in Hov as [Hov _].
  assert (t1 = t ∧ held req) as [-> Hheld].
  { destruct (Calendar_Dates cal on); [| |done]; apply ret_Ok in Hreq as [-> ->]; [|done].
    split; [done|]. apply (lk_required l Hl). }
  split_and!; [by eapply purse_Open|done..|]. intros interest required [= <- <-]. split; [done|]. rewrite Hov, <- Hm.
  destruct How. destruct (Z.ltb_spec (minor ow) (minor req)); split_and!; done || lia.
Qed.

(** An instalment that cannot be paid in full ends the run. *)
Lemma check_due_effect i on required s b s' :
  check_due i on required s = Ok (b, s') → s_err s' = None →
  s' = s ∧ b = true ∧ minor required ≤ minor (s_cash s) ∧ (separate s = true → minor required ≤ minor (s_periodLeft s)).
Proof using Type.
  intros H E. unfold check_due in H. apply bind_M in H as (l & t & [L ->]%loan_Ok & H).
  apply bind_M in H as (sep & t & [-> ->]%gets_Ok & H). apply bind_M in H as (left & t & [-> ->]%gets_Ok & H).
  apply bind_M in H as (c & t & [-> ->]%gets_Ok & H). apply bind_M in H as (lim & t & H1 & H).
  assert (t = s ∧ (lim = false → separate s = true → minor required ≤ minor (s_periodLeft s))) as [-> Hlim].
  { destruct (separate s).
    - apply bind_M in H1 as (z & t1 & [Hz ->]%total_Ok & [-> ->]%ret_Ok). apply Cmp_le in Hz as (_ & -> & _).
      split; [done|]. intros Hlt _. apply Z.ltb_ge in Hlt. lia.
    - apply ret_Ok in H1 as [-> ->]. done. }
  destruct lim.
  { apply bind_M in H as (sh & t & _ & H). exfalso. by eapply raise_stops; [apply sticks_ret|..]. }
  apply bind_M in H as (poor & t & [Hz ->]%total_Ok & H). apply Cmp_le in Hz as (_ & Hz & _). rewrite Hz in H.
  destruct (Z.ltb_spec (minor (s_cash s)) (minor required)).
  { apply bind_M in H as (sh & t & _ & H). exfalso. by eapply raise_stops; [apply sticks_ret|..]. }
  apply ret_Ok in H as [-> ->]. split_and!; try done || lia. by apply Hlim.
Qed.

(** The instalment as one payment. *)
Lemma settle_due_Open i on interest required s u s' l :
  settle_due i on interest required s = Ok (u, s') → s_err s' = None → Open s → s_loans s !! i = Some l →
  interest = l_accrued l → held required → minor required ≤ minor (l_balance l) + minor (l_accrued l) ≤ MaxInt64 →
  minor required ≤ minor (s_cash s) → (separate s = true → minor required ≤ minor (s_periodLeft s)) → reached on l →
  Open s' ∧ pays on s s' ∧ s_cashBuckets s' = s_cashBuckets s ∧
  ∃ l', s_loans s' !! i = Some l' ∧ l_closed l' = l_closed l ∧ minor (l_accrued l') = 0.
Proof using Type.
  intros H E HO L -> Hreq Hle Hcash Hleft Hr. pose proof (Inv_loan _ _ _ _ (proj1 HO) L) as Hl.
  pose proof (lk_balance l Hl). pose proof (lk_accrued l Hl). pose proof Hreq as [? _].
  destruct (settle_due_effect i on _ _ l s u s' H E (iv_stored _ s (proj1 HO)) L) as (l' & P & Hc & Ha); [auto..|].
  assert (loan_ok l') as Hl'.
  { apply (paid_loan_ok P Hl); [unfold held in *; lia|unfold held, MaxInt64; lia| |congruence].
    intros Hc'. rewrite (po_balance P). rewrite Hc in Hc'. destruct (lk_closed l Hl Hc') as [E1 E2].
    split; [lia|done]. }
  split_and!.
  - eapply (paid_Inv _ _ _ _ _ _ _ _ _ _ _ P HO); [lia|done| |done].
    destruct (separate s); [auto|]. apply (iv_left _ s (proj1 HO)).
  - apply (paid_pays _ _ _ _ _ _ _ _ _ _ _ P); [|done]. by rewrite Hc.
  - apply (po_buckets P).
  - exists l'. split_and!; [apply (po_after P)|done|done].
Qed.

(** Closing a loan nothing is owed on. *)
Lemma close_Open i on s u s' l :
  close i on s = Ok (u, s') → s_err s' = None → Open s → s_loans s !! i = Some l →
  minor (l_balance l) = 0 → minor (l_accrued l) = 0 →
  Open s' ∧ at_due on i s s' ∧ ∃ l', s_loans s' !! i = Some l' ∧ l_closed l' = true.
Proof using Type.
  intros H E HO L Hb Hacc. pose proof (Inv_loan _ _ _ _ (proj1 HO) L) as Hl.
  destruct (close_effect i on l s u s' H E (iv_stored _ s (proj1 HO)) L) as (l' & P & Hc & Ha).
  { split; apply Hl. }
  assert (loan_ok l') as Hl'.
  { apply (paid_loan_ok P Hl); [unfold MaxInt64; lia|rewrite Ha; apply Hl| |congruence].
    intros _. rewrite (po_balance P), Ha. lia. }
  split_and!.
  - eapply (paid_Inv _ _ _ _ _ _ _ _ _ _ _ P HO); [lia|apply (iv_cash _ s (proj1 HO))|apply (iv_left _ s (proj1 HO))|done].
  - apply (insert_at_due _ _ _ _ l'); apply P.
  - exists l'. split; [apply (po_after P)|done].
Qed.

(** The promise to a loan is taken back before it is quoted again. *)
Lemma unpend_Open on i z s l :
  Open s → s_loans s !! i = Some l →
  let s' := set s_loans (alter (set l_pending (λ _, Zero z)) i) s in
  Open s' ∧ at_due on i s s' ∧ s_loans s' !! i = Some (l <| l_pending := Zero z |>) ∧
  (0 < minor (l_balance l) → slack s' = slack s + minor (l_pending l)).
Proof using Type.
  intros [HI Hc] L. cbv zeta. pose proof (Inv_loan _ _ _ _ HI L) as Hl.
  pose proof (alter_insert (set l_pending (λ _, Zero z)) _ _ _ L) as Ea. split; [split; [|done]|split].
  - replace (set s_loans (alter (set l_pending (λ _, Zero z)) i) s)
      with (set s_loans (alter (λ _, l <| l_pending := Zero z |>) i) s).
    + apply (write_loan_Inv _ _ _ l); try done. destruct Hl. by split.
    + unfold set at 1 3. f_equal. rewrite Ea. exact (alter_insert (λ _, l <| l_pending := Zero z |>) _ _ _ L).
  - by apply (insert_at_due _ _ _ _ (l <| l_pending := Zero z |>)).
  - split; [cbn; by rewrite list_lookup_alter_eq, L|]. intros Hb.
    assert (l_closed l = false) as Hcl.
    { destruct (l_closed l) eqn:Ecl; [|done]. destruct (lk_closed l Hl Ecl). lia. }
    match goal with |- slack ?t = _ => rewrite (slack_insert s t i l (l <| l_pending := Zero z |>) L Ea) by done end.
    unfold held_back, due_before_income. cbn. rewrite Hcl. lia.
Qed.

(** What the due loan has come to once the money held for it was asked for:
    nothing was held; it is closed; nothing could be paid; or its interest is
    booked up to the day. *)
Inductive asked (on : Date) (l : loanState) : bool → loanState → Prop :=
| nothing_held : minor (l_pending l) ≤ 0 → asked on l true l
| paid_off l' : l_closed l' = true → asked on l false l'
| no_money l' : 0 < minor (l_pending l) → minor (l_pending l') = 0 → l_balance l' = l_balance l →
    l_from l' = l_from l → asked on l false l'
| booked l' : time on ≤ time (l_from l') → asked on l true l'.

(** With declared spending, or when the pool covers the reserve, what leaves the
    pool leaves the reserve covered. *)
Definition frugal (s s' : sim) : Prop :=
  separate s = true ∨ 0 ≤ slack s → minor (s_cash s') < minor (s_cash s) → 0 ≤ slack s'.
Lemma frugal_same s s' : s_cash s' = s_cash s → frugal s s'.
Proof using Type. unfold frugal. intros ->. lia. Qed.

Lemma pay_pending_effect i on s b s' l :
  pay_pending i on s = Ok (b, s') → s_err s' = None → Open s → dated on → s_loans s !! i = Some l →
  0 < minor (l_balance l) →
  Open s' ∧ at_due on i s s' ∧ (∃ l', s_loans s' !! i = Some l' ∧ asked on l b l') ∧ frugal s s'.
Proof using Hinp.
  intros H E HO Hon L Hbal. unfold pay_pending in H. apply bind_M in H as (l0 & t & [L0 ->]%loan_Ok & H).
  assert (l0 = l) as -> by congruence. clear L0. rewrite Sign_pos_iff in H.
  destruct (Z.ltb_spec 0 (minor (l_pending l))) as [Hpos|Hnone]; cbn [negb] in H.
  2:{ apply ret_Ok in H as [-> ->]. split_and!; [done|done| |by apply frugal_same]. exists l. split; [done|by constructor]. }
  apply bind_M in H as (z & t & [-> ->]%gets_Ok & H). apply bind_M in H as (sep & t & [-> ->]%gets_Ok & H).
  apply bind_M in H as (c & t & [-> ->]%gets_Ok & H). apply bind_M in H as ([] & t & ->%modify_Ok & H).
  destruct (unpend_Open on i (s_cur s) s l HO L) as (HO1 & A1 & L1 & Hroom). specialize (Hroom Hbal).
  match type of H with _ ?t = _ => set (s1 := t) in * end. change (Open s1) in HO1. change (at_due on i s s1) in A1.
  change (s_loans s1 !! i = Some (l <| l_pending := Zero (s_cur s) |>)) in L1.
  change (slack s1 = slack s + minor (l_pending l)) in Hroom.
  assert (separate s1 = separate s ∧ s_cash s1 = s_cash s) as [Esep1 Ecash1] by done.
  rewrite <- Esep1, <- Ecash1 in H. clearbody s1. set (l1 := l <| l_pending := Zero (s_cur s) |>) in *.
  assert (∀ t', t' = s1 → Open t' ∧ at_due on i s t' ∧ (∃ l', s_loans t' !! i = Some l' ∧ asked on l false l') ∧ frugal s t') as Hstop.
  { intros ? ->. split_and!; [done..| |by apply frugal_same]. exists l1. split; [done|by constructor]. }
  apply bind_M in H as (a & t & H1 & H). unstuck H E as Et.
  assert (t = s1 ∧ wf_amount a ∧ (0 < minor a → minor a ≤ minor (s_cash s1)) ∧
    (0 < minor a → separate s1 = true → minor a ≤ minor (s_periodLeft s1) ∧ minor a ≤ slack s1)) as (-> & Hwa & Hac & Hal).
  { destruct (separate s1) eqn:Es.
    - destruct (optionalCash_value _ Hinp _ _ _ _ H1 Et (Inv_Sound _ _ (proj1 HO1))) as (-> & Hw & Hv).
      pose proof (slack_cash _ Hinp s1 (Inv_Sound _ _ (proj1 HO1))).
      split_and!; [done|done|..]; intros Hpos'; destruct (Hv Hpos') as [? Hl]; [lia|by intros; split; [apply Hl|]].
    - apply ret_Ok in H1 as [-> ->]. split_and!; [done|apply (iv_stored _ s1 (proj1 HO1))|lia|done]. }
  apply bind_M in H as (ov & t & [Hov ->]%total_Ok & H). apply Cmp_le in Hov as [Hov _]. cbv zeta in H.
  pose proof (lk_pending l (Inv_loan _ _ _ _ (proj1 HO) L)) as Hp.
  set (want := if 0 <? ov then a else l_pending l) in *.
  assert (minor want ≤ minor a ∧ wf_amount want) as [Hwant Hww].
  { subst want. rewrite Hov. destruct (Z.ltb_spec (minor a) (minor (l_pending l))); split; auto; lia. }
  rewrite Sign_nonpos_iff in H. destruct (Z.leb_spec (minor want) 0); [apply ret_Ok in H as [-> ->]; by apply Hstop|].
  clear Hstop. assert (held want) as Hheld by (unfold held; unfold_i64; lia).
  apply bind_M in H as (r & t & Hq & H).
  destruct (quote_effect _ _ _ _ _ _ _ Hq (proj1 HO1) Hon Hheld) as (HI & Hg & Hps & Hquote).
  apply gauges_same in Hg as (Hf & Hb & Hc & Hl & Hsl).
  destruct (spends_fixed _ _ _ (proj1 Hps)) as (_ & _ & Esep & Ecyc).
  assert (Open t) as HO2 by (split; [done|]; rewrite Ecyc; apply HO1).
  pose proof (pays_at_due on i _ _ Hps ltac:(by rewrite Hb)) as A2.
  destruct (pays_pending _ _ _ _ _ Hps L1) as (l2 & L2 & Hsd & _).
  assert (time on ≤ time (l_from l2)) as Hbook.
  { destruct r as [e|q]; [exfalso; by eapply raise_stops; [apply sticks_ret|..]|].
    destruct (Hquote q eq_refl) as (lq & Lq & _ & [|Hz] & _); assert (lq = l2) as -> by congruence; [done|].
    destruct (Z.le_gt_cases (time on) (time (l_from l2))); [done|].
    pose proof (du_cleared _ _ _ Hsd ltac:(lia) Hz) as Hz'. change (minor (l_balance l) = 0) in Hz'. lia. }
  destruct r as [e|q]; [exfalso; by eapply raise_stops; [apply sticks_ret|..]|].
  destruct (Hquote q eq_refl) as (lq & Lq & Hl1 & Hr1 & Q). assert (lq = l2) as -> by congruence. pose proof (qk_fits _ _ _ Q).
  rewrite Sign_pos_iff in H. destruct (Z.ltb_spec 0 (minor (Outflow q))).
  2:{ apply ret_Ok in H as [-> ->]. split_and!; [done|by etrans| |apply frugal_same; congruence]. exists l2. split; [done|by constructor]. }
  apply bind_M in H as ([] & t2 & Hpre & H). unstuck H E as E2.
  apply bind_M in H as (l3 & t3 & [L3 ->]%loan_Ok & [-> ->]%ret_Ok).
  eapply prepay_Open in Hpre as (HO3 & Hsl3 & Hb3 & Hps3 & _ & _ & l' & L' & Hcl & Hfr);
    [|done|done|exact L2|done|done|exact Q|done|rewrite Hc; lia|].
  2:{ rewrite Esep, Hl. intros Es. destruct (Hal ltac:(lia) Es). lia. }
  assert (l3 = l') as -> by congruence. split_and!; [done| | |].
  - etrans; [exact A1|]. etrans; [exact A2|]. apply (pays_at_due _ _ _ _ Hps3). by rewrite Hb3.
  - exists l'. split; [done|]. destruct (l_closed l') eqn:Ecl; [by constructor|]. constructor. by rewrite Hfr.
  - intros Hor _. rewrite Hsl in Hsl3. rewrite <- Esep1 in Hor. destruct (separate s1) eqn:Es.
    + destruct (Hal ltac:(lia) eq_refl). lia.
    + destruct Hor as [|Hge]; [done|]. subst want. rewrite Hov in *. case_match; lia.
Qed.

Lemma refresh_at_due i on s s' r l :
  refresh i s = Ok (r, s') → Open s → s_loans s !! i = Some l →
  Open s' ∧ at_due on i s s' ∧
  match r with
  | inl _ => True
  | inr _ => ∃ o, s_loans s' !! i = Some (refresh_loan l o) ∧ time (l_from l) < time (o_due o)
  end.
Proof using Type.
  intros H HO L. destruct (refresh_effect _ _ _ _ _ H (proj1 HO)) as (HI & Hp & Hr).
  pose proof (purse_same _ _ Hp) as (Hf & Hb & _). split; [by eapply purse_Open|]. destruct r as [e|u].
  - split; [|done]. split; [by apply fixed_agenda|by rewrite Hb|]. intros j x _ Lx. exists x. by rewrite Hr.
  - destruct Hr as (l0 & o & L0 & Hls & Hlt & _). assert (l0 = l) as -> by congruence.
    split; [by apply (insert_at_due _ _ _ _ (refresh_loan l o))|]. exists o. split; [|done].
    by rewrite Hls, list_lookup_insert_eq by by apply lookup_lt_Some in L.
Qed.

(** After the instalment the loan is closed, waits for a later day, or has one
    thing less to ask for. *)
Definition settled_on (on : Date) (l l' : loanState) : Prop :=
  l_closed l' = true ∨ time on < time (l_due l') ∨
  minor (l_pending l') ≤ 0 ∧ 0 < minor (l_balance l') ∧
    (time (l_from l') < time on → time (l_from l) < time on) ∧
    (0 < minor (l_pending l) ∨ time (l_from l') < time on).

Lemma asked_refreshed on l l' o :
  asked on l true l' → 0 < minor (l_balance l) → time (l_from l') < time (o_due o) → settled_on on l (refresh_loan l' o).
Proof using Type.
  intros Ha Hb Hlt. inversion Ha; subst.
  - destruct (Z.le_gt_cases (time on) (time (l_from l'))); [right; left; cbn; lia|]. do 2 right. cbn. auto with lia.
  - right; left. cbn. lia.
Qed.

Lemma after_due_effect i on s u s' l :
  after_due i on s = Ok (u, s') → s_err s' = None → Open s → dated on → s_loans s !! i = Some l →
  minor (l_accrued l) = 0 →
  Open s' ∧ at_due on i s s' ∧ ∃ l', s_loans s' !! i = Some l' ∧ settled_on on l l'.
Proof using Hinp.
  intros H E HO Hon L Hacc. unfold after_due in H. apply bind_M in H as (l0 & t & [L0 ->]%loan_Ok & H).
  assert (l0 = l) as -> by congruence. apply bind_M in H as (sep & t & [-> ->]%gets_Ok & H).
  pose proof (lk_balance l (Inv_loan _ _ _ _ (proj1 HO) L)) as [Hb _].
  rewrite Sign_nonpos_iff in H. destruct (Z.leb_spec (minor (l_balance l)) 0).
  { destruct (close_Open _ _ _ _ _ _ H E HO L) as (? & ? & l' & ? & ?); [lia|done|].
    split_and!; [done..|]. exists l'. split; [done|by left]. }
  apply bind_M in H as (r & t & H1 & H).
  assert (Open t ∧ at_due on i s t ∧ (∀ v, r = inr v → ∃ l1, s_loans t !! i = Some l1 ∧ l_pending l1 = l_pending l ∧
    l_balance l1 = l_balance l ∧ l_from l1 = l_from l)) as (HO1 & A1 & Hl1).
  { destruct (separate s).
    - destruct (refresh_at_due _ on _ _ _ _ H1 HO L) as (? & ? & Hr). split_and!; [done..|]. intros v ->.
      destruct Hr as (o & Lo & _). by exists (refresh_loan l o).
    - apply ret_Ok in H1 as [-> ->]. split_and!; [done..|]. intros v _. by exists l. }
  destruct r as [e|[]]; [apply modify_Ok in H as ->; done|]. cbn [or_raise] in H.
  destruct (Hl1 _ eq_refl) as (l1 & L1 & Ep & Eb & Ef). clear Hl1.
  apply bind_M in H as (again & t2 & H2 & H). unstuck H E as E2.
  destruct (pay_pending_effect _ _ _ _ _ _ H2 E2 HO1 Hon L1) as (HO2 & A2 & (l2 & L2 & Ha) & _); [by rewrite Eb|].
  assert (∀ x, settled_on on l1 x → settled_on on l x) as Hset by (unfold settled_on; rewrite Ep, Ef; done).
  destruct again.
  - unfold refresh_or_raise in H. apply bind_M in H as (r & t3 & H3 & H).
    destruct (refresh_at_due _ on _ _ _ _ H3 HO2 L2) as (HO3 & A3 & Hr).
    destruct r as [e|[]]; [apply modify_Ok in H as ->; done|]. apply ret_Ok in H as [_ ->].
    destruct Hr as (o & Lo & Hlt). split_and!; [done|by do 2 (etrans; [done|])|]. exists (refresh_loan l2 o).
    split; [done|]. apply Hset, asked_refreshed; [done|by rewrite Eb|done].
  - apply ret_Ok in H as [_ ->]. split_and!; [done|by etrans|]. exists l2. split; [done|]. apply Hset.
    inversion Ha as [|? Hcl|? Hpos Hz Hbal Hfr|]; subst; [by left|]. do 2 right.
    rewrite Hbal, Hfr, Eb. split_and!; [lia|done|done|by left].
Qed.

(** The day's instalment is one thing less to ask for. *)
Lemma settled_tasks on l0 l l' :
  settled_on on l l' → l_pending l = l_pending l0 → time (l_from l0) ≤ time (l_from l) →
  (time (l_from l) < time on → minor (l_balance l0) = 0) → (0 < tasks on l0)%nat → (tasks on l' < tasks on l0)%nat.
Proof using Type.
  intros [Hc|[Hd|(Hp & Hb & Hf & Ha)]] Ep Hf0 Hz H0; [by rewrite tasks_done by auto..|].
  unfold tasks in *. destruct (l_closed l0 || _); [lia|]. rewrite <- Ep. destruct (l_closed l' || _); [lia|].
  rewrite (proj2 (Z.ltb_ge 0 (minor (l_pending l')))) by lia. rewrite (proj2 (Z.eqb_neq (minor (l_balance l')) 0)) by lia.
  destruct (Z.ltb_spec (time (l_from l')) (time on)) as [Hlt|].
  - specialize (Hf Hlt). rewrite (proj2 (Z.ltb_lt (time (l_from l0)) (time on))) by lia. rewrite Hz by done. cbn. lia.
  - destruct Ha as [Ha|]; [|lia]. rewrite (proj2 (Z.ltb_lt _ _) Ha). lia.
Qed.

Lemma due_now_effect i on s u s' l0 :
  due_now i on s = Ok (u, s') → s_err s' = None → Inv s → dated on → s_loans s !! i = Some l0 →
  Open s' ∧ at_due on i s s' ∧ ∃ l', s_loans s' !! i = Some l' ∧ ((0 < tasks on l0)%nat → (tasks on l' < tasks on l0)%nat).
Proof using Hinp.
  intros H E HI Hon L0. unfold due_now in H. apply bind_M in H as ([] & t & H1 & H).
  destruct (ensure_cycle_Open _ _ _ _ _ H1 HI) as (HO1 & Hk & _). apply bind_M in H as (r & t1 & H2 & H).
  destruct (clocks_same_due on _ _ _ _ Hk L0) as (la & La & Sa & Pa & _ & Fa & Ba).
  pose proof (clocks_at_due on i _ _ Hk) as A1.
  destruct (accrue_loan_effect _ _ _ _ _ _ H2 (proj1 HO1) Hon) as (HI2 & Hg & Hps & lb & l & Lb & L & Hac).
  assert (lb = la) as -> by congruence. apply gauges_same in Hg as (_ & Hbk & _).
  pose proof (pays_at_due on i _ _ Hps ltac:(by rewrite Hbk)) as A2.
  destruct r as [e|[]]; [apply modify_Ok in H as ->; done|]. cbn [or_raise] in H. specialize (Hac eq_refl).
  destruct (spends_fixed _ _ _ (proj1 Hps)) as (_ & _ & _ & Ecyc).
  assert (Open t1) as HO2 by (split; [done|]; rewrite Ecyc; apply HO1).
  apply bind_M in H as (r & t2 & H3 & H). unstuck H E as E2.
  destruct (due_amounts_effect _ _ _ _ _ l H3 E2 HO2 L) as (HO3 & Hp & Hls & Ham).
  destruct r as [e|[interest required]]; [apply modify_Ok in H as ->; done|]. cbn [or_raise] in H.
  destruct (Ham _ _ eq_refl) as (-> & Hheld & Hle).
  assert (at_due on i t1 t2) as A3.
  { apply purse_same in Hp as (Hf & Hb & _). split; [by apply fixed_agenda|by rewrite Hb|].
    intros j x _ Lx. exists x. by rewrite Hls. }
  pose proof L as L2. rewrite <- Hls in L2.
  apply bind_M in H as (bad & t3 & [-> ->]%failed_Ok & H). rewrite E2 in H.
  apply bind_M in H as (fine & t3 & H4 & H). unstuck H E as E3.
  destruct (check_due_effect _ _ _ _ _ _ H4 E3) as (-> & -> & Hcash & Hleft).
  apply bind_M in H as ([] & t4 & H5 & H). unstuck H E as E4.
  destruct (settle_due_Open _ _ _ _ _ _ _ l H5 E4 HO3 L2 eq_refl Hheld Hle Hcash Hleft) as (HO4 & Hps4 & Hb4 & l' & L' & _ & Hz);
    [apply Hac|].
  pose proof (pays_at_due on i _ _ Hps4 ltac:(by rewrite Hb4)) as A4.
  destruct (pays_pending _ _ _ _ _ Hps4 L2) as (lx & Lx & Sx & Px). assert (lx = l') as -> by congruence.
  destruct (pays_pending _ _ _ _ _ Hps La) as (lx & Ly & Sy & Py). assert (lx = l) as -> by congruence.
  apply bind_M in H as (bad & t5 & [-> ->]%failed_Ok & H). rewrite E4 in H.
  destruct (after_due_effect _ _ _ _ _ _ H E HO4 Hon L' Hz) as (HO5 & A5 & lf & Lf & Hs).
  split_and!; [done|do 4 (etrans; [done|]); done|]. exists lf. split; [done|]. apply (settled_tasks on l0 l'); [done|congruence|..].
  - rewrite <- Fa. transitivity (time (l_from l)); [apply (du_from _ _ _ Sy)|apply (du_from _ _ _ Sx)].
  - intros Hlt. rewrite <- Ba. pose proof (du_from _ _ _ Sx). destruct (ac_reached _ _ _ Hac) as [|Hb]; [lia|].
    apply (du_cleared _ _ _ Sy); [lia|done].
Qed.

(** An instalment keeps the books, the deferred routing included. Without the
    month's income no other loan has more to ask for on the day, and this one
    has less. *)
Lemma due_effect i on s u s' l0 :
  due i on s = Ok (u, s') → s_err s' = None → Inv s → dated on → s_loans s !! i = Some l0 →
  Open s' ∧ Forall (asleep on) (s_cashBuckets s') ∧
  s_in s' = s_in s ∧ s_nextPeriod s' = s_nextPeriod s ∧ s_lumps s' = s_lumps s ∧
  ((PayDay (cash_plan s) = 0 ∧ s_incomeYM s ≠ ym on ∧ s_incomeYM s' = ym on ∧ s_nextIncome s' = zero_date) ∨
   (incomes s' = incomes s ∧
    (∀ j l, j ≠ i → s_loans s !! j = Some l → ∃ l', s_loans s' !! j = Some l' ∧ (tasks on l' ≤ tasks on l)%nat) ∧
    ∃ l', s_loans s' !! i = Some l' ∧ ((0 < tasks on l0)%nat → (tasks on l' < tasks on l0)%nat))).
Proof using Hinp.
  intros H E HI Hon L0. unfold due in H. apply bind_M in H as ([] & t & H1 & H). unfold due_income in H1.
  apply bind_M in H1 as (c & t0 & [-> ->]%gets_Ok & H1). rewrite when_Ok in H1.
  apply bind_M in H as (bad & t1 & [-> ->]%failed_Ok & H). apply bind_M in H as ([] & t2 & H2 & H).
  unstuck H E as E2. destruct (s_err t) eqn:Et; [apply ret_Ok in H2 as [_ ->]; congruence|].
  assert (∀ lt, s_loans t !! i = Some lt → Inv t →
    Open s' ∧ Forall (asleep on) (s_cashBuckets s') ∧ agenda s' = agenda t ∧
    (∀ j l, j ≠ i → s_loans t !! j = Some l → ∃ l', s_loans s' !! j = Some l' ∧ (tasks on l' ≤ tasks on l)%nat) ∧
    ∃ l', s_loans s' !! i = Some l' ∧ ((0 < tasks on lt)%nat → (tasks on l' < tasks on lt)%nat)) as Hrest.
  { intros lt Lt HIt. destruct (due_now_effect _ _ _ _ _ _ H2 E2 HIt Hon Lt) as (HO2 & A2 & l2 & L2 & Ht2).
    destruct (routeCash_effect _ Hinp _ _ _ _ _ H E HO2 Hon) as (HO3 & [Hf Hpd Hn Hl] & _ & Hal).
    assert (∀ j l, s_loans t2 !! j = Some l → ∃ l', s_loans s' !! j = Some l' ∧ (tasks on l' ≤ tasks on l)%nat) as Hall.
    { intros j l Lj. destruct (Hl j l Lj) as (l' & L' & Hc & _ & Hd). exists l'. split; [done|].
      destruct Hd as [Hsd|(_ & _ & Hlt)].
      - apply tasks_same_due; [done|]. apply (f_equal (.!! j)) in Hpd. unfold pendings in Hpd.
        rewrite !list_lookup_fmap, Lj, L' in Hpd. by injection Hpd.
      - rewrite tasks_done; [lia|]. destruct (l_closed l'); [by left|right; auto]. }
    split_and!; [done|done|by rewrite (fixed_agenda _ _ Hf); apply A2|..].
    - intros j l Hj Lj. destruct (ad_others _ _ _ _ A2 j l Hj Lj) as (lj & Lj2 & Sj & Pj).
      destruct (Hall j lj Lj2) as (l' & L' & Hle). exists l'. split; [done|].
      pose proof (tasks_same_due on l lj Sj Pj). lia.
    - destruct (Hall i l2 L2) as (l' & L' & Hle). exists l'. split; [done|]. intros H0. specialize (Ht2 H0). lia. }
  destruct (Z.eqb_spec (PayDay (cash_plan s)) 0) as [Hpd|Hpd]; cbn [andb] in H1.
  2:{ subst t. destruct (Hrest l0 L0 HI) as (? & ? & [= Ei Ep En Ey El] & ? & ?).
    split_and!; try done. right. split_and!; try done. unfold incomes. congruence. }
  destruct (Z.eqb_spec (ym on) (s_incomeYM s)) as [Hym|Hym]; cbn [negb] in H1.
  { subst t. destruct (Hrest l0 L0 HI) as (? & ? & [= Ei Ep En Ey El] & ? & ?).
    split_and!; try done. right. split_and!; try done. unfold incomes. congruence. }
  destruct (income_effect _ Hinp _ _ _ _ H1 Et HI Hon) as (HO1 & Hca & _ & Hni & Hiy).
  destruct (Forall2_lookup_l _ _ _ _ _ (ca_loans _ _ _ Hca) L0) as (lt & Lt & _).
  destruct (Hrest lt Lt (proj1 HO1)) as (? & ? & Hag & _). unfold agenda, incomes in Hag. injection Hag as Ei Ep En Ey El.
  destruct Hca. split_and!; try done; try congruence. left. split_and!; try done; try congruence.
  rewrite En, Hni. unfold pays_in. by rewrite Hpd.
Qed.
End Dues.
