(* ===== verification/Periods.v ===== *)
(** The turn of a spending period: unspent cash released to the household, the
    reporting cycle turned, permission and promises renewed. *)
From S2P Require Import Prelude Money Dates Model Allocation Schedule Calendar Fees PlanBase PlanInput.
From S2P Require Import SimState Sim SimLogic Quotes Obligations Payments Books Cycles Routing Events.

#[local] Arguments sum_by : simpl never.
#[local] Arguments owed : simpl never.
#[local] Arguments restricted : simpl never.

Section Periods.
Context (inp : Input) (Hinp : input_ok inp).
#[local] Abbreviation Inv := (Books.Inv inp).
#[local] Abbreviation Open := (Books.Open inp).

Lemma release_cash_Inv s u s' :
  release_cash s = Ok (u, s') → s_err s' = None → Inv s → Inv s' ∧ s_cycle s' = s_cycle s ∧ clocks s' = clocks s.
Proof using Hinp.
  intros H E HI. unfold release_cash in H. apply bind_M in H as (r & t & H1 & H). unstuck H E as Et.
  destruct (reserved_value _ Hinp _ _ _ H1 Et (Inv_Sound _ _ HI)) as (-> & Hm & Hw).
  apply bind_M in H as (c & t & [-> ->]%gets_Ok & H). apply bind_M in H as (tr & t & H2 & H). unstuck H E as E2.
  apply sticky_Ok in H2 as (_ & -> & Hs); [|done].
  pose proof (iv_stored _ s HI) as Hst. apply Sub_stored in Hs as (Hm2 & Hw2 & _); [|apply Hst|done].
  rewrite when_Ok, Sign_pos_iff in H. destruct (Z.ltb_spec 0 (minor tr)); [|by subst s'].
  steps H. cbn in E. unstick E. cbn in *.
  repeat match goal with
  | R : Add _ _ = Ok _ |- _ => apply Add_stored in R as (? & ? & _); [|apply Hst|done]
  | R : Sub _ _ = Ok _ |- _ => apply Sub_stored in R as (? & ? & _); [|apply Hst|done]
  end.
  pose proof (slack_cash _ Hinp s (Inv_Sound _ _ HI)) as Hsl. unfold slack in Hsl.
  split; [|done]. destruct HI. split; cbn; try done.
  - by destruct Hst.
  - lia.
  - unfold restricted in *. cbn. lia.
Qed.

Lemma turn_cycle_Open on s u s' :
  turn_cycle on s = Ok (u, s') → s_err s' = None → Inv s → Open s' ∧ clocks s' = clocks s.
Proof using Hinp.
  intros H E HI. unfold turn_cycle in H. apply bind_M in H as (n & t & [-> ->]%gets_Ok & H).
  apply bind_M in H as (rule & t & [-> ->]%gets_Ok & H). apply bind_M in H as ([] & t1 & H1 & H).
  apply bind_M in H as ([] & t2 & H2 & H). pose proof (sticks_openCycle _ _ _ _ H E) as E2.
  pose proof (sticks_when _ _ sticks_closeCycle _ _ _ H2 E2) as E1. rewrite when_Ok in H1, H2.
  assert (Inv t1 ∧ s_cycle t1 = s_cycle s ∧ clocks t1 = clocks s) as (HI1 & Ec & Ek).
  { destruct ((0 <? s_cycle s) && String.eqb (s_carryRule s) NoCarry); [eapply release_cash_Inv; [exact H1|exact E1|exact HI]|by subst t1]. }
  assert (Inv (unbooked t2) ∧ clocks t2 = clocks s) as [HI2 Ek2].
  { destruct (Z.ltb_spec 0 (s_cycle s)).
    - destruct (closeCycle_Inv _ _ _ _ H2 E2 HI1) as (? & Hk & _). by rewrite <- Ek.
    - subst t2. split; [|done]. apply unbooked_start; [done|]. pose proof (iv_cycle _ t1 HI1). lia. }
  destruct (openCycle_Inv _ _ _ _ _ H HI2) as (? & Hk & _). split; [done|congruence].
Qed.

Lemma in_force_ok on changes : ∀ t,
  Forall (λ ch, wf_amount (Limit ch) ∧ dated (ScOn ch) ∧ ticks (ScCarryUntil ch)) changes →
  wf_amount (fst t) → ticks (snd (snd t)) →
  wf_amount (fst (in_force on changes t)) ∧ ticks (snd (snd (in_force on changes t))).
Proof using Type.
  induction changes as [|ch changes IH]; intros t Hc Hw Ht; cbn [in_force]; [done|].
  apply Forall_cons in Hc as [(? & ? & ?) Hcs]. destruct (After (ScOn ch) on); [done|].
  apply IH; [done|done|]. cbn. by case_match.
Qed.

Lemma spending_Ok s p s' : spending s = Ok (p, s') → s' = s ∧ Spending (cash_plan s) = Some p.
Proof using Type. unfold spending. destruct (Spending (cash_plan s)); naive_solver. Qed.

Lemma next_change_dated p on : spending_ok p → dated on → dated (next_change p on) ∧ time on < time (next_change p on).
Proof using Type.
  intros Hp [Hv Hm]. unfold next_change. destruct (find _ (Changes p)) as [ch|] eqn:Ef.
  - apply find_some in Ef as [Hin [Ha Hb]%andb_true_iff]. apply list_elem_of_In in Hin.
    apply (proj1 (Forall_forall _ _) (sp_changes p Hp)) in Hin as (_ & Hd & _).
    split; [done|]. by rewrite After_time, Z.ltb_lt in Ha by auto.
  - destruct (period_bounds p on (sp_day p Hp) Hv Hm) as (m & _ & (Hve & Em & _) & Hmo & Hlt).
    split; [split; [done|lia]|lia].
Qed.

(** The figures a period assigns. *)
Lemma period_Inv s start spent left next rule minimum until :
  Inv s → wf_amount spent → wf_amount left → 0 ≤ minor left → ticks next → ticks until →
  Inv (s <| s_periodStart := start |> <| s_periodSpent := spent |> <| s_periodLeft := left |> <| s_nextPeriod := next |>
    <| s_carryRule := rule |> <| s_carryMinimum := minimum |> <| s_carryUntil := until |>).
Proof using Type.
  intros [] Hs Hl Hl0 Hn Hu. destruct iv_clocks as (? & ? & ? & ?). split; cbn; try done. by destruct iv_stored.
Qed.

Lemma unpend_all_Inv s z : Inv s → Inv (set s_loans (fmap (set l_pending (λ _, Zero z))) s).
Proof using Type.
  intros []. split; cbn; try done.
  - by destruct iv_stored.
  - apply Forall_fmap. eapply Forall_impl; [exact iv_loans|]. intros l []. by split.
  - by rewrite <- list_fmap_compose.
  - unfold owed in *. rewrite sum_by_fmap_same by done. lia.
Qed.

Lemma open_period_Inv p start s u s' :
  open_period p start s = Ok (u, s') → Inv s → spending_ok p →
  s' = s <| s_periodStart := start |> <| s_periodSpent := s_periodSpent s' |> ∧ wf_amount (s_periodSpent s').
Proof using Type.
  intros H HI Hp. unfold open_period in H. steps H. split; [done|]. cbn. case_match; [apply Hp|apply wf_zero].
Qed.

Lemma period_terms_ok s p on :
  Inv s → spending_ok p →
  wf_amount (fst (period_terms s p on)) ∧ ticks (snd (snd (period_terms s p on))).
Proof using Type.
  intros HI Hp. unfold period_terms. apply in_force_ok; [apply Hp| |apply Hp]. cbn.
  destruct (SpOverrides p !! _) as [a|] eqn:Ea; cbn; [by apply (sp_overrides p Hp _ _ Ea)|].
  apply held_wf, (iv_stored _ s HI).
Qed.

(** A new period forgets what was promised, turns the cycle and spends what is
    free; the next one begins later. *)
Lemma period_effect on s u s' :
  period on s = Ok (u, s') → s_err s' = None → Inv s → dated on →
  (Dates.IsZero (s_periodStart s) = false → 0 < s_cycle s) →
  Open s' ∧ Forall (asleep on) (s_cashBuckets s') ∧ s_in s' = s_in s ∧ time on < time (s_nextPeriod s') ∧
  s_lumps s' = s_lumps s ∧ incomes s' = incomes s.
Proof using Hinp.
  intros H E HI Hon Hst. unfold period in H. apply bind_M in H as (p & t & Hsp & H).
  apply spending_Ok in Hsp as [-> Hsp].
  assert (spending_ok p) as Hp.
  { unfold cash_plan in Hsp. rewrite (iv_in _ s HI) in Hsp. by apply (in_spending inp Hinp). }
  pose proof (period_terms_ok s p on HI Hp) as Hterms.
  apply bind_M in H as (z & t & [-> ->]%gets_Ok & H). apply bind_M in H as ([limit [[rule minimum] until]] & t & [Et ->]%gets_Ok & H).
  rewrite <- Et in Hterms. cbn in Hterms. destruct Hterms as [Hlim Huntil]. clear Et.
  apply bind_M in H as (same & t & [-> ->]%gets_Ok & H). apply bind_M in H as ([] & t & H1 & H).
  assert (∃ st sp, t = s <| s_periodStart := st |> <| s_periodSpent := sp |> ∧ wf_amount sp) as (st & sp & -> & Hspent).
  { rewrite when_Ok in H1. destruct (same_period s (PeriodStart p on)); cbn in H1.
    - subst t. exists (s_periodStart s), (s_periodSpent s). split; [by destruct s|apply (iv_stored _ s HI)].
    - destruct (open_period_Inv _ _ _ _ _ H1 HI Hp) as [-> Hw]. by eexists _, _. }
  apply bind_M in H as (spent & t & [-> ->]%gets_Ok & H). cbn in H.
  apply bind_M in H as (left & t1 & Hsub & H). apply bind_M in H as ([] & t2 & ->%modify_Ok & H).
  destruct (Sign left <? 0) eqn:Eneg.
  { apply bind_M in H as (sh & t3 & _ & H). apply modify_Ok in H as ->. done. }
  rewrite Sign_neg_iff, Z.ltb_ge in Eneg. unstuck H E as E1. cbn in E1.
  apply sticky_Ok in Hsub as (_ & -> & Hsub); [|done]. apply Sub_stored in Hsub as (_ & Hwl & _); [|done..].
  destruct (next_change_dated p on Hp Hon) as [Hnd Hnlt]. pose proof (iv_clocks _ s HI) as (_ & _ & _ & Hu0).
  apply bind_M in H as ([] & t & ->%modify_Ok & H). apply bind_M in H as ([] & t & ->%modify_Ok & H).
  apply bind_M in H as ([] & t & H2 & H).
  match type of H2 with when _ _ ?x = _ => set (s1 := x) in * end.
  assert (Inv s1 ∧ s_cycle s1 = s_cycle s ∧ agenda s1 = agenda (s <| s_nextPeriod := next_change p on |>)) as (HI1 & Ec1 & Ea1).
  { split; [|done].
    exact (unpend_all_Inv _ (s_cur s) (period_Inv s st sp left (next_change p on) (s_carryRule s) (s_carryMinimum s) (s_carryUntil s)
      HI Hspent Hwl Eneg (or_intror Hnd) Hu0)). }
  clearbody s1. repeat (apply bind_M in H as ([] & ? & ->%modify_Ok & H)).
  apply bind_M in H as ([] & t3 & H3 & H). pose proof (sticks_allocate _ _ _ _ H E) as E3. rewrite when_Ok in H2, H3.
  assert (s_err t = None) as Et.
  { destruct (String.eqb rule CarryToDate && _ && _); [apply modify_Ok in H3; subst t3|subst t3]; done. }
  assert (Open t ∧ agenda t = agenda s1) as [HO Ea].
  { destruct (same_period s (PeriodStart p on)) eqn:Esame; cbn in H2.
    - subst t. split; [|done]. split; [done|]. rewrite Ec1. apply Hst.
      unfold same_period in Esame. apply andb_true_iff in Esame as [Hz _]. by apply negb_true_iff in Hz.
    - destruct (turn_cycle_Open _ _ _ _ H2 Et HI1) as [? Hk]. split; [done|]. by apply clocks_agenda. }
  rewrite Ea1 in Ea.
  assert (Open t3 ∧ ∃ d, time on < time d ∧ agenda t3 = agenda (s <| s_nextPeriod := d |>)) as (HO3 & d & Hd & E3a).
  { pose proof (iv_stored _ t (proj1 HO)) as Hst'.
    destruct (String.eqb rule CarryToDate && After until on && _) eqn:Ecarry;
      [apply modify_Ok in H3; subst t3|subst t3]; split; [split; [|apply HO]| |split; [|apply HO]|].
    - exact (period_Inv t (s_periodStart t) (s_periodSpent t) (s_periodLeft t) until rule minimum until (proj1 HO)
        (st_spent _ Hst') (st_left _ Hst') (iv_left _ t (proj1 HO)) Huntil Huntil).
    - exists until. split; [|unfold agenda, incomes in *; cbn in *; congruence].
      apply andb_true_iff in Ecarry as [[_ Ha]%andb_true_iff Hb]. destruct Huntil as [Hz|Hu].
      + by rewrite (After_zero until on Hon Hz) in Ha.
      + by rewrite After_time, Z.ltb_lt in Ha by auto.
    - exact (period_Inv t (s_periodStart t) (s_periodSpent t) (s_periodLeft t) (s_nextPeriod t) rule minimum until (proj1 HO)
        (st_spent _ Hst') (st_left _ Hst') (iv_left _ t (proj1 HO)) (proj1 (iv_clocks _ t (proj1 HO))) Huntil).
    - exists (next_change p on). split; [done|]. exact Ea. }
  destruct (allocate_effect _ Hinp _ _ _ _ H E HO3 Hon) as (HO4 & Hsp4 & Hal & _).
  pose proof (fixed_same _ _ (sd_fixed _ _ _ Hsp4)) as ((Ei & _) & (_ & _ & _ & En & Ey & El & _ & Ep & _) & _).
  unfold agenda in E3a. cbn in E3a. injection E3a as Fi Fp Fn Fy Fl.
  split_and!; try congruence. unfold incomes. congruence.
Qed.
End Periods.
