(* ===== verification/Runs.v ===== *)
(** Whole runs: the order of events, the books of every state a run reaches,
    and what a finished run accounts for. *)
From S2P Require Import Prelude Money Dates Model Allocation Schedule Calendar Fees PlanBase PlanInput.
From S2P Require Import SimState Sim SimLogic Quotes Obligations Payments Books Cycles Routing Events Dues Periods.

#[local] Arguments sum_by : simpl never.
#[local] Arguments owed : simpl never.
#[local] Arguments restricted : simpl never.

(** * The next event *)

(** Earlier in time, or of a lower rank on the same day. *)
Definition sooner (a b : choice) : bool :=
  Before (ch_on a) (ch_on b) || (Equal (ch_on a) (ch_on b) && (rank (ch_kind a) <? rank (ch_kind b))).

Lemma sooner_spec a b :
  sooner a b = true ↔
  Year (ch_on a) < Year (ch_on b) ∨ Year (ch_on a) = Year (ch_on b) ∧
    (Month (ch_on a) < Month (ch_on b) ∨ Month (ch_on a) = Month (ch_on b) ∧
      (Day (ch_on a) < Day (ch_on b) ∨ Day (ch_on a) = Day (ch_on b) ∧ rank (ch_kind a) < rank (ch_kind b))).
Proof.
  unfold sooner, Before, Equal, Compare. rewrite orb_true_iff, andb_true_iff, !Z.ltb_lt, bool_decide_eq_true.
  destruct (ch_on a) as [y m d], (ch_on b) as [y' m' d']. cbn [Year Month Day].
  assert (MkDate y m d = MkDate y' m' d' ↔ y = y' ∧ m = m' ∧ d = d') as -> by naive_solver.
  repeat (case_match; rewrite ?negb_true_iff, ?negb_false_iff, ?Z.eqb_eq, ?Z.eqb_neq, ?Z.ltb_lt, ?Z.ltb_ge in *); lia.
Qed.

Lemma sooner_irrefl a : sooner a a = false.
Proof. rewrite <- not_true_iff_false, sooner_spec. lia. Qed.
Lemma sooner_trans a b c : sooner a b = true → sooner b c = true → sooner a c = true.
Proof. rewrite !sooner_spec. lia. Qed.
Lemma not_sooner_trans a b c : sooner b a = false → sooner c b = false → sooner c a = false.
Proof. rewrite <- !not_true_iff_false, !sooner_spec. lia. Qed.
Lemma sooner_not a b c : sooner a b = true → sooner c b = false → sooner a c = true.
Proof. rewrite <- not_true_iff_false, !sooner_spec. lia. Qed.

(** [consider] over a list: the first of the soonest. *)
Lemma consider_fold l : ∀ b,
  ∃ c, foldl consider (Some b) l = Some c ∧ c ∈ b :: l ∧ (∀ x, x ∈ b :: l → sooner x c = false) ∧
  (c = b ∨ ∃ l1 l2, l = l1 ++ c :: l2 ∧ ∀ x, x ∈ b :: l1 → sooner c x = true).
Proof.
  induction l as [|y l IH]; intros b.
  { exists b. split_and!; [done|by left| |by left]. intros x [->|[]%elem_of_nil]%elem_of_cons. apply sooner_irrefl. }
  cbn [foldl]. unfold consider at 2. change (_ || _) with (sooner y b). destruct (sooner y b) eqn:E.
  - destruct (IH y) as (c & -> & Hc & Hmin & Hfirst). exists c. split_and!; [done|by right| |].
    + intros x [->|Hx]%elem_of_cons; [|by apply Hmin].
      rewrite <- not_true_iff_false. intros Hbc.
      pose proof (sooner_trans _ _ _ E Hbc) as Hyc. by rewrite (Hmin y) in Hyc by (by left).
    + right. destruct Hfirst as [->|(l1 & l2 & -> & Hl1)].
      * exists [], l. split; [done|]. intros x [->|[]%elem_of_nil]%elem_of_cons. done.
      * exists (y :: l1), l2. split; [done|]. intros x [->|Hx]%elem_of_cons; [|by apply Hl1].
        eapply sooner_trans; [apply Hl1; by left|done].
  - destruct (IH b) as (c & -> & Hc & Hmin & Hfirst). exists c. split_and!.
    + done.
    + apply elem_of_cons in Hc as [->|]; [by left|by do 2 right].
    + intros x Hx. apply elem_of_cons in Hx as [->|Hx]; [apply Hmin; by left|].
      apply elem_of_cons in Hx as [->|Hx]; [|apply Hmin; by right].
      eapply not_sooner_trans; [|exact E]. apply Hmin. by left.
    + destruct Hfirst as [->|(l1 & l2 & -> & Hl1)]; [by left|right]. exists (y :: l1), l2. split; [done|].
      intros x Hx. apply elem_of_cons in Hx as [->|Hx]; [apply Hl1; by left|].
      apply elem_of_cons in Hx as [->|Hx]; [|apply Hl1; by right].
      eapply sooner_not; [apply Hl1; by left|exact E].
Qed.

Lemma nextEvent_spec s :
  candidates s ≠ [] →
  ∃ l1 l2, candidates s = l1 ++ nextEvent s :: l2 ∧ (∀ x, x ∈ l1 → sooner (nextEvent s) x = true) ∧
    ∀ x, x ∈ candidates s → sooner x (nextEvent s) = false.
Proof.
  unfold nextEvent. destruct (candidates s) as [|b l]; [done|]. intros _. cbn [foldl].
  change (consider None b) with (Some b). destruct (consider_fold l b) as (c & -> & _ & Hmin & Hfirst). cbn [default].
  destruct Hfirst as [->|(l1 & l2 & -> & Hl1)].
  - exists [], l. split_and!; [done|by intros x ?%elem_of_nil|done].
  - by exists (b :: l1), l2.
Qed.

(** What a candidate stands for. *)
Definition stands_for (s : sim) (c : choice) : Prop :=
  match ch_kind c with
  | evPeriod => Dates.IsZero (s_nextPeriod s) = false ∧ ch_on c = s_nextPeriod s
  | evIncome => Dates.IsZero (s_nextIncome s) = false ∧ ch_on c = s_nextIncome s
  | evRoute => ∃ b, b ∈ s_cashBuckets s ∧ Dates.IsZero (b_wake b) = false ∧ ch_on c = b_wake b
  | evLump => ∃ l, s_lumps s !! ch_idx c = Some l ∧ ch_on c = CeOn l
  | evDue => ∃ l, s_loans s !! ch_idx c = Some l ∧ l_closed l = false ∧ ch_on c = l_due l
  end.

Lemma elem_of_if_set k d c : c ∈ if_set k d → Dates.IsZero d = false ∧ ch_on c = d ∧ ch_kind c = k.
Proof. unfold if_set. destruct (Dates.IsZero d); [by intros ?%elem_of_nil|]. by intros ->%list_elem_of_singleton. Qed.

Lemma elem_of_dues s c :
  c ∈ concat (imap (λ i l, if l_closed l then [] else [MkChoice evDue (l_due l) i]) (s_loans s)) ↔
  ∃ i l, s_loans s !! i = Some l ∧ l_closed l = false ∧ c = MkChoice evDue (l_due l) i.
Proof.
  rewrite list_elem_of_In, in_concat. split.
  - intros (cs & Hcs & Hc). apply list_elem_of_In in Hcs, Hc.
    apply elem_of_lookup_imap in Hcs as (i & l & -> & L). exists i, l.
    destruct (l_closed l) eqn:E; [by apply elem_of_nil in Hc|]. by apply list_elem_of_singleton in Hc.
  - intros (i & l & L & E & ->). exists [MkChoice evDue (l_due l) i]. rewrite <- !list_elem_of_In.
    split; [|by left]. apply elem_of_lookup_imap. exists i, l. by rewrite E.
Qed.

Lemma candidates_stand_for s c : c ∈ candidates s → stands_for s c.
Proof.
  unfold candidates, stands_for. rewrite !elem_of_app.
  intros [(?&?&->)%elem_of_if_set|[(?&?&->)%elem_of_if_set|[Hr|[Hl|Hd]]]]; try done.
  - apply list_elem_of_bind in Hr as (b & Hc & Hb). apply elem_of_if_set in Hc as (?&?&->). by exists b.
  - apply elem_of_lookup_imap in Hl as (i & l & -> & L). by exists l.
  - apply elem_of_dues in Hd as (i & l & L & E & ->). by exists l.
Qed.

(** With a loan open there is always something to wait for. *)
Lemma candidates_open s : allClosed s = false → candidates s ≠ [].
Proof.
  intros H Hnil. assert (∃ i l, s_loans s !! i = Some l ∧ l_closed l = false) as (i & l & L & E).
  { unfold allClosed in H. induction (s_loans s) as [|l ls IH]; [done|]. cbn [forallb] in H.
    destruct (l_closed l) eqn:E; [|by exists 0%nat, l]. destruct (IH H) as (i & l' & L & E'). by exists (S i), l'. }
  assert (MkChoice evDue (l_due l) i ∈ candidates s) as Hin; [|rewrite Hnil in Hin; by apply elem_of_nil in Hin].
  unfold candidates. rewrite !elem_of_app. do 4 right. apply elem_of_dues. by exists i, l.
Qed.

Lemma nextEvent_stands s : allClosed s = false → stands_for s (nextEvent s).
Proof.
  intros (l1 & l2 & E & _)%candidates_open%nextEvent_spec. apply candidates_stand_for.
  rewrite E. apply elem_of_app. right. by left.
Qed.

(** * The books of a run *)

Section Runs.
Context (inp : Input) (Hinp : input_ok inp).
#[local] Abbreviation Inv := (Books.Inv inp).
#[local] Abbreviation Open := (Books.Open inp).

(** Between events: the books hold, and a period that began has its cycle. *)
Definition Ready (s : sim) : Prop := Inv s ∧ (Dates.IsZero (s_periodStart s) = false → 0 < s_cycle s).

Lemma Open_Ready s : Open s → Ready s.
Proof using Type. by intros []. Qed.

Lemma stands_dated s c : Inv s → stands_for s c → dated (ch_on c).
Proof using Type.
  intros HI. unfold stands_for. pose proof (iv_clocks _ s HI) as (Hp & Hi & _).
  destruct (ch_kind c).
  - intros [Hz ->]. destruct Hp; [congruence|done].
  - intros (l & L & ->). by apply (proj1 (Forall_lookup _ _) (iv_lumps _ s HI) _ _ L).
  - intros [Hz ->]. destruct Hi; [congruence|done].
  - intros (b & Hb & Hz & ->). apply (proj1 (Forall_forall _ _) (iv_buckets _ s HI)) in Hb as (_ & [|] & _); [congruence|done].
  - intros (l & L & E & ->). by apply (lk_due _ (Inv_loan _ _ _ _ HI L)).
Qed.

(** Every event keeps the books. *)
Lemma handle_Open c s u s' :
  handle c s = Ok (u, s') → s_err s' = None → Ready s → stands_for s c → Open s'.
Proof using Hinp.
  intros H E [HI Hp] Hc. pose proof (stands_dated s c HI Hc) as Hon. unfold handle, stands_for in *.
  destruct (ch_kind c).
  - by apply (period_effect _ Hinp _ _ _ _ H E HI Hon Hp).
  - destruct (lump_received _ Hinp _ _ _ _ H E HI) as (l & _ & []). done.
  - by apply (income_effect _ Hinp _ _ _ _ H E HI Hon).
  - apply bind_M in H as ([] & t & H1 & H). destruct (ensure_cycle_Open _ _ _ _ _ H1 HI) as (HO & _).
    by apply (allocate_effect _ Hinp _ _ _ _ H E HO Hon).
  - destruct Hc as (l & L & _). by apply (due_effect _ Hinp _ _ _ _ _ _ H E HI Hon L).
Qed.

(** One turn of the loop, and the states a run passes through. *)
Definition turns (s s' : sim) : Prop :=
  allClosed s = false ∧ After (ch_on (nextEvent s)) (horizon_date s) = false ∧
  handle (nextEvent s) s = Ok (tt, s') ∧ s_err s' = None.

Lemma turns_Ready s s' : turns s s' → Ready s → Ready s'.
Proof using Hinp.
  intros (Hcl & _ & H & E) HR. apply Open_Ready. eapply handle_Open; [exact H|done|done|]. by apply nextEvent_stands.
Qed.

Lemma reach_Ready s s' : rtc turns s s' → Ready s → Ready s'.
Proof using Hinp. induction 1; [done|]. intros HR. by eauto using turns_Ready. Qed.

Lemma loop_reaches fuel : ∀ s r s',
  loop fuel s = Ok (r, s') →
  ∃ t, rtc turns s t ∧ (r = inr tt → s' = t ∧ allClosed t = true).
Proof using Type.
  induction fuel as [|fuel IH]; intros s r s' H; [done|]. cbn [loop] in H.
  apply bind_M in H as (cl & t & [-> ->]%gets_Ok & H). destruct (allClosed s) eqn:Ecl.
  { apply ret_Ok in H as [-> ->]. exists s. split; [apply rtc_refl|done]. }
  apply bind_M in H as (c & t & [-> ->]%gets_Ok & H). apply bind_M in H as (far & t & [-> ->]%gets_Ok & H).
  destruct (After (ch_on (nextEvent s)) (horizon_date s)) eqn:Efar.
  { apply ret_Ok in H as [-> ->]. exists s. split; [apply rtc_refl|done]. }
  apply bind_M in H as ([] & t & H1 & H). apply bind_M in H as (e & t1 & [-> ->]%gets_Ok & H).
  destruct (s_err t) eqn:Et.
  { apply ret_Ok in H as [-> ->]. exists s. split; [apply rtc_refl|done]. }
  destruct (IH _ _ _ H) as (t' & Hrt & Hr). exists t'. split; [|done].
  eapply rtc_l; [|exact Hrt]. by split.
Qed.

(** ** The start *)

Lemma add_loan_effect pol i p s r s' :
  add_loan pol i p s = Ok (r, s') → cache_ok (s_cache s) →
  loan_terms (PosContract p) → held (PosBalance p) → dated (From p) →
  ∀ u, r = inr u → ∃ m l, s' = s <| s_cache := m |> <| s_loans := s_loans s ++ [l] |> ∧ cache_ok m ∧ loan_ok l ∧
    l_pos l = p ∧ minor (l_balance l) = minor (PosBalance p).
Proof using Type.
  intros H Hm Ht Hb Hf [] ->. unfold add_loan in H. apply bind_M in H as (z & t & [-> ->]%gets_Ok & H).
  cbv zeta in H. set (l0 := start_loan pol (zero s) i p) in *. unfold zero in l0.
  pose proof (start_loan_ok pol (s_cur s) i p (From p) Ht Hb Hf Hf) as Hl0. fold l0 in Hl0.
  apply and_then_Ok in H as [(e & _ & [=])|(l & t & H1 & H)].
  apply bind_M in H as ([] & t1 & ->%modify_Ok & H). apply ret_Ok in H as [_ ->].
  rewrite Sign_nonpos_iff in H1. destruct (Z.leb_spec (minor (PosBalance p)) 0) as [Hz|].
  - apply ret_Ok in H1 as [[= ->] ->]. destruct Hb as [Hb0 Hb1].
    eexists (s_cache s), _. split; [by destruct s|]. split_and!; [done| |done|done].
    destruct Hl0. split; cbn; try done. cbn in *. lia.
  - assert (refreshed l0 s = refreshed (l0 <| l_due := From p |>) s) as Er by done. rewrite Er in H1.
    destruct (refreshed_cache _ _ _ _ H1 Hm Hl0) as (m & -> & Hm' & Hr).
    destruct (Hr l eq_refl) as (Hl & _ & _ & o & ->).
    eexists m, _. split; [reflexivity|]. done.
Qed.

Lemma add_loans_effect pol ps : ∀ i s s',
  add_loans pol i ps s = Ok (inr tt, s') → cache_ok (s_cache s) →
  Forall (λ p, loan_terms (PosContract p) ∧ held (PosBalance p) ∧ dated (From p)) ps →
  ∃ m ls, s' = s <| s_cache := m |> <| s_loans := s_loans s ++ ls |> ∧ cache_ok m ∧ Forall loan_ok ls ∧
    l_pos <$> ls = ps ∧ owed ls = sum_by (λ p, minor (PosBalance p)) ps.
Proof using Type.
  induction ps as [|p ps IH]; intros i s s' H Hm Hps; cbn [add_loans] in H.
  { apply ret_Ok in H as [_ ->]. exists (s_cache s), []. split_and!; [|done..]. rewrite app_nil_r. by destruct s. }
  apply Forall_cons in Hps as [(Ht & Hb & Hf) Hps]. apply and_then_Ok in H as [(e & _ & [=])|(u & t & H1 & H)].
  destruct (add_loan_effect _ _ _ _ _ _ H1 Hm Ht Hb Hf u eq_refl) as (m & l & -> & Hm1 & Hl & Hp & Hbal).
  destruct (IH _ _ _ H Hm1 Hps) as (m' & ls & -> & Hm2 & Hls & Hpos & How).
  exists m', (l :: ls). split_and!; [|done|by constructor|by rewrite fmap_cons, Hp, Hpos|].
  - cbn. rewrite <- app_assoc. done.
  - unfold owed, sum_by in *. cbn [foldr]. lia.
Qed.

(** Retained receipts leave the pool for their buckets, the others wait. *)
Lemma add_lumps_effect es : ∀ s u s',
  foldM add_lump tt es s = Ok (u, s') → s_err s' = None → Inv s → Forall event_ok es →
  sum_by retained es ≤ minor (s_cash s) →
  Inv s' ∧ s_periodStart s' = s_periodStart s.
Proof using Type.
  induction es as [|e es IH]; intros s u s' H E HI Hes Hcash; cbn [foldM] in H.
  { apply ret_Ok in H as [_ ->]. done. }
  apply Forall_cons in Hes as [He Hes]. apply bind_M in H as ([] & t & H1 & H).
  assert (∀ b x, sticks (add_lump b x)) as Hstick by (intros; unfold add_lump; sticks).
  pose proof (sticks_foldM _ _ Hstick _ _ _ _ H E) as Et. unfold add_lump in H1.
  apply bind_M in H1 as ([] & t1 & Hr & H1).
  assert (∃ b, t1 = set s_hasRouting (λ _, b) s) as [b ->].
  { rewrite when_Ok in Hr. destruct (is_routed e); [steps Hr; by eexists|]. subst t1. exists (s_hasRouting s). by destruct s. }
  unfold sum_by in Hcash. cbn [foldr] in Hcash. fold (sum_by retained es) in Hcash. unfold retained at 1 in Hcash.
  assert (0 ≤ sum_by retained es) as Hrest.
  { apply sum_by_nonneg. intros x Hx. apply (proj1 (Forall_forall _ _) Hes) in Hx as ([? _] & _).
    unfold retained. destruct (FromOpening x); lia. }
  assert (Inv (set s_hasRouting (λ _, b) s)) as HI1.
  { destruct HI. split; cbn; try done. by destruct iv_stored. }
  set (s1 := set s_hasRouting (λ _, b) s) in *. assert (s_periodStart s1 = s_periodStart s ∧ s_cash s1 = s_cash s) as [Ep Ec] by done.
  rewrite <- Ec in Hcash. rewrite <- Ep. clearbody s1. clear Hr HI Ep Ec s.
  destruct (FromOpening e).
  - apply bind_M in H1 as ([] & t2 & H2 & H1). pose proof (sticks_addRouted _ _ _ _ H1 Et) as E2.
    steps H2. cbn in E2. unstick E2. pose proof (iv_stored _ s1 HI1) as Hst. pose proof He as ([Ha0 Ha1] & _).
    match goal with R : Sub _ _ = Ok ?v |- _ => rename v into c; apply Sub_stored in R as (Hc & Hwc & _); [|apply Hst|unfold_i64; lia] end.
    destruct (addRouted_effect _ _ _ _ H1 Et) as (bs & -> & Hbs & Hsum & _); [apply HI1|done|].
    cbn in Hsum. unfold restricted in Hsum. cbn in Hsum.
    assert (Inv (s1 <| s_cash := c |> <| s_cashBuckets := bs |>)) as HI2.
    { refine (money_Inv _ s1 c bs (s_inflow s1) HI1 _ _ _ _ _); [lia|done|apply Hst|done|]. unfold restricted. lia. }
    destruct (IH _ _ _ H E HI2 Hes) as (? & Hp); [cbn; lia|]. done.
  - rewrite when_Ok in H1. destruct (negb (Expected e)).
    + steps H1.
      destruct (IH _ _ _ H E) as (? & Hp); [|done|cbn; lia|done].
      apply drop_lumps_Inv; [done|]. apply Forall_app. split; [apply HI1|by apply Forall_singleton].
    + subst t. by destruct (IH _ _ _ H E HI1 Hes ltac:(lia)).
Qed.

(** The clocks a run starts with. *)
Lemma clock_Inv s next ym :
  Inv s → ticks next →
  ∀ period nominal, ticks period → ticks nominal →
  Inv (s <| s_nextPeriod := period |> <| s_nominalIncome := nominal |> <| s_nextIncome := next |> <| s_incomeYM := ym |>).
Proof using Type.
  intros [] Hn period nominal Hp Hnom. destruct iv_clocks as (? & ? & ? & ?).
  split; cbn; try done. by destruct iv_stored.
Qed.

Lemma firstIncome_effect s d s' :
  firstIncome s = Ok (d, s') → Inv s → ticks d ∧ ∃ nominal, s' = s <| s_nominalIncome := nominal |> ∧ ticks nominal.
Proof using Hinp.
  intros H HI. unfold firstIncome in H. apply bind_M in H as (p & t & [-> ->]%gets_Ok & H).
  apply bind_M in H as (delay & t & [-> ->]%gets_Ok & H). apply bind_M in H as (v & t & [-> ->]%gets_Ok & H).
  rewrite (iv_delay _ s HI) in H. pose proof (iv_clocks _ s HI) as (_ & _ & Hnom & _).
  destruct (PayDay (cash_plan s) =? 0).
  { apply ret_Ok in H as [-> ->]. split; [by left|]. exists (s_nominalIncome s). split; [by destruct s|done]. }
  cbv zeta in H. set (v := ValuationDate (s_in s)) in *. set (day := PayDay (cash_plan s)) in *.
  assert (dated v) as Hv by (unfold v; rewrite (iv_in _ s HI); apply Hinp). pose proof Hv as [Hvv Hvm].
  match type of H with context [assign s_nominalIncome ?x] => set (d0 := x) in * end.
  assert (dated d0) as Hd0.
  { subst d0. destruct (next_pay_day v day Hv) as [Hn _]. case_match; [done|].
    destruct (OnDayOfMonth_facts v day (proj1 Hvv)) as (? & ? & _). split; [done|lia]. }
  clearbody d0. apply bind_M in H as ([] & t & ->%modify_Ok & [-> ->]%ret_Ok).
  assert (AddDays d0 0 = d0) as -> by (apply time_inj; [apply AddDays_valid|apply Hd0|rewrite time_AddDays; lia]).
  split; [by right|]. exists d0. split; [done|by right].
Qed.

(** The start of a run. *)
Definition fresh_start (s : sim) : Prop := ∃ pol c sink, s = start inp pol c sink 0 ∧ cache_ok c.

Lemma setup_Ready s u s' :
  setup s = Ok (inr u, s') → s_err s' = None → fresh_start s → Ready s'.
Proof using Hinp.
  intros H E (pol & c & sink & -> & Hc). unfold setup in H.
  apply bind_M in H as (i0 & t & [-> ->]%gets_Ok & H). apply bind_M in H as (p0 & t & [-> ->]%gets_Ok & H).
  apply and_then_Ok in H as [(e & _ & [=])|([] & t & H1 & H)].
  destruct (add_loans_effect _ _ _ _ _ H1 Hc) as (m & ls & -> & Hm & Hls & Hpos & How); [apply Hinp|].
  cbn in H. match type of H with _ ?x = _ => set (s1 := x) in * end.
  assert (Inv s1) as HI1.
  { assert (held (or_zero (OpeningCash (Cash inp)) (in_currency inp))) as Hop by (apply held_or_zero, Hinp).
    split; cbn; try done.
    - split; cbn; try apply wf_zero; try (apply held_wf; done); try (by unfold wf_amount, no_amount; unfold_i64; simpl; lia).
      destruct (Spending (Cash inp)) as [p|] eqn:Ep; [by apply (in_spending inp Hinp)|apply Hinp].
    - apply Hop.
    - split_and!; by left.
    - unfold opening, restricted, sum_by. cbn [foldr]. cbn. lia.
    - rewrite How. unfold borrowed. cbn. lia. }
  assert (s_periodStart s1 = zero_date ∧ s_cash s1 = or_zero (OpeningCash (Cash inp)) (in_currency inp)) as [Ep1 Ec1] by done.
  clearbody s1. apply bind_M in H as ([] & t & H2 & H). unstuck H E as E2.
  destruct (add_lumps_effect _ _ _ _ H2 E2 HI1) as [HI2 Ep2]; [apply Hinp|rewrite Ec1; apply Hinp|].
  apply bind_M in H as (sep & t1 & [-> ->]%gets_Ok & H). apply bind_M in H as ([] & t2 & H3 & H).
  apply bind_M in H as (d & t3 & H4 & H). apply bind_M in H as ([] & t4 & ->%modify_Ok & H).
  apply bind_M in H as ([] & t5 & H5 & [_ ->]%ret_Ok).
  assert (∃ per, t2 = set s_nextPeriod (λ _, per) t ∧ ticks per) as (per & -> & Hper).
  { rewrite when_Ok in H3. destruct (separate t).
    - apply modify_Ok in H3 as ->. eexists. split; [done|]. right. apply Hinp.
    - subst t2. exists (s_nextPeriod t). split; [by destruct t|apply (iv_clocks _ t HI2)]. }
  pose proof (iv_clocks _ t HI2) as (_ & Hni & Hno & _).
  pose proof (clock_Inv t _ (s_incomeYM t) HI2 Hni per _ Hper Hno) as HI3.
  destruct (firstIncome_effect _ _ _ H4) as (Hd & nom & -> & Hnom).
  { replace (set s_nextPeriod (λ _, per) t) with (t <| s_nextPeriod := per |> <| s_nominalIncome := s_nominalIncome t |>
      <| s_nextIncome := s_nextIncome t |> <| s_incomeYM := s_incomeYM t |>) by done. done. }
  assert (∃ n, t5 = t <| s_nextPeriod := per |> <| s_nominalIncome := nom |> <| s_nextIncome := d |> <| s_incomeYM := n |>) as [n ->].
  { rewrite when_Ok in H5. case_match; [apply modify_Ok in H5 as ->; by eexists|]. subst t5. by exists (s_incomeYM t). }
  split; [by apply clock_Inv|]. cbn. rewrite Ep2, Ep1. done.
Qed.

(** ** The end *)

Lemma sum_amounts_stored l : ∀ a r,
  sum_amounts a l = Ok r → wf_amount a → Forall wf_amount l → minor r = minor a + sum_by minor l ∧ wf_amount r.
Proof using Type.
  induction l as [|b l IH]; intros a r H Ha Hl; cbn [sum_amounts] in H.
  { injection H as <-. unfold sum_by. cbn [foldr]. split; [lia|done]. }
  apply Forall_cons in Hl as [Hb Hl]. apply bind_Ok in H as (c & Hc & H).
  apply Add_stored in Hc as (Hm & Hw & _); [|done..]. destruct (IH _ _ H Hw Hl) as [-> Hr].
  split; [|done]. unfold sum_by. cbn [foldr]. lia.
Qed.

Lemma outflows_sum ms :
  Forall month_stored ms →
  Forall wf_amount (m ← ms; outflows m) ∧ sum_by minor (m ← ms; outflows m) = sum_by month_out ms.
Proof using Type.
  induction 1 as [|m ms (H1 & H2 & H3) _ [IHw IHs]]; [done|]. rewrite bind_cons. split.
  - apply Forall_app. split; [|done]. unfold outflows. by rewrite !Forall_cons, Forall_nil.
  - rewrite sum_by_app, IHs. unfold outflows, sum_by, month_out. cbn [foldr]. lia.
Qed.

Lemma plainly_Add a b e : Add a b = Err e → is_invariant (Core e) = false.
Proof using Type. apply (plain_Add a b). Qed.

Lemma sum_amounts_plain l : ∀ a e, sum_amounts a l = Err e → is_invariant (Core e) = false.
Proof using Type.
  induction l as [|b l IH]; intros a e H; cbn [sum_amounts] in H; [done|].
  destruct (Add a b) as [c|e'|w] eqn:Ea; cbn in H; [by eapply IH|injection H as <-; by eapply plainly_Add|done].
Qed.

Lemma core_Err {A} (m : res A) e : core m = Err e → ∃ e', m = Err e' ∧ e = Core e'.
Proof using Type. destruct m; simpl; intros [=]. eauto. Qed.
Lemma core_Ok' {A} (m : res A) a : core m = Ok a → m = Ok a.
Proof using Type. by destruct m as [?| |]; simpl; intros [= ->]. Qed.

Lemma sticks_invariant {A} f : sticks (invariant f : M (perror + A)).
Proof using Type. unfold invariant. sticks. Qed.
#[local] Hint Resolve sticks_invariant : sticks.

Lemma sticks_conserve : sticks conserve.
Proof using Type. unfold conserve. sticks. Qed.
#[local] Hint Resolve sticks_conserve : sticks.

(** The check of the books passes, or an amount does not fit. *)
Lemma conserve_passes s r s' :
  conserve s = Ok (r, s') → s_err s' = None → Inv (unbooked s) →
  s' = s ∧ ∀ e, r = inl e → is_invariant e = false.
Proof using Hinp.
  intros H E HI. pose proof (iv_stored _ _ HI) as Hst. pose proof (iv_months _ _ HI) as Hmo. cbn in Hmo.
  change (month_out blank) with 0 in Hmo. rewrite Z.add_0_r in Hmo.
  unfold conserve in H. do 5 (apply bind_M in H as (? & t & [-> ->]%gets_Ok & H)).
  apply and_then_Ok in H as [(e & [-> H]%attempt_Ok & ->)|(paid & t & [-> Hpaid]%attempt_Ok & H)].
  { apply core_Err in H as (e' & H & ->). split; [done|]. intros ? [= <-]. by eapply sum_amounts_plain. }
  apply core_Ok' in Hpaid. destruct (outflows_sum _ (iv_timeline _ _ HI)) as [Hw Hsum]. cbn in Hw, Hsum.
  apply sum_amounts_stored in Hpaid as [Hpm _]; [|apply wf_zero|done]. rewrite Hsum in Hpm. cbn in Hpm.
  apply bind_M in H as (df & t & [Hdf ->]%total_Ok & H). apply Cmp_le in Hdf as (_ & _ & _ & Hdf).
  rewrite Hdf, (proj2 (Z.eqb_eq _ _)) in H by lia. cbn [negb] in H.
  pose proof (iv_cash _ _ HI) as Hc0. cbn in Hc0. rewrite Sign_neg_iff, (proj2 (Z.ltb_ge _ _)) in H by lia.
  apply and_then_Ok in H as [(e & [-> H]%attempt_Ok & ->)|(credits & t & [-> Hcr]%attempt_Ok & H)].
  { apply core_Err in H as (e' & H & ->). split; [done|]. intros ? [= <-]. by eapply plainly_Add. }
  apply core_Ok' in Hcr.
  apply bind_M in H as (neg & t & [-> ->]%gets_Ok & H).
  assert (checkRestrictedCash s = false) as Eneg.
  { unfold checkRestrictedCash. rewrite <- not_true_iff_false. intros (b & Hb & Hs)%existsb_exists.
    apply list_elem_of_In in Hb. apply (proj1 (Forall_forall _ _) (iv_buckets _ _ HI)) in Hb as ([? _] & _).
    rewrite Sign_neg_iff in Hs. lia. }
  rewrite Eneg in H. apply bind_M in H as (rc & t & Hrc & H). unstuck H E as Et.
  apply restrictedCash_value in Hrc as (-> & Hrm & Hrw); [|done|].
  2:{ eapply Forall_impl; [apply (iv_buckets _ _ HI)|]. by intros b [? _]. }
  apply bind_M in H as (hold & t & Hh & H). unstuck H E as Et2. apply sticky_Ok in Hh as (_ & -> & Hh); [|done].
  apply Add_stored in Hh as (Hhm & Hhw & _); [|apply Hst|done].
  apply and_then_Ok in H as [(e & [-> H]%attempt_Ok & ->)|(deb & t & [-> Hd]%attempt_Ok & H)].
  { apply core_Err in H as (e' & H & ->). split; [done|]. intros ? [= <-]. by eapply plainly_Add. }
  apply core_Ok' in Hd. apply Add_stored in Hd as (Hdm & Hdw & _); [|apply Hst|done].
  apply and_then_Ok in H as [(e & [-> H]%attempt_Ok & ->)|(deb2 & t & [-> Hd2]%attempt_Ok & H)].
  { apply core_Err in H as (e' & H & ->). split; [done|]. intros ? [= <-]. by eapply plainly_Add. }
  apply core_Ok' in Hd2. apply Add_stored in Hd2 as (Hdm2 & _ & _); [|done|apply Hst].
  apply bind_M in H as (df2 & t & [Hdf2 ->]%total_Ok & H). apply Cmp_le in Hdf2 as (_ & _ & _ & Hdf2).
  pose proof (iv_books _ _ HI) as Hbk. unfold opening in Hbk. cbn in Hbk. rewrite <- (iv_in _ _ HI) in Hbk. cbn in Hbk.
  change (restricted (unbooked s)) with (restricted s) in Hbk.
  assert (minor credits = minor (or_zero (OpeningCash (Cash (s_in s))) (in_currency (s_in s))) + minor (s_inflow s)) as Hcm.
  { apply Add_stored in Hcr as (-> & _); [|apply held_wf|apply Hst].
    - unfold or_zero. by destruct (String.eqb _ _).
    - apply held_or_zero. unfold cash_plan. rewrite (iv_in _ _ HI : s_in s = inp). apply Hinp. }
  rewrite Hdf2, (proj2 (Z.eqb_eq (minor credits) (minor deb2))) in H by lia. cbn [negb] in H.
  apply ret_Ok in H as [-> ->]. done.
Qed.

Lemma allClosed_owed s : allClosed s = true → Forall loan_ok (s_loans s) → owed (s_loans s) = 0.
Proof using Type.
  unfold allClosed, owed. induction (s_loans s) as [|l ls IH]; intros H Hok; cbn [forallb] in H; [done|].
  apply andb_true_iff in H as [Hc H]. apply Forall_cons in Hok as [Hl Hok]. unfold sum_by in *. cbn [foldr].
  destruct (lk_closed l Hl Hc) as [-> _]. specialize (IH H Hok). lia.
Qed.

(** What the end of a run leaves: the last cycle on the timeline, the books
    checked. *)
Lemma finish_effect s r s' :
  finish s = Ok (r, s') → s_err s' = None → Inv s →
  Inv (unbooked s') ∧ clocks s' = clocks s ∧
  match r with inl e => is_invariant e = false | inr res => res = s_res s' end.
Proof using Hinp.
  intros H E HI. unfold finish in H. apply bind_M in H as (n & t & [-> ->]%gets_Ok & H).
  apply bind_M in H as ([] & t1 & H1 & H). apply bind_M in H as (mo & t & [-> ->]%gets_Ok & H).
  apply bind_M in H as ([] & t2 & H2 & H).
  assert (unreported t2 = unreported t1) as Hrep by (rewrite when_Ok in H2; case_match; [steps H2; done|by subst t2]).
  assert (∀ t3, t3 = t2 → s_err t3 = None → Inv (unbooked t3) ∧ clocks t3 = clocks s) as Hend.
  { intros ? -> E2. assert (s_err t1 = None) as E1 by (change (s_err (unreported t1) = None); by rewrite <- Hrep).
    assert (Inv (unbooked t1) ∧ clocks t1 = clocks s) as [HI1 Hk].
    { rewrite when_Ok in H1. destruct (Z.ltb_spec 0 (s_cycle s)).
      - destruct (closeCycle_Inv _ _ _ _ H1 E1 HI) as (? & ? & _). done.
      - subst t1. split; [|done]. apply unbooked_start; [done|]. pose proof (iv_cycle _ s HI). lia. }
    split.
    - apply (Inv_reported _ (unbooked t1)); [|done].
      change (unbooked (unreported t2) = unbooked (unreported t1)). by rewrite Hrep.
    - change (clocks (unreported t2) = clocks s). by rewrite Hrep. }
  apply and_then_Ok in H as [(e & H & ->)|([] & t3 & H3 & H)].
  - unstuck H E as E2. destruct (Hend t2 eq_refl E2) as [HI2 Hk].
    destruct (conserve_passes _ _ _ H E HI2) as [-> He]. split_and!; [done|done|by apply He].
  - apply bind_M in H as (res & t & [-> ->]%gets_Ok & [-> ->]%ret_Ok).
    unstuck H3 E as E2. destruct (Hend t2 eq_refl E2) as [HI2 Hk].
    destruct (conserve_passes _ _ _ H3 E HI2) as [-> _]. done.
Qed.
End Runs.

Lemma clocks_allClosed s s' : clocks s' = clocks s → allClosed s' = allClosed s.
Proof.
  unfold clocks, allClosed. intros H. injection H as _ _ _ _ _ Hl _ _. revert Hl. generalize (s_loans s).
  induction (s_loans s') as [|l ls IH]; intros [|k ks] Hl; try done. rewrite !fmap_cons in Hl.
  injection Hl as _ E _ _ _ _ Hl. cbn [forallb]. by rewrite E, (IH ks).
Qed.

(** A small plan: one loan, twenty thousand a month. *)
Definition sample_policy : PlanInput.Policy :=
  PlanInput.MkPolicy false "p" [0%nat] [OnReceipt] [PrepayBorrowerChooses] RollFreed no_amount.
Definition sample : Input := sample_plan (MkDate 2024 3 20).

Lemma sample_ok : input_ok sample.
Proof.
  assert (∀ y m d, bool_decide (valid (MkDate y m d)) = true → (12 <=? month_of (MkDate y m d)) = true → dated (MkDate y m d)) as Hd.
  { intros y m d Hv%bool_decide_eq_true Hm%Z.leb_le. done. }
  split; try done.
  apply Forall_singleton. split; [apply filed_terms|]. split; [done|by apply Hd].
Qed.

(** The sample run: what it is asked to be. *)
Definition settled (m : result stop ((perror + Result) * sim)) : bool :=
  match m with
  | Ok (inr _, s) => match s_err s with None => true | Some _ => false end
  | _ => false
  end.
Lemma settled_run m : settled m = true → ∃ res s, m = Ok (inr res, s) ∧ s_err s = None.
Proof.
  unfold settled. destruct m as [[[e|res] s]|e|w]; try done. destruct (s_err s) eqn:E; [done|]. by exists res, s.
Qed.

(** Its first turn. *)
Definition turned (s0 : sim) : bool :=
  negb (allClosed s0) && negb (After (ch_on (nextEvent s0)) (horizon_date s0)) &&
  match handle (nextEvent s0) s0 with
  | Ok (_, s) => match s_err s with None => true | Some _ => false end
  | _ => false
  end.
Definition set_up (m : result stop ((perror + unit) * sim)) : bool :=
  match m with
  | Ok (inr _, s) => match s_err s with None => turned s | Some _ => false end
  | _ => false
  end.
Lemma set_up_run m :
  set_up m = true → ∃ s0 s, m = Ok (inr tt, s0) ∧ s_err s0 = None ∧ turns s0 s.
Proof.
  unfold set_up, turned. destruct m as [[[e|[]] s0]|e|w]; try done. destruct (s_err s0) eqn:E0; [done|].
  intros [[Hc%negb_true_iff Ha%negb_true_iff]%andb_true_iff H]%andb_true_iff.
  destruct (handle (nextEvent s0) s0) as [[[] s]|e|w] eqn:Eh; try done. destruct (s_err s) eqn:E; [done|].
  exists s0, s. done.
Qed.

Definition sample_start : sim := start sample sample_policy newCache None 0.



(** * Properties *)

(** The next event is the earliest one, and same-day events keep their
    order. With a loan still open there is something to wait for; what is
    picked is the first of what is waiting that nothing else precedes, by date
    and on the same day by kind: a period, a receipt, income, a routed wake, an
    instalment. *)
Theorem nextEvent_first s :
  allClosed s = false →
  ∃ l1 l2, candidates s = l1 ++ nextEvent s :: l2 ∧ (∀ x, x ∈ l1 → sooner (nextEvent s) x = true) ∧
    ∀ x, x ∈ candidates s → sooner x (nextEvent s) = false.
Proof. intros H%candidates_open. by apply nextEvent_spec. Qed.

(** C1. The books balance between any two events. Every state a run passes
    through holds no negative money: not in the pool, not in a bucket, not as
    permission, not as a balance, and a closed loan owes nothing. What came in
    is with the lenders, in the pool, in the buckets or with the household;
    what the months list was paid, no more and no less; and what was paid is
    the debt that is gone plus interest and fees. *)
Theorem reachable_books inp pol c sink s0 s :
  input_ok inp → cache_ok c → setup (start inp pol c sink 0) = Ok (inr tt, s0) → s_err s0 = None → rtc turns s0 s →
  (0 ≤ minor (s_cash s) ∧ 0 ≤ minor (s_periodLeft s) ∧ Forall (λ b, 0 ≤ minor (b_remaining b)) (s_cashBuckets s) ∧
   Forall (λ l, 0 ≤ minor (l_balance l) ∧ 0 ≤ minor (l_accrued l) ∧
     (l_closed l = true → minor (l_balance l) = 0 ∧ minor (l_accrued l) = 0)) (s_loans s)) ∧
  opening inp + minor (s_inflow s) =
    minor (ResPaid (s_res s)) + minor (s_cash s) + restricted s + minor (HouseholdCash (s_res s)) ∧
  sum_by month_out (Timeline (s_res s)) + month_out (s_month s) = minor (ResPaid (s_res s)) ∧
  borrowed inp + minor (ResInterest (s_res s)) + minor (ResFees (s_res s)) =
    minor (ResPaid (s_res s)) + owed (s_loans s).
Proof.
  intros Hinp Hc H E Hrt. assert (Ready inp s) as [[] _].
  { eapply reach_Ready; [done..|]. eapply setup_Ready; [done..|]. by exists pol, c, sink. }
  split_and!; try done.
  - eapply Forall_impl; [exact iv_buckets|]. by intros b ([? _] & _).
  - eapply Forall_impl; [exact iv_loans|]. intros l []. split_and!; [apply lk_balance|apply lk_accrued|done].
Qed.

(** C2. A finished run has settled everything. It went turn by turn from its
    start to a state with no open loan, and closed the books there. What the
    months list adds up to the total paid, which is the opening debt plus the
    interest and the fees; and the opening cash and the receipts are what was
    paid, what is left, what still waits in the buckets and what went to the
    household. *)
Theorem simulate_settles inp pol c sink s res :
  input_ok inp → cache_ok c → simulate (start inp pol c sink 0) = Ok (inr res, s) → s_err s = None →
  (∃ s0 s1, setup (start inp pol c sink 0) = Ok (inr tt, s0) ∧ rtc turns s0 s1 ∧ allClosed s1 = true ∧
    finish s1 = Ok (inr res, s)) ∧
  allClosed s = true ∧ sum_by month_out (Timeline res) = minor (ResPaid res) ∧
  minor (ResPaid res) = borrowed inp + minor (ResInterest res) + minor (ResFees res) ∧
  opening inp + minor (s_inflow s) =
    minor (ResPaid res) + minor (s_cash s) + restricted s + minor (HouseholdCash res).
Proof.
  intros Hinp Hc H E. unfold simulate in H. apply and_then_Ok in H as [(e & _ & [=])|([] & s0 & H0 & H)].
  apply bind_M in H as (w & t & [-> ->]%gets_Ok & H). apply and_then_Ok in H as [(e & _ & [=])|([] & s1 & H1 & H)].
  assert (sticks finish) as Hfin.
  { unfold finish. sticks. apply sticks_conserve. }
  pose proof (Hfin _ _ _ H E) as E1. destruct (loop_reaches _ _ _ _ H1) as (t & Hrt & Hr). destruct (Hr eq_refl) as [<- Hcl].
  assert (s_err s0 = None) as E0.
  { inversion Hrt as [|? s2 ? (Hopen & _ & Hh & Eh) _]; subst; [done|]. by apply (sticks_handle _ _ _ _ Hh). }
  assert (Ready inp s1) as [HI1 _].
  { eapply reach_Ready; [done..|]. eapply setup_Ready; [done..|]. by exists pol, c, sink. }
  split; [by exists s0, s1|]. destruct (finish_effect _ Hinp _ _ _ H E HI1) as (HI & Hk & ->).
  assert (allClosed s = true) as Hcl' by by rewrite (clocks_allClosed _ _ Hk).
  pose proof (allClosed_owed _ Hcl' (iv_loans _ _ HI)) as Hz. destruct HI. cbn in *.
  change (month_out blank) with 0 in *. split_and!; [done|lia|lia|].
  change (restricted (unbooked s)) with (restricted s) in *. lia.
Qed.


Lemma simulate_settles_witness :
  ∃ res s, simulate sample_start = Ok (inr res, s) ∧ allClosed s = true ∧
    sum_by month_out (Timeline res) = minor (ResPaid res).
Proof.
  destruct (settled_run (simulate sample_start)) as (res & s & H & E); [vm_compute; reflexivity|].
  exists res, s. split; [exact H|].
  destruct (simulate_settles sample sample_policy newCache None s res sample_ok newCache_ok H E) as (_ & Hc & Hs & _).
  split; assumption.
Defined.

Lemma nextEvent_first_witness :
  ∃ s0, setup sample_start = Ok (inr tt, s0) ∧ allClosed s0 = false ∧
    ∀ x, x ∈ candidates s0 → sooner x (nextEvent s0) = false.
Proof.
  destruct (set_up_run (setup sample_start)) as (s0 & s & H & E & (Hc & _)); [vm_compute; reflexivity|].
  exists s0. split; [exact H|]. split; [exact Hc|]. destruct (nextEvent_first s0 Hc) as (_ & _ & _ & _ & Hx). exact Hx.
Defined.

Lemma reachable_books_witness :
  ∃ s0 s, setup sample_start = Ok (inr tt, s0) ∧ turns s0 s ∧ 0 ≤ minor (s_cash s) ∧
    sum_by month_out (Timeline (s_res s)) + month_out (s_month s) = minor (ResPaid (s_res s)).
Proof.
  destruct (set_up_run (setup sample_start)) as (s0 & s & H & E & Ht); [vm_compute; reflexivity|].
  exists s0, s. split; [exact H|]. split; [exact Ht|].
  destruct (reachable_books sample sample_policy newCache None s0 s sample_ok newCache_ok H E (rtc_once _ _ Ht))
    as ((Hc & _) & _ & Hm & _).
  split; assumption.
Defined.


