(* ===== verification/Ends.v ===== *)
(** Every run comes to an end: no day asks for more than so much work, and no
    event moves time back, so the loop reaches the horizon, a refusal or the
    last loan within its fuel. *)
From S2P Require Import Prelude Money Dates Model Allocation Schedule Calendar Fees PlanBase PlanInput.
From S2P Require Import SimState Sim SimLogic Quotes Obligations Timely Payments Books Cycles Routing Events Dues Periods Runs.

(** * The work of a day *)

(** A clock that strikes by the day. *)
Definition strikes (on d : Date) : bool := negb (Dates.IsZero d) && (time d <=? time on).
Definition one (b : bool) : Z := if b then 1 else 0.

(** The events of a day but for the instalments: period, income, wake, the
    income of the first due date, receipts. *)
Definition occasions (on : Date) (s : sim) : Z :=
  one (strikes on (s_nextPeriod s)) + one (strikes on (s_nextIncome s)) +
  one (existsb (λ b, strikes on (b_wake b)) (s_cashBuckets s)) +
  one ((PayDay (cash_plan s) =? 0) && negb (ym on =? s_incomeYM s)) +
  Z.of_nat (length (s_lumps s)).

Definition todo (on : Date) (s : sim) : nat := sum_list (tasks on <$> s_loans s).

(** An occasion may give every loan its instalments to do again. *)
Definition chores (on : Date) (s : sim) : Z :=
  (4 * Z.of_nat (length (s_loans s)) + 1) * occasions on s + Z.of_nat (todo on s).

Lemma sum_list_bound {A} (f : A → nat) n l : (∀ x, f x ≤ n)%nat → (sum_list (f <$> l) ≤ n * length l)%nat.
Proof.
  intros H. induction l as [|x l IH]; [cbn; lia|]. rewrite fmap_cons. specialize (H x). cbn in *. lia.
Qed.

Lemma todo_bound on s : (todo on s ≤ 4 * length (s_loans s))%nat.
Proof. apply sum_list_bound, tasks_bound. Qed.

Lemma one_range b : 0 ≤ one b ≤ 1.
Proof. destruct b; cbn; lia. Qed.

Lemma occasions_range on s : 0 ≤ occasions on s ≤ Z.of_nat (length (s_lumps s)) + 4.
Proof.
  unfold occasions. pose proof (one_range (strikes on (s_nextPeriod s))). pose proof (one_range (strikes on (s_nextIncome s))).
  pose proof (one_range (existsb (λ b, strikes on (b_wake b)) (s_cashBuckets s))).
  pose proof (one_range ((PayDay (cash_plan s) =? 0) && negb (ym on =? s_incomeYM s))). lia.
Qed.

Lemma chores_bound on s : 0 ≤ chores on s < day_work s.
Proof.
  unfold chores, day_work. pose proof (occasions_range on s). pose proof (todo_bound on s). nia.
Qed.

(** An occasion used up outweighs what it leaves to do. *)
Lemma fewer_occasions on s s' :
  length (s_loans s') = length (s_loans s) → occasions on s' < occasions on s → chores on s' < chores on s.
Proof. intros El H. unfold chores. rewrite El. pose proof (todo_bound on s'). rewrite El in *. nia. Qed.

(** One instalment less, and nothing more elsewhere. *)
Lemma sum_list_less {A} (f : A → nat) (l l' : list A) i x y :
  length l' = length l → (∀ j a, j ≠ i → l !! j = Some a → ∃ b, l' !! j = Some b ∧ (f b ≤ f a)%nat) →
  l !! i = Some x → l' !! i = Some y → (f y < f x)%nat → (sum_list (f <$> l') < sum_list (f <$> l))%nat.
Proof.
  revert l' i. induction l as [|a l IH]; intros [|b l'] i Hn Hle Hx Hy Hlt; try done. rewrite !fmap_cons. cbn.
  assert (∀ k k' : list A, length k' = length k → (∀ j a, k !! j = Some a → ∃ b, k' !! j = Some b ∧ (f b ≤ f a)%nat) →
    (sum_list (f <$> k') ≤ sum_list (f <$> k))%nat) as Hall.
  { clear. intros k. induction k as [|a k IH]; intros [|b k'] Hn H; try done. rewrite !fmap_cons. cbn.
    destruct (H 0%nat a eq_refl) as (b' & [= <-] & Hb). cbn in Hn. specialize (IH k' ltac:(lia) (λ j, H (S j))). lia. }
  cbn in Hn. destruct i as [|i].
  - injection Hx as ->. injection Hy as ->. specialize (Hall l l' ltac:(lia) (λ j a, Hle (S j) a ltac:(lia))).
    lia.
  - destruct (Hle 0%nat a ltac:(lia) eq_refl) as (b' & [= <-] & Hb).
    specialize (IH l' i ltac:(lia) (λ j a Hj, Hle (S j) a ltac:(lia)) Hx Hy Hlt). lia.
Qed.

(** * What an event leaves for later *)

Definition put_off (on d d' : Date) : Prop := d' = d ∨ strikes on d' = false.

Record after_event (on : Date) (s s' : sim) : Prop := {
  ae_in : s_in s' = s_in s;
  ae_asleep : Forall (asleep on) (s_cashBuckets s');
  ae_period : put_off on (s_nextPeriod s) (s_nextPeriod s');
  ae_income : put_off on (s_nextIncome s) (s_nextIncome s');
  ae_lumps : s_lumps s' `sublist_of` s_lumps s;
  ae_chores : chores on s' < chores on s }.

Lemma strikes_later on d : time on < time d → strikes on d = false.
Proof. intros H. unfold strikes. rewrite (proj2 (Z.leb_gt _ _) H). by destruct (Dates.IsZero d). Qed.
Lemma strikes_zero on d : Dates.IsZero d = true → strikes on d = false.
Proof. intros H. unfold strikes. by rewrite H. Qed.
Lemma strikes_now on d : Dates.IsZero d = false → d = on → strikes on d = true.
Proof. intros H ->. unfold strikes. rewrite H. by apply Z.leb_refl. Qed.

Lemma asleep_strikes on bs : Forall (asleep on) bs → existsb (λ b, strikes on (b_wake b)) bs = false.
Proof.
  induction 1 as [|b bs [Hz|Hl] _ IH]; [done|..]; cbn [existsb];
    rewrite ?(strikes_zero _ _ Hz), ?(strikes_later _ _ Hl); done.
Qed.

Lemma put_off_one on d d' : put_off on d d' → one (strikes on d') ≤ one (strikes on d).
Proof. intros [->| ->]; [lia|]. cbn. pose proof (one_range (strikes on d)). lia. Qed.

Section Ends.
Context (inp : Input) (Hinp : input_ok inp).
#[local] Abbreviation Inv := (Books.Inv inp).
#[local] Abbreviation Open := (Books.Open inp).
#[local] Abbreviation Ready := (Runs.Ready inp).

Lemma loans_length s s' : Inv s → Inv s' → length (s_loans s') = length (s_loans s).
Proof using Type.
  intros H H'. apply (iv_positions _ s) in H. apply (iv_positions _ s') in H'.
  apply (f_equal length) in H, H'. rewrite length_fmap in H, H'. congruence.
Qed.

(** An occasion taken: everything else is as it was. *)
Lemma occasion_after on s s' :
  Inv s → Inv s' → s_in s' = s_in s → Forall (asleep on) (s_cashBuckets s') →
  put_off on (s_nextPeriod s) (s_nextPeriod s') → put_off on (s_nextIncome s) (s_nextIncome s') →
  (s_incomeYM s' = s_incomeYM s ∨ s_incomeYM s' = ym on) → s_lumps s' `sublist_of` s_lumps s →
  one (strikes on (s_nextPeriod s')) < one (strikes on (s_nextPeriod s)) ∨
  one (strikes on (s_nextIncome s')) < one (strikes on (s_nextIncome s)) ∨
  0 < one (existsb (λ b, strikes on (b_wake b)) (s_cashBuckets s)) ∨
  (PayDay (cash_plan s) = 0 ∧ s_incomeYM s ≠ ym on ∧ s_incomeYM s' = ym on) ∨
  (length (s_lumps s') < length (s_lumps s))%nat →
  after_event on s s'.
Proof using Type.
  intros HI HI' Ei Ha Hp Hn Hy Hl Hone. split; try done.
  apply fewer_occasions; [by apply loans_length|]. unfold occasions, cash_plan in *.
  rewrite (asleep_strikes _ _ Ha), Ei. pose proof (put_off_one _ _ _ Hp). pose proof (put_off_one _ _ _ Hn).
  pose proof (sublist_length _ _ Hl). cbn [one].
  pose proof (one_range (existsb (λ b, strikes on (b_wake b)) (s_cashBuckets s))).
  set (m' := one ((PayDay (Cash (s_in s)) =? 0) && negb (ym on =? s_incomeYM s'))).
  set (m := one ((PayDay (Cash (s_in s)) =? 0) && negb (ym on =? s_incomeYM s))) in *.
  assert (m' ≤ m) as Hm.
  { subst m m'. destruct Hy as [->| ->]; [lia|]. rewrite Z.eqb_refl, andb_false_r. pose proof (one_range ((PayDay (Cash (s_in s)) =? 0) && negb (ym on =? s_incomeYM s))). cbn. lia. }
  destruct Hone as [|[|[|[(Hpd & Hne & He)|]]]]; try lia.
  enough (m' < m) by lia. subst m m'. rewrite Hpd, He, !Z.eqb_refl, (proj2 (Z.eqb_neq (ym on) (s_incomeYM s))) by congruence. cbn. lia.
Qed.

(** Every event leaves less of its own day. *)
Lemma handle_after c s u s' :
  handle c s = Ok (u, s') → s_err s' = None → Ready s → stands_for s c →
  Inv s' → after_event (ch_on c) s s'.
Proof using Hinp.
  intros H E [HI Hp] Hc HI'. pose proof (stands_dated _ s c HI Hc) as Hon.
  set (on := ch_on c) in *. unfold handle in H. fold on in H. unfold stands_for in Hc. fold on in Hc.
  destruct (ch_kind c).
  - destruct Hc as [Hz Ed]. destruct (period_effect _ Hinp _ _ _ _ H E HI Hon Hp) as (_ & Ha & Ei & Hlt & El & [= En Ey]).
    apply occasion_after; try done; [by right; apply strikes_later|by left|by left|by rewrite El|].
    left. rewrite (strikes_later _ _ Hlt), (strikes_now on (s_nextPeriod s) Hz (eq_sym Ed)). cbn. lia.
  - destruct (lump_received _ Hinp _ _ _ _ H E HI) as (l & L & [HO Ha Hca [= En Ey] Hs Hf Hr]).
    destruct Hc as (l' & L' & Ed). assert (l' = l) as -> by congruence. rewrite <- Ed in Ha, Hca. destruct Hca. cbn in ca_in, ca_period.
    apply occasion_after; try done; [by left|by left|by left|]. auto.
  - destruct Hc as [Hz Ed]. destruct (income_effect _ Hinp _ _ _ _ H E HI Hon) as (_ & [] & Ha & Hn & Hy).
    assert (strikes on (s_nextIncome s') = false) as Hoff.
    { rewrite Hn. unfold pays_in. destruct (PayDay (cash_plan s) =? 0); [by apply strikes_zero|].
      by apply strikes_later, next_pay_day. }
    apply occasion_after; try done; [by left|by right|by right|by rewrite ca_lumps|].
    right; left. rewrite Hoff, (strikes_now on (s_nextIncome s) Hz (eq_sym Ed)). cbn. lia.
  - destruct Hc as (b & Hb & Hz & Ed). apply bind_M in H as ([] & t & H1 & H).
    destruct (ensure_cycle_Open _ _ _ _ _ H1 HI) as (HO & Hk & _).
    destruct (allocate_effect _ Hinp _ _ _ _ H E HO Hon) as (_ & [Hf _] & Ha & _).
    assert (agenda s' = agenda s) as [= Ei Ep En Ey El] by (rewrite (fixed_agenda _ _ Hf); by apply clocks_agenda).
    apply occasion_after; try done; [by left|by left|by left|by rewrite El|].
    right; right; left. rewrite (proj2 (existsb_exists _ _)); [cbn; lia|].
    exists b. split; [by apply list_elem_of_In|]. by apply strikes_now.
  - destruct Hc as (l & L & Hcl & Ed).
    destruct (due_effect _ Hinp _ _ _ _ _ _ H E HI Hon L) as (HO & Ha & Ei & Ep & El & Hcase).
    destruct Hcase as [(Hpd & Hne & Hy & Hn)|([= En Ey] & Hothers & l' & L' & Hless)].
    + apply occasion_after; try done; [by left|right; by rewrite Hn; apply strikes_zero|by right|by rewrite El|].
      do 3 right. left. done.
    + split; [done|done|by left|by left|by rewrite El|]. unfold chores, occasions, cash_plan.
      rewrite Ep, En, Ey, El, Ei, (asleep_strikes _ _ Ha), (loans_length s s' HI HI').
      pose proof (one_range (existsb (λ b, strikes on (b_wake b)) (s_cashBuckets s))).
      assert (todo on s' < todo on s)%nat; [|cbn [one]; nia].
      apply (sum_list_less _ _ _ (ch_idx c) l l'); [by apply loans_length|done|done|done|]. apply Hless.
      unfold tasks. rewrite Hcl, <- Ed, (proj2 (Z.ltb_ge _ _)) by reflexivity. cbn. lia.
Qed.

(** ** Time does not go back *)

Lemma stands_for_candidate s c : stands_for s c → ∃ c', c' ∈ candidates s ∧ ch_on c' = ch_on c.
Proof using Type.
  unfold stands_for, candidates. intros H. destruct (ch_kind c).
  - destruct H as [Hz E]. exists (MkChoice evPeriod (s_nextPeriod s) 0). split; [|done]. rewrite !elem_of_app. left.
    unfold if_set. rewrite Hz. by left.
  - destruct H as (l & L & E). exists (MkChoice evLump (CeOn l) (ch_idx c)). split; [|done]. rewrite !elem_of_app.
    do 3 right. left. apply elem_of_lookup_imap. by exists (ch_idx c), l.
  - destruct H as [Hz E]. exists (MkChoice evIncome (s_nextIncome s) 0). split; [|done]. rewrite !elem_of_app. right; left.
    unfold if_set. rewrite Hz. by left.
  - destruct H as (b & Hb & Hz & E). exists (MkChoice evRoute (b_wake b) 0). split; [|done]. rewrite !elem_of_app.
    right; right; left. apply list_elem_of_bind. exists b. split; [|done]. unfold if_set. rewrite Hz. by left.
  - destruct H as (l & L & Hc & E). exists (MkChoice evDue (l_due l) (ch_idx c)). split; [|done]. rewrite !elem_of_app.
    do 4 right. apply elem_of_dues. by exists (ch_idx c), l.
Qed.

Lemma nextEvent_earliest s c :
  Inv s → allClosed s = false → stands_for s c → time (ch_on (nextEvent s)) ≤ time (ch_on c).
Proof using Type.
  intros HI Hcl Hc. destruct (stands_for_candidate s c Hc) as (x & Hx & <-).
  destruct (nextEvent_spec s (candidates_open s Hcl)) as (_ & _ & _ & _ & Hmin). specialize (Hmin x Hx).
  pose proof (stands_dated _ s _ HI (candidates_stand_for _ _ Hx)) as Hd.
  pose proof (stands_dated _ s _ HI (nextEvent_stands s Hcl)) as Hn.
  apply orb_false_iff in Hmin as [Hmin _]. rewrite Before_time, Z.ltb_ge in Hmin by auto. done.
Qed.

Lemma put_off_later on d d' :
  put_off on d d' → Dates.IsZero d' = false → d' = d ∧ Dates.IsZero d = false ∨ time on ≤ time d'.
Proof using Type.
  intros [->|H] Hz; [by left|right]. unfold strikes in H. rewrite Hz in H. apply Z.leb_gt in H. lia.
Qed.

Lemma after_event_later s s' :
  Inv s → Inv s' → allClosed s = false → allClosed s' = false → forward s s' →
  after_event (ch_on (nextEvent s)) s s' → time (ch_on (nextEvent s)) ≤ time (ch_on (nextEvent s')).
Proof using Type.
  intros HI HI' Hcl Hcl' Hfw [_ Ha Hp Hn Hl _]. pose proof (nextEvent_stands s' Hcl') as Hs.
  pose proof (nextEvent_earliest s) as Hmin. unfold stands_for in Hs. destruct (ch_kind (nextEvent s')) eqn:Ek.
  - destruct Hs as [Hz E]. rewrite E. destruct (put_off_later _ _ _ Hp Hz) as [[-> Hz']|]; [|done].
    by apply (Hmin (MkChoice evPeriod (s_nextPeriod s) 0) HI Hcl).
  - destruct Hs as (l & L & ->). apply list_elem_of_lookup_2 in L. eapply elem_of_sublist in L; [|exact Hl].
    apply list_elem_of_lookup_1 in L as (i & L). apply (Hmin (MkChoice evLump (CeOn l) i) HI Hcl). by exists l.
  - destruct Hs as [Hz E]. rewrite E. destruct (put_off_later _ _ _ Hn Hz) as [[-> Hz']|]; [|done].
    by apply (Hmin (MkChoice evIncome (s_nextIncome s) 0) HI Hcl).
  - destruct Hs as (b & Hb & Hz & ->). apply (proj1 (Forall_forall _ _) Ha) in Hb as [|]; [congruence|lia].
  - destruct Hs as (l' & L' & Ho & ->). set (i := ch_idx (nextEvent s')) in *.
    destruct (lookup_lt_is_Some_2 (s_loans s) i) as (l & L).
    { rewrite <- (loans_length s s' HI HI'). by eapply lookup_lt_Some. }
    destruct (Hfw i l L) as (lx & Lx & Hlc & Hld). assert (lx = l') as -> by congruence.
    destruct Hld as [|Hld]; [congruence|]. etrans; [|exact Hld].
    apply (Hmin (MkChoice evDue (l_due l) i) HI Hcl). exists l. split_and!; try done.
    destruct (l_closed l); [|done]. rewrite Hlc in Ho by done. done.
Qed.

(** * The fuel is enough *)

Context (terms : string → Contract).
#[local] Abbreviation Told := (Timely.Told terms).

Lemma handle_told c s :
  Inv s → stands_for s c →
  match handle c s with Ok (_, s') => Told s → Told s' ∧ forward s s' | Err _ => False | Panic _ => True end.
Proof using Type.
  intros HI Hc. pose proof (stands_dated _ s c HI Hc) as Hon. unfold handle, stands_for in *.
  assert (∀ m : M unit, tells terms (ch_on c) m →
    match m s with Ok (_, s') => Told s → Told s' ∧ forward s s' | Err _ => False | Panic _ => True end) as Hall.
  { intros m Hm. specialize (Hm s). destruct (m s) as [[u s']|e|w]; auto. }
  destruct (ch_kind c).
  - apply Hall, tells_period.
  - destruct Hc as (l & L & E). pose proof (lump_told terms (ch_on c) _ _ _ L (eq_sym E)) as H.
    destruct (lump (ch_idx c) s) as [[u s']|e|w]; auto.
  - apply Hall, tells_income.
  - apply Hall, tells_bind; [apply tells_ensure_cycle|intros _; apply tells_allocate].
  - apply Hall, tells_due.
Qed.

(** An upper bound on the turns ahead: whole days to the horizon, and what is
    left of this one. *)
Definition turns_left (D : Z) (s : sim) : Z :=
  if allClosed s || (time (horizon_date s) <? time (ch_on (nextEvent s))) then 0
  else (time (horizon_date s) - time (ch_on (nextEvent s))) * D + chores (ch_on (nextEvent s)) s + 1.

(** The day's work never grows. *)
Definition within_day (D : Z) (s : sim) : Prop := day_work s ≤ D.

Lemma within_day_after on s s' D :
  Inv s → Inv s' → after_event on s s' → within_day D s → within_day D s'.
Proof using Type.
  intros HI HI' [_ _ _ _ Hl _] H. unfold within_day, day_work in *. rewrite (loans_length s s') by done.
  pose proof (sublist_length _ _ Hl). nia.
Qed.

Lemma turns_fewer D s s' :
  Inv s → Inv s' → allClosed s = false → time (ch_on (nextEvent s)) ≤ time (horizon_date s) → forward s s' →
  after_event (ch_on (nextEvent s)) s s' → within_day D s → turns_left D s' < turns_left D s.
Proof using Type.
  intros HI HI' Hcl Hh Hfw Ha Hd. pose proof (chores_bound (ch_on (nextEvent s)) s).
  pose proof (within_day_after _ _ _ _ HI HI' Ha Hd) as Hd'. unfold within_day in *.
  assert (horizon_date s' = horizon_date s) as Eh by (unfold horizon_date; by rewrite (ae_in _ _ _ Ha)).
  unfold turns_left. rewrite Hcl, Eh, (proj2 (Z.ltb_ge (time (horizon_date s)) (time (ch_on (nextEvent s)))) Hh). cbn [orb].
  destruct (allClosed s') eqn:Hcl'; cbn [orb]; [nia|].
  destruct (Z.ltb_spec (time (horizon_date s)) (time (ch_on (nextEvent s')))); [nia|].
  pose proof (after_event_later s s' HI HI' Hcl Hcl' Hfw Ha) as Hle.
  pose proof (chores_bound (ch_on (nextEvent s')) s').
  destruct (Z.eq_dec (time (ch_on (nextEvent s'))) (time (ch_on (nextEvent s)))) as [Et|]; [|nia].
  pose proof (stands_dated _ s _ HI (nextEvent_stands s Hcl)) as Hn.
  pose proof (stands_dated _ s' _ HI' (nextEvent_stands s' Hcl')) as Hn'.
  apply time_inj in Et; [|apply Hn'|apply Hn]. rewrite Et. pose proof (ae_chores _ _ _ Ha). lia.
Qed.

Lemma horizon_dated s : Inv s → valid (horizon_date s).
Proof using Hinp.
  intros HI. unfold horizon_date. rewrite (iv_in _ s HI). destruct (in_valuation inp Hinp) as [[? [? ?]] ?].
  apply AddMonths_facts; [lia|]. unfold horizon. destruct (Z.ltb_spec 0 (Horizon inp)); [lia|]. unfold DefaultHorizon. lia.
Qed.

(** The loop does not run out of fuel. *)
Lemma loop_ends fuel D : ∀ s,
  Ready s → Told s → within_day D s → turns_left D s < Z.of_nat fuel →
  match loop fuel s with Ok (_, s') => Told s' | Err _ => False | Panic _ => True end.
Proof using Hinp.
  induction fuel as [|fuel IH]; intros s HR HT Hd Hf.
  { exfalso. revert Hf. unfold turns_left. destruct (allClosed s || _) eqn:E; [lia|].
    apply orb_false_iff in E as [_ E%Z.ltb_ge]. pose proof (chores_bound (ch_on (nextEvent s)) s).
    unfold within_day in Hd. nia. }
  pose proof (proj1 HR) as HI. cbn [loop]. rewrite gets_bind. destruct (allClosed s) eqn:Hcl; [exact HT|].
  rewrite 2!gets_bind. destruct (After (ch_on (nextEvent s)) (horizon_date s)) eqn:Ha; [exact HT|].
  pose proof (nextEvent_stands s Hcl) as Hs. pose proof (stands_dated _ s _ HI Hs) as Hon.
  rewrite After_time, Z.ltb_ge in Ha by (apply Hon || by apply horizon_dated).
  unfold mbind at 1, M_bind at 1. pose proof (handle_told _ s HI Hs) as Ht.
  destruct (handle (nextEvent s) s) as [[[] s']|e|w] eqn:Eh; [|done..]. destruct (Ht HT) as [HT' Hfw].
  rewrite gets_bind. destruct (s_err s') eqn:Ee; [exact HT'|].
  assert (Ready s') as HR' by (apply Open_Ready; by eapply handle_Open).
  pose proof (handle_after _ _ _ _ Eh Ee HR Hs (proj1 HR')) as Hae. apply IH; [done|done| |].
  - by eapply within_day_after; [|apply HR'|exact Hae|].
  - pose proof (turns_fewer D s s' HI (proj1 HR') Hcl Ha Hfw Hae Hd). lia.
Qed.

(** Nor can there be more turns than that. *)
Lemma turns_count D n : ∀ s s',
  Ready s → Told s → within_day D s → nsteps turns n s s' → Z.of_nat n ≤ turns_left D s.
Proof using Hinp.
  induction n as [|n IH]; intros s s' HR HT Hd H.
  { unfold turns_left. destruct (allClosed s || _) eqn:E; [lia|]. apply orb_false_iff in E as [_ E%Z.ltb_ge].
    pose proof (chores_bound (ch_on (nextEvent s)) s). unfold within_day in Hd. nia. }
  inversion H as [|n' a t b Ht Hrest]; subst. pose proof Ht as (Hcl & Ha & Hh & Ee). pose proof (proj1 HR) as HI.
  pose proof (nextEvent_stands s Hcl) as Hs. pose proof (stands_dated _ s _ HI Hs) as Hon.
  rewrite After_time, Z.ltb_ge in Ha by (apply Hon || by apply horizon_dated).
  pose proof (turns_Ready _ Hinp _ _ Ht HR) as HR'. pose proof (handle_told _ s HI Hs) as Hw. rewrite Hh in Hw.
  destruct (Hw HT) as [HT' Hfw]. pose proof (handle_after _ _ _ _ Hh Ee HR Hs (proj1 HR')) as Hae.
  pose proof (turns_fewer D s t HI (proj1 HR') Hcl Ha Hfw Hae Hd).
  pose proof (within_day_after _ _ _ _ HI (proj1 HR') Hae Hd) as Hd'. specialize (IH t s' HR' HT' Hd' Hrest). lia.
Qed.

Lemma handle_fuel c s e : handle c s ≠ Err e.
Proof using terms.
  assert (∀ m : M unit, tells terms (ch_on c) m → m s ≠ Err e) as Hall by (intros m Hm; by eapply tells_Err).
  unfold handle. destruct (ch_kind c).
  - apply Hall, tells_period.
  - destruct (s_lumps s !! ch_idx c) as [l|] eqn:L.
    + pose proof (lump_told terms (CeOn l) _ _ _ L eq_refl). by destruct (lump (ch_idx c) s).
    + unfold lump. by rewrite 2!gets_bind, L.
  - apply Hall, tells_income.
  - apply Hall, tells_bind; [apply tells_ensure_cycle|intros _; apply tells_allocate].
  - apply Hall, tells_due.
Qed.

(** With an error left by the start the first turn is the last. *)
Lemma loop_failed fuel s e : s_err s ≠ None → loop (S fuel) s ≠ Err e.
Proof using terms.
  intros E. cbn [loop]. rewrite gets_bind. destruct (allClosed s); [done|]. rewrite 2!gets_bind.
  destruct (After _ _); [done|]. unfold mbind at 1, M_bind at 1. pose proof (handle_fuel (nextEvent s) s) as Hh.
  destruct (handle (nextEvent s) s) as [[u s']|e'|w] eqn:Eh; [|naive_solver|done]. rewrite gets_bind.
  destruct (s_err s') eqn:Ee; [done|]. exfalso. apply E. by eapply sticks_handle.
Qed.
End Ends.

Lemma simulate_fuel inp pol terms c sink :
  input_ok inp → cache_ok c → told terms c → Forall (position_named terms) (Loans inp) →
  simulate (start inp pol c sink 0) ≠ Err OutOfFuel.
Proof.
  intros Hinp Hc Ht Hp. set (s := start inp pol c sink 0).
  assert (Timely.Told terms s) as HT by (split; [done|constructor]).
  pose proof (setup_told terms (ValuationDate inp) s) as Hset. unfold simulate, and_then at 1, mbind at 1, M_bind at 1.
  destruct (setup s) as [[[e|[]] s0]|e|w] eqn:Es; [done| |done..].
  specialize (Hset (in_valuation inp Hinp) Hp HT). cbv beta iota. rewrite gets_bind.
  assert (match loop (S (Z.to_nat (work s0))) s0 with
          | Ok (_, s') => True | Err _ => False | Panic _ => True end) as Hloop.
  { destruct (s_err s0) eqn:E0.
    - pose proof (loop_failed terms (Z.to_nat (work s0)) s0 OutOfFuel ltac:(congruence)) as Hl.
      by destruct (loop _ s0) as [[r s1]|[]|w].
    - pose proof (loop_ends inp Hinp terms (S (Z.to_nat (work s0))) (day_work s0) s0) as Hl.
      destruct (loop _ s0) as [[r s1]|e|w]; [done| |done]. apply Hl; [|done|unfold within_day; lia|].
      { eapply setup_Ready; [done|exact Es|done|]. by exists pol, c, sink. }
      unfold turns_left, work. destruct (allClosed s0); cbn [orb]; [lia|].
      destruct (Z.ltb_spec (time (horizon_date s0)) (time (ch_on (nextEvent s0)))); [lia|].
      pose proof (chores_bound (ch_on (nextEvent s0)) s0). nia. }
  unfold and_then, mbind, M_bind. destruct (loop _ s0) as [[[e|u] s1]|e|w]; [done| |done..].
  apply (tells_Err terms (ValuationDate inp)), tells_finish.
Qed.

(** [finish] answers: what [run] hands back is a value, a refusal or a panic. *)
Lemma answered {A} (m : result stop A) : m ≠ Err OutOfFuel → (∃ a, m = Ok a) ∨ ∃ w, m = Panic w.
Proof. destruct m as [a|[]|w]; intros H; [left; by exists a|done|right; by exists w]. Qed.

(** The terms of the sample run. *)
Lemma sample_named : Forall (position_named (λ _, filed)) (Loans sample).
Proof.
  pose proof (proj1 (Forall_singleton _ _) (in_loans sample sample_ok)) as ((_ & _ & Hd & _) & _ & Hf).
  apply Forall_singleton. by split.
Qed.

(** * Properties *)

(** C3. Every run ends. Whatever the policy and whatever truthful memo it is
    given, the loop stops within its fuel (the days to the horizon, times the
    work of one day), so [run] hands back an answer or a refusal, or panics;
    [Run] and [PaymentTimeline], which start from an empty memo, likewise. No
    chain of turns from the start is longer than that bound. The only thing asked of the plan beyond representable figures is that loans with
    equal fingerprints have equal contracts. *)
Theorem run_ends inp pol terms c sink :
  input_ok inp → cache_ok c → told terms c → Forall (position_named terms) (Loans inp) →
  ((∃ a, runConfigured inp pol c sink 0 = Ok a) ∨ ∃ w, runConfigured inp pol c sink 0 = Panic w) ∧
  ∀ s0 n s, setup (start inp pol c sink 0) = Ok (inr tt, s0) → s_err s0 = None → nsteps turns n s0 s →
    Z.of_nat n ≤ turns_left (day_work s0) s0.
Proof.
  intros Hinp Hc Ht Hp. split.
  2:{ intros s0 n s Hs E Hn. eapply (turns_count inp Hinp terms); [|  |unfold within_day; reflexivity|exact Hn].
      - eapply setup_Ready; [done|exact Hs|done|]. by exists pol, c, sink.
      - pose proof (setup_told terms (ValuationDate inp) (start inp pol c sink 0)) as Hset. rewrite Hs in Hset.
        apply Hset; [apply Hinp|done|by split; [|constructor]]. }
  apply answered. unfold runConfigured.
  destruct (Input_Validate inp); [|done..]. destruct (negb (covers inp pol)); [done|].
  pose proof (simulate_fuel inp pol terms c sink Hinp Hc Ht Hp).
  destruct (simulate _) as [[r s]|[]|w]; done.
Qed.

(** C4. Events are taken in the order of time. Between two events of a run no
    date moves back: what is picked next never lies before what was just done,
    and the work left on the same day has gone down, so no day goes on for ever. *)
Theorem turns_in_order inp pol terms c sink s0 s s' :
  input_ok inp → cache_ok c → told terms c → Forall (position_named terms) (Loans inp) →
  setup (start inp pol c sink 0) = Ok (inr tt, s0) → s_err s0 = None → rtc turns s0 s → turns s s' →
  chores (ch_on (nextEvent s)) s' < chores (ch_on (nextEvent s)) s ∧
  (allClosed s' = false → time (ch_on (nextEvent s)) ≤ time (ch_on (nextEvent s'))).
Proof.
  intros Hinp Hc Ht Hp Hs E Hrt Hturn.
  assert (Ready inp s0) as HR0 by (eapply setup_Ready; [done..|]; by exists pol, c, sink).
  assert (Told terms s0) as HT0.
  { pose proof (setup_told terms (ValuationDate inp) (start inp pol c sink 0)) as Hset. rewrite Hs in Hset.
    apply Hset; [apply Hinp|done|by split; [|constructor]]. }
  assert (∀ a b, turns a b → Ready inp a → Told terms a → Told terms b ∧ forward a b) as Hstep.
  { intros a b (Hcl & _ & Hh & _) HRa HTa. pose proof (handle_told inp terms _ _ (proj1 HRa) (nextEvent_stands a Hcl)) as Ha.
    rewrite Hh in Ha. auto. }
  assert (Ready inp s ∧ Told terms s) as [HR HT].
  { clear Hturn s' Hs E. induction Hrt as [|a b d Hab _ IH]; [done|]. apply IH; [by eapply turns_Ready|by eapply Hstep]. }
  destruct (Hstep _ _ Hturn HR HT) as [_ Hfw]. pose proof (turns_Ready inp Hinp _ _ Hturn HR) as HR'.
  destruct Hturn as (Hcl & _ & Hh & E').
  pose proof (handle_after inp Hinp _ _ _ _ Hh E' HR (nextEvent_stands s Hcl) (proj1 HR')) as Hae.
  split; [apply Hae|]. intros Hcl'. by eapply after_event_later; [apply HR|apply HR'|..].
Qed.

Lemma run_ends_witness :
  input_ok sample ∧ told (λ _, filed) newCache ∧ Forall (position_named (λ _, filed)) (Loans sample) ∧
  ((∃ a, runConfigured sample sample_policy newCache None 0 = Ok a) ∨
   ∃ w, runConfigured sample sample_policy newCache None 0 = Panic w).
Proof.
  split; [exact sample_ok|]. split; [exact (told_newCache _)|]. split; [exact sample_named|].
  exact (proj1 (run_ends sample sample_policy (λ _, filed) newCache None sample_ok newCache_ok (told_newCache _) sample_named)).
Defined.

Lemma turns_in_order_witness :
  ∃ s0 s, setup sample_start = Ok (inr tt, s0) ∧ turns s0 s ∧
    chores (ch_on (nextEvent s0)) s < chores (ch_on (nextEvent s0)) s0.
Proof.
  destruct (set_up_run (setup sample_start)) as (s0 & s & H & E & Ht); [vm_compute; reflexivity|].
  exists s0, s. split; [exact H|]. split; [exact Ht|].
  destruct (turns_in_order sample sample_policy (λ _, filed) newCache None s0 s0 s sample_ok newCache_ok (told_newCache _)
    sample_named H E (rtc_refl _ _) Ht) as [Hc _]. exact Hc.
Defined.
