(* ===== verification/Corners.v ===== *)
(** Corner cases of the simulator, worked through on concrete plans: where the
    code does not do what it means to. *)
From S2P Require Import Prelude Money Dates Model Allocation Schedule Solve Calendar PlanBase PlanInput SimState Sim.

Definition drams (n : Z) : Amount := MkAmount n AMD.
Definition march : Date := MkDate 2024 3 20.

Definition cornered (t : Timing) (r : Rollover) : PlanInput.Policy :=
  PlanInput.MkPolicy false "p" [0%nat] [t] [PrepayBorrowerChooses] r no_amount.

(** What a run comes to: its months and the budget left, or its refusal. *)
Definition outcome_of (i : Input) (pol : PlanInput.Policy) : option (Z * Z + perror) :=
  match simulate (start i pol newCache None 0) with
  | Ok (inr r, s) => Some (inl (Months r, minor (s_budget s)))
  | Ok (inl e, _) => Some (inr e)
  | _ => None
  end.

(** [close] runs twice. The income of the due date pays the loan off from its
    bucket; [due] goes on with the closed loan, pays nothing and closes it
    again, so a budget that should lose the freed instalment of 108,490 once
    loses it twice. *)
Definition gift : CashEvent :=
  MkCashEvent "gift" (Some (MkCashRouting "loan" [] zero_date no_amount)) true march (drams 3000000) false.
Definition small_loan : Position :=
  MkPosition "loan" "Loan" filed (drams 1000000) (MkDate 2024 3 15) ExcessReducePrincipal "user_entered" false.
Definition gift_plan : Input :=
  MkInput march (MkCashPlan zero_date None (drams 20000000) 0 (drams 3000000) (drams 3000000) [gift] ∅) [small_loan] 0.

Example close_runs_twice :
  Input_Validate gift_plan = Ok tt ∧
  outcome_of gift_plan (cornered OnReceipt KeepFreed) = Some (inl (2, 20000000 - 2 * 108490)).
Proof. split; vm_compute; reflexivity. Qed.

(** The same instalment falls due twice. Money held for the due date finds the
    pool empty once the instalment is paid; the loan is then not told its next
    obligation, the instalment just paid is asked again the same day, and a
    plan that works with one unit more is refused. *)
Definition tight_plan (receipt : Z) : Input :=
  MkInput march
    (MkCashPlan zero_date None (drams 20000000) 0 (drams 0) (drams 0)
      [MkCashEvent "" None false (MkDate 2024 3 25) (drams receipt) false] {["2024-04" := drams 0]})
    [filed_position (MkDate 2024 3 15)] 0.

Example instalment_due_twice :
  Input_Validate (tight_plan 10848630) = Ok tt ∧
  outcome_of (tight_plan 10848630) (cornered OnDue RollFreed) =
    Some (inr (InfeasibleError "" (MkDate 2024 4 15) "loan" (drams 10848630) (drams 0) (drams 10848630))) ∧
  outcome_of (tight_plan 10848640) (cornered OnDue RollFreed) = Some (inl (7, 20000000)).
Proof. split; [|split]; vm_compute; reflexivity. Qed.

(** The fingerprint leaves out a term the projection reads. *)
Definition deferred : Contract :=
  MkContract "loan" 1 AMD (MkDate 2024 1 15) zero_date 180000000 Actual365 Annuity
    (MkDate 2024 1 15) (MkDate 2025 1 15) 15 (MkDate 2024 6 1) no_amount false (Money.MkPolicy HalfUp 10)
    (MkPrepayment PrepayBorrowerChooses 0 [] no_amount) (MkPolicyRef "bank" 1).

Example fingerprint_omits_deferral :
  fingerprint deferred = fingerprint filed ∧
  (ds ← RemainingDates filed (MkDate 2024 3 15); Ok (head ds)) = Ok (Some (MkDate 2024 4 15)) ∧
  (ds ← RemainingDates deferred (MkDate 2024 3 15); Ok (head ds)) = Ok (Some (MkDate 2024 6 15)).
Proof. split; [|split]; vm_compute; reflexivity. Qed.

(** Money promised to a due date and the reserve. On 25 March all but the floor
    of 300,000 is promised to the loan; the month brings no money, so in April
    the instalment takes 10,848,630 of the pool and the promise, an optional
    payment, is paid with the 674,530 that are left of it. *)
Definition floored_plan : Input :=
  MkInput march
    (MkCashPlan zero_date None (drams 20000000) 0 (drams 0) (drams 300000)
      [MkCashEvent "" None false (MkDate 2024 3 25) (drams 11523160) false] {["2024-04" := drams 0]})
    [filed_position (MkDate 2024 3 15)] 0.

(** The pool and the prepayments of the month after a number of turns. *)
Fixpoint take_turns (n : nat) : M unit :=
  match n with
  | O => mret tt
  | S n => c ← gets nextEvent; _ ← handle c; take_turns n
  end.
Definition pool_after (n : nat) (i : Input) (pol : PlanInput.Policy) : option (Z * Z) :=
  match (_ ← setup; take_turns n) (start i pol newCache None 0) with
  | Ok (_, s) => Some (minor (s_cash s), minor (MsExtra (s_month s)))
  | _ => None
  end.

Example promise_breaks_the_floor :
  Input_Validate floored_plan = Ok tt ∧
  pool_after 1 floored_plan (cornered OnDue RollFreed) = Some (11523160, 0) ∧
  pool_after 2 floored_plan (cornered OnDue RollFreed) = Some (0, 674530).
Proof. split; [|split]; vm_compute; reflexivity. Qed.
