(* ===== verification/Fingerprint.v ===== *)
(** [internal/app/plancache.go], the first half: the fingerprint a search is
    cached under. A question is the tree [reflect] shows of an input and a goal;
    it is walked into a stream of length-framed tokens, handed block by block to
    SHA-256. The theorems: the stream does not depend on the blocks, and it can
    be read back, so two questions share a stream only when they are the same. *)
From S2P Require Import Prelude Sha256 Answer.
From stdpp Require Import pretty.
#[local] Open Scope Z_scope.

(** * What reflection shows *)

Inductive IntKind := KInt | KInt8 | KInt16 | KInt32 | KInt64.
Inductive UintKind := KUint | KUint8 | KUint16 | KUint32 | KUint64.
(** The kinds the walk has no case for. *)
Inductive OtherKind :=
| KUintptr | KFloat32 | KFloat64 | KComplex64 | KComplex128 | KChan | KFunc | KInterface | KUnsafePointer.
Inductive Kind :=
| KBool | KOfInt (k : IntKind) | KOfUint (k : UintKind) | KString | KStruct | KPointer | KSlice | KArray | KMap
| KOther (k : OtherKind).
#[export] Instance IntKind_eq_dec : EqDecision IntKind.
Proof. solve_decision. Defined.
#[export] Instance UintKind_eq_dec : EqDecision UintKind.
Proof. solve_decision. Defined.
#[export] Instance OtherKind_eq_dec : EqDecision OtherKind.
Proof. solve_decision. Defined.
#[export] Instance Kind_eq_dec : EqDecision Kind.
Proof. solve_decision. Defined.

(** [Kind.String]. *)
Definition KindString (k : Kind) : string :=
  match k with
  | KBool => "bool"
  | KOfInt k => match k with KInt => "int" | KInt8 => "int8" | KInt16 => "int16" | KInt32 => "int32" | KInt64 => "int64" end
  | KOfUint k =>
      match k with KUint => "uint" | KUint8 => "uint8" | KUint16 => "uint16" | KUint32 => "uint32" | KUint64 => "uint64" end
  | KString => "string" | KStruct => "struct" | KPointer => "ptr" | KSlice => "slice" | KArray => "array" | KMap => "map"
  | KOther k =>
      match k with
      | KUintptr => "uintptr" | KFloat32 => "float32" | KFloat64 => "float64" | KComplex64 => "complex64"
      | KComplex128 => "complex128" | KChan => "chan" | KFunc => "func" | KInterface => "interface"
      | KUnsafePointer => "unsafe.Pointer"
      end
  end.

(** [Type.PkgPath] and [Type.String]. *)
Record GoType := MkType { PkgPath : string; TypeString : string }.

(** A [reflect.Value]. The entries of a map come in no particular order; a key
    of another kind than a string is not kept. *)
#[local] Unset Elimination Schemes.
Inductive Value :=
| VBool (t : GoType) (b : bool)
| VInt (t : GoType) (k : IntKind) (n : Z)
| VUint (t : GoType) (k : UintKind) (n : Z)
| VString (t : GoType) (s : string)
| VStruct (t : GoType) (fields : list (string * Value))
| VPointer (t : GoType) (elem : option Value)
| VSlice (t : GoType) (elems : option (list Value))
| VArray (t : GoType) (elems : list Value)
| VMap (t : GoType) (key : GoType) (entries : option (list (string * Value)))
| VMapBy (t : GoType) (key : Kind)
| VOther (t : GoType) (k : OtherKind).
#[local] Set Elimination Schemes.

Definition KindOf (v : Value) : Kind :=
  match v with
  | VBool _ _ => KBool | VInt _ k _ => KOfInt k | VUint _ k _ => KOfUint k | VString _ _ => KString
  | VStruct _ _ => KStruct | VPointer _ _ => KPointer | VSlice _ _ => KSlice | VArray _ _ => KArray
  | VMap _ _ _ | VMapBy _ _ => KMap | VOther _ k => KOther k
  end.
Definition TypeOf (v : Value) : GoType :=
  match v with
  | VBool t _ | VInt t _ _ | VUint t _ _ | VString t _ | VStruct t _ | VPointer t _ | VSlice t _ | VArray t _
  | VMap t _ _ | VMapBy t _ | VOther t _ => t
  end.

(** * The sink *)

Definition fingerprintBlock : Z := 8192.

(** [h] is what the hash has been given, [buf] what waits for it. *)
Record fingerprintHash := MkHash { h : string; buf : string }.
Definition newFingerprintHash : fingerprintHash := MkHash "" "".

(** Length framing: [n:] in front of [n] bytes. *)
Definition framed (s : string) : string := pretty (String.length s) +:+ ":" +:+ s.

Definition fingerprintToken (b : fingerprintHash) (s : string) : fingerprintHash :=
  let buf := buf b +:+ framed s in
  if fingerprintBlock <=? Z.of_nat (String.length buf) then MkHash (h b +:+ buf) "" else MkHash (h b) buf.

Definition sum (b : fingerprintHash) : list Z := Sum256 (bytes_of_string (h b +:+ buf b)).

(** * The walk *)

Definition FormatBool (b : bool) : string := if b then "true" else "false".

Definition heading (k : Kind) (t : GoType) (b : fingerprintHash) : fingerprintHash :=
  fingerprintToken (fingerprintToken (fingerprintToken b (KindString k)) (PkgPath t)) (TypeString t).

(** [fingerprintValue] of a map's key. *)
Definition fingerprintKey (t : GoType) (s : string) (b : fingerprintHash) : fingerprintHash :=
  fingerprintToken (heading KString t b) s.

Definition by_key {A} (a b : string * A) : bool := String.ltb (fst a) (fst b).

Definition steps_through {A} (step : A → fingerprintHash → res fingerprintHash) :=
  fix go (l : list A) (b : fingerprintHash) : res fingerprintHash :=
    match l with [] => Ok b | x :: l => b ← step x b; go l b end.

Fixpoint fingerprintValue (v : Value) (b : fingerprintHash) : res fingerprintHash :=
  let b := heading (KindOf v) (TypeOf v) b in
  match v with
  | VBool _ x => Ok (fingerprintToken b (FormatBool x))
  | VInt _ _ n | VUint _ _ n => Ok (fingerprintToken b (pretty n))
  | VString _ s => Ok (fingerprintToken b s)
  | VStruct _ fields =>
      steps_through (λ f b, fingerprintValue (snd f) (fingerprintToken b (fst f))) fields
        (fingerprintToken b (pretty (length fields)))
  | VPointer _ None => Ok (fingerprintToken b "nil")
  | VPointer _ (Some w) => fingerprintValue w (fingerprintToken b "value")
  | VSlice _ None => Ok (fingerprintToken b "nil")
  | VSlice _ (Some l) | VArray _ l => steps_through fingerprintValue l (fingerprintToken b (pretty (length l)))
  | VMapBy _ _ => Panic "search fingerprint: unsupported map key kind "
  | VMap _ _ None => Ok (fingerprintToken b "nil")
  | VMap _ key (Some l) =>
      let keys := SliceStable by_key (map (λ e, (fst e, fingerprintValue (snd e))) l) in
      steps_through (λ e b, snd e (fingerprintKey key (fst e) b)) keys (fingerprintToken b (pretty (length keys)))
  | VOther _ _ => Panic "search fingerprint: unsupported kind "
  end.

(** [hex.EncodeToString]. *)
Definition hex_digit (n : Z) : string :=
  match String.get (Z.to_nat n) "0123456789abcdef" with Some c => String.String c "" | None => "" end.
Definition EncodeToString (l : list Z) : string :=
  foldr (λ x s, hex_digit (x / 16) +:+ hex_digit (x mod 16) +:+ s) "" l.

(** The two opening tokens. *)
Definition opened : fingerprintHash :=
  fingerprintToken (fingerprintToken newFingerprintHash "marum/search-fingerprint/v2") EngineVersion.

Definition Question : Type := Value * Value.

Definition searchFingerprint (q : Question) : res string :=
  b ← fingerprintValue (fst q) opened;
  b ← fingerprintValue (snd q) b;
  Ok (EncodeToString (sum b)).

(** * What a value is *)

(** Induction with the hypothesis for every part. *)
Lemma Value_ind (P : Value → Prop) :
  (∀ t b, P (VBool t b)) → (∀ t k n, P (VInt t k n)) → (∀ t k n, P (VUint t k n)) → (∀ t s, P (VString t s)) →
  (∀ t l, Forall (λ f, P (snd f)) l → P (VStruct t l)) →
  (∀ t o, from_option P True o → P (VPointer t o)) →
  (∀ t o, Forall P (default [] o) → P (VSlice t o)) →
  (∀ t l, Forall P l → P (VArray t l)) →
  (∀ t key o, Forall (λ e, P (snd e)) (default [] o) → P (VMap t key o)) →
  (∀ t k, P (VMapBy t k)) → (∀ t k, P (VOther t k)) → ∀ v, P v.
Proof.
  intros H1 H2 H3 H4 H5 H6 H7 H8 H9 H10 H11. fix IH 1. intros [t b|t k n|t k n|t s|t l|t [w|]|t [l|]|t l|t key [l|]|t k|t k].
  - apply H1.
  - apply H2.
  - apply H3.
  - apply H4.
  - apply H5. induction l as [|[n w] l IHl]; constructor; [apply IH|exact IHl].
  - apply H6. apply IH.
  - apply H6. exact I.
  - apply H7. induction l as [|w l IHl]; constructor; [apply IH|exact IHl].
  - apply H7. constructor.
  - apply H8. induction l as [|w l IHl]; constructor; [apply IH|exact IHl].
  - apply H9. induction l as [|[n w] l IHl]; constructor; [apply IH|exact IHl].
  - apply H9. constructor.
  - apply H10.
  - apply H11.
Qed.

(** Whether the walk has a case for all of it. *)
Fixpoint supported (v : Value) : bool :=
  match v with
  | VStruct _ l => forallb (λ f, supported (snd f)) l
  | VPointer _ (Some w) => supported w
  | VSlice _ (Some l) | VArray _ l => forallb supported l
  | VMap _ _ (Some l) => forallb (λ e, supported (snd e)) l
  | VMapBy _ _ | VOther _ _ => false
  | _ => true
  end.

(** A map without entries does not show the type of its keys. *)
Definition shown_key {A} (key : GoType) (l : list A) : GoType := match l with [] => MkType "" "" | _ => key end.

(** The value with every map in the order of its keys: what the value is,
    whatever order its maps are read in. *)
Fixpoint settled (v : Value) : Value :=
  match v with
  | VStruct t l => VStruct t (map (λ f, (fst f, settled (snd f))) l)
  | VPointer t (Some w) => VPointer t (Some (settled w))
  | VSlice t (Some l) => VSlice t (Some (map settled l))
  | VArray t l => VArray t (map settled l)
  | VMap t key None => VMap t (MkType "" "") None
  | VMap t key (Some l) => VMap t (shown_key key l) (Some (SliceStable by_key (map (λ e, (fst e, settled (snd e))) l)))
  | _ => v
  end.

(** The stream as one text. *)
Definition titled (k : Kind) (t : GoType) : string :=
  framed (KindString k) +:+ framed (PkgPath t) +:+ framed (TypeString t).
Definition texts {A} (text : A → string) : list A → string := foldr (λ x s, text x +:+ s) "".
Definition keyed (key : GoType) (e : string * string) : string :=
  titled KString key +:+ framed (fst e) +:+ snd e.

Fixpoint text (v : Value) : string :=
  titled (KindOf v) (TypeOf v) +:+
  match v with
  | VBool _ x => framed (FormatBool x)
  | VInt _ _ n | VUint _ _ n => framed (pretty n)
  | VString _ s => framed s
  | VStruct _ l => framed (pretty (length l)) +:+ texts (λ f, framed (fst f) +:+ text (snd f)) l
  | VPointer _ None | VSlice _ None | VMap _ _ None => framed "nil"
  | VPointer _ (Some w) => framed "value" +:+ text w
  | VSlice _ (Some l) | VArray _ l => framed (pretty (length l)) +:+ texts text l
  | VMap _ key (Some l) =>
      framed (pretty (length l)) +:+ texts (keyed key) (SliceStable by_key (map (λ e, (fst e, text (snd e))) l))
  | VMapBy _ _ | VOther _ _ => ""
  end.

(** * The stream does not depend on the blocks *)

Definition content (b : fingerprintHash) : string := h b +:+ buf b.

Lemma content_token b s : content (fingerprintToken b s) = content b +:+ framed s.
Proof.
  unfold content, fingerprintToken. case_match; cbn; [by rewrite append_nil_r, append_assoc|by rewrite append_assoc].
Qed.
Lemma content_heading k t b : content (heading k t b) = content b +:+ titled k t.
Proof. unfold heading, titled. by rewrite !content_token, <- !append_assoc. Qed.

(** A walk that adds [s] to the stream. *)
Definition adds (m : fingerprintHash → res fingerprintHash) (s : string) : Prop :=
  ∀ b, ∃ b', m b = Ok b' ∧ content b' = content b +:+ s.

Lemma adds_through {A} (step : A → fingerprintHash → res fingerprintHash) (said : A → string) l :
  Forall (λ x, adds (step x) (said x)) l → adds (steps_through step l) (texts said l).
Proof.
  induction 1 as [|x l Hx _ IH]; intros b; cbn; [exists b; by rewrite append_nil_r|].
  destruct (Hx b) as (b1 & -> & H1). destruct (IH b1) as (b2 & H2 & H3). exists b2. split; [done|].
  by rewrite H3, H1, <- append_assoc.
Qed.

Lemma SliceStable_keys {A B} (f : A → B) l :
  SliceStable by_key (map (λ e, (fst e, f (snd e))) l) = map (λ e, (fst e, f (snd e))) (SliceStable by_key l).
Proof.
  unfold SliceStable. induction l as [|[k x] l IH]; [done|]. cbn [map foldr fst snd]. rewrite IH.
  generalize (foldr (insert_by by_key) [] l) as s. clear.
  induction s as [|[k' y] s IH]; [done|]. cbn. unfold by_key at 1 3. cbn.
  destruct (String.ltb k' k); [|done]. cbn. by f_equal.
Qed.

Lemma through_map {A B} (f : A → B) step l b : steps_through step (map f l) b = steps_through (λ x, step (f x)) l b.
Proof. revert b. induction l as [|x l IH]; intros b; [done|]. cbn. by destruct (step (f x) b); cbn. Qed.

Lemma texts_map {A B} (f : A → B) (said : B → string) l : texts said (map f l) = texts (λ x, said (f x)) l.
Proof. induction l as [|x l IH]; [done|]. cbn. by f_equal. Qed.

Lemma adds_after (m : fingerprintHash → res fingerprintHash) b0 b s s0 :
  adds m s → content b = content b0 +:+ s0 → ∃ b', m b = Ok b' ∧ content b' = content b0 +:+ s0 +:+ s.
Proof. intros Hm Hb. destruct (Hm b) as (b' & -> & H). exists b'. split; [done|]. by rewrite H, Hb, <- append_assoc. Qed.

Lemma fingerprintValue_text v : supported v = true → adds (fingerprintValue v) (text v).
Proof.
  assert (∀ b k t s, ∃ b', Ok (fingerprintToken (heading k t b) s) = Ok (E:=gerror) b' ∧
    content b' = content b +:+ titled k t +:+ framed s) as Hone.
  { intros b k t s. eexists. split; [done|]. by rewrite content_token, content_heading, <- append_assoc. }
  induction v as [t x|t k n|t k n|t s|t l IH|t [w|] IH|t [l|] IH|t l IH|t key [l|] IH|t k|t k] using Value_ind;
    cbn [supported text]; intros Hs b; try discriminate Hs; cbn [fingerprintValue]; try apply Hone; cbn [KindOf TypeOf].
  - rewrite (append_assoc _ (framed _)). apply adds_after; [|by rewrite content_token, content_heading, <- append_assoc].
    apply adds_through. rewrite forallb_forall in Hs. rewrite Forall_forall in IH |- *. intros [n w] Hw b'. cbn.
    destruct (IH _ Hw (Hs _ (proj1 (list_elem_of_In _ _) Hw)) (fingerprintToken b' n)) as (b2 & H2 & H3).
    exists b2. split; [done|]. by rewrite H3, content_token, <- append_assoc.
  - rewrite (append_assoc _ (framed _)). apply adds_after; [by apply IH|by rewrite content_token, content_heading, <- append_assoc].
  - rewrite (append_assoc _ (framed _)). apply adds_after; [|by rewrite content_token, content_heading, <- append_assoc].
    apply adds_through. rewrite forallb_forall in Hs. rewrite Forall_forall in IH |- *. intros w Hw.
    apply IH; [done|]. by apply Hs, list_elem_of_In.
  - rewrite (append_assoc _ (framed _)). apply adds_after; [|by rewrite content_token, content_heading, <- append_assoc].
    apply adds_through. rewrite forallb_forall in Hs. rewrite Forall_forall in IH |- *. intros w Hw.
    apply IH; [done|]. by apply Hs, list_elem_of_In.
  - rewrite (append_assoc _ (framed _)). rewrite !SliceStable_keys, length_map, texts_map.
    rewrite (Permutation_length (SliceStable_perm by_key l)).
    apply adds_after; [|by rewrite content_token, content_heading, <- append_assoc].
    intros b'. rewrite through_map. revert b'. apply adds_through.
    rewrite forallb_forall in Hs. rewrite Forall_forall in IH |- *. intros [k w] Hw b'.
    rewrite (SliceStable_perm by_key l) in Hw. cbn.
    destruct (IH _ Hw (Hs _ (proj1 (list_elem_of_In _ _) Hw)) (fingerprintKey key k b')) as (b2 & H2 & H3).
    exists b2. split; [done|]. unfold keyed, fingerprintKey in *. cbn in *.
    by rewrite H3, content_token, content_heading, <- !append_assoc.
Qed.

(** * The stream can be read back *)

Fixpoint all_digits (s : string) : bool :=
  match s with
  | EmptyString => true
  | String.String c s => Nat.leb 48 (Ascii.nat_of_ascii c) && Nat.leb (Ascii.nat_of_ascii c) 57 && all_digits s
  end.

Lemma pretty_digit (x : N) : all_digits (String.String (pretty_N_char (x `mod` 10)) "") = true.
Proof.
  assert (∀ n, Nat.lt n 10 → all_digits (String.String (pretty_N_char (N.of_nat n)) "") = true) as Hd.
  { intros n Hn. do 10 (destruct n as [|n]; [reflexivity|]). lia. }
  rewrite <- (N2Nat.id (x `mod` 10)). apply Hd. assert (x `mod` 10 < 10)%N by by apply N.mod_lt. lia.
Qed.

Lemma pretty_go_digits x : ∀ s, all_digits s = true → all_digits (pretty_N_go x s) = true.
Proof.
  induction (N.lt_wf_0 x) as [x _ IH]. intros s Hs. destruct (decide (x = 0)%N) as [->|]; [by rewrite pretty_N_go_0|].
  rewrite pretty_N_go_step by lia. apply IH; [apply N.div_lt; lia|].
  pose proof (pretty_digit x) as H. cbn [all_digits] in H |- *. by rewrite andb_true_r in H; rewrite H.
Qed.

Lemma pretty_digits (n : nat) : all_digits (pretty n) = true.
Proof. unfold pretty, pretty_nat, pretty, pretty_N. case_decide; [done|]. by apply pretty_go_digits. Qed.

Lemma digits_end (a b r r' : string) : all_digits a = true → all_digits b = true →
  a +:+ ":" +:+ r = b +:+ ":" +:+ r' → a = b ∧ r = r'.
Proof.
  revert b. induction a as [|c a IH]; intros [|c' b] Ha Hb H; cbn in H.
  - injection H as H. cbn in H. by subst.
  - injection H as <- _. by cbn in Hb.
  - injection H as -> _. by cbn in Ha.
  - injection H as -> H. cbn in Ha, Hb. apply andb_true_iff in Ha as [_ Ha], Hb as [_ Hb].
    destruct (IH b Ha Hb H) as [-> ->]. done.
Qed.

Lemma append_split (s s' r r' : string) : String.length s = String.length s' → s +:+ r = s' +:+ r' → s = s' ∧ r = r'.
Proof.
  revert s'. induction s as [|c s IH]; intros [|c' s'] Hl H; cbn in Hl, H; try done.
  injection Hl as Hl. injection H as -> H.
  destruct (IH s' Hl H) as [-> ->]. done.
Qed.

Lemma framed_inj s s' r r' : framed s +:+ r = framed s' +:+ r' → s = s' ∧ r = r'.
Proof.
  unfold framed. rewrite <- !append_assoc. intros H.
  apply digits_end in H as [Hl H]; [|apply pretty_digits..]. apply (inj pretty) in Hl. by apply append_split.
Qed.

Lemma KindString_inj k k' : KindString k = KindString k' → k = k'.
Proof. destruct k as [|[]|[]| | | | | | |[]], k' as [|[]|[]| | | | | | |[]]; done. Qed.

Lemma titled_inj k k' t t' r r' : titled k t +:+ r = titled k' t' +:+ r' → k = k' ∧ t = t' ∧ r = r'.
Proof.
  unfold titled. rewrite <- !append_assoc. intros [Hk [Hp [Hn Hr]%framed_inj]%framed_inj]%framed_inj.
  apply KindString_inj in Hk. destruct t, t'; cbn in *; by subst.
Qed.

(** A text no two values of which begin the same stream, up to [view]. *)
Definition legible {A B} (said : A → string) (view : A → B) (P : A → Prop) (x : A) : Prop :=
  ∀ y r r', P y → said x +:+ r = said y +:+ r' → view x = view y ∧ r = r'.

Lemma texts_legible {A B} (said : A → string) (view : A → B) (P : A → Prop) l :
  Forall (legible said view P) l → ∀ l' r r', length l = length l' → Forall P l' →
  texts said l +:+ r = texts said l' +:+ r' → map view l = map view l' ∧ r = r'.
Proof.
  induction 1 as [|x l Hx _ IH]; intros [|y l'] r r' Hl HP H; try done; cbn in Hl |- *.
  apply Forall_cons in HP as [Hy HP]. cbn in H. rewrite <- !append_assoc in H.
  apply Hx in H as [-> H]; [|done]. apply IH in H as [-> ->]; [done|lia|done].
Qed.

Lemma texts_parts {A B} (said : A → string) (view : A → B) (P : A → Prop) l l' r r' :
  (∀ x, x ∈ l → P x → legible said view P x) → Forall P l → Forall P l' →
  pretty (length l) = pretty (length l') →
  texts said l +:+ r = texts said l' +:+ r' → map view l = map view l' ∧ r = r'.
Proof.
  intros Hx HP HP' Hn. apply (inj pretty) in Hn. apply texts_legible with (P := P); [|done..].
  rewrite Forall_forall in HP |- *. auto.
Qed.

Lemma pretty_not_nil (n : nat) : pretty n ≠ "nil".
Proof. intros H. pose proof (pretty_digits n) as Hd. by rewrite H in Hd. Qed.

(** One entry of a struct or a map. *)
Definition settled_part (e : string * Value) : string * Value := (fst e, settled (snd e)).
Definition written (v : Value) : Prop := supported v = true.
Definition written_part (e : string * Value) : Prop := supported (snd e) = true.

Lemma forallb_Forall {A} (f : A → bool) l : forallb f l = true ↔ Forall (λ x, f x = true) l.
Proof. induction l as [|x l IH]; cbn; [done|]. rewrite andb_true_iff, Forall_cons, IH. done. Qed.

Lemma field_legible e : (written (snd e) → legible text settled written (snd e)) → written_part e →
  legible (λ f, framed (fst f) +:+ text (snd f)) settled_part written_part e.
Proof.
  intros Hv He [k w] r r' Hw H. rewrite <- !append_assoc in H. apply framed_inj in H as [Hk H].
  apply Hv in H as [Hs ->]; [|done..]. unfold settled_part. by rewrite Hk, Hs.
Qed.

Lemma keyed_legible key e : (written (snd e) → legible text settled written (snd e)) → written_part e →
  legible (λ f, keyed key (fst f, text (snd f))) settled_part written_part e.
Proof.
  intros Hv He [k w] r r' Hw H. unfold keyed in H. rewrite <- !append_assoc in H.
  apply titled_inj in H as (_ & _ & H). apply framed_inj in H as [Hk H]. cbn in *.
  apply Hv in H as [Hs ->]; [|done..]. unfold settled_part. by rewrite Hk, Hs.
Qed.

Lemma SliceStable_Forall {A} less (P : A → Prop) l : Forall P l → Forall P (SliceStable less l).
Proof. intros H. by rewrite SliceStable_perm. Qed.

(** What the key type of a map adds to its entries. *)
Lemma keyed_other key key' l l' r r' :
  length l = length l' → l ≠ [] →
  texts (λ f, keyed key (fst f, text (snd f))) l +:+ r = texts (λ f, keyed key' (fst f, text (snd f))) l' +:+ r' → key = key'.
Proof.
  destruct l as [|e l], l' as [|e' l']; try done. intros _ _ H. cbn in H. unfold keyed in H. rewrite <- !append_assoc in H.
  by apply titled_inj in H as (_ & ? & _).
Qed.

(** The entries of two maps, in the order of their keys. *)
Lemma map_legible t key key' l l' r r' :
  (∀ e, e ∈ l → written (snd e) → legible text settled written (snd e)) →
  written (VMap t key (Some l)) → written (VMap t key' (Some l')) → pretty (length l) = pretty (length l') →
  texts (keyed key) (SliceStable by_key (map (λ e, (fst e, text (snd e))) l)) +:+ r =
    texts (keyed key') (SliceStable by_key (map (λ e, (fst e, text (snd e))) l')) +:+ r' →
  settled (VMap t key (Some l)) = settled (VMap t key' (Some l')) ∧ r = r'.
Proof.
  intros IH Hv Hv' Hn H. 
  unfold written in Hv, Hv'. cbn [supported] in Hv, Hv'. apply forallb_Forall in Hv, Hv'. cbn [settled].
  rewrite !SliceStable_keys in *. rewrite !texts_map in H. apply (inj pretty) in Hn.
  assert (length (SliceStable by_key l) = length (SliceStable by_key l')) as Hn' by by rewrite !SliceStable_perm.
  destruct (decide (l = [])) as [->|Hne]; [destruct l'; [done|discriminate Hn]|].
  assert (key = key') as <-.
  { eapply keyed_other; [exact Hn'| |exact H]. intros E. pose proof (SliceStable_perm by_key l) as Hp.
    rewrite E in Hp. by apply Permutation_nil in Hp. }
  assert (shown_key key l = shown_key key l') as -> by (by destruct l, l').
  destruct (texts_parts (λ e, keyed key (fst e, text (snd e))) settled_part written_part
    (SliceStable by_key l) (SliceStable by_key l') r r') as [Hl Hr].
  - intros e He Hw. rewrite (SliceStable_perm by_key l) in He. by apply keyed_legible; [apply IH|].
  - by apply SliceStable_Forall.
  - by apply SliceStable_Forall.
  - by rewrite Hn'.
  - exact H.
  - split; [|done]. unfold settled_part in Hl. by rewrite Hl.
Qed.

Lemma text_legible v : written v → legible text settled written v.
Proof.
  unfold written. induction v as [t x|t k n|t k n|t s|t l IH|t [w|] IH|t [l|] IH|t l IH|t key [l|] IH|t k|t k] using Value_ind;
    intros Hv; try discriminate Hv; intros v' r r' Hv' H;
    destruct v' as [t' x'|t' k' n'|t' k' n'|t' s'|t' l'|t' [w'|]|t' [l'|]|t' l'|t' key' [l'|]|t' k'|t' k'];
    try discriminate Hv'; cbn [text KindOf TypeOf] in H; rewrite <- ?append_assoc in H;
    apply titled_inj in H as (Hk & Ht & H); try discriminate Hk; try (injection Hk as Hk);
    try (apply framed_inj in H as [Hw H]; discriminate Hw || idtac); subst.
  - by destruct x, x'.
  - by apply (inj pretty) in Hw as ->.
  - by apply (inj pretty) in Hw as ->.
  - done.
  - cbn [supported] in Hv, Hv'. apply forallb_Forall in Hv, Hv'. rewrite Forall_forall in IH.
    destruct (texts_parts (λ f, framed (fst f) +:+ text (snd f)) settled_part written_part l l' r r') as [Hl ->];
      [|done..|].
    + intros e He Hw'. by apply field_legible; [apply IH|].
    + split; [|done]. cbn [settled]. by f_equal.
  - destruct (IH Hv w' r r' Hv' H) as [Hs ->]. split; [|done]. cbn [settled]. by rewrite Hs.
  - done.
  - cbn [supported] in Hv, Hv'. apply forallb_Forall in Hv, Hv'. rewrite Forall_forall in IH.
    destruct (texts_parts text settled written l l' r r') as [Hl ->]; [by auto|done..|].
    split; [|done]. cbn [settled]. by rewrite Hl.
  - by apply pretty_not_nil in Hw.
  - by apply symmetry, pretty_not_nil in Hw.
  - done.
  - cbn [supported] in Hv, Hv'. apply forallb_Forall in Hv, Hv'. rewrite Forall_forall in IH.
    destruct (texts_parts text settled written l l' r r') as [Hl ->]; [by auto|done..|].
    split; [|done]. cbn [settled]. by rewrite Hl.
  - apply map_legible; [|done..]. by rewrite Forall_forall in IH.
  - by apply pretty_not_nil in Hw.
  - by apply symmetry, pretty_not_nil in Hw.
  - done.
Qed.

(** * Settling *)

Lemma by_key_asym {A} (a b : string * A) : by_key a b = true → by_key b a = false.
Proof. apply string_ltb_asym. Qed.
Lemma by_key_trans {A} (a b c : string * A) : not_after by_key a b → not_after by_key b c → not_after by_key a c.
Proof.
  unfold not_after, by_key. intros H1 H2. apply not_true_iff_false. intros H3.
  destruct (string_ltb_trichotomy (fst a) (fst b)) as [H|[H|H]]; [|congruence|congruence].
  by rewrite (string_ltb_trans _ _ _ H3 H) in H2.
Qed.
Lemma by_key_settled {A} (l : list (string * A)) : SliceStable by_key (SliceStable by_key l) = SliceStable by_key l.
Proof. apply SliceStable_idemp, SliceStable_sorted; [apply by_key_asym|apply by_key_trans]. Qed.

(** Two readings of one map. *)
Lemma settled_map_order t key l l' :
  l ≡ₚ l' → NoDup (fst <$> l) → settled (VMap t key (Some l)) = settled (VMap t key (Some l')).
Proof.
  intros Hp Hd. cbn [settled]. assert (shown_key key l = shown_key key l') as ->.
  { destruct l, l'; try done; by apply Permutation_length in Hp. }
  do 2 f_equal. rewrite !(SliceStable_keys settled). f_equal.
  apply SliceStable_canonical; [apply by_key_asym|apply by_key_trans|done|].
  intros a b Ha Hb H1 H2. unfold not_after, by_key in *.
  apply (NoDup_fmap_inj_on fst l); [done..|]. destruct (string_ltb_trichotomy (fst a) (fst b)) as [H|[H|H]]; congruence.
Qed.

Lemma texts_ext {A} (f g : A → string) l : Forall (λ x, f x = g x) l → texts f l = texts g l.
Proof. induction 1 as [|x l Hx _ IH]; [done|]. cbn. by rewrite Hx, IH. Qed.

Lemma text_settled v : text (settled v) = text v.
Proof.
  induction v as [| | | |t l IH|t [w|] IH|t [l|] IH|t l IH|t key [l|] IH| |] using Value_ind; try done;
    cbn [settled text KindOf TypeOf]; f_equal; rewrite ?length_map, ?texts_map.
  - f_equal. apply texts_ext. eapply Forall_impl; [exact IH|]. intros f Hf. cbn. by rewrite Hf.
  - by rewrite IH.
  - f_equal. by apply texts_ext.
  - f_equal. by apply texts_ext.
  - rewrite !(SliceStable_keys settled), !(SliceStable_keys text), !length_map, !texts_map.
    rewrite (SliceStable_keys settled), by_key_settled, texts_map. cbn [fst snd].
    f_equal; [by rewrite SliceStable_perm|].
    destruct l as [|e l]; [done|]. cbn [shown_key]. apply texts_ext, SliceStable_Forall.
    eapply Forall_impl; [exact IH|]. intros f Hf. cbn. by rewrite Hf.
Qed.

(** * The digest *)

Lemma be_bytes_range k z : Forall (λ x, 0 ≤ x < 256) (be_bytes k z).
Proof.
  revert z. induction k as [|k IH]; intros z; [constructor|]. cbn. apply Forall_app. split; [apply IH|].
  repeat constructor; by apply Z.mod_pos_bound.
Qed.
Lemma Sum256_range m : Forall (λ x, 0 ≤ x < 256) (Sum256 m).
Proof.
  unfold Sum256. cbv zeta. apply Forall_forall. intros x (l & Hx & Hl)%list_elem_of_join.
  apply list_elem_of_fmap in Hl as (z & -> & _). pose proof (be_bytes_range 4 z) as H. rewrite Forall_forall in H. auto.
Qed.

(** What holds of the sixteen digits. *)
Lemma each_digit (P : Z → bool) : forallb P (Z.of_nat <$> seq 0 16) = true → ∀ x, 0 ≤ x < 16 → P x = true.
Proof.
  rewrite forallb_forall. intros H x Hx. apply H, list_elem_of_In, list_elem_of_fmap. exists (Z.to_nat x).
  rewrite elem_of_seq. split; lia.
Qed.
Lemma hex_digit_length x : 0 ≤ x < 16 → String.length (hex_digit x) = 1%nat.
Proof. intros Hx. apply Nat.eqb_eq. by apply (each_digit (λ x, Nat.eqb (String.length (hex_digit x)) 1)). Qed.
Lemma hex_digit_inj a b s s' : 0 ≤ a < 16 → 0 ≤ b < 16 → hex_digit a +:+ s = hex_digit b +:+ s' → a = b ∧ s = s'.
Proof.
  intros Ha Hb H. apply append_split in H as [H ->]; [|by rewrite !hex_digit_length]. split; [|done].
  set (digits := Z.of_nat <$> seq 0 16).
  assert (forallb (λ x, forallb (λ y, implb (String.eqb (hex_digit x) (hex_digit y)) (x =? y)) digits) digits = true)
    as Hall by (vm_compute; reflexivity).
  pose proof (each_digit _ Hall a Ha) as Ha'. cbv beta in Ha'.
  pose proof (each_digit _ Ha' b Hb) as E. cbv beta in E. rewrite H, String.eqb_refl in E. by apply Z.eqb_eq in E.
Qed.

Lemma hex_nonempty x s : 0 ≤ x < 256 → hex_digit (x / 16) +:+ s ≠ "".
Proof.
  intros Hx H. pose proof (hex_digit_length (x / 16) ltac:(Z.div_mod_to_equations; lia)) as Hl.
  by destruct (hex_digit (x / 16)).
Qed.

Lemma EncodeToString_inj l : ∀ l', Forall (λ x, 0 ≤ x < 256) l → Forall (λ x, 0 ≤ x < 256) l' →
  EncodeToString l = EncodeToString l' → l = l'.
Proof.
  induction l as [|x l IH]; intros [|y l'] Hl Hl' H; [done| | |].
  - apply Forall_cons in Hl' as [Hy _]. cbn in H. by apply symmetry, hex_nonempty in H.
  - apply Forall_cons in Hl as [Hx _]. cbn in H. by apply hex_nonempty in H.
  - apply Forall_cons in Hl as [Hx Hl], Hl' as [Hy Hl']. cbn in H.
    apply hex_digit_inj in H as [Hq H]; [|Z.div_mod_to_equations; lia..].
    apply hex_digit_inj in H as [Hr H]; [|Z.div_mod_to_equations; lia..].
    f_equal; [Z.div_mod_to_equations; lia|]. by apply IH.
Qed.

(** A digest is never the empty text. *)
Lemma compress_round_length kws : ∀ st, length (foldl compress_round st kws) = length st.
Proof.
  induction kws as [|kw kws IH]; intros st; [done|]. cbn [foldl]. rewrite IH.
  destruct st as [|a [|b [|c [|d [|e [|f [|g [|x [|y st]]]]]]]]]; done.
Qed.
Lemma absorb_length n : ∀ hash msg, length (absorb n hash msg) = length hash.
Proof.
  induction n as [|n IH]; intros hash msg; [done|]. cbn [absorb]. rewrite IH. unfold compress. cbv zeta.
  rewrite length_zip_with, compress_round_length. lia.
Qed.
Lemma Sum256_nonempty m : Sum256 m ≠ [].
Proof.
  unfold Sum256. cbv zeta. generalize (length (pad m) / 64)%nat as n. intros n H.
  pose proof (absorb_length n initial_hash (pad m)) as Hl. destruct (absorb n initial_hash (pad m)) as [|z l].
  - assert (length initial_hash = 8%nat) as E by (vm_compute; reflexivity). rewrite E in Hl. discriminate Hl.
  - change (be_bytes 4 z ++ mjoin (be_bytes 4 <$> l) = []) in H. apply app_eq_nil in H as [H _].
    apply (f_equal length) in H. rewrite be_bytes_length in H. discriminate H.
Qed.
Lemma searchFingerprint_nonempty q k : searchFingerprint q = Ok k → k ≠ "".
Proof.
  unfold searchFingerprint. intros H. apply bind_Ok in H as (b & _ & H). apply bind_Ok in H as (b' & _ & [= <-]).
  unfold sum. pose proof (Sum256_nonempty (bytes_of_string (h b' +:+ buf b'))) as Hne.
  pose proof (Sum256_range (bytes_of_string (h b' +:+ buf b'))) as Hr. destruct (Sum256 _) as [|x l]; [done|].
  apply Forall_cons in Hr as [Hx _]. cbn. intros E. by apply hex_nonempty in E.
Qed.

(** * Properties *)

Definition asked (q : Question) : bool := supported (fst q) && supported (snd q).
Definition settled_question (q : Question) : Question := (settled (fst q), settled (snd q)).
Definition stream (q : Question) : string :=
  framed "marum/search-fingerprint/v2" +:+ framed EngineVersion +:+ text (fst q) +:+ text (snd q).

Lemma searchFingerprint_stream q : asked q = true →
  searchFingerprint q = Ok (EncodeToString (Sum256 (bytes_of_string (stream q)))).
Proof.
  intros [H1 H2]%andb_true_iff. unfold searchFingerprint.
  destruct (fingerprintValue_text _ H1 opened) as (b & E & Hb). rewrite E, bind_of_Ok.
  destruct (fingerprintValue_text _ H2 b) as (b' & E' & Hb'). rewrite E', bind_of_Ok.
  unfold sum. fold (content b'). rewrite Hb', Hb. unfold opened. by rewrite !content_token, <- !append_assoc.
Qed.

Lemma stream_same q q' : asked q = true → asked q' = true → stream q = stream q' ↔ settled_question q = settled_question q'.
Proof.
  intros [H1 H2]%andb_true_iff [H1' H2']%andb_true_iff. unfold stream, settled_question. split.
  - intros [_ [_ H]%framed_inj]%framed_inj. apply text_legible in H as [-> H]; [|done..].
    rewrite <- (append_nil_r (text q.2)), <- (append_nil_r (text q'.2)) in H.
    by apply text_legible in H as [-> _].
  - intros [= Hs Hs']. by rewrite <- (text_settled (fst q)), <- (text_settled (snd q)), Hs, Hs', !text_settled.
Qed.

(** What was walked through has no unsupported part. *)
Lemma through_Ok {A} (step : A → fingerprintHash → res fingerprintHash) l : ∀ b b',
  steps_through step l b = Ok b' → Forall (λ x, ∃ b b', step x b = Ok b') l.
Proof.
  induction l as [|x l IH]; intros b b' H; [constructor|]. cbn in H. apply bind_Ok in H as (b1 & H1 & H).
  constructor; eauto.
Qed.
Lemma fingerprintValue_supported v : ∀ b b', fingerprintValue v b = Ok b' → supported v = true.
Proof.
  induction v as [| | | |t l IH|t [w|] IH|t [l|] IH|t l IH|t key [l|] IH| |] using Value_ind; intros b0 b' H; try done;
    cbn in H; cbn [supported]; try (by eapply IH); try apply through_Ok in H.
  - apply forallb_Forall. rewrite Forall_forall in IH, H |- *. intros f Hf. destruct (H f Hf) as (b1 & b2 & E). eauto.
  - apply forallb_Forall. rewrite Forall_forall in IH, H |- *. intros f Hf. destruct (H f Hf) as (b1 & b2 & E). eauto.
  - apply forallb_Forall. rewrite Forall_forall in IH, H |- *. intros f Hf. destruct (H f Hf) as (b1 & b2 & E). eauto.
  - apply forallb_Forall. rewrite SliceStable_keys, Forall_forall in H. rewrite Forall_forall in IH |- *.
    intros f Hf. destruct (H (fst f, fingerprintValue (snd f))) as (b1 & b2 & E); [|cbn in E; eauto].
    apply (list_elem_of_fmap_2 (λ e : string * Value, (fst e, fingerprintValue (snd e)))). by rewrite SliceStable_perm.
Qed.
Lemma searchFingerprint_asked q k : searchFingerprint q = Ok k → asked q = true.
Proof.
  unfold searchFingerprint, asked. intros H. apply bind_Ok in H as (b & H1 & H). apply bind_Ok in H as (b' & H2 & _).
  by rewrite (fingerprintValue_supported _ _ _ H1), (fingerprintValue_supported _ _ _ H2).
Qed.
Lemma same_fingerprint q q' k : searchFingerprint q = Ok k → searchFingerprint q' = Ok k →
  settled_question q = settled_question q' ∨
  bytes_of_string (stream q) ≠ bytes_of_string (stream q') ∧
  Sum256 (bytes_of_string (stream q)) = Sum256 (bytes_of_string (stream q')).
Proof.
  intros H H'. pose proof (searchFingerprint_asked _ _ H) as Ha. pose proof (searchFingerprint_asked _ _ H') as Ha'.
  rewrite searchFingerprint_stream in H, H' by done. injection H as <-. injection H' as H'.
  apply EncodeToString_inj in H'; [|apply Sum256_range..].
  destruct (decide (stream q = stream q')) as [E|Hne]; [left; by apply stream_same|right]. split; [|done].
  intros Hb. by apply bytes_of_string_inj in Hb.
Qed.

(** C17. A fingerprint is taken of every question made of supported kinds, and it
    stands for the question: it does not depend on the order maps are read in,
    and two questions share it only when they are the same tree, types, field
    names and all, unless the two streams are a collision of SHA-256. *)
Theorem searchFingerprint_identifies q q' :
  asked q = true → asked q' = true →
  ∃ d d', searchFingerprint q = Ok d ∧ searchFingerprint q' = Ok d' ∧
    (settled_question q = settled_question q' → d = d') ∧
    (d = d' → settled_question q = settled_question q' ∨
      bytes_of_string (stream q) ≠ bytes_of_string (stream q') ∧
      Sum256 (bytes_of_string (stream q)) = Sum256 (bytes_of_string (stream q'))).
Proof.
  intros H H'. pose proof (searchFingerprint_stream q H) as E. pose proof (searchFingerprint_stream q' H') as E'.
  eexists _, _. split; [exact E|]. split; [exact E'|]. split.
  - intros Hs. by rewrite (proj2 (stream_same q q' H H') Hs).
  - intros Hd. eapply same_fingerprint; [exact E|]. by rewrite Hd.
Qed.

Definition sample_field (n : Z) : Value := VInt (MkType "" "int64") KInt64 n.
Definition sample_limits (l : list (string * Value)) : Value := VMap (MkType "" "map[string]int64") (MkType "" "string") (Some l).
Definition sample_question (l : list (string * Value)) : Question :=
  (VStruct (MkType "plan" "plan.Input") [("limits", sample_limits l)], VBool (MkType "" "bool") true).

Lemma searchFingerprint_identifies_witness :
  ∃ d, searchFingerprint (sample_question [("2024-01", sample_field 5); ("2024-02", sample_field 7)]) = Ok d ∧
       searchFingerprint (sample_question [("2024-02", sample_field 7); ("2024-01", sample_field 5)]) = Ok d.
Proof.
  destruct (searchFingerprint_identifies (sample_question [("2024-01", sample_field 5); ("2024-02", sample_field 7)])
    (sample_question [("2024-02", sample_field 7); ("2024-01", sample_field 5)]) eq_refl eq_refl)
    as (d & d' & Hd & Hd' & Hs & _).
  exists d. split; [exact Hd|]. rewrite (Hs ltac:(vm_compute; reflexivity)). exact Hd'.
Defined.
