(* ===== verification/PlanCache.v ===== *)
(** [internal/app/plancache.go], the second half, and [planner_capacity.go]: the
    cache of search reports, shared by every caller of the process. Identical
    questions that are asked at once share one computation, a flight; one
    computation runs at a time; entries and their bytes are bounded.

    A caller moves from one locked section or blocking operation to the next, a
    [turn] each; a world is the cache and the callers in it. Which caller moves,
    which branch a [select] takes, in which order a map is ranged over and when a
    context ends are the environment's choice, so a theorem about every reachable
    world is one about every interleaving. *)
From S2P Require Import Prelude Sha256 SimState Fingerprint.

(** Errors of the context, and any other. *)
Inductive failure := Canceled | DeadlineExceeded | Failed (what : string).
#[export] Instance failure_eq_dec : EqDecision failure.
Proof. solve_decision. Defined.
Definition gone (e : failure) : bool := match e with Failed _ => false | _ => true end.

Definition searchCacheMax : nat := 256.
Definition searchCacheBytes : Z := 67108864.
(** 26 hours, in nanoseconds. *)
Definition searchCacheTTL : Z := 93600000000000.
(** The capacity of [plannerCapacity]. *)
Definition plannerCapacity : nat := 2.

Section Cache.
(** A report and its length as JSON, 0 where it has none; what the search finds. *)
Context {Report : Type} (json : Report → Z) (compute : Question → result failure Report).

Definition answer : Type := Report + failure.

Record searchEntry := MkEntry { rep : Report; addedAt : Z; e_bytes : Z }.
Record searchFlight := MkFlight { f_key : string; f_done : option answer }.

(** Where a caller of [searchContext] stands. From [ToSlot] on it owns a flight. *)
Inductive place :=
| Asking | Locking
| Waiting (f : nat)
| ToSlot (f : nat) | InSlot (f : nat) | ToPlanner (f : nat) | Computing (f : nat)
| Computed (f : nat) (r : answer) | Storing (f : nat) (r : answer)
| Returned (r : answer)
| Crashed (f : nat).

Record caller := MkCaller {
  c_question : Question;
  c_key : string;
  c_now : Z;
  c_ctx : option failure;
  c_place : place }.

(** The cache, its flights so far, the callers, and the computations elsewhere
    in the process that hold planner capacity. *)
Record world := MkWorld {
  entries : gmap string searchEntry;
  flights : gmap string nat;
  bytes : Z;
  slot : option nat;
  table : list searchFlight;
  callers : list caller;
  others : nat }.
#[export] Instance world_eta : Eta world :=
  λ w, MkWorld (entries w) (flights w) (bytes w) (slot w) (table w) (callers w) (others w).

Definition empty_cache : world := MkWorld ∅ ∅ 0 None [] [] 0.

(** * Eviction *)

(** An order in which a map is ranged over. *)
Definition range : Type := gmap string searchEntry → list (string * searchEntry).

Record scan := MkScan { sc_entries : gmap string searchEntry; sc_bytes : Z; oldestKey : string; oldestAt : Z; dropped : bool }.

Definition look (now : Z) (s : scan) (kv : string * searchEntry) : scan :=
  let '(k, e) := kv in
  if searchCacheTTL <=? now - addedAt e
  then MkScan (delete k (sc_entries s)) (sc_bytes s - e_bytes e) (oldestKey s) (oldestAt s) true
  else if String.eqb (oldestKey s) "" || (addedAt e <? oldestAt s)
  then MkScan (sc_entries s) (sc_bytes s) k (addedAt e) (dropped s)
  else s.

Definition evictLocked (by_ : range) (now : Z) (m : gmap string searchEntry) (b : Z) : gmap string searchEntry * Z :=
  let s := foldl (look now) (MkScan m b "" 0 false) (by_ m) in
  if negb (dropped s) && negb (String.eqb (oldestKey s) "")
  then (delete (oldestKey s) (sc_entries s), sc_bytes s - from_option e_bytes 0 (sc_entries s !! oldestKey s))
  else (sc_entries s, sc_bytes s).

(** The loop that makes room for [n] bytes more. *)
Fixpoint make_room (fuel : nat) (by_ : range) (now n : Z) (m : gmap string searchEntry) (b : Z) :
    result stop (gmap string searchEntry * Z) :=
  if Nat.leb searchCacheMax (size m) || (searchCacheBytes <? b + n)
  then match fuel with
    | O => Err OutOfFuel
    | S fuel => let '(m, b) := evictLocked by_ now m b in make_room fuel by_ now n m b
    end
  else Ok (m, b).

(** * What a caller does *)

Definition goto (i : nat) (p : place) : world → world :=
  set callers (alter (λ c, MkCaller (c_question c) (c_key c) (c_now c) (c_ctx c) p) i).

(** The flight of the same question, or one of one's own. *)
Definition join_flight (i : nat) (c : caller) (w : world) : world :=
  match flights w !! c_key c with
  | Some f => goto i (Waiting f) w
  | None =>
      let f := length (table w) in
      goto i (ToSlot f) (set flights (<[c_key c := f]>) (set table (λ t, t ++ [MkFlight (c_key c) None]) w))
  end.

(** The first locked section of [searchContext]. *)
Definition look_up (i : nat) (c : caller) (w : world) : world :=
  match entries w !! c_key c with
  | Some e => if c_now c - addedAt e <? searchCacheTTL then goto i (Returned (inl (rep e))) w else join_flight i c w
  | None => join_flight i c w
  end.

(** The second: the report is kept where it fits, the flight lands. *)
Definition keep (by_ : range) (c : caller) (r : Report) (w : world) : result stop world :=
  let n := json r in
  if (0 <? n) && (n <=? searchCacheBytes)
  then
    let m := delete (c_key c) (entries w) in
    let b := bytes w - from_option e_bytes 0 (entries w !! c_key c) in
    '(m, b) ← make_room (size m) by_ (c_now c) n m b;
    Ok (set entries (λ _, <[c_key c := MkEntry r (c_now c) n]> m) (set bytes (λ _, b + n) w))
  else Ok w.
Definition land (f : nat) (c : caller) (r : answer) (w : world) : world :=
  set flights (delete (c_key c)) (set table (alter (λ fl, MkFlight (f_key fl) (Some r)) f) w).
Definition store (by_ : range) (i f : nat) (c : caller) (r : answer) (w : world) : result stop world :=
  w ← (match r with inl x => keep by_ c x w | inr _ => Ok w end);
  Ok (goto i (Returned r) (land f c r w)).

(** A result beside a context that has ended is dropped. *)
Definition unless_gone (c : caller) (r : answer) : answer :=
  match r, c_ctx c with inl _, Some e => inr e | _, _ => r end.

Definition blocked : result stop (option world) := Ok None.
Definition moves (w : world) : result stop (option world) := Ok (Some w).
Definition free_slot : world → world := set slot (λ _, None).
Definition is_computing (c : caller) : bool := match c_place c with Computing _ => true | _ => false end.
Definition computing (w : world) : nat := length (List.filter is_computing (callers w)).

(** The caller's next step; [ctx_first] takes the branch of the ended context
    where a [select] offers it. [None]: it cannot move. *)
Definition turn (ctx_first : bool) (by_ : range) (i : nat) (w : world) : result stop (option world) :=
  match callers w !! i with
  | None => blocked
  | Some c =>
      match c_place c with
      | Asking => moves (match c_ctx c with Some e => goto i (Returned (inr e)) w | None => goto i Locking w end)
      | Locking => moves (look_up i c w)
      | Waiting f =>
          match ctx_first, c_ctx c, table w !! f ≫= f_done with
          | true, Some e, _ => moves (goto i (Returned (inr e)) w)
          | false, _, Some (inr e) => moves (goto i (if gone e then Asking else Returned (inr e)) w)
          | false, _, Some r => moves (goto i (Returned r) w)
          | _, _, _ => blocked
          end
      | ToSlot f =>
          match ctx_first, c_ctx c, slot w with
          | true, Some e, _ => moves (goto i (Computed f (inr e)) w)
          | false, _, None => moves (goto i (InSlot f) (set slot (λ _, Some i) w))
          | _, _, _ => blocked
          end
      | InSlot f =>
          moves (match c_ctx c with
            | Some e => goto i (Computed f (inr e)) (free_slot w)
            | None => goto i (ToPlanner f) w
            end)
      | ToPlanner f =>
          match ctx_first, c_ctx c with
          | true, Some e => moves (goto i (Computed f (inr e)) (free_slot w))
          | true, None => blocked
          | false, _ =>
              if Nat.ltb (others w + computing w) plannerCapacity then moves (goto i (Computing f) w) else blocked
          end
      | Computing f =>
          match ctx_first, c_ctx c, compute (c_question c) with
          | true, Some e, _ => moves (goto i (Computed f (inr e)) (free_slot w))
          | true, None, _ => blocked
          | false, _, Ok r => moves (goto i (Computed f (unless_gone c (inl r))) (free_slot w))
          | false, _, Err e => moves (goto i (Computed f (inr e)) (free_slot w))
          | false, _, Panic _ => moves (goto i (Crashed f) (free_slot w))
          end
      | Computed f r => moves (goto i (Storing f (unless_gone c r)) w)
      | Storing f r => w ← store by_ i f c r w; moves w
      | Returned _ | Crashed _ => blocked
      end
  end.

(** * What the world does *)

Inductive event :=
| Arrive (q : Question) (now : Z)
| Ends (i : nat) (e : failure)
| Taken
| Given
| Turn (ctx_first : bool) (by_ : range) (i : nat).

Definition happens (ev : event) (w : world) : result stop (option world) :=
  match ev with
  | Arrive q now =>
      match searchFingerprint q with
      | Ok k => moves (set callers (λ l, l ++ [MkCaller q k now None Asking]) w)
      | _ => blocked
      end
  | Ends i e =>
      match callers w !! i with
      | Some c =>
          match c_ctx c, gone e with
          | None, true =>
              moves (set callers (alter (λ c, MkCaller (c_question c) (c_key c) (c_now c) (Some e) (c_place c)) i) w)
          | _, _ => blocked
          end
      | None => blocked
      end
  | Taken => if Nat.ltb (others w + computing w) plannerCapacity then moves (set others S w) else blocked
  | Given => if Nat.ltb 0 (others w) then moves (set others pred w) else blocked
  | Turn ctx_first by_ i => turn ctx_first by_ i w
  end.

(** A map is ranged over in some order of its entries. *)
Definition fair (ev : event) : Prop :=
  match ev with Turn _ by_ _ => ∀ m, by_ m ≡ₚ map_to_list m | _ => True end.
Definition step (w w' : world) : Prop := ∃ ev, fair ev ∧ happens ev w = Ok (Some w').
Definition reachable (w : world) : Prop := rtc step empty_cache w.
End Cache.

(** * Eviction makes room *)

Definition weight {Report} (m : gmap string (@searchEntry Report)) : Z := sum_by (λ kv, e_bytes (snd kv)) (map_to_list m).

Section Eviction.
Context {Report : Type}.
#[local] Abbreviation Entry := (@searchEntry Report).
Implicit Types (m : gmap string Entry) (e : Entry) (s : @scan Report).

Lemma weight_insert m k e : m !! k = None → weight (<[k:=e]> m) = weight m + e_bytes e.
Proof. intros H. unfold weight. rewrite (sum_by_perm _ _ _ (map_to_list_insert m k e H)). unfold sum_by. cbn. lia. Qed.
Lemma weight_delete m k : weight (delete k m) = weight m - from_option e_bytes 0 (m !! k).
Proof.
  destruct (m !! k) as [e|] eqn:E; cbn; [|by rewrite delete_id by done; lia].
  unfold weight. rewrite <- (sum_by_perm _ _ _ (map_to_list_delete m k e E)). unfold sum_by. cbn. lia.
Qed.

(** Every key of the cache is a digest, and none is empty. *)
Definition keyed_all m : Prop := ∀ k, is_Some (m !! k) → k ≠ "".

(** How far a scan of [m] has come: past [seen], with [rest] ahead. *)
Record scanning m (seen rest : list (string * Entry)) s : Prop := {
  sg_sub : sc_entries s ⊆ m;
  sg_bytes : sc_bytes s = weight (sc_entries s);
  sg_ahead : ∀ k e, (k, e) ∈ rest → sc_entries s !! k = Some e;
  sg_dropped : dropped s = true → (size (sc_entries s) < size m)%nat;
  sg_kept : dropped s = false → sc_entries s = m;
  sg_oldest : oldestKey s ≠ "" → is_Some (m !! oldestKey s);
  sg_seen : dropped s = false → seen ≠ [] → oldestKey s ≠ "" }.

Lemma look_scanning now m seen k e rest s :
  keyed_all m → k ∉ (fst <$> rest) → scanning m seen ((k, e) :: rest) s →
  scanning m (seen ++ [(k, e)]) rest (look now s (k, e)).
Proof.
  intros Hm Hk [Hsub Hb Ha Hd Hkept Ho Hs]. pose proof (Ha k e ltac:(by left)) as Hin.
  assert (is_Some (m !! k)) as Hmk by (exists e; by eapply lookup_weaken).
  unfold look. destruct (searchCacheTTL <=? now - addedAt e) eqn:Et.
  { split; cbn; try done.
    - etrans; [apply delete_subseteq|done].
    - rewrite weight_delete, Hin, Hb. done.
    - intros k' e' Hin'. rewrite lookup_delete_ne; [apply Ha; by right|]. intros <-. apply Hk, list_elem_of_fmap. by exists (k, e').
    - intros _. pose proof (map_subseteq_size _ _ Hsub) as Hle. rewrite map_size_delete_Some by done.
      assert (size (sc_entries s) ≠ 0%nat); [|lia]. intros E%map_size_empty_inv. by rewrite E in Hin. }
  destruct (String.eqb (oldestKey s) "" || (addedAt e <? oldestAt s)) eqn:Ek; split; cbn; try done.
  - intros k' e' Hin'. apply Ha. by right.
  - intros _ _. by apply Hm.
  - intros k' e' Hin'. apply Ha. by right.
  - intros _ _ E. rewrite E in Ek. by cbn in Ek.
Qed.

Lemma scan_all now m rest : ∀ seen s,
  keyed_all m → NoDup (fst <$> rest) → scanning m seen rest s → scanning m (seen ++ rest) [] (foldl (look now) s rest).
Proof.
  induction rest as [|[k e] rest IH]; intros seen s Hm Hd Hs; [by rewrite app_nil_r|].
  cbn in Hd. apply NoDup_cons in Hd as [Hk Hd]. cbn [foldl]. rewrite cons_middle, app_assoc. apply IH; [done..|].
  by apply look_scanning.
Qed.

Lemma evictLocked_spec (by_ : range) now m m' b :
  (∀ m, by_ m ≡ₚ map_to_list m) → keyed_all m → evictLocked by_ now m (weight m) = (m', b) →
  m' ⊆ m ∧ b = weight m' ∧ (m ≠ ∅ → (size m' < size m)%nat).
Proof.
  intros Hby Hm. unfold evictLocked.
  assert (scanning m ([] ++ by_ m) [] (foldl (look now) (MkScan m (weight m) "" 0 false) (by_ m))) as HS.
  { apply scan_all; [done|rewrite Hby; apply NoDup_fst_map_to_list|]. split; cbn; try done.
    intros k e Hin. rewrite Hby in Hin. by apply elem_of_map_to_list. }
  revert HS. generalize (foldl (look now) (MkScan m (weight m) "" 0 false) (by_ m)) as s. intros s [Hsub Hb _ Hd Hkept Ho Hs] H.
  destruct (dropped s) eqn:Ed; cbn [negb andb] in H; [injection H as <- <-; auto|].
  rewrite Hkept in * by done. destruct (String.eqb_spec (oldestKey s) "") as [E|E]; cbn [negb] in H; injection H as <- <-.
  - split; [done|]. split; [done|]. intros Hne. exfalso. apply Hs; [done| |done]. cbn. intros En.
    pose proof (Hby m) as Hp. rewrite En in Hp. apply Permutation_nil, map_to_list_empty_iff in Hp. done.
  - destruct (Ho E) as [e He]. split; [apply delete_subseteq|]. split; [by rewrite weight_delete, Hb|].
    intros _. rewrite map_size_delete_Some by eauto. assert (size m ≠ 0%nat); [|lia].
    intros En%map_size_empty_inv. by rewrite En in He.
Qed.

Lemma keyed_sub m m' : m' ⊆ m → keyed_all m → keyed_all m'.
Proof. intros Hs Hm k [e He]. apply Hm. exists e. by eapply lookup_weaken. Qed.

(** The loop ends, within as many rounds as there are entries. *)
Lemma make_room_spec (by_ : range) now n fuel : ∀ m,
  (∀ m, by_ m ≡ₚ map_to_list m) → keyed_all m → (size m ≤ fuel)%nat → n ≤ searchCacheBytes →
  ∃ m', make_room fuel by_ now n m (weight m) = Ok (m', weight m') ∧ m' ⊆ m ∧
    (size m' < searchCacheMax)%nat ∧ weight m' + n ≤ searchCacheBytes.
Proof.
  induction fuel as [|fuel IH]; intros m Hby Hm Hf Hn; cbn [make_room].
  all: destruct (Nat.leb searchCacheMax (size m) || (searchCacheBytes <? weight m + n)) eqn:E;
    [|apply orb_false_iff in E as [E1%Nat.leb_gt E2%Z.ltb_ge]; by exists m].
  - assert (m = ∅) as -> by (apply map_size_empty_inv; lia). exfalso. cbn in E. apply Z.ltb_lt in E. change (weight (∅ : gmap string Entry)) with 0 in E. lia.
  - destruct (evictLocked by_ now m (weight m)) as [m1 b1] eqn:Ee.
    destruct (evictLocked_spec _ _ _ _ _ Hby Hm Ee) as (Hs & -> & Hlt).
    assert (m ≠ ∅) as Hne by (intros ->; cbn in E; apply Z.ltb_lt in E; change (weight (∅ : gmap string Entry)) with 0 in E; lia).
    destruct (IH m1 Hby (keyed_sub _ _ Hs Hm) ltac:(specialize (Hlt Hne); lia) Hn) as (m' & -> & Hs' & H1 & H2).
    exists m'. split; [done|]. split; [by etrans|done].
Qed.
End Eviction.

(** * What a turn does *)

Section Turns.
Context {Report : Type} (json : Report → Z) (compute : Question → result failure Report).
#[local] Abbreviation World := (@world Report).
#[local] Abbreviation Caller := (@caller Report).
Implicit Types (w : World) (c d : Caller) (p : @place Report).

(** The flight a caller owns, whether it holds the slot, the report it has. *)
Definition owns p : option nat :=
  match p with
  | ToSlot f | InSlot f | ToPlanner f | Computing f | Computed f _ | Storing f _ | Crashed f => Some f
  | _ => None
  end.
Definition in_slot p : bool := match p with InSlot _ | ToPlanner _ | Computing _ => true | _ => false end.
Definition shows p : option Report :=
  match p with Computed _ (inl r) | Storing _ (inl r) | Returned (inl r) => Some r | _ => None end.
Definition placed c p : Caller := MkCaller (c_question c) (c_key c) (c_now c) (c_ctx c) p.

(** Where a report may come from without a computation of the caller's own. *)
Definition handed w c (r : Report) : Prop :=
  (∃ e, entries w !! c_key c = Some e ∧ rep e = r) ∨
  (∃ f fl, c_place c = Waiting f ∧ table w !! f = Some fl ∧ f_done fl = Some (inl r)) ∨ shows (c_place c) = Some r.

(** The turns of a caller, by what they do to the cache. *)
Inductive turned (by_ : range) w (i : nat) c : World → Prop :=
| T_goes p : owns p = owns (c_place c) → in_slot p = in_slot (c_place c) →
    (∀ f, p = Waiting f → flights w !! c_key c = Some f) → (∀ r, shows p = Some r → handed w c r) →
    (∀ f, p = Computing f → (others w + computing w < plannerCapacity)%nat) →
    (∀ f, p ≠ Crashed f) → turned by_ w i c (goto i p w)
| T_owns : owns (c_place c) = None → flights w !! c_key c = None →
    turned by_ w i c (goto i (ToSlot (length (table w)))
      (set flights (<[c_key c := length (table w)]>) (set table (λ t, t ++ [MkFlight (c_key c) None]) w)))
| T_takes f : c_place c = ToSlot f → slot w = None → turned by_ w i c (goto i (InSlot f) (set slot (λ _, Some i) w))
| T_frees f p : in_slot (c_place c) = true → owns (c_place c) = Some f → owns p = Some f → in_slot p = false →
    (∀ r, shows p = Some r → compute (c_question c) = Ok r) →
    (∀ f', p = Crashed f' → ∃ y, compute (c_question c) = Panic y) → turned by_ w i c (goto i p (free_slot w))
| T_stores f r w1 : c_place c = Storing f r →
    (match r with inl x => keep json by_ c x w | inr _ => Ok w end) = Ok w1 →
    turned by_ w i c (goto i (Returned r) (land f c r w1)).

Lemma unless_gone_shows c r x : unless_gone c r = inl x → r = inl x.
Proof. unfold unless_gone. destruct r, (c_ctx c); congruence. Qed.

Lemma look_up_turned by_ i w c : c_place c = Locking → turned by_ w i c (look_up i c w).
Proof.
  intros Hp.
  assert (turned by_ w i c (join_flight i c w)) as Hj.
  { unfold join_flight. destruct (flights w !! c_key c) as [f|] eqn:Ef; [|apply T_owns; by rewrite ?Hp].
    apply T_goes; rewrite ?Hp; try done. by intros f' [= <-]. }
  unfold look_up. destruct (entries w !! c_key c) as [e|] eqn:Ee; [|done].
  destruct (c_now c - addedAt e <? searchCacheTTL); [|done].
  apply T_goes; rewrite ?Hp; try done. intros r [= <-]. left. by exists e.
Qed.

Lemma turn_turned ctx_first by_ i w w' :
  turn json compute ctx_first by_ i w = Ok (Some w') → ∃ c, callers w !! i = Some c ∧ turned by_ w i c w'.
Proof.
  unfold turn, moves, blocked. destruct (callers w !! i) as [c|]; [|done]. intros H. exists c. split; [done|].
  destruct (c_place c) as [| |f|f|f|f|f|f r|f r|r|f] eqn:Hp; simpl in H.
  - injection H as <-. destruct (c_ctx c); apply T_goes; rewrite ?Hp; done.
  - injection H as <-. by apply look_up_turned.
  - destruct ctx_first, (c_ctx c) as [e|]; try discriminate H.
    1: injection H as <-; apply T_goes; rewrite ?Hp; done.
    all: destruct (table w !! f) as [fl|] eqn:Et; [|discriminate H]; cbn in H;
      destruct (f_done fl) as [[r|e']|] eqn:Ed; try discriminate H; injection H as <-.
    all: try (destruct (gone e')); apply T_goes; rewrite ?Hp; try done.
    all: intros x [= <-]; right; left; by exists f, fl.
  - destruct ctx_first, (c_ctx c) as [e|]; try discriminate H.
    1: injection H as <-; apply T_goes; rewrite ?Hp; done.
    all: destruct (slot w) eqn:Es; [discriminate H|]; injection H as <-; by apply T_takes.
  - injection H as <-. destruct (c_ctx c); [apply (T_frees _ _ _ _ f)|apply T_goes]; rewrite ?Hp; done.
  - destruct ctx_first, (c_ctx c) as [e|]; try discriminate H.
    1: injection H as <-; apply (T_frees _ _ _ _ f); rewrite ?Hp; done.
    all: destruct (Nat.ltb_spec (others w + computing w) plannerCapacity); [|discriminate H]; injection H as <-;
      apply T_goes; rewrite ?Hp; done.
  - destruct ctx_first, (c_ctx c) as [e|] eqn:Ec; try discriminate H.
    1: injection H as <-; apply (T_frees _ _ _ _ f); rewrite ?Hp; done.
    all: destruct (compute (c_question c)) as [r|e'|y] eqn:Er; injection H as <-; apply (T_frees _ _ _ _ f); rewrite ?Hp; try done; eauto.
    all: intros x Hx; unfold unless_gone in Hx; rewrite ?Ec in Hx; cbn in Hx; congruence.
  - injection H as <-. apply T_goes; rewrite ?Hp; try done. intros x Hx. right. right. rewrite Hp. cbn in Hx |- *.
    destruct (unless_gone c r) as [y|] eqn:Eu; [|done]. by apply unless_gone_shows in Eu as ->.
  - unfold store in H. apply bind_Ok in H as (w2 & H & [= <-]). apply bind_Ok in H as (w1 & H & [= <-]).
    by apply (T_stores _ _ _ _ f).
  - done.
  - done.
Qed.

Lemma callers_goto i p w j d : callers (goto i p w) !! j = Some d →
  j ≠ i ∧ callers w !! j = Some d ∨ j = i ∧ ∃ c, callers w !! i = Some c ∧ d = placed c p.
Proof.
  unfold goto. change (callers (set callers ?g w)) with (g (callers w)). destruct (decide (j = i)) as [->|Hne].
  - rewrite list_lookup_alter_eq. intros (c & Hc & ->)%fmap_Some. right. split; [done|]. by exists c.
  - rewrite list_lookup_alter_ne by done. by left.
Qed.
Lemma callers_goto_at i p w c : callers w !! i = Some c → callers (goto i p w) !! i = Some (placed c p).
Proof. intros H. unfold goto. change (callers (set callers ?g w)) with (g (callers w)). by rewrite list_lookup_alter_eq, H. Qed.
Lemma callers_goto_ne i p w j : j ≠ i → callers (goto i p w) !! j = callers w !! j.
Proof. intros H. unfold goto. change (callers (set callers ?g w)) with (g (callers w)). by rewrite list_lookup_alter_ne. Qed.
End Turns.

(** * Worlds that can be reached *)

Section Reached.
Context {Report : Type} (json : Report → Z) (compute : Question → result failure Report).
#[local] Abbreviation World := (@world Report).
#[local] Abbreviation Caller := (@caller Report).
Implicit Types (w : World) (c d : Caller) (p : @place Report).

(** A report some question of this fingerprint was answered with. *)
Definition found (k : string) (r : Report) : Prop := ∃ q, searchFingerprint q = Ok k ∧ compute q = Ok r.

Record well w : Prop := {
  w_named : ∀ i c, callers w !! i = Some c → searchFingerprint (c_question c) = Ok (c_key c);
  w_shown : ∀ i c r, callers w !! i = Some c → shows (c_place c) = Some r → found (c_key c) r;
  w_owner : ∀ i c f, callers w !! i = Some c → owns (c_place c) = Some f → flights w !! c_key c = Some f;
  w_flown : ∀ k f, flights w !! k = Some f → ∃ i c, callers w !! i = Some c ∧ owns (c_place c) = Some f ∧ c_key c = k;
  w_aloft : ∀ k f, flights w !! k = Some f → table w !! f = Some (MkFlight k None);
  w_crash : ∀ i c f, callers w !! i = Some c → c_place c = Crashed f → ∃ y, compute (c_question c) = Panic y;
  w_alone : ∀ i j c d f, callers w !! i = Some c → callers w !! j = Some d →
    owns (c_place c) = Some f → owns (c_place d) = Some f → i = j;
  w_waits : ∀ i c f, callers w !! i = Some c → c_place c = Waiting f →
    ∃ fl, table w !! f = Some fl ∧ f_key fl = c_key c ∧ (f_done fl = None → flights w !! c_key c = Some f);
  w_landed : ∀ f fl r, table w !! f = Some fl → f_done fl = Some (inl r) → found (f_key fl) r;
  w_slot : ∀ i, slot w = Some i ↔ ∃ c, callers w !! i = Some c ∧ in_slot (c_place c) = true;
  w_planners : (others w + computing w ≤ plannerCapacity)%nat;
  w_entries : ∀ k e, entries w !! k = Some e → found k (rep e) ∧ e_bytes e = json (rep e) ∧ 0 < e_bytes e;
  w_bytes : bytes w = weight (entries w);
  w_room : (size (entries w) ≤ searchCacheMax)%nat ∧ bytes w ≤ searchCacheBytes }.

Lemma well_empty : well empty_cache.
Proof.
  split; cbn; try done; try (intros * H; by rewrite ?lookup_empty, ?lookup_nil in H).
  - intros i. split; [done|]. by intros (c & H & _).
  - apply Nat.le_0_l.
  - split; [apply Nat.le_0_l|done].
Qed.

(** One caller's share of the count. *)
Lemma count_alter {A} (f : A → bool) (g : A → A) l : ∀ i x, l !! i = Some x →
  (length (List.filter f (alter g i l)) + (if f x then 1 else 0) = length (List.filter f l) + (if f (g x) then 1 else 0))%nat.
Proof.
  induction l as [|y l IH]; intros [|i] x H; [done..| |].
  - injection H as ->. cbn. destruct (f x), (f (g x)); cbn; lia.
  - change (alter g (S i) (y :: l)) with (y :: alter g i l). cbn. specialize (IH i x H). destruct (f y); cbn; lia.
Qed.
Lemma computing_goto i p w c : callers w !! i = Some c →
  (computing (goto i p w) + (if is_computing c then 1 else 0) = computing w + (if is_computing (placed c p) then 1 else 0))%nat.
Proof. exact (count_alter is_computing (λ c, placed c p) (callers w) i c). Qed.

(** [at_other H c]: the caller found in [H] is another one, or the one that moved. *)
Ltac at_other H c :=
  let c0 := fresh "c0" in let Hc0 := fresh "Hc0" in
  apply callers_goto in H as [[? H]|(-> & c0 & Hc0 & ->)];
  [|assert (c0 = c) as -> by (apply (inj Some); etrans; [symmetry; exact Hc0|eassumption]); clear Hc0; cbn [c_question c_key c_place placed] in *].

Lemma well_goes i c w p : well w → callers w !! i = Some c →
  owns p = owns (c_place c) → in_slot p = in_slot (c_place c) → (∀ f, p = Waiting f → flights w !! c_key c = Some f) →
  (∀ r, shows p = Some r → handed w c r) → (∀ f, p = Computing f → (others w + computing w < plannerCapacity)%nat) →
  (∀ f, p ≠ Crashed f) → well (goto i p w).
Proof.
  intros HW Hc Ho Hs Hw Hh Hp Hnc.
  assert (others w + computing (goto i p w) ≤ plannerCapacity)%nat as Hpl.
  { pose proof (computing_goto i p w c Hc) as Hn. pose proof (w_planners w HW).
    destruct (is_computing (placed c p)) eqn:E; [|destruct (is_computing c); lia].
    assert (∃ f, p = Computing f) as [f ->] by (unfold is_computing in E; cbn in E; destruct p; eauto; done).
    specialize (Hp f eq_refl). destruct (is_computing c); lia. }
  destruct HW. split; cbn.
  - intros j d Hd. at_other Hd c; eauto.
  - intros j d r Hd Hr. at_other Hd c; [eauto|]. destruct (Hh r Hr) as [(e & He & <-)|[(f & fl & Hf & Ht & Hl)|Hr']]; [|
      |by eapply w_shown0].
    + by apply w_entries0.
    + destruct (w_waits0 _ _ _ Hc Hf) as (fl' & Ht' & Hk & _). assert (fl' = fl) as -> by congruence. rewrite <- Hk. eauto.
  - intros j d f Hd Hf. at_other Hd c; [eauto|]. apply (w_owner0 i c f Hc). congruence.
  - intros k f Hf. destruct (w_flown0 k f Hf) as (j & d & Hd & Hdo & Hk). exists j. destruct (decide (j = i)) as [->|Hne].
    + assert (d = c) as -> by congruence. exists (placed c p). split; [by apply callers_goto_at|]. cbn. by rewrite Ho.
    + exists d. split; [|done]. etrans; [by apply callers_goto_ne|done].
  - done.
  - intros j d f Hd Hf. at_other Hd c; [eauto|by destruct (Hnc f)].
  - intros j k d d' f Hd Hd' Hf Hf'. at_other Hd c; at_other Hd' c; [eauto| | |done].
    + apply (w_alone0 j i d c f); congruence.
    + apply (w_alone0 i k c d' f); congruence.
  - intros j d f Hd Hf. at_other Hd c; [eauto|]. specialize (Hw f Hf). eexists. by split; [apply (w_aloft0 _ _ Hw)|].
  - done.
  - intros j. rewrite w_slot0. split; intros (d & Hd & Hi).
    + destruct (decide (j = i)) as [->|Hne]; [|exists d; split; [etrans; [by apply callers_goto_ne|done]|done]].
      exists (placed c p). split; [by apply callers_goto_at|]. cbn. rewrite Hs. congruence.
    + at_other Hd c; [eauto|]. exists c. split; [done|]. congruence.
  - exact Hpl.
  - done.
  - done.
  - done.
Qed.

Lemma in_slot_owns p : in_slot p = true → owns p ≠ None.
Proof. by destruct p. Qed.
Lemma computing_goto_other i p w c : callers w !! i = Some c → (∀ f, p ≠ Computing f) →
  (computing (goto i p w) ≤ computing w)%nat.
Proof.
  intros Hc Hp. pose proof (computing_goto i p w c Hc) as Hn.
  assert (is_computing (placed c p) = false) as E by (unfold is_computing; cbn; destruct p; try done; by destruct (Hp f)).
  rewrite E in Hn. destruct (is_computing c); lia.
Qed.

(** The caller that moved may take new facts, the others keep theirs. *)
Lemma well_owns i c w : well w → callers w !! i = Some c → owns (c_place c) = None → flights w !! c_key c = None →
  well (goto i (ToSlot (length (table w)))
    (set flights (<[c_key c := length (table w)]>) (set table (λ t, t ++ [MkFlight (c_key c) None]) w))).
Proof.
  intros HW Hc Ho Hk. set (f := length (table w)).
  pose proof (callers_goto_ne i (ToSlot f) w) as Hne. pose proof (callers_goto_at i (ToSlot f) w c Hc) as Hat. cbn in Hne, Hat.
  assert (in_slot (c_place c) = false) as Hs.
  { destruct (in_slot (c_place c)) eqn:E; [|done]. by apply in_slot_owns in E. }
  assert (∀ j d, callers w !! j = Some d → owns (c_place d) ≠ Some f) as Hnew.
  { intros j d Hd Hf. pose proof (w_aloft w HW _ _ (w_owner w HW j d f Hd Hf)) as Hl.
    apply lookup_lt_Some in Hl. unfold f in Hl. lia. }
  pose proof (computing_goto_other i (ToSlot f) w c Hc ltac:(done)) as Hn. pose proof (w_planners w HW) as Hp.
  destruct HW. split; cbn.
  - intros j d Hd. at_other Hd c; eauto.
  - intros j d r Hd Hr. at_other Hd c; [eauto|done].
  - intros j d f' Hd Hf. at_other Hd c; [|injection Hf as <-; apply lookup_insert_eq].
    pose proof (w_owner0 j d f' Hd Hf) as E. rewrite lookup_insert_ne; [done|]. intros E'. congruence.
  - intros k f' Hf. destruct (decide (k = c_key c)) as [->|Hkne].
    + rewrite lookup_insert_eq in Hf. injection Hf as <-. exists i, (placed c (ToSlot f)).
      split; [exact Hat|done].
    + rewrite lookup_insert_ne in Hf by done. destruct (w_flown0 k f' Hf) as (j & d & Hd & Hdo & Hdk).
      exists j, d. split; [|done]. rewrite Hne; [done|]. intros ->. congruence.
  - intros k f' Hf. destruct (decide (k = c_key c)) as [->|Hkne].
    + rewrite lookup_insert_eq in Hf. injection Hf as <-. by apply list_lookup_middle.
    + rewrite lookup_insert_ne in Hf by done. by apply lookup_app_l_Some, w_aloft0.
  - intros j d f' Hd Hf. at_other Hd c; [eauto|done].
  - intros j k d d' f' Hd Hd' Hf Hf'. at_other Hd c; at_other Hd' c; [eauto| | |done].
    + injection Hf' as <-. by destruct (Hnew j d Hd).
    + injection Hf as <-. by destruct (Hnew k d' Hd').
  - intros j d f' Hd Hf. at_other Hd c; [|done]. destruct (w_waits0 j d f' Hd Hf) as (fl & Hfl & Hfk & Hu).
    exists fl. split; [by apply lookup_app_l_Some|]. split; [done|]. intros Hfd. specialize (Hu Hfd).
    rewrite lookup_insert_ne; [done|]. intros E. congruence.
  - intros f' fl r Hf Hr. apply lookup_app_Some in Hf as [Hf|[_ Hf]]; [eauto|].
    apply list_lookup_singleton_Some in Hf as [_ <-]. done.
  - intros j. rewrite w_slot0. split; intros (d & Hd & Hi).
    + exists d. split; [|done]. rewrite Hne; [done|]. intros ->. congruence.
    + at_other Hd c; [eauto|done].
  - change (others w + computing (goto i (ToSlot f) w) ≤ plannerCapacity)%nat. lia.
  - done.
  - done.
  - done.
Qed.

Lemma well_takes i c w f : well w → callers w !! i = Some c → c_place c = ToSlot f → slot w = None →
  well (goto i (InSlot f) (set slot (λ _, Some i) w)).
Proof.
  intros HW Hc Hpl Hsl.
  pose proof (callers_goto_ne i (InSlot f) w) as Hne. pose proof (callers_goto_at i (InSlot f) w c Hc) as Hat. cbn in Hne, Hat.
  pose proof (computing_goto_other i (InSlot f) w c Hc ltac:(done)) as Hn. pose proof (w_planners w HW) as Hp.
  assert (∀ j d, callers w !! j = Some d → in_slot (c_place d) = false) as Hfree.
  { intros j d Hd. destruct (in_slot (c_place d)) eqn:E; [|done].
    assert (slot w = Some j) by (apply (w_slot w HW); eauto). congruence. }
  destruct HW. split; cbn; try done.
  - intros j d Hd. at_other Hd c; eauto.
  - intros j d r Hd Hr. at_other Hd c; [eauto|done].
  - intros j d f' Hd Hf. at_other Hd c; [eauto|]. apply (w_owner0 i c f' Hc). by rewrite Hpl.
  - intros k f' Hf. destruct (w_flown0 k f' Hf) as (j & d & Hd & Hdo & Hk). exists j. destruct (decide (j = i)) as [->|Hj].
    + assert (d = c) as -> by congruence. exists (placed c (InSlot f)). split; [exact Hat|]. by rewrite Hpl in Hdo.
    + exists d. split; [|done]. by rewrite Hne.
  - intros j d f' Hd Hf. at_other Hd c; [eauto|done].
  - intros j k d d' f' Hd Hd' Hf Hf'. at_other Hd c; at_other Hd' c; [eauto| | |done].
    + apply (w_alone0 j i d c f'); [done..|]. by rewrite Hpl.
    + apply (w_alone0 i k c d' f'); [done..| |done]. by rewrite Hpl.
  - intros j d f' Hd Hf. at_other Hd c; [eauto|done].
  - intros j. split.
    + intros [= <-]. exists (placed c (InSlot f)). by split; [exact Hat|].
    + intros (d & Hd & Hi). at_other Hd c; [|done]. by rewrite (Hfree j d Hd) in Hi.
  - change (others w + computing (goto i (InSlot f) w) ≤ plannerCapacity)%nat. lia.
Qed.

Lemma well_frees i c w f p : well w → callers w !! i = Some c → in_slot (c_place c) = true → owns (c_place c) = Some f →
  owns p = Some f → in_slot p = false → (∀ r, shows p = Some r → compute (c_question c) = Ok r) →
  (∀ f', p = Crashed f' → ∃ y, compute (c_question c) = Panic y) →
  well (goto i p (free_slot w)).
Proof.
  intros HW Hc Hin Ho Hop Hip Hsh Hcr.
  pose proof (callers_goto_ne i p w) as Hne. pose proof (callers_goto_at i p w c Hc) as Hat. cbn in Hne, Hat.
  pose proof (computing_goto_other i p w c Hc ltac:(by intros f' ->)) as Hn. pose proof (w_planners w HW) as Hp.
  assert (∀ j d, callers w !! j = Some d → in_slot (c_place d) = true → j = i) as Hsole.
  { intros j d Hd Hd'. assert (slot w = Some j) as E by (apply (w_slot w HW); eauto).
    assert (slot w = Some i) as E' by (apply (w_slot w HW); eauto). congruence. }
  destruct HW. split; cbn; try done.
  - intros j d Hd. at_other Hd c; eauto.
  - intros j d r Hd Hr. at_other Hd c; [eauto|]. exists (c_question c). split; [eauto|auto].
  - intros j d f' Hd Hf. at_other Hd c; [eauto|]. apply (w_owner0 i c f' Hc). congruence.
  - intros k f' Hf. destruct (w_flown0 k f' Hf) as (j & d & Hd & Hdo & Hk). exists j. destruct (decide (j = i)) as [->|Hj].
    + assert (d = c) as -> by congruence. exists (placed c p). split; [exact Hat|]. cbn. split; [congruence|done].
    + exists d. split; [|done]. by rewrite Hne.
  - intros j d f' Hd Hf. at_other Hd c; [eauto|eauto].
  - intros j k d d' f' Hd Hd' Hf Hf'. at_other Hd c; at_other Hd' c; [eauto| | |done].
    + apply (w_alone0 j i d c f'); [done..|]. congruence.
    + apply (w_alone0 i k c d' f'); [done..| |done]. congruence.
  - intros j d f' Hd Hf. at_other Hd c; [eauto|]. by subst p.
  - intros j. split; [done|]. intros (d & Hd & Hi). at_other Hd c; [|congruence]. destruct (H (Hsole j d Hd Hi)).
  - change (others w + computing (goto i p w) ≤ plannerCapacity)%nat. lia.
Qed.

(** What keeping a report leaves of the cache. *)
Lemma keep_spec by_ i c r w : well w → (∀ m, by_ m ≡ₚ map_to_list m) → callers w !! i = Some c → found (c_key c) r →
  ∃ m b, keep json by_ c r w = Ok (set entries (λ _, m) (set bytes (λ _, b) w)) ∧ b = weight m ∧
    (size m ≤ searchCacheMax)%nat ∧ b ≤ searchCacheBytes ∧
    ∀ k e, m !! k = Some e → found k (rep e) ∧ e_bytes e = json (rep e) ∧ 0 < e_bytes e.
Proof.
  intros HW Hby Hc Hf. unfold keep. cbv zeta.
  destruct ((0 <? json r) && (json r <=? searchCacheBytes)) eqn:E.
  2:{ exists (entries w), (bytes w). split; [by destruct w|]. split; [apply HW|].
      split; [apply HW|]. split; [apply HW|]. apply HW. }
  apply andb_true_iff in E as [E1%Z.ltb_lt E2%Z.leb_le]. rewrite (w_bytes w HW), <- weight_delete.
  assert (keyed_all (delete (c_key c) (entries w))) as Hk.
  { apply (keyed_sub _ _ (delete_subseteq _ _)). intros k [e He]. apply (w_entries w HW) in He as [(q & Hq & _) _].
    by eapply searchFingerprint_nonempty. }
  destruct (make_room_spec by_ (c_now c) (json r) (size (delete (c_key c) (entries w))) _ Hby Hk ltac:(done) E2)
    as (m & -> & Hs & Hm & Hb).
  assert (m !! c_key c = None) as Hnone.
  { destruct (m !! c_key c) as [e|] eqn:Ee; [|done]. pose proof (lookup_weaken _ _ _ _ Ee Hs) as He.
    by rewrite lookup_delete_eq in He. }
  rewrite bind_of_Ok. eexists _, _. split; [reflexivity|]. split; [by rewrite weight_insert|].
  split; [rewrite map_size_insert_None by done; unfold searchCacheMax in *; lia|]. split; [done|].
  intros k e He. destruct (decide (k = c_key c)) as [->|Hk'].
  - rewrite lookup_insert_eq in He. injection He as <-. done.
  - rewrite lookup_insert_ne in He by done. apply (w_entries w HW).
    pose proof (lookup_weaken _ _ _ _ He Hs) as He'. by rewrite lookup_delete_ne in He'.
Qed.

Lemma well_lands i c w f r m b : well w → callers w !! i = Some c → c_place c = Storing f r →
  b = weight m → (size m ≤ searchCacheMax)%nat → b ≤ searchCacheBytes →
  (∀ k e, m !! k = Some e → found k (rep e) ∧ e_bytes e = json (rep e) ∧ 0 < e_bytes e) →
  well (goto i (Returned r) (land f c r (set entries (λ _, m) (set bytes (λ _, b) w)))).
Proof.
  intros HW Hc Hpl Hb Hsz Hmax Hent.
  pose proof (callers_goto_ne i (Returned r) w) as Hne. pose proof (callers_goto_at i (Returned r) w c Hc) as Hat. cbn in Hne, Hat.
  pose proof (computing_goto_other i (Returned r) w c Hc ltac:(done)) as Hn. pose proof (w_planners w HW) as Hp.
  assert (owns (c_place c) = Some f) as Ho by (by rewrite Hpl).
  pose proof (w_owner w HW i c f Hc Ho) as Hfl. pose proof (w_aloft w HW _ _ Hfl) as Htf.
  assert (∀ x, shows (Returned r) = Some x → found (c_key c) x) as Hshown.
  { intros x Hx. apply (w_shown w HW i c x Hc). by rewrite Hpl. }
  destruct HW. split; cbn; try done.
  - intros j d Hd. at_other Hd c; eauto.
  - intros j d x Hd Hx. at_other Hd c; eauto.
  - intros j d f' Hd Hf. at_other Hd c; [|done]. rewrite lookup_delete_ne; [eauto|]. intros E.
    pose proof (w_owner0 j d f' Hd Hf) as E'. rewrite <- E in E'. assert (f' = f) as -> by congruence. eauto.
  - intros k f' Hf. apply lookup_delete_Some in Hf as [Hk Hf]. destruct (w_flown0 k f' Hf) as (j & d & Hd & Hdo & Hdk).
    exists j, d. split; [|done]. rewrite Hne; [done|]. intros ->. congruence.
  - intros k f' Hf. apply lookup_delete_Some in Hf as [Hk Hf]. pose proof (w_aloft0 k f' Hf) as E.
    rewrite list_lookup_alter_ne; [done|]. congruence.
  - intros j d f' Hd Hf. at_other Hd c; [eauto|done].
  - intros j k d d' f' Hd Hd' Hf Hf'. at_other Hd c; at_other Hd' c; [eauto|done..].
  - intros j d f' Hd Hf. at_other Hd c; [|done]. destruct (w_waits0 j d f' Hd Hf) as (fl & Hfl' & Hfk & Hu).
    destruct (decide (f' = f)) as [->|Hff].
    + assert (fl = MkFlight (c_key c) None) as -> by congruence. eexists. rewrite list_lookup_alter_eq, Htf. by split.
    + exists fl. rewrite list_lookup_alter_ne by done. split; [done|]. split; [done|]. intros Hfd. specialize (Hu Hfd).
      rewrite lookup_delete_ne; [done|]. intros E. congruence.
  - intros f' fl x Hf Hx. destruct (decide (f' = f)) as [->|Hff].
    + rewrite list_lookup_alter_eq, Htf in Hf. injection Hf as <-. cbn in Hx |- *. injection Hx as ->. by apply Hshown.
    + rewrite list_lookup_alter_ne in Hf by done. eauto.
  - intros j. rewrite w_slot0. split; intros (d & Hd & Hi).
    + exists d. split; [|done]. rewrite Hne; [done|]. intros ->. assert (d = c) as -> by congruence. by rewrite Hpl in Hi.
    + at_other Hd c; [eauto|done].
  - change (others w + computing (goto i (Returned r) w) ≤ plannerCapacity)%nat. lia.
Qed.

Lemma well_stores by_ i c f r w w1 : well w → (∀ m, by_ m ≡ₚ map_to_list m) → callers w !! i = Some c →
  c_place c = Storing f r → (match r with inl x => keep json by_ c x w | inr _ => Ok w end) = Ok w1 →
  well (goto i (Returned r) (land f c r w1)).
Proof.
  intros HW Hby Hc Hpl H. destruct r as [x|e].
  - destruct (keep_spec by_ i c x w HW Hby Hc) as (m & b & E & Hb & Hsz & Hmax & Hent).
    { apply (w_shown w HW i c x Hc). by rewrite Hpl. }
    rewrite E in H. injection H as <-. by eapply well_lands.
  - injection H as <-. replace w with (set entries (λ _, entries w) (set bytes (λ _, bytes w) w)) by (by destruct w).
    apply well_lands; [by destruct w|by destruct w|done|apply HW..].
Qed.

Lemma well_turn ctx_first by_ i w w' : (∀ m, by_ m ≡ₚ map_to_list m) → well w →
  turn json compute ctx_first by_ i w = Ok (Some w') → well w'.
Proof.
  intros Hby HW H. apply turn_turned in H as (c & Hc & H). destruct H.
  - by apply (well_goes i c).
  - by apply well_owns.
  - by apply (well_takes i c).
  - by apply (well_frees i c w f).
  - by apply (well_stores by_ i c f r w).
Qed.

Lemma well_arrives q now k w : well w → searchFingerprint q = Ok k →
  well (set callers (λ l, l ++ [MkCaller q k now None Asking]) w).
Proof.
  intros HW Hq. set (new := MkCaller q k now None (@Asking Report)).
  assert (∀ i c, (callers w ++ [new]) !! i = Some c → callers w !! i = Some c ∨ c = new) as Hin.
  { intros i c H. apply lookup_app_Some in H as [H|[_ H]]; [by left|right].
    by apply list_lookup_singleton_Some in H as [_ <-]. }
  assert (∀ i c, callers w !! i = Some c → (callers w ++ [new]) !! i = Some c) as Hstay by (intros; by apply lookup_app_l_Some).
  assert (computing (set callers (λ l, l ++ [new]) w) = computing w) as Hn.
  { unfold computing. change (callers (set callers ?g w)) with (g (callers w)). cbv beta.
    rewrite List.filter_app, length_app. cbn. lia. }
  destruct HW. split; cbn; try done.
  - intros i c [H| ->]%Hin; [eauto|done].
  - intros i c r [H| ->]%Hin Hr; [eauto|done].
  - intros i c f [H| ->]%Hin Hf; [eauto|done].
  - intros k' f Hf. destruct (w_flown0 k' f Hf) as (i & c & Hc & H). eauto.
  - intros i c f [H| ->]%Hin Hf; [eauto|done].
  - intros i j c d f [H| ->]%Hin [H'| ->]%Hin Hf Hf'; [eauto|done..].
  - intros i c f [H| ->]%Hin Hf; [eauto|done].
  - intros i. rewrite w_slot0. split; intros (c & Hc & Hi); [eauto|]. apply Hin in Hc as [Hc| ->]; [eauto|done].
  - change (others w + computing (set callers (λ l, l ++ [new]) w) ≤ plannerCapacity)%nat. lia.
Qed.

Lemma well_ends i c e w : well w → callers w !! i = Some c →
  well (set callers (alter (λ c, MkCaller (c_question c) (c_key c) (c_now c) (Some e) (c_place c)) i) w).
Proof.
  intros HW Hc. set (off := λ c, MkCaller (c_question c) (c_key c) (c_now c) (Some e) (c_place c)).
  assert (∀ j d, alter off i (callers w) !! j = Some d →
    ∃ d', callers w !! j = Some d' ∧ c_question d = c_question d' ∧ c_key d = c_key d' ∧ c_place d = c_place d') as Hin.
  { intros j d H. destruct (decide (j = i)) as [->|Hj].
    - rewrite list_lookup_alter_eq, Hc in H. injection H as <-. by exists c.
    - rewrite list_lookup_alter_ne in H by done. by exists d. }
  assert (∀ j d, callers w !! j = Some d →
    ∃ d', alter off i (callers w) !! j = Some d' ∧ c_key d' = c_key d ∧ c_place d' = c_place d) as Hstay.
  { intros j d H. destruct (decide (j = i)) as [->|Hj].
    - rewrite list_lookup_alter_eq, H. by eexists.
    - rewrite list_lookup_alter_ne by done. by exists d. }
  assert (computing (set callers (alter off i) w) = computing w) as Hn.
  { pose proof (count_alter is_computing off (callers w) i c Hc) as E.
    unfold is_computing in E. cbn in E. unfold computing. change (callers (set callers ?g w)) with (g (callers w)).
    unfold is_computing. lia. }
  destruct HW. split; cbn; try done.
  - intros j d (d' & Hd & -> & -> & _)%Hin. eauto.
  - intros j d r (d' & Hd & _ & -> & ->)%Hin. eauto.
  - intros j d f (d' & Hd & _ & -> & ->)%Hin. eauto.
  - intros k f Hf. destruct (w_flown0 k f Hf) as (j & d & Hd & Hdo & Hk). destruct (Hstay j d Hd) as (d' & Hd' & Hk' & Hp').
    exists j, d'. by rewrite Hk', Hp'.
  - intros j d f (d' & Hd & -> & _ & ->)%Hin. eauto.
  - intros j k d d' f (x & Hx & _ & _ & ->)%Hin (y & Hy & _ & _ & ->)%Hin. eauto.
  - intros j d f (d' & Hd & _ & -> & ->)%Hin. eauto.
  - intros j. rewrite w_slot0. split.
    + intros (d & Hd & Hi). destruct (Hstay j d Hd) as (d' & Hd' & _ & Hp'). exists d'. by rewrite Hp'.
    + intros (d & (d' & Hd & _ & _ & Hp)%Hin & Hi). exists d'. by rewrite <- Hp.
  - change (others w + computing (set callers (alter off i) w) ≤ plannerCapacity)%nat. lia.
Qed.

Lemma well_others w n : well w → (n + computing w ≤ plannerCapacity)%nat → well (set others (λ _, n) w).
Proof. intros HW Hn. destruct HW. split; solve [done|exact Hn|eauto]. Qed.

Lemma well_step w w' : well w → step json compute w w' → well w'.
Proof.
  intros HW ([q now|i e| | |ctx_first by_ i] & Hfair & H); cbn [happens] in H; unfold moves, blocked in H.
  - destruct (searchFingerprint q) as [k|e|y] eqn:Eq; [|done..]. injection H as <-. by apply well_arrives.
  - destruct (callers w !! i) as [c|] eqn:Ec; [|done]. destruct (c_ctx c), (gone e); try done. injection H as <-.
    by eapply well_ends.
  - destruct (Nat.ltb_spec (others w + computing w) plannerCapacity); [|done]. injection H as <-.
    apply (well_others w (S (others w))); [done|lia].
  - destruct (Nat.ltb_spec 0 (others w)); [|done]. injection H as <-. apply (well_others w (pred (others w))); [done|].
    pose proof (w_planners w HW). lia.
  - by eapply well_turn.
Qed.

Lemma reachable_well w : reachable json compute w → well w.
Proof.
  unfold reachable. intros H. assert (∀ v, rtc (step json compute) v w → well v → well w) as Hgo.
  { intros v. induction 1; [done|]. eauto using well_step. }
  apply (Hgo _ H), well_empty.
Qed.

(** * Where an answer comes from *)

(** What the search finds, as an answer. *)
Definition outcome (q : Question) : option answer :=
  match compute q with Ok r => Some (inl r) | Err e => Some (inr e) | Panic _ => None end.
(** A caller of this world asked a question of the fingerprint [k], and the
    search answers it with [a]. *)
Definition answered w (k : string) (a : answer) : Prop :=
  ∃ j d, callers w !! j = Some d ∧ c_key d = k ∧ outcome (c_question d) = Some a.
(** The end of the caller's own context. *)
Definition stopped c (a : @answer Report) : Prop := ∃ e, a = inr e ∧ c_ctx c = Some e.
Definition answer_at p : option answer := match p with Computed _ a | Storing _ a | Returned a => Some a | _ => None end.
(** What may lie in a flight that has landed, for those who wait for it. *)
Definition landed_with w (k : string) (a : answer) : Prop :=
  answered w k a ∨ ∃ e, a = inr e ∧ gone e = true.

Record honest w : Prop := {
  h_ctx : ∀ i c e, callers w !! i = Some c → c_ctx c = Some e → gone e = true;
  h_entries : ∀ k e, entries w !! k = Some e → answered w k (inl (rep e));
  h_table : ∀ f fl a, table w !! f = Some fl → f_done fl = Some a → landed_with w (f_key fl) a;
  h_places : ∀ i c a, callers w !! i = Some c → answer_at (c_place c) = Some a → stopped c a ∨ answered w (c_key c) a }.

(** Callers keep their question and its key for good. *)
Definition callers_stay w w' : Prop :=
  ∀ j d, callers w !! j = Some d → ∃ d', callers w' !! j = Some d' ∧ c_key d' = c_key d ∧ c_question d' = c_question d.
Lemma answered_stays w w' k a : callers_stay w w' → answered w k a → answered w' k a.
Proof.
  intros Hs (j & d & Hd & Hk & Ha). destruct (Hs j d Hd) as (d' & Hd' & Hk' & Hq). exists j, d'. split; [done|].
  split; congruence.
Qed.
Lemma landed_stays w w' k a : callers_stay w w' → landed_with w k a → landed_with w' k a.
Proof. intros Hs [H|H]; [left; by eapply answered_stays|by right]. Qed.
Lemma goto_stays i p w w' : callers w' = callers (goto i p w) → callers_stay w w'.
Proof.
  intros E j d Hd. destruct (decide (j = i)) as [->|Hne].
  - exists (placed d p). split; [|done]. rewrite E. by apply callers_goto_at.
  - exists d. split; [|done]. rewrite E. etrans; [by apply callers_goto_ne|done].
Qed.

(** A caller goes to [p]; what is new in the cache and in the flights is honest. *)
Lemma honest_goes i c p w w' : honest w → callers w !! i = Some c → callers w' = callers (goto i p w) →
  (∀ k e, entries w' !! k = Some e → entries w !! k = Some e ∨ answered w k (inl (rep e))) →
  (∀ f fl a, table w' !! f = Some fl → f_done fl = Some a →
    table w !! f = Some fl ∨ landed_with w (f_key fl) a) →
  (∀ a, answer_at p = Some a → stopped c a ∨ answered w (c_key c) a) → honest w'.
Proof.
  intros [H1 H2 H3 H4] Hc E He Ht Hp. pose proof (goto_stays _ _ _ _ E) as Hs. split.
  - intros j d e Hd. rewrite E in Hd. at_other Hd c; [eauto|]. exact (H1 i c e Hc).
  - intros k e Hk. eapply answered_stays; [exact Hs|]. destruct (He k e Hk) as [Hk'|Hk']; [by apply H2|done].
  - intros f fl a Hf Ha. eapply landed_stays; [exact Hs|]. destruct (Ht f fl a Hf Ha) as [Hf'|Hf']; [by eapply H3|done].
  - intros j d a Hd Ha. rewrite E in Hd. at_other Hd c.
    + destruct (H4 j d a Hd Ha) as [?|?]; [by left|right; by eapply answered_stays].
    + destruct (Hp a Ha) as [?|?]; [by left|right; by eapply answered_stays].
Qed.

(** A step that leaves entries and flights alone. *)
Lemma honest_walks i c p w w' : honest w → callers w !! i = Some c → callers w' = callers (goto i p w) →
  entries w' = entries w → table w' = table w →
  (∀ a, answer_at p = Some a → stopped c a ∨ answered w (c_key c) a) → honest w'.
Proof. intros HH Hc E He Ht Hp. eapply honest_goes; [done..| | |done]; rewrite ?He, ?Ht; auto. Qed.

Lemma looks_sub now l : ∀ s : @scan Report, sc_entries (foldl (look now) s l) ⊆ sc_entries s.
Proof.
  induction l as [|[k e] l IH]; intros s; [done|]. cbn [foldl]. etrans; [apply IH|].
  unfold look. repeat case_match; cbn; [apply delete_subseteq|done..].
Qed.
Lemma make_room_sub (by_ : range) now n fuel : ∀ m b m' b' , make_room (Report:=Report) fuel by_ now n m b = Ok (m', b') → m' ⊆ m.
Proof.
  induction fuel as [|fuel IH]; intros m b m' b' H; cbn [make_room] in H; case_match; try done; try (by injection H as <- _).
  destruct (evictLocked by_ now m b) as [m1 b1] eqn:E. apply IH in H. etrans; [exact H|].
  unfold evictLocked in E. pose proof (looks_sub now (by_ m) (MkScan m b "" 0 false)) as Hs. cbn in Hs.
  case_match; injection E as <- _; [|done]. etrans; [apply delete_subseteq|done].
Qed.
Lemma keep_entries by_ c r w w1 : keep json by_ c r w = Ok w1 →
  callers w1 = callers w ∧ table w1 = table w ∧ flights w1 = flights w ∧
  ∀ k e, entries w1 !! k = Some e → entries w !! k = Some e ∨ k = c_key c ∧ rep e = r.
Proof.
  unfold keep. case_match; [|intros [= <-]; auto]. cbv zeta. intros Hk. apply bind_Ok in Hk as ([m b] & Hk & [= <-]).
  apply make_room_sub in Hk. do 3 (split; [done|]). intros k e He. cbn in He.
  apply lookup_insert_Some in He as [[<- <-]|[_ He]]; [by right|left].
  pose proof (lookup_weaken _ _ _ _ He Hk) as He'. by apply lookup_delete_Some in He' as [_ ?].
Qed.

Lemma honest_lands by_ i c f a w w' : well w → honest w → callers w !! i = Some c → c_place c = Storing f a →
  store json by_ i f c a w = Ok w' → honest w'.
Proof.
  intros HW HH Hc Hpl H. unfold store in H. apply bind_Ok in H as (w2 & H & [= <-]).
  assert (stopped c a ∨ answered w (c_key c) a) as Ha by (apply (h_places w HH i c a Hc); by rewrite Hpl).
  pose proof (w_aloft w HW _ _ (w_owner w HW i c f Hc ltac:(by rewrite Hpl))) as Hf.
  assert (callers w2 = callers w ∧ table w2 = table w ∧ ∀ k e, entries w2 !! k = Some e →
    entries w !! k = Some e ∨ answered w k (inl (rep e))) as (E1 & E2 & E3).
  { destruct a as [r|e]; [|injection H as <-; auto]. apply keep_entries in H as (E1 & E2 & _ & E3).
    do 2 (split; [done|]). intros k e [He|[-> <-]]%E3; [by left|right]. destruct Ha as [(e' & [=] & _)|Ha]; done. }
  eapply (honest_goes i c (Returned a)); [done..| |exact E3| |].
  - unfold goto, land. cbn. by rewrite E1.
  - intros g fl x Hg Hx. change (alter (λ fl, MkFlight (f_key fl) (Some a)) f (table w2) !! g = Some fl) in Hg.
    rewrite E2 in Hg. destruct (decide (g = f)) as [->|Hne]; [|rewrite list_lookup_alter_ne in Hg by done; by left].
    rewrite list_lookup_alter_eq, Hf in Hg. injection Hg as <-. injection Hx as <-. right.
    destruct Ha as [(e & -> & He)|Ha]; [right|by left]. exists e. split; [done|]. by eapply (h_ctx w HH).
  - by intros x [= <-].
Qed.

Lemma honest_turn ctx_first by_ i w w' : well w → honest w →
  turn json compute ctx_first by_ i w = Ok (Some w') → honest w'.
Proof.
  intros HW HH H. unfold turn, moves, blocked in H. destruct (callers w !! i) as [c|] eqn:Hc; [|done].
  assert (∀ p v, callers v = callers (goto i p w) → entries v = entries w → table v = table w →
    (∀ a, answer_at p = Some a → stopped c a ∨ answered w (c_key c) a) → honest v) as Hwalk by (intros; by eapply honest_walks).
  assert (∀ e, c_ctx c = Some e → stopped c (inr e)) as Hstop by (intros e He; by exists e).
  assert (∀ a, outcome (c_question c) = Some a → answered w (c_key c) a) as Hown by (intros a Ha; by exists i, c).
  destruct (c_place c) as [| |f|f|f|f|f|f a|f a|a|f] eqn:Hp; simpl in H.
  - injection H as <-. destruct (c_ctx c) as [e|]; (eapply Hwalk; [done..|]); intros a [= <-]. left. auto.
  - injection H as <-. unfold look_up. 
    assert (honest (join_flight i c w)) as Hj.
    { unfold join_flight. destruct (flights w !! c_key c); [by eapply Hwalk|]. eapply (honest_goes i c); [done|done|reflexivity|auto| |done].
      intros g fl a Hg Ha. apply lookup_app_Some in Hg as [Hg|[_ Hg]]; [by left|].
      apply list_lookup_singleton_Some in Hg as [_ <-]. done. }
    destruct (entries w !! c_key c) as [e|] eqn:Ee; [|done]. case_match; [|done].
    eapply Hwalk; [done..|]. intros a [= <-]. right. by apply (h_entries w HH).
  - destruct ctx_first, (c_ctx c) as [e|]; try discriminate H.
    1: injection H as <-; eapply Hwalk; [done..|]; intros a [= <-]; left; auto.
    all: destruct (table w !! f) as [fl|] eqn:Et; [|discriminate H]; cbn in H;
      destruct (f_done fl) as [a|] eqn:Ed; [|discriminate H];
      pose proof (h_table w HH f fl a Et Ed) as Hl; destruct (w_waits w HW i c f Hc Hp) as (fl' & Et' & Hk & _);
      assert (fl' = fl) as -> by congruence; rewrite Hk in Hl;
      destruct a as [r|e']; injection H as <-.
    all: try (destruct (gone e') eqn:Eg); eapply Hwalk; try done; intros a [= <-]; right;
      destruct Hl as [Hl|(? & [= <-] & ?)]; congruence || done.
  - destruct ctx_first, (c_ctx c) as [e|]; try discriminate H.
    1: injection H as <-; eapply Hwalk; [done..|]; intros a [= <-]; left; auto.
    all: destruct (slot w) eqn:Es; [discriminate H|]; injection H as <-; by eapply Hwalk.
  - injection H as <-. destruct (c_ctx c) as [e|]; (eapply Hwalk; [done..|]); intros a [= <-]. left. auto.
  - destruct ctx_first, (c_ctx c) as [e|]; try discriminate H.
    1: injection H as <-; eapply Hwalk; [done..|]; intros a [= <-]; left; auto.
    all: case_match; [|discriminate H]; injection H as <-; by eapply Hwalk.
  - unfold outcome in Hown. destruct ctx_first, (c_ctx c) as [e|] eqn:Ec; try discriminate H.
    1: injection H as <-; eapply Hwalk; [done..|]; intros a [= <-]; left; auto.
    all: destruct (compute (c_question c)) as [r|e'|y] eqn:Er; injection H as <-; eapply Hwalk; try done;
      intros a Ha; cbn in Ha; unfold unless_gone in Ha; rewrite ?Ec in Ha; injection Ha as <-; auto.
  - injection H as <-. eapply Hwalk; [done..|]. intros x Hx. cbn in Hx. injection Hx as <-.
    assert (stopped c a ∨ answered w (c_key c) a) as Ha by (apply (h_places w HH i c a Hc); by rewrite Hp).
    unfold unless_gone. destruct a as [r|e]; [|done]. destruct (c_ctx c) as [e|] eqn:Ec; [left; auto|done].
  - apply bind_Ok in H as (w2 & H & [= <-]). by eapply honest_lands.
  - done.
  - done.
Qed.

Lemma honest_step w w' : well w → honest w → step json compute w w' → honest w'.
Proof.
  intros HW HH ([q now|i e| | |ctx_first by_ i] & _ & H); cbn [happens] in H; unfold moves, blocked in H.
  - destruct (searchFingerprint q) as [k|e|y]; [|done..]. injection H as <-. set (new := MkCaller q k now None (@Asking Report)).
    assert (callers_stay w (set callers (λ l, l ++ [new]) w)) as Hs.
    { intros j d Hd. exists d. split; [by apply lookup_app_l_Some|done]. }
    assert (∀ j d, (callers w ++ [new]) !! j = Some d → callers w !! j = Some d ∨ d = new) as Hin.
    { intros j d H. apply lookup_app_Some in H as [H|[_ H]]; [by left|right]. by apply list_lookup_singleton_Some in H as [_ <-]. }
    destruct HH as [H1 H2 H3 H4]. split.
    + intros j d e [Hd| ->]%Hin; [eauto|done].
    + intros k' e He. eapply answered_stays; [exact Hs|]. by apply H2.
    + intros f fl a Hf Ha. eapply landed_stays; [exact Hs|]. by eapply H3.
    + intros j d a [Hd| ->]%Hin Ha; [|done]. destruct (H4 j d a Hd Ha); [by left|right; by eapply answered_stays].
  - destruct (callers w !! i) as [c|] eqn:Ec; [|done]. destruct (c_ctx c) eqn:Ex, (gone e) eqn:Eg; try done. injection H as <-.
    set (off := λ c, MkCaller (c_question c) (c_key c) (c_now c) (Some e) (c_place c)).
    assert (callers_stay w (set callers (alter off i) w)) as Hs.
    { intros j d Hd. destruct (decide (j = i)) as [->|Hne]; cbn.
      - exists (off d). split; [|done]. etrans; [apply list_lookup_alter_eq|by rewrite Hd].
      - exists d. split; [|done]. etrans; [by apply list_lookup_alter_ne|done]. }
    destruct HH as [H1 H2 H3 H4]. split.
    + intros j d x Hd. change (alter off i (callers w) !! j = Some d) in Hd. destruct (decide (j = i)) as [->|Hne].
      * rewrite list_lookup_alter_eq, Ec in Hd. injection Hd as <-. by intros [= <-].
      * rewrite list_lookup_alter_ne in Hd by done. eauto.
    + intros k' x He. eapply answered_stays; [exact Hs|]. by apply H2.
    + intros f fl a Hf Ha. eapply landed_stays; [exact Hs|]. by eapply H3.
    + intros j d a Hd Ha. change (alter off i (callers w) !! j = Some d) in Hd. destruct (decide (j = i)) as [->|Hne].
      * rewrite list_lookup_alter_eq, Ec in Hd. injection Hd as <-. cbn in Ha.
        destruct (H4 i c a Ec Ha) as [(y & _ & Hy)|Hx]; [congruence|right; by eapply answered_stays].
      * rewrite list_lookup_alter_ne in Hd by done.
        destruct (H4 j d a Hd Ha); [by left|right; by eapply answered_stays].
  - case_match; [|done]. injection H as <-. by destruct HH.
  - case_match; [|done]. injection H as <-. by destruct HH.
  - by eapply honest_turn.
Qed.

Lemma reachable_honest w : reachable json compute w → honest w.
Proof.
  assert (∀ u v, rtc (step json compute) u v → well u ∧ honest u → well v ∧ honest v) as Hgo.
  { intros u v Huv. induction Huv as [|x y z Hxy _ IH]; [done|]. intros [HW HH]. apply IH. split; [by eapply well_step|by eapply honest_step]. }
  intros H. apply (Hgo _ _ H). split; [apply well_empty|]. split; cbn; done.
Qed.

(** * Every caller is served *)

Definition is_returned c : bool := match c_place c with Returned _ => true | _ => false end.
Definition busy w : nat := length (List.filter (λ c, negb (is_returned c)) (callers w)).
Definition landed_at w (f : nat) : bool := match table w !! f ≫= f_done with Some _ => true | None => false end.

(** What is left of a caller's way. Each caller still on its way may land one
    flight that ends in nothing, and send those who wait for it round again. *)
Definition way w c : nat :=
  match c_place c with
  | Asking => 3 * busy w + 11
  | Locking => 3 * busy w + 10
  | Waiting f => 3 * busy w + (if landed_at w f then 12 else 9)
  | ToSlot _ => 7 | InSlot _ => 6 | ToPlanner _ => 5 | Computing _ => 4 | Computed _ _ => 3 | Storing _ _ => 2
  | Returned _ | Crashed _ => 0
  end%nat.
Definition work w : nat := sum_list_with (way w) (callers w).

Lemma sum_alter_lt {A} (f g : A → nat) (h : A → A) l : ∀ i x, l !! i = Some x →
  (∀ j y, j ≠ i → l !! j = Some y → (g y ≤ f y)%nat) → (g (h x) < f x)%nat →
  (sum_list_with g (alter h i l) < sum_list_with f l)%nat.
Proof.
  assert (∀ l, (∀ j y, l !! j = Some y → (g y ≤ f y)%nat) → (sum_list_with g l ≤ sum_list_with f l)%nat) as Hle.
  { induction l0 as [|y l0 IH]; intros H; [done|]. cbn. pose proof (H 0%nat y eq_refl).
    specialize (IH (λ j y, H (S j) y)). lia. }
  induction l as [|y l IH]; intros [|i] x H Ho Hx; [done..| |].
  - injection H as ->. change (alter h 0 (x :: l)) with (h x :: l). cbn.
    specialize (Hle l (λ j y, Ho (S j) y ltac:(done))). lia.
  - change (alter h (S i) (y :: l)) with (y :: alter h i l). cbn.
    specialize (IH i x H ltac:(intros j z Hj; apply (Ho (S j)); lia) Hx). pose proof (Ho 0%nat y ltac:(done) eq_refl). lia.
Qed.

(** A turn of the caller [c] to the place [p], seen in [w']. *)
Lemma work_goto i c p w w' : callers w !! i = Some c → callers w' = callers (goto i p w) →
  (∀ j d, j ≠ i → callers w !! j = Some d → (way w' d ≤ way w d)%nat) → (way w' (placed c p) < way w c)%nat →
  (work w' < work w)%nat.
Proof.
  intros Hc Hw' Ho Hlt. unfold work. rewrite Hw'. exact (sum_alter_lt (way w) (way w') (λ c, placed c p) (callers w) i c Hc Ho Hlt).
Qed.
Lemma busy_goto i c p w w' : callers w !! i = Some c → callers w' = callers (goto i p w) → is_returned c = false →
  (busy w' + (if is_returned (placed c p) then 1 else 0) = busy w)%nat.
Proof.
  intros Hc Hw' Hr. unfold busy. rewrite Hw'.
  pose proof (count_alter (λ c, negb (is_returned c)) (λ c, placed c p) (callers w) i c Hc) as H. cbv beta in H. rewrite Hr in H. cbn [negb] in H.
  change (callers (goto i p w)) with (alter (λ c, placed c p) i (callers w)). destruct (is_returned (placed c p)); cbn [negb] in H; lia.
Qed.

(** No more callers on their way, no more flights landed: nobody's way grows. *)
Lemma way_mono w w' d : (busy w' ≤ busy w)%nat → (∀ f, c_place d = Waiting f → landed_at w' f = landed_at w f) →
  (way w' d ≤ way w d)%nat.
Proof.
  intros Hb Hl. unfold way. destruct (c_place d) as [| |f| | | | | | | |]; try lia. rewrite (Hl f eq_refl). lia.
Qed.

Lemma goes_works i c p w w' : callers w !! i = Some c → callers w' = callers (goto i p w) → is_returned c = false →
  (∀ j d f, callers w !! j = Some d → c_place d = Waiting f → landed_at w' f = landed_at w f) →
  ((busy w' ≤ busy w)%nat → (way w' (placed c p) < way w c)%nat) → (work w' < work w)%nat.
Proof.
  intros Hc Hw' Hr Hl Hlt. pose proof (busy_goto i c p w w' Hc Hw' Hr) as Hb.
  assert (busy w' ≤ busy w)%nat by lia. apply (work_goto i c p); [done..| |by apply Hlt].
  intros j d _ Hd. apply way_mono; [done|]. intros f Hf. by apply (Hl j d f).
Qed.

(** A landing sends those who wait for it on, within what they had left. *)
Lemma lands_works i c f r m b w : well w → callers w !! i = Some c → c_place c = Storing f r →
  (work (goto i (Returned r) (land f c r (set entries (λ _, m) (set bytes (λ _, b) w)))) < work w)%nat.
Proof.
  intros HW Hc Hpl. set (w' := goto _ _ _).
  assert (callers w' = callers (goto i (Returned r) w)) as Hw' by done.
  pose proof (busy_goto i c (Returned r) w w' Hc Hw' ltac:(by unfold is_returned; rewrite Hpl)) as Hb.
  change (is_returned (placed c (Returned r))) with true in Hb. cbv iota in Hb.
  assert (owns (c_place c) = Some f) as Ho by (by rewrite Hpl).
  pose proof (w_aloft w HW _ _ (w_owner w HW i c f Hc Ho)) as Htf.
  apply (work_goto i c (Returned r)); [done..| |unfold way; rewrite Hpl; cbn [c_place placed]; lia].
  intros j d Hj Hd. unfold way. destruct (c_place d) as [| |f'| | | | | | | |]; try lia.
  assert (landed_at w f = false) as Hlf by (unfold landed_at; by rewrite Htf).
  destruct (decide (f' = f)) as [->|Hff]; [rewrite Hlf; destruct (landed_at w' f); lia|].
  assert (landed_at w' f' = landed_at w f') as ->; [|lia]. unfold landed_at.
  change (table w') with (alter (λ fl, MkFlight (f_key fl) (Some r)) f (table w)). by rewrite list_lookup_alter_ne.
Qed.

Lemma look_up_works i c w : well w → callers w !! i = Some c → c_place c = Locking → (work (look_up i c w) < work w)%nat.
Proof.
  intros HW Hc Hpl.
  assert (is_returned c = false) as Hr by (unfold is_returned; by rewrite Hpl).
  assert (work (join_flight i c w) < work w)%nat as Hj.
  { unfold join_flight. destruct (flights w !! c_key c) as [f|] eqn:Ef.
    - apply (goes_works i c (Waiting f)); [done..|]. intros Hb. unfold way. rewrite Hpl. cbn [c_place placed].
      assert (landed_at w f = false) as Hl by (unfold landed_at; by rewrite (w_aloft w HW _ _ Ef)).
      change (landed_at (goto i (Waiting f) w) f) with (landed_at w f). rewrite Hl. lia.
    - apply (goes_works i c (ToSlot (length (table w)))); [done..| |intros _; unfold way; rewrite Hpl; cbn [c_place placed]; lia].
      intros j d f Hd Hf. destruct (w_waits w HW j d f Hd Hf) as (fl & Hfl & _). unfold landed_at.
      change (table (goto _ _ (set flights ?h (set table ?g w)))) with (g (table w)). cbv beta.
      by rewrite (lookup_app_l_Some _ _ _ _ Hfl), Hfl. }
  unfold look_up. destruct (entries w !! c_key c) as [e|]; [|done].
  destruct (c_now c - addedAt e <? searchCacheTTL); [|done].
  apply (goes_works i c (Returned (inl (rep e)))); [done..|]. intros _. unfold way. rewrite Hpl. cbn [c_place placed]. lia.
Qed.

Lemma turn_works ctx_first by_ i w w' : (∀ m, by_ m ≡ₚ map_to_list m) → well w → (∀ q y, compute q ≠ Panic y) →
  turn json compute ctx_first by_ i w = Ok (Some w') → (work w' < work w)%nat.
Proof.
  intros Hby HW Hnp. unfold turn, moves, blocked. destruct (callers w !! i) as [c|] eqn:Hc; [|done]. intros H.
  assert (∀ p v, callers v = callers (goto i p w) → table v = table w → is_returned c = false →
    ((busy v ≤ busy w)%nat → (way v (placed c p) < way w c)%nat) → (work v < work w)%nat) as Hgo.
  { intros p v Hv Ht Hr. apply (goes_works i c p); [done..|]. intros j d f _ _. unfold landed_at. by rewrite Ht. }
  destruct (c_place c) as [| |f|f|f|f|f|f r|f r|r|f] eqn:Hpl; simpl in H.
  - destruct (c_ctx c); injection H as <-; eapply Hgo; try done; unfold is_returned, way; rewrite Hpl; cbn [c_place placed]; lia || done.
  - injection H as <-. by apply look_up_works.
  - destruct ctx_first, (c_ctx c) as [e|]; try discriminate H.
    1: injection H as <-; eapply Hgo; try done; unfold is_returned, way; rewrite Hpl; cbn [c_place placed]; try done;
      destruct (landed_at w f); lia.
    all: destruct (table w !! f) as [fl|] eqn:Et; [|discriminate H]; cbn in H;
      destruct (f_done fl) as [[r|e']|] eqn:Ed; try discriminate H; injection H as <-.
    all: try (destruct (gone e')); eapply Hgo; try done; try (unfold is_returned; by rewrite Hpl).
    all: unfold way, landed_at; rewrite Hpl, Et; cbn [mbind option_bind c_place placed]; rewrite Ed; lia.
  - destruct ctx_first, (c_ctx c) as [e|]; try discriminate H.
    all: try (destruct (slot w); [discriminate H|]); injection H as <-; eapply Hgo; try done; unfold is_returned, way;
      rewrite Hpl; cbn [c_place placed]; lia || done.
  - injection H as <-. destruct (c_ctx c); eapply Hgo; try done; unfold is_returned, way; rewrite Hpl; cbn [c_place placed]; lia || done.
  - destruct ctx_first, (c_ctx c) as [e|]; try discriminate H.
    all: try (destruct (Nat.ltb (others w + computing w) plannerCapacity); [|discriminate H]); injection H as <-; eapply Hgo;
      try done; unfold is_returned, way; rewrite Hpl; cbn [c_place placed]; lia || done.
  - destruct ctx_first, (c_ctx c) as [e|]; try discriminate H.
    all: try destruct (compute (c_question c)); injection H as <-; eapply Hgo; try done; unfold is_returned, way;
      rewrite Hpl; cbn [c_place placed]; lia || done.
  - injection H as <-. eapply Hgo; try done; unfold is_returned, way; rewrite Hpl; cbn [c_place placed]; lia || done.
  - unfold store in H. apply bind_Ok in H as (w2 & H & [= <-]). apply bind_Ok in H as (w1 & H & [= <-]). destruct r as [x|e].
    + destruct (keep_spec by_ i c x w HW Hby Hc) as (m & b & E & _).
      { apply (w_shown w HW i c x Hc). by rewrite Hpl. }
      rewrite E in H. injection H as <-. by apply lands_works.
    + injection H as <-. pose proof (lands_works i c f (inr e) (entries w) (bytes w) w HW Hc Hpl) as Hw. by destruct w.
  - done.
  - done.
Qed.

(** While somebody waits for an answer, somebody can move. *)
Lemma holder_moves by_ i c w : well w → (∀ m, by_ m ≡ₚ map_to_list m) → (∀ q y, compute q ≠ Panic y) →
  (others w < plannerCapacity)%nat → callers w !! i = Some c → owns (c_place c) ≠ None →
  (∀ f, c_place c = ToSlot f → slot w = None) → ∃ w', turn json compute false by_ i w = Ok (Some w').
Proof.
  intros HW Hby Hnp Hoth Hc Ho Hsl. unfold turn, moves, blocked. rewrite Hc.
  destruct (c_place c) as [| |f|f|f|f|f|f r|f r|r|f] eqn:Hpl; try done.
  - rewrite (Hsl f eq_refl). by eexists.
  - destruct (c_ctx c); by eexists.
  - assert (computing w = 0%nat) as ->; [|rewrite Nat.add_0_r; rewrite (proj2 (Nat.ltb_lt _ _) Hoth); by eexists].
    unfold computing. destruct (List.filter is_computing (callers w)) as [|d l] eqn:E; [done|].
    assert (List.In d (List.filter is_computing (callers w))) as Hd by (rewrite E; by left).
    apply filter_In in Hd as [Hd Hd']. apply list_elem_of_In, list_elem_of_lookup in Hd as [j Hj].
    assert (slot w = Some i) as H1 by (apply (w_slot w HW); exists c; by rewrite Hpl).
    assert (slot w = Some j) as H2.
    { apply (w_slot w HW). exists d. split; [done|]. unfold is_computing in Hd'. by destruct (c_place d). }
    assert (d = c) as -> by congruence. unfold is_computing in Hd'. by rewrite Hpl in Hd'.
  - destruct (compute (c_question c)) as [r|e|y] eqn:E; [by eexists..|]. by apply Hnp in E.
  - by eexists.
  - unfold store. destruct r as [x|e]; [|by eexists].
    destruct (keep_spec by_ i c x w HW Hby Hc) as (m & b & -> & _); [|by eexists].
    apply (w_shown w HW i c x Hc). by rewrite Hpl.
  - destruct (w_crash w HW i c f Hc Hpl) as [y E]. by apply Hnp in E.
Qed.

Lemma somebody_moves by_ i c w : well w → (∀ m, by_ m ≡ₚ map_to_list m) → (∀ q y, compute q ≠ Panic y) →
  (others w < plannerCapacity)%nat → callers w !! i = Some c → is_returned c = false →
  ∃ j w', turn json compute false by_ j w = Ok (Some w').
Proof.
  intros HW Hby Hnp Hoth Hc Hr.
  assert (∀ j d, callers w !! j = Some d → owns (c_place d) ≠ None → ∃ j w', turn json compute false by_ j w = Ok (Some w')) as Hown.
  { intros j d Hd Ho. destruct (slot w) as [k|] eqn:Hs.
    - destruct (proj1 (w_slot w HW k) Hs) as (e & He & Hin). exists k. apply (holder_moves by_ k e); try done.
      + by apply in_slot_owns.
      + intros f Hf. by rewrite Hf in Hin.
    - exists j. by apply (holder_moves by_ j d). }
  destruct (owns (c_place c)) as [f|] eqn:Ho; [apply (Hown i c); [done|congruence]|].
  unfold is_returned in Hr. destruct (c_place c) as [| |f|f|f|f|f|f r|f r|r|f] eqn:Hpl; try done.
  - exists i. unfold turn, moves. rewrite Hc, Hpl. destruct (c_ctx c); by eexists.
  - exists i. unfold turn, moves. rewrite Hc, Hpl. by eexists.
  - destruct (w_waits w HW i c f Hc Hpl) as ([k [a|]] & Hfl & Hk & Hu).
    + exists i. unfold turn, moves. rewrite Hc, Hpl, Hfl. cbn. destruct a; by eexists.
    + destruct (w_flown w HW _ _ (Hu eq_refl)) as (j & d & Hd & Hdo & _). apply (Hown j d); [done|congruence].
Qed.

Lemma turn_others ctx_first by_ i w w' : (∀ m, by_ m ≡ₚ map_to_list m) → well w →
  turn json compute ctx_first by_ i w = Ok (Some w') → others w' = others w ∧ length (callers w') = length (callers w).
Proof.
  intros Hby HW H. apply turn_turned in H as (c & Hc & H).
  assert (∀ p v, others (goto i p v) = others v ∧ length (callers (goto i p v)) = length (callers v)) as Hg.
  { intros p v. split; [done|]. apply length_alter. }
  destruct H as [p|Ho Hf|f Hf|f p|f r w1 Hpl H]; try (match goal with |- others (goto _ ?p ?v) = _ ∧ _ => exact (Hg p v) end).
  destruct (Hg (Returned r) (land f c r w1)) as [-> ->]. change (others w1 = others w ∧ length (callers w1) = length (callers w)).
  destruct r as [x|e]; [|by injection H as <-].
  destruct (keep_spec by_ i c x w HW Hby Hc) as (m & b & E & _); [by apply (w_shown w HW i c x Hc); rewrite Hpl|].
  rewrite E in H. by injection H as <-.
Qed.

(** Somebody's turn. *)
Definition turns w w' : Prop :=
  ∃ ctx_first by_ i, (∀ m, by_ m ≡ₚ map_to_list m) ∧ turn json compute ctx_first by_ i w = Ok (Some w').

Lemma turns_well w w' : well w → (∀ q y, compute q ≠ Panic y) → turns w w' →
  well w' ∧ others w' = others w ∧ (work w' < work w)%nat.
Proof.
  intros HW Hnp (cf & by_ & i & Hby & H). split; [by eapply well_turn|].
  split; [by eapply turn_others|by eapply turn_works].
Qed.

Lemma work_bound w : (work w ≤ length (callers w) * (3 * length (callers w) + 12))%nat.
Proof.
  assert (busy w ≤ length (callers w))%nat as Hb by (apply List.filter_length_le).
  assert (∀ c, way w c ≤ 3 * length (callers w) + 12)%nat as Hw.
  { intros c. unfold way. destruct (c_place c) as [| |f| | | | | | | |]; try lia. destruct (landed_at w f); lia. }
  unfold work. clear Hb. revert Hw. generalize (3 * length (callers w) + 12)%nat as n. generalize (way w) as g.
  induction (callers w) as [|c l IH]; intros g n Hg; [done|]. cbn. specialize (IH g n Hg). specialize (Hg c). lia.
Qed.

(** * Properties *)

(** C16. The cache keeps its bounds and its order. However the callers are
    interleaved, it holds at most 256 entries, of at most 64 MiB together, and
    the count of bytes is the sum of the entries' sizes; at most one caller
    computes the answer to a question, at most one holds the slot of the search,
    and with the computations elsewhere no more than the planner capacity run. *)
Theorem cache_orderly w :
  reachable json compute w →
  (size (entries w) ≤ searchCacheMax)%nat ∧ bytes w = weight (entries w) ∧ bytes w ≤ searchCacheBytes ∧
  (∀ k e, entries w !! k = Some e → e_bytes e = json (rep e) ∧ 0 < e_bytes e) ∧
  (others w + computing w ≤ plannerCapacity)%nat ∧
  ∀ i j c d, callers w !! i = Some c → callers w !! j = Some d →
    owns (c_place c) ≠ None ∧ owns (c_place d) ≠ None ∧ c_key c = c_key d ∨
    in_slot (c_place c) = true ∧ in_slot (c_place d) = true → i = j.
Proof.
  intros HW%reachable_well. split; [apply HW|]. split; [apply HW|]. split; [apply HW|].
  split; [intros k e He; exact (proj2 (w_entries w HW k e He))|]. split; [apply HW|].
  intros i j c d Hc Hd [(Ho & Ho' & Hk)|[Hi Hj]].
  - destruct (owns (c_place c)) as [f|] eqn:Ef, (owns (c_place d)) as [f'|] eqn:Ef'; try done.
    pose proof (w_owner w HW i c f Hc Ef) as E. pose proof (w_owner w HW j d f' Hd Ef') as E'. rewrite Hk in E.
    apply (w_alone w HW i j c d f); [done..|]. congruence.
  - assert (slot w = Some i) by (apply (w_slot w HW); eauto). assert (slot w = Some j) by (apply (w_slot w HW); eauto).
    congruence.
Qed.

(** C14. The cache is transparent. Every answer a caller gets back, report or error,
    kept, handed over by the flight of another caller or found by its own, is the
    end of the caller's own context, or what the search answers a question that a
    caller of the same process asked, and that question is the caller's own (up to
    the order of maps), unless the two are a collision of SHA-256. In particular
    the end of another caller's context is never handed on. The search is any
    function of the question. *)
Theorem cache_answers w i c a :
  reachable json compute w → callers w !! i = Some c → c_place c = Returned a →
  (∃ e, a = inr e ∧ c_ctx c = Some e) ∨
  ∃ j d, callers w !! j = Some d ∧ match a with inl r => compute (c_question d) = Ok r | inr e => compute (c_question d) = Err e end ∧
    (settled_question (c_question d) = settled_question (c_question c) ∨
     bytes_of_string (stream (c_question d)) ≠ bytes_of_string (stream (c_question c)) ∧
     Sum256 (bytes_of_string (stream (c_question d))) = Sum256 (bytes_of_string (stream (c_question c)))).
Proof.
  intros Hr Hi Hp. pose proof (reachable_well w Hr) as HW.
  destruct (h_places w (reachable_honest w Hr) i c a Hi) as [|(j & d & Hd & Hk & Ha)]; [by rewrite Hp|by left|right].
  exists j, d. split; [done|]. split.
  - unfold outcome in Ha. by destruct (compute (c_question d)), a; simplify_eq.
  - pose proof (w_named w HW j d Hd) as Hq. rewrite Hk in Hq. by apply (same_fingerprint _ _ _ Hq (w_named w HW i c Hi)).
Qed.

(** C15. Every caller is served. While capacity is left to the cache and no
    search panics, turns cannot go on for ever: n callers take at most
    n * (3 n + 12) of them; and when none is possible every caller has its
    answer, so nobody waits for somebody who does not move. *)
Theorem callers_served w :
  reachable json compute w → (∀ q y, compute q ≠ Panic y) → (others w < plannerCapacity)%nat →
  (∀ n w', nsteps turns n w w' → (n ≤ length (callers w) * (3 * length (callers w) + 12))%nat) ∧
  (∀ w', rtc turns w w' → (∀ v, ¬ turns w' v) → ∀ i c, callers w' !! i = Some c → is_returned c = true).
Proof.
  intros HW%reachable_well Hnp Ho. split.
  - intros n w' Hn. pose proof (work_bound w) as Hb. enough (n + work w' ≤ work w)%nat by lia. clear Hb Ho.
    induction Hn as [|n x y z Hxy _ IH]; [lia|]. destruct (turns_well _ _ HW Hnp Hxy) as (HW' & _ & Hlt).
    specialize (IH HW'). lia.
  - intros w' Hw' Hstop. assert (well w' ∧ (others w' < plannerCapacity)%nat) as [HW' Ho'].
    { clear Hstop. induction Hw' as [|x y z Hxy _ IH]; [done|].
      destruct (turns_well _ _ HW Hnp Hxy) as (HWy & E & _). apply IH; [done|]. by rewrite E. }
    intros i c Hc. destruct (is_returned c) eqn:Hr; [done|].
    destruct (somebody_moves map_to_list i c w' HW' ltac:(done) Hnp Ho' Hc Hr) as (j & v & Hv).
    destruct (Hstop v). by exists false, map_to_list, j.
Qed.
End Reached.

(** * A question asked twice at once *)

(** A sequence of events, one after the other. *)
Fixpoint plays {Report} (json : Report → Z) (compute : Question → result failure Report) (evs : list (@event Report)) (w : @world Report) :
    option world :=
  match evs with
  | [] => Some w
  | ev :: evs => match happens json compute ev w with Ok (Some w) => plays json compute evs w | _ => None end
  end.
Lemma plays_reachable {Report} (json : Report → Z) compute evs : ∀ w w', Forall fair evs →
  plays json compute evs w = Some w' → rtc (step json compute) w w'.
Proof.
  induction evs as [|ev evs IH]; intros w w' Hf H; cbn in H; [injection H as ->; done|].
  apply Forall_cons in Hf as [Hev Hf]. destruct (happens json compute ev w) as [[v|]|e|y] eqn:E; try discriminate H.
  eapply rtc_l; [by exists ev|]. by apply IH.
Qed.

Definition takes (i : nat) : @event Z := Turn false map_to_list i.
Definition twice : list (@event Z) :=
  [Arrive (sample_question []) 10; Arrive (sample_question []) 20] ++ (takes <$> [0; 1; 0; 1; 0; 0; 0; 0; 0; 0; 1])%nat.
Lemma takes_fair l : Forall fair (takes <$> l).
Proof. induction l as [|i l IH]; constructor; [by intros m|done]. Qed.
Lemma twice_fair : Forall fair twice.
Proof. apply Forall_app. split; [by repeat constructor|apply takes_fair]. Qed.

(** Both have the one report, kept as one entry. *)
Definition has_seven (c : @caller Z) : bool := match c_place c with Returned (inl r) => r =? 7 | _ => false end.
Definition shared_report (w : option (@world Z)) : bool :=
  match w with
  | Some w => Nat.eqb (length (callers w)) 2 && forallb has_seven (callers w) && (bytes w =? 1) && Nat.eqb (others w) 0
  | None => false
  end.
Definition seven (q : Question) : result failure Z := Ok 7.

(** What the sample world shows, read off once. *)
Lemma shared_report_facts w : shared_report (Some w) = true →
  bytes w = 1 ∧ others w = 0%nat ∧
  ∃ c d, callers w = [c; d] ∧ c_place c = Returned (inl 7) ∧ c_place d = Returned (inl 7).
Proof.
  unfold shared_report. intros [[[Hl Hs]%andb_true_iff H%Z.eqb_eq]%andb_true_iff Ho%Nat.eqb_eq]%andb_true_iff.
  split; [done|]. split; [done|]. destruct (callers w) as [|c [|d [|]]]; try discriminate Hl. exists c, d. split; [done|].
  assert (∀ x, has_seven x = true → c_place x = Returned (inl 7)) as Hx.
  { intros x. unfold has_seven. destruct (c_place x) as [| | | | | | | | |[r|]|]; try done. by intros ->%Z.eqb_eq. }
  cbn in Hs. apply andb_true_iff in Hs as [Hc Hs]. apply andb_true_iff in Hs as [Hd _]. auto.
Qed.

Lemma cache_orderly_witness :
  ∃ w, plays (λ _, 1) seven twice empty_cache = Some w ∧ bytes w = 1 ∧ weight (entries w) = 1 ∧ (size (entries w) ≤ 256)%nat.
Proof.
  assert (shared_report (plays (λ _, 1) seven twice empty_cache) = true) as Hb by (vm_compute; reflexivity).
  destruct (plays (λ _, 1) seven twice empty_cache) as [w|] eqn:E; [|discriminate Hb].
  pose proof (plays_reachable _ _ _ _ _ twice_fair E) as Hr.
  destruct (cache_orderly (λ _, 1) seven w Hr) as (Hs & Hw & _). exists w. split; [reflexivity|].
  destruct (shared_report_facts w Hb) as (Hone & _). split; [exact Hone|]. split; [rewrite <- Hw; exact Hone|exact Hs].
Defined.

Lemma cache_answers_witness :
  ∃ w c d, plays (λ _, 1) seven twice empty_cache = Some w ∧ callers w = [c; d] ∧ c_place d = Returned (inl 7) ∧
    ((∃ e, @inl Z failure 7 = inr e ∧ c_ctx d = Some e) ∨ ∃ j x, callers w !! j = Some x ∧ seven (c_question x) = Ok 7 ∧
      (settled_question (c_question x) = settled_question (c_question d) ∨
       bytes_of_string (stream (c_question x)) ≠ bytes_of_string (stream (c_question d)) ∧
       Sum256 (bytes_of_string (stream (c_question x))) = Sum256 (bytes_of_string (stream (c_question d))))).
Proof.
  assert (shared_report (plays (λ _, 1) seven twice empty_cache) = true) as Hb by (vm_compute; reflexivity).
  destruct (plays (λ _, 1) seven twice empty_cache) as [w|] eqn:E; [|discriminate Hb].
  pose proof (plays_reachable _ _ _ _ _ twice_fair E) as Hr.
  destruct (shared_report_facts w Hb) as (_ & _ & c & d & Hcd & Hc & Hd). exists w, c, d.
  split; [reflexivity|]. split; [exact Hcd|]. split; [exact Hd|].
  apply (cache_answers (λ _, 1) seven w 1 d (inl 7)); [exact Hr|by rewrite Hcd|exact Hd].
Defined.

Lemma callers_served_witness :
  (∃ w, plays (λ _, 1) seven (take 6 twice) empty_cache = Some w ∧ length (callers w) = 2%nat ∧
    ∀ n w', nsteps (turns (λ _, 1) seven) n w w' → (n ≤ 36)%nat).
Proof.
  assert (match plays (λ _, 1) seven (take 6 twice) empty_cache with
    | Some w => Nat.eqb (length (callers w)) 2 && Nat.eqb (others w) 0 | None => false end = true) as Hb by (vm_compute; reflexivity).
  destruct (plays (λ _, 1) seven (take 6 twice) empty_cache) as [w|] eqn:E; [|discriminate Hb].
  pose proof (plays_reachable _ _ _ _ _ (Forall_take _ _ _ twice_fair) E) as Hr.
  apply andb_true_iff in Hb as [Hl%Nat.eqb_eq Ho%Nat.eqb_eq].
  destruct (callers_served (λ _, 1) seven w Hr) as [Hn _]; [discriminate|rewrite Ho; unfold plannerCapacity; lia|].
  exists w. split; [reflexivity|]. split; [exact Hl|]. intros n w' H. apply Hn in H. rewrite Hl in H. exact H.
Defined.

(** * A search that panics *)

Definition broken (q : Question) : result failure Z := Panic "amounts of two currencies".
Definition stranded (w : option (@world Z)) : bool :=
  match w with
  | Some w =>
      match map c_place (callers w) with
      | [Crashed 0; Waiting 0] =>
          forallb (λ i, match turn (λ _, 1) broken false map_to_list i w, turn (λ _, 1) broken true map_to_list i w with
                        | Ok None, Ok None => true | _, _ => false end) [0; 1]%nat
      | _ => false
      end
  | None => false
  end.

(** The slot is given back, the flight is not: whoever asks the same question
    waits until his own context ends. *)
Example panic_leaves_flight :
  stranded (plays (λ _, 1) broken ([Arrive (sample_question []) 10; Arrive (sample_question []) 20] ++
    (takes <$> [0; 1; 0; 1; 0; 0; 0; 0])%nat) empty_cache) = true.
Proof. vm_compute. reflexivity. Qed.
