(* ===== verification/AdminAccess.v ===== *)
(** [internal/app/admin_access.go]: roles, capabilities and the decision whether
    an actor may act. The theorem: the decision is the matrix of roles, the
    purpose and the fresh step-up, and nothing else. *)
From S2P Require Import Prelude.

(** * Text as Go reads it *)

Definition between (a b x : Z) : bool := (a <=? x) && (x <=? b).

(** The runes of a string, [None] for each byte that starts none ([U+FFFD]). *)
Fixpoint runes (l : list Z) : list (option Z) :=
  match l with
  | [] => []
  | b0 :: l1 =>
      let bad := None :: runes l1 in
      if b0 <? 128 then Some b0 :: runes l1
      else if between 194 223 b0 then
        match l1 with
        | b1 :: l2 => if between 128 191 b1 then Some ((b0 - 192) * 64 + (b1 - 128)) :: runes l2 else bad
        | _ => bad
        end
      else if between 224 239 b0 then
        match l1 with
        | b1 :: b2 :: l3 =>
            if between (if b0 =? 224 then 160 else 128) (if b0 =? 237 then 159 else 191) b1 && between 128 191 b2
            then Some ((b0 - 224) * 4096 + (b1 - 128) * 64 + (b2 - 128)) :: runes l3 else bad
        | _ => bad
        end
      else if between 240 244 b0 then
        match l1 with
        | b1 :: b2 :: b3 :: l4 =>
            if between (if b0 =? 240 then 144 else 128) (if b0 =? 244 then 143 else 191) b1 &&
               between 128 191 b2 && between 128 191 b3
            then Some ((b0 - 240) * 262144 + (b1 - 128) * 4096 + (b2 - 128) * 64 + (b3 - 128)) :: runes l4 else bad
        | _ => bad
        end
      else bad
  end.
Definition runes_of (s : string) : list (option Z) :=
  runes ((λ c, Z.of_nat (Ascii.nat_of_ascii c)) <$> String.list_ascii_of_string s).

(** [utf8.ValidString], [unicode.IsSpace], [unicode.IsControl]. *)
Definition ValidString (s : string) : bool := forallb (λ r, match r with Some _ => true | None => false end) (runes_of s).
Definition IsSpace (r : Z) : bool :=
  between 9 13 r || between 8192 8202 r ||
  existsb (Z.eqb r) [32; 133; 160; 5760; 8232; 8233; 8239; 8287; 12288].
Definition IsControl (r : Z) : bool := between 0 31 r || between 127 159 r.

(** [strings.ContainsFunc], and [strings.TrimSpace(s) == ""]. *)
Definition ContainsFunc (f : Z → bool) (s : string) : bool := existsb (λ r, f (default 65533 r)) (runes_of s).
Definition blank (s : string) : bool := forallb (λ r, IsSpace (default 65533 r)) (runes_of s).

(** * Roles and capabilities *)

Definition AdminRoleSupportReader : string := "support_reader".
Definition AdminRoleSupportOperator : string := "support_operator".
Definition AdminRoleFinancialVerifier : string := "financial_verifier".
Definition AdminRolePolicyPublisher : string := "policy_publisher".
Definition AdminRoleOperations : string := "operations".
Definition AdminRoleBillingOperator : string := "billing_operator".
Definition AdminRoleSecurityAuditor : string := "security_auditor".
Definition AdminRoleAdministrator : string := "administrator".

Definition AdminRoles : list string :=
  [AdminRoleSupportReader; AdminRoleSupportOperator; AdminRoleFinancialVerifier; AdminRolePolicyPublisher;
   AdminRoleOperations; AdminRoleBillingOperator; AdminRoleSecurityAuditor; AdminRoleAdministrator].

Inductive AdminCapability :=
| CapIdentityRead | CapPolicyRead | CapSupportRead | CapSupportNotes | CapUserConfirmation | CapSafeReplay
| CapFinancialRead | CapFixtureReview | CapReconciliation | CapPolicyReview | CapPolicyPublish | CapNotifications
| CapHealth | CapEntitlements | CapAuditRead | CapAccessRead | CapExportVerification | CapDeletionVerification
| CapRoleChanges | CapFeatureFlags.
#[export] Instance AdminCapability_eq_dec : EqDecision AdminCapability.
Proof. solve_decision. Defined.
Definition AdminCapabilities : list AdminCapability :=
  [CapIdentityRead; CapPolicyRead; CapSupportRead; CapSupportNotes; CapUserConfirmation; CapSafeReplay;
   CapFinancialRead; CapFixtureReview; CapReconciliation; CapPolicyReview; CapPolicyPublish; CapNotifications;
   CapHealth; CapEntitlements; CapAuditRead; CapAccessRead; CapExportVerification; CapDeletionVerification;
   CapRoleChanges; CapFeatureFlags].

(** The text of a capability, which the audit records. *)
Definition capability_text (c : AdminCapability) : string :=
  match c with
  | CapIdentityRead => "administrator.identity_read" | CapPolicyRead => "policy.read"
  | CapSupportRead => "support.read_redacted" | CapSupportNotes => "support.notes"
  | CapUserConfirmation => "support.user_confirmation" | CapSafeReplay => "support.safe_replay"
  | CapFinancialRead => "financial.read" | CapFixtureReview => "financial.fixture_review"
  | CapReconciliation => "financial.reconciliation_review" | CapPolicyReview => "financial.policy_review"
  | CapPolicyPublish => "policy.publish" | CapNotifications => "operations.notifications"
  | CapHealth => "operations.health" | CapEntitlements => "billing.entitlements"
  | CapAuditRead => "security.audit_read" | CapAccessRead => "security.access_read"
  | CapExportVerification => "security.export_verification" | CapDeletionVerification => "security.deletion_verification"
  | CapRoleChanges => "administrator.role_changes" | CapFeatureFlags => "administrator.feature_flags"
  end.

(** The matrix; a role outside it grants nothing. *)
Definition granted_to (role : string) : list AdminCapability :=
  if String.eqb role AdminRoleSupportReader then [CapSupportRead]
  else if String.eqb role AdminRoleSupportOperator then [CapSupportRead; CapSupportNotes; CapUserConfirmation; CapSafeReplay]
  else if String.eqb role AdminRoleFinancialVerifier
  then [CapPolicyRead; CapFinancialRead; CapFixtureReview; CapReconciliation; CapPolicyReview]
  else if String.eqb role AdminRolePolicyPublisher then [CapPolicyRead; CapPolicyPublish]
  else if String.eqb role AdminRoleOperations then [CapNotifications; CapHealth]
  else if String.eqb role AdminRoleBillingOperator then [CapEntitlements]
  else if String.eqb role AdminRoleSecurityAuditor
  then [CapIdentityRead; CapAuditRead; CapAccessRead; CapExportVerification; CapDeletionVerification]
  else if String.eqb role AdminRoleAdministrator then [CapIdentityRead; CapRoleChanges; CapFeatureFlags]
  else [].
Definition adminRoleGrants (role : string) (cap : AdminCapability) : bool := bool_decide (cap ∈ granted_to role).

(** * The decision *)

(** Times are nanoseconds since the zero [time.Time], which is 0. *)
Record AdminActor := MkActor { ActorID : string; ActorRoles : list string; Purpose : string; StepUpAt : Z }.

Inductive aerror :=
| ErrAdminActorInvalid | ErrAdminAccessDenied | ErrAdminPurposeRequired | ErrAdminStepUpRequired
| ErrAdminSecurityUnavailable | ErrAdminConflict | ErrAdminEvidenceRequired | ErrNotFound | StoreFault (what : string).
#[export] Instance aerror_eq_dec : EqDecision aerror.
Proof. solve_decision. Defined.

Definition needs_purpose (cap : AdminCapability) : bool :=
  bool_decide (cap ∈ [CapSupportRead; CapSupportNotes; CapUserConfirmation; CapPolicyRead; CapFinancialRead;
    CapFixtureReview; CapReconciliation; CapPolicyReview; CapSafeReplay]).
Definition needs_step_up (cap : AdminCapability) : bool :=
  bool_decide (cap ∈ [CapExportVerification; CapDeletionVerification; CapPolicyPublish; CapRoleChanges]).

(** [now.Sub(t)], which stops at the ends of [int64]. *)
Definition time_Sub (now t : Z) : Z := Z.max (-9223372036854775808) (Z.min 9223372036854775807 (now - t)).
Definition five_minutes : Z := 300000000000.

(** [None] where the actor may act. *)
Definition Authorize (actor : AdminActor) (capability : AdminCapability) (now : Z) : option aerror :=
  if String.eqb (ActorID actor) "" || negb (ValidString (ActorID actor)) ||
     ContainsFunc (λ r, IsSpace r || IsControl r) (ActorID actor)
  then Some ErrAdminActorInvalid
  else if negb (existsb (λ role, adminRoleGrants role capability) (ActorRoles actor)) then Some ErrAdminAccessDenied
  else if needs_purpose capability &&
     (blank (Purpose actor) || Nat.ltb 512 (String.length (Purpose actor)) || negb (ValidString (Purpose actor)))
  then Some ErrAdminPurposeRequired
  else if needs_step_up capability &&
     ((StepUpAt actor =? 0) || (now =? 0) || (now <? StepUpAt actor) || (five_minutes <? time_Sub now (StepUpAt actor)))
  then Some ErrAdminStepUpRequired
  else None.

(** * What the decision asks *)

(** An identifier without space or control characters, in well-formed UTF-8. *)
Definition well_named (id : string) : Prop :=
  id ≠ "" ∧ ValidString id = true ∧ ContainsFunc (λ r, IsSpace r || IsControl r) id = false.
Definition stated (purpose : string) : Prop :=
  blank purpose = false ∧ (String.length purpose ≤ 512)%nat ∧ ValidString purpose = true.
(** Stepped up at a known time, at most five minutes ago and not in the future. *)
Definition fresh (at_ now : Z) : Prop := at_ ≠ 0 ∧ now ≠ 0 ∧ 0 ≤ now - at_ ≤ five_minutes.

Lemma named_iff id : String.eqb id "" || negb (ValidString id) || ContainsFunc (λ r, IsSpace r || IsControl r) id = false ↔ well_named id.
Proof.
  unfold well_named. rewrite !orb_false_iff, negb_false_iff, String.eqb_neq. tauto.
Qed.
Lemma stated_iff p : blank p || Nat.ltb 512 (String.length p) || negb (ValidString p) = false ↔ stated p.
Proof. unfold stated. rewrite !orb_false_iff, negb_false_iff, Nat.ltb_ge. tauto. Qed.
(** The ends of [int64] do not matter: they are more than five minutes away. *)
Lemma fresh_iff a now : (a =? 0) || (now =? 0) || (now <? a) || (five_minutes <? time_Sub now a) = false ↔ fresh a now.
Proof. unfold fresh, time_Sub, five_minutes. rewrite !orb_false_iff. lia. Qed.
Lemma granted_iff roles cap : existsb (λ role, adminRoleGrants role cap) roles = true ↔ ∃ role, role ∈ roles ∧ cap ∈ granted_to role.
Proof.
  rewrite existsb_exists. unfold adminRoleGrants. split; intros (r & H1 & H2); exists r.
  - split; [by apply list_elem_of_In|by apply bool_decide_eq_true in H2].
  - split; [by apply list_elem_of_In in H1|by apply bool_decide_eq_true].
Qed.

(** An actor may act exactly when it is well named, one of its roles is granted
    the capability, the purpose is stated where one is asked for, and the step-up
    is fresh where one is asked for. *)
Theorem Authorize_decides actor cap now :
  Authorize actor cap now = None ↔
  well_named (ActorID actor) ∧ (∃ role, role ∈ ActorRoles actor ∧ cap ∈ granted_to role) ∧
  (needs_purpose cap = true → stated (Purpose actor)) ∧ (needs_step_up cap = true → fresh (StepUpAt actor) now).
Proof.
  rewrite <- named_iff, <- granted_iff, <- stated_iff, <- fresh_iff. unfold Authorize.
  destruct (String.eqb (ActorID actor) "" || negb (ValidString (ActorID actor)) || _); [naive_solver|].
  destruct (existsb _ _); cbn [negb]; [|naive_solver].
  destruct (needs_purpose cap); cbn [andb];
    [destruct (blank (Purpose actor) || _ || _); [naive_solver|]|];
    (destruct (needs_step_up cap); cbn [andb]; [destruct (_ || _)|]); naive_solver.
Qed.

(** No role both reviews and publishes policies. *)
Lemma duties_separate role : ¬ (CapPolicyReview ∈ granted_to role ∧ CapPolicyPublish ∈ granted_to role).
Proof.
  unfold granted_to. intros [H1 H2]. repeat case_match; set_solver.
Qed.
