(* ===== verification/AdminSecurity.v ===== *)
(** [internal/app/admin_security.go] and [admin_policy.go], over the store of
    [internal/adapter/out/postgres/admin_security.go]: administrators, their
    sessions, the audit, and the review of allocation policies by two persons.

    A use case is one transaction. The store takes a share lock on the identity
    it reads and an exclusive one on the policy, so transactions on the same rows
    follow one another, and a use case is run as one step from store to store;
    any statement of it may fail. A service starts without identities, sessions
    and drafts, and with any rows of allocation rules that its migrations inserted
    ([seeded]). The theorems: the use cases implement the abstract rules of
    [sanctioned], and what those rules keep. *)
From S2P Require Import Prelude Sha256 SimState Fingerprint AdminAccess.

(** * Data *)

Record AdminIdentity := MkIdentity {
  IdID : string; Username : string; PasswordHash : string; TOTPSecret : string;
  Roles : list string; IdVersion : Z; Enabled : bool }.
#[export] Instance AdminIdentity_eta : Eta AdminIdentity :=
  λ i, MkIdentity (IdID i) (Username i) (PasswordHash i) (TOTPSecret i) (Roles i) (IdVersion i) (Enabled i).

Record AdminAudit := MkAudit {
  AuActor : string; AuAction : string; AuTarget : string; AuPurpose : string; AuOutcome : string; AuAt : Z }.

Record AdminSession := MkSession { IdentityID : string; SeVersion : Z; Strong : bool; SeStepUpAt : Z; SePurpose : string }.

Inductive PolicyState := Draft | Reviewed | Published | OtherState (s : string).
#[export] Instance PolicyState_eq_dec : EqDecision PolicyState.
Proof. solve_decision. Defined.

Record AdminPolicy := MkAdminPolicy {
  Signature : string; PoID : string; Key : string; PoVersion : Z; Definition_ : string; Excess : string;
  Source : string; Evidence : string; ContentHash : string; Author : string; Reviewer : string;
  Publisher : string; State : PolicyState; Revision : Z }.
#[export] Instance AdminPolicy_eta : Eta AdminPolicy :=
  λ p, MkAdminPolicy (Signature p) (PoID p) (Key p) (PoVersion p) (Definition_ p) (Excess p) (Source p) (Evidence p)
    (ContentHash p) (Author p) (Reviewer p) (Publisher p) (State p) (Revision p).

(** What a content hash binds: the publishable part and its evidence. *)
Record PolicyPayload := MkPayload {
  pl_id : string; pl_key : string; pl_version : Z; pl_definition : string; pl_excess : string; pl_source : string;
  pl_evidence : string }.
Definition payload (p : AdminPolicy) : PolicyPayload :=
  MkPayload (PoID p) (Key p) (PoVersion p) (Definition_ p) (Excess p) (Source p) (Evidence p).

(** A row of [allocation_policy_versions], which the ledger reads. *)
Record PolicyRow := MkRow { rw_id : string; rw_key : string; rw_version : Z; rw_definition : string; rw_excess : string; rw_source : string }.
Definition row_of (p : AdminPolicy) : PolicyRow := MkRow (PoID p) (Key p) (PoVersion p) (Definition_ p) (Excess p) (Source p).

(** The tables, and the last one-time counter each identity has used. *)
Record store := MkStore {
  identities : gmap string AdminIdentity;
  counters : gmap string Z;
  policies : gmap string AdminPolicy;
  history : list AdminPolicy;
  rows : list PolicyRow;
  audits : list AdminAudit }.
#[export] Instance store_eta : Eta store :=
  λ s, MkStore (identities s) (counters s) (policies s) (history s) (rows s) (audits s).
Definition empty_store : store := MkStore ∅ ∅ ∅ [] [] [].
(** The tables of a service that was never used: empty, but for the allocation
    rules its migrations put there. *)
Definition seeded (seeds : list PolicyRow) : store := set rows (λ _, seeds) empty_store.

(** * A transaction *)

(** The committed tables, the transaction's own, and how often the outside (the
    clock, the connection) has been asked. *)
Record site := MkSite { db : store; work : store; asks : nat }.
Definition Act (A : Type) : Type := site → (aerror + A) * site.
#[export] Instance Act_ret : MRet Act := λ _ a s, (inr a, s).
#[export] Instance Act_bind : MBind Act := λ _ _ k m s,
  match m s with (inr a, s) => k a s | (inl e, s) => (inl e, s) end.

Definition fail {A} (e : aerror) : Act A := λ s, (inl e, s).
Definition query {A} (f : store → A) : Act A := λ s, (inr (f (work s)), s).
Definition change (f : store → store) : Act unit := λ s, (inr tt, MkSite (db s) (f (work s)) (asks s)).
Definition refuse_if (b : bool) (e : aerror) : Act unit := if b then fail e else mret tt.
(** The value and the error side by side. *)
Definition tried {A} (m : Act A) : Act (aerror + A) := λ s, let '(r, s) := m s in (inr r, s).

Section Outside.
(** Whether the n-th statement fails, and what the clock says. *)
Context (fault : nat → option string) (clock : nat → Z).

Definition statement : Act unit := λ s,
  (match fault (asks s) with Some w => inl (StoreFault w) | None => inr tt end, MkSite (db s) (work s) (S (asks s))).
Definition now : Act Z := λ s, (inr (clock (asks s)), MkSite (db s) (work s) (S (asks s))).

Definition BeginAdmin : Act unit := λ s, statement (MkSite (db s) (db s) (asks s)).
Definition commits : Act unit := λ s, (inr tt, MkSite (work s) (work s) (asks s)).
Definition Commit : Act unit := _ ← statement; commits.

(** [SELECT … FOR SHARE] and [FOR UPDATE]; no row is [ErrNotFound]. *)
Definition Identity (id : string) : Act AdminIdentity :=
  _ ← statement; r ← query (λ d, identities d !! id);
  match r with Some i => mret i | None => fail ErrNotFound end.
Definition Policy (id : string) : Act AdminPolicy :=
  _ ← statement; r ← query (λ d, policies d !! id);
  match r with Some p => mret p | None => fail ErrNotFound end.

Definition AppendAudit (e : AdminAudit) : Act unit :=
  _ ← statement; change (set audits (λ l, l ++ [e])).

(** The user names of the others. *)
Definition name_taken (d : store) (i : AdminIdentity) : bool :=
  bool_decide (map_Exists (λ k j, k ≠ IdID i ∧ Username j = Username i) (identities d)).
Definition roles_known (i : AdminIdentity) : bool := forallb (λ r, bool_decide (r ∈ AdminRoles)) (Roles i).

(** Insert, or update under the expected version, with the table's constraints. *)
Definition SaveIdentity (i : AdminIdentity) (expected : Z) : Act unit :=
  _ ← statement; d ← query (λ d, d);
  _ ← refuse_if ((IdVersion i <=? 0) || negb (roles_known i)) (StoreFault "check constraint");
  if 0 <? expected
  then
    match identities d !! IdID i with
    | Some old =>
        _ ← refuse_if (negb (IdVersion old =? expected) || name_taken d i) ErrAdminConflict;
        change (set identities (<[IdID i := i]>))
    | None => fail ErrAdminConflict
    end
  else
    _ ← refuse_if (bool_decide (is_Some (identities d !! IdID i)) || name_taken d i) ErrAdminConflict;
    change (set identities (<[IdID i := i]>) ∘ set counters (<[IdID i := -1]>)).

Definition SavePolicy (p : AdminPolicy) (expected : Z) : Act unit :=
  _ ← statement; d ← query (λ d, d);
  _ ← refuse_if (Revision p <=? 0) (StoreFault "check constraint");
  _ ← refuse_if (match policies d !! PoID p with
                 | Some old => negb (0 <? expected) || negb (Revision old =? expected)
                 | None => 0 <? expected
                 end) ErrAdminConflict;
  change (set policies (<[PoID p := p]>) ∘ set history (λ l, l ++ [p])).

(** The insert into the table the ledger reads, with its two unique keys. *)
Definition InsertRow (p : AdminPolicy) : Act unit :=
  _ ← statement; d ← query (λ d, d);
  _ ← refuse_if (existsb (λ r, String.eqb (rw_id r) (PoID p) || (String.eqb (rw_key r) (Key p) && (rw_version r =? PoVersion p)))
                   (rows d)) ErrAdminConflict;
  change (set rows (λ l, l ++ [row_of p])).

(** * Authority *)

Definition an_audit (id action target purpose outcome : string) : Act unit :=
  t ← now; AppendAudit (MkAudit id action target purpose outcome t).

(** Denials commit only their audit entry. *)
Definition denyAdmin {A} (cap : AdminCapability) (target id : string) (cause : aerror) : Act A :=
  _ ← an_audit id (capability_text cap) target "" "denied"; _ ← Commit; fail cause.

Definition authorizeTx (session : option AdminSession) (cap : AdminCapability) (target : string) : Act AdminActor :=
  match session with
  | None => denyAdmin cap target "" ErrAdminAccessDenied
  | Some se =>
      if negb (Strong se) then denyAdmin cap target "" ErrAdminAccessDenied
      else
        r ← tried (Identity (IdentityID se));
        match r with
        | inl _ => denyAdmin cap target "" ErrAdminAccessDenied
        | inr id =>
            if negb (Enabled id) || negb (IdVersion id =? SeVersion se) || String.eqb (TOTPSecret id) ""
            then denyAdmin cap target (IdID id) ErrAdminAccessDenied
            else
              let actor := MkActor (IdID id) (Roles id) (SePurpose se) (SeStepUpAt se) in
              t ← now;
              let err := Authorize actor cap t in
              let outcome := match err with Some _ => "denied" | None => "authorized_attempt" end%string in
              let purpose := if Nat.ltb 512 (String.length (SePurpose se)) || negb (ValidString (SePurpose se))
                             then ""%string else SePurpose se in
              _ ← an_audit (IdID id) (capability_text cap) target purpose outcome;
              match err with
              | Some e => _ ← Commit; fail e
              | None => mret actor
              end
        end
  end.

(** * Use cases *)

(** [SecurityReady], which every use case asks first. *)
Context (ready : bool).
Definition transaction {A} (m : Act A) : Act A :=
  _ ← refuse_if (negb ready) ErrAdminSecurityUnavailable; _ ← BeginAdmin; m.

(** One statement of its own. It runs only into an empty table; losing the race
    is no error. *)
Definition BootstrapIdentity (id : AdminIdentity) : Act unit :=
  _ ← refuse_if (negb ready) ErrAdminSecurityUnavailable;
  let id := MkIdentity (IdID id) (Username id) (PasswordHash id) "" [AdminRoleAdministrator] 1 true in
  _ ← refuse_if (String.eqb (IdID id) "" || String.eqb (Username id) "" || String.eqb (PasswordHash id) "") ErrAdminActorInvalid;
  _ ← BeginAdmin;
  d ← query (λ d, d);
  _ ← (if bool_decide (identities d = ∅)
       then change (set identities (<[IdID id := id]>) ∘ set counters (<[IdID id := -1]>)) else mret tt);
  commits.

Definition CheckAccess (session : option AdminSession) (cap : AdminCapability) (target : string) : Act unit :=
  transaction (_ ← authorizeTx session cap target; Commit).

Definition ChangeIdentity (session : option AdminSession) (id : AdminIdentity) (expected : Z) : Act unit :=
  _ ← refuse_if (negb ready) ErrAdminSecurityUnavailable;
  _ ← refuse_if (String.eqb (IdID id) "" || String.eqb (Username id) "" ||
                 (String.eqb (PasswordHash id) "" && (expected =? 0)) || Nat.eqb (length (Roles id)) 0) ErrAdminActorInvalid;
  _ ← refuse_if (negb (roles_known id)) ErrAdminActorInvalid;
  _ ← BeginAdmin;
  actor ← authorizeTx session CapRoleChanges (IdID id);
  _ ← refuse_if (String.eqb (ActorID actor) (IdID id)) ErrAdminAccessDenied;
  id ← (if 0 <? expected
        then
          old ← Identity (IdID id);
          let id := set TOTPSecret (λ _, TOTPSecret old) id in
          mret (if String.eqb (PasswordHash id) "" then set PasswordHash (λ _, PasswordHash old) id else id)
        else mret id);
  _ ← SaveIdentity (set IdVersion (λ _, iadd expected 1) id) expected;
  Commit.

(** Only the session a password opened, and only once. *)
Definition EnrollIdentity (session : option AdminSession) (secret : string) : Act unit :=
  _ ← refuse_if (negb ready) ErrAdminSecurityUnavailable;
  match session with
  | None => fail ErrAdminAccessDenied
  | Some se =>
      _ ← refuse_if (Strong se || blank secret) ErrAdminAccessDenied;
      _ ← BeginAdmin;
      id ← Identity (IdentityID se);
      _ ← refuse_if (negb (Enabled id) || negb (String.eqb (TOTPSecret id) "") || negb (IdVersion id =? SeVersion se))
            ErrAdminAccessDenied;
      _ ← SaveIdentity (set TOTPSecret (λ _, secret) (set IdVersion (λ v, iadd v 1) id)) (SeVersion se);
      _ ← an_audit (IdID id) "identity.enroll" (IdID id) "" "completed";
      Commit
  end.

(** One guarded update: a counter is taken once. *)
Definition ConsumeOTP (id : string) (version counter : Z) : Act unit :=
  transaction (
    d ← query (λ d, d);
    _ ← refuse_if (match identities d !! id, counters d !! id with
                   | Some i, Some last => negb (IdVersion i =? version) || negb (Enabled i) || negb (last <? counter)
                   | _, _ => true
                   end) ErrAdminAccessDenied;
    _ ← change (set counters (<[id := counter]>));
    commits).

Definition RecordAuthentication (id outcome : string) : Act unit :=
  transaction (_ ← an_audit id "identity.authentication" "" "" outcome; Commit).

(** * Policies *)

(** [encoding/json]: whether a definition is JSON, and the canonical bytes of a
    payload, with the error of a definition that cannot be decoded. *)
Context (valid_json : string → bool) (canonical : PolicyPayload → option string).
(** The configured signer, if there is one. *)
Context (signPolicy : option (string → aerror + string)).

Definition PolicyContentHash (p : AdminPolicy) : option string :=
  (λ c, EncodeToString (Sum256 (bytes_of_string c))) <$> canonical (payload p).

Definition validAdminPolicy (p : AdminPolicy) : bool :=
  negb (String.eqb (PoID p) "" || blank (Key p) || (PoVersion p <? 1) || negb (valid_json (Definition_ p)) || blank (Source p)) &&
  bool_decide (Excess p ∈ ["reduce_principal"; "hold_as_advance"; "requires_bank_request"; "unknown"]%string).

Definition hashed (p : AdminPolicy) : Act string :=
  match PolicyContentHash p with Some c => mret c | None => fail (StoreFault "json") end.

Definition DraftPolicy (session : option AdminSession) (p : AdminPolicy) (expected : Z) : Act unit :=
  _ ← refuse_if (negb ready) ErrAdminSecurityUnavailable;
  _ ← refuse_if (negb (validAdminPolicy p)) ErrAdminEvidenceRequired;
  _ ← BeginAdmin;
  actor ← authorizeTx session CapPolicyReview (PoID p);
  _ ← (if 0 <? expected
       then old ← Policy (PoID p);
            refuse_if (negb (String.eqb (Author old) (ActorID actor)) || bool_decide (State old = Published)) ErrAdminAccessDenied
       else mret tt);
  let p := MkAdminPolicy "" (PoID p) (Key p) (PoVersion p) (Definition_ p) (Excess p) (Source p) (Evidence p)
    (ContentHash p) (ActorID actor) "" "" Draft (iadd expected 1) in
  c ← hashed p;
  _ ← SavePolicy (set ContentHash (λ _, c) p) expected;
  Commit.

Definition advancePolicy (session : option AdminSession) (id : string) (expected : Z) (hash : string) (publish : bool) : Act unit :=
  transaction (
    actor ← authorizeTx session (if publish then CapPolicyPublish else CapPolicyReview) id;
    p ← Policy id;
    computed ← hashed p;
    _ ← refuse_if (negb (Revision p =? expected) || negb (String.eqb hash (ContentHash p)) || negb (String.eqb hash computed))
          ErrAdminConflict;
    _ ← refuse_if (blank (Evidence p) || String.eqb (ActorID actor) (Author p)) ErrAdminEvidenceRequired;
    p ← (if publish
         then
           _ ← refuse_if (negb (bool_decide (State p = Reviewed)) || String.eqb (Reviewer p) "" || String.eqb (Reviewer p) (Author p))
                 ErrAdminEvidenceRequired;
           match signPolicy with
           | None => fail ErrAdminSecurityUnavailable
           | Some sign =>
               match sign (ContentHash p) with
               | inl e => fail e
               | inr sig =>
                   let p := set Publisher (λ _, ActorID actor) (set State (λ _, Published) (set Signature (λ _, sig) p)) in
                   _ ← InsertRow p; mret p
               end
           end
         else
           _ ← refuse_if (negb (bool_decide (State p = Draft))) ErrAdminConflict;
           mret (set Reviewer (λ _, ActorID actor) (set State (λ _, Reviewed) p)));
    _ ← SavePolicy (set Revision (λ r, iadd r 1) p) expected;
    Commit).
Definition ReviewPolicy session id expected hash : Act unit := advancePolicy session id expected hash false.
Definition PublishPolicy session id expected hash : Act unit := advancePolicy session id expected hash true.

(** * What may be read *)

(** The latest two hundred entries, the latest first. *)
Definition AuditEvents : Act (list AdminAudit) := _ ← statement; query (λ d, take 200 (reverse (audits d))).

(** Reading is an attempt of its own, committed before the rows are read in
    another transaction, which is given up. *)
Definition Audit (session : option AdminSession) : Act (list AdminAudit) :=
  _ ← CheckAccess session CapAuditRead "audit"; _ ← BeginAdmin; AuditEvents.
Definition PolicyDraft (session : option AdminSession) (id : string) : Act AdminPolicy :=
  _ ← CheckAccess session CapPolicyRead id; _ ← BeginAdmin; Policy id.

(** * The use cases of a running service *)

Inductive op :=
| Bootstrap (id : AdminIdentity)
| Access (session : option AdminSession) (cap : AdminCapability) (target : string)
| ChangeId (session : option AdminSession) (id : AdminIdentity) (expected : Z)
| Enroll (session : option AdminSession) (secret : string)
| Consume (id : string) (version counter : Z)
| Record_ (id outcome : string)
| ReadAudit (session : option AdminSession)
| ReadPolicy (session : option AdminSession) (id : string)
| DraftP (session : option AdminSession) (p : AdminPolicy) (expected : Z)
| Review (session : option AdminSession) (id : string) (expected : Z) (hash : string)
| Publish (session : option AdminSession) (id : string) (expected : Z) (hash : string).

Definition perform (o : op) : Act unit :=
  match o with
  | Bootstrap id => BootstrapIdentity id
  | Access se cap target => CheckAccess se cap target
  | ChangeId se id expected => ChangeIdentity se id expected
  | Enroll se secret => EnrollIdentity se secret
  | Consume id version counter => ConsumeOTP id version counter
  | Record_ id outcome => RecordAuthentication id outcome
  | ReadAudit se => _ ← Audit se; mret tt
  | ReadPolicy se id => _ ← PolicyDraft se id; mret tt
  | DraftP se p expected => DraftPolicy se p expected
  | Review se id expected hash => ReviewPolicy se id expected hash
  | Publish se id expected hash => PublishPolicy se id expected hash
  end.

(** The tables after each use case; what is left of a transaction is gone. *)
Definition served (s s' : site) : Prop := ∃ o r, perform o s = (r, s').
End Outside.

(** * The rules *)

Definition logged (e : AdminAudit) : store → store := set audits (λ l, l ++ [e]).
Definition put_identity (i : AdminIdentity) : store → store := set identities (<[IdID i := i]>).
Definition put_policy (p : AdminPolicy) : store → store := set policies (<[PoID p := p]>) ∘ set history (λ l, l ++ [p]).

Section Rules.
Context (canonical : PolicyPayload → option string).
#[local] Abbreviation content := (PolicyContentHash canonical).

(** A session stands for an enabled, enrolled identity it still knows the version
    of, and the identity may use the capability now. *)
Definition authority (d : store) (session : option AdminSession) (cap : AdminCapability) (i : AdminIdentity) (t : Z) : Prop :=
  ∃ se, session = Some se ∧ Strong se = true ∧ identities d !! IdentityID se = Some i ∧ Enabled i = true ∧
    IdVersion i = SeVersion se ∧ TOTPSecret i ≠ "" ∧
    Authorize (MkActor (IdID i) (Roles i) (SePurpose se) (SeStepUpAt se)) cap t = None.

(** The audit entry an authorised attempt leaves. *)
Definition attempt (e : AdminAudit) (i : AdminIdentity) (cap : AdminCapability) (target : string) : Prop :=
  AuActor e = IdID i ∧ AuAction e = capability_text cap ∧ AuTarget e = target ∧ AuOutcome e = "authorized_attempt".

(** What a use case may do to the tables. *)
Inductive sanctioned (d : store) : op → store → Prop :=
| S_nothing o : sanctioned d o d
| S_logged o e : sanctioned d o (logged e d)
| S_bootstrap id : identities d = ∅ →
    let id' := MkIdentity (IdID id) (Username id) (PasswordHash id) "" [AdminRoleAdministrator] 1 true in
    sanctioned d (Bootstrap id) (set counters (<[IdID id := -1]>) (put_identity id' d))
| S_created se id expected i t e : authority d se CapRoleChanges i t → attempt e i CapRoleChanges (IdID id) →
    IdID i ≠ IdID id → identities d !! IdID id = None →
    let id' := set IdVersion (λ _, iadd expected 1) id in
    sanctioned d (ChangeId se id expected) (set counters (<[IdID id' := -1]>) (put_identity id' (logged e d)))
| S_changed se id expected i t e old id' : authority d se CapRoleChanges i t → attempt e i CapRoleChanges (IdID id) →
    IdID i ≠ IdID id → identities d !! IdID id = Some old → IdVersion old = expected → 0 < expected →
    IdID id' = IdID id → Roles id' = Roles id → Enabled id' = Enabled id → TOTPSecret id' = TOTPSecret old →
    IdVersion id' = iadd expected 1 →
    sanctioned d (ChangeId se id expected) (put_identity id' (logged e d))
| S_enrolled se secret i e : identities d !! IdentityID se = Some i → Strong se = false → Enabled i = true →
    TOTPSecret i = "" → IdVersion i = SeVersion se → 0 < SeVersion se → blank secret = false →
    AuActor e = IdID i → AuOutcome e = "completed" →
    sanctioned d (Enroll (Some se) secret)
      (logged e (put_identity (set TOTPSecret (λ _, secret) (set IdVersion (λ v, iadd v 1) i)) d))
| S_consumed id version counter i last : identities d !! id = Some i → Enabled i = true → IdVersion i = version →
    counters d !! id = Some last → last < counter →
    sanctioned d (Consume id version counter) (set counters (<[id := counter]>) d)
| S_drafted se p expected i t e p' : authority d se CapPolicyReview i t → attempt e i CapPolicyReview (PoID p) →
    match policies d !! PoID p with
    | Some old => Author old = IdID i ∧ State old ≠ Published ∧ Revision old = expected ∧ 0 < expected
    | None => expected ≤ 0
    end →
    payload p' = payload p → Author p' = IdID i → State p' = Draft → Reviewer p' = "" → Publisher p' = "" → Signature p' = "" →
    content p' = Some (ContentHash p') → Revision p' = iadd expected 1 →
    sanctioned d (DraftP se p expected) (put_policy p' (logged e d))
| S_reviewed se id expected hash i t e p : authority d se CapPolicyReview i t → attempt e i CapPolicyReview id →
    policies d !! id = Some p → Revision p = expected → content p = Some hash → ContentHash p = hash →
    blank (Evidence p) = false → IdID i ≠ Author p → State p = Draft →
    sanctioned d (Review se id expected hash)
      (put_policy (set Revision (λ r, iadd r 1) (set Reviewer (λ _, IdID i) (set State (λ _, Reviewed) p))) (logged e d))
| S_published se id expected hash i t e p sig : authority d se CapPolicyPublish i t → attempt e i CapPolicyPublish id →
    policies d !! id = Some p → Revision p = expected → content p = Some hash → ContentHash p = hash →
    blank (Evidence p) = false → IdID i ≠ Author p → State p = Reviewed → Reviewer p ≠ "" → Reviewer p ≠ Author p →
    (∀ r, r ∈ rows d → rw_id r ≠ PoID p ∧ (rw_key r ≠ Key p ∨ rw_version r ≠ PoVersion p)) →
    sanctioned d (Publish se id expected hash)
      (put_policy (set Revision (λ r, iadd r 1)
        (set Publisher (λ _, IdID i) (set State (λ _, Published) (set Signature (λ _, sig) p))))
        (set rows (λ l, l ++ [row_of p]) (logged e d))).
End Rules.

(** * Running a transaction *)

Definition wp {A} (m : Act A) (Q : aerror + A → site → Prop) (s : site) : Prop := Q (fst (m s)) (snd (m s)).
Definition bound {A B} (k : A → Act B) (Q : aerror + B → site → Prop) (r : aerror + A) (s : site) : Prop :=
  match r with inl e => Q (inl e) s | inr a => wp (k a) Q s end.

Lemma wp_bind {A B} (m : Act A) (k : A → Act B) Q s : wp m (bound k Q) s → wp (m ≫= k) Q s.
Proof.
  unfold wp, mbind, Act_bind. destruct (m s) as [[e|a] s1]; cbn; done.
Qed.

Section Running.
Context (fault : nat → option string) (clock : nat → Z).

(** A failure leaves the committed tables [d] as they are. *)
Definition safe {A} (d : store) (Q : aerror + A → site → Prop) : Prop := ∀ e w n, Q (inl e) (MkSite d w n).

Lemma safe_bound {A B} d (k : A → Act B) Q : safe d Q → safe d (bound k Q).
Proof. done. Qed.
Lemma wp_ret {A} (a : A) Q s : Q (inr a) s → wp (mret a) Q s.
Proof. done. Qed.
Lemma wp_refuse {A} d (b : bool) e (k : unit → Act A) Q w n : safe d Q →
  (b = false → wp (k tt) Q (MkSite d w n)) → wp (refuse_if b e ≫= k) Q (MkSite d w n).
Proof. intros Hs Hk. destruct b; [apply Hs|by apply Hk]. Qed.
Lemma wp_statement {A} d (k : unit → Act A) Q w n : safe d Q →
  (∀ n, wp (k tt) Q (MkSite d w n)) → wp (statement fault ≫= k) Q (MkSite d w n).
Proof. intros Hs Hk. unfold wp, mbind, Act_bind, statement. cbn. destruct (fault n); [apply Hs|apply Hk]. Qed.
Lemma wp_now {A} d (k : Z → Act A) Q w n : (∀ t n, wp (k t) Q (MkSite d w n)) → wp (now clock ≫= k) Q (MkSite d w n).
Proof. intros Hk. apply Hk. Qed.
Lemma wp_query {A B} d (f : store → A) (k : A → Act B) Q w n :
  wp (k (f w)) Q (MkSite d w n) → wp (query f ≫= k) Q (MkSite d w n).
Proof. done. Qed.
Lemma wp_change {A} d f (k : unit → Act A) Q w n :
  wp (k tt) Q (MkSite d (f w) n) → wp (change f ≫= k) Q (MkSite d w n).
Proof. done. Qed.
Lemma wp_begin {A} d (k : unit → Act A) Q w n : safe d Q →
  (∀ n, wp (k tt) Q (MkSite d d n)) → wp (BeginAdmin fault ≫= k) Q (MkSite d w n).
Proof. intros Hs Hk. exact (wp_statement d k Q d n Hs Hk). Qed.
Lemma wp_commits d Q w n : Q (inr tt) (MkSite w w n) → wp commits Q (MkSite d w n).
Proof. done. Qed.
Lemma wp_commit d (Q : aerror + unit → site → Prop) w n : safe d Q → (∀ n, Q (inr tt) (MkSite w w n)) →
  wp (Commit fault) Q (MkSite d w n).
Proof. intros Hs Hk. unfold Commit. apply wp_statement; [done|]. intros n'. apply Hk. Qed.

Lemma wp_row {A B} d (f : store → option A) (k : A → Act B) Q w n : safe d Q →
  (∀ a n, f w = Some a → wp (k a) Q (MkSite d w n)) →
  wp ((_ ← statement fault; r ← query f; match r with Some a => mret a | None => fail ErrNotFound end) ≫= k) Q (MkSite d w n).
Proof.
  intros Hs Hk. apply wp_bind, wp_statement; [done|]. intros n'. apply wp_query. destruct (f w) as [a|] eqn:E; [by apply Hk|apply Hs].
Qed.

Lemma wp_audit {A} d id action target purpose outcome (k : unit → Act A) Q w n : safe d Q →
  (∀ t n, wp (k tt) Q (MkSite d (logged (MkAudit id action target purpose outcome t) w) n)) →
  wp (an_audit fault clock id action target purpose outcome ≫= k) Q (MkSite d w n).
Proof.
  intros Hs Hk. apply wp_bind. unfold an_audit. apply wp_now. intros t n'. unfold AppendAudit. apply wp_statement; [done|].
  intros n2. apply Hk.
Qed.

Lemma wp_deny {A} cap target id cause (Q : aerror + A → site → Prop) d n : safe d Q →
  (∀ e a n, Q (inl e) (MkSite (logged a d) (logged a d) n)) → wp (denyAdmin fault clock cap target id cause) Q (MkSite d d n).
Proof.
  intros Hs Hd. unfold denyAdmin. apply wp_audit; [done|]. intros t n'. apply wp_bind, wp_commit; [done|]. intros n2. apply Hd.
Qed.

Lemma wp_tried_identity {A} d id (k : aerror + AdminIdentity → Act A) Q w n :
  (∀ e n, wp (k (inl e)) Q (MkSite d w n)) →
  (∀ i n, identities w !! id = Some i → wp (k (inr i)) Q (MkSite d w n)) →
  wp (tried (Identity fault id) ≫= k) Q (MkSite d w n).
Proof.
  intros He Hi. unfold wp, mbind, Act_bind, tried, Identity, statement, query, mbind, Act_bind. cbn.
  destruct (fault n); [apply He|]. cbn. destruct (identities w !! id) eqn:E; [by apply Hi|apply He].
Qed.

Lemma wp_authorize {B} se cap target (k : AdminActor → Act B) Q d n : safe d Q →
  (∀ e a n, Q (inl e) (MkSite (logged a d) (logged a d) n)) →
  (∀ i t a n actor, authority d se cap i t → attempt a i cap target → ActorID actor = IdID i →
     wp (k actor) Q (MkSite d (logged a d) n)) →
  wp (authorizeTx fault clock se cap target ≫= k) Q (MkSite d d n).
Proof.
  intros Hs Hd Hk. apply wp_bind. unfold authorizeTx. destruct se as [se|]; [|by apply wp_deny].
  destruct (Strong se) eqn:Hst; cbn [negb]; [|by apply wp_deny].
  apply wp_tried_identity; [intros e n'; by apply wp_deny|]. intros i n' Hi.
  destruct (negb (Enabled i) || negb (IdVersion i =? SeVersion se) || String.eqb (TOTPSecret i) "") eqn:E; [by apply wp_deny|].
  apply orb_false_iff in E as [[E1%negb_false_iff E2%negb_false_iff]%orb_false_iff E3]. apply wp_now. intros t n2. cbv zeta.
  destruct (Authorize (MkActor (IdID i) (Roles i) (SePurpose se) (SeStepUpAt se)) cap t) as [e|] eqn:Ea.
  - apply wp_audit; [done|]. intros t' n3. apply wp_bind, wp_commit; [done|]. intros n4. apply Hd.
  - apply wp_audit; [done|]. intros t' n3. apply wp_ret, (Hk i t); [|done|done].
    exists se. split; [done|]. split; [done|]. split; [done|]. split; [done|]. split; [lia|]. split; [|done].
    intros Ht. by rewrite Ht in E3.
Qed.

Lemma wp_save_identity {A} d i expected (k : unit → Act A) Q w n : safe d Q →
  (∀ n old, 0 < expected → identities w !! IdID i = Some old → IdVersion old = expected →
     wp (k tt) Q (MkSite d (put_identity i w) n)) →
  (∀ n, expected ≤ 0 → identities w !! IdID i = None →
     wp (k tt) Q (MkSite d (set counters (<[IdID i := -1]>) (put_identity i w)) n)) →
  wp (SaveIdentity fault i expected ≫= k) Q (MkSite d w n).
Proof.
  intros Hs Hu Hc. apply wp_bind. unfold SaveIdentity. apply wp_statement; [done|]. intros n'. apply wp_query.
  apply (wp_refuse d); [done|]. intros _. destruct (Z.ltb_spec 0 expected) as [He|He].
  - destruct (identities w !! IdID i) as [old|] eqn:Ei; [|apply Hs]. apply (wp_refuse d); [done|].
    intros [H%negb_false_iff%Z.eqb_eq _]%orb_false_iff. by apply (Hu n' old).
  - apply (wp_refuse d); [done|]. intros [H%bool_decide_eq_false _]%orb_false_iff. apply Hc; [done|].
    by apply eq_None_not_Some.
Qed.

Lemma wp_save_policy {A} d p expected (k : unit → Act A) Q w n : safe d Q →
  (∀ n, match policies w !! PoID p with Some old => 0 < expected ∧ Revision old = expected | None => expected ≤ 0 end →
     wp (k tt) Q (MkSite d (put_policy p w) n)) →
  wp (SavePolicy fault p expected ≫= k) Q (MkSite d w n).
Proof.
  intros Hs Hk. apply wp_bind. unfold SavePolicy. apply wp_statement; [done|]. intros n'. apply wp_query.
  apply (wp_refuse d); [done|]. intros _. apply (wp_refuse d); [done|]. intros H. apply Hk.
  destruct (policies w !! PoID p) as [old|]; [|lia]. apply orb_false_iff in H as [H1%negb_false_iff H2%negb_false_iff]. lia.
Qed.

Lemma wp_insert_row {A} d p (k : unit → Act A) Q w n : safe d Q →
  (∀ n, (∀ r, r ∈ rows w → rw_id r ≠ PoID p ∧ (rw_key r ≠ Key p ∨ rw_version r ≠ PoVersion p)) →
     wp (k tt) Q (MkSite d (set rows (λ l, l ++ [row_of p]) w) n)) →
  wp (InsertRow fault p ≫= k) Q (MkSite d w n).
Proof.
  intros Hs Hk. apply wp_bind. unfold InsertRow. apply wp_statement; [done|]. intros n'. apply wp_query.
  apply (wp_refuse d); [done|]. intros H. apply Hk. intros r Hr.
  assert (String.eqb (rw_id r) (PoID p) || (String.eqb (rw_key r) (Key p) && (rw_version r =? PoVersion p)) = false) as E.
  { apply not_true_iff_false. intros E. apply not_true_iff_false in H. apply H, existsb_exists. exists r.
    split; [by apply list_elem_of_In|done]. }
  apply orb_false_iff in E as [E1 E2]. apply String.eqb_neq in E1. split; [done|].
  apply andb_false_iff in E2 as [E2|E2]; [left; by apply String.eqb_neq|right; lia].
Qed.
End Running.

(** * The use cases implement the rules *)

Section Service.
Context (fault : nat → option string) (clock : nat → Z) (ready : bool).
Context (valid_json : string → bool) (canonical : PolicyPayload → option string).
Context (signPolicy : option (string → aerror + string)).
#[local] Abbreviation run := (perform fault clock ready valid_json canonical signPolicy).
#[local] Abbreviation rule := (sanctioned canonical).

Definition ends_in {A} (d : store) (o : op) (_ : aerror + A) (s : site) : Prop := rule d o (db s).

Lemma ends_safe {A} d o : safe d (@ends_in A d o).
Proof. intros e w n. apply S_nothing. Qed.
(** Failing here leaves everything as it was. *)
Ltac stays := solve [intros ? ? ?; apply S_nothing].
#[local] Hint Extern 1 (ends_in _ _ _ _) => apply S_logged : core.

Lemma wp_transaction d o (m : Act unit) w n :
  (∀ n, wp m (ends_in d o) (MkSite d d n)) → wp (transaction fault ready m) (ends_in d o) (MkSite d w n).
Proof. intros Hm. unfold transaction. apply (wp_refuse d); [stays|]. intros _. apply wp_begin; [stays|done]. Qed.

Lemma Bootstrap_sanctioned id d w n : wp (run (Bootstrap id)) (ends_in d (Bootstrap id)) (MkSite d w n).
Proof.
  cbn [perform]. unfold BootstrapIdentity. apply (wp_refuse d); [stays|]. intros _. cbv zeta.
  apply (wp_refuse d); [stays|]. intros _. apply wp_begin; [stays|]. intros n'. apply wp_query.
  destruct (bool_decide (identities d = ∅)) eqn:E.
  - apply wp_change, wp_commits. apply bool_decide_eq_true in E. by apply S_bootstrap.
  - apply wp_bind, wp_ret, wp_commits. apply S_nothing.
Qed.

Lemma wp_check_access {A} se cap target (k : unit → Act A) Q d w n : safe d Q →
  (∀ r a n, bound k Q r (MkSite (logged a d) (logged a d) n)) →
  wp (CheckAccess fault clock ready se cap target ≫= k) Q (MkSite d w n).
Proof.
  intros Hs Hk. apply wp_bind. unfold CheckAccess, transaction. apply (wp_refuse d); [done|]. intros _. apply wp_begin; [done|].
  intros n1. apply wp_authorize; [done| |].
  - intros e a n2. apply (Hk (inl e)).
  - intros i t a n2 actor _ _ _. apply wp_commit; [done|]. intros n3. apply (Hk (inr tt)).
Qed.
Lemma Access_sanctioned se cap target d w n :
  wp (run (Access se cap target)) (ends_in d (Access se cap target)) (MkSite d w n).
Proof.
  apply wp_transaction. intros n'. apply wp_authorize; [stays|auto|]. intros i t a n2 actor _ _ _.
  apply wp_commit; [stays|]. auto.
Qed.
(** What is read after the attempt has been committed changes nothing. *)
Lemma reading_sanctioned {A} (o : op) (m : Act A) se cap target d w n :
  (∀ d n Q, safe d Q → (∀ a n, Q (inr a) (MkSite d d n)) → wp m Q (MkSite d d n)) →
  wp (_ ← (_ ← CheckAccess fault clock ready se cap target; _ ← BeginAdmin fault; m); mret tt) (ends_in d o) (MkSite d w n).
Proof.
  intros Hm. apply wp_bind, wp_check_access; [stays|]. intros [e|[]] a n1; cbn [bound]; [apply S_logged|].
  assert (safe (logged a d) (bound (λ _ : A, (mret tt : Act unit)) (ends_in d o))) as Hs by (intros ? ? ?; apply S_logged).
  apply wp_begin; [done|]. intros n2. apply (Hm (logged a d)); [done|]. intros x n3. apply S_logged.
Qed.
Lemma ReadAudit_sanctioned se d w n : wp (run (ReadAudit se)) (ends_in d (ReadAudit se)) (MkSite d w n).
Proof.
  apply reading_sanctioned. intros d' n' Q Hs Hq. unfold AuditEvents. apply wp_statement; [done|]. intros n2. apply Hq.
Qed.
Lemma ReadPolicy_sanctioned se id d w n : wp (run (ReadPolicy se id)) (ends_in d (ReadPolicy se id)) (MkSite d w n).
Proof.
  apply reading_sanctioned. intros d' n' Q Hs Hq. unfold Policy. apply wp_statement; [done|]. intros n2. apply wp_query.
  destruct (policies d' !! id); [apply Hq|apply Hs].
Qed.

Lemma Record_sanctioned id outcome d w n : wp (run (Record_ id outcome)) (ends_in d (Record_ id outcome)) (MkSite d w n).
Proof. apply wp_transaction. intros n'. apply wp_audit; [stays|]. intros t n2. apply wp_commit; [stays|]. auto. Qed.

Lemma Consume_sanctioned id version counter d w n :
  wp (run (Consume id version counter)) (ends_in d (Consume id version counter)) (MkSite d w n).
Proof.
  apply wp_transaction. intros n'. apply wp_query. apply (wp_refuse d); [stays|]. intros H.
  destruct (identities d !! id) as [i|] eqn:Ei; [|done]. destruct (counters d !! id) as [last|] eqn:El; [|done].
  apply orb_false_iff in H as [[H1%negb_false_iff%Z.eqb_eq H2%negb_false_iff]%orb_false_iff H3%negb_false_iff%Z.ltb_lt].
  apply wp_change, wp_commits. by apply (S_consumed _ _ id version counter i last).
Qed.

Lemma ChangeId_sanctioned se id expected d w n :
  wp (run (ChangeId se id expected)) (ends_in d (ChangeId se id expected)) (MkSite d w n).
Proof.
  cbn [perform]. unfold ChangeIdentity. apply (wp_refuse d); [stays|]. intros _. apply (wp_refuse d); [stays|]. intros _.
  apply (wp_refuse d); [stays|]. intros _. apply wp_begin; [stays|]. intros n'.
  apply wp_authorize; [stays|auto|]. intros i t a n2 actor Hau Hat Hid. apply (wp_refuse d); [stays|].
  rewrite Hid. intros Hne%String.eqb_neq. apply wp_bind. destruct (Z.ltb_spec 0 expected) as [He|He].
  - apply (wp_row _ d (λ d, identities d !! IdID id)); [stays|]. intros old n3 Ho. apply wp_ret. cbn [bound].
    apply wp_save_identity; [stays| |intros n4 Hle; lia].
    intros n4 old' _ Ho' Hv. apply wp_commit; [stays|]. intros n5. unfold ends_in. cbn [db].
    case_if_in Ho'; assert (old' = old) as -> by (apply (inj Some); etrans; [symmetry; exact Ho'|exact Ho]);
      by apply (S_changed canonical d se id expected i t a old).
  - apply wp_ret. cbn [bound]. apply wp_save_identity; [stays|intros n4 old Hlt; lia|].
    intros n4 _ Hnone. apply wp_commit; [stays|]. intros n5. by apply (S_created canonical d se id expected i t a).
Qed.

(** Rows are filed under their own keys. *)
Record filed (d : store) : Prop := {
  fl_identities : ∀ k i, identities d !! k = Some i → IdID i = k;
  fl_policies : ∀ k p, policies d !! k = Some p → PoID p = k }.

Lemma Enroll_sanctioned se secret d w n : filed d → wp (run (Enroll se secret)) (ends_in d (Enroll se secret)) (MkSite d w n).
Proof.
  intros Hf. cbn [perform]. unfold EnrollIdentity. apply (wp_refuse d); [stays|]. intros _. destruct se as [se|]; [|apply S_nothing].
  apply (wp_refuse d); [stays|]. intros [Hst Hb]%orb_false_iff. apply wp_begin; [stays|]. intros n'.
  apply (wp_row _ d (λ d, identities d !! IdentityID se)); [stays|]. intros i n2 Hi. apply (wp_refuse d); [stays|].
  intros [[He%negb_false_iff Ht%negb_false_iff]%orb_false_iff Hv%negb_false_iff%Z.eqb_eq]%orb_false_iff. apply String.eqb_eq in Ht.
  apply wp_save_identity; [stays| |].
  - intros n3 old Hlt Ho Hov. apply wp_audit; [stays|]. intros t n4. apply wp_commit; [stays|]. intros n5.
    by apply S_enrolled.
  - intros n3 Hle Hnone. exfalso. change (identities d !! IdID i = None) in Hnone. by rewrite (fl_identities d Hf _ _ Hi), Hi in Hnone.
Qed.

Lemma DraftP_sanctioned se p expected d w n :
  wp (run (DraftP se p expected)) (ends_in d (DraftP se p expected)) (MkSite d w n).
Proof.
  cbn [perform]. unfold DraftPolicy. apply (wp_refuse d); [stays|]. intros _. apply (wp_refuse d); [stays|]. intros _.
  apply wp_begin; [stays|]. intros n'. apply wp_authorize; [stays|auto|]. intros i t a n2 actor Hau Hat Hid.
  set (p1 := MkAdminPolicy "" (PoID p) (Key p) (PoVersion p) (Definition_ p) (Excess p) (Source p) (Evidence p) (ContentHash p)
    (ActorID actor) "" "" Draft (iadd expected 1)).
  assert (∀ n, (0 < expected → ∃ old, policies d !! PoID p = Some old ∧ Author old = IdID i ∧ State old ≠ Published) →
    wp (_ ← (mret tt : Act unit); c ← hashed canonical p1; _ ← SavePolicy fault (set ContentHash (λ _, c) p1) expected; Commit fault)
      (ends_in d (DraftP se p expected)) (MkSite d (logged a d) n)) as Hrest.
  { intros n3 Hold. apply wp_bind, wp_ret. cbn [bound]. unfold hashed. destruct (PolicyContentHash canonical p1) as [c|] eqn:Ec; [|apply S_nothing].
    apply wp_bind, wp_ret. cbn [bound]. apply wp_save_policy; [stays|]. intros n4 Hx. apply wp_commit; [stays|]. intros n5.
    unfold ends_in. cbn [db]. apply (S_drafted canonical d se p expected i t a); try done.
    cbn in Hx. destruct (policies d !! PoID p) as [old|]; [|done]. destruct Hx as [Hlt Hr].
    destruct (Hold Hlt) as (old' & [= <-] & ? & ?). done. }
  destruct (Z.ltb_spec 0 expected) as [He|He]; [|apply Hrest; lia].
  apply wp_bind. apply (wp_row _ d (λ d, policies d !! PoID p)); [stays|]. intros old n3 Ho.
  unfold refuse_if. destruct (negb (String.eqb (Author old) (ActorID actor)) || bool_decide (State old = Published)) eqn:E; [apply S_nothing|].
  apply orb_false_iff in E as [E1%negb_false_iff%String.eqb_eq E2%bool_decide_eq_false]. apply (Hrest n3).
  intros _. exists old. split; [done|]. split; [congruence|done].
Qed.

Lemma advance_sanctioned se id expected hash (publish : bool) d w n : filed d →
  let o := if publish then Publish se id expected hash else Review se id expected hash in
  wp (run o) (ends_in d o) (MkSite d w n).
Proof.
  intros Hf o.
  enough (wp (advancePolicy fault clock ready canonical signPolicy se id expected hash publish) (ends_in d o) (MkSite d w n)) as H
    by (unfold o in *; destruct publish; exact H).
  apply wp_transaction. intros n'. apply wp_authorize; [stays|auto|]. intros i t a n2 actor Hau Hat Hid.
  apply (wp_row _ d (λ d, policies d !! id)); [stays|]. intros p n3 Hp. pose proof (fl_policies d Hf id p Hp) as Hpid.
  unfold hashed. destruct (PolicyContentHash canonical p) as [c|] eqn:Ec; [|apply S_nothing]. apply wp_bind, wp_ret. cbn [bound].
  apply (wp_refuse d); [stays|].
  intros [[Hr%negb_false_iff%Z.eqb_eq Hh%negb_false_iff%String.eqb_eq]%orb_false_iff Hc%negb_false_iff%String.eqb_eq]%orb_false_iff.
  apply (wp_refuse d); [stays|]. rewrite Hid. intros [Hev Hau'%String.eqb_neq]%orb_false_iff. apply wp_bind. unfold o in *. destruct publish.
  - apply (wp_refuse d); [stays|].
    intros [[Hst%negb_false_iff%bool_decide_eq_true Hrv%String.eqb_neq]%orb_false_iff Hra%String.eqb_neq]%orb_false_iff.
    destruct signPolicy as [sign|]; [|apply S_nothing]. destruct (sign (ContentHash p)) as [e|sig]; [apply S_nothing|]. cbv zeta.
    apply wp_insert_row; [stays|]. intros n4 Hrows. apply wp_ret. cbn [bound]. apply wp_save_policy; [stays|]. intros n5 _.
    apply wp_commit; [stays|]. intros n6. unfold ends_in. cbn [db]. subst c.
    by apply (S_published canonical d se id expected hash i t a p sig).
  - apply (wp_refuse d); [stays|]. intros Hst%negb_false_iff%bool_decide_eq_true. apply wp_ret. cbn [bound].
    apply wp_save_policy; [stays|]. intros n5 _. apply wp_commit; [stays|]. intros n6. unfold ends_in. cbn [db]. subst c.
    by apply (S_reviewed canonical d se id expected hash i t a p).
Qed.

Lemma perform_sanctioned o s r s' : filed (db s) → run o s = (r, s') → rule (db s) o (db s').
Proof.
  intros Hf H. destruct s as [d w n]. cbn [db] in *.
  enough (wp (run o) (ends_in d o) (MkSite d w n)) as Hw by (unfold wp in Hw; rewrite H in Hw; exact Hw).
  destruct o.
  - apply Bootstrap_sanctioned.
  - apply Access_sanctioned.
  - apply ChangeId_sanctioned.
  - by apply Enroll_sanctioned.
  - apply Consume_sanctioned.
  - apply Record_sanctioned.
  - apply ReadAudit_sanctioned.
  - apply ReadPolicy_sanctioned.
  - apply DraftP_sanctioned.
  - by apply (advance_sanctioned _ _ _ _ false).
  - by apply (advance_sanctioned _ _ _ _ true).
Qed.
End Service.

(** * What the rules keep *)

Section Kept.
Context (seeds : list PolicyRow) (canonical : PolicyPayload → option string).
#[local] Abbreviation rule := (sanctioned canonical).
#[local] Abbreviation content := (PolicyContentHash canonical).

(** A policy past review was reviewed by another than its author, on evidence,
    for this very content; one that is out was let out by another too, and its
    row is the one the ledger reads. *)
Record vetted (d : store) (p : AdminPolicy) : Prop := {
  vt_reviewer : State p = Reviewed ∨ State p = Published → Reviewer p ≠ "" ∧ Reviewer p ≠ Author p;
  vt_evidence : State p = Reviewed ∨ State p = Published → blank (Evidence p) = false;
  vt_content : State p = Reviewed ∨ State p = Published → content p = Some (ContentHash p);
  vt_publisher : State p = Published → Publisher p ≠ "" ∧ Publisher p ≠ Author p;
  vt_row : State p = Published → row_of p ∈ rows d }.

Record kept (d : store) : Prop := {
  kp_filed : filed d;
  kp_vetted : ∀ id p, policies d !! id = Some p → vetted d p;
  kp_rows : ∃ l, rows d = seeds ++ l ∧
    ∀ r, r ∈ l → ∃ p, policies d !! rw_id r = Some p ∧ State p = Published ∧ row_of p = r;
  kp_counters : ∀ id, is_Some (identities d !! id) ↔ is_Some (counters d !! id) }.

Lemma authority_named d se cap i t : authority d se cap i t → IdID i ≠ "".
Proof.
  intros (s & _ & _ & _ & _ & _ & _ & Ha) E. unfold Authorize in Ha. cbn [ActorID] in Ha. by rewrite E in Ha.
Qed.
Lemma authority_known d se cap i t : filed d → authority d se cap i t → identities d !! IdID i = Some i.
Proof. intros Hf (s & _ & _ & Hi & _). by rewrite (fl_identities d Hf _ _ Hi). Qed.

Lemma kept_seeded : kept (seeded seeds).
Proof.
  split; [split| | |]; cbn.
  - intros k i H. by rewrite lookup_empty in H.
  - intros k p H. by rewrite lookup_empty in H.
  - intros id p H. by rewrite lookup_empty in H.
  - exists []. split; [by rewrite app_nil_r|]. intros r H. by apply not_elem_of_nil in H.
  - intros id. rewrite !lookup_empty. done.
Qed.

Lemma kept_logged e d : kept d → kept (logged e d).
Proof.
  intros [[Hi Hp] Hv Hr Hc]. split; [by split| |done|done].
  intros id p H. destruct (Hv id p H). by split.
Qed.

(** An identity is filed, with a counter if it is new. *)
Lemma kept_identity d i : kept d → is_Some (identities d !! IdID i) → kept (put_identity i d).
Proof.
  intros [[Hi Hp] Hv Hr Hc] Hs. split; [split| |done|].
  - intros k j H. change (<[IdID i := i]> (identities d) !! k = Some j) in H.
    apply lookup_insert_Some in H as [[<- <-]|[_ H]]; [done|eauto].
  - done.
  - intros id p H. destruct (Hv id p H). by split.
  - intros id. change (is_Some (<[IdID i := i]> (identities d) !! id) ↔ is_Some (counters d !! id)). rewrite <- Hc.
    destruct (decide (id = IdID i)) as [->|Hne]; [rewrite lookup_insert_eq; by split; [|eauto]|by rewrite lookup_insert_ne].
Qed.
Lemma kept_new d i : kept d → kept (set counters (<[IdID i := -1]>) (put_identity i d)).
Proof.
  intros [[Hi Hp] Hv Hr Hc]. split; [split| |done|].
  - intros k j H. change (<[IdID i := i]> (identities d) !! k = Some j) in H.
    apply lookup_insert_Some in H as [[<- <-]|[_ H]]; [done|eauto].
  - done.
  - intros id p H. destruct (Hv id p H). by split.
  - intros id. change (is_Some (<[IdID i := i]> (identities d) !! id) ↔ is_Some (<[IdID i := -1]> (counters d) !! id)).
    destruct (decide (id = IdID i)) as [->|Hne]; [rewrite !lookup_insert_eq; by split|by rewrite !lookup_insert_ne].
Qed.
Lemma kept_consumed d id c : kept d → is_Some (identities d !! id) → kept (set counters (<[id := c]>) d).
Proof.
  intros [[Hi Hp] Hv Hr Hc] Hs. split; [by split| |done|].
  - intros id' p H. destruct (Hv id' p H). by split.
  - intros id'. change (is_Some (identities d !! id') ↔ is_Some (<[id := c]> (counters d) !! id')).
    destruct (decide (id' = id)) as [->|Hne]; [rewrite lookup_insert_eq; by split; [|]|by rewrite lookup_insert_ne].
Qed.

(** A policy is filed over one that is not out, with the rows [l] added for it. *)
Lemma kept_policy d p (l : list PolicyRow) : kept d →
  (∀ old, policies d !! PoID p = Some old → State old ≠ Published) →
  (∀ r, r ∈ l → rw_id r = PoID p ∧ State p = Published ∧ row_of p = r) →
  vetted (put_policy p (set rows (λ r, r ++ l) d)) p → kept (put_policy p (set rows (λ r, r ++ l) d)).
Proof.
  intros [[Hi Hp] Hv (l0 & Hrows & Hr) Hc] Hold Hl Hvet. split; [split; [done|]| | |done].
  - intros k q H. change (<[PoID p := p]> (policies d) !! k = Some q) in H.
    apply lookup_insert_Some in H as [[<- <-]|[_ H]]; [done|eauto].
  - intros k q H. change (<[PoID p := p]> (policies d) !! k = Some q) in H.
    apply lookup_insert_Some in H as [[<- <-]|[_ H]]; [done|].
    destruct (Hv k q H) as [H1 H2 H3 H4 H5]. split; [done..|]. intros Hst.
    change (row_of q ∈ rows d ++ l). apply elem_of_app. left. auto.
  - exists (l0 ++ l). split; [change (rows d ++ l = seeds ++ l0 ++ l); by rewrite Hrows, app_assoc|].
    intros r H. apply elem_of_app in H as [H|H].
    + destruct (Hr r H) as (q & Hq & Hst & Hrow). exists q. split; [|done].
      change (<[PoID p := p]> (policies d) !! rw_id r = Some q). rewrite lookup_insert_ne; [done|].
      intros E. rewrite <- E in Hq. by apply Hold in Hq.
    + destruct (Hl r H) as (Hid & Hst & Hrow). exists p. split; [|done].
      change (<[PoID p := p]> (policies d) !! rw_id r = Some p). by rewrite Hid, lookup_insert_eq.
Qed.

Lemma kept_refiled d p : kept d → (∀ old, policies d !! PoID p = Some old → State old ≠ Published) →
  vetted (put_policy p d) p → kept (put_policy p d).
Proof.
  intros HK Hold Hv. pose proof (kept_policy d p [] HK Hold) as H.
  assert (set rows (λ r, r ++ []) d = d) as E by (destruct d; cbn; unfold set; cbn; by rewrite app_nil_r).
  rewrite E in H. apply H; [|done]. intros r Hr. by apply not_elem_of_nil in Hr.
Qed.

Lemma kept_rule d o d' : kept d → rule d o d' → kept d'.
Proof.
  intros HK H. pose proof (kp_filed d HK) as Hf. destruct H as
    [o|o e|id He id'|se id expected i t e Ha Hat Hne Hn id'|se id expected i t e old id' Ha Hat Hne Ho Hv Hlt Hid _ _ _ _
    |se secret i e Hi _ _ _ _ _ _ _ _|id version counter i last Hi _ _ _ _
    |se p expected i t e p' Ha Hat Hold Hpay Hau Hst Hrv Hpu Hsg Hct Hrev
    |se id expected hash i t e p Ha Hat Hp Hr Hc Hh Hev Hne Hst
    |se id expected hash i t e p sig Ha Hat Hp Hr Hc Hh Hev Hne Hst Hrv Hra Hrows].
  - done.
  - by apply kept_logged.
  - by apply (kept_new d id').
  - by apply (kept_new (logged e d) id'), kept_logged.
  - apply kept_identity; [by apply kept_logged|]. rewrite Hid. by exists old.
  - apply kept_logged. apply (kept_identity d (set TOTPSecret (λ _, secret) (set IdVersion (λ v, iadd v 1) i))); [done|].
    change (is_Some (identities d !! IdID i)). rewrite (fl_identities d Hf _ _ Hi). by exists i.
  - by apply kept_consumed.
  - apply kept_refiled; [by apply kept_logged| |].
    + change (∀ old, policies d !! PoID p' = Some old → State old ≠ Published). intros old Ho. injection Hpay as Hid _ _ _ _ _ _.
      rewrite Hid in Ho. rewrite Ho in Hold. apply Hold.
    + split; rewrite Hst; try (by intros [|]); done.
  - pose proof (fl_policies d Hf id p Hp) as Hid. apply kept_refiled; [by apply kept_logged| |].
    + cbn. rewrite Hid, Hp. intros old [= <-]. by rewrite Hst.
    + split; cbn; try done.
      * intros _. split; [by eapply authority_named|done].
      * intros _. by rewrite Hh.
  - pose proof (fl_policies d Hf id p Hp) as Hid.
    destruct (kp_vetted d HK id p Hp) as [Hrr _ _ _ _].
    apply (kept_policy (logged e d) _ [row_of p]); [by apply kept_logged| | |].
    + cbn. rewrite Hid, Hp. intros old [= <-]. by rewrite Hst.
    + intros r ->%list_elem_of_singleton. by split.
    + split; cbn; try done.
      * intros _. by rewrite Hh.
      * intros _. split; [by eapply authority_named|done].
      * intros _. apply elem_of_app. right. by apply list_elem_of_singleton.
Qed.
End Kept.

(** * Properties *)

Section Properties.
Context (seeds : list PolicyRow) (fault : nat → option string) (clock : nat → Z) (ready : bool).
Context (valid_json : string → bool) (canonical : PolicyPayload → option string).
Context (signPolicy : option (string → aerror + string)).
#[local] Abbreviation run := (perform fault clock ready valid_json canonical signPolicy).
#[local] Abbreviation serves := (served fault clock ready valid_json canonical signPolicy).

(** What a service that began with its seeded tables may come to. *)
Definition reached (s : site) : Prop := rtc serves (MkSite (seeded seeds) (seeded seeds) 0) s.
#[local] Abbreviation kept := (kept seeds).

Lemma serves_rule s s' : kept canonical (db s) → serves s s' → ∃ o, sanctioned canonical (db s) o (db s').
Proof. intros HK (o & r & H). exists o. apply (perform_sanctioned _ _ _ _ _ _ _ _ _ _ (kp_filed _ _ _ HK) H). Qed.
Lemma serves_kept s s' : kept canonical (db s) → rtc serves s s' → kept canonical (db s').
Proof.
  intros HK H. induction H as [|x y z Hxy _ IH]; [done|]. apply IH.
  destruct (serves_rule x y HK Hxy) as [o Ho]. by eapply kept_rule.
Qed.
Lemma reached_kept s : reached s → kept canonical (db s).
Proof. apply serves_kept, kept_seeded. Qed.

(** What one use case leaves as it is. *)
Record stays_put (d d' : store) : Prop := {
  sp_policies : ∀ id p, policies d !! id = Some p → State p = Published → policies d' !! id = Some p;
  sp_rows : rows d `prefix_of` rows d';
  sp_audits : audits d `prefix_of` audits d';
  sp_history : history d `prefix_of` history d';
  sp_counters : ∀ id n, counters d !! id = Some n → ∃ n', counters d' !! id = Some n' ∧ n ≤ n' }.

#[export] Instance stays_put_preorder : PreOrder stays_put.
Proof.
  split.
  - intros d. split; [done..|]. intros id n Hn. by exists n.
  - intros d1 d2 d3 [P1 P2 P3 P4 P5] [Q1 Q2 Q3 Q4 Q5]. split; [eauto|by etrans..|].
    intros id n Hn. destruct (P5 id n Hn) as (m & Hm & Hle). destruct (Q5 id m Hm) as (m' & Hm' & Hle').
    exists m'. split; [done|lia].
Qed.

Lemma put_logged e d : stays_put d (logged e d).
Proof. split; try done; [by apply prefix_app_r|]. intros id n Hn. by exists n. Qed.
Lemma put_put_identity i d : stays_put d (put_identity i d).
Proof. split; try done. intros id n Hn. by exists n. Qed.
Lemma put_counter id c d : (∀ n, counters d !! id = Some n → n ≤ c) → stays_put d (set counters (<[id := c]>) d).
Proof.
  intros Hc. split; try done. intros id' n Hn.
  change (∃ n', <[id := c]> (counters d) !! id' = Some n' ∧ n ≤ n'). destruct (decide (id' = id)) as [->|Hne].
  - exists c. rewrite lookup_insert_eq. auto.
  - exists n. by rewrite lookup_insert_ne.
Qed.
Lemma put_rows l d : stays_put d (set rows (λ r, r ++ l) d).
Proof. split; try done; [by apply prefix_app_r|]. intros id n Hn. by exists n. Qed.
Lemma put_put_policy p d : (∀ old, policies d !! PoID p = Some old → State old ≠ Published) → stays_put d (put_policy p d).
Proof.
  intros Hold. split; try done.
  - intros id q Hq Hst. change (<[PoID p := p]> (policies d) !! id = Some q). rewrite lookup_insert_ne; [done|].
    intros <-. by apply Hold in Hq.
  - by apply prefix_app_r.
  - intros id n Hn. by exists n.
Qed.
(** A counter starts for an identity that was not there. *)
Lemma put_new d e i c : kept canonical d → identities d !! i = None →
  stays_put d e → counters e = counters d → stays_put d (set counters (<[i := c]>) e).
Proof.
  intros HK Hi He Hce. etrans; [exact He|]. apply put_counter. intros n Hn. rewrite Hce in Hn.
  assert (is_Some (identities d !! i)) as [j Hj] by (apply (kp_counters _ _ d HK); eauto). congruence.
Qed.

Lemma rule_stays_put d o d' : kept canonical d → sanctioned canonical d o d' → stays_put d d'.
Proof.
  intros HK H. pose proof (kp_filed _ _ d HK) as Hf.
  destruct H as
    [o|o e|id He id'|se id expected i t e Ha Hat Hne Hn id'|se id expected i t e old id' Ha Hat Hne Ho Hv Hlt Hid _ _ _ _
    |se secret i e Hi _ _ _ _ _ _ _ _|id version counter i last Hi _ _ Hl Hlt
    |se p expected i t e p' Ha Hat Hold Hpay Hau Hst Hrv Hpu Hsg Hct Hrev
    |se id expected hash i t e p Ha Hat Hp Hr Hch Hh Hev Hne Hst
    |se id expected hash i t e p sig Ha Hat Hp Hr Hch Hh Hev Hne Hst Hrv Hra Hrows].
  - done.
  - apply put_logged.
  - apply put_new; [done|by rewrite He, lookup_empty|apply put_put_identity|done].
  - apply put_new; [done|exact Hn|etrans; [apply put_logged|apply put_put_identity]|done].
  - etrans; [apply put_logged|apply put_put_identity].
  - etrans; [apply put_put_identity|apply put_logged].
  - apply put_counter. intros n Hn. assert (n = last) as -> by congruence. lia.
  - etrans; [apply put_logged|apply put_put_policy]. intros old Ho. injection Hpay as Hid _ _ _ _ _ _.
    rewrite Hid in Ho. change (policies d !! PoID p = Some old) in Ho. rewrite Ho in Hold. apply Hold.
  - etrans; [apply put_logged|apply put_put_policy]. intros old Ho. change (policies d !! PoID p = Some old) in Ho.
    rewrite (fl_policies d Hf id p Hp), Hp in Ho. injection Ho as <-. by rewrite Hst.
  - etrans; [apply put_logged|]. etrans; [apply (put_rows [row_of p])|apply put_put_policy]. intros old Ho.
    change (policies d !! PoID p = Some old) in Ho. rewrite (fl_policies d Hf id p Hp), Hp in Ho. injection Ho as <-. by rewrite Hst.
Qed.
Lemma serves_stays_put s s' : kept canonical (db s) → rtc serves s s' → stays_put (db s) (db s').
Proof.
  intros HK H. induction H as [x|x y z Hxy Hyz IH]; [done|]. destruct (serves_rule x y HK Hxy) as [o Ho].
  etrans; [by eapply rule_stays_put|]. apply IH. by eapply kept_rule.
Qed.

Lemma consumed id version counter s s' : run (Consume id version counter) s = (inr tt, s') →
  ∃ last, counters (db s) !! id = Some last ∧ last < counter ∧ counters (db s') !! id = Some counter.
Proof.
  intros H. destruct s as [d w n].
  enough (wp (run (Consume id version counter)) (λ r s', r = inr tt → ∃ last, counters d !! id = Some last ∧ last < counter ∧
    counters (db s') !! id = Some counter) (MkSite d w n)) as Hw by (unfold wp in Hw; rewrite H in Hw; exact (Hw eq_refl)).
  cbn [perform]. unfold ConsumeOTP, transaction. apply (wp_refuse d); [intros ? ? ?; done|]. intros _.
  apply wp_begin; [intros ? ? ?; done|]. intros n'. apply wp_query. apply (wp_refuse d); [intros ? ? ?; done|]. intros Hb.
  destruct (identities d !! id) as [i|]; [|done]. destruct (counters d !! id) as [last|] eqn:El; [|done].
  apply orb_false_iff in Hb as [_ Hlt%negb_false_iff%Z.ltb_lt]. apply wp_change, wp_commits. intros _. exists last.
  split; [done|]. split; [done|]. cbn. by rewrite lookup_insert_eq.
Qed.

(** The change was made by somebody entitled to it, and the attempt is the entry
    the audit gained. *)
Definition by_right (caps : list AdminCapability) (d d' : store) : Prop :=
  ∃ cap se i t e target, cap ∈ caps ∧ authority d se cap i t ∧ attempt e i cap target ∧ audits d' = audits d ++ [e].
Lemma entitled caps d d' cap se i t e target :
  cap ∈ caps → authority d se cap i t → attempt e i cap target → audits d' = audits d ++ [e] → by_right caps d d'.
Proof. intros. by exists cap, se, i, t, e, target. Qed.
(** The first identity, when there is none yet. *)
Definition bootstraps (o : op) (d : store) : Prop := identities d = ∅ ∧ ∃ id, o = Bootstrap id.
(** An enabled identity that is not enrolled yet takes its own secret, in the
    provisional session its password opened, and the audit says so. *)
Definition enrols_itself (o : op) (d d' : store) : Prop :=
  ∃ se secret i e, o = Enroll (Some se) secret ∧ Strong se = false ∧ identities d !! IdentityID se = Some i ∧
    Enabled i = true ∧ TOTPSecret i = "" ∧ IdVersion i = SeVersion se ∧
    identities d' = <[IdID i := set TOTPSecret (λ _, secret) (set IdVersion (λ v, iadd v 1) i)]> (identities d) ∧
    AuActor e = IdID i ∧ AuOutcome e = "completed" ∧ audits d' = audits d ++ [e].
(** A later code of an enabled identity is used up. *)
Definition uses_code (o : op) (d d' : store) : Prop :=
  ∃ id version counter i last, o = Consume id version counter ∧ identities d !! id = Some i ∧ Enabled i = true ∧
    IdVersion i = version ∧ counters d !! id = Some last ∧ last < counter ∧ counters d' = <[id := counter]> (counters d).

(** C12. Nothing changes but by the rules. Whatever statement of a use case fails,
    the tables it leaves are the ones it found, or follow from them by one of the
    rules of [sanctioned]. In particular policies, their history and the rows of
    the ledger change only by the hand of an enabled, enrolled identity whose role
    grants the capability, stepped up where it has to be, with the audit entry of
    the attempt; identities change in the same way, or by the bootstrap of a
    service without any (which leaves no audit entry), or because somebody who is
    not enrolled yet enrols themselves (audited, no capability asked); and one-time
    counters change with a new identity, or because a later code was used (neither
    capability nor audit entry). *)
Theorem use_cases_follow_rules o s r s' :
  reached s → run o s = (r, s') →
  let d := db s in let d' := db s' in
  sanctioned canonical d o d' ∧
  (policies d' ≠ policies d ∨ history d' ≠ history d → by_right [CapPolicyReview; CapPolicyPublish] d d') ∧
  (rows d' ≠ rows d → by_right [CapPolicyPublish] d d') ∧
  (identities d' ≠ identities d → by_right [CapRoleChanges] d d' ∨ bootstraps o d ∨ enrols_itself o d d') ∧
  (counters d' ≠ counters d → by_right [CapRoleChanges] d d' ∨ bootstraps o d ∨ uses_code o d d').
Proof.
  intros HK%reached_kept Hrun. cbv zeta.
  pose proof (perform_sanctioned _ _ _ _ _ _ _ _ _ _ (kp_filed _ _ _ HK) Hrun) as H. split; [exact H|].
  destruct H; split_and!; intros Hne; try (exfalso; cbn in Hne; tauto).
  all: try (right; left; split; [done|by eexists]).
  all: try (left; eapply entitled; [|done|done|done]; by left).
  all: try (eapply entitled; [|done|done|done]; solve [left|right; left]).
  - right; right. pose proof (fl_identities _ (kp_filed _ _ _ HK) _ _ H). exists se, secret, i, e. by split_and!.
  - right; right. exists id, version, counter, i, last0. by split_and!.
Qed.

(** C13. Two persons stand behind every allocation rule that did not come with the
    program. The rows the ledger can read are the ones the service began with,
    which its migrations insert without any draft, review or release, followed by
    rows of published policies only: somebody other than its author reviewed each
    of them, on evidence, and somebody other than its author let it out; and the
    hash they agreed on is the hash of this very content. *)
Theorem two_persons s :
  reached s → ∃ l, rows (db s) = seeds ++ l ∧
  ∀ r, r ∈ l → ∃ p, policies (db s) !! rw_id r = Some p ∧ row_of p = r ∧ State p = Published ∧
    (Reviewer p ≠ "" ∧ Reviewer p ≠ Author p) ∧ (Publisher p ≠ "" ∧ Publisher p ≠ Author p) ∧
    blank (Evidence p) = false ∧ PolicyContentHash canonical p = Some (ContentHash p).
Proof.
  intros HK%reached_kept. destruct (kp_rows _ _ _ HK) as (l & Hrows & Hl). exists l. split; [done|].
  intros r (p & Hp & Hst & Hrow)%Hl. destruct (kp_vetted _ _ _ HK _ _ Hp) as [H1 H2 H3 H4 _]. exists p. by auto 10.
Qed.

(** C18. What is out stays out, as it is. A published policy is never changed or
    withdrawn, and the rows of the ledger, the audit and the history only grow,
    whatever the service does from then on. *)
Theorem record_is_final s s' :
  reached s → rtc serves s s' →
  (∀ id p, policies (db s) !! id = Some p → State p = Published → policies (db s') !! id = Some p) ∧
  rows (db s) `prefix_of` rows (db s') ∧ audits (db s) `prefix_of` audits (db s') ∧
  history (db s) `prefix_of` history (db s').
Proof. intros HK%reached_kept H. by destruct (serves_stays_put _ _ HK H). Qed.

(** C19. A one-time code opens one session. After a counter has been accepted for
    an identity, only later counters are, whatever happens in between. *)
Theorem otp_once id version version' n n' s s1 s2 s3 :
  reached s → run (Consume id version n) s = (inr tt, s1) → rtc serves s1 s2 →
  run (Consume id version' n') s2 = (inr tt, s3) → n < n'.
Proof.
  intros HK%reached_kept H1 Hrtc H2. destruct (consumed _ _ _ _ _ H1) as (_ & _ & _ & Hn).
  assert (kept canonical (db s1)) as HK1 by (apply (serves_kept s s1 HK), rtc_once; by exists (Consume id version n), (inr tt)).
  destruct (sp_counters _ _ (serves_stays_put _ _ HK1 Hrtc) _ _ Hn) as (m & Hm & Hle).
  destruct (consumed _ _ _ _ _ H2) as (m' & Hm' & Hlt & _). assert (m' = m) as -> by congruence. lia.
Qed.
End Properties.

(** * A policy goes out *)

Definition told_time (n : nat) : Z := 1000 + Z.of_nat n.
Definition as_text (p : PolicyPayload) : option string := Some (pl_id p +:+ ":" +:+ pl_definition p).
(** The rule a migration inserts. *)
Definition shipped : list PolicyRow :=
  [MkRow "2015" "am-consumer-credit-prepayment" 1 "costs, interest, principal" "reduce_principal" "cba.am"].
Definition performed : op → Act unit :=
  perform (λ _, None) told_time true (λ _, true) as_text (Some (λ h, inr h)).
Definition serves_sample : site → site → Prop :=
  served (λ _, None) told_time true (λ _, true) as_text (Some (λ h, inr h)).
Definition after (ops : list op) : site := foldl (λ s o, snd (performed o s)) (MkSite (seeded shipped) (seeded shipped) 0) ops.

Definition session (id purpose : string) : option AdminSession := Some (MkSession id 2 true 1000 purpose).
Definition newcomer (id role : string) : AdminIdentity := MkIdentity id id "hash" "" [role] 0 true.
Definition enrolls (id : string) : op := Enroll (Some (MkSession id 1 false 0 "")) "secret".
Definition sample_policy : AdminPolicy :=
  MkAdminPolicy "" "rule" "bank" 1 "{}" "unknown" "contract" "letter" "" "" "" "" Draft 0.
Definition sample_hash : string := default "" (PolicyContentHash as_text sample_policy).
Definition staffed : list op :=
  [Bootstrap (newcomer "root" ""); enrolls "root";
   ChangeId (session "root" "") (newcomer "ann" AdminRoleFinancialVerifier) 0;
   ChangeId (session "root" "") (newcomer "ben" AdminRoleFinancialVerifier) 0;
   ChangeId (session "root" "") (newcomer "cid" AdminRolePolicyPublisher) 0;
   enrolls "ann"; enrolls "ben"; enrolls "cid"].
Definition published : list op :=
  staffed ++ [DraftP (session "ann" "new bank") sample_policy 0; Review (session "ben" "new bank") "rule" 1 sample_hash;
              Publish (session "cid" "") "rule" 2 sample_hash].

Lemma after_snoc ops o : after (ops ++ [o]) = snd (performed o (after ops)).
Proof. unfold after. by rewrite foldl_app. Qed.
Lemma after_reached ops more : rtc serves_sample (after ops) (after (ops ++ more)).
Proof.
  revert ops. induction more as [|o more IH]; intros ops; [by rewrite app_nil_r|].
  rewrite cons_middle, app_assoc. eapply rtc_l; [|apply IH].
  rewrite after_snoc. exists o, (fst (performed o (after ops))). unfold performed. by destruct (perform _ _ _ _ _ _ o _).
Qed.
Lemma after_from_nothing ops : reached shipped (λ _, None) told_time true (λ _, true) as_text (Some (λ h, inr h)) (after ops).
Proof. apply (after_reached []). Qed.

Lemma two_persons_witness :
  ∃ r p, rows (db (after published)) = shipped ++ [r] ∧ policies (db (after published)) !! rw_id r = Some p ∧
    State p = Published ∧ Reviewer p ≠ Author p ∧ Publisher p ≠ Author p.
Proof.
  assert (Nat.eqb (length (rows (db (after published)))) 2 = true) as Hl by (vm_compute; reflexivity).
  destruct (two_persons shipped _ _ _ _ _ _ (after published) (after_from_nothing published)) as (l & Hrows & H).
  rewrite Hrows in *. destruct l as [|r [|]]; try discriminate Hl.
  destruct (H r) as (p & Hp & _ & Hst & [_ Hr] & [_ Hq] & _); [left|].
  exists r, p. split; [reflexivity|]. split; [exact Hp|]. split; [exact Hst|]. split; [exact Hr|exact Hq].
Defined.

Lemma use_cases_follow_rules_witness :
  let o := DraftP (session "ann" "new bank") sample_policy 0 in
  by_right [CapPolicyReview; CapPolicyPublish] (db (after staffed)) (db (snd (performed o (after staffed)))).
Proof.
  cbv zeta.
  apply (use_cases_follow_rules shipped (λ _, None) told_time true (λ _, true) as_text (Some (λ h, inr h))
    (DraftP (session "ann" "new bank") sample_policy 0) _
    (fst (performed (DraftP (session "ann" "new bank") sample_policy 0) (after staffed)))).
  - apply after_from_nothing.
  - unfold performed. destruct (perform _ _ _ _ _ _ _ (after staffed)). reflexivity.
  - right. vm_compute. discriminate.
Defined.

Definition redraft : op := DraftP (session "ann" "again") sample_policy 3.
Lemma record_is_final_witness :
  ∃ p, policies (db (after published)) !! "rule" = Some p ∧ State p = Published ∧
    policies (db (after (published ++ [redraft]))) !! "rule" = Some p.
Proof.
  assert (match policies (db (after published)) !! "rule" with Some p => bool_decide (State p = Published) | None => false end = true)
    as Hb by (vm_compute; reflexivity).
  destruct (policies (db (after published)) !! "rule") as [p|] eqn:Ep; [|discriminate Hb].
  apply bool_decide_eq_true in Hb. exists p. split; [reflexivity|]. split; [exact Hb|].
  pose proof (record_is_final shipped (λ _, None) told_time true (λ _, true) as_text (Some (λ h, inr h)) (after published)
    (after (published ++ [redraft])) (after_from_nothing published) (after_reached published [redraft])) as H.
  exact (proj1 H "rule" p Ep Hb).
Defined.

Lemma otp_once_witness :
  fst (performed (Consume "ann" 2 7) (after staffed)) = inr tt ∧
  fst (performed (Consume "ann" 2 9) (after (staffed ++ [Consume "ann" 2 7]))) = inr tt ∧ 7 < 9.
Proof.
  assert (fst (performed (Consume "ann" 2 7) (after staffed)) = inr tt) as H1 by (vm_compute; reflexivity).
  assert (fst (performed (Consume "ann" 2 9) (after (staffed ++ [Consume "ann" 2 7]))) = inr tt) as H2 by (vm_compute; reflexivity).
  split; [exact H1|]. split; [exact H2|].
  pose proof (after_from_nothing staffed) as HR.
  rewrite after_snoc in H2.
  revert HR H1 H2. generalize (after staffed). intros s HR H1 H2.
  unfold performed in H1, H2.
  match type of H1 with context [fst ?t] => destruct t as [r1 s1] eqn:E1 end. cbn [fst snd] in H1, H2. 
  match type of H2 with context [fst ?t] => destruct t as [r2 s2] eqn:E2 end. cbn [fst snd] in H2. 
  subst r1 r2.
  exact (otp_once shipped _ _ _ _ _ _ "ann" 2 2 7 9 s s1 s1 s2 HR E1 (rtc_refl _ _) E2).
Defined.
