(* ===== verification/Inbox.v ===== *)
(** [internal/app/inbox.go], the loop of [internal/app/worker.go] around a
    command, and the statements of [internal/adapter/out/postgres/inbox.go] with
    the two an operator has: the durable inbox, its leases and their fences.

    A world is the table of commands, the time, and the goroutines that hold
    leases; every statement is one step, and so is every move of a goroutine from
    one call to the next. What a command does, how long it takes, which rows other
    statements have locked, which process dies and which statement fails are the
    environment's choice. The theorems: a command is completed at most once, one
    goroutine works at it at a time, and it is not tried without end. *)
From S2P Require Import Prelude SimState.
From stdpp Require Import pretty.
#[local] Open Scope Z_scope.

(** * Data *)

(** Times and durations are nanoseconds; the zero time is 0. *)
Definition second : Z := 1000000000.

Record InboundCommand := MkCommand {
  CommandID : string; UpdateID : Z; CommandUser : string; CommandKind : string; CommandPayload : string;
  TraceContext : string; Attempts : Z; ReceivedAt : Z }.

Record Lease := MkLease { Command : InboundCommand; Token : string; Until : Z }.

Definition inboxRetention : Z := 7 * 24 * 3600 * second.
Definition MaxAttempts : Z := 5.
Definition RetryAfter (attempt : Z) : Z :=
  if attempt <=? 1 then 5 * second
  else if attempt =? 2 then 30 * second
  else if attempt =? 3 then 120 * second
  else 600 * second.
Definition LeaseFor : Z := 120 * second.

Inductive Status := Pending | Leased | Completed | Dead.
#[export] Instance Status_eq_dec : EqDecision Status.
Proof. solve_decision. Defined.

(** The three lease columns, set and cleared together. *)
Record Held := MkHeld { h_owner : string; h_token : string; h_until : Z }.

(** A row of [telegram_commands]. *)
Record CommandRow := MkRow {
  r_update : Z; r_user : option string; r_kind : string; r_payload : string; r_trace : option string;
  r_status : Status; r_attempts : Z; r_next : Z; r_held : option Held; r_received : Z;
  r_completed : option Z; r_error : option string }.
#[export] Instance CommandRow_eta : Eta CommandRow :=
  λ r, MkRow (r_update r) (r_user r) (r_kind r) (r_payload r) (r_trace r) (r_status r) (r_attempts r) (r_next r)
    (r_held r) (r_received r) (r_completed r) (r_error r).
Abbreviation table := (gmap string CommandRow).

Inductive ierror := ErrNotLeased | NoCommand | Failing (what : string).

(** * The statements *)

Definition nullable (s : string) : option string := if String.eqb s "" then None else Some s.

(** Whether the command is new. *)
Definition Enqueue (now : Z) (c : InboundCommand) (t : table) : result ierror (bool * table) :=
  if bool_decide (map_Exists (λ _ r, r_update r = UpdateID c) t) then Ok (false, t)
  else
    match t !! CommandID c with
    | Some _ => Err (Failing "duplicate key")
    | None =>
        Ok (true, <[CommandID c := MkRow (UpdateID c) (nullable (CommandUser c)) (CommandKind c) (CommandPayload c)
          (nullable (TraceContext c)) Pending 0 now None now None None]> t)
    end.

Definition claimable (now : Z) (r : CommandRow) : bool :=
  match r_status r with Pending | Leased => true | _ => false end &&
  (r_next r <=? now) && match r_held r with None => true | Some h => h_until h <? now end.

(** [attempts] is a [smallint]. *)
Definition claimed_row (owner token : string) (until : Z) (r : CommandRow) : result ierror CommandRow :=
  if 32767 <? r_attempts r + 1 then Err (Failing "smallint out of range")
  else Ok (set r_status (λ _, Leased) (set r_held (λ _, Some (MkHeld owner token until)) (set r_attempts (λ n, n + 1) r))).

(** What [RETURNING] shows. *)
Definition shown (id : string) (r : CommandRow) (token : string) (until : Z) : Lease :=
  MkLease (MkCommand id (r_update r) (default "" (r_user r)) (r_kind r) (r_payload r) (default "" (r_trace r))
    (r_attempts r) (r_received r)) token until.

(** [gen_random_uuid] and [uuid.NewString]: the k-th identifier drawn anywhere. *)
Fixpoint claim (uuid : nat → string) (k : nat) (owner : string) (until : Z) (ids : list string) (t : table) :
    result ierror (list Lease * table) :=
  match ids with
  | [] => Ok ([], t)
  | id :: ids =>
      match t !! id with
      | None => claim uuid k owner until ids t
      | Some r =>
          r ← claimed_row owner (uuid k) until r;
          '(ls, t) ← claim uuid (S k) owner until ids (<[id := r]> t);
          Ok (shown id r (uuid k) until :: ls, t)
      end
  end.

(** The order a table is read in. *)
Definition scan : Type := table → list (string * CommandRow).
Definition by_next (a b : string * CommandRow) : bool := r_next (snd a) <? r_next (snd b).

(** [FOR UPDATE SKIP LOCKED]: the rows [locked] by other statements are passed over. *)
Definition due_ids (now : Z) (n : nat) (locked : list string) (by_ : scan) (t : table) : list string :=
  fst <$> take n (SliceStable by_next
    (List.filter (λ kr, claimable now (snd kr) && negb (bool_decide (fst kr ∈ locked))) (by_ t))).

Definition LeaseDue (uuid : nat → string) (k : nat) (now : Z) (owner : string) (n : nat) (until : Z) (locked : list string)
    (by_ : scan) (t : table) : result ierror (list Lease * table) :=
  claim uuid k owner until (due_ids now n locked by_ t) t.

(** At most one lease: [false] is the empty list. *)
Definition LeaseByID (uuid : nat → string) (k : nat) (now : Z) (id owner : string) (until : Z) (t : table) :
    result ierror (list Lease * table) :=
  claim uuid k owner until
    (match t !! id with Some r => if claimable now r then [id] else [] | None => [] end) t.

(** The update the fence guards. *)
Definition held_by (token : string) (r : CommandRow) : bool :=
  match r_held r with Some h => String.eqb (h_token h) token | None => false end.
Definition fenced (id token : string) (f : CommandRow → CommandRow) (t : table) : result ierror table :=
  match t !! id with
  | Some r => if held_by token r then Ok (<[id := f r]> t) else Err ErrNotLeased
  | None => Err ErrNotLeased
  end.

Definition Complete (now : Z) (id token : string) : table → result ierror table :=
  fenced id token (λ r,
    set r_status (λ _, Completed) (set r_completed (λ _, Some now) (set r_held (λ _, None) r))).
Definition Fail_ (id token code : string) (retryAt : Z) (dead : bool) : table → result ierror table :=
  fenced id token (λ r,
    set r_status (λ _, if dead then Dead else Pending) (set r_next (λ _, retryAt) (set r_error (λ _, Some code)
      (set r_held (λ _, None) r)))).

Definition outdated (cutoff : Z) (r : CommandRow) : bool :=
  bool_decide (r_status r = Completed) && match r_completed r with Some at_ => at_ <? cutoff | None => false end.
Definition PurgeCompletedBefore (cutoff : Z) (t : table) : table := filter (λ kr, outdated cutoff (snd kr) = false) t.

(** The operator's: another try, and the end of the dead. *)
Definition RetryCommand (now : Z) (id : string) (t : table) : result ierror table :=
  match t !! id with
  | Some r =>
      if bool_decide (r_status r = Completed) then Err NoCommand
      else Ok (<[id := set r_status (λ _, Pending) (set r_attempts (λ _, 0) (set r_next (λ _, now) (set r_held (λ _, None) r)))]> t)
  | None => Err NoCommand
  end.
Definition PurgeDeadCommands (t : table) : table := filter (λ kr, r_status (snd kr) ≠ Dead) t.

(** * The worker *)

(** What [handle] asks of an error: [context.DeadlineExceeded], [ErrNotLeased],
    and the wait it names. *)
Record failure := MkFailure { by_deadline : bool; by_lease : bool; own_wait : option Z }.
Definition failure_code (e : failure) : string :=
  if by_deadline e then "timeout" else if by_lease e then "lease_lost" else "error".

Definition backoff (attempts : Z) (e : failure) : Z :=
  match own_wait e with Some d => if RetryAfter attempts <? d then d else RetryAfter attempts | None => RetryAfter attempts end.

(** The end of the work context. *)
Definition deadline (now : Z) (l : Lease) : Z :=
  now + (if Until l =? 0 then LeaseFor else Z.min LeaseFor (Until l - now)).

(** The second half of [handle]; an error is logged. *)
Definition settle_lease (now db_now : Z) (l : Lease) (outcome : option failure) (t : table) : result ierror table :=
  match outcome with
  | None => Complete db_now (CommandID (Command l)) (Token l) t
  | Some e =>
      Fail_ (CommandID (Command l)) (Token l) (failure_code e) (now + backoff (Attempts (Command l)) e)
        (MaxAttempts <=? Attempts (Command l)) t
  end.

(** Where a goroutine stands with the first of its leases. *)
Inductive stage := Next | Working (until : Z) | Finished (outcome : option failure).
Record task := MkTask { t_leases : list Lease; t_stage : stage }.

(** [completed] keeps the commands whose completion was written. *)
Record world := MkWorld { inbox : table; clock : Z; drawn : nat; tasks : list task; completed : list string }.
#[export] Instance world_eta : Eta world := λ w, MkWorld (inbox w) (clock w) (drawn w) (tasks w) (completed w).

Inductive event :=
| Arrives (c : InboundCommand)
| Handles (owner id : string)
| Drains (owner : string) (n : nat) (locked : list string) (by_ : scan) (back : list Lease → list Lease)
| Begins (i : nat)
| Ends (i : nat) (outcome : option failure)
| Settles (i : nat) (fault : bool)
| Stops (i : nat)
| Passes (d : Z)
| Purges
| Retries (id : string)
| PurgesDead.

Section Worker.
(** The identifiers, and how far the clock of the database is ahead. *)
Context (uuid : nat → string) (skew : Z).
Definition db_now (w : world) : Z := clock w + skew.

Definition with_task (i : nat) (t : task) : world → world := set tasks (<[i := t]>).
Definition new_task (ls : list Lease) (t : table) (w : world) : world :=
  MkWorld t (clock w) (drawn w + length ls) (tasks w ++ [MkTask ls Next]) (completed w).

(** [None] where the event cannot happen; a failed statement changes nothing. *)
Definition happens (e : event) (w : world) : option world :=
  match e with
  | Arrives c =>
      match Enqueue (db_now w) (MkCommand (uuid (drawn w)) (UpdateID c) (CommandUser c) (CommandKind c) (CommandPayload c)
        (TraceContext c) (Attempts c) (ReceivedAt c)) (inbox w) with
      | Ok (_, t) => Some (set inbox (λ _, t) (set drawn S w))
      | _ => None
      end
  | Handles owner id =>
      match LeaseByID uuid (drawn w) (db_now w) id owner (clock w + LeaseFor) (inbox w) with
      | Ok (ls, t) => Some (new_task ls t w)
      | _ => None
      end
  | Drains owner n locked by_ back =>
      match LeaseDue uuid (drawn w) (db_now w) owner n (clock w + LeaseFor) locked by_ (inbox w) with
      | Ok (ls, t) => Some (new_task (back ls) t w)
      | _ => None
      end
  | Begins i =>
      match tasks w !! i with
      | Some (MkTask (l :: ls) Next) => Some (with_task i (MkTask (l :: ls) (Working (deadline (clock w) l))) w)
      | _ => None
      end
  | Ends i outcome =>
      match tasks w !! i with
      | Some (MkTask ls (Working _)) => Some (with_task i (MkTask ls (Finished outcome)) w)
      | _ => None
      end
  | Settles i fault =>
      match tasks w !! i with
      | Some (MkTask (l :: ls) (Finished outcome)) =>
          let w' := with_task i (MkTask ls Next) w in
          if fault then Some w'
          else
            match settle_lease (clock w) (db_now w) l outcome (inbox w) with
            | Ok t =>
                Some (set inbox (λ _, t) (match outcome with
                  | None => set completed (λ l', l' ++ [CommandID (Command l)]) w'
                  | Some _ => w'
                  end))
            | _ => Some w'
            end
      | _ => None
      end
  | Stops i => match tasks w !! i with Some _ => Some (with_task i (MkTask [] Next) w) | None => None end
  | Passes d => Some (set clock (λ t, t + d) w)
  | Purges => Some (set inbox (PurgeCompletedBefore (clock w - inboxRetention)) w)
  | Retries id =>
      match RetryCommand (db_now w) id (inbox w) with Ok t => Some (set inbox (λ _, t) w) | _ => None end
  | PurgesDead => Some (set inbox PurgeDeadCommands w)
  end.

(** A table is read in some order and rows are returned in some order; time does
    not run backwards. *)
Definition fair (e : event) : Prop :=
  match e with
  | Drains _ _ _ by_ back => (∀ t, by_ t ≡ₚ map_to_list t) ∧ (∀ l, back l ≡ₚ l)
  | Passes d => 0 ≤ d
  | _ => True
  end.
Definition step (w w' : world) : Prop := ∃ e, fair e ∧ happens e w = Some w'.
Definition opened_at (now : Z) : world := MkWorld ∅ now 0 [] [].
Definition reachable (w : world) : Prop := ∃ now, 0 < now ∧ rtc step (opened_at now) w.

(** No operator takes a command from under a goroutine. *)
Definition calm (e : event) (w : world) : Prop :=
  match e with Retries id => ∀ r, inbox w !! id = Some r → r_status r ≠ Leased | _ => True end.
Definition calm_step (w w' : world) : Prop := ∃ e, fair e ∧ calm e w ∧ happens e w = Some w'.
Definition calm_reachable (w : world) : Prop := ∃ now, 0 < now ∧ rtc calm_step (opened_at now) w.
End Worker.

(** * What every world keeps *)

Definition leases (w : world) : list Lease := tasks w ≫= t_leases.

Lemma leases_task w i t l : tasks w !! i = Some t → l ∈ t_leases t → l ∈ leases w.
Proof. intros Hi Hl. apply list_elem_of_bind. exists t. split; [done|]. by eapply list_elem_of_lookup_2. Qed.
Lemma leases_with_task w i t t' : tasks w !! i = Some t → t_leases t' ⊆+ t_leases t → leases (with_task i t' w) ⊆+ leases w.
Proof.
  intros Hi Hs. unfold leases. change (tasks (with_task i t' w)) with (<[i := t']> (tasks w)).
  assert (i < length (tasks w))%nat as Hlt by by eapply lookup_lt_Some.
  rewrite insert_take_drop by done. rewrite <- (take_drop_middle _ _ _ Hi) at 3. rewrite !bind_app, !bind_cons.
  by apply submseteq_app, submseteq_app.
Qed.

Lemma NoDup_part {A} (l k : list A) : NoDup k → l ⊆+ k → NoDup l.
Proof. intros Hk [m E]%submseteq_Permutation. rewrite E in Hk. by apply NoDup_app in Hk as (? & _). Qed.

Section Kept.
#[local] Set Default Proof Using "Type*".
Context (uuid : nat → string) (uuid_inj : Inj (=) (=) uuid) (skew : Z).

Definition issued (k : nat) (s : string) : Prop := ∃ j, (j < k)%nat ∧ s = uuid j.
Lemma issued_mono k k' s : issued k s → (k ≤ k')%nat → issued k' s.
Proof. intros (j & ? & ->) ?. exists j. split; [lia|done]. Qed.
Lemma not_issued k : ¬ issued k (uuid k).
Proof. intros (j & Hj & E). apply uuid_inj in E. lia. Qed.
Lemma issued_last k : issued (S k) (uuid k).
Proof. exists k. split; [lia|done]. Qed.

Record sound_row (k : nat) (id : string) (r : CommandRow) : Prop := {
  sr_id : issued k id;
  sr_token : ∀ h, r_held r = Some h → issued k (h_token h);
  sr_held : r_status r = Leased ↔ is_Some (r_held r);
  sr_pending : r_status r = Pending → r_attempts r < MaxAttempts;
  sr_dead : r_status r = Dead → MaxAttempts ≤ r_attempts r;
  sr_attempts : 0 ≤ r_attempts r }.

(** Lease and row under one token belong together. *)
Definition agrees (l : Lease) (id : string) (r : CommandRow) (h : Held) : Prop :=
  id = CommandID (Command l) ∧ r_attempts r = Attempts (Command l) ∧ h_until h = Until l.

Record well (w : world) : Prop := {
  w_row : ∀ id r, inbox w !! id = Some r → sound_row (drawn w) id r;
  w_token : ∀ id id' r r' h h', inbox w !! id = Some r → inbox w !! id' = Some r' →
    r_held r = Some h → r_held r' = Some h' → h_token h = h_token h' → id = id';
  w_update : ∀ id id' r r', inbox w !! id = Some r → inbox w !! id' = Some r' → r_update r = r_update r' → id = id';
  w_tokens : NoDup (Token <$> leases w);
  w_lease : ∀ l, l ∈ leases w → issued (drawn w) (Token l) ∧ 0 < Until l ∧
    ∀ id r h, inbox w !! id = Some r → r_held r = Some h → h_token h = Token l → agrees l id r h;
  w_stage : ∀ i t d, tasks w !! i = Some t → t_stage t = Working d → ∃ l ls, t_leases t = l :: ls ∧ d ≤ Until l;
  w_clock : 0 < clock w;
  w_once : NoDup (completed w);
  w_final : ∀ id, id ∈ completed w → issued (drawn w) id ∧ ∀ r, inbox w !! id = Some r → r_status r = Completed }.

Lemma well_start now : 0 < now → well (opened_at now).
Proof.
  intros Hn. split; cbn; try done; try (by apply NoDup_nil_2).
  all: by intros ? ?%not_elem_of_nil.
Qed.

(** A row given back: nobody holds it any more. *)
Record released (r r' : CommandRow) : Prop := {
  rl_held : r_held r' = None;
  rl_update : r_update r' = r_update r;
  rl_status : r_status r' ≠ Leased;
  rl_pending : r_status r' = Pending → r_attempts r' < MaxAttempts;
  rl_dead : r_status r' = Dead → MaxAttempts ≤ r_attempts r';
  rl_attempts : 0 ≤ r_attempts r';
  rl_final : r_status r = Completed → r_status r' = Completed }.

(** Rows are given back or leave, leases are dropped, time passes. *)
Lemma well_shrinks w w' : well w →
  (∀ id r', inbox w' !! id = Some r' → ∃ r, inbox w !! id = Some r ∧ (r' = r ∨ released r r')) →
  drawn w' = drawn w → completed w' = completed w → clock w ≤ clock w' → leases w' ⊆+ leases w →
  (∀ i t d, tasks w' !! i = Some t → t_stage t = Working d → ∃ l ls, t_leases t = l :: ls ∧ d ≤ Until l) → well w'.
Proof.
  intros [Hr Ht Hu Hn Hl Hst Hc Ho Hf] Hrows Hd Hcm Hck Hls Hstage.
  assert (∀ id r' h, inbox w' !! id = Some r' → r_held r' = Some h → inbox w !! id = Some r') as Hheld.
  { intros id r' h Hi Hh. destruct (Hrows id r' Hi) as (r & Hr0 & [->|Hrel]); [done|]. destruct Hrel. congruence. }
  split.
  - intros id r' Hi. rewrite Hd. destruct (Hrows id r' Hi) as (r & Hr0 & [->|[]]); [by apply Hr|].
    split; [apply (Hr id r Hr0)|congruence| |done|done|done]. rewrite rl_held0. split; [done|]. intros [? [=]].
  - intros id id' r r' h h' Hi Hi' Hh Hh'. apply (Ht id id' r r'); eauto.
  - intros id id' r1 r1' Hi Hi' E. destruct (Hrows id _ Hi) as (r & Hr1 & Hs), (Hrows id' _ Hi') as (r' & Hr1' & Hs').
    apply (Hu id id' r r' Hr1 Hr1'). destruct Hs as [->|[]], Hs' as [->|[]]; congruence.
  - eapply NoDup_part; [exact Hn|]. by apply fmap_submseteq.
  - intros l Hl'. rewrite Hd. destruct (Hl l) as (H1 & H2 & H3); [by apply (elem_of_submseteq _ _ _ Hl' Hls)|].
    split; [done|]. split; [done|]. intros id r h Hi Hh. apply (H3 id r h); [by eapply Hheld|done].
  - done.
  - lia.
  - by rewrite Hcm.
  - intros id. rewrite Hcm, Hd. intros Hid. destruct (Hf id Hid) as [H1 H2]. split; [done|]. intros r' Hi.
    destruct (Hrows id r' Hi) as (r & Hr0 & [->|[]]); auto.
Qed.

Lemma well_completes w id : well w → issued (drawn w) id → id ∉ completed w →
  (∀ r, inbox w !! id = Some r → r_status r = Completed) → well (set completed (λ l, l ++ [id]) w).
Proof.
  intros [Hr Ht Hu Hn Hl Hst Hc Ho Hf] Hi Hnew Hcm. split; try done.
  - change (NoDup (completed w ++ [id])). apply NoDup_app. split; [done|]. split; [|apply NoDup_singleton].
    intros x Hx ->%list_elem_of_singleton. done.
  - intros x Hx. change (x ∈ completed w ++ [id]) in Hx. apply elem_of_app in Hx as [Hx| ->%list_elem_of_singleton]; [by apply Hf|done].
Qed.

Lemma well_delivery w c t b :
  well w → CommandID c = uuid (drawn w) → Enqueue (db_now skew w) c (inbox w) = Ok (b, t) →
  well (set inbox (λ _, t) (set drawn S w)).
Proof.
  intros HW Hid. unfold Enqueue. destruct (bool_decide _) eqn:E.
  - intros [= _ <-]. destruct HW as [Hr Ht Hu Hn Hl Hst Hc Ho Hf]. split; try done; cbn.
    + intros id r Hi. destruct (Hr id r Hi). split; try done; [eapply issued_mono; eauto|].
      intros h Hh. eapply issued_mono; eauto.
    + intros l Hl'. destruct (Hl l Hl') as (H1 & H2). split; [eapply issued_mono; eauto|done].
    + intros id Hid'. destruct (Hf id Hid'). split; [eapply issued_mono; eauto|done].
  - destruct (inbox w !! CommandID c) eqn:Ec; [done|]. intros [= _ <-]. apply bool_decide_eq_false in E.
    destruct HW as [Hr Ht Hu Hn Hl Hst Hc Ho Hf].
    assert (∀ id r, inbox w !! id = Some r → r_update r ≠ UpdateID c) as Hnew.
    { intros id r Hi Eu. apply E. by exists id, r. }
    set (row := MkRow _ _ _ _ _ _ _ _ _ _ _ _).
    assert (∀ id r, <[CommandID c := row]> (inbox w) !! id = Some r →
      (id = CommandID c ∧ r = row) ∨ (id ≠ CommandID c ∧ inbox w !! id = Some r)) as Hcase.
    { intros id r Hi. apply lookup_insert_Some in Hi as [[<- <-]|[? ?]]; auto. }
    split; try done; cbn.
    + intros id r Hi. destruct (Hcase id r Hi) as [[-> ->]|[_ H]].
      * rewrite Hid. split; try done; [apply issued_last|by split; [|intros [? [=]]]].
      * destruct (Hr id r H). split; try done; [eapply issued_mono; eauto|]. intros h Hh. eapply issued_mono; eauto.
    + intros id id' r r' h h' Hi Hi' Hh Hh'. destruct (Hcase id r Hi) as [[-> ->]|[_ H]]; [done|].
      destruct (Hcase id' r' Hi') as [[-> ->]|[_ H']]; [done|]. by apply (Ht id id' r r').
    + intros id id' r r' Hi Hi' Eu. destruct (Hcase id r Hi) as [[-> ->]|[_ H]], (Hcase id' r' Hi') as [[-> ->]|[_ H']]; [done| | |].
      * by destruct (Hnew id' r' H').
      * by destruct (Hnew id r H).
      * by apply (Hu id id' r r').
    + intros l Hl'. destruct (Hl l Hl') as (H1 & H2 & H3). split; [eapply issued_mono; eauto|]. split; [done|].
      intros id r h Hi Hh. destruct (Hcase id r Hi) as [[-> ->]|[_ H]]; [done|]. by apply (H3 id r h).
    + intros id Hid'. destruct (Hf id Hid') as [H1 H2]. split; [eapply issued_mono; eauto|]. intros r Hi.
      destruct (Hcase id r Hi) as [[E1 ->]|[_ H]]; [|by apply H2]. rewrite E1, Hid in H1. by destruct (not_issued (drawn w)).
Qed.

(** * Claims *)

(** A world whose last goroutine is collecting its leases. *)
Definition collects (t : table) (now : Z) (k : nat) (ts : list task) (acc : list Lease) (cm : list string) : world :=
  MkWorld t now k (ts ++ [MkTask acc Next]) cm.

Lemma leases_collects t now k ts acc cm : leases (collects t now k ts acc cm) = (ts ≫= t_leases) ++ acc.
Proof. unfold leases, collects. cbn [tasks]. rewrite bind_app, bind_cons. cbn. by rewrite app_nil_r. Qed.
Lemma collects_stage t now k ts acc cm i x d :
  tasks (collects t now k ts acc cm) !! i = Some x → t_stage x = Working d → ts !! i = Some x.
Proof.
  unfold collects. cbn [tasks]. intros H Hd. apply lookup_app_Some in H as [H|[_ H]]; [done|].
  apply list_lookup_singleton_Some in H as [_ <-]. done.
Qed.

Lemma claimed_row_Ok owner token until r r' :
  claimed_row owner token until r = Ok r' →
  r_status r' = Leased ∧ r_held r' = Some (MkHeld owner token until) ∧ r_attempts r' = r_attempts r + 1 ∧ r_update r' = r_update r.
Proof. unfold claimed_row. destruct (_ <? _); [done|]. intros [= <-]. done. Qed.

Lemma well_claim t now k ts acc cm id r r' owner until :
  well (collects t now k ts acc cm) → t !! id = Some r → r_status r = Pending ∨ r_status r = Leased → 0 < until →
  claimed_row owner (uuid k) until r = Ok r' →
  well (collects (<[id := r']> t) now (S k) ts (acc ++ [shown id r' (uuid k) until]) cm).
Proof.
  intros [Hr Ht Hu Hn Hl Hst Hc Ho Hf] Hi Hs Hun (Es & Eh & Ea & Eu)%claimed_row_Ok.
  rewrite leases_collects in Hn, Hl. set (l' := shown id r' (uuid k) until).
  assert (∀ x y, <[id := r']> t !! x = Some y → (x = id ∧ y = r') ∨ (x ≠ id ∧ t !! x = Some y)) as Hcase.
  { intros x y H. apply lookup_insert_Some in H as [[<- <-]|[? ?]]; auto. }
  assert (∀ x y h, t !! x = Some y → r_held y = Some h → h_token h ≠ uuid k) as Hfresh.
  { intros x y h H Hh E. destruct (Hr x y H) as [_ Htk _ _ _ _]. specialize (Htk h Hh). rewrite E in Htk. by apply not_issued in Htk. }
  split; try done.
  - intros x y H. destruct (Hcase x y H) as [[-> ->]|[_ H']].
    + destruct (Hr id r Hi) as [H1 _ _ _ _ H5]. split; [eapply issued_mono; [done|cbn; lia]| | | | |lia].
      * intros h. rewrite Eh. intros [= <-]. apply issued_last.
      * rewrite Es, Eh. by split.
      * congruence.
      * congruence.
    + destruct (Hr x y H') as [H1 H2 H3 H4 H5 H6]. split; try done; [eapply issued_mono; [done|cbn; lia]|].
      intros h Hh. eapply issued_mono; [by apply H2|cbn; lia].
  - intros x x' y y' h h' H H' Hh Hh' E. destruct (Hcase x y H) as [[-> ->]|[_ Hx]], (Hcase x' y' H') as [[-> ->]|[_ Hx']]; [done| | |].
    + rewrite Eh in Hh. injection Hh as <-. by destruct (Hfresh x' y' h' Hx' Hh').
    + rewrite Eh in Hh'. injection Hh' as <-. by destruct (Hfresh x y h Hx Hh).
    + by apply (Ht x x' y y' h h').
  - intros x x' y y' H H' E. destruct (Hcase x y H) as [[-> ->]|[_ Hx]], (Hcase x' y' H') as [[-> ->]|[_ Hx']]; [done| | |].
    + apply (Hu id x' r y' Hi Hx'). congruence.
    + apply (Hu x id y r Hx Hi). congruence.
    + by apply (Hu x x' y y').
  - rewrite leases_collects, app_assoc, fmap_app. apply NoDup_app. split; [done|]. split; [|apply NoDup_singleton].
    intros s (l & -> & Hin)%list_elem_of_fmap E%list_elem_of_singleton. destruct (Hl l Hin) as [H1 _].
    destruct (not_issued k). by rewrite E in H1.
  - intros l. rewrite leases_collects, app_assoc. intros [Hin| ->%list_elem_of_singleton]%elem_of_app.
    + destruct (Hl l Hin) as (H1 & H2 & H3). split; [eapply issued_mono; [done|cbn; lia]|]. split; [done|]. intros x y h H Hh E.
      destruct (Hcase x y H) as [[-> ->]|[_ Hx]]; [|by apply (H3 x y h)].
      rewrite Eh in Hh. injection Hh as <-. cbn in E. destruct (not_issued k). by rewrite E.
    + split; [apply issued_last|]. split; [done|]. intros x y h H Hh E.
      destruct (Hcase x y H) as [[-> ->]|[_ Hx]]; [|by destruct (Hfresh x y h Hx Hh)].
      rewrite Eh in Hh. injection Hh as <-. done.
  - intros i x d Hx Hd. pose proof (collects_stage _ _ _ _ _ _ _ _ _ Hx Hd) as Hx'. apply (Hst i x d); [|done].
    unfold collects. cbn [tasks]. by apply lookup_app_l_Some.
  - intros x Hx. destruct (Hf x Hx) as [H1 H2]. split; [eapply issued_mono; [done|cbn; lia]|]. intros y H.
    destruct (Hcase x y H) as [[-> ->]|[_ H']]; [|by apply H2]. specialize (H2 r Hi). destruct Hs; congruence.
Qed.

Lemma well_claims owner until now ts cm ids : ∀ t k acc ls t',
  well (collects t now k ts acc cm) → 0 < until →
  (∀ id r, id ∈ ids → t !! id = Some r → r_status r = Pending ∨ r_status r = Leased) →
  claim uuid k owner until ids t = Ok (ls, t') →
  well (collects t' now (k + length ls) ts (acc ++ ls) cm).
Proof.
  induction ids as [|id ids IH]; intros t k acc ls t' HW Hun Hids H.
  - injection H as <- <-. cbn. by rewrite Nat.add_0_r, app_nil_r.
  - cbn [claim] in H. destruct (t !! id) as [r|] eqn:Hi.
    + apply bind_Ok in H as (r' & Hr' & H). apply bind_Ok in H as ([ls' t2] & H & [= <- <-]).
      cbn [length]. rewrite <- Nat.add_succ_comm, cons_middle, app_assoc. eapply IH; [|done| |exact H].
      * apply (well_claim t now k ts acc cm id r r' owner until); [done|done|apply (Hids id r); [left|done]|done|done].
      * intros x y Hx Hy. apply lookup_insert_Some in Hy as [[-> <-]|[_ Hy]]; [|apply (Hids x y); [by right|done]].
        right. apply (claimed_row_Ok _ _ _ _ _ Hr').
    + eapply IH; [done|done| |exact H]. intros x y Hx. apply Hids. by right.
Qed.

(** A statement that leases the rows [ids], by a new goroutine. *)
Lemma well_leases w owner until ids ls t back : well w → 0 < until → back ≡ₚ ls →
  (∀ id r, id ∈ ids → inbox w !! id = Some r → r_status r = Pending ∨ r_status r = Leased) →
  claim uuid (drawn w) owner until ids (inbox w) = Ok (ls, t) →
  well (MkWorld t (clock w) (drawn w + length back) (tasks w ++ [MkTask back Next]) (completed w)).
Proof.
  intros HW Hun Hb Hids Hc. assert (well (collects (inbox w) (clock w) (drawn w) (tasks w) [] (completed w))) as H0.
  { eapply well_shrinks; [exact HW|eauto|done|done|done| |].
    - rewrite leases_collects, app_nil_r. done.
    - intros i x d Hx Hd. eapply (w_stage w HW); [|done]. by eapply collects_stage. }
  apply (well_claims _ _ _ _ _ _ _ _ _ _ _ H0 Hun Hids) in Hc. cbn [app] in Hc. rewrite (Permutation_length Hb).
  eapply well_shrinks; [exact Hc|eauto|done|done|done| |].
  - change (leases (collects t (clock w) (drawn w + length ls) (tasks w) back (completed w)) ⊆+
      leases (collects t (clock w) (drawn w + length ls) (tasks w) ls (completed w))).
    rewrite !leases_collects, Hb. done.
  - intros i x d Hx Hd. pose proof (collects_stage t (clock w) (drawn w) (tasks w) back (completed w) i x d Hx Hd).
    by apply (w_stage w HW i x d).
Qed.

Lemma claimable_live now r : claimable now r = true → r_status r = Pending ∨ r_status r = Leased.
Proof. unfold claimable. destruct (r_status r); cbn; auto; discriminate. Qed.
Lemma due_claimable now n locked by_ t id r : (∀ t, by_ t ≡ₚ map_to_list t) → id ∈ due_ids now n locked by_ t → t !! id = Some r →
  claimable now r = true.
Proof.
  intros Hby. unfold due_ids. intros ([k x] & -> & Hin)%list_elem_of_fmap Hi. apply elem_of_take in Hin as (i & Hin & _).
  apply list_elem_of_lookup_2 in Hin. rewrite SliceStable_perm in Hin. apply list_elem_of_In, filter_In in Hin as [Hin Hc].
  apply list_elem_of_In in Hin. rewrite Hby in Hin. rewrite elem_of_map_to_list in Hin. cbn in Hi. assert (x = r) as -> by congruence.
  by apply andb_true_iff in Hc as [Hc _].
Qed.

(** * One event *)

Lemma fenced_Ok id token f t t' : fenced id token f t = Ok t' →
  ∃ r h, t !! id = Some r ∧ r_held r = Some h ∧ h_token h = token ∧ t' = <[id := f r]> t.
Proof.
  unfold fenced, held_by. destruct (t !! id) as [r|]; [|done]. destruct (r_held r) as [h|] eqn:Eh; [|done].
  destruct (String.eqb_spec (h_token h) token); [|done]. intros [= <-]. by exists r, h.
Qed.

Definition settled (now db_now : Z) (l : Lease) (outcome : option failure) (r : CommandRow) : CommandRow :=
  match outcome with
  | None => set r_status (λ _, Completed) (set r_completed (λ _, Some db_now) (set r_held (λ _, None) r))
  | Some e =>
      set r_status (λ _, if MaxAttempts <=? Attempts (Command l) then Dead else Pending)
        (set r_next (λ _, now + backoff (Attempts (Command l)) e)
          (set r_error (λ _, Some (failure_code e)) (set r_held (λ _, None) r)))
  end.

(** Settling goes by the fence alone. *)
Lemma settle_Ok now dbn l outcome t t' : settle_lease now dbn l outcome t = Ok t' →
  ∃ r h, t !! CommandID (Command l) = Some r ∧ r_held r = Some h ∧ h_token h = Token l ∧
    t' = <[CommandID (Command l) := settled now dbn l outcome r]> t.
Proof. unfold settle_lease. destruct outcome; intros (r & h & ? & ? & ? & ->)%fenced_Ok; by exists r, h. Qed.

Lemma settled_released now dbn l outcome r : r_status r = Leased → 0 ≤ r_attempts r →
  r_attempts r = Attempts (Command l) → released r (settled now dbn l outcome r).
Proof.
  intros Hs Ha E. unfold settled, MaxAttempts. destruct outcome; split; cbn; unfold MaxAttempts; try done; try congruence.
  all: destruct (Z.leb_spec 5 (Attempts (Command l))); try done; lia.
Qed.

Lemma released_update (t : table) id r r' : t !! id = Some r → released r r' →
  ∀ x y, <[id := r']> t !! x = Some y → ∃ z, t !! x = Some z ∧ (y = z ∨ released z y).
Proof.
  intros Hi Hr x y H. apply lookup_insert_Some in H as [[<- <-]|[_ H]]; eauto.
Qed.

(** The stages after one goroutine has moved. *)
Lemma stages_with_task w i t t' : well w → tasks w !! i = Some t →
  (∀ d, t_stage t' = Working d → ∃ l ls, t_leases t' = l :: ls ∧ d ≤ Until l) →
  ∀ j x d, tasks (with_task i t' w) !! j = Some x → t_stage x = Working d → ∃ l ls, t_leases x = l :: ls ∧ d ≤ Until l.
Proof.
  intros HW Hi Ht' j x d Hx Hd. change (<[i := t']> (tasks w) !! j = Some x) in Hx.
  apply list_lookup_insert_Some in Hx as [(-> & <- & _)|[_ Hx]]; [by apply Ht'|by apply (w_stage w HW j x d)].
Qed.

(** A goroutine moves, and drops what it held. *)
Lemma well_moves w i t t' : well w → tasks w !! i = Some t → t_leases t' ⊆+ t_leases t →
  (∀ d, t_stage t' = Working d → ∃ l ls, t_leases t' = l :: ls ∧ d ≤ Until l) → well (with_task i t' w).
Proof.
  intros HW Hi Hs Hd. eapply well_shrinks; [exact HW|eauto|done|done|done|by eapply leases_with_task|].
  by eapply stages_with_task.
Qed.

Lemma well_settles w i l ls outcome t : well w → tasks w !! i = Some (MkTask (l :: ls) (Finished outcome)) →
  settle_lease (clock w) (db_now skew w) l outcome (inbox w) = Ok t →
  well (set inbox (λ _, t) (match outcome with
    | None => set completed (λ l', l' ++ [CommandID (Command l)]) (with_task i (MkTask ls Next) w)
    | Some _ => with_task i (MkTask ls Next) w
    end)).
Proof.
  intros HW Hi (r & h & Hr & Hh & Htk & ->)%settle_Ok. set (id := CommandID (Command l)) in *.
  destruct (w_lease w HW l) as (_ & _ & Hag); [eapply leases_task; [done|by left]|].
  destruct (Hag id r h Hr Hh Htk) as (_ & Ha & _). destruct (w_row w HW id r Hr) as [Hid _ Hst _ _ H0].
  assert (r_status r = Leased) as Hs by (apply Hst; eauto).
  set (w' := set inbox (λ _, <[id := settled (clock w) (db_now skew w) l outcome r]> (inbox w)) (with_task i (MkTask ls Next) w)).
  assert (well w') as HW'.
  { eapply well_shrinks; [exact HW| |done|done|done| |].
    - exact (released_update _ _ _ _ Hr (settled_released _ _ _ _ _ Hs H0 Ha)).
    - apply (leases_with_task w i _ (MkTask ls Next) Hi). by apply submseteq_cons.
    - by eapply stages_with_task. }
  destruct outcome as [e|]; [exact HW'|]. apply (well_completes w' id HW' Hid).
  - intros Hin. destruct (w_final w HW id Hin) as [_ Hc]. specialize (Hc r Hr). congruence.
  - intros y Hy. change (<[id := settled (clock w) (db_now skew w) l None r]> (inbox w) !! id = Some y) in Hy.
    rewrite lookup_insert_eq in Hy. by injection Hy as <-.
Qed.

Lemma deadline_until now l : 0 < Until l → deadline now l ≤ Until l.
Proof. intros H. unfold deadline. destruct (Z.eqb_spec (Until l) 0); lia. Qed.

Lemma retried_released now r : r_status r ≠ Completed →
  released r (set r_status (λ _, Pending) (set r_attempts (λ _, 0) (set r_next (λ _, now) (set r_held (λ _, None) r)))).
Proof. intros H. split; cbn; try done; unfold MaxAttempts; lia. Qed.

Lemma well_inbox w t : well w →
  (∀ id r', t !! id = Some r' → ∃ r, inbox w !! id = Some r ∧ (r' = r ∨ released r r')) → well (set inbox (λ _, t) w).
Proof. intros HW Ht. apply (well_shrinks w (set inbox (λ _, t) w)); [exact HW|exact Ht|try done..]. apply (w_stage w HW). Qed.

Lemma well_happens e w w' : well w → fair e → happens uuid skew e w = Some w' → well w'.
Proof.
  intros HW Hf H. pose proof (w_clock w HW) as Hck.
  destruct e as [c|owner id|owner n locked by_ back|i|i outcome|i fault|i|d| |id|]; cbn [happens] in H.
  - destruct (Enqueue _ _ _) as [[b t]|e|s] eqn:E; [|done|done]. injection H as <-. eapply well_delivery; [done| |exact E]. done.
  - unfold LeaseByID in H. destruct (claim _ _ _ _ _ _) as [[ls t]|e|s] eqn:E; [|done|done]. injection H as <-.
    eapply (well_leases w owner (clock w + LeaseFor)); [done|unfold LeaseFor, second; lia|done| |exact E].
    intros x r Hx Hr. destruct (inbox w !! id) as [r'|] eqn:Ei; [|by apply not_elem_of_nil in Hx].
    destruct (claimable _ r') eqn:Ec; [|by apply not_elem_of_nil in Hx]. apply list_elem_of_singleton in Hx as ->.
    rewrite Hr in Ei. injection Ei as ->. by eapply claimable_live.
  - unfold LeaseDue in H. destruct (claim _ _ _ _ _ _) as [[ls t]|e|s] eqn:E; [|done|done]. injection H as <-. destruct Hf as [Hby Hb].
    eapply (well_leases w owner (clock w + LeaseFor)); [done|unfold LeaseFor, second; lia|apply Hb| |exact E].
    intros x r Hx Hr. eapply claimable_live, due_claimable; eauto.
  - destruct (tasks w !! i) as [[[|l ls] [| |]]|] eqn:Ei; try done. injection H as <-. eapply well_moves; [done..|]. cbn.
    intros d [= <-]. exists l, ls. split; [done|]. apply deadline_until, (w_lease w HW l). eapply leases_task; [done|by left].
  - destruct (tasks w !! i) as [[ls [| |]]|] eqn:Ei; try done. injection H as <-. by eapply well_moves.
  - destruct (tasks w !! i) as [[[|l ls] [| |outcome]]|] eqn:Ei; try done.
    assert (well (with_task i (MkTask ls Next) w)) as Hnext by (eapply well_moves; [done..|by apply submseteq_cons|done]).
    destruct fault; [by injection H as <-|]. destruct (settle_lease _ _ _ _ _) as [t|e|s] eqn:E; injection H as <-; [|done|done].
    by apply (well_settles w i l ls outcome t).
  - destruct (tasks w !! i) as [t|] eqn:Ei; [|done]. injection H as <-. eapply well_moves; [done..|apply submseteq_nil_l|done].
  - injection H as <-. eapply well_shrinks; [exact HW|eauto|done|done|cbn in *; lia|done|]. apply (w_stage w HW).
  - injection H as <-. apply well_inbox; [done|]. intros id r [Hr _]%map_lookup_filter_Some. eauto.
  - unfold RetryCommand in H. destruct (inbox w !! id) as [r|] eqn:Ei; [|done].
    destruct (bool_decide (r_status r = Completed)) eqn:Es; [done|]. injection H as <-. apply bool_decide_eq_false in Es.
    apply well_inbox; [done|]. exact (released_update _ _ _ _ Ei (retried_released _ _ Es)).
  - injection H as <-. apply well_inbox; [done|]. intros id r [Hr _]%map_lookup_filter_Some. eauto.
Qed.

Lemma reachable_table w : reachable uuid skew w → well w.
Proof.
  intros (now & Hn & H). apply well_start in Hn. revert Hn. generalize (opened_at now), H. clear H. intros w0 H.
  induction H as [|x y z (e & Hf & He) _ IH]; [done|]. intros Hx. apply IH. by eapply well_happens.
Qed.

(** * Who may work at a command *)

(** A lease that has not run out is the one its row names. *)
Definition shows_lease (t : table) (l : Lease) : Prop :=
  ∃ r h, t !! CommandID (Command l) = Some r ∧ r_held r = Some h ∧ h_token h = Token l.
Definition current (w : world) : Prop := ∀ l, l ∈ leases w → db_now skew w ≤ Until l → shows_lease (inbox w) l.

Lemma current_keeps w w' : current w → clock w ≤ clock w' →
  (∀ l, l ∈ leases w' → l ∈ leases w ∧ (shows_lease (inbox w) l → shows_lease (inbox w') l)) → current w'.
Proof.
  intros HC Hck Hls l Hl Hu. destruct (Hls l Hl) as [Hl' Hs]. apply Hs, HC; [done|]. unfold db_now in *. lia.
Qed.
Lemma shows_in t t' l : (∀ id r, t !! id = Some r → is_Some (r_held r) → t' !! id = Some r) → shows_lease t l → shows_lease t' l.
Proof. intros Ht (r & h & Hr & Hh & E). exists r, h. split; [|done]. apply Ht; [done|]. by exists h. Qed.

Lemma leases_part w i t t' l : tasks w !! i = Some t → t_leases t' ⊆+ t_leases t → l ∈ leases (with_task i t' w) → l ∈ leases w.
Proof. intros Hi Hs Hl. apply (elem_of_submseteq _ _ _ Hl). by eapply leases_with_task. Qed.
Lemma current_moves w i t t' : current w → tasks w !! i = Some t → t_leases t' ⊆+ t_leases t → current (with_task i t' w).
Proof. intros HC Hi Hs. apply (current_keeps w); [done|done|]. intros l Hl. split; [by eapply leases_part|done]. Qed.

(** The rows a claim takes, each once. *)
Lemma claim_rows owner until ids : ∀ k t ls t', NoDup ids → claim uuid k owner until ids t = Ok (ls, t') →
  (∀ id, id ∉ ids → t' !! id = t !! id) ∧
  (∀ id r, id ∈ ids → t !! id = Some r → ∃ j r', t' !! id = Some r' ∧ claimed_row owner (uuid j) until r = Ok r' ∧
     shown id r' (uuid j) until ∈ ls) ∧
  (∀ l, l ∈ ls → CommandID (Command l) ∈ ids ∧ ∃ r r', t !! CommandID (Command l) = Some r ∧
     claimed_row owner (Token l) until r = Ok r' ∧ t' !! CommandID (Command l) = Some r') ∧
  (∀ id, is_Some (t' !! id) → is_Some (t !! id)).
Proof.
  induction ids as [|id ids IH]; intros k t ls t' Hnd H.
  - injection H as <- <-. split; [done|]. split; [by intros ? ? ?%not_elem_of_nil|]. split; [by intros ? ?%not_elem_of_nil|done].
  - apply NoDup_cons in Hnd as [Hni Hnd]. cbn [claim] in H. destruct (t !! id) as [r|] eqn:Hi.
    + apply bind_Ok in H as (r' & Hr' & H). apply bind_Ok in H as ([ls' t2] & H & [= <- <-]).
      destruct (IH _ _ _ _ Hnd H) as (H1 & H2 & H3 & H4). assert (t2 !! id = Some r') as Hid.
      { rewrite H1 by done. by rewrite lookup_insert_eq. }
      assert (∀ x, x ∈ ids → <[id:=r']> t !! x = t !! x) as Hne.
      { intros x Hx. apply lookup_insert_ne. intros ->. done. }
      split; [|split; [|split]].
      * intros x [Hx Hx']%not_elem_of_cons. rewrite H1 by done. by apply lookup_insert_ne.
      * intros x y [->|Hx]%elem_of_cons Hy.
        -- rewrite Hi in Hy. injection Hy as <-. exists k, r'. split; [done|]. split; [done|]. by left.
        -- rewrite <- (Hne x Hx) in Hy. destruct (H2 x y Hx Hy) as (j & y' & ? & ? & ?). exists j, y'. split; [done|]. split; [done|]. by right.
      * intros l [->|Hl]%elem_of_cons; [split; [by left|by exists r, r']|].
        destruct (H3 l Hl) as (Hx & y & y' & Hy & ? & ?). split; [by right|]. exists y, y'. by rewrite <- (Hne _ Hx).
      * intros x Hx. destruct (decide (x = id)) as [->|Hx']; [by exists r|]. rewrite <- (lookup_insert_ne t id x r') by done. by apply H4.
    + destruct (IH _ _ _ _ Hnd H) as (H1 & H2 & H3 & H4). split; [|split; [|split; [|done]]].
      * intros x [_ Hx]%not_elem_of_cons. by apply H1.
      * intros x y [->|Hx]%elem_of_cons Hy; [congruence|]. by apply H2.
      * intros l Hl. destruct (H3 l Hl) as (Hx & Hy). split; [by right|done].
Qed.

Lemma current_leases w owner until ids ls t back : well w → current w → NoDup ids → back ≡ₚ ls →
  (∀ id r, id ∈ ids → inbox w !! id = Some r → claimable (db_now skew w) r = true) →
  claim uuid (drawn w) owner until ids (inbox w) = Ok (ls, t) →
  current (MkWorld t (clock w) (drawn w + length back) (tasks w ++ [MkTask back Next]) (completed w)).
Proof.
  intros HW HC Hnd Hb Hids Hc. destruct (claim_rows _ _ _ _ _ _ _ Hnd Hc) as (H1 & H2 & H3 & _). intros l Hl Hu.
  change (l ∈ leases (collects t (clock w) (drawn w + length back) (tasks w) back (completed w))) in Hl.
  rewrite leases_collects in Hl. change (shows_lease t l). apply elem_of_app in Hl as [Hl|Hl].
  - destruct (HC l Hl Hu) as (r & h & Hr & Hh & Htk). exists r, h. split; [|done]. rewrite H1; [done|]. intros Hin.
    specialize (Hids _ _ Hin Hr). unfold claimable in Hids. rewrite Hh in Hids. apply andb_true_iff in Hids as [_ Hlt%Z.ltb_lt].
    destruct (w_lease w HW l Hl) as (_ & _ & Hag). destruct (Hag _ _ _ Hr Hh Htk) as (_ & _ & E).
    change (db_now skew w ≤ Until l) in Hu. lia.
  - rewrite Hb in Hl. destruct (H3 l Hl) as (_ & r & r' & Hr & Hr' & Ht). apply claimed_row_Ok in Hr' as (_ & Hh & _).
    by exists r', (MkHeld owner (Token l) until).
Qed.

Lemma filter_part {A} (f : A → bool) (l : list A) : List.filter f l `sublist_of` l.
Proof. induction l as [|x l IH]; [done|]. cbn. destruct (f x); by constructor. Qed.
Lemma due_NoDup now n locked by_ t : (∀ t, by_ t ≡ₚ map_to_list t) → NoDup (due_ids now n locked by_ t).
Proof.
  intros Hby. unfold due_ids. rewrite fmap_take. eapply sublist_NoDup; [|apply sublist_take]. rewrite SliceStable_perm.
  eapply sublist_NoDup; [|apply fmap_sublist, filter_part]. rewrite Hby. apply NoDup_fst_map_to_list.
Qed.

Lemma Enqueue_keeps now c t b t' : Enqueue now c t = Ok (b, t') → ∀ id r, t !! id = Some r → t' !! id = Some r.
Proof.
  unfold Enqueue. destruct (bool_decide _); [by intros [= _ <-]|]. destruct (t !! CommandID c) eqn:E; [done|].
  intros [= _ <-] id r Hi. apply lookup_insert_Some. right. split; [congruence|done].
Qed.

Lemma held_leased w id r : well w → inbox w !! id = Some r → is_Some (r_held r) → r_status r = Leased.
Proof. intros HW Hi Hh. by apply (sr_held _ _ _ (w_row w HW id r Hi)). Qed.

Lemma leases_head w i l ls st : tasks w !! i = Some (MkTask (l :: ls) st) →
  leases w ≡ₚ l :: leases (with_task i (MkTask ls Next) w).
Proof.
  intros Hi. unfold leases. change (tasks (with_task i (MkTask ls Next) w)) with (<[i := MkTask ls Next]> (tasks w)).
  assert (i < length (tasks w))%nat as Hlt by by eapply lookup_lt_Some.
  rewrite insert_take_drop by done. rewrite <- (take_drop_middle _ _ _ Hi) at 1. rewrite !bind_app, !bind_cons. cbn [t_leases].
  by rewrite Permutation_middle.
Qed.

Lemma current_settles w i l ls outcome t cm : well w → current w → tasks w !! i = Some (MkTask (l :: ls) (Finished outcome)) →
  settle_lease (clock w) (db_now skew w) l outcome (inbox w) = Ok t →
  current (MkWorld t (clock w) (drawn w) (<[i := MkTask ls Next]> (tasks w)) cm).
Proof.
  intros HW HC Hi (r & h & Hr & Hh & Htk & ->)%settle_Ok. apply (current_keeps w); [done|done|]. intros l' Hl'.
  change (l' ∈ leases (with_task i (MkTask ls Next) w)) in Hl'. pose proof (leases_head w i l ls _ Hi) as Hp.
  split; [rewrite Hp; by right|]. intros (r' & h' & Hr' & Hh' & Htk'). exists r', h'. split; [|done].
  apply lookup_insert_Some. right. split; [|done]. intros E. rewrite E in Hr. assert (r' = r) as -> by congruence.
  assert (Token l = Token l') as E' by congruence. pose proof (w_tokens w HW) as Hnd. rewrite Hp in Hnd. cbn [fmap list_fmap] in Hnd.
  apply NoDup_cons in Hnd as [Hni _]. apply Hni. rewrite E'. by apply list_elem_of_fmap_2.
Qed.

Lemma current_happens e w w' : well w → current w → fair e → calm e w → happens uuid skew e w = Some w' → current w'.
Proof.
  intros HW HC Hf Hcalm H.
  destruct e as [c|owner id|owner n locked by_ back|i|i outcome|i fault|i|d| |id|]; cbn [happens] in H.
  - destruct (Enqueue _ _ _) as [[b t]|e|s] eqn:E; [|done|done]. injection H as <-. apply (current_keeps w); [done|done|].
    intros l Hl. split; [exact Hl|]. apply shows_in. intros x r Hr _. by eapply Enqueue_keeps.
  - unfold LeaseByID in H. destruct (claim _ _ _ _ _ _) as [[ls t]|e|s] eqn:E; [|done|done]. injection H as <-.
    eapply current_leases; [done|done| |done| |exact E].
    + destruct (inbox w !! id); [destruct (claimable _ _)|]; [apply NoDup_singleton|apply NoDup_nil_2..].
    + intros x r Hx Hr. destruct (inbox w !! id) as [r'|] eqn:Ei; [|by apply not_elem_of_nil in Hx].
      destruct (claimable _ r') eqn:Ec; [|by apply not_elem_of_nil in Hx]. apply list_elem_of_singleton in Hx as ->. congruence.
  - unfold LeaseDue in H. destruct (claim _ _ _ _ _ _) as [[ls t]|e|s] eqn:E; [|done|done]. injection H as <-. destruct Hf as [Hby Hb].
    eapply current_leases; [done|done|by apply due_NoDup|apply Hb| |exact E]. intros x r Hx Hr. by eapply due_claimable.
  - destruct (tasks w !! i) as [[[|l ls] [| |]]|] eqn:Ei; try done. injection H as <-. by eapply current_moves.
  - destruct (tasks w !! i) as [[ls [| |]]|] eqn:Ei; try done. injection H as <-. by eapply current_moves.
  - destruct (tasks w !! i) as [[[|l ls] [| |outcome]]|] eqn:Ei; try done.
    assert (current (with_task i (MkTask ls Next) w)) as Hnext by (eapply current_moves; [done..|by apply submseteq_cons]).
    destruct fault; [by injection H as <-|]. destruct (settle_lease _ _ _ _ _) as [t|e|s] eqn:E; injection H as <-; [|done|done].
    destruct outcome; exact (current_settles w i l ls _ t _ HW HC Ei E).
  - destruct (tasks w !! i) as [t|] eqn:Ei; [|done]. injection H as <-. eapply current_moves; [done..|apply submseteq_nil_l].
  - injection H as <-. apply (current_keeps w); [done|cbn in *; lia|done].
  - injection H as <-. apply (current_keeps w); [done|done|]. intros l Hl. split; [exact Hl|]. apply shows_in. intros x r Hr Hh.
    apply map_lookup_filter_Some. split; [exact Hr|]. cbn. unfold outdated. by rewrite (held_leased w x r HW Hr Hh).
  - unfold RetryCommand in H. destruct (inbox w !! id) as [r|] eqn:Ei; [|done].
    destruct (bool_decide (r_status r = Completed)) eqn:Es; [done|]. injection H as <-.
    apply (current_keeps w); [done|done|]. intros l Hl. split; [exact Hl|]. apply shows_in. intros x y Hy Hh.
    apply lookup_insert_Some. right. split; [|exact Hy]. intros <-. destruct (Hcalm y Hy). by eapply held_leased.
  - injection H as <-. apply (current_keeps w); [done|done|]. intros l Hl. split; [exact Hl|]. apply shows_in. intros x r Hr Hh.
    apply map_lookup_filter_Some. split; [exact Hr|]. cbn. by rewrite (held_leased w x r HW Hr Hh).
Qed.

Lemma calm_reachable_current w : calm_reachable uuid skew w → well w ∧ current w.
Proof.
  intros (now & Hn & H). assert (well (opened_at now) ∧ current (opened_at now)) as H0.
  { split; [by apply well_start|]. by intros l Hl%not_elem_of_nil. }
  revert H0. generalize (opened_at now), H. clear H. intros w0 H.
  induction H as [|x y z (e & Hf & Hc & He) _ IH]; [done|]. intros [HW HC]. apply IH. split; [by eapply well_happens|].
  by eapply current_happens.
Qed.

(** A goroutine in the middle of a command, before its deadline. *)
Definition at_work (w : world) (i : nat) (id : string) : Prop :=
  ∃ l ls d, tasks w !! i = Some (MkTask (l :: ls) (Working d)) ∧ CommandID (Command l) = id ∧ clock w < d.

Lemma bind_index {A B C} (f : B → C) (g : A → list B) (L : list A) : ∀ i j x y a b, NoDup (f <$> (L ≫= g)) →
  L !! i = Some x → L !! j = Some y → a ∈ g x → b ∈ g y → f a = f b → i = j.
Proof.
  assert (∀ (L : list A) i x a, L !! i = Some x → a ∈ g x → f a ∈ f <$> (L ≫= g)) as Hin.
  { intros M i x a Hi Ha. apply list_elem_of_fmap_2, list_elem_of_bind. exists x. split; [done|]. by eapply list_elem_of_lookup_2. }
  induction L as [|z L IH]; [done|]. intros i j x y a b Hnd Hi Hj Ha Hb E. rewrite bind_cons, fmap_app in Hnd.
  apply NoDup_app in Hnd as (_ & Hd & Hnd). destruct i as [|i], j as [|j]; cbn in Hi, Hj; [done| | |].
  - injection Hi as ->. exfalso. apply (Hd (f a)); [by apply list_elem_of_fmap_2|]. rewrite E. by eapply Hin.
  - injection Hj as ->. exfalso. apply (Hd (f b)); [by apply list_elem_of_fmap_2|]. rewrite <- E. by eapply Hin.
  - f_equal. by apply (IH i j x y a b).
Qed.

(** * Attempts *)

(** Nobody is late: no lease has run out where the next thing happens. *)
Definition on_time (w : world) : Prop :=
  ∀ id r h, inbox w !! id = Some r → r_held r = Some h → db_now skew w ≤ h_until h.
Definition prompt_step (w w' : world) : Prop := on_time w ∧ step uuid skew w w'.
Definition few (w : world) : Prop := ∀ id r, inbox w !! id = Some r → r_attempts r ≤ MaxAttempts.

Lemma on_time_pending w id r : well w → on_time w → inbox w !! id = Some r → claimable (db_now skew w) r = true → r_status r = Pending.
Proof.
  intros HW Ht Hi Hc. destruct (claimable_live _ _ Hc) as [Hs|Hs]; [done|].
  destruct (proj1 (sr_held _ _ _ (w_row w HW id r Hi)) Hs) as [h Hh]. specialize (Ht id r h Hi Hh).
  unfold claimable in Hc. rewrite Hh in Hc. apply andb_true_iff in Hc as [_ Hc%Z.ltb_lt]. lia.
Qed.

Lemma few_leases w owner until ids ls t k : well w → few w → on_time w → NoDup ids →
  (∀ id r, id ∈ ids → inbox w !! id = Some r → claimable (db_now skew w) r = true) →
  claim uuid k owner until ids (inbox w) = Ok (ls, t) → ∀ id r, t !! id = Some r → r_attempts r ≤ MaxAttempts.
Proof.
  intros HW HF Ht Hnd Hids Hc id r' Hr'. destruct (claim_rows _ _ _ _ _ _ _ Hnd Hc) as (H1 & H2 & _ & H4).
  destruct (decide (id ∈ ids)) as [Hin|Hni]; [|rewrite H1 in Hr' by done; by apply (HF id)].
  destruct (inbox w !! id) as [r|] eqn:Hr.
  - destruct (H2 id r Hin Hr) as (j & y & Hy & (_ & _ & Ha & _)%claimed_row_Ok & _). assert (y = r') as -> by congruence.
    pose proof (sr_pending _ _ _ (w_row w HW id r Hr) (on_time_pending w id r HW Ht Hr (Hids id r Hin Hr))). lia.
  - destruct (H4 id) as [r Hr2]; [by exists r'|congruence].
Qed.

Lemma few_happens e w w' : well w → few w → on_time w → fair e → happens uuid skew e w = Some w' → few w'.
Proof.
  intros HW HF Ht Hf H.
  assert (∀ i t, few (with_task i t w)) as Hmove by done.
  assert (∀ t cm ts k, (∀ id r, t !! id = Some r → r_attempts r ≤ MaxAttempts) → few (MkWorld t (clock w) k ts cm)) as Hin by done.
  destruct e as [c|owner id|owner n locked by_ back|i|i outcome|i fault|i|d| |id|]; cbn [happens] in H.
  - destruct (Enqueue _ _ _) as [[b t]|e|s] eqn:E; [|done|done]. injection H as <-. apply Hin. unfold Enqueue in E.
    destruct (bool_decide _); [by injection E as _ <-|]. destruct (inbox w !! _); [done|]. injection E as _ <-.
    intros x r [[_ <-]|[_ Hr]]%lookup_insert_Some; [done|by apply (HF x)].
  - unfold LeaseByID in H. destruct (claim _ _ _ _ _ _) as [[ls t]|e|s] eqn:E; [|done|done]. injection H as <-. apply Hin.
    eapply few_leases; [done..| | |exact E].
    + destruct (inbox w !! id); [destruct (claimable _ _)|]; [apply NoDup_singleton|apply NoDup_nil_2..].
    + intros x r Hx Hr. destruct (inbox w !! id) as [r'|] eqn:Ei; [|by apply not_elem_of_nil in Hx].
      destruct (claimable _ r') eqn:Ec; [|by apply not_elem_of_nil in Hx]. apply list_elem_of_singleton in Hx as ->. congruence.
  - unfold LeaseDue in H. destruct (claim _ _ _ _ _ _) as [[ls t]|e|s] eqn:E; [|done|done]. injection H as <-. destruct Hf as [Hby Hb].
    apply Hin. eapply few_leases; [done..|by apply due_NoDup| |exact E]. intros x r Hx Hr. by eapply due_claimable.
  - destruct (tasks w !! i) as [[[|l ls] [| |]]|]; try done. by injection H as <-.
  - destruct (tasks w !! i) as [[ls [| |]]|]; try done. by injection H as <-.
  - destruct (tasks w !! i) as [[[|l ls] [| |outcome]]|] eqn:Ei; try done. destruct fault; [by injection H as <-|].
    destruct (settle_lease _ _ _ _ _) as [t|e|s] eqn:E; injection H as <-; [|done|done].
    apply settle_Ok in E as (r & h & Hr & _ & _ & ->).
    assert (∀ id y, <[CommandID (Command l) := settled (clock w) (db_now skew w) l outcome r]> (inbox w) !! id = Some y →
      r_attempts y ≤ MaxAttempts) as Hrows.
    { intros id y [[_ <-]|[_ Hy]]%lookup_insert_Some; [|by apply (HF id)].
      destruct outcome; exact (HF _ r Hr). }
    destruct outcome; by apply Hin.
  - destruct (tasks w !! i); [|done]. by injection H as <-.
  - by injection H as <-.
  - injection H as <-. apply Hin. intros x r [Hr _]%map_lookup_filter_Some. by apply (HF x).
  - unfold RetryCommand in H. destruct (inbox w !! id) as [r|] eqn:Ei; [|done]. destruct (bool_decide _); [done|]. injection H as <-.
    apply Hin. intros x y [[_ <-]|[_ Hy]]%lookup_insert_Some; [by cbn; unfold MaxAttempts|by apply (HF x)].
  - injection H as <-. apply Hin. intros x r [Hr _]%map_lookup_filter_Some. by apply (HF x).
Qed.

Lemma prompt_few w w' : well w → few w → rtc prompt_step w w' → well w' ∧ few w'.
Proof.
  intros HW HF H. induction H as [|x y z [Ht (e & Hf & He)] _ IH]; [done|].
  apply IH; [by eapply well_happens|by eapply few_happens].
Qed.

(** * Properties *)

(** C21. A command is answered once. However deliveries, drains, crashes, late
    goroutines, operators and the clean-up are interleaved, no command is completed
    twice, a completed one is held by nobody and stays completed, two commands of
    one update are never in the inbox together, and what a goroutine manages to
    write about a command is about the attempt the row counts. *)
Theorem completed_once w :
  reachable uuid skew w →
  NoDup (completed w) ∧
  (∀ id r, id ∈ completed w → inbox w !! id = Some r → r_status r = Completed ∧ r_held r = None) ∧
  (∀ id id' r r', inbox w !! id = Some r → inbox w !! id' = Some r' → r_update r = r_update r' → id = id') ∧
  ∀ l now now' outcome t, l ∈ leases w → settle_lease now now' l outcome (inbox w) = Ok t →
    ∃ r, inbox w !! CommandID (Command l) = Some r ∧ r_status r = Leased ∧ r_attempts r = Attempts (Command l) ∧
      ∀ l', l' ∈ leases w → CommandID (Command l') = CommandID (Command l) → l' ≠ l →
        settle_lease now now' l' outcome (inbox w) = Err ErrNotLeased.
Proof.
  intros HW%reachable_table. split; [apply HW|]. split; [|split; [apply (w_update w HW)|]].
  - intros id r Hid Hr. assert (r_status r = Completed) as Hs by (apply (w_final w HW id Hid); done). split; [done|].
    destruct (r_held r) as [h|] eqn:Hh; [|done]. assert (r_status r = Leased) by (eapply held_leased; eauto). congruence.
  - intros l now now' outcome t Hl (r & h & Hr & Hh & Htk & _)%settle_Ok. exists r. split; [done|]. split; [eapply held_leased; eauto|].
    destruct (w_lease w HW l Hl) as (_ & _ & Hag). split; [by apply (Hag _ _ _ Hr Hh Htk)|]. intros l' Hl' Hid Hne. assert (Token l' ≠ h_token h) as Htk'.
    { rewrite Htk. intros E. apply Hne. pose proof (w_tokens w HW) as Hnd.
      apply list_elem_of_lookup in Hl as [i Hi], Hl' as [j Hj].
      assert (j = i) as -> by (eapply (NoDup_lookup _ j i (Token l') Hnd); rewrite list_lookup_fmap; [by rewrite Hj|by rewrite Hi, E]).
      congruence. }
    unfold settle_lease, Complete, Fail_, fenced, held_by. rewrite Hid, Hr, Hh.
    destruct (String.eqb_spec (h_token h) (Token l')); [congruence|by destruct outcome].
Qed.

(** C20. One goroutine works at a command at a time. While the clock of the
    database is not ahead and no operator takes a leased command back, two
    goroutines before their deadlines are never in the middle of the same command:
    a lease ends no sooner than the work it allows. *)
Theorem one_at_work w i j id :
  skew ≤ 0 → calm_reachable uuid skew w → at_work w i id → at_work w j id → i = j.
Proof.
  intros Hsk [HW HC]%calm_reachable_current (l & ls & d & Hi & Hl & Hd) (l' & ls' & d' & Hj & Hl' & Hd').
  assert (∀ k x xs y, tasks w !! k = Some (MkTask (x :: xs) (Working y)) → clock w < y → shows_lease (inbox w) x) as Hshow.
  { intros k x xs y Hk Hy. apply HC; [eapply leases_task; [done|by left]|].
    destruct (w_stage w HW k _ y Hk) as (x' & xs' & [= <- <-] & Hle); [done|]. unfold db_now. lia. }
  destruct (Hshow i l ls d Hi Hd) as (r & h & Hr & Hh & Htk), (Hshow j l' ls' d' Hj Hd') as (r' & h' & Hr' & Hh' & Htk').
  rewrite Hl in Hr. rewrite Hl' in Hr'. apply (bind_index Token t_leases (tasks w) i j _ _ l l' (w_tokens w HW) Hi Hj); [by left..|congruence].
Qed.

(** C22. Nothing is tried without end. Where no lease runs out before its goroutine
    is done, a command is tried at most [MaxAttempts] times between two decisions
    of an operator; one that waits has tries left, and one set aside has had them all. *)
Theorem attempts_bounded now w :
  0 < now → rtc prompt_step (opened_at now) w → ∀ id r, inbox w !! id = Some r →
  0 ≤ r_attempts r ≤ MaxAttempts ∧ (r_status r = Pending → r_attempts r < MaxAttempts) ∧
  (r_status r = Dead → r_attempts r = MaxAttempts).
Proof.
  intros Hn H id r Hr. destruct (prompt_few (opened_at now) w) as [HW HF]; [by apply well_start|done|done|].
  specialize (HF id r Hr). destruct (w_row w HW id r Hr) as [_ _ _ Hp Hd H0]. split; [done|]. split; [done|].
  intros Hs. specialize (Hd Hs). lia.
Qed.
End Kept.

(** * A late goroutine, an operator, and a command that kills *)

Definition numbered (n : nat) : string := pretty n.
#[export] Instance numbered_inj : Inj (=) (=) numbered.
Proof. unfold numbered. apply _. Qed.

Fixpoint plays (skew : Z) (es : list event) (w : world) : option world :=
  match es with
  | [] => Some w
  | e :: es => w ← happens numbered skew e w; plays skew es w
  end.
Lemma plays_calm skew es : ∀ w w', plays skew es w = Some w' → Forall fair es → Forall (λ e, ∀ id, e ≠ Retries id) es →
  rtc (calm_step numbered skew) w w'.
Proof.
  induction es as [|e es IH]; intros w w' H Hf Hr; [by injection H as <-|]. cbn [plays] in H.
  apply bind_Some in H as (w1 & H1 & H). apply Forall_cons in Hf as [Hf Hfs], Hr as [Hr Hrs].
  apply (rtc_l _ _ w1); [|by apply IH]. exists e. split; [done|]. split; [|done]. destruct e; try done. by destruct (Hr id).
Qed.
Lemma calm_reaches skew w w' : rtc (calm_step numbered skew) w w' → rtc (step numbered skew) w w'.
Proof. intros H. eapply rtc_subrel; [|exact H]. intros x y (e & Hf & _ & He). by exists e. Qed.

Definition a_command (update : Z) : InboundCommand := MkCommand "" update "ann" "advice" "{}" "" 0 0.
Definition drains (n : nat) : event := Drains "worker" n [] map_to_list id.
(** The first goroutine takes the lease and is slow; the second takes over after
    the lease has run out and completes the command. *)
Definition late : list event :=
  [Arrives (a_command 1); drains 10; Begins 0; Passes (121 * second); drains 10; Begins 1; Ends 1 None; Settles 1 false;
   Ends 0 None].
Lemma late_fair : Forall fair late ∧ Forall (λ e, ∀ id, e ≠ Retries id) late.
Proof. split; repeat constructor; done. Qed.

Lemma completed_once_witness :
  ∃ w, plays 0 late (opened_at 1) = Some w ∧ completed w = [numbered 0] ∧ NoDup (completed w) ∧
    ∃ r, inbox w !! numbered 0 = Some r ∧ r_status r = Completed.
Proof.
  assert (match plays 0 late (opened_at 1) with
    | Some w => bool_decide (completed w = [numbered 0]) && bool_decide (is_Some (inbox w !! numbered 0)) | None => false end = true)
    as Hb by (vm_compute; reflexivity).
  destruct (plays 0 late (opened_at 1)) as [w|] eqn:E; [|discriminate Hb].
  apply andb_true_iff in Hb as [Hc Hr]. apply bool_decide_eq_true in Hc. apply bool_decide_eq_true in Hr. destruct Hr as [r Hr].
  assert (reachable numbered 0 w) as HR.
  { exists 1. split; [lia|]. apply calm_reaches. destruct late_fair. by apply (plays_calm 0 late). }
  destruct (completed_once numbered numbered_inj 0 w HR) as (Hnd & Hfin & _). exists w. split; [reflexivity|]. split; [exact Hc|].
  split; [exact Hnd|]. exists r. split; [exact Hr|]. apply (Hfin (numbered 0) r); [rewrite Hc; by left|exact Hr].
Defined.

Definition at_workb (w : world) (i : nat) (id : string) : bool :=
  match tasks w !! i with
  | Some (MkTask (l :: _) (Working d)) => String.eqb (CommandID (Command l)) id && (clock w <? d)
  | _ => false
  end.
Lemma at_workb_true w i id : at_workb w i id = true → at_work w i id.
Proof.
  unfold at_workb, at_work. destruct (tasks w !! i) as [[[|l ls] [|d|]]|]; try done.
  intros [Hid%String.eqb_eq Hd%Z.ltb_lt]%andb_true_iff. by exists l, ls, d.
Qed.

Lemma one_at_work_witness :
  ∃ w, plays 0 (take 3 late) (opened_at 1) = Some w ∧ at_work w 0 (numbered 0) ∧ ∀ j, at_work w j (numbered 0) → 0%nat = j.
Proof.
  assert (match plays 0 (take 3 late) (opened_at 1) with Some w => at_workb w 0 (numbered 0) | None => false end = true) as Hb
    by (vm_compute; reflexivity).
  destruct (plays 0 (take 3 late) (opened_at 1)) as [w|] eqn:E; [|discriminate Hb].
  apply at_workb_true in Hb. exists w. split; [reflexivity|]. split; [exact Hb|]. intros j Hj.
  apply (one_at_work numbered numbered_inj 0 w 0 j (numbered 0)); [lia| |exact Hb|exact Hj].
  exists 1. split; [lia|]. destruct late_fair as [H1 H2]. apply (plays_calm 0 (take 3 late)); [exact E|by apply Forall_take..].
Defined.

(** A try that fails, and the wait after it. *)
Definition refused : failure := MkFailure false false None.
Definition a_try (i : nat) : list event := [drains 10; Begins i; Ends i (Some refused); Settles i false; Passes (600 * second)].
Definition five_tries : list event := Arrives (a_command 1) :: a_try 0 ++ a_try 1 ++ a_try 2 ++ a_try 3 ++ a_try 4.

Definition timely (w : world) : bool :=
  forallb (λ kr, match r_held (snd kr) with Some h => db_now 0 w <=? h_until h | None => true end) (map_to_list (inbox w)).
Lemma timely_on_time w : timely w = true → on_time 0 w.
Proof.
  unfold timely. rewrite forallb_forall. intros H id r h Hr Hh. specialize (H (id, r)). cbn in H. rewrite Hh in H.
  apply Z.leb_le, H, list_elem_of_In. by apply elem_of_map_to_list.
Qed.
Fixpoint timely_plays (es : list event) (w : world) : option world :=
  match es with
  | [] => Some w
  | e :: es => if timely w then w ← happens numbered 0 e w; timely_plays es w else None
  end.
Lemma timely_plays_prompt es : ∀ w w', timely_plays es w = Some w' → Forall fair es → rtc (prompt_step numbered 0) w w'.
Proof.
  induction es as [|e es IH]; intros w w' H Hf; [by injection H as <-|]. cbn [timely_plays] in H.
  destruct (timely w) eqn:Ht; [|done]. apply bind_Some in H as (w1 & H1 & H). apply Forall_cons in Hf as [Hf Hfs].
  apply (rtc_l _ _ w1); [|by apply IH]. split; [by apply timely_on_time|by exists e].
Qed.

Lemma attempts_bounded_witness :
  ∃ w r, timely_plays five_tries (opened_at 1) = Some w ∧ inbox w !! numbered 0 = Some r ∧ r_status r = Dead ∧
    r_attempts r = MaxAttempts.
Proof.
  assert (match timely_plays five_tries (opened_at 1) with
    | Some w => match inbox w !! numbered 0 with Some r => bool_decide (r_status r = Dead) | None => false end
    | None => false end = true) as Hb by (vm_compute; reflexivity).
  destruct (timely_plays five_tries (opened_at 1)) as [w|] eqn:E; [|discriminate Hb].
  destruct (inbox w !! numbered 0) as [r|] eqn:Er; [|discriminate Hb]. apply bool_decide_eq_true in Hb.
  exists w, r. split; [reflexivity|]. split; [exact Er|]. split; [exact Hb|].
  apply (attempts_bounded numbered numbered_inj 0 1 w ltac:(lia)) in Er as (_ & _ & Hd); [by apply Hd|].
  apply (timely_plays_prompt five_tries); [exact E|]. repeat constructor; done.
Defined.

(** A command that takes its process with it is never set aside: it is [Fail]
    that counts to five, and it never comes to that. *)
Definition a_death (i : nat) : list event := [drains 10; Begins i; Stops i; Passes (121 * second)].
Example killer_is_kept :
  match plays 0 (Arrives (a_command 1) :: a_death 0 ++ a_death 1 ++ a_death 2 ++ a_death 3 ++ a_death 4 ++ a_death 5 ++ a_death 6)
    (opened_at 1) with
  | Some w => (λ r, (r_status r, r_attempts r)) <$> inbox w !! numbered 0
  | None => None
  end = Some (Leased, 7).
Proof. vm_compute. reflexivity. Qed.

(** An operator's retry takes a leased command from under its goroutine, and a
    database whose clock is ahead lets a lease run out early: then two work at it. *)
Definition both_at_work (w : option world) : bool :=
  match w with Some w => at_workb w 0 (numbered 0) && at_workb w 1 (numbered 0) | None => false end.
Example retry_while_leased :
  both_at_work (plays 0 [Arrives (a_command 1); drains 10; Begins 0; Retries (numbered 0); drains 10; Begins 1] (opened_at 1)) = true.
Proof. vm_compute. reflexivity. Qed.
Example database_ahead :
  both_at_work (plays (180 * second)
    [Arrives (a_command 1); Passes (180 * second); drains 10; Begins 0; drains 10; Begins 1] (opened_at 1)) = true.
Proof. vm_compute. reflexivity. Qed.
