(* ===== verification/Budget.v ===== *)
(** [internal/app/budget_policies.go], [planning_start.go], and the budget of
    [loans.go]: the approved declarations of a borrower become the dated spending
    permissions of the planner.

    A declaration has a day it takes effect, a limit that may grow and be adjusted
    by month, and rules for what is carried and released. [policySpending] lays
    down one permission per day on which something can change; [applyPlanningStart]
    rewrites the permissions before a pause ends. The theorems are in
    [Permissions] and [Pauses]. *)
From S2P Require Import Sim Prelude Money Dates Model Allocation PlanBase BudgetRules PlanInput.

(** * Data *)

Record BudgetCashSplit := MkBudgetSplit { BsLoanID : string; BsMinor : Z }.
Record BudgetCashRouting := MkBudgetRouting {
  BrLoanID : string; BrSplits : list BudgetCashSplit; BrHoldUntil : string; BrHoldMinimumMinor : option Z }.
Record BudgetCashEvent := MkBudgetEvent {
  BeID : string; BeRouting : option BudgetCashRouting; BeFromOpening : bool; BeOn : string; BeMinor : Z; BeExpected : bool }.
Record BudgetFunding := MkFunding {
  PlanningStartMonth : string; SpentPeriodStart : string; BfCashThrough : string; BfMonthlyMinor : Z; SpentMinor : Z;
  BfEvents : list BudgetCashEvent }.

Record BudgetPolicyGrowth := MkPolicyGrowth {
  PgEveryMonths : Z; PgStartsOn : string; PgEndsOn : string; FixedMinor : option Z; PgPercentPPB : option Z;
  MaximumMinor : option Z }.
Record BudgetPolicyAdjustment := MkPolicyAdjustment { PaMonth : string; ReplacementMinor : option Z; DeltaMinor : option Z }.
Record BudgetPolicy := MkBudgetPolicy {
  CarryMinimumMinor : option Z; BpCarryUntil : string; RetainMinor : option Z; RetainPercentPPB : option Z;
  BpVersion : Z; EffectiveFrom : string; MonthlyMinor : Z; BpCycleDay : Z; BpCarryRule : string;
  ReleasedPaymentRule : string; Growth : option BudgetPolicyGrowth; Adjustments : list BudgetPolicyAdjustment }.

Record BudgetReleaseFact := MkRelease {
  PolicyVersion : Z; SourceID : string; PriorSourceID : string; RfOn : string; BeforeMinor : option Z; AfterMinor : option Z }.

Record Budget := MkBudget {
  Policies : list BudgetPolicy; Releases : list BudgetReleaseFact; BuVersion : Z; Funding : option BudgetFunding;
  BuCurrency : string; BuMonthly : Amount; BuPayDay : Z; BuSet : bool; Opening : Amount; OpeningAsOf : Date;
  Reserve : Amount; BuOverrides : gmap string Z }.

(** * Dates as texts *)

Definition date_text (d : Date) : string := String.string_of_list_ascii (Dates.String d).
Definition parse_date (s : string) : res Date := Dates.Parse (String.list_ascii_of_string s).
(** [a <= b] of strings. *)
Definition text_le (a b : string) : bool := negb (String.ltb b a).
(** [d, _ := date.Parse(s)]. *)
Definition parsed (s : string) : Date := match parse_date s with Ok d => d | _ => zero_date end.

(** * [loans.go]: the declarations alone *)

(** [BudgetCashEvent.cashEvent]. *)
Definition cashEvent (e : BudgetCashEvent) (cr : Currency) : CashEvent :=
  MkCashEvent (BeID e)
    (match BeRouting e with
     | None => None
     | Some r => Some (MkCashRouting (BrLoanID r)
         ((λ s, MkCashSplit (BsLoanID s) (FromMinor (BsMinor s) cr)) <$> BrSplits r)
         (if String.eqb (BrHoldUntil r) "" then zero_date else parsed (BrHoldUntil r))
         (match BrHoldMinimumMinor r with Some n => FromMinor n cr | None => no_amount end))
     end) (BeFromOpening e) (parsed (BeOn e)) (FromMinor (BeMinor e) cr) (BeExpected e).

(** The opening statement holds within its month and never from the future. *)
Definition stated (b : Budget) (valuation : Date) : bool :=
  negb (Dates.IsZero (OpeningAsOf b)) && String.eqb (MonthKey (OpeningAsOf b)) (MonthKey valuation) &&
  negb (After (OpeningAsOf b) valuation).

Definition opening_usable (b : Budget) : Amount :=
  if 0 <? Sign (Reserve b)
  then match Sub (Opening b) (Reserve b) with
       | Ok usable => if 0 <? Sign usable then usable else Zero (cur (Opening b))
       | _ => Zero (cur (Opening b))
       end
  else Opening b.

Definition counts_event (valuation through : Date) (e : BudgetCashEvent) : bool :=
  match parse_date (BeOn e) with
  | Ok on =>
      match BeRouting e with
      | Some _ => true
      | None => negb (Before on valuation) && (Dates.IsZero through || After on through)
      end
  | _ => false
  end.

Definition declaredCashPlan (b : Budget) (valuation : Date) : CashPlan :=
  let cr := cur (BuMonthly b) in
  let overrides := (λ v, FromMinor v cr) <$> BuOverrides b in
  match Funding b with
  | None =>
      MkCashPlan zero_date None (BuMonthly b) (BuPayDay b)
        (if (0 <? Sign (Opening b)) && stated b valuation then opening_usable b else no_amount) no_amount [] overrides
  | Some f =>
      let through := if stated b valuation then parsed (BfCashThrough f) else zero_date in
      MkCashPlan through
        (Some (MkSpendingPlan false 0 [] "" "" no_amount zero_date (BuMonthly b) overrides
          (if stated b valuation then FromMinor (SpentMinor f) cr else no_amount)))
        (FromMinor (BfMonthlyMinor f) cr) (BuPayDay b) (if stated b valuation then Opening b else Zero cr) (Reserve b)
        ((λ e, cashEvent e cr) <$> List.filter (counts_event valuation through) (BfEvents f)) ∅
  end.

(** * One policy *)

Definition cycle (day : Z) : SpendingPlan :=
  MkSpendingPlan false day [] "" "" no_amount zero_date no_amount ∅ no_amount.

Definition optional_amount (n : option Z) (cr : Currency) : option Amount := (λ n, FromMinor n cr) <$> n.

(** The growth as the planner takes it, before the cycle is brought in. *)
Definition read_growth (g : BudgetPolicyGrowth) (cr : Currency) : pres SpendingLimitGrowth :=
  if bool_decide (FixedMinor g = None) && bool_decide (PgPercentPPB g = None) ||
     negb (bool_decide (FixedMinor g = None)) && negb (bool_decide (PgPercentPPB g = None))
  then fails "budget: choose one growth operation"
  else
    match parse_date (PgStartsOn g) with
    | Ok start =>
        match (if String.eqb (PgEndsOn g) "" then Ok zero_date else parse_date (PgEndsOn g)) with
        | Ok end_ =>
            Ok (MkGrowth (PgEveryMonths g) start end_ (default no_amount (optional_amount (FixedMinor g) cr))
              (default 0 (PgPercentPPB g)) (default no_amount (optional_amount (MaximumMinor g) cr)))
        | _ => fails "budget: invalid growth end"
        end
    | _ => fails "budget: invalid growth start"
    end.

(** A user cycle's growth starts on a boundary and is counted by month. *)
Definition on_cycle (day : Z) (g : SpendingLimitGrowth) : pres SpendingLimitGrowth :=
  if negb (Equal (PeriodStart (cycle day) (StartsOn g)) (StartsOn g)) ||
     (negb (Dates.IsZero (EndsOn g)) && Before (EndsOn g) (StartsOn g))
  then fails "budget: growth must start on a cycle boundary"
  else Ok (MkGrowth (EveryMonths g) (OnDayOfMonth (StartsOn g) 1)
    (if Dates.IsZero (EndsOn g) then EndsOn g else EndOfMonth (PeriodStart (cycle day) (EndsOn g)))
    (GrowFixed g) (PercentPPB g) (Maximum g)).

Definition rules (p : BudgetPolicy) (cr : Currency) (noGrowth : bool) :
    pres (option SpendingLimitGrowth * list SpendingLimitAdjustment) :=
  growth ← (match Growth p with
    | None => Ok None
    | Some g =>
        g ← read_growth g cr;
        g ← (if 1 <? BpCycleDay p then on_cycle (BpCycleDay p) g else Ok g);
        Ok (Some g)
    end);
  Ok (if noGrowth then None else growth,
      (λ a, MkAdjustment (PaMonth a) (optional_amount (ReplacementMinor a) cr) (optional_amount (DeltaMinor a) cr)) <$> Adjustments p).

Definition has (n : option Z) : bool := match n with Some _ => true | None => false end.
Definition satisfies (n : option Z) (f : Z → bool) : bool := match n with Some x => f x | None => false end.

Definition check_carry (p : BudgetPolicy) (effective : Date) : pres unit :=
  let rule := BpCarryRule p in
  if String.eqb rule CarryCash || String.eqb rule NoCarry
  then if has (CarryMinimumMinor p) || negb (String.eqb (BpCarryUntil p) "") then fails "budget: unexpected carry parameters" else Ok tt
  else if String.eqb rule BatchUntil
  then if negb (satisfies (CarryMinimumMinor p) (λ n, 0 <? n)) || negb (String.eqb (BpCarryUntil p) "")
       then fails "budget: carry threshold required" else Ok tt
  else if String.eqb rule CarryToDate
  then match parse_date (BpCarryUntil p) with
       | Ok until => if Before until effective || has (CarryMinimumMinor p) then fails "budget: carry date required" else Ok tt
       | _ => fails "budget: carry date required"
       end
  else fails "budget: invalid carry rule".

Definition check_release (p : BudgetPolicy) : pres unit :=
  let rule := ReleasedPaymentRule p in
  if String.eqb rule RollAll || String.eqb rule ReleaseAll
  then if has (RetainMinor p) || has (RetainPercentPPB p) then fails "budget: unexpected retained payment" else Ok tt
  else if String.eqb rule RollAmount
  then if negb (satisfies (RetainMinor p) (λ n, 0 <=? n)) || has (RetainPercentPPB p) then fails "budget: retained amount required" else Ok tt
  else if String.eqb rule RollPercent
  then if negb (satisfies (RetainPercentPPB p) (λ n, (0 <=? n) && (n <=? 1000000000))) || has (RetainMinor p)
       then fails "budget: retained percentage required" else Ok tt
  else unsupported "" "released-payment goal requires a defined confirmed target".

Definition BudgetPolicy_Validate (p : BudgetPolicy) (currency : string) : pres unit :=
  cr ← core (Lookup currency);
  match parse_date (EffectiveFrom p) with
  | Ok effective =>
      if (Year effective <? 1) || (9949 <? Year effective) || (MonthlyMinor p <? 0) || (BpCycleDay p <? 0) ||
         (31 <? BpCycleDay p) || Nat.ltb 36 (length (Adjustments p))
      then fails "budget: invalid policy"
      else
        _ ← check_carry p effective;
        _ ← check_release p;
        '(g, a) ← rules p cr false;
        if match g, Growth p with Some _, Some pg => String.ltb (PgStartsOn pg) (date_text effective) | _, _ => false end
        then fails "budget: growth precedes policy"
        else _ ← ExpandSpendingLimits (FromMinor (MonthlyMinor p) cr) effective DefaultHorizon g a; Ok tt
  | _ => fails "budget: invalid policy"
  end.

(** * Which policy is in force *)

(** Policies by the day they take effect, then by version. *)
Definition policy_before (a b : BudgetPolicy) : bool :=
  if String.eqb (EffectiveFrom a) (EffectiveFrom b) then BpVersion a <? BpVersion b
  else String.ltb (EffectiveFrom a) (EffectiveFrom b).

(** [policySpending]: the last of the sorted policies that is in effect. *)
Definition active_at (policies : list BudgetPolicy) (on : string) : option BudgetPolicy :=
  foldl (λ a p, if text_le (EffectiveFrom p) on then Some p else a) None policies.

(** [BudgetPeriodStart]: one pass over the policies as they are. *)
Definition newer (on : string) (a : option BudgetPolicy) (p : BudgetPolicy) : option BudgetPolicy :=
  if text_le (EffectiveFrom p) on &&
     match a with
     | None => true
     | Some q => String.ltb (EffectiveFrom q) (EffectiveFrom p) ||
         (String.eqb (EffectiveFrom p) (EffectiveFrom q) && (BpVersion q <? BpVersion p))
     end
  then Some p else a.
Definition latest (policies : list BudgetPolicy) (on : string) : option BudgetPolicy := foldl (newer on) None policies.
Definition BudgetPeriodStart (policies : list BudgetPolicy) (on : Date) : Date :=
  PeriodStart (cycle (match latest policies (date_text on) with Some p => BpCycleDay p | None => 1 end)) on.

(** * Released payments *)

(** The first boundary of the policy's cycle after a confirmation. *)
Definition takes_hold (day : Z) (confirmed : Date) : Date :=
  OnDayOfMonth (AddMonths (PeriodStart (cycle day) confirmed) 1) (Z.max 1 day).

Fixpoint release_facts (cr : Currency) (policy : BudgetPolicy) (on valuation : Date) (seen : gset string)
    (facts : list BudgetReleaseFact) (limit : Amount) : pres Amount :=
  match facts with
  | [] => Ok limit
  | fact :: facts =>
      if negb (PolicyVersion fact =? BpVersion policy) || bool_decide (SourceID fact ∈ seen)
      then release_facts cr policy on valuation seen facts limit
      else
        confirmed ← core (parse_date (RfOn fact));
        let seen := {[SourceID fact]} ∪ seen in
        if After confirmed valuation || After (takes_hold (BpCycleDay policy) confirmed) on
        then release_facts cr policy on valuation seen facts limit
        else
          match BeforeMinor fact, AfterMinor fact with
          | Some before, Some after =>
              reduction ← ReleasedReduction (FromMinor before cr) (FromMinor after cr) (ReleasedPaymentRule policy)
                (match RetainMinor policy with Some n => FromMinor n cr | None => Zero cr end)
                (default 0 (RetainPercentPPB policy)) true;
              limit ← core (Sub limit reduction);
              release_facts cr policy on valuation seen facts (if Sign limit <? 0 then Zero cr else limit)
          | _, _ => unsupported "" "confirmed prior and new instalments required for release"
          end
  end.

Definition releasedLimit (b : Budget) (policy : BudgetPolicy) (limit : Amount) (on valuation : Date) : pres Amount :=
  if String.eqb (ReleasedPaymentRule policy) RollAll then Ok limit
  else release_facts (cur (BuMonthly b)) policy on valuation ∅ (Releases b) limit.

(** * The dated permissions *)

(** The days a cycle starts on, from [d] to [end_]. *)
Fixpoint boundaries (fuel : nat) (day : Z) (end_ d : Date) : option (list Date) :=
  if After d end_ then Some []
  else match fuel with
    | O => None
    | S fuel => cons d <$> boundaries fuel day end_ (OnDayOfMonth (AddMonths d 1) day)
    end.

Definition days_of (l : list Date) : gmap string Date := list_to_map ((λ d, (date_text d, d)) <$> l).
Definition in_order (days : gmap string Date) : list Date := SliceStable Before (map_to_list days).*2.

(** The boundaries after the valuation cycle. *)
Definition later_boundaries (p : SpendingPlan) (valuation end_ : Date) : option (list Date) :=
  boundaries (Z.to_nat DefaultHorizon + 2) (cycle_day p) end_
    (OnDayOfMonth (AddMonths (PeriodStart p valuation) 1) (cycle_day p)).

Definition the_limit (key : string) (limits : gmap string Amount) : Amount := default no_amount (limits !! key).

(** The permission of a day, by the policy in force then. *)
Definition change_on (b : Budget) (policies : list BudgetPolicy) (p : SpendingPlan) (valuation : Date) (noGrowth : bool)
    (d : Date) : pres SpendingChange :=
  let cr := cur (BuMonthly b) in
  let start := PeriodStart p d in
  let key := MonthKey start in
  match active_at policies (date_text d) with
  | Some active =>
      '(g, a) ← rules active cr noGrowth;
      limits ← ExpandSpendingLimits (FromMinor (MonthlyMinor active) cr) start 1 g [];
      limit ← releasedLimit b active (the_limit key limits) d valuation;
      limits ← ExpandSpendingLimits limit start 1 None a;
      Ok (MkSpendingChange d (the_limit key limits) (BpCarryRule active) (default no_amount (optional_amount (CarryMinimumMinor active) cr))
        (if String.eqb (BpCarryUntil active) "" then zero_date else parsed (BpCarryUntil active)))
  | None =>
      Ok (MkSpendingChange d (match BuOverrides b !! key with Some n => FromMinor n cr | None => BuMonthly b end)
        CarryCash no_amount zero_date)
  end.

Fixpoint changes_on (f : Date → pres SpendingChange) (days : list Date) : pres (list SpendingChange) :=
  match days with
  | [] => Ok []
  | d :: days => c ← f d; l ← changes_on f days; Ok (c :: l)
  end.

(** Every policy stands, and none changes an established cycle. *)
Fixpoint check_policies (currency : string) (day : Z) (policies : list BudgetPolicy) : pres unit :=
  match policies with
  | [] => Ok tt
  | p :: policies =>
      _ ← BudgetPolicy_Validate p currency;
      if negb (BpCycleDay p =? day) && ((1 <? BpCycleDay p) || (1 <? day))
      then unsupported "" "changing an established budget cycle"
      else check_policies currency day policies
  end.

(** The facts up to the valuation are read; the planner does not use them. *)
Fixpoint read_facts (valuation : Date) (facts : list BudgetReleaseFact) : pres unit :=
  match facts with
  | [] => Ok tt
  | fact :: facts =>
      if text_le (RfOn fact) (date_text valuation)
      then _ ← core (parse_date (RfOn fact)); read_facts valuation facts else read_facts valuation facts
  end.

(** What the opening statement says was spent in the valuation cycle. *)
Definition stated_spending (b : Budget) (f : BudgetFunding) (p : SpendingPlan) (valuation : Date) : pres Amount :=
  let cr := cur (BuMonthly b) in
  if negb (Dates.IsZero (OpeningAsOf b)) && negb (After (OpeningAsOf b) valuation) &&
     Equal (PeriodStart p (OpeningAsOf b)) (PeriodStart p valuation)
  then
    if (1 <? CycleDay p) && (0 <? SpentMinor f) && negb (String.eqb (SpentPeriodStart f) (date_text (PeriodStart p (OpeningAsOf b))))
    then unsupported "" "user-cycle spending statement required"
    else Ok (FromMinor (SpentMinor f) cr)
  else Ok (Zero cr).

Definition starts_within (valuation end_ d : Date) : bool := After d valuation && negb (After d end_).

(** The days on which something can change. *)
Definition policy_days (policies : list BudgetPolicy) (p : SpendingPlan) (valuation end_ : Date) : option (list Date) :=
  bs ← later_boundaries p valuation end_;
  Some (in_order (days_of (List.filter (starts_within valuation end_) ((parsed ∘ EffectiveFrom) <$> policies) ++ bs ++ [valuation]))).

Definition policySpending (b : Budget) (f : BudgetFunding) (valuation : Date) (noGrowth : bool) : pres SpendingPlan :=
  match SliceStable policy_before (Policies b) with
  | [] => Panic "index out of range"
  | first :: others =>
      let policies := first :: others in
      _ ← read_facts valuation (Releases b);
      _ ← check_policies (BuCurrency b) (BpCycleDay first) policies;
      let p := cycle (BpCycleDay first) in
      if (1 <? BpCycleDay first) && String.ltb (date_text valuation) (EffectiveFrom first)
      then unsupported "" "future transition from calendar to user cycle"
      else
        spent ← stated_spending b f p valuation;
        match policy_days policies p valuation (EndOfMonth (AddMonths valuation (DefaultHorizon - 1))) with
        | None => Panic "out of fuel"
        | Some days =>
            changes ← changes_on (change_on b policies p valuation noGrowth) days;
            Ok (MkSpendingPlan true (BpCycleDay first) changes "" CarryCash no_amount zero_date (BuMonthly b) ∅ spent)
        end
  end.

(** * [planning_start.go]: a pause *)

(** What a plan holds in force on a day, as the planner reads it. *)
Definition terms_on (sp : SpendingPlan) (on : Date) : terms :=
  in_force on (Changes sp)
    (default (SpMonthly sp) (SpOverrides sp !! MonthKey (PeriodStart sp on)), (CarryRule sp, CarryMinimum sp, CarryUntil sp)).

Definition paused_change (sp : SpendingPlan) (valuation start on : Date) : SpendingChange :=
  let '(limit, (rule, minimum, until)) := terms_on sp on in
  let cr := cur (SpMonthly sp) in
  MkSpendingChange on
    (if Before on start
     then if Equal (PeriodStart sp on) (PeriodStart sp valuation) then FromMinor (minor (Spent sp)) cr else Zero cr
     else limit) rule minimum until.

Definition pause_days (sp : SpendingPlan) (valuation start : Date) : option (list Date) :=
  bs ← later_boundaries sp valuation (EndOfMonth (AddMonths valuation DefaultHorizon));
  Some (in_order (days_of (List.filter (λ d, negb (Before d valuation)) (ScOn <$> Changes sp) ++ bs ++ [start; valuation]))).

Definition pause (sp : SpendingPlan) (valuation start : Date) : pres SpendingPlan :=
  if minor (fst (terms_on sp valuation)) <? minor (Spent sp) then Ok sp
  else
    match pause_days sp valuation start with
    | None => Panic "out of fuel"
    | Some days =>
        Ok (MkSpendingPlan (ConfirmedReleaseOnly sp) (CycleDay sp) (paused_change sp valuation start <$> days) (RuleError sp)
          (CarryRule sp) (CarryMinimum sp) (CarryUntil sp) (SpMonthly sp) (SpOverrides sp) (Spent sp))
    end.

Definition with_spending (cp : CashPlan) (sp : SpendingPlan) : CashPlan :=
  MkCashPlan (CashThrough cp) (Some sp) (Monthly cp) (PayDay cp) (OpeningCash cp) (ReserveFloor cp) (Lumps cp) (MonthlyOverrides cp).
Definition with_rule_error (sp : SpendingPlan) (why : string) : SpendingPlan :=
  MkSpendingPlan (ConfirmedReleaseOnly sp) (CycleDay sp) (Changes sp) why (CarryRule sp) (CarryMinimum sp) (CarryUntil sp)
    (SpMonthly sp) (SpOverrides sp) (Spent sp).

Definition applyPlanningStart (b : Budget) (cp : CashPlan) (valuation : Date) : pres CashPlan :=
  match Funding b, Spending cp with
  | Some f, Some sp =>
      if String.eqb (PlanningStartMonth f) "" then Ok cp
      else
        match parse_month (PlanningStartMonth f) with
        | Ok start => if negb (After start valuation) then Ok cp else sp ← pause sp valuation start; Ok (with_spending cp sp)
        | _ => Ok (with_spending cp (with_rule_error sp "invalid planning start month"))
        end
  | _, _ => Ok cp
  end.

(** * The cash plans *)

(** A statement is kept within the declared cycle, which may span two months. *)
Definition restoreCash (b : Budget) (f : BudgetFunding) (valuation : Date) (cp : CashPlan) : CashPlan :=
  if negb (Dates.IsZero (OpeningAsOf b)) && negb (After (OpeningAsOf b) valuation) &&
     Equal (BudgetPeriodStart (Policies b) (OpeningAsOf b)) (BudgetPeriodStart (Policies b) valuation)
  then MkCashPlan (match parse_date (BfCashThrough f) with Ok through => through | _ => CashThrough cp end) (Spending cp)
         (Monthly cp) (PayDay cp) (Opening b) (ReserveFloor cp) (Lumps cp) (MonthlyOverrides cp)
  else cp.

(** With growth and without. *)
Definition CashPlans (b : Budget) (valuation : Date) : pres (CashPlan * CashPlan) :=
  let base := declaredCashPlan b valuation in
  match Policies b, Funding b with
  | [], _ => base ← applyPlanningStart b base valuation; Ok (base, base)
  | _, None => unsupported "" "budget policies require explicit funding"
  | _, Some f =>
      let cash := restoreCash b f valuation base in
      grown ← policySpending b f valuation false;
      flat ← policySpending b f valuation true;
      grown ← applyPlanningStart b (with_spending cash grown) valuation;
      flat ← applyPlanningStart b (with_spending cash flat) valuation;
      Ok (grown, flat)
  end.

(** The planner refuses what could not be worked out. *)
Definition refused_plan (b : Budget) (valuation : Date) : CashPlan :=
  let base := declaredCashPlan b valuation in
  with_spending (match Funding b with Some f => restoreCash b f valuation base | None => base end)
    (MkSpendingPlan false 0 [] "invalid budget policy" "" no_amount zero_date (BuMonthly b) ∅ no_amount).

Definition Budget_CashPlan (b : Budget) (valuation : Date) : result gerror CashPlan :=
  if negb (bool_decide (Policies b = [])) ||
     match Funding b with Some f => negb (String.eqb (PlanningStartMonth f) "") | None => false end
  then match CashPlans b valuation with
       | Ok (cp, _) => Ok cp
       | Err _ => Ok (refused_plan b valuation)
       | Panic w => Panic w
       end
  else Ok (declaredCashPlan b valuation).

(** The approved limit of a day; a pause does not rewrite it. *)
Definition without_pause (b : Budget) : Budget :=
  MkBudget (Policies b) (Releases b) (BuVersion b)
    ((λ f, MkFunding "" (SpentPeriodStart f) (BfCashThrough f) (BfMonthlyMinor f) (SpentMinor f) (BfEvents f)) <$> Funding b)
    (BuCurrency b) (BuMonthly b) (BuPayDay b) (BuSet b) (Opening b) (OpeningAsOf b) (Reserve b) (BuOverrides b).
Definition PermissionOn (b : Budget) (on : Date) : pres Amount :=
  match Policies b with
  | [] => Ok (match BuOverrides b !! MonthKey on with Some n => FromMinor n (cur (BuMonthly b)) | None => BuMonthly b end)
  | _ =>
      '(cp, _) ← CashPlans (without_pause b) on;
      match Spending cp with
      | Some sp => match Changes sp with c :: _ => Ok (Limit c) | [] => Panic "index out of range" end
      | None => Panic "nil pointer dereference"
      end
  end.

(** What [SaveBudgetPolicy] hands to the store, given the stored budget. *)
Definition numbered_policy (p : BudgetPolicy) (version : Z) : BudgetPolicy :=
  MkBudgetPolicy (CarryMinimumMinor p) (BpCarryUntil p) (RetainMinor p) (RetainPercentPPB p) version (EffectiveFrom p)
    (MonthlyMinor p) (BpCycleDay p) (BpCarryRule p) (ReleasedPaymentRule p) (Growth p) (Adjustments p).
Definition with_policy (b : Budget) (p : BudgetPolicy) : Budget :=
  MkBudget (Policies b ++ [p]) (Releases b) (BuVersion b) (Funding b) (BuCurrency b) (BuMonthly b) (BuPayDay b) (BuSet b)
    (Opening b) (OpeningAsOf b) (Reserve b) (BuOverrides b).

Definition SaveBudgetPolicy (b : Budget) (currency : string) (expectedVersion : Z) (today : Date) (policy : BudgetPolicy) :
    pres BudgetPolicy :=
  _ ← BudgetPolicy_Validate policy currency;
  let on := parsed (EffectiveFrom policy) in
  if Before on today then fails "budget: cannot backdate permission"
  else if negb (BuSet b) || negb (String.eqb (BuCurrency b) currency) || negb (BuVersion b =? expectedVersion)
  then fails "app: conflict"
  else if bool_decide (Policies b = []) && (1 <? BpCycleDay policy) &&
     match Funding b with
     | None => true
     | Some f => negb (SpentMinor f =? 0) || negb (Equal on today) || negb (Equal on (PeriodStart (cycle (BpCycleDay policy)) on))
     end
  then unsupported "" "user cycle requires an unspent cycle boundary"
  else
    let policy := numbered_policy policy (iadd expectedVersion 1) in
    _ ← CashPlans (with_policy b policy) today;
    Ok policy.
