(* ===== verification/Permissions.v ===== *)
(** What [Budget] promises of its dated permissions: laid down day by day, they
    are on every day what the rule of that day gives.

    Dates are ordered as their texts are, which the code relies on; the days
    chosen for a change hold every boundary and every start of a policy; and
    between two of them the rule does not change. *)
From S2P Require Import Sim Prelude Money Dates Model PlanBase BudgetRules PlanInput Budget.

(** * Dates are ordered as their texts are *)

Definition digits_from (a : Z) (l : list Ascii.ascii) : option Z :=
  foldl (λ acc c, a ← acc; v ← digit_val c; Some (10 * a + v)) (Some a) l.

Lemma digits_none l : foldl (λ acc c, a ← acc; v ← digit_val c; Some (10 * a + v)) (None : option Z) l = None.
Proof. induction l; done. Qed.
Lemma digits_cons a c l v : digits_from a (c :: l) = Some v → ∃ d, digit_val c = Some d ∧ 0 ≤ d ≤ 9 ∧ digits_from (10 * a + d) l = Some v.
Proof.
  unfold digits_from. cbn. destruct (digit_val c) as [d|] eqn:E; cbn; [|by rewrite digits_none].
  intros H. exists d. split; [done|]. split; [|done]. unfold digit_val in E. case_if_in E; [injection E as <-; lia|done].
Qed.

Lemma digits_lt l : ∀ l' a a' v v', length l = length l' → digits_from a l = Some v → digits_from a' l' = Some v' → a < a' → v < v'.
Proof.
  induction l as [|c l IH]; intros [|c' l'] a a' v v' Hlen H H' Hlt; try done.
  - cbn in H, H'. injection H as <-. by injection H' as <-.
  - apply digits_cons in H as (d & _ & Hd & H), H' as (d' & _ & Hd' & H'). injection Hlen as Hlen.
    apply (IH l' (10 * a + d) (10 * a' + d')); [done..|lia].
Qed.

Lemma digit_val_code c d : digit_val c = Some d → Z.of_N (Ascii.N_of_ascii c) = 48 + d.
Proof.
  unfold digit_val. intros H. case_if_in H; [|done]. injection H as <-. unfold Ascii.nat_of_ascii. lia.
Qed.

(** Digit strings of one length compare as their values. *)
Lemma compare_digits l : ∀ l' r r' a v v', length l = length l' → digits_from a l = Some v → digits_from a l' = Some v' →
  String.compare (String.string_of_list_ascii (l ++ r)) (String.string_of_list_ascii (l' ++ r')) =
  match Z.compare v v' with Eq => String.compare (String.string_of_list_ascii r) (String.string_of_list_ascii r') | c => c end.
Proof.
  induction l as [|c l IH]; intros [|c' l'] r r' a v v' Hlen H H'; try done.
  - cbn in H, H'. injection H as <-. injection H' as <-. by rewrite Z.compare_refl.
  - apply digits_cons in H as (d & Hd & Hr & H), H' as (d' & Hd' & Hr' & H'). injection Hlen as Hlen.
    apply digit_val_code in Hd, Hd'. cbn. rewrite ascii_compare_code.
    destruct (N.compare_spec (Ascii.N_of_ascii c) (Ascii.N_of_ascii c')) as [E|E|E].
    + assert (d = d') as <- by lia. by apply (IH l' r r' (10 * a + d)).
    + assert (v < v') as Hlt by (apply (digits_lt l l' (10 * a + d) (10 * a + d')); [done..|lia]). by rewrite (proj2 (Z.compare_lt_iff _ _) Hlt).
    + assert (v' < v) as Hlt by (apply (digits_lt l' l (10 * a + d') (10 * a + d)); [done..|lia]). by rewrite (proj2 (Z.compare_gt_iff _ _) Hlt).
Qed.

(** A date whose text has four, two and two digits. *)
Definition written_date (d : Date) : Prop := valid d ∧ 0 ≤ Year d ≤ 9999.

Lemma written_text d : written_date d → ∃ y m x, length y = 4%nat ∧ length m = 2%nat ∧ length x = 2%nat ∧
  digits_from 0 y = Some (Year d) ∧ digits_from 0 m = Some (Month d) ∧ digits_from 0 x = Some (Day d) ∧
  Dates.String d = y ++ dash :: m ++ dash :: x ++ [].
Proof.
  intros [[Hm Hd] Hy]. pose proof (month_len_range (Year d) (Month d)).
  destruct (Sprintf_04d_digits (Year d) Hy) as (y3 & y2 & y1 & y0 & Ey & Vy).
  destruct (Sprintf_02d_digits (Month d) ltac:(lia)) as (m1 & m0 & Em & Vm).
  destruct (Sprintf_02d_digits (Day d) ltac:(lia)) as (d1 & d0 & Ed & Vd).
  exists [y3; y2; y1; y0], [m1; m0], [d1; d0]. unfold Dates.String. by rewrite Ey, Em, Ed.
Qed.

Lemma compare_dash l l' :
  String.compare (String.string_of_list_ascii (dash :: l)) (String.string_of_list_ascii (dash :: l')) =
  String.compare (String.string_of_list_ascii l) (String.string_of_list_ascii l').
Proof. done. Qed.

Lemma text_before a b : written_date a → written_date b → String.ltb (date_text a) (date_text b) = Before a b.
Proof.
  intros Ha Hb. pose proof Ha as [[_ _] _]. unfold date_text, String.ltb.
  destruct (written_text a Ha) as (y & m & x & Ly & Lm & Lx & Vy & Vm & Vx & ->), (written_text b Hb) as (y' & m' & x' & Ly' & Lm' & Lx' & Vy' & Vm' & Vx' & ->).
  rewrite (compare_digits y y' _ _ 0 _ _ ltac:(congruence) Vy Vy'), compare_dash,
    (compare_digits m m' _ _ 0 _ _ ltac:(congruence) Vm Vm'), compare_dash, (compare_digits x x' _ _ 0 _ _ ltac:(congruence) Vx Vx').
  rewrite (Before_time a b) by apply Ha || apply Hb. unfold Before. 
  destruct Ha as [Ha _], Hb as [Hb _]. rewrite <- Before_time by done. unfold Before, Compare.
  destruct (Z.compare_spec (Year a) (Year b)), (Z.compare_spec (Month a) (Month b)), (Z.compare_spec (Day a) (Day b));
    repeat case_match; try done; lia.
Qed.

Lemma written_inj a b : written_date a → written_date b → date_text a = date_text b → a = b.
Proof.
  intros Ha Hb E. apply time_inj; [apply Ha|apply Hb|].
  pose proof (text_before a b Ha Hb) as H1. pose proof (text_before b a Hb Ha) as H2.
  rewrite E, string_ltb_irrefl in H1, H2. rewrite Before_time in H1, H2 by apply Ha || apply Hb. lia.
Qed.

(** What reads as a date is the text of that date. *)
Lemma digit_val_inj c c' d : digit_val c = Some d → digit_val c' = Some d → c = c'.
Proof.
  intros H%digit_val_code H'%digit_val_code. rewrite <- (Ascii.ascii_N_embedding c), <- (Ascii.ascii_N_embedding c').
  f_equal. lia.
Qed.
Lemma digits_inj l : ∀ l' a v, length l = length l' → digits_from a l = Some v → digits_from a l' = Some v → l = l'.
Proof.
  induction l as [|c l IH]; intros [|c' l'] a v Hlen H H'; try done.
  apply digits_cons in H as (d & Hd & Hr & H), H' as (d' & Hd' & Hr' & H'). injection Hlen as Hlen.
  destruct (Z.lt_trichotomy d d') as [E|[<-|E]].
  - pose proof (digits_lt l l' (10 * a + d) (10 * a + d') v v Hlen H H' ltac:(lia)). lia.
  - f_equal; [by apply (digit_val_inj c c' d)|by apply (IH l' (10 * a + d) v)].
  - pose proof (digits_lt l' l (10 * a + d') (10 * a + d) v v (eq_sym Hlen) H' H ltac:(lia)). lia.
Qed.
Lemma digits_bound l : ∀ a v, digits_from a l = Some v → 0 ≤ a → a * 10 ^ Z.of_nat (length l) ≤ v < (a + 1) * 10 ^ Z.of_nat (length l).
Proof.
  induction l as [|c l IH]; intros a v H Ha; [cbn in H; injection H as <-; cbn; lia|].
  apply digits_cons in H as (d & _ & Hr & H). apply IH in H; [|lia]. cbn [length].
  rewrite Nat2Z.inj_succ, Z.pow_succ_r by lia. pose proof (Z.pow_pos_nonneg 10 (Z.of_nat (length l)) ltac:(lia) ltac:(lia)). nia.
Qed.

Lemma parse_date_Ok s d : parse_date s = Ok d → written_date d ∧ date_text d = s.
Proof.
  intros H. pose proof (Parse_valid _ _ H) as Hv. unfold parse_date, Parse in H.
  rewrite <- (String.string_of_list_ascii_of_string s). unfold date_text.
  destruct (String.list_ascii_of_string s) as [|y3 [|y2 [|y1 [|y0 [|h1 [|m1 [|m0 [|h2 [|d1 [|d0 [|]]]]]]]]]]]; try discriminate H.
  destruct (digits_val [y3; y2; y1; y0]) as [yy|] eqn:Ey; [|done]. destruct (digits_val [m1; m0]) as [mm|] eqn:Em; [|done].
  destruct (digits_val [d1; d0]) as [dd|] eqn:Ed; [|done]. destruct (negb _) eqn:Eh; [done|].
  apply negb_false_iff, andb_true_iff in Eh as [->%bool_decide_eq_true ->%bool_decide_eq_true].
  do 2 (case_if_in H; [done|]). injection H as <-.
  pose proof (digits_bound _ _ _ Ey ltac:(lia)) as Hy. pose proof (digits_bound _ _ _ Em ltac:(lia)) as Hm.
  pose proof (digits_bound _ _ _ Ed ltac:(lia)) as Hd. cbn in Hy, Hm, Hd.
  split; [split; [done|cbn; lia]|]. unfold Dates.String. cbn [Year Month Day]. f_equal.
  destruct (Sprintf_04d_digits yy ltac:(lia)) as (a & b & c & e & -> & Ey').
  destruct (Sprintf_02d_digits mm ltac:(lia)) as (f & g & -> & Em'). destruct (Sprintf_02d_digits dd ltac:(lia)) as (h & i & -> & Ed').
  by rewrite (digits_inj [a; b; c; e] [y3; y2; y1; y0] 0 yy eq_refl Ey' Ey), (digits_inj [f; g] [m1; m0] 0 mm eq_refl Em' Em),
    (digits_inj [h; i] [d1; d0] 0 dd eq_refl Ed' Ed).
Qed.

(** * The days that are laid down *)

(** Days kept by their text come out in the order of the calendar. *)
Definition earlier (a b : Date) : Prop := time a < time b.

Section Days.
Context (l : list Date) (Hl : Forall written_date l).

Lemma days_of_lookup k d : Budget.days_of l !! k = Some d ↔ k = date_text d ∧ d ∈ l.
Proof using Hl.
  unfold Budget.days_of. split.
  - intros H%elem_of_list_to_map_2. apply list_elem_of_fmap in H as (x & [= -> ->] & Hx). done.
  - intros [-> Hd]. apply elem_of_list_to_map_1'.
    + intros y Hy. apply list_elem_of_fmap in Hy as (x & [= E ->] & Hx). rewrite Forall_forall in Hl.
      symmetry. apply written_inj; auto.
    + apply list_elem_of_fmap. by exists d.
Qed.

Lemma in_order_elem d : d ∈ in_order (Budget.days_of l) ↔ d ∈ l.
Proof using Hl.
  unfold in_order. rewrite SliceStable_perm, list_elem_of_fmap. split.
  - intros ([k x] & -> & H%elem_of_map_to_list). by apply days_of_lookup in H as [_ H].
  - intros H. exists (date_text d, d). split; [done|]. apply elem_of_map_to_list, days_of_lookup. done.
Qed.

Lemma in_order_sorted : StronglySorted earlier (in_order (Budget.days_of l)).
Proof using Hl.
  assert (Forall valid (map_to_list (Budget.days_of l)).*2) as Hv.
  { apply Forall_forall. intros d ([k x] & -> & H%elem_of_map_to_list)%list_elem_of_fmap.
    apply days_of_lookup in H as [_ H]. rewrite Forall_forall in Hl. by apply Hl. }
  assert (NoDup (map_to_list (Budget.days_of l)).*2) as Hn.
  { apply NoDup_fmap_2_strong; [|apply NoDup_map_to_list].
    intros [k x] [k' x'] H%elem_of_map_to_list H'%elem_of_map_to_list. cbn. intros <-.
    apply days_of_lookup in H as [-> _], H' as [-> _]. done. }
  assert (StronglySorted (not_after Before) (in_order (Budget.days_of l))) as Hs.
  { apply (SliceStable_sorted_on Before valid); [| |done].
    - intros a b Ha Hb. rewrite !Before_time by done. lia.
    - intros a b c Ha Hb Hc. unfold not_after. rewrite !Before_time by done. lia. }
  unfold in_order in Hs |- *. rewrite <- (SliceStable_perm Before) in Hv, Hn.
  induction Hs as [|x m Hs IH Hx]; [constructor|]. apply Forall_cons in Hv as [Hvx Hv]. apply NoDup_cons in Hn as [Hnx Hn].
  constructor; [by apply IH|]. rewrite Forall_forall in Hx, Hv |- *. intros y Hy. specialize (Hx y Hy). specialize (Hv y Hy).
  unfold not_after in Hx. rewrite Before_time in Hx by done. unfold earlier.
  assert (time x ≠ time y); [|lia]. intros E. apply Hnx. by rewrite (time_inj x y Hvx Hv E).
Qed.
End Days.

(** The last day not after [d]. *)
Lemma last_day days : StronglySorted earlier days → ∀ v d, v ∈ days → time v ≤ time d →
  ∃ l1 x l2, days = l1 ++ x :: l2 ∧ time v ≤ time x ≤ time d ∧ Forall (λ y, time y ≤ time d) l1 ∧ Forall (λ y, time d < time y) l2.
Proof.
  induction 1 as [|a days Hs IH Ha]; intros v d Hv Hle; [by apply elem_of_nil in Hv|].
  destruct (decide (Exists (λ w, time w ≤ time d) days)) as [(w & Hw & Hwd)%Exists_exists|Hno%not_Exists_Forall]; [| |apply _].
  - destruct (IH w d Hw Hwd) as (l1 & x & l2 & -> & Hx & H1 & H2). rewrite Forall_forall in Ha.
    pose proof (Ha w Hw) as Haw. pose proof (Ha x ltac:(set_solver)) as Hax. unfold earlier in Haw, Hax.
    exists (a :: l1), x, l2. split_and!; [done| |lia|constructor; [lia|done]|done].
    apply elem_of_cons in Hv as [->|[Hv|[->|Hv]%elem_of_cons]%elem_of_app]; [lia| |lia|].
    + apply (StronglySorted_app_1_elem_of _ _ _ v x) in Hs; [unfold earlier in Hs; lia|done|set_solver].
    + rewrite Forall_forall in H2. specialize (H2 v Hv). cbn in H2. lia.
  - assert (time a ≤ time d) as Had.
    { apply elem_of_cons in Hv as [->|Hv]; [done|]. rewrite Forall_forall in Hno. by apply Hno in Hv. }
    apply elem_of_cons in Hv as [->|Hv]; [|rewrite Forall_forall in Hno; by apply Hno in Hv]. exists [], a, days.
    split_and!; [done|done|done|constructor|]. eapply Forall_impl; [exact Hno|]. cbn. lia.
Qed.

(** ** Cycle boundaries *)

Lemma cycle_start_time p m m' s s' : cycle_start p m s → cycle_start p m' s' → m < m' → time s < time s'.
Proof. intros (Hv & <- & _) (Hv' & <- & _). by apply month_of_lt_time. Qed.

Section Boundaries.
Context (p : SpendingPlan) (Hp : 0 ≤ CycleDay p ≤ 31).
Context (valuation end_ : Date) (Hv : valid valuation) (Hy : 12 ≤ month_of valuation) (He : valid end_).

Lemma boundaries_spec fuel : ∀ d m, cycle_start p m d → 0 ≤ m → month_of end_ < m + Z.of_nat fuel →
  ∃ l, boundaries fuel (cycle_day p) end_ d = Some l ∧ ∀ x, x ∈ l ↔ ∃ k, m ≤ k ∧ cycle_start p k x ∧ time x ≤ time end_.
Proof using Hp He.
  induction fuel as [|fuel IH]; intros d m Hd Hm Hf; pose proof Hd as (Hvd & Emd & _); cbn [boundaries];
    rewrite After_time by done; destruct (Z.ltb_spec (time end_) (time d)) as [Hlt|Hge].
  - exists []. split; [done|]. intros x. split; [by intros ?%elem_of_nil|]. intros (k & Hk & Hx & Hxe).
    destruct (decide (k = m)) as [->|]; [by rewrite (cycle_start_unique _ _ _ _ Hx Hd) in Hxe; lia|].
    pose proof (cycle_start_time p m k d x Hd Hx ltac:(lia)). lia.
  - pose proof (month_of_lt_time end_ d He Hvd ltac:(lia)). lia.
  - exists []. split; [done|]. intros x. split; [by intros ?%elem_of_nil|]. intros (k & Hk & Hx & Hxe).
    destruct (decide (k = m)) as [->|]; [by rewrite (cycle_start_unique _ _ _ _ Hx Hd) in Hxe; lia|].
    pose proof (cycle_start_time p m k d x Hd Hx ltac:(lia)). lia.
  - destruct (IH (OnDayOfMonth (AddMonths d 1) (cycle_day p)) (m + 1)) as (l & -> & Hl); [|lia|lia|].
    { rewrite <- Emd. apply AddMonths_cycle; [done|done|lia]. }
    exists (d :: l). split; [done|]. intros x. rewrite elem_of_cons, Hl. split.
    + intros [->|(k & Hk & Hx & Hxe)]; [by exists m|exists k; split; [lia|done]].
    + intros (k & Hk & Hx & Hxe). destruct (decide (k = m)) as [->|]; [left; by apply (cycle_start_unique p m)|].
      right. exists k. split; [lia|done].
Qed.

Lemma later_boundaries_spec : month_of end_ ≤ month_of valuation + DefaultHorizon →
  ∃ l, later_boundaries p valuation end_ = Some l ∧
    ∀ x, x ∈ l ↔ ∃ k, month_of (PeriodStart p valuation) < k ∧ cycle_start p k x ∧ time x ≤ time end_.
Proof using Hp Hv Hy He.
  intros Hend. destruct (period_bounds p valuation Hp Hv Hy) as (m & (_ & -> & _) & Hm & Hmo & _).
  destruct (boundaries_spec (Z.to_nat DefaultHorizon + 2) (periodEnd p valuation) (m + 1)) as (l & Hl & Hin); [done|lia| |].
  { change (Z.to_nat DefaultHorizon + 2)%nat with 602%nat. unfold DefaultHorizon in Hend. lia. }
  exists l. split; [done|]. intros x. rewrite Hin. apply exist_proper. intros k. split; intros [? ?]; (split; [lia|done]).
Qed.

(** A boundary after the valuation is after its cycle. *)
Lemma boundary_later m s : cycle_start p m s → time valuation < time s → month_of (PeriodStart p valuation) < m.
Proof using Hp Hv Hy.
  intros Hs Hlt. destruct (period_bounds p valuation Hp Hv Hy) as (k & Hk & _ & _ & [Hle _]). pose proof Hk as (_ & -> & _).
  apply Z.nle_gt. intros Hmk. destruct (decide (m = k)) as [->|].
  - rewrite (cycle_start_unique _ _ _ _ Hs Hk) in Hlt. lia.
  - pose proof (cycle_start_time p m k s _ Hs Hk ltac:(lia)). lia.
Qed.

(** Between two days no boundary separates, the cycle is the same. *)
Lemma same_cycle x d :
  valid x → valid d → time valuation ≤ time x ≤ time d → time d ≤ time end_ →
  (∀ k s, month_of (PeriodStart p valuation) < k → cycle_start p k s → time s ≤ time end_ → time s ≤ time d → time s ≤ time x) →
  PeriodStart p d = PeriodStart p x.
Proof using Hp Hv Hy.
  intros Hx Hd Hxd Hde Hno. assert (12 ≤ month_of x) as Hmx.
  { apply Z.nlt_ge. intros Hb. pose proof (month_of_lt_time x valuation Hx Hv ltac:(lia)). lia. }
  destruct (PeriodStart_tiles p x Hp Hx Hmx) as (_ & _ & Hin & _ & _ & Hsame). apply Hsame; [done|].
  destruct (period_bounds p x Hp Hx Hmx) as (m & _ & Hend & _ & _).
  split; [lia|]. apply Z.nle_gt. intros Hle.
  pose proof (Hno (m + 1) (periodEnd p x) (boundary_later _ _ Hend ltac:(lia)) Hend ltac:(lia) Hle). lia.
Qed.
End Boundaries.

(** ** Reading the changes *)

Definition carry_of (c : SpendingChange) : string * Amount * Date := (ScCarryRule c, ScCarryMinimum c, ScCarryUntil c).

(** The last change not after [d] decides; one without a rule leaves it alone. *)
Lemma in_force_last d l1 c l2 : ∀ t, Forall (λ c, After (ScOn c) d = false) (l1 ++ [c]) → Forall (λ c, After (ScOn c) d = true) l2 →
  in_force d (l1 ++ c :: l2) t = (Limit c, if negb (String.eqb (ScCarryRule c) "") then carry_of c else snd (in_force d l1 t)).
Proof.
  induction l1 as [|a l1 IH]; intros t H1 H2; cbn in H1 |- *; apply Forall_cons in H1 as [-> H1]; [|by apply IH].
  destruct H2 as [|b l2 Hb _]; [done|]. cbn. by rewrite Hb.
Qed.

Lemma in_force_ext d x l t : Forall (λ c, After (ScOn c) d = After (ScOn c) x) l → in_force d l t = in_force x l t.
Proof. intros H. revert t. induction H as [|c l E _ IH]; intros t; [done|]. cbn. rewrite E. by case_match. Qed.

Lemma changes_on_Forall2 f days : ∀ l, changes_on f days = Ok l → Forall2 (λ d c, f d = Ok c) days l.
Proof.
  induction days as [|d days IH]; intros l H; cbn in H; [injection H as <-; constructor|].
  apply bind_Ok in H as (c & Hc & H). apply bind_Ok in H as (l' & Hl & [= <-]). constructor; [done|]. by apply IH.
Qed.

(** What is in force on [d] is what was laid down on the last day not after it. *)
Lemma in_force_at (f : Date → pres SpendingChange) days changes v d t :
  Forall2 (λ y c, f y = Ok c) days changes → (∀ y c, f y = Ok c → ScOn c = y) →
  StronglySorted earlier days → Forall valid days → valid d → v ∈ days → time v ≤ time d →
  ∃ x c before, x ∈ days ∧ time v ≤ time x ≤ time d ∧ (∀ y, y ∈ days → time y ≤ time d → time y ≤ time x) ∧ f x = Ok c ∧
    Forall (λ c', ∃ y, y ∈ days ∧ time y ≤ time x ∧ f y = Ok c') before ∧
    in_force d changes t = (Limit c, if negb (String.eqb (ScCarryRule c) "") then carry_of c else snd (in_force d before t)).
Proof.
  intros Hch Hon Hs Hval Hd Hvin Hvd. destruct (last_day days Hs v d Hvin Hvd) as (l1 & x & l2 & -> & Hx & H1 & H2).
  assert (∀ y, y ∈ l1 → time y ≤ time x) as Hl1.
  { intros y Hy. apply (StronglySorted_app_1_elem_of _ _ _ y x) in Hs; [unfold earlier in Hs; lia|done|set_solver]. }
  apply Forall2_app_inv_l in Hch as (c1 & c2' & Hc1 & Hc2 & ->). apply Forall2_cons_inv_l in Hc2 as (c & c2 & Hc & Hc2 & ->).
  apply Forall_app in Hval as [Hv1 Hv2]. apply Forall_cons in Hv2 as [Hvx Hv2].
  exists x, c, c1. split_and!; [set_solver|lia|lia| |done| |].
  - intros y [Hy|[->|Hy]%elem_of_cons]%elem_of_app Hyd; [by apply Hl1|lia|]. rewrite Forall_forall in H2.
    specialize (H2 y Hy). cbn in H2. lia.
  - apply Forall_forall. intros c' [k Hc']%list_elem_of_lookup_1. destruct (Forall2_lookup_r _ _ _ _ _ Hc1 Hc') as (y & Hy & Ey).
    apply list_elem_of_lookup_2 in Hy. exists y. split_and!; [set_solver|auto|done].
  - apply in_force_last; [apply Forall_app; split|]; [| |].
    + clear -Hc1 Hon H1 Hv1 Hd. induction Hc1 as [|y c' l1 c1 Hyc _ IH]; [constructor|].
      apply Forall_cons in H1 as [Hy H1], Hv1 as [Hvy Hv1]. constructor; [|by apply IH].
      rewrite (Hon _ _ Hyc), After_time by done. lia.
    + constructor; [|constructor]. rewrite (Hon _ _ Hc), After_time by done. lia.
    + clear -Hc2 Hon H2 Hv2 Hd. induction Hc2 as [|y c' l1 c1 Hyc _ IH]; [constructor|].
      apply Forall_cons in H2 as [Hy H2], Hv2 as [Hvy Hv2]. constructor; [|by apply IH].
      rewrite (Hon _ _ Hyc), After_time by done. lia.
Qed.

(** * The rule of a day *)

Lemma text_le_written q d : ∀ e, parse_date q = Ok e → written_date d → text_le q (date_text d) = negb (Before d e).
Proof. intros e He Hd. apply parse_date_Ok in He as [He <-]. unfold text_le. by rewrite text_before. Qed.

Lemma active_at_ext policies s s' : Forall (λ q, text_le (EffectiveFrom q) s = text_le (EffectiveFrom q) s') policies →
  active_at policies s = active_at policies s'.
Proof.
  unfold active_at. generalize (None : option BudgetPolicy). intros a H. revert a.
  induction H as [|q l E _ IH]; intros a; [done|]. cbn. by rewrite E, IH.
Qed.

Lemma active_at_elem policies s q : active_at policies s = Some q → q ∈ policies.
Proof.
  unfold active_at. intros H. cut (q ∈ policies ∨ Some q = None); [by intros [|]|]. revert H. generalize (None : option BudgetPolicy).
  induction policies as [|r l IH]; intros a H; cbn in H; [by right|].
  apply IH in H as [H|H]; [left; by apply elem_of_cons; right|]. case_match; [injection H as ->; left; set_solver|by right].
Qed.

Lemma release_facts_ext cr q d x valuation facts : ∀ seen limit,
  Forall (λ f, ∀ c, parse_date (RfOn f) = Ok c → After c valuation = false →
    After (takes_hold (BpCycleDay q) c) d = After (takes_hold (BpCycleDay q) c) x) facts →
  release_facts cr q d valuation seen facts limit = release_facts cr q x valuation seen facts limit.
Proof.
  induction facts as [|f facts IH]; intros seen limit H; [done|]. apply Forall_cons in H as [Hf H]. cbn [release_facts].
  case_match; [by apply IH|]. destruct (parse_date (RfOn f)) as [c|e|w]; [|done|done]. cbn -[release_facts].
  destruct (After c valuation) eqn:Ea; cbn -[release_facts]; [by apply IH|]. rewrite (Hf c eq_refl Ea).
  case_match; [by apply IH|]. do 2 (case_match; [|done]). destruct (ReleasedReduction _ _ _ _ _ _); cbn -[release_facts]; [|done|done].
  destruct (Sub _ _); cbn -[release_facts]; [|done|done]. by apply IH.
Qed.

Lemma check_policies_Ok currency day policies : check_policies currency day policies = Ok tt →
  Forall (λ q, BudgetPolicy_Validate q currency = Ok tt ∧ (BpCycleDay q = day ∨ BpCycleDay q ≤ 1 ∧ day ≤ 1)) policies.
Proof.
  induction policies as [|q l IH]; intros H; cbn in H; [constructor|].
  apply bind_Ok in H as ([] & Hq & H). case_if_in H; [done|]. constructor; [split; [done|lia]|by apply IH].
Qed.

Lemma check_carry_rule q e : check_carry q e = Ok tt → BpCarryRule q ≠ "".
Proof. intros H E. unfold check_carry in H. rewrite E in H. discriminate H. Qed.

Lemma BudgetPolicy_Validate_Ok q currency : BudgetPolicy_Validate q currency = Ok tt →
  (∃ e, parse_date (EffectiveFrom q) = Ok e ∧ 1 ≤ Year e ≤ 9949) ∧ 0 ≤ BpCycleDay q ≤ 31 ∧ BpCarryRule q ≠ "".
Proof.
  intros H. unfold BudgetPolicy_Validate in H. apply bind_Ok in H as (cr & _ & H).
  destruct (parse_date (EffectiveFrom q)) as [e| |]; [|done|done]. case_if_in H; [done|].
  apply bind_Ok in H as ([] & Hc & _). apply check_carry_rule in Hc. split_and!; [exists e; split; [done|lia]|lia|lia|done].
Qed.

Lemma takes_hold_periodEnd day p c : 0 ≤ day → cycle_day p = Z.max 1 day → takes_hold day c = periodEnd p c.
Proof.
  intros Hd E. unfold takes_hold, periodEnd, PeriodStart. assert (cycle_day (cycle day) = Z.max 1 day) as ->.
  { unfold cycle_day, cycle. cbn [CycleDay]. destruct (Z.eqb_spec day 0); lia. }
  by rewrite E.
Qed.

(** A day's permission but for the day. *)
Definition dated_on (d : Date) (c : SpendingChange) : SpendingChange :=
  MkSpendingChange d (Limit c) (ScCarryRule c) (ScCarryMinimum c) (ScCarryUntil c).

Section Rule.
Context (b : Budget) (first : BudgetPolicy) (policies : list BudgetPolicy) (valuation end_ : Date) (noGrowth : bool).
Context (Hpol : Forall (λ q, BudgetPolicy_Validate q (BuCurrency b) = Ok tt ∧
  (BpCycleDay q = BpCycleDay first ∨ BpCycleDay q ≤ 1 ∧ BpCycleDay first ≤ 1)) policies).
Context (Hday : 0 ≤ BpCycleDay first ≤ 31) (Hv : valid valuation) (Hy : 1 ≤ Year valuation ≤ 9949).
Context (He : valid end_) (Hend : month_of end_ ≤ month_of valuation + DefaultHorizon).
Context (Hfacts : Forall (λ f, ∀ c, parse_date (RfOn f) = Ok c → 1 ≤ Year c) (Releases b)).
Let p := cycle (BpCycleDay first).

Lemma valuation_month : 12 ≤ month_of valuation.
Proof using Hy Hv. unfold month_of, month_index. destruct Hv. lia. Qed.

Lemma within_written d : valid d → time valuation ≤ time d ≤ time end_ → written_date d.
Proof using Hend He Hy Hv.
  intros Hd [H1 H2]. split; [done|]. pose proof valuation_month.
  assert (month_of valuation ≤ month_of d).
  { apply Z.nlt_ge. intros Hb. pose proof (month_of_lt_time d valuation Hd Hv ltac:(lia)). lia. }
  assert (month_of d ≤ month_of end_).
  { apply Z.nlt_ge. intros Hb. pose proof (month_of_lt_time end_ d He Hd ltac:(lia)). lia. }
  unfold month_of, month_index, DefaultHorizon in *. destruct Hd, Hv. lia.
Qed.

Lemma policy_days_spec : time valuation ≤ time end_ → ∃ days, policy_days policies p valuation end_ = Some days ∧
  StronglySorted earlier days ∧ valuation ∈ days ∧ Forall (λ d, valid d ∧ time valuation ≤ time d ≤ time end_) days ∧
  (∀ k s, month_of (PeriodStart p valuation) < k → cycle_start p k s → time s ≤ time end_ → s ∈ days) ∧
  (∀ q e, q ∈ policies → parse_date (EffectiveFrom q) = Ok e → time valuation < time e ≤ time end_ → e ∈ days).
Proof using Hpol Hday Hv Hy He Hend.
  clear Hfacts. intros Hve. pose proof valuation_month as Hm.
  destruct (later_boundaries_spec p Hday valuation end_ Hv Hm He Hend) as (bs & Hbs & Hin). unfold policy_days. rewrite Hbs. cbn.
  set (l := List.filter _ _ ++ bs ++ [valuation]).
  assert (Forall (λ d, valid d ∧ time valuation ≤ time d ≤ time end_) l) as Hl.
  { apply Forall_app; split; [|apply Forall_app; split].
    - apply Forall_forall. intros d [(q & -> & Hq)%list_elem_of_In%list_elem_of_fmap Hw]%list_elem_of_In%filter_In.
      rewrite Forall_forall in Hpol. apply Hpol in Hq as [Hq _]. apply BudgetPolicy_Validate_Ok in Hq as [(e & Eq & _) _].
      unfold starts_within in Hw. cbn in Hw |- *. unfold parsed in Hw |- *. rewrite Eq in Hw |- *.
      apply parse_date_Ok in Eq as [[Hve' _] _]. rewrite !After_time in Hw by done. split; [done|lia].
    - apply Forall_forall. intros d (k & Hk & Hd & Hde)%Hin. split; [apply Hd|]. split; [|done].
      destruct (period_bounds p valuation Hday Hv Hm) as (m & Hs & Hn & Hmo & [_ Hlt]).
      destruct (decide (k = m + 1)) as [->|]; [rewrite (cycle_start_unique _ _ _ _ Hd Hn); lia|].
      pose proof (cycle_start_time p (m + 1) k _ _ Hn Hd) as H. destruct Hs as (_ & Es & _). lia.
    - constructor; [|constructor]. split; [done|lia]. }
  assert (Forall written_date l) as Hw. { eapply Forall_impl; [exact Hl|]. intros d [Hd ?]. by apply within_written. }
  exists (in_order (Budget.days_of l)). split; [done|]. split; [by apply in_order_sorted|].
  split; [apply (in_order_elem l Hw); set_solver|].
  split; [apply Forall_forall; intros d Hd%(in_order_elem l Hw); rewrite Forall_forall in Hl; exact (Hl d Hd)|].
  split; [intros k s Hk Hs Hse|intros q e Hq Eq Hve']; apply (in_order_elem l Hw), elem_of_app.
  - right. apply elem_of_app. left. apply Hin. by exists k.
  - left. apply list_elem_of_In, filter_In. split.
    + apply list_elem_of_In, list_elem_of_fmap. exists q. split; [|done]. cbn. unfold parsed. by rewrite Eq.
    + apply parse_date_Ok in Eq as [[Hev _] _]. unfold starts_within. rewrite !After_time by done. lia.
Qed.

(** Between two days nothing separates, the rule gives the same. *)
Lemma change_on_ext (days : list Date) x d :
  (∀ k s, month_of (PeriodStart p valuation) < k → cycle_start p k s → time s ≤ time end_ → s ∈ days) →
  (∀ q e, q ∈ policies → parse_date (EffectiveFrom q) = Ok e → time valuation < time e ≤ time end_ → e ∈ days) →
  (∀ y, y ∈ days → time y ≤ time d → time y ≤ time x) →
  valid x → valid d → time valuation ≤ time x ≤ time d → time d ≤ time end_ →
  change_on b policies p valuation noGrowth d =
  (c ← change_on b policies p valuation noGrowth x; Ok (dated_on d c)).
Proof using Hpol Hday Hv Hy He Hend Hfacts.
  intros Hbs Hps Hgap Hx Hd Hxd Hde. pose proof valuation_month as Hm.
  assert (PeriodStart p d = PeriodStart p x) as Es.
  { eapply same_cycle; [exact Hday|exact Hv|exact Hm|exact Hx|exact Hd|exact Hxd|exact Hde|]. eauto. }
  pose proof (within_written x Hx ltac:(lia)) as Hwx. pose proof (within_written d Hd ltac:(lia)) as Hwd.
  assert (active_at policies (date_text d) = active_at policies (date_text x)) as Ea.
  { apply active_at_ext. rewrite Forall_forall in Hpol |- *. intros q Hq. destruct (Hpol q Hq) as [Hok _].
    apply BudgetPolicy_Validate_Ok in Hok as [(e & Eq & _) _].
    rewrite !(text_le_written _ _ e) by done. pose proof (proj1 (parse_date_Ok _ _ Eq)) as [Hve _].
    f_equal. rewrite !Before_time by done. destruct (Z.ltb_spec (time d) (time e)), (Z.ltb_spec (time x) (time e)); try done; [lia|].
    pose proof (Hgap e (Hps q e Hq Eq ltac:(lia)) ltac:(lia)). lia. }
  unfold change_on. rewrite Es, Ea. destruct (active_at policies (date_text x)) as [q|] eqn:Eq; [|done].
  destruct (rules q _ noGrowth) as [[g a]| |]; [|done|done]. cbn -[releasedLimit ExpandSpendingLimits].
  destruct (ExpandSpendingLimits _ _ _ g _) as [limits| |]; [|done|done]. cbn -[releasedLimit ExpandSpendingLimits].
  assert (releasedLimit b q (the_limit (MonthKey (PeriodStart p x)) limits) d valuation =
    releasedLimit b q (the_limit (MonthKey (PeriodStart p x)) limits) x valuation) as ->.
  { unfold releasedLimit. case_match; [done|]. apply release_facts_ext. rewrite Forall_forall in Hfacts |- *.
    intros f Hf c Ec Hc. pose proof (Hfacts f Hf c Ec) as Hyc. pose proof (proj1 (parse_date_Ok _ _ Ec)) as [Hvc _].
    rewrite After_time in Hc by done. apply active_at_elem in Eq. rewrite Forall_forall in Hpol.
    destruct (Hpol q Eq) as [Hok Hcd]. apply BudgetPolicy_Validate_Ok in Hok as (_ & Hqd & _).
    rewrite (takes_hold_periodEnd _ p) by (try lia; unfold cycle_day, p, cycle; cbn [CycleDay]; destruct (Z.eqb_spec (BpCycleDay first) 0); lia).
    assert (12 ≤ month_of c) as Hmc by (unfold month_of, month_index; destruct Hvc; lia).
    destruct (period_bounds p c Hday Hvc Hmc) as (m & _ & Hn & _ & _). pose proof Hn as (Hvn & _ & _).
    rewrite !After_time by done. destruct (Z.ltb_spec (time d) (time (periodEnd p c))), (Z.ltb_spec (time x) (time (periodEnd p c))); try done; [lia|].
    pose proof (Hgap _ (Hbs _ _ (boundary_later p Hday valuation Hv Hm _ _ Hn ltac:(lia)) Hn ltac:(lia)) ltac:(lia)). lia. }
  destruct (releasedLimit b q _ x valuation) as [limit| |]; [|done|done]. cbn -[ExpandSpendingLimits].
  destruct (ExpandSpendingLimits limit _ _ _ _); done.
Qed.
End Rule.

Lemma change_on_shape b policies p valuation noGrowth d c :
  Forall (λ q, BudgetPolicy_Validate q (BuCurrency b) = Ok tt) policies →
  change_on b policies p valuation noGrowth d = Ok c → ScOn c = d ∧ ScCarryRule c ≠ "".
Proof.
  intros Hq H. unfold change_on in H. destruct (active_at policies (date_text d)) as [q|] eqn:E; [|by injection H as <-].
  apply active_at_elem in E. rewrite Forall_forall in Hq. apply Hq, BudgetPolicy_Validate_Ok in E as (_ & _ & Hr).
  apply bind_Ok in H as ([g a] & _ & H). do 3 (apply bind_Ok in H as (? & _ & H)). by injection H as <-.
Qed.

Lemma horizon_end valuation n : valid valuation → 12 ≤ month_of valuation → 0 ≤ n →
  valid (EndOfMonth (AddMonths valuation n)) ∧ month_of (EndOfMonth (AddMonths valuation n)) = month_of valuation + n ∧
  time valuation ≤ time (EndOfMonth (AddMonths valuation n)).
Proof.
  intros Hv Hm Hn. destruct (AddMonths_facts valuation n) as (Ha & Ea & Eda); [apply Hv|lia|].
  destruct (EndOfMonth_facts (AddMonths valuation n) (proj1 Ha)) as [He Ede]. rewrite month_of_EndOfMonth. split_and!; [done..|].
  apply Z.nlt_ge. rewrite time_lt_iff by done. rewrite month_of_EndOfMonth.
  pose proof (month_len_range (Year (AddMonths valuation n)) (Month (AddMonths valuation n))). intros [|[E Hlt]]; [lia|].
  destruct (month_of_split (AddMonths valuation n) valuation) as [Ey Em]; [done|done|lia|]. rewrite Ey, Em in Ede.
  destruct Hv as [_ [_ ?]]. rewrite Ede in Hlt. cbn in Hlt. lia.
Qed.

(** * Properties *)

(** C23. The permissions laid down hold every day. When the approved policies and
    confirmed releases become dated permissions, the limit and the carry rule the
    planner finds in force on any day from the valuation to the end of the horizon
    are those the rule gives for that very day: the policy in force, its growth and
    its adjustments, and the releases that have taken hold. The days chosen for a
    change are enough, and the answer does not depend on what stood before. *)
Theorem permissions_by_rule b f valuation noGrowth sp :
  policySpending b f valuation noGrowth = Ok sp →
  valid valuation → 1 ≤ Year valuation ≤ 9949 →
  Forall (λ r, ∀ c, parse_date (RfOn r) = Ok c → 1 ≤ Year c) (Releases b) →
  let policies := SliceStable policy_before (Policies b) in
  ∀ d t, valid d → time valuation ≤ time d ≤ time (EndOfMonth (AddMonths valuation (DefaultHorizon - 1))) →
  ∃ c, change_on b policies (cycle (CycleDay sp)) valuation noGrowth d = Ok c ∧
    in_force d (Changes sp) t = (Limit c, carry_of c).
Proof.
  intros H Hv Hy Hfacts policies d t Hd Hin. unfold policySpending in H. fold policies in H.
  destruct policies as [|first others] eqn:Ep; [done|]. assert (first ∈ policies) as Hfirst by (rewrite Ep; constructor).
  rewrite <- Ep in *. clear Ep.
  apply bind_Ok in H as ([] & _ & H). apply bind_Ok in H as ([] & Hpol%check_policies_Ok & H). case_if_in H; [done|].
  apply bind_Ok in H as (spent & _ & H).
  assert (Forall (λ q, BudgetPolicy_Validate q (BuCurrency b) = Ok tt) policies) as Hok.
  { eapply Forall_impl; [exact Hpol|]. by intros q [? _]. }
  assert (0 ≤ BpCycleDay first ≤ 31) as Hday.
  { rewrite Forall_forall in Hok. by apply Hok, BudgetPolicy_Validate_Ok in Hfirst as (_ & ? & _). }
  pose proof (valuation_month valuation Hv Hy) as Hm.
  destruct (horizon_end valuation (DefaultHorizon - 1) Hv Hm) as (He & Em & Hve); [done|].
  revert H Hin He Em Hve. generalize (EndOfMonth (AddMonths valuation (DefaultHorizon - 1))). intros end_ H Hin He Em Hve.
  assert (month_of end_ ≤ month_of valuation + DefaultHorizon) as Hend by lia.
  destruct (policy_days_spec b first policies valuation end_ Hpol Hday Hv Hy He Hend Hve) as (days & Edays & Hs & Hvin & Hdays & Hbs & Hps).
  rewrite Edays in H. apply bind_Ok in H as (changes & Hch%changes_on_Forall2 & [= <-]). cbn [CycleDay Changes].
  destruct (in_force_at _ days changes valuation d t Hch) as (x & c & before & Hx & Hxd & Hgap & Hc & _ & ->).
  - intros y c Hc. apply (change_on_shape _ _ _ _ _ _ _ Hok Hc).
  - done.
  - eapply Forall_impl; [exact Hdays|]. by intros y [? _].
  - done.
  - done.
  - lia.
  - rewrite Forall_forall in Hdays. destruct (Hdays x Hx) as [Hvx _].
    destruct (change_on_shape _ _ _ _ _ _ _ Hok Hc) as [_ Hrule]. exists (dated_on d c). split.
    + rewrite (change_on_ext b first policies valuation end_ noGrowth Hpol Hday Hv Hy He Hend Hfacts days x d Hbs Hps Hgap Hvx Hd Hxd (proj2 Hin)).
      by rewrite Hc.
    + by rewrite (proj2 (String.eqb_neq _ _) Hrule).
Qed.

(** A limit of 300,000 a month, raised by 10,000 every month from July to the end of
    the year; from June on, what a loan paid off on 20 July releases is not paid elsewhere. *)
Definition sample_policy (version monthly : Z) (from released : string) (growth : option BudgetPolicyGrowth) : BudgetPolicy :=
  MkBudgetPolicy None "" None None version from monthly 1 CarryCash released growth [].
Definition sample_budget : Budget :=
  MkBudget
    [sample_policy 2 30000000 "2025-06-10" ReleaseAll (Some (MkPolicyGrowth 1 "2025-07-01" "2025-12-31" (Some 1000000) None None));
     sample_policy 1 30000000 "2025-01-01" RollAll None]
    [MkRelease 2 "loan" "" "2025-07-20" (Some 5000000) (Some 0)] 3 None "AMD" (MkAmount 30000000 AMD) 1 true no_amount zero_date
    no_amount ∅.
Definition sample_funding : BudgetFunding := MkFunding "" "" "" 30000000 0 [].
Definition sample_permissions : pres SpendingPlan := policySpending sample_budget sample_funding (MkDate 2025 7 25) false.

Definition limits_on (sp : SpendingPlan) (days : list Date) : list Z :=
  (λ d, minor (fst (in_force d (Changes sp) (no_amount, ("", no_amount, zero_date))))) <$> days.
Lemma sample_permissions_ok :
  match sample_permissions with
  | Ok sp => (CycleDay sp =? 1) && bool_decide (limits_on sp [MkDate 2025 7 31; MkDate 2025 8 20; MkDate 2025 9 30] = [31000000; 27000000; 28000000])
  | _ => false
  end = true.
Proof. vm_compute. reflexivity. Qed.

Lemma sample_release_date : parse_date "2025-07-20" = Ok (MkDate 2025 7 20).
Proof. vm_compute. reflexivity. Qed.

Lemma permissions_by_rule_witness :
  ∃ sp c, sample_permissions = Ok sp ∧
    change_on sample_budget (SliceStable policy_before (Policies sample_budget)) (cycle (CycleDay sp)) (MkDate 2025 7 25) false (MkDate 2025 8 20) = Ok c ∧
    in_force (MkDate 2025 8 20) (Changes sp) (no_amount, ("", no_amount, zero_date)) = (Limit c, carry_of c) ∧ minor (Limit c) = 27000000.
Proof.
  pose proof sample_permissions_ok as H. destruct sample_permissions as [sp| |] eqn:E; [|discriminate H|discriminate H].
  apply andb_true_iff in H as [_ H]. apply bool_decide_eq_true in H.
  destruct (permissions_by_rule sample_budget sample_funding (MkDate 2025 7 25) false sp E) with (d := MkDate 2025 8 20)
    (t := (no_amount, ("", no_amount, zero_date)) : terms) as (c & Hc & Hin).
  - repeat split; discriminate.
  - split; discriminate.
  - repeat constructor. intros c Hc. assert (Ok c = Ok (MkDate 2025 7 20)) as [=->] by (rewrite <- Hc; exact sample_release_date). discriminate.
  - repeat split; discriminate.
  - split; vm_compute; discriminate.
  - exists sp, c. split; [reflexivity|]. split; [exact Hc|]. split; [exact Hin|].
    unfold limits_on in H. cbn [fmap list_fmap] in H. rewrite Hin in H. injection H as _ H _. exact H.
Defined.
