(* ===== verification/Pauses.v ===== *)
(** More of what [Budget] promises: a pause changes the limits of the days before
    it ends and nothing else (and where it raises one is stated), released payments only take permission away, and the
    two ways the code finds the policy in force agree. *)
From S2P Require Import Sim Prelude Money Dates Model PlanBase BudgetRules PlanInput Budget Permissions.

(** * Pauses *)

(** A day whose carry rule is blank is one no change has given a rule. *)
Lemma in_force_rule d l : ∀ t, snd (in_force d l t) = snd t ∨ fst (fst (snd (in_force d l t))) ≠ "".
Proof.
  induction l as [|c l IH]; intros t; cbn; [by left|]. case_match; [by left|].
  set (t' := (_, _)). destruct (IH t') as [E|E]; [|by right]. rewrite E. unfold t'. cbn.
  destruct (String.eqb_spec (ScCarryRule c) "") as [Ec|Ec]; [by left|by right].
Qed.

Lemma in_force_blank x d l : ∀ t, (∀ c, c ∈ l → After (ScOn c) x = false → After (ScOn c) d = false) →
  fst (fst (snd (in_force d l t))) = "" → snd (in_force x l t) = snd t.
Proof.
  induction l as [|c l IH]; intros t Hle H; [done|]. cbn in H |- *. destruct (After (ScOn c) x) eqn:Ex; [done|].
  rewrite (Hle c ltac:(constructor) Ex) in H.
  destruct (String.eqb_spec (ScCarryRule c) "") as [Ec|Ec]; cbn in H |- *.
  - rewrite IH; [done| |done]. intros c' Hc'. apply Hle. by constructor.
  - destruct (in_force_rule d l (Limit c, (ScCarryRule c, ScCarryMinimum c, ScCarryUntil c))) as [E|E].
    + rewrite E in H. by cbn in H.
    + by apply E in H.
Qed.

(** The carry does not depend on the limit. *)
Lemma in_force_snd d l : ∀ a a' t, snd (in_force d l (a, t)) = snd (in_force d l (a', t)).
Proof. induction l as [|c l IH]; intros a a' t; [done|]. cbn. case_match; [done|]. apply IH. Qed.

(** Changes that say nothing of the carry leave it. *)
Lemma in_force_silent d l : ∀ t, Forall (λ c, ScCarryRule c = "") l → snd (in_force d l t) = snd t.
Proof.
  induction l as [|c l IH]; intros t H; [done|]. apply Forall_cons in H as [Ec H]. cbn. case_match; [done|].
  rewrite IH by done. cbn. by rewrite Ec.
Qed.

Section Pause.
Context (sp : SpendingPlan) (Hp : 0 ≤ CycleDay sp ≤ 31) (Hch : Forall (λ c, written_date (ScOn c)) (Changes sp)).
Context (valuation start : Date) (Hv : valid valuation) (Hy : 1 ≤ Year valuation ≤ 9949).
Context (Hs : written_date start) (Hvs : time valuation < time start).
Let end_ := EndOfMonth (AddMonths valuation DefaultHorizon).

Lemma pause_end : valid end_ ∧ month_of end_ = month_of valuation + DefaultHorizon ∧ time valuation ≤ time end_.
Proof using Hv Hy. apply horizon_end; [done|by apply valuation_month|done]. Qed.

Lemma pause_days_spec : ∃ days, pause_days sp valuation start = Some days ∧
  StronglySorted earlier days ∧ Forall (λ d, written_date d ∧ time valuation ≤ time d) days ∧
  valuation ∈ days ∧ start ∈ days ∧
  (∀ k s, month_of (PeriodStart sp valuation) < k → cycle_start sp k s → time s ≤ time end_ → s ∈ days) ∧
  (∀ c, c ∈ Changes sp → time valuation ≤ time (ScOn c) → ScOn c ∈ days).
Proof using Hp Hch Hv Hy Hs Hvs.
  pose proof (valuation_month valuation Hv Hy) as Hm. destruct pause_end as (He & Em & Hve).
  destruct (later_boundaries_spec sp Hp valuation end_ Hv Hm He ltac:(lia)) as (bs & Hbs & Hin). unfold pause_days.
  fold end_. rewrite Hbs. cbn. set (l := List.filter _ _ ++ bs ++ [start; valuation]).
  assert (Forall (λ d, written_date d ∧ time valuation ≤ time d) l) as Hl.
  { apply Forall_app; split; [|apply Forall_app; split].
    - apply Forall_forall. intros d [(c & -> & Hc)%list_elem_of_In%list_elem_of_fmap Hw]%list_elem_of_In%filter_In.
      rewrite Forall_forall in Hch. pose proof (Hch c Hc) as [Hvc Hyc]. rewrite Before_time in Hw by done. split; [done|lia].
    - apply Forall_forall. intros d (k & Hk & Hd & Hde)%Hin.
      destruct (period_bounds sp valuation Hp Hv Hm) as (m & Hst & Hn & Hmo & [_ Hlt]).
      assert (time valuation ≤ time d) as Hle.
      { destruct (decide (k = m + 1)) as [->|]; [rewrite (cycle_start_unique _ _ _ _ Hd Hn); lia|].
        pose proof (cycle_start_time sp (m + 1) k _ _ Hn Hd) as H. destruct Hst as (_ & Es & _). lia. }
      split; [|done]. apply (within_written valuation end_ Hv Hy He); [lia|apply Hd|done].
    - constructor; [split; [done|lia]|]. constructor; [|constructor]. split; [|lia].
      apply (within_written valuation end_ Hv Hy He); [lia|done|lia]. }
  assert (Forall written_date l) as Hw. { eapply Forall_impl; [exact Hl|]. by intros d [Hd ?]. }
  exists (in_order (Budget.days_of l)). split; [done|]. split; [by apply in_order_sorted|].
  split; [apply Forall_forall; intros d Hd%(in_order_elem l Hw); rewrite Forall_forall in Hl; exact (Hl d Hd)|].
  split_and!; [|  |intros k s Hk Hcs Hse|intros c Hc Hle]; apply (in_order_elem l Hw).
  - unfold l. rewrite !elem_of_app. right. right. do 2 constructor.
  - unfold l. rewrite !elem_of_app. right. right. constructor.
  - unfold l. rewrite !elem_of_app. right. left. apply Hin. by exists k.
  - unfold l. rewrite !elem_of_app. left. apply list_elem_of_In, filter_In. split.
    + apply list_elem_of_In, list_elem_of_fmap. by exists c.
    + rewrite Forall_forall in Hch. destruct (Hch c Hc) as [Hvc _]. rewrite Before_time by done. lia.
Qed.

(** Between two days nothing separates, the plan says the same. *)
Lemma paused_ext (days : list Date) x d :
  (∀ k s, month_of (PeriodStart sp valuation) < k → cycle_start sp k s → time s ≤ time end_ → s ∈ days) →
  (∀ c, c ∈ Changes sp → time valuation ≤ time (ScOn c) → ScOn c ∈ days) →
  (∀ y, y ∈ days → time y ≤ time d → time y ≤ time x) →
  valid x → valid d → time valuation ≤ time x ≤ time d → time d ≤ time end_ →
  PeriodStart sp d = PeriodStart sp x ∧ terms_on sp d = terms_on sp x.
Proof using Hp Hch Hv Hy.
  intros Hbs Hcs Hgap Hx Hd Hxd Hde. pose proof (valuation_month valuation Hv Hy) as Hm.
  assert (PeriodStart sp d = PeriodStart sp x) as Es.
  { eapply same_cycle; [exact Hp|exact Hv|exact Hm|exact Hx|exact Hd|exact Hxd|exact Hde|]. eauto. }
  split; [done|]. unfold terms_on. rewrite Es. apply in_force_ext. rewrite Forall_forall in Hch |- *. intros c Hc.
  destruct (Hch c Hc) as [Hvc _]. rewrite !After_time by done.
  destruct (Z.ltb_spec (time d) (time (ScOn c))), (Z.ltb_spec (time x) (time (ScOn c))); try done; [lia|].
  pose proof (Hgap _ (Hcs c Hc ltac:(lia)) ltac:(lia)). lia.
Qed.

(** The carry a pause lays down is the carry there was. *)
Lemma paused_carry x before d t :
  t = (CarryRule sp, CarryMinimum sp, CarryUntil sp) →
  Forall (λ c', ∃ y, valid y ∧ time y ≤ time x ∧ c' = paused_change sp valuation start y) before → valid x →
  ∀ a, (if negb (String.eqb (ScCarryRule (paused_change sp valuation start x)) "") then carry_of (paused_change sp valuation start x)
   else snd (in_force d before (a, t))) = snd (terms_on sp x).
Proof using Hch.
  intros -> Hb Hx a. unfold paused_change at 1 2. destruct (terms_on sp x) as [limit [[rule minimum] until]] eqn:E. cbn.
  destruct (String.eqb_spec rule "") as [->|]; [|done]. cbn. unfold terms_on in E.
  assert (∀ y, valid y → time y ≤ time x → snd (terms_on sp y) = (CarryRule sp, CarryMinimum sp, CarryUntil sp)) as Hy'.
  { intros y Hy' Hle. unfold terms_on. rewrite (in_force_blank y x); [done| |].
    - intros c Hc. rewrite Forall_forall in Hch. destruct (Hch c Hc) as [Hvc _]. rewrite !After_time by done. lia.
    - erewrite in_force_snd, E. done. }
  pose proof (Hy' x Hx ltac:(lia)) as Ex. unfold terms_on in Ex. rewrite E in Ex. cbn in Ex.
  rewrite in_force_silent; [by rewrite Ex|]. eapply Forall_impl; [exact Hb|]. intros c (y & Hvy & Hle & ->). cbn.
  pose proof (Hy' y Hvy Hle) as Ey. unfold paused_change. destruct (terms_on sp y) as [l [[r m] u]]. cbn in Ey |- *. congruence.
Qed.
End Pause.

(** * The policy in force *)

Lemma policy_before_irrefl a : policy_before a a = false.
Proof. unfold policy_before. rewrite String.eqb_refl. apply Z.ltb_irrefl. Qed.
Lemma policy_before_asym a b : policy_before a b = true → policy_before b a = false.
Proof.
  unfold policy_before. rewrite (String.eqb_sym (EffectiveFrom b)). destruct (String.eqb_spec (EffectiveFrom a) (EffectiveFrom b)); [lia|].
  apply string_ltb_asym.
Qed.
Lemma policy_before_total a b : EffectiveFrom a = EffectiveFrom b ∧ BpVersion a = BpVersion b ∨ policy_before a b = true ∨ policy_before b a = true.
Proof.
  unfold policy_before. rewrite (String.eqb_sym (EffectiveFrom b)).
  destruct (String.eqb_spec (EffectiveFrom a) (EffectiveFrom b)); [destruct (Z.lt_trichotomy (BpVersion a) (BpVersion b)) as [|[|]]; [right; left; lia|by left|right; right; lia]|].
  destruct (string_ltb_trichotomy (EffectiveFrom a) (EffectiveFrom b)) as [|[|]]; auto.
Qed.
Lemma policy_before_iff a b : policy_before a b = true ↔
  String.ltb (EffectiveFrom a) (EffectiveFrom b) = true ∨ EffectiveFrom a = EffectiveFrom b ∧ BpVersion a < BpVersion b.
Proof.
  unfold policy_before. destruct (String.eqb_spec (EffectiveFrom a) (EffectiveFrom b)) as [E|E]; [|naive_solver].
  rewrite E, string_ltb_irrefl, Z.ltb_lt. naive_solver.
Qed.
Lemma policy_before_trans a b c : policy_before a b = true → policy_before b c = true → policy_before a c = true.
Proof.
  rewrite !policy_before_iff. intros [H1|[E1 H1]] [H2|[E2 H2]].
  - left. by apply (string_ltb_trans _ _ _ H1).
  - left. congruence.
  - left. congruence.
  - right. split; [congruence|lia].
Qed.
Lemma not_after_policy_trans a b c : not_after policy_before a b → not_after policy_before b c → not_after policy_before a c.
Proof.
  unfold not_after. intros Hab Hbc. apply not_true_iff_false. intros Hca.
  destruct (policy_before_total a b) as [[E V]|[H|H]]; [|pose proof (policy_before_trans _ _ _ Hca H); congruence|congruence].
  unfold policy_before in Hca, Hbc. rewrite E, V in Hca. congruence.
Qed.

(** The latest of the policies in effect. *)
Definition is_latest (on : string) (policies : list BudgetPolicy) (a : option BudgetPolicy) : Prop :=
  match a with
  | Some q => q ∈ policies ∧ text_le (EffectiveFrom q) on = true ∧
      ∀ r, r ∈ policies → text_le (EffectiveFrom r) on = true → policy_before q r = false
  | None => ∀ r, r ∈ policies → text_le (EffectiveFrom r) on = false
  end.

Lemma newer_eq on a p : newer on a p =
  if text_le (EffectiveFrom p) on && match a with None => true | Some q => policy_before q p end then Some p else a.
Proof.
  unfold newer, policy_before. destruct a as [q|]; [|done]. rewrite (String.eqb_sym (EffectiveFrom p)).
  destruct (String.eqb_spec (EffectiveFrom q) (EffectiveFrom p)) as [->|]; [by rewrite string_ltb_irrefl|].
  by rewrite orb_false_r.
Qed.

Lemma is_latest_step on l a p : is_latest on l a →
  is_latest on (l ++ [p]) (if text_le (EffectiveFrom p) on && match a with None => true | Some q => policy_before q p end then Some p else a).
Proof.
  intros H. destruct (text_le (EffectiveFrom p) on) eqn:Ep; cbn.
  - destruct a as [q|]; cbn in H; [destruct (policy_before q p) eqn:Eq|]; cbn.
    + destruct H as (Hq & Hle & Hmax). split_and!; [set_solver|done|].
      intros r [Hr| ->%list_elem_of_singleton]%elem_of_app Hrle; [|apply policy_before_irrefl].
      apply not_true_iff_false. intros Hpr. pose proof (policy_before_trans _ _ _ Eq Hpr). rewrite Hmax in H; done.
    + destruct H as (Hq & Hle & Hmax). split_and!; [set_solver|done|].
      intros r [Hr| ->%list_elem_of_singleton]%elem_of_app Hrle; [by apply Hmax|done].
    + split_and!; [set_solver|done|].
      intros r [Hr| ->%list_elem_of_singleton]%elem_of_app Hrle; [by rewrite H in Hrle|apply policy_before_irrefl].
  - destruct a as [q|]; cbn in H |- *.
    + destruct H as (Hq & Hle & Hmax). split_and!; [set_solver|done|].
      intros r [Hr| ->%list_elem_of_singleton]%elem_of_app Hrle; [by apply Hmax|congruence].
    + intros r [Hr| ->%list_elem_of_singleton]%elem_of_app; auto.
Qed.

Lemma latest_is on l : is_latest on l (latest l on).
Proof.
  unfold latest. induction l as [|p l IH] using rev_ind; [by intros r ?%elem_of_nil|].
  rewrite foldl_app. cbn. rewrite newer_eq. by apply is_latest_step.
Qed.

Lemma active_at_is on l : StronglySorted (not_after policy_before) l → is_latest on l (active_at l on).
Proof.
  unfold active_at. induction l as [|p l IH] using rev_ind; intros Hs; [by intros r ?%elem_of_nil|].
  rewrite foldl_app. cbn. pose proof (IH (StronglySorted_app_1_l _ _ _ Hs)) as H.
  set (a := foldl _ _ _) in *. destruct (text_le (EffectiveFrom p) on) eqn:Ep.
  - cbn. split_and!; [set_solver|done|]. intros r [Hr| ->%list_elem_of_singleton]%elem_of_app _; [|apply policy_before_irrefl].
    apply (StronglySorted_app_1_elem_of _ _ _ r p) in Hs; [done|done|set_solver].
  - apply (is_latest_step on l a p) in H. by rewrite Ep in H.
Qed.

Lemma is_latest_unique on l l' a a' : l ≡ₚ l' →
  (∀ p q, p ∈ l → q ∈ l → EffectiveFrom p = EffectiveFrom q → BpVersion p = BpVersion q → p = q) →
  is_latest on l a → is_latest on l' a' → a = a'.
Proof.
  intros Hp Hties H H'. destruct a as [q|], a' as [q'|]; cbn in H, H'; [| | |done].
  - destruct H as (Hq & Hle & Hmax), H' as (Hq' & Hle' & Hmax'). rewrite <- Hp in Hq'. f_equal.
    destruct (policy_before_total q q') as [[E V]|[H|H]]; [by apply Hties|rewrite Hmax in H; done|].
    rewrite Hmax' in H; [done|by rewrite <- Hp|done].
  - destruct H as (Hq & Hle & _). rewrite Hp in Hq. apply H' in Hq. congruence.
  - destruct H' as (Hq & Hle & _). rewrite <- Hp in Hq. apply H in Hq. congruence.
Qed.

(** * Released payments *)

Section Released.
Context (cr : Currency) (policy : BudgetPolicy) (on valuation : Date).

(** The first statement of each source under the policy. *)
Fixpoint firsts (seen : gset string) (facts : list BudgetReleaseFact) : list BudgetReleaseFact :=
  match facts with
  | [] => []
  | f :: facts =>
      if (PolicyVersion f =? BpVersion policy) && negb (bool_decide (SourceID f ∈ seen))
      then f :: firsts ({[SourceID f]} ∪ seen) facts else firsts seen facts
  end.
(** It is confirmed, and a cycle has started since. *)
Definition effective (f : BudgetReleaseFact) : bool :=
  match parse_date (RfOn f) with
  | Ok c => negb (After c valuation) && negb (After (takes_hold (BpCycleDay policy) c) on)
  | _ => false
  end.
Definition retained : Z := default 0 (RetainMinor policy).
(** What a statement takes from the limit: the fall in the instalment less what
    the rule keeps of it. *)
Definition taken (f : BudgetReleaseFact) : Z :=
  match BeforeMinor f, AfterMinor f with
  | Some before, Some after =>
      if before <=? after then 0
      else before - after - kept_exact cr (ReleasedPaymentRule policy) retained (default 0 (RetainPercentPPB policy)) (before - after)
  | _, _ => 0
  end.

Lemma taken_reduction f before after r :
  String.eqb (ReleasedPaymentRule policy) RollAll = false →
  BeforeMinor f = Some before → AfterMinor f = Some after → before ≤ MaxInt64 → after ≤ MaxInt64 →
  ReleasedReduction (FromMinor before cr) (FromMinor after cr) (ReleasedPaymentRule policy)
    (match RetainMinor policy with Some n => FromMinor n cr | None => Zero cr end) (default 0 (RetainPercentPPB policy)) true = Ok r →
  cur r = cr ∧ minor r = taken f ∧ 0 ≤ minor r ≤ MaxInt64.
Proof.
  intros Hroll Eb Ea Hb Ha H. apply ReleasedReduction_exact in H as (_ & _ & Hc & H0b & H0a & Hr & E); [|done|done].
  cbn in Hc, H0b, H0a, Hr, E. split; [done|]. split; [|lia]. unfold taken. rewrite Eb, Ea, E, Hroll, orb_false_r.
  destruct (before <=? after); [done|]. unfold retained. by destruct (RetainMinor policy).
Qed.

Lemma release_facts_spec facts : ∀ seen limit r,
  String.eqb (ReleasedPaymentRule policy) RollAll = false →
  Forall (λ f, default 0 (BeforeMinor f) ≤ MaxInt64 ∧ default 0 (AfterMinor f) ≤ MaxInt64) facts →
  cur limit = cr → 0 ≤ minor limit ≤ MaxInt64 →
  release_facts cr policy on valuation seen facts limit = Ok r →
  cur r = cr ∧ 0 ≤ sum_by taken (List.filter effective (firsts seen facts)) ∧
  minor r = Z.max 0 (minor limit - sum_by taken (List.filter effective (firsts seen facts))).
Proof.
  induction facts as [|f facts IH]; intros seen limit r Hroll Hf Hc Hl H; [injection H as <-; cbn; split_and!; [done|lia|lia]|].
  apply Forall_cons in Hf as [[Hfb Hfa] Hf]. cbn [release_facts] in H. cbn [firsts].
  destruct (Z.eqb_spec (PolicyVersion f) (BpVersion policy)); cbn [negb orb andb] in *; [|by eapply IH].
  destruct (bool_decide (SourceID f ∈ seen)); cbn [negb orb andb] in *; [by eapply IH|].
  apply bind_Ok in H as (c & Ec & H). apply core_Ok in Ec. 
  assert (effective f = negb (After c valuation) && negb (After (takes_hold (BpCycleDay policy) c) on)) as Ef by (unfold effective; by rewrite Ec).
  cbn [List.filter]. rewrite Ef. clear Ef.
  destruct (After c valuation); cbn [negb orb andb] in *; [by eapply IH|].
  destruct (After (takes_hold _ c) on); cbn [negb orb andb] in *; [by eapply IH|].
  destruct (BeforeMinor f) as [before|] eqn:Eb; [|done]. destruct (AfterMinor f) as [after|] eqn:Ea; [|done]. cbn in Hfb, Hfa.
  apply bind_Ok in H as (red & Hred & H). apply (taken_reduction f before after) in Hred as (Hcr & Et & Hr); [|done..].
  apply bind_Ok in H as (lim & Hsub & H). apply core_Ok in Hsub.
  apply Sub_nonneg_iff in Hsub as ->; [|lia|lia|congruence].
  apply IH in H as (Hc' & H0 & ->); [|done|done|case_match; done|].
  - change (sum_by taken (f :: ?l)) with (taken f + sum_by taken l). rewrite <- Et. split_and!; [done|lia|]. rewrite Sign_neg_iff. cbn. case_match; cbn; lia.
  - rewrite Sign_neg_iff. cbn [minor]. destruct (Z.ltb_spec (minor limit - minor red) 0); cbn [minor Zero]; lia.
Qed.
End Released.

(** * Properties *)

(** The limit of a day under a pause. *)
Definition paused_limit (sp : SpendingPlan) (valuation start d : Date) : Amount :=
  if Before d start
  then if Equal (PeriodStart sp d) (PeriodStart sp valuation) then FromMinor (minor (Spent sp)) (cur (SpMonthly sp)) else Zero (cur (SpMonthly sp))
  else fst (terms_on sp d).

(** Where the limit of a paused day lies above the approved one. *)
Lemma paused_limit_raises sp valuation start d : 0 ≤ minor (fst (terms_on sp d)) →
  minor (fst (terms_on sp d)) < minor (paused_limit sp valuation start d) ↔
  Before d start = true ∧ Equal (PeriodStart sp d) (PeriodStart sp valuation) = true ∧
    minor (fst (terms_on sp d)) < minor (Spent sp).
Proof.
  intros H0. unfold paused_limit. destruct (Before d start), (Equal (PeriodStart sp d) (PeriodStart sp valuation)); cbn [minor FromMinor Zero];
    split; intros H; try (destruct H as (? & ? & ?)); try done; lia.
Qed.

(** C24. What a pause replaces. Up to the horizon, before the pause ends, a day's
    limit is replaced by what was already spent in the cycle of the valuation, and
    by nothing in a later one; from its end on it is the approved limit of that
    day; and on every day the carry rule is the approved one. What was spent and
    the day cycles start stay as they were. So a pause lowers a limit or leaves it,
    with one exception: on a day of the valuation's cycle before the pause ends
    whose approved limit is below what was spent, it raises the limit to that. On
    the valuation day itself there is no such exception, since a plan that is
    already overspent then is left as it is; a cut that takes effect later in the
    cycle is hidden ([pause_hides_later_cut]). *)
Theorem pause_keeps sp valuation start :
  0 ≤ CycleDay sp ≤ 31 → Forall (λ c, written_date (ScOn c)) (Changes sp) →
  valid valuation → 1 ≤ Year valuation ≤ 9949 → written_date start → time valuation < time start →
  ∃ sp', pause sp valuation start = Ok sp' ∧
  ((minor (fst (terms_on sp valuation)) < minor (Spent sp) ∧ sp' = sp) ∨
   (minor (Spent sp) ≤ minor (fst (terms_on sp valuation)) ∧ Spent sp' = Spent sp ∧ CycleDay sp' = CycleDay sp ∧
    ∀ d, valid d → time valuation ≤ time d ≤ time (EndOfMonth (AddMonths valuation DefaultHorizon)) →
    terms_on sp' d = (paused_limit sp valuation start d, snd (terms_on sp d)) ∧
    (0 ≤ minor (fst (terms_on sp d)) →
      minor (fst (terms_on sp d)) < minor (fst (terms_on sp' d)) ↔
      Before d start = true ∧ Equal (PeriodStart sp d) (PeriodStart sp valuation) = true ∧
        minor (fst (terms_on sp d)) < minor (Spent sp)))).
Proof.
  intros Hp Hch Hv Hy Hs Hvs. unfold pause.
  destruct (Z.ltb_spec (minor (fst (terms_on sp valuation))) (minor (Spent sp))) as [Hlt|Hle]; [exists sp; auto|].
  destruct (pause_days_spec sp Hp Hch valuation start Hv Hy Hs Hvs) as (days & -> & Hsort & Hdays & Hvin & Hsin & Hbs & Hcs).
  eexists. split; [reflexivity|]. right. split_and!; [done..|]. intros d Hd Hin.
  match goal with |- ?t = _ ∧ _ => enough (t = (paused_limit sp valuation start d, snd (terms_on sp d))) as ->
    by (split; [done|apply paused_limit_raises]) end.
  unfold terms_on at 1. cbn [Changes SpMonthly SpOverrides CarryRule CarryMinimum CarryUntil]. rewrite Forall_forall in Hdays.
  destruct (in_force_at (λ y, Ok (paused_change sp valuation start y)) days (paused_change sp valuation start <$> days) valuation d
    (default (SpMonthly sp) (SpOverrides sp !! MonthKey (PeriodStart sp d)), (CarryRule sp, CarryMinimum sp, CarryUntil sp)))
    as (x & c & before & Hx & Hxd & Hgap & [= <-] & Hb & E); try done.
  - apply Forall2_fmap_r, Forall_Forall2_diag, Forall_forall. done.
  - intros y c [= <-]. unfold paused_change. by destruct (terms_on sp y) as [? [[? ?] ?]].
  - apply Forall_forall. intros y Hy'. apply (Hdays y Hy').
  - lia.
  - replace (PeriodStart (MkSpendingPlan _ _ _ _ _ _ _ _ _ _) d) with (PeriodStart sp d) by done. rewrite E.
    destruct (Hdays x Hx) as [[Hvx _] _].
    destruct (paused_ext sp Hp Hch valuation Hv Hy days x d Hbs Hcs Hgap Hvx Hd Hxd (proj2 Hin)) as [Es Et].
    rewrite paused_carry; [|done|done| |done].
    + unfold paused_limit. rewrite Et. f_equal. unfold paused_change. rewrite Es. destruct (terms_on sp x) as [limit [[rule m] u]]. cbn.
      replace (Before d start) with (Before x start); [done|]. destruct Hs as [Hs _]. rewrite !Before_time by done.
      destruct (Z.ltb_spec (time x) (time start)), (Z.ltb_spec (time d) (time start)); try done; [|lia].
      pose proof (Hgap start Hsin ltac:(lia)). lia.
    + eapply Forall_impl; [exact Hb|]. intros c (y & Hy' & Hle' & [= <-]). exists y. split_and!; [apply (Hdays y Hy')|done|done].
Qed.

(** The two readings of the policies agree. The permissions look for the
    policy in force in the list sorted by day and version and keep the last one
    that has taken effect; the period of a statement looks through the list as it
    is stored and keeps the latest. When no two policies have the same day and
    version they find the same policy on every day, in whatever order the policies
    are stored. *)
Theorem latest_agrees policies on :
  (∀ p q, p ∈ policies → q ∈ policies → EffectiveFrom p = EffectiveFrom q → BpVersion p = BpVersion q → p = q) →
  active_at (SliceStable policy_before policies) on = latest policies on.
Proof.
  intros Hties. apply (is_latest_unique on (SliceStable policy_before policies) policies).
  - apply SliceStable_perm.
  - intros p q. rewrite !SliceStable_perm. apply Hties.
  - apply active_at_is, SliceStable_sorted; [apply policy_before_asym|apply not_after_policy_trans].
  - apply latest_is.
Qed.

Lemma latest_agrees_witness :
  active_at (SliceStable policy_before (Policies sample_budget)) "2025-06-10" = latest (Policies sample_budget) "2025-06-10" ∧
  BpVersion <$> latest (Policies sample_budget) "2025-06-10" = Some 2.
Proof.
  split; [|vm_compute; reflexivity]. apply (latest_agrees (Policies sample_budget) "2025-06-10").
  intros p q Hp Hq _ E. cbn in Hp, Hq.
  apply elem_of_cons in Hp as [->|[->|Hp%elem_of_nil]%elem_of_cons]; [| |destruct Hp];
    (apply elem_of_cons in Hq as [->|[->|Hq%elem_of_nil]%elem_of_cons]; [| |destruct Hq]); try reflexivity; discriminate E.
Defined.

(** Released payments take permission away and no more than they must. Under
    a rule that rolls everything the limit stands. Otherwise it falls by what each
    confirmed change of an instalment releases, less what the rule keeps, each
    source counted once and only from the first boundary after its confirmation; it
    never rises, never goes below zero, and keeps its currency. *)
Theorem releasedLimit_exact b policy limit on valuation r :
  releasedLimit b policy limit on valuation = Ok r →
  Forall (λ f, default 0 (BeforeMinor f) ≤ MaxInt64 ∧ default 0 (AfterMinor f) ≤ MaxInt64) (Releases b) →
  cur limit = cur (BuMonthly b) → 0 ≤ minor limit ≤ MaxInt64 →
  cur r = cur limit ∧ 0 ≤ minor r ≤ minor limit ∧
  minor r =
    (if String.eqb (ReleasedPaymentRule policy) RollAll then minor limit
     else Z.max 0 (minor limit - sum_by (taken (cur limit) policy) (List.filter (effective policy on valuation) (firsts policy ∅ (Releases b))))).
Proof.
  intros H Hf Hc Hl. unfold releasedLimit in H.
  destruct (String.eqb (ReleasedPaymentRule policy) RollAll) eqn:E; [injection H as <-; split_and!; done || lia|].
  rewrite <- Hc in H. apply release_facts_spec in H as (Hcr & H0 & Hr); [|done..]. rewrite Hr. split_and!; done || lia.
Qed.

Definition second_policy : BudgetPolicy :=
  sample_policy 2 30000000 "2025-06-10" ReleaseAll (Some (MkPolicyGrowth 1 "2025-07-01" "2025-12-31" (Some 1000000) None None)).
Lemma releasedLimit_exact_witness :
  releasedLimit sample_budget second_policy (MkAmount 32000000 AMD) (MkDate 2025 8 20) (MkDate 2025 7 25) = Ok (MkAmount 27000000 AMD) ∧
  27000000 = Z.max 0 (32000000 -
    sum_by (taken AMD second_policy) (List.filter (effective second_policy (MkDate 2025 8 20) (MkDate 2025 7 25)) (firsts second_policy ∅ (Releases sample_budget)))).
Proof.
  assert (releasedLimit sample_budget second_policy (MkAmount 32000000 AMD) (MkDate 2025 8 20) (MkDate 2025 7 25) = Ok (MkAmount 27000000 AMD)) as H
    by (vm_compute; reflexivity).
  split; [exact H|].
  exact (proj2 (proj2 (releasedLimit_exact _ _ _ _ _ _ H ltac:(repeat constructor; discriminate) eq_refl ltac:(split; discriminate)))).
Defined.

(** A limit of 300,000 with 80,000 spent in March; 350,000 from June. *)
Definition pausing_plan (second : SpendingChange) : SpendingPlan :=
  MkSpendingPlan true 1 [MkSpendingChange (MkDate 2025 3 1) (MkAmount 30000000 AMD) CarryCash no_amount zero_date; second] ""
    CarryCash no_amount zero_date (MkAmount 30000000 AMD) ∅ (MkAmount 8000000 AMD).
Definition raised_in_june : SpendingPlan :=
  pausing_plan (MkSpendingChange (MkDate 2025 6 10) (MkAmount 35000000 AMD) NoCarry no_amount zero_date).

Lemma pause_keeps_witness :
  ∃ sp', pause raised_in_june (MkDate 2025 3 10) (MkDate 2025 5 1) = Ok sp' ∧
    terms_on sp' (MkDate 2025 3 20) = (MkAmount 8000000 AMD, (CarryCash, no_amount, zero_date)) ∧
    terms_on sp' (MkDate 2025 4 20) = (MkAmount 0 AMD, (CarryCash, no_amount, zero_date)) ∧
    terms_on sp' (MkDate 2025 6 20) = (MkAmount 35000000 AMD, (NoCarry, no_amount, zero_date)).
Proof.
  destruct (pause_keeps raised_in_june (MkDate 2025 3 10) (MkDate 2025 5 1)) as (sp' & H & [[Hlt _]|(_ & _ & _ & Ht)]).
  - split; discriminate.
  - repeat constructor; cbn; lia.
  - repeat split; discriminate.
  - split; discriminate.
  - repeat split; discriminate.
  - vm_compute. reflexivity.
  - exfalso. vm_compute in Hlt. discriminate Hlt.
  - exists sp'. split; [exact H|].
    split_and!; (etrans; [apply Ht; repeat split; vm_compute; discriminate|]); vm_compute; reflexivity.
Defined.

(** A limit that falls below what was spent, later in the cycle but before the
    pause ends: the plan alone would be refused for that day, the paused one shows
    the spent figure as its limit. *)
Definition cut_in_march : SpendingPlan :=
  pausing_plan (MkSpendingChange (MkDate 2025 3 20) (MkAmount 4000000 AMD) CarryCash no_amount zero_date).
Example pause_hides_later_cut :
  minor (fst (terms_on cut_in_march (MkDate 2025 3 20))) = 4000000 ∧
  match pause cut_in_march (MkDate 2025 3 10) (MkDate 2025 5 1) with
  | Ok sp' => minor (fst (terms_on sp' (MkDate 2025 3 20)))
  | _ => 0
  end = minor (Spent cut_in_march).
Proof. vm_compute. split; reflexivity. Qed.
