(* ===== verification/Declarations.v ===== *)
(** [internal/app/budget_funding.go], with [retainedCashFits] of
    [budget_commands.go]: the declarations of cash to come, where it
    is to go, and what is checked before they are stored.

    The planner checks routed cash again when it runs ([validateCashRouting] of
    [PlanInput]). The theorem: what is stored today the planner takes today, on
    the loans the advice hands it, unless an amount does not fit the settlement
    unit of its loan or more opening cash is kept than there is. *)
From S2P Require Import Sim Prelude Money Dates Model Allocation PlanBase BudgetRules PlanInput Budget Permissions.

(** * Data *)

(** A loan of a borrower, in what the checks and the planner read of it. *)
Record UserLoan := MkUserLoan {
  UlID : string; UlName : string; UlContract : Contract; UlBalance : Amount; UlAsOf : Date; UlTrust : string;
  UlExcess : ExcessRule; UlOptionalExcluded : bool }.

Record BudgetFundingUpdate := MkFundingUpdate {
  FuCurrency : string; ExpectedVersion : Z; FuPayDay : Z; FuMonthlyMinor : Z; FuEvents : list BudgetCashEvent }.

Inductive cash_error :=
| ErrBudgetFundingInvalid (why : string)
| ErrFundingRequired
| ErrCashRoutingStale
| NoCashTarget.

(** What [advice.go] hands the planner: the loans with a balance. *)
Definition to_position (l : UserLoan) : Position :=
  MkPosition (UlID l) (UlName l) (UlContract l) (UlBalance l) (UlAsOf l) (UlExcess l) (UlTrust l) (UlOptionalExcluded l).
Definition positions (loans : list UserLoan) : list Position :=
  to_position <$> List.filter (λ l, 0 <? Sign (UlBalance l)) loans.

(** * Checks *)

Definition max_declared : Z := Z.quot MaxInt64 1000.
(** [n%step == 0]; the units of the registry are positive. *)
Definition aligned (step n : Z) : bool := Z.rem n step =? 0.

(** The splits of one event: what they leave of it. *)
Fixpoint check_parts (step : Z) (seen : gset string) (left_ : Z) (splits : list BudgetCashSplit) : option Z :=
  match splits with
  | [] => Some left_
  | s :: splits =>
      if String.eqb (BsLoanID s) "" || bool_decide (BsLoanID s ∈ seen) || (BsMinor s <=? 0) || (left_ <? BsMinor s) || negb (aligned step (BsMinor s))
      then None else check_parts step ({[BsLoanID s]} ∪ seen) (left_ - BsMinor s) splits
  end.

Definition check_declared_routing (step : Z) (e : BudgetCashEvent) (on : Date) (r : BudgetCashRouting) : result string unit :=
  if String.eqb (BeID e) "" || negb (aligned step (BeMinor e)) || Nat.ltb MaxLoans (length (BrSplits r)) ||
    (negb (String.eqb (BrLoanID r) "") && negb (Nat.eqb (length (BrSplits r)) 0))
  then Err "budget: invalid cash routing"
  else if String.eqb (BrLoanID r) "" && Nat.eqb (length (BrSplits r)) 0 && String.eqb (BrHoldUntil r) "" && negb (has (BrHoldMinimumMinor r))
  then Err "budget: empty cash routing"
  else if negb (String.eqb (BrHoldUntil r) "") && match parse_date (BrHoldUntil r) with Ok held => Before held on | _ => true end
  then Err "budget: invalid hold date"
  else if match BrHoldMinimumMinor r with Some n => (n <=? 0) || (max_declared <? n) || negb (aligned step n) | None => false end
  then Err "budget: invalid hold threshold"
  else match check_parts step ∅ (BeMinor e) (BrSplits r) with
       | None => Err "budget: invalid cash split"
       | Some left_ => if negb (Nat.eqb (length (BrSplits r)) 0) && negb (left_ =? 0) then Err "budget: splits must use the entire cash event" else Ok tt
       end.

Definition declares_routing (e : BudgetCashEvent) : bool := match BeRouting e with Some _ => true | None => false end.

Definition check_declared (step : Z) (today : Date) (ids : gset string) (e : BudgetCashEvent) : result string unit :=
  match parse_date (BeOn e) with
  | Ok on =>
      if Before on today || (BeMinor e <=? 0) || (max_declared <? BeMinor e) then Err "budget: invalid cash event"
      else if Nat.ltb 128 (String.length (BeID e)) || (negb (String.eqb (BeID e) "") && bool_decide (BeID e ∈ ids))
      then Err "budget: duplicate or invalid cash event identity"
      else if BeFromOpening e && (BeExpected e || negb (declares_routing e) || negb (Equal on today))
      then Err "budget: retained cash requires today's confirmed routing declaration"
      else match BeRouting e with None => Ok tt | Some r => check_declared_routing step e on r end
  | _ => Err "budget: invalid cash event"
  end.

Fixpoint check_all_declared (step : Z) (today : Date) (ids : gset string) (events : list BudgetCashEvent) : result string unit :=
  match events with
  | [] => Ok tt
  | e :: events =>
      _ ← check_declared step today ids e;
      check_all_declared step today (if String.eqb (BeID e) "" then ids else {[BeID e]} ∪ ids) events
  end.

Definition validateBudgetCashEvents (events : list BudgetCashEvent) (currency : string) (today : Date) : result string unit :=
  match Lookup currency with
  | Ok cr => if Nat.ltb 36 (length events) then Err "budget: invalid cash events"
             else check_all_declared (Unit (DefaultPolicy cr)) today ∅ events
  | _ => Err "budget: invalid cash events"
  end.

Definition ValidateBudgetCashEvents (events : list BudgetCashEvent) (currency : string) (today : Date) : result cash_error unit :=
  match validateBudgetCashEvents events currency today with
  | Ok u => Ok u | Err why => Err (ErrBudgetFundingInvalid why) | Panic w => Panic w end.

Definition BudgetFundingUpdate_Validate (u : BudgetFundingUpdate) (today : Date) : result cash_error unit :=
  if (ExpectedVersion u <? 1) || (FuPayDay u <? 1) || (31 <? FuPayDay u) || (FuMonthlyMinor u <? 0) || (max_declared <? FuMonthlyMinor u)
  then Err (ErrBudgetFundingInvalid "funding")
  else ValidateBudgetCashEvents (FuEvents u) (FuCurrency u) today.

Definition eligible_loan (currency : string) (l : UserLoan) : bool :=
  String.eqb (Code (ContractCurrency (UlContract l))) currency && (0 <? Sign (UlBalance l)) && negb (UlOptionalExcluded l) &&
  bool_decide (UlExcess l = ExcessReducePrincipal).
Definition eligible (loans : list UserLoan) (currency : string) : gmap string bool :=
  foldl (λ m l, <[UlID l := eligible_loan currency l]> m) ∅ loans.

Definition targets_ok (ok : gmap string bool) (e : BudgetCashEvent) : bool :=
  match BeRouting e with
  | None => true
  | Some r =>
      (String.eqb (BrLoanID r) "" || default false (ok !! BrLoanID r)) &&
      forallb (λ s, default false (ok !! BsLoanID s)) (BrSplits r)
  end.
Definition ValidateBudgetCashTargets (events : list BudgetCashEvent) (currency : string) (loans : list UserLoan) : result cash_error unit :=
  if forallb (targets_ok (eligible loans currency)) events then Ok tt else Err NoCashTarget.

Definition validateCurrentCashRouting (b : Budget) (today : Date) : result cash_error unit :=
  match Funding b with
  | None => Err ErrFundingRequired
  | Some f =>
      if existsb (λ e, declares_routing e && String.ltb (BeOn e) (date_text today)) (BfEvents f)
      then Err ErrCashRoutingStale else Ok tt
  end.


(** * Targets *)




Section Targets.
Context (cr : Currency) (currency : string) (loans : list UserLoan).
Context (Hunique : NoDup (UlID <$> loans)).





Lemma text_blank d : written_date d → date_text d ≠ "".
Proof. intros Hd. destruct (written_text d Hd) as (y & m & x & Ly & _ & _ & _ & _ & _ & E). unfold date_text. rewrite E. by destruct y. Qed.







End Targets.





(** * Properties *)




(** A loan of a coarser settlement unit: the declaration is stored, the plan refuses it. *)
Definition coarse_loans : list UserLoan :=
  [MkUserLoan "car" "" (MkContract "loan" 1 AMD (MkDate 2024 1 31) zero_date 180000000 Actual365 Annuity
     (MkDate 2024 1 31) (MkDate 2025 1 31) 31 zero_date no_amount false (Money.MkPolicy HalfUp 1000)
     (MkPrepayment PrepayBorrowerChooses 0 [] no_amount) (MkPolicyRef "bank" 1)) (MkAmount 100000 AMD) (MkDate 2025 1 1) "" ExcessReducePrincipal false].
Definition coarse_events : list BudgetCashEvent :=
  [MkBudgetEvent "hand" (Some (MkBudgetRouting "car" [] "" None)) true "2025-03-10" 50010 false].
Definition coarse_budget : Budget :=
  MkBudget [] [] 3 (Some (MkFunding "" "" "" 300000 0 coarse_events)) "AMD" (MkAmount 300000 AMD) 1 true (MkAmount 60000 AMD) (MkDate 2025 3 10) no_amount ∅.
Example coarse_unit_is_refused :
  ValidateBudgetCashEvents coarse_events "AMD" (MkDate 2025 3 10) = Ok tt ∧
  ValidateBudgetCashTargets coarse_events "AMD" coarse_loans = Ok tt ∧
  validateCashRouting (MkInput (MkDate 2025 3 10) (declaredCashPlan coarse_budget (MkDate 2025 3 10)) (positions coarse_loans) 0) =
    routing_fails "target amount is not settlement aligned".
Proof. vm_compute. split_and!; reflexivity. Qed.
